(* ===== verification/_CoqProject ===== *)
-Q . S2P
Prelude.v
Varint.v
Zrle.v
Geometry.v
Container.v
Cursor.v
Queue.v
TileCopy.v
Encoder.v
Decoder.v
CodecSync.v
FrameChannel.v
Record.v
Handshake.v
Keys.v
Session.v
SessionProps.v
CodecProps.v
Clipboard.v
ClipboardProps.v
Audio.v
ClipboardPath.v
ClipboardFiles.v
ClipboardFilesProps.v
AgentProto.v
AgentFrame.v
AgentHost.v
AgentGuest.v
CoreVm.v
CoreGpu.v
CoreDisplay.v
AgentServe.v
AgentOpenProps.v
AgentServeProps.v
AgentTalk.v
VmStatus.v
AgentThread.v
AgentThreadProps.v
StatusProps.v
Stateful.v
Qcow2Header.v
Qcow2Image.v
Qcow2Session.v
ImportPlan.v
ImportCopy.v
ImportDrive.v
ImportProps.v
Threads.v
ThreadsProps.v
Registries.v
CoreRequest.v
Layout.v
HostFiles.v
Json.v
HcsConfig.v
HcsConfigProps.v
Metadata.v
Creation.v
CreationLaws.v
MetadataProps.v
CreationProps.v
DeletionProps.v
Start.v
StartProps.v
StartNetwork.v
GuestReady.v
CycleProps.v
Subnet.v
Dhcp.v
PayloadFiles.v
PayloadKind.v
PayloadPublish.v
PayloadArchive.v
PayloadCache.v
PayloadStaging.v
PayloadCatalog.v
DisplayPayload.v
GpuPayload.v
