(* ===== verification/Prelude.v ===== *)
(** * VMLord: a verification development

    VMLord (Rust) runs Linux guests under Hyper-V: it creates and deletes them,
    talks to an agent inside each, and shows their desktops in a window of the
    host.  This library models the code with logic of its own in each of these:
    the desktop codec (crates/display-codec), the display protocol
    (crates/display-protocol), the agent protocol and both ends of an agent's
    session (crates/agent-protocol, crates/agent, crates/platform), the domain
    (crates/core) with the statuses derived from it (crates/app), the reader of
    disk images (crates/image) and their import, the registries of background
    work, and the life of a VM from its request to its deletion
    (crates/platform), and the store of the payloads a release ships
    (crates/payload).

    ** The program, and where it is modelled

    A VM is requested, created on the host and recorded in a document; its disk
    is copied out of a downloaded image.  Once it runs, an agent in the guest
    opens a session with a host thread, which asks it for the GPU and the
    display, and what it reports becomes the status a person reads.  A daemon in
    the guest captures frames, the encoder turns a staged frame into a payload, a
    record delimits it on a socket bound to a session by a handshake, and the
    viewer's decoder applies it; further channels carry input, the clipboard and
    sound.

    The desktop codec, one file per source file:

    - Varint.v (with the errors), Zrle.v, Geometry.v, Container.v, Cursor.v, Queue.v:
      refusals, the compressor, the tile grid, headers, cursor records, staging;
    - TileCopy.v, Encoder.v, Decoder.v: both ends, the partial frame of a refused
      payload included;
    - CodecSync.v: one payload across both ends; FrameChannel.v: both ends and
      the channel between them as a transition system; CodecProps.v: properties
      part by part, and how large a payload gets.

    The display protocol:

    - Record.v (record.rs): records over a transport that answers in pieces,
      times out, is interrupted or fails;
    - Handshake.v, Keys.v, Session.v (handshake.rs, keys.rs, session.rs), and
      SessionProps.v: versions, keys, both state machines and the bind of a
      channel;
    - Clipboard.v (clipboard.rs, the dispatch of clipboard_main.rs and the focus
      rule of windows/clipboard.rs), ClipboardProps.v, ClipboardPath.v,
      ClipboardFiles.v, ClipboardFilesProps.v: selections, names and file trees;
    - Audio.v (audio.rs): silence suppression and stream positions.

    The agent:

    - AgentProto.v, AgentFrame.v (crates/agent-protocol): messages, agreements,
      the proof, the backoff, and frames over a stream;
    - AgentHost.v (opening), AgentServe.v (serving) of platform/agent_session.rs;
      AgentGuest.v (agent/session.rs); AgentTalk.v: the two together;
      AgentOpenProps.v, AgentServeProps.v;
    - AgentThread.v (platform/agent.rs), AgentThreadProps.v: the gate in front of
      a session and the loop over connections.

    The domain and what a person reads:

    - CoreVm.v, CoreGpu.v, CoreDisplay.v, CoreRequest.v (crates/core): machines,
      their GPU and display, and what may be asked for;
    - VmStatus.v (gpu_runs.rs, display_runs.rs, display_update.rs of platform;
      gpu.rs and display.rs of app), StatusProps.v: facts, and statuses.

    Disk images:

    - Qcow2Header.v, Qcow2Image.v (crates/image), Qcow2Session.v: an image is
      vetted, opened, sought and read, as a stream of bytes (Stateful.v);
    - ImportPlan.v, ImportCopy.v, ImportDrive.v (platform/import), with
      ImportProps.v: the copy onto a disk, read back.

    Background work: Threads.v (shutdown_workers.rs, reboot_workers.rs,
    force_stop_workers.rs), ThreadsProps.v, and Registries.v (start_registry.rs,
    build.rs, display_updates.rs).

    The life of a VM (crates/platform):

    - Layout.v (layout.rs): where a VM's files are; HostFiles.v: the world the
      pipelines change, every call of which may fail part of the way;
    - Metadata.v (metadata.rs): the document that records every VM;
    - Creation.v (cleanup.rs, create.rs, delete.rs); CreationLaws.v: what is
      promised of the host, and a host that keeps it;
    - MetadataProps.v, CreationProps.v, DeletionProps.v.
    - Json.v, HcsConfig.v (hcs_config.rs, the ids of hvsocket.rs, attachment_paths
      of start.rs), HcsConfigProps.v: the configuration document of a VM and the
      edits of it;
    - Start.v (start.rs, force_stop.rs, tools_volume.rs): a start on a [Machine],
      which is the world with the facts of the GPU and the display and the record
      of what was asked of the host; the calls write it ([StartRecord],
      StartProps.v), the code cannot; StartProps.v: in which order; StartNetwork.v:
      on which network;
    - GuestReady.v (guest_ready.rs): the wait for a guest; CycleProps.v (cycle.rs):
      creation, start and wait in one run, and what it takes back;
    - Subnet.v (subnet.rs, host_dns.rs), Dhcp.v (dhcp.rs): the network of the
      guests and the server that tells them their addresses.

    Payloads, which a release ships for its guests (crates/payload), and the two
    kinds of them, on the world of HostFiles.v:

    - PayloadFiles.v: the calls of the file system; PayloadKind.v (entry.rs,
      prepared.rs, marker.rs): the interface a kind of payload meets the store at;
    - PayloadArchive.v (archive.rs): what an archive may put on the disk;
      PayloadCache.v (cache.rs): the cache of what was verified; PayloadPublish.v
      and PayloadStaging.v (staging.rs): into the directory a guest is reading, and
      as a generation with a marker that says it is ready;
    - PayloadCatalog.v (catalog.rs, release.rs): the entries of a release;
      DisplayPayload.v (crates/display-payload, platform/display_staging.rs) and
      GpuPayload.v (crates/gpu-payload, platform/gpu_staging.rs): the kinds, each
      with the interface of PayloadKind.v, and the way from a release to a VM.


    ** How code becomes a definition

    A definition keeps the name of what it models.  A struct is a [Record], an
    enum an [Inductive], a method a function from the state and the arguments to
    the state after it and the outcome.  A function that returns a [Result] and
    may index out of range has a [result] (below) with a third outcome, [Panic],
    so that "it is [Ok] or [Err]" also says that nothing on the way panicked.
    Handlers that fail but keep what they had stored run in a state-and-error
    monad (Session.v, Stateful.v, and [act] of HostFiles.v).  Bytes, pixels and
    counters are [Z] with their range stated where it matters; casts and
    wrapping, saturating and checked operations are written out.  Text is a list
    of code points.  A [while] or [loop] is a [Fixpoint], on the list it consumes
    or on fuel; where it takes fuel the caller gives enough by construction (a
    turn per tile, per byte, per chunk, per script event or per interval of a
    timeout) and running out is [Panic], which the theorems exclude.

    Code outside the repository is a parameter: the cryptographic primitives
    ([Crypto], Keys.v; HMAC in AgentProto.v), the Protobuf encodings ([Message],
    Session.v; [EnvelopeCodec], AgentProto.v), JSON ([MappingCodec], Metadata.v),
    the qcow crate ([Qcow], Qcow2Image.v), the drive and host calls of Windows
    ([RawDrive], ImportDrive.v; [HostCalls], Creation.v; [StartCalls], Start.v;
    [Polls], GuestReady.v), SHA-256 ([Hash256], PayloadFiles.v), the zip crate
    ([ZipCrate], PayloadArchive.v), the documents of a payload ([MarkerDocuments],
    [DisplayDocuments], [GpuDocuments]), serde_json's values ([Json], Json.v), the GUID form of
    an id ([Guids], HcsConfig.v), CRC-32C (Record.v) and Unicode lower-casing
    (ClipboardPath.v).  What is assumed of each is a class of
    laws of the same stem, which an executable instance keeps beside the
    witnesses.  Random draws, the clock, the order in which threads get on, what
    arrives on a socket and how each call of the host goes are arguments.

    ** What is shown

    - The frame channel: whatever the interleaving, every payload is accepted,
      neither end panics, and a drained viewer holds the encoder's reference; over
      an unchanging screen the sweep makes the reference the screen, however wrong
      the damage hints are.  Round trips of the compressor and the cursor; hostile
      bytes are refused without a panic.
    - Records are read back whatever pieces they arrive in.  Two ends of a
      display session with one secret agree on everything, another secret is
      refused, and a replaced connection is stale from then on.
    - The clipboard: what is copied is pasted, whole; a file tree is staged only
      at safe names, within the limits, and published only when it is whole.
      Filling the gaps of a sound stream gives back what was captured.
    - The agent: a peer that falls silent while a session is opened is given up;
      opening needs the proof and leaves both ends with the same agreement; the
      work of a session gets done in whatever order its frames are delivered; nobody's ask of an update or a reboot is lost; the guest does
      only what was agreed; what a person reads is what was last reported.
    - Images: a header is accepted exactly when it is acceptable; whatever is
      sought and read, the reader behaves as a file of the disk's bytes; a copied
      disk is the image's, and a copy that reports success was read back.
    - Background work: every request is answered exactly once and nothing started
      is lost, over any history.
    - The life of a VM: a creation leaves a whole VM or nothing, and leaves every
      other VM alone; a deletion is complete or can be repeated; housekeeping
      removes only what nobody owns; the document is a finite map.
    - A build: the document of a VM says what was asked for and every edit of it
      keeps to its place; no VM runs before its console is open and its files are
      granted, and one that is made for a start has its network; a wait always ends
      and says no more than it saw; a build hands over a VM that runs, or removes it.  A guest is
      served the address HNS assigned it, and nobody else is.
    - Payloads: what is prepared is what the release pinned, whatever the cache
      held; an archive expands within its limits; a guest that reads the directory
      it is published to never reads half a payload; a marker that is there stands
      for a whole generation, whatever failed on the way.  Both ways from a release
      to a VM end with what the chosen entry pins, or with an error; the order of a
      listing does not choose a display payload; and a GPU payload accounts for
      everything it was made from.
    - Several theorems show where the code does less than it says; each says so
      in its comment (SessionProps.v, ClipboardProps.v, ClipboardFilesProps.v,
      AgentOpenProps.v, AgentServeProps.v, StatusProps.v, Registries.v, Layout.v,
      MetadataProps.v, CreationProps.v, CycleProps.v).

    ** What is not modelled

    Sockets, compositors, Direct3D, WASAPI, ALSA and the Hyper-V calls
    themselves; the text of errors and log lines; zeroing of secrets and drawing
    of randomness; the generated Protobuf code; poisoned locks; the user
    interface.  Files are not linked to one another, so that a copy never writes through
    a link; and metadata can always be read, so
    that [Path::exists] tells what is there.  A transport is a list of events and
    then closed: what a peer could do without end is stated as a bound that does
    not depend on the length of the list.  Of the code with logic of its own,
    the seed, the settings of crates/core, the packing of payloads and the display
    services of the guest are left.

    This file holds what the components share: outcomes, machine integers,
    slices, byte order, the development's tactics and hints, and generic
    lemmas. *)

From Stdlib Require Export ZArith Lia.
From stdpp Require Export base list numbers option tactics.

(** ** Results

    A Rust function that returns [Result<A, E>] and indexes slices may also
    panic, so its model has three outcomes: [Ok], [Err] and [Panic].  A theorem
    that says the outcome is [Ok] or [Err] therefore also says that no slice
    index, no [expect] and no [unwrap] on the way went out of range. *)

Inductive result (E A : Type) : Type :=
| Ok (a : A)
| Err (e : E)
| Panic.
Arguments Ok {E A} a.
Arguments Err {E A} e.
Arguments Panic {E A}.

Declare Scope vm_scope.
Delimit Scope vm_scope with vm.

Definition rbind {E A B} (m : result E A) (k : A → result E B) : result E B :=
  match m with
  | Ok a => k a
  | Err e => Err e
  | Panic => Panic
  end.

Notation "'let?' x ':=' m 'in' k" := (rbind m (fun x => k))
  (at level 10, x pattern, m at level 100, k at level 200,
   format "'[v' 'let?'  x  ':='  m  'in' '/' k ']'") : vm_scope.

(** [Option::ok_or]. *)
Definition ok_or {E A} (o : option A) (e : E) : result E A :=
  match o with Some a => Ok a | None => Err e end.

(** An [expect], an [unwrap] or a slice index: absence is a panic. *)
Definition expect {E A} (o : option A) : result E A :=
  match o with Some a => Ok a | None => Panic end.

(** [Result::map_err]. *)
Definition map_err {E F A} (f : E → F) (m : result E A) : result F A :=
  match m with Ok a => Ok a | Err e => Err (f e) | Panic => Panic end.

Definition is_ok {E A} (m : result E A) : bool :=
  match m with Ok _ => true | _ => false end.

Definition no_panic {E A} (m : result E A) : Prop := m ≠ Panic.

#[global] Open Scope Z_scope.
#[global] Open Scope vm_scope.

(** [Option::is_some]. *)
Definition is_some {A} (o : option A) : bool := match o with Some _ => true | None => false end.

(** ** Machine integers

    An unsigned w-bit integer is a [Z] together with its range; operations wrap
    where the source's do. *)

Definition is_u8 (z : Z) : Prop := 0 <= z < 256.
Definition is_u16 (z : Z) : Prop := 0 <= z < 65536.
Definition is_u32 (z : Z) : Prop := 0 <= z < 4294967296.
Definition is_u64 (z : Z) : Prop := 0 <= z < 18446744073709551616.

Definition U16_MAX : Z := 65535.
Definition U32_MAX : Z := 4294967295.
Definition U64_MAX : Z := 18446744073709551615.
Definition USIZE_MAX : Z := 18446744073709551615.

(** The [as u8], [as u16] and [as u32] casts, and the wrapping operations. *)
Definition as_u8 (z : Z) : Z := z mod 256.
Definition as_u16 (z : Z) : Z := z mod 65536.
Definition as_u32 (z : Z) : Z := z mod 4294967296.

Definition u32_wrapping_add (a b : Z) : Z := as_u32 (a + b).
Definition u32_wrapping_sub (a b : Z) : Z := as_u32 (a - b).
Definition u32_saturating_add (a b : Z) : Z := Z.min (a + b) U32_MAX.
Definition u32_saturating_mul (a b : Z) : Z := Z.min (a * b) U32_MAX.
Definition u64_saturating_add (a b : Z) : Z := Z.min (a + b) U64_MAX.

(** [u32::div_ceil] and [u64::div_ceil]: both arguments are non-negative. *)
Definition div_ceil (a b : Z) : Z := (a + b - 1) / b.

(** [checked_add] on [usize], which is 64 bits wide on every target here. *)
Definition usize_checked_add (a b : Z) : option Z :=
  if a + b <=? USIZE_MAX then Some (a + b) else None.

(** ** Lists indexed by machine integers *)

Abbreviation zlen l := (Z.of_nat (length l)).

(** [slice.get(a..b)]: absent when the range is reversed or runs off the end. *)
Definition get_range {A} (l : list A) (a b : Z) : option (list A) :=
  if (0 <=? a) && (a <=? b) && (b <=? zlen l)
  then Some (take (Z.to_nat (b - a)) (drop (Z.to_nat a) l))
  else None.

(** [slice[a..b]] and [slice[a..]]. *)
Definition slice {E A} (l : list A) (a b : Z) : result E (list A) :=
  expect (get_range l a b).
Definition slice_from {E A} (l : list A) (a : Z) : result E (list A) :=
  slice l a (zlen l).

(** [slice[i]]. *)
Definition index {E A} (l : list A) (i : Z) : result E A :=
  if 0 <=? i then expect (l !! Z.to_nat i) else Panic.

(** [target[a..a + src.len()].copy_from_slice(src)]. *)
Definition splice {E A} (l : list A) (a : Z) (src : list A) : result E (list A) :=
  if (0 <=? a) && (a + zlen src <=? zlen l)
  then Ok (take (Z.to_nat a) l ++ src ++ drop (Z.to_nat a + length src) l)
  else Panic.

(** [slice[i] = v]. *)
Definition assign {E A} (l : list A) (i : Z) (v : A) : result E (list A) :=
  if (0 <=? i) && (i <? zlen l) then Ok (<[Z.to_nat i := v]> l) else Panic.

(** ** Little- and big-endian integers *)

Fixpoint to_le (n : nat) (v : Z) : list Z :=
  match n with
  | O => []
  | S n => v mod 256 :: to_le n (v / 256)
  end.

Fixpoint from_le (bytes : list Z) : Z :=
  match bytes with
  | [] => 0
  | b :: rest => b + 256 * from_le rest
  end.

Definition to_be (n : nat) (v : Z) : list Z := rev (to_le n v).
Definition from_be (bytes : list Z) : Z := from_le (rev bytes).

(** [bytes.chunks_exact(4).map(u32::from_le_bytes)], and its inverse. *)
Fixpoint u32s_of_bytes (bytes : list Z) : list Z :=
  match bytes with
  | b0 :: b1 :: b2 :: b3 :: rest => from_le [b0; b1; b2; b3] :: u32s_of_bytes rest
  | _ => []
  end.

Fixpoint bytes_of_u32s (pixels : list Z) : list Z :=
  match pixels with
  | [] => []
  | p :: rest => to_le 4 p ++ bytes_of_u32s rest
  end.

(** ** Automation *)

Create HintDb vm discriminated.
Create Rewrite HintDb vm_len.
#[export] Hint Constants Opaque : vm.
#[export] Hint Variables Transparent : vm.

(** Splits the conditionals of a goal or of a hypothesis, turning the boolean
    tests of the code into the propositions [lia] reads. *)
Ltac bool_to_prop :=
  repeat match goal with
  | H : (_ && _)%bool = true |- _ => apply andb_prop in H as [? ?]
  | H : (_ && _)%bool = false |- _ => apply andb_false_iff in H as [H|H]
  | H : (_ || _)%bool = true |- _ => apply orb_prop in H as [H|H]
  | H : (_ || _)%bool = false |- _ => apply orb_false_elim in H as [? ?]
  | H : negb _ = true |- _ => apply negb_true_iff in H
  | H : negb _ = false |- _ => apply negb_false_iff in H
  | H : (_ =? _) = true |- _ => apply Z.eqb_eq in H
  | H : (_ =? _) = false |- _ => apply Z.eqb_neq in H
  | H : (_ <=? _) = true |- _ => apply Z.leb_le in H
  | H : (_ <=? _) = false |- _ => apply Z.leb_gt in H
  | H : (_ <? _) = true |- _ => apply Z.ltb_lt in H
  | H : (_ <? _) = false |- _ => apply Z.ltb_ge in H
  end.

Ltac case_if :=
  match goal with
  | |- context [if ?b then _ else _] => let E := fresh "E" in destruct b eqn:E
  | H : context [if ?b then _ else _] |- _ => let E := fresh "E" in destruct b eqn:E
  end.

Ltac case_ifs := repeat (case_if; try discriminate); bool_to_prop.

(** Takes a successful chain of [let?] apart. *)
Ltac rbind_inv :=
  repeat match goal with
  | H : Ok _ = Ok _ |- _ => progress simplify_eq
  | H : rbind (ok_or ?o _) _ = Ok _ |- _ =>
      let E := fresh "E" in destruct o eqn:E; cbn [ok_or rbind] in H; try discriminate H
  | H : rbind (expect ?o) _ = Ok _ |- _ =>
      let E := fresh "E" in destruct o eqn:E; cbn [expect rbind] in H; try discriminate H
  | H : rbind ?m _ = Ok _ |- _ =>
      let E := fresh "E" in destruct m eqn:E; cbn [rbind] in H; try discriminate H
  | H : ok_or ?o _ = Ok _ |- _ =>
      let E := fresh "E" in destruct o eqn:E; cbn [ok_or] in H; try discriminate H
  | H : expect ?o = Ok _ |- _ =>
      let E := fresh "E" in destruct o eqn:E; cbn [expect] in H; try discriminate H
  end.

(** The same for the first step of [H] alone, with the names given. *)
Tactic Notation "rbind_step" hyp(H) "as" simple_intropattern(p) "," ident(Eq) :=
  match type of H with
  | rbind ?m _ = Ok _ =>
      destruct m as [p| |] eqn:Eq; cbn [rbind] in H; [|discriminate H|discriminate H]
  end.

Lemma no_panic_bind {E A B} (m : result E A) (k : A → result E B) :
  no_panic m → (∀ a, m = Ok a → no_panic (k a)) → no_panic (rbind m k).
Proof. unfold no_panic. destruct m; cbn; eauto; discriminate. Qed.

Lemma no_panic_ok {E A} (a : A) : no_panic (E:=E) (Ok a).
Proof. discriminate. Qed.

Lemma no_panic_err {E A} (e : E) : no_panic (A:=A) (Err e).
Proof. discriminate. Qed.

Lemma no_panic_ok_or {E A} (o : option A) (e : E) : no_panic (ok_or o e).
Proof. destruct o; discriminate. Qed.

#[export] Hint Resolve no_panic_ok no_panic_err no_panic_ok_or : vm.

(** ** Ranges *)

Lemma bool_true2 a b c d : a <= b → c <= d → ((a <=? b) && (c <=? d))%bool = true.
Proof. intros. rewrite andb_true_iff, !Z.leb_le. lia. Qed.

Lemma bool_true3 a b c d e f :
  a <= b ∧ c <= d ∧ e <= f → ((a <=? b) && (c <=? d) && (e <=? f))%bool = true.
Proof. intros. rewrite !andb_true_iff, !Z.leb_le. lia. Qed.

Lemma zlen_nonneg {A} (l : list A) : 0 <= zlen l.
Proof. lia. Qed.

Lemma get_range_inv {A} (l r : list A) a b :
  get_range l a b = Some r →
  0 <= a ∧ a <= b ∧ b <= zlen l ∧ r = take (Z.to_nat (b - a)) (drop (Z.to_nat a) l).
Proof. unfold get_range. intros H. case_ifs. injection H as <-. done. Qed.

Lemma get_range_length {A} (l r : list A) a b :
  get_range l a b = Some r → zlen r = b - a.
Proof.
  intros (?&?&?&->)%get_range_inv. rewrite length_take, length_drop. lia.
Qed.

Ltac range_inv :=
  repeat match goal with
  | H : get_range _ _ _ = Some _ |- _ => apply get_range_inv in H as (? & ? & ? & ->)
  end.

Lemma get_range_prefix {A} (l1 l2 : list A) b :
  b = zlen l1 → get_range (l1 ++ l2) 0 b = Some l1.
Proof.
  intros ->. unfold get_range. rewrite length_app.
  rewrite bool_true3 by lia.
  rewrite Z.sub_0_r, Nat2Z.id. change (Z.to_nat 0) with 0%nat. rewrite drop_0. by rewrite take_app_length.
Qed.

Lemma get_range_middle {A} (l1 l2 l3 : list A) a b :
  a = zlen l1 → b = zlen l1 + zlen l2 → get_range (l1 ++ l2 ++ l3) a b = Some l2.
Proof.
  intros -> ->. unfold get_range. rewrite !length_app.
  rewrite bool_true3 by lia.
  rewrite Nat2Z.id, drop_app_length. f_equal.
  replace (Z.to_nat _) with (length l2) by lia. by rewrite take_app_length.
Qed.

Lemma slice_from_ok {E A} (l : list A) a :
  0 <= a <= zlen l → slice_from (E:=E) l a = Ok (drop (Z.to_nat a) l).
Proof.
  intros. unfold slice_from, slice, get_range.
  rewrite bool_true3 by lia.
  cbn. f_equal. apply take_ge. rewrite length_drop. lia.
Qed.

Lemma slice_from_app {E A} (l1 l2 : list A) a :
  a = zlen l1 → slice_from (E:=E) (l1 ++ l2) a = Ok l2.
Proof.
  intros ->. rewrite slice_from_ok by (rewrite length_app; lia).
  by rewrite Nat2Z.id, drop_app_length.
Qed.

Lemma splice_ok {E A} (l src : list A) a :
  0 <= a → a + zlen src <= zlen l →
  splice (E:=E) l a src
  = Ok (take (Z.to_nat a) l ++ src ++ drop (Z.to_nat a + length src) l).
Proof.
  intros. unfold splice.
  by rewrite bool_true2 by lia.
Qed.

Lemma splice_inv {E A} (l src l' : list A) a :
  splice (E:=E) l a src = Ok l' →
  0 <= a ∧ a + zlen src <= zlen l ∧
  l' = take (Z.to_nat a) l ++ src ++ drop (Z.to_nat a + length src) l.
Proof.
  unfold splice. destruct (_ && _)%bool eqn:E'; intros; [|discriminate].
  bool_to_prop. by simplify_eq.
Qed.

Lemma assign_ok {E A} (l : list A) i v :
  0 <= i < zlen l → assign (E:=E) l i v = Ok (<[Z.to_nat i := v]> l).
Proof.
  intros. unfold assign. destruct (_ && _)%bool eqn:E'; [done|]. bool_to_prop; lia.
Qed.

Lemma index_ok {E A} (l : list A) i :
  0 <= i < zlen l → ∃ v, index (E:=E) l i = Ok v ∧ l !! Z.to_nat i = Some v.
Proof.
  intros. unfold index. replace (0 <=? i) with true by (symmetry; apply Z.leb_le; lia).
  destruct (lookup_lt_is_Some_2 l (Z.to_nat i)) as [v ->]; [lia|]. by exists v.
Qed.

(** ** Bits and bytes *)

(** A property of bytes that computes is checked by evaluation. *)
Lemma byte_by_computation (P : Z → bool) :
  forallb P (seqZ 0 256) = true → ∀ b, is_u8 b → P b = true.
Proof.
  intros HP b Hb. rewrite forallb_forall in HP. apply HP.
  apply list_elem_of_In, elem_of_seqZ. unfold is_u8 in Hb. lia.
Qed.

Lemma lor_shiftl_add a b s : 0 <= s → 0 <= a < 2 ^ s → Z.lor a (Z.shiftl b s) = a + b * 2 ^ s.
Proof.
  intros Hs Ha. rewrite <- Z.lxor_lor, <- Z.add_nocarry_lxor, Z.shiftl_mul_pow2; try lia.
  all: apply Z.bits_inj'; intros n Hn; rewrite Z.land_spec, Z.bits_0;
    destruct (Z.lt_ge_cases n s) as [Hlt|Hge];
    [rewrite (Z.shiftl_spec_low _ _ _ Hlt); apply andb_false_r|];
    replace (Z.testbit a n) with false; [done|];
    symmetry; destruct (Z.eq_dec a 0) as [->|]; [apply Z.bits_0|];
    apply Z.bits_above_log2; [lia|];
    apply Z.lt_le_trans with s; [apply Z.log2_lt_pow2; lia|lia].
Qed.

Lemma land_ones_mod a n : 0 <= n → Z.land a (2 ^ n - 1) = a mod 2 ^ n.
Proof. intros. rewrite <- Z.land_ones by done. f_equal. rewrite Z.ones_equiv. lia. Qed.

Lemma length_to_le n v : length (to_le n v) = n.
Proof. revert v. induction n; intros; cbn; auto. Qed.

Lemma to_le_u8 n v : Forall is_u8 (to_le n v).
Proof.
  revert v. induction n; intros; cbn; constructor; auto.
  unfold is_u8. apply Z.mod_pos_bound. lia.
Qed.

Lemma from_le_to_le n v : from_le (to_le n v) = v mod 256 ^ Z.of_nat n.
Proof.
  revert v. induction n as [|n IH]; intros v; cbn [to_le from_le].
  { by rewrite Z.mod_1_r. }
  rewrite IH, Nat2Z.inj_succ, Z.pow_succ_r by lia.
  rewrite Z.rem_mul_r by lia. lia.
Qed.

Lemma from_le_bound l : Forall is_u8 l → 0 <= from_le l < 256 ^ zlen l.
Proof.
  induction 1 as [|b l Hb Hl IH]; cbn [from_le length]; [lia|].
  rewrite Nat2Z.inj_succ, Z.pow_succ_r by lia. unfold is_u8 in Hb. lia.
Qed.

Lemma to_le_from_le l : Forall is_u8 l → to_le (length l) (from_le l) = l.
Proof.
  induction 1 as [|b l Hb Hl IH]; cbn [from_le length to_le]; [done|].
  unfold is_u8 in Hb. f_equal.
  - rewrite Z.mul_comm, Z.mod_add by lia. apply Z.mod_small; lia.
  - rewrite Z.mul_comm, Z.div_add by lia. rewrite Z.div_small by lia. done.
Qed.

Lemma from_le_to_le_u16 v : is_u16 v → from_le (to_le 2 v) = v.
Proof. intros. rewrite from_le_to_le. apply Z.mod_small. apply H. Qed.

Lemma from_le_to_le_u32 v : is_u32 v → from_le (to_le 4 v) = v.
Proof. intros. rewrite from_le_to_le. apply Z.mod_small. apply H. Qed.

(** A sixteen-bit field is two bytes that read back as it. *)
Lemma to_le_2 v : is_u16 v → ∃ a b, to_le 2 v = [a; b] ∧ from_le [a; b] = v.
Proof.
  intros Hv. exists (v mod 256), (v / 256 mod 256). split; [done|].
  change [_; _] with (to_le 2 v). by apply from_le_to_le_u16.
Qed.

Lemma to_le_4 v :
  is_u32 v → ∃ a b c d, to_le 4 v = [a; b; c; d] ∧ from_le [a; b; c; d] = v.
Proof.
  intros Hv. do 4 eexists. split; [reflexivity|].
  change (from_le (to_le 4 v) = v). by apply from_le_to_le_u32.
Qed.

Lemma as_u8_small v : is_u8 v → as_u8 v = v.
Proof. apply Z.mod_small. Qed.
Lemma as_u16_small v : is_u16 v → as_u16 v = v.
Proof. apply Z.mod_small. Qed.
Lemma as_u32_small v : is_u32 v → as_u32 v = v.
Proof. apply Z.mod_small. Qed.

Lemma from_be_to_be_u32 v : is_u32 v → from_be (to_be 4 v) = v.
Proof. unfold from_be, to_be. rewrite rev_involutive. apply from_le_to_le_u32. Qed.

Lemma lxor_u32 a b : is_u32 a → is_u32 b → is_u32 (Z.lxor a b).
Proof.
  unfold is_u32. intros Ha Hb. split; [apply Z.lxor_nonneg; lia|].
  destruct (Z.eq_dec (Z.lxor a b) 0) as [->|Hne]; [lia|].
  change 4294967296 with (2 ^ 32). apply Z.log2_lt_pow2.
  { pose proof (proj2 (Z.lxor_nonneg a b)). lia. }
  pose proof (Z.log2_lxor a b ltac:(lia) ltac:(lia)).
  assert (∀ v, 0 <= v < 4294967296 → Z.log2 v < 32).
  { intros v Hv. destruct (Z.eq_dec v 0) as [->|]; [cbn; lia|]. apply Z.log2_lt_pow2; lia. }
  pose proof (H0 a Ha). pose proof (H0 b Hb). lia.
Qed.

(** ** Pixels and their bytes *)

Lemma length_bytes_of_u32s px : length (bytes_of_u32s px) = (4 * length px)%nat.
Proof. induction px; cbn -[Nat.mul to_le]; rewrite ?length_app, ?length_to_le; lia. Qed.

Lemma bytes_of_u32s_app p q : bytes_of_u32s (p ++ q) = bytes_of_u32s p ++ bytes_of_u32s q.
Proof. induction p; cbn -[to_le]; [done|]. by rewrite IHp, app_assoc. Qed.

Lemma bytes_of_u32s_u8 px : Forall is_u8 (bytes_of_u32s px).
Proof. induction px; cbn -[to_le]; [constructor|]. apply Forall_app; auto using to_le_u8. Qed.

Lemma u32s_of_bytes_of_u32s px :
  Forall is_u32 px → u32s_of_bytes (bytes_of_u32s px) = px.
Proof.
  induction 1 as [|p px Hp Hpx IH]; [done|].
  cbn [bytes_of_u32s]. pose proof (from_le_to_le_u32 _ Hp) as Hrt.
  destruct (to_le 4 p) as [|b0 [|b1 [|b2 [|b3 [|]]]]] eqn:E;
    pose proof (length_to_le 4 p) as Hlen; rewrite E in Hlen; try discriminate Hlen.
  cbn [app u32s_of_bytes]. by rewrite IH, Hrt.
Qed.

Lemma bytes_of_u32s_of_bytes bs n :
  Forall is_u8 bs → length bs = (4 * n)%nat → bytes_of_u32s (u32s_of_bytes bs) = bs.
Proof.
  revert bs. induction n as [|n IH]; intros bs Hb Hlen.
  { by destruct bs. }
  destruct bs as [|b0 [|b1 [|b2 [|b3 bs]]]]; cbn in Hlen; try lia.
  do 4 (apply Forall_cons_1 in Hb as [? Hb]).
  cbn [u32s_of_bytes bytes_of_u32s]. 
  change 4%nat with (length [b0; b1; b2; b3]). rewrite to_le_from_le by auto.
  cbn [app]. by rewrite IH by (auto; lia).
Qed.

Lemma length_u32s_of_bytes bs n :
  length bs = (4 * n)%nat → length (u32s_of_bytes bs) = n.
Proof.
  revert bs. induction n as [|n IH]; intros bs Hlen.
  { by destruct bs. }
  destruct bs as [|b0 [|b1 [|b2 [|b3 bs]]]]; cbn in Hlen; try lia.
  cbn [u32s_of_bytes length]. rewrite IH; lia.
Qed.

Lemma u32s_of_bytes_u32 bs : Forall is_u8 bs → Forall is_u32 (u32s_of_bytes bs).
Proof.
  remember (length bs) as n eqn:Hn. revert bs Hn.
  induction n as [n IH] using lt_wf_ind. intros bs -> Hb.
  destruct bs as [|b0 [|b1 [|b2 [|b3 bs]]]]; cbn [u32s_of_bytes]; try constructor;
    do 4 (apply Forall_cons_1 in Hb as [? Hb]).
  - apply (from_le_bound [b0; b1; b2; b3]). auto.
  - apply (IH (length bs)); [cbn; lia|done|done].
Qed.

#[export] Hint Resolve to_le_u8 bytes_of_u32s_u8 u32s_of_bytes_u32 zlen_nonneg : vm.
#[export] Hint Rewrite length_to_le length_bytes_of_u32s : vm_len.
