(* ===== verification/Varint.v ===== *)
(** * What the codec refuses, and LEB128 over [u32]

    [codec_error] is the enum of [crates/display-codec/src/error.rs].

    [crates/display-codec/src/varint.rs], and [varint_len] of [encoder.rs].
    A varint is read from a byte list; the count of bytes it took comes back
    with its value. *)

From stdpp Require Import strings.
From S2P Require Import Prelude.

Inductive codec_error : Type :=
| GeometryError (detail : string)
| FrameSize (expected actual : Z)
| UnknownVersion (version : Z)
| UnknownMethod (method : Z)
| GridMismatch (columns rows : Z)
| TileIndexOutOfRange (index : Z)
| TileIndexNotIncreasing (index : Z)
| Truncated
| TrailingBytes
| RunOverflow
| NoBase
| WrongPayloadKind
| CursorTooLarge.

#[export] Instance codec_error_eq_dec : EqDecision codec_error.
Proof. solve_decision. Defined.

(** ** The code *)

(** The loop of [write].  A [u32] takes at most four continuation bytes, so
    fuel 5 never runs out (see [write_unfold] and [varint_len_write]). *)
Fixpoint write_loop (fuel : nat) (rest : Z) : list Z :=
  match fuel with
  | O => []
  | S fuel =>
      if 0x80 <=? rest
      then Z.lor (as_u8 rest) 0x80 :: write_loop fuel (Z.shiftr rest 7)
      else [as_u8 rest]
  end.

Definition write (out : list Z) (value : Z) : list Z := out ++ write_loop 5 value.

(** The loop of [read] over [bytes.iter().enumerate()], the shifted value kept
    to 32 bits as [u32]'s [<<] keeps it. *)
Fixpoint read_loop (bytes : list Z) (value shift index : Z)
    : result codec_error (Z * Z) :=
  match bytes with
  | [] => Err Truncated
  | byte :: rest =>
      if (shift =? 28) && negb (Z.land byte 0xF0 =? 0) then Err Truncated
      else
        let value := Z.lor value (as_u32 (Z.shiftl (Z.land byte 0x7F) shift)) in
        if Z.land byte 0x80 =? 0 then Ok (value, index + 1)
        else
          let shift := shift + 7 in
          if 28 <? shift then Err Truncated else read_loop rest value shift (index + 1)
  end.

Definition read (bytes : list Z) : result codec_error (Z * Z) := read_loop bytes 0 0 0.

Definition varint_len (value : Z) : Z :=
  if value <=? 0x7F then 1
  else if value <=? 0x3FFF then 2
  else if value <=? 0x1FFFFF then 3
  else if value <=? 0x0FFFFFFF then 4
  else 5.

(** ** Bytes of a varint *)

Lemma continuation_byte_bits b :
  is_u8 b →
  (0 <= b < 128 → Z.land b 0x80 = 0 ∧ Z.land b 0x7F = b) ∧
  Z.land (Z.lor b 0x80) 0x80 ≠ 0 ∧ Z.land (Z.lor b 0x80) 0x7F = b mod 128 ∧
  is_u8 (Z.lor b 0x80) ∧
  (0 <= b < 16 → Z.land b 0xF0 = 0).
Proof.
  intros Hb.
  pose (P b := ((128 <=? b) || ((Z.land b 0x80 =? 0) && (Z.land b 0x7F =? b)))
     && negb (Z.land (Z.lor b 0x80) 0x80 =? 0) && (Z.land (Z.lor b 0x80) 0x7F =? b mod 128)
     && ((0 <=? Z.lor b 0x80) && (Z.lor b 0x80 <? 256))
     && ((16 <=? b) || (Z.land b 0xF0 =? 0))).
  pose proof (byte_by_computation P ltac:(vm_compute; reflexivity) b Hb) as HP.
  unfold P in HP. clear P. repeat (apply andb_true_iff in HP as [HP ?]).
  unfold is_u8. bool_to_prop; lia.
Qed.

Lemma write_unfold fuel v :
  0 <= v →
  write_loop (S fuel) v =
    if 0x80 <=? v then Z.lor (v mod 256) 0x80 :: write_loop fuel (v / 128) else [v].
Proof.
  intros. cbn [write_loop]. unfold as_u8. rewrite Z.shiftr_div_pow2 by lia.
  case_if; [done|]. bool_to_prop. by rewrite Z.mod_small by lia.
Qed.

Lemma write_loop_u8 fuel v : 0 <= v → Forall is_u8 (write_loop fuel v).
Proof.
  revert v. induction fuel as [|fuel IH]; intros v Hv; [constructor|].
  rewrite write_unfold by done. case_if; bool_to_prop; constructor; auto.
  - apply continuation_byte_bits. apply Z.mod_pos_bound. lia.
  - apply IH. apply Z.div_pos; lia.
  - unfold is_u8; lia.
Qed.

Lemma write_loop_nonempty fuel v : 0 <= v → 1 <= zlen (write_loop (S fuel) v).
Proof. intros. rewrite write_unfold by done. case_if; cbn [length]; lia. Qed.

(** ** Reading back what was written *)

(** One step of the reader on a byte that carries seven bits [low] of a value
    that still fits. *)
Lemma accumulate low acc shift :
  0 <= shift → 0 <= low → low * 2 ^ shift < 4294967296 → 0 <= acc < 2 ^ shift →
  Z.lor acc (as_u32 (Z.shiftl low shift)) = acc + low * 2 ^ shift.
Proof.
  intros Hs Hlow Hfit Hacc. unfold as_u32.
  rewrite Z.mod_small by (rewrite Z.shiftl_mul_pow2 by done; nia).
  by apply lor_shiftl_add.
Qed.

Lemma read_loop_write_loop fuel v acc shift idx rest :
  shift = 7 * (4 - Z.of_nat fuel) → 0 <= shift → 0 <= v →
  v * 2 ^ shift < 4294967296 → 0 <= acc < 2 ^ shift →
  read_loop (write_loop (S fuel) v ++ rest) acc shift idx
  = Ok (acc + v * 2 ^ shift, idx + zlen (write_loop (S fuel) v)).
Proof.
  revert v acc shift idx. induction fuel as [|fuel IH]; intros v acc shift idx Hshift Hs Hv Hfit Hacc.
  all: pose proof (Z.pow_pos_nonneg 2 shift ltac:(lia) Hs) as Hpow.
  all: assert (Hlast : shift = 28 → v < 16)
    by (intros ->; change (2 ^ 28) with 268435456 in *; lia).
  all: rewrite write_unfold by done; destruct (0x80 <=? v) eqn:E; bool_to_prop.
  1: { exfalso. lia. }
  1, 3:
    cbn [app read_loop length];
    destruct (continuation_byte_bits v) as ([-> ->] & _ & _ & _ & Hhigh);
      [unfold is_u8; lia|lia|];
    (replace ((shift =? 28) && _)%bool with false
      by (symmetry; apply andb_false_iff; destruct (shift =? 28) eqn:?; bool_to_prop;
          [right; rewrite Hhigh by lia; done | by left]));
    change (0 =? 0) with true; cbv iota;
    rewrite accumulate by (try lia; nia); do 2 f_equal; lia.
  cbn [app read_loop length].
  destruct (continuation_byte_bits (v mod 256)) as (_ & Hcont & -> & _);
    [apply Z.mod_pos_bound; lia|].
  apply Z.eqb_neq in Hcont as ->.
  assert (shift < 28).
  { destruct (Z.eq_dec shift 28) as [Heq|]; [specialize (Hlast Heq)|]; lia. }
  replace (shift =? 28) with false by (symmetry; apply Z.eqb_neq; lia).
  cbn [andb]. replace (28 <? shift + 7) with false by (symmetry; apply Z.ltb_ge; lia).
  rewrite Z.mod_mod_divide by (exists 2; lia).
  pose proof (Z.mod_pos_bound v 128 ltac:(lia)). pose proof (Z.div_mod v 128 ltac:(lia)) as Hdm.
  assert (Hp7 : 2 ^ (shift + 7) = 128 * 2 ^ shift) by (rewrite Z.pow_add_r by lia; lia).
  rewrite accumulate by (try lia; nia).
  rewrite IH; [do 2 f_equal; [rewrite Hp7; nia|lia]|lia|lia|apply Z.div_pos; lia|rewrite Hp7; nia|nia].
Qed.

Lemma read_write_prefix v rest :
  is_u32 v → read (write [] v ++ rest) = Ok (v, zlen (write [] v)).
Proof.
  intros Hv. unfold read, write. cbn [app].
  rewrite read_loop_write_loop by (unfold is_u32 in Hv; cbn; lia).
  do 2 f_equal. cbn. lia.
Qed.

Lemma length_write_loop v : is_u32 v → zlen (write_loop 5 v) = varint_len v.
Proof.
  intros Hv. unfold is_u32 in Hv. unfold varint_len.
  rewrite !write_unfold by (repeat apply Z.div_pos; lia).
  repeat case_if; bool_to_prop; cbn [length write_loop]; try lia;
    exfalso; Z.to_euclidean_division_equations; lia.
Qed.

(** ** What a successful read says *)

Lemma read_loop_ok bytes acc shift idx v w :
  Forall is_u8 bytes → (7 | shift) → 0 <= shift <= 28 → 0 <= acc < 2 ^ shift →
  read_loop bytes acc shift idx = Ok (v, w) →
  is_u32 v ∧ idx < w ∧ w <= idx + zlen bytes ∧ 7 * (w - idx) <= 35 - shift.
Proof.
  intros Hb. revert acc shift idx. induction Hb as [|b bytes Hb _ IH];
    intros acc shift idx [k Hk] Hs Hacc; cbn [read_loop]; [discriminate|].
  destruct (_ && _)%bool eqn:Etop; [discriminate|].
  assert (Hlow : 0 <= Z.land b 0x7F < 128).
  { change 0x7F with (2 ^ 7 - 1). rewrite land_ones_mod by lia. apply Z.mod_pos_bound; lia. }
  pose proof (Z.pow_pos_nonneg 2 shift ltac:(lia) ltac:(lia)) as Hpow.
  assert (Hfit : Z.land b 0x7F * 2 ^ shift < Z.min (2 ^ (shift + 7)) 4294967296).
  { rewrite Z.pow_add_r by lia. destruct (Z.eq_dec shift 28) as [->|Hne].
    - bool_to_prop; [lia|]. assert (b < 16).
      { pose (P b := (b <? 16) || negb (Z.land b 0xF0 =? 0)).
        pose proof (byte_by_computation P ltac:(vm_compute; reflexivity) b Hb) as HP.
        unfold P in HP. bool_to_prop; lia. }
      assert (Z.land b 0x7F = b) as -> by (apply (continuation_byte_bits b Hb); unfold is_u8 in Hb; lia).
      change (2 ^ 28) with 268435456. lia.
    - assert (2 ^ shift <= 2 ^ 21) by (apply Z.pow_le_mono_r; lia).
      change (2 ^ 21) with 2097152 in *. nia. }
  rewrite accumulate by (try lia; nia).
  assert (Hacc' : 0 <= acc + Z.land b 0x7F * 2 ^ shift < 2 ^ (shift + 7)).
  { rewrite Z.pow_add_r in * by lia. nia. }
  destruct (Z.land b 0x80 =? 0) eqn:Econt.
  { intros [= <- <-]. cbn [length]. unfold is_u32.
    destruct (Z.eq_dec shift 28) as [->|]; [|assert (2 ^ (shift + 7) <= 2 ^ 28) by
      (apply Z.pow_le_mono_r; lia); change (2 ^ 28) with 268435456 in *; lia].
    change (2 ^ 28) with 268435456 in *. bool_to_prop; [lia|].
    assert (Z.land b 0x7F < 16).
    { pose (P b := negb (Z.land b 0xF0 =? 0) || (Z.land b 0x7F <? 16)).
      pose proof (byte_by_computation P ltac:(vm_compute; reflexivity) b Hb) as HP.
      unfold P in HP. bool_to_prop; lia. }
    lia. }
  destruct (28 <? shift + 7) eqn:E28; [discriminate|]. apply Z.ltb_ge in E28.
  intros Hread. apply IH in Hread; [cbn [length]; destruct Hread as (?&?&?&?); split_and!; [done|lia..]
                                   |exists (k + 1); lia|lia|lia].
Qed.

Lemma read_ok bytes v w :
  Forall is_u8 bytes → read bytes = Ok (v, w) →
  is_u32 v ∧ 1 <= w <= 5 ∧ w <= zlen bytes.
Proof.
  intros Hb Hread. apply read_loop_ok in Hread as (? & ? & ? & ?); [|done|by exists 0|lia|lia].
  split_and!; [done|lia..].
Qed.

Lemma read_loop_no_panic bytes acc shift idx : no_panic (read_loop bytes acc shift idx).
Proof.
  revert acc shift idx. induction bytes; intros; cbn [read_loop]; [discriminate|].
  repeat case_match; try discriminate. apply IHbytes.
Qed.

Lemma read_no_panic bytes : no_panic (read bytes).
Proof. apply read_loop_no_panic. Qed.

#[export] Hint Resolve read_no_panic : vm.
