(* ===== verification/Zrle.v ===== *)
(** * The run-length compressor over 32-bit pixels

    [crates/display-codec/src/zrle.rs].  The encoder's [index] and the decoder's
    [read] are modelled by the suffix of the slice they point at, and the
    decoder's [filled] by the number of pixels there is still [room] for. *)

From S2P Require Import Prelude.
From S2P Require Import Varint.

(** ** The code *)

Definition MAX_RUN : Z := 65536.

(** The loop that counts how often [pixel] repeats at the head of [rest]. *)
Fixpoint extend_run (pixel : Z) (rest : list Z) (run : Z) : Z :=
  match rest with
  | next :: rest' =>
      if (next =? pixel) && (run <? MAX_RUN) then extend_run pixel rest' (run + 1) else run
  | [] => run
  end.

(** The loop that carries a literal up to the next pixel that repeats. *)
Fixpoint extend_literal (pixels : list Z) (count : Z) : Z :=
  match pixels with
  | [] => count
  | pixel :: rest =>
      if (count <? MAX_RUN)
         && negb (match rest with next :: _ => pixel =? next | [] => false end)
      then extend_literal rest (count + 1)
      else count
  end.

(** The outer loop.  Every turn consumes a pixel, so as much fuel as there are
    pixels is enough; [decode_encode] would fail if it were not. *)
Fixpoint encode_loop (fuel : nat) (pixels : list Z) : list Z :=
  match pixels, fuel with
  | [], _ | _, O => []
  | pixel :: rest, S fuel =>
      let run := extend_run pixel rest 1 in
      if 1 <? run then
        Varint.write [] (Z.lor (as_u32 (Z.shiftl (as_u32 (run - 1)) 1)) 1)
          ++ to_le 4 pixel
          ++ encode_loop fuel (drop (Z.to_nat run) pixels)
      else
        let count := extend_literal pixels 0 in
        Varint.write [] (as_u32 (Z.shiftl (as_u32 (count - 1)) 1))
          ++ bytes_of_u32s (take (Z.to_nat count) pixels)
          ++ encode_loop fuel (drop (Z.to_nat count) pixels)
  end.

Definition encode (pixels out : list Z) : list Z :=
  out ++ encode_loop (length pixels) pixels.

Definition pixel_at (bytes : list Z) (offset : Z) : result codec_error Z :=
  let? pixel := ok_or (get_range bytes offset (offset + 4)) Truncated in
  Ok (from_le pixel).

(** The literal branch's loop over [out[filled..filled + count]]. *)
Fixpoint literal_pixels (count : nat) (bytes : list Z)
    : result codec_error (list Z * list Z) :=
  match count with
  | O => Ok ([], bytes)
  | S count =>
      let? pixel := pixel_at bytes 0 in
      let? bytes := slice_from bytes 4 in
      let? (pixels, bytes) := literal_pixels count bytes in
      Ok (pixel :: pixels, bytes)
  end.

(** The outer loop: what it leaves in the [room] pixels still to fill.  Every
    turn fills at least one of them. *)
Fixpoint decode_loop (fuel : nat) (bytes : list Z) (room : Z)
    : result codec_error (list Z) :=
  if room <=? 0 then
    match bytes with
    | [] => Ok []
    | _ => Err TrailingBytes
    end
  else
    match fuel with
    | O => Panic
    | S fuel =>
        let? (control, width) := Varint.read bytes in
        let? bytes := slice_from bytes width in
        let count := Z.shiftr control 1 + 1 in
        if (MAX_RUN <? count) || (room <? count) then Err RunOverflow
        else if Z.land control 1 =? 1 then
          let? pixel := pixel_at bytes 0 in
          let? bytes := slice_from bytes 4 in
          let? pixels := decode_loop fuel bytes (room - count) in
          Ok (replicate (Z.to_nat count) pixel ++ pixels)
        else
          let? (run, bytes) := literal_pixels (Z.to_nat count) bytes in
          let? pixels := decode_loop fuel bytes (room - count) in
          Ok (run ++ pixels)
    end.

(** [out] is described by its length: a decode that succeeds fills all of it. *)
Definition decode (bytes : list Z) (out_len : Z) : result codec_error (list Z) :=
  decode_loop (Z.to_nat out_len) bytes out_len.

(** ** Runs and literals *)

Lemma extend_run_spec pixel rest run :
  run <= MAX_RUN →
  let r := extend_run pixel rest run in
  run <= r <= MAX_RUN ∧ r - run <= zlen rest ∧
  take (Z.to_nat (r - run)) rest = replicate (Z.to_nat (r - run)) pixel.
Proof.
  revert run. induction rest as [|next rest IH]; intros run Hrun r; subst r; cbn [extend_run].
  { rewrite Z.sub_diag. split_and!; [lia..|done]. }
  destruct (_ && _)%bool eqn:E.
  - bool_to_prop. subst. destruct (IH (run + 1) ltac:(lia)) as (? & ? & Htake).
    set (r := extend_run pixel rest (run + 1)) in *. cbn [length].
    split_and!; [lia..|].
    replace (Z.to_nat (r - run)) with (S (Z.to_nat (r - (run + 1)))) by lia.
    cbn. by rewrite Htake.
  - rewrite Z.sub_diag. split_and!; [lia..|done].
Qed.

Lemma extend_literal_spec pixels count :
  count <= MAX_RUN →
  count <= extend_literal pixels count <= MAX_RUN ∧
  extend_literal pixels count - count <= zlen pixels.
Proof.
  revert count. induction pixels as [|pixel rest IH]; intros count Hc; cbn [extend_literal length].
  { lia. }
  destruct (_ && _)%bool eqn:E; [|lia].
  apply andb_true_iff in E as [E _]. bool_to_prop.
  specialize (IH (count + 1) ltac:(lia)). lia.
Qed.

(** A pixel that does not repeat starts a literal of at least one pixel. *)
Lemma extend_literal_progress pixel rest :
  extend_run pixel rest 1 <= 1 → 1 <= extend_literal (pixel :: rest) 0.
Proof.
  intros Hrun.
  assert (Hnot : match rest with next :: _ => pixel =? next | [] => false end = false).
  { destruct rest as [|next rest]; [done|]. cbn [extend_run] in Hrun.
    destruct (next =? pixel) eqn:E; bool_to_prop; [|apply Z.eqb_neq; congruence].
    cbn [andb] in Hrun. change (1 <? MAX_RUN) with true in Hrun. cbv iota in Hrun.
    change (1 + 1) with 2 in Hrun.
    destruct (extend_run_spec pixel rest 2 ltac:(unfold MAX_RUN; lia)) as [? _]. lia. }
  cbn [extend_literal]. rewrite Hnot. cbn.
  change (0 + 1) with 1.
  pose proof (extend_literal_spec rest 1 ltac:(unfold MAX_RUN; lia)). lia.
Qed.

(** ** Controls *)

Lemma control_value n tag :
  0 <= n < MAX_RUN → tag = 0 ∨ tag = 1 →
  Z.lor (as_u32 (Z.shiftl (as_u32 n) 1)) tag = tag + n * 2.
Proof.
  unfold MAX_RUN, as_u32. intros Hn Htag. rewrite (Z.mod_small n) by lia.
  rewrite Z.mod_small by (rewrite Z.shiftl_mul_pow2; lia).
  rewrite Z.lor_comm, lor_shiftl_add by lia. lia.
Qed.

Lemma control_fields n tag :
  0 <= n < MAX_RUN → tag = 0 ∨ tag = 1 →
  is_u32 (tag + n * 2) ∧ Z.shiftr (tag + n * 2) 1 = n ∧ Z.land (tag + n * 2) 1 = tag.
Proof.
  unfold MAX_RUN, is_u32. intros Hn Htag.
  rewrite Z.shiftr_div_pow2 by lia. change 1 with (2 ^ 1 - 1) at 2.
  rewrite land_ones_mod by lia. change (2 ^ 1) with 2.
  Z.to_euclidean_division_equations. lia.
Qed.

Lemma literal_control n :
  0 <= n < MAX_RUN → as_u32 (Z.shiftl (as_u32 n) 1) = 0 + n * 2.
Proof. intros. rewrite <- (control_value n 0) by auto. by rewrite Z.lor_0_r. Qed.

Lemma pixel_at_to_le p bytes : is_u32 p → pixel_at (to_le 4 p ++ bytes) 0 = Ok p.
Proof.
  intros. unfold pixel_at. rewrite get_range_prefix by (rewrite length_to_le; lia).
  cbn [ok_or rbind]. by rewrite from_le_to_le_u32.
Qed.

Lemma literal_pixels_write pixels bytes :
  Forall is_u32 pixels →
  literal_pixels (length pixels) (bytes_of_u32s pixels ++ bytes) = Ok (pixels, bytes).
Proof.
  induction 1 as [|p pixels Hp _ IH]; [done|].
  cbn [length literal_pixels bytes_of_u32s]. rewrite <- app_assoc, pixel_at_to_le by done.
  cbn [rbind]. rewrite slice_from_app by (rewrite length_to_le; lia). cbn [rbind].
  by rewrite IH.
Qed.

(** ** Round trip *)

(** One control on the wire, read back by a turn of the decoder. *)
Lemma decode_loop_control fuel n tag bytes room :
  0 <= n < MAX_RUN → tag = 0 ∨ tag = 1 → n < room →
  decode_loop (S fuel) (Varint.write [] (tag + n * 2) ++ bytes) room
  = if tag =? 1 then
      let? pixel := pixel_at bytes 0 in
      let? bytes := slice_from bytes 4 in
      let? pixels := decode_loop fuel bytes (room - (n + 1)) in
      Ok (replicate (Z.to_nat (n + 1)) pixel ++ pixels)
    else
      let? (run, bytes) := literal_pixels (Z.to_nat (n + 1)) bytes in
      let? pixels := decode_loop fuel bytes (room - (n + 1)) in
      Ok (run ++ pixels).
Proof.
  intros Hn Htag Hroom. destruct (control_fields n tag Hn Htag) as (Hu32 & Hcount & Hbit).
  cbn [decode_loop]. replace (room <=? 0) with false by (symmetry; apply Z.leb_gt; lia).
  rewrite read_write_prefix by done. cbn [rbind].
  rewrite slice_from_app by done. cbn [rbind]. rewrite Hcount, Hbit.
  replace (MAX_RUN <? n + 1) with false by (symmetry; apply Z.ltb_ge; lia).
  by replace (room <? n + 1) with false by (symmetry; apply Z.ltb_ge; lia).
Qed.

Lemma decode_loop_encode_loop efuel dfuel pixels :
  Forall is_u32 pixels → (length pixels <= efuel)%nat → (length pixels <= dfuel)%nat →
  decode_loop dfuel (encode_loop efuel pixels) (zlen pixels) = Ok pixels.
Proof.
  revert dfuel pixels. induction efuel as [|efuel IH]; intros dfuel pixels Hpx Hef Hdf.
  { destruct pixels; cbn in Hef; [by destruct dfuel|lia]. }
  destruct pixels as [|pixel rest]; [by destruct dfuel|].
  destruct dfuel as [|dfuel]; [cbn in Hdf; lia|].
  cbn [length] in Hef, Hdf. cbn [encode_loop].
  set (run := extend_run pixel rest 1). set (count := extend_literal (pixel :: rest) 0).
  destruct (extend_run_spec pixel rest 1 ltac:(unfold MAX_RUN; lia)) as (Hr1 & Hr2 & Htake).
  fold run in Hr1, Hr2, Htake.
  assert (IHdrop : ∀ n, 1 <= n → n <= zlen (pixel :: rest) →
    decode_loop dfuel (encode_loop efuel (drop (Z.to_nat n) (pixel :: rest)))
      (zlen (pixel :: rest) - n) = Ok (drop (Z.to_nat n) (pixel :: rest))).
  { intros n Hn1 Hn2. rewrite <- IH with (dfuel := dfuel); [..|by apply Forall_drop| |];
      rewrite ?length_drop; cbn [length] in *; try lia. f_equal; lia. }
  destruct (1 <? run) eqn:Erun; bool_to_prop.
  - rewrite control_value by (auto; lia). rewrite decode_loop_control by (auto; cbn [length]; lia).
    cbn [Z.eqb Pos.eqb]. rewrite pixel_at_to_le by (by apply Forall_cons_1 in Hpx as [? _]).
    cbn [rbind]. rewrite slice_from_app by (rewrite length_to_le; lia). cbn [rbind].
    replace (run - 1 + 1) with run by lia. rewrite IHdrop by (cbn [length]; lia). cbn [rbind].
    f_equal. rewrite <- (take_drop (Z.to_nat run) (pixel :: rest)) at 2. f_equal.
    replace (Z.to_nat run) with (S (Z.to_nat (run - 1))) by lia. cbn. by rewrite Htake.
  - pose proof (extend_literal_progress pixel rest ltac:(fold run; lia)) as Hc1.
    destruct (extend_literal_spec (pixel :: rest) 0 ltac:(unfold MAX_RUN; lia)) as [Hc2 Hc3].
    fold count in Hc1, Hc2, Hc3.
    rewrite literal_control, decode_loop_control by (auto; lia). cbn [Z.eqb].
    replace (count - 1 + 1) with count by lia.
    replace (Z.to_nat count) with (length (take (Z.to_nat count) (pixel :: rest))) at 1
      by (rewrite length_take; lia).
    rewrite literal_pixels_write by (by apply Forall_take). cbn [rbind].
    rewrite IHdrop by lia. cbn [rbind]. by rewrite take_drop.
Qed.

Lemma decode_encode_self pixels :
  Forall is_u32 pixels → decode (encode pixels []) (zlen pixels) = Ok pixels.
Proof.
  intros. unfold decode, encode. rewrite Nat2Z.id. by apply decode_loop_encode_loop.
Qed.

Lemma encode_app pixels out : encode pixels out = out ++ encode pixels [].
Proof. done. Qed.

Lemma encode_loop_u8 fuel pixels : Forall is_u8 (encode_loop fuel pixels).
Proof.
  revert pixels. induction fuel as [|fuel IH]; intros [|p rest]; cbn [encode_loop]; try constructor.
  assert (Hu : ∀ v, 0 <= as_u32 v) by (intros; apply Z.mod_pos_bound; lia).
  destruct (1 <? _); repeat apply Forall_app_2; auto with vm; apply Varint.write_loop_u8; auto.
  apply Z.lor_nonneg. split; [auto|lia].
Qed.

(** ** What a successful decode says *)

Lemma pixel_at_ok bytes p :
  Forall is_u8 bytes → pixel_at bytes 0 = Ok p → is_u32 p ∧ 4 <= zlen bytes.
Proof.
  intros Hb Hp. unfold pixel_at in Hp. rbind_inv.
  apply get_range_inv in E as (? & ? & ? & ->). split; [|lia].
  match goal with |- is_u32 (from_le ?l) => pose proof (from_le_bound l) as Hbound;
    assert (zlen l = 4) as Hl by (rewrite length_take, length_drop; lia) end.
  rewrite Hl in Hbound. apply Hbound. by apply Forall_take, Forall_drop.
Qed.

Lemma literal_pixels_ok count bytes run rest :
  Forall is_u8 bytes → literal_pixels count bytes = Ok (run, rest) →
  length run = count ∧ Forall is_u32 run ∧ Forall is_u8 rest.
Proof.
  revert bytes run rest. induction count as [|count IH]; intros bytes run rest Hb H;
    cbn [literal_pixels] in H; [by simplify_eq|].
  rbind_step H as p, Ep.
  apply pixel_at_ok in Ep as [? ?]; [|done]. rewrite slice_from_ok in H by lia. cbn [rbind] in H.
  rbind_step H as [px bs], El. simplify_eq. apply IH in El as (? & ? & ?); [|by apply Forall_drop].
  cbn [length]. split_and!; auto.
Qed.

Lemma literal_pixels_no_panic count bytes : no_panic (literal_pixels count bytes).
Proof.
  revert bytes. induction count as [|count IH]; intros; cbn [literal_pixels]; [discriminate|].
  apply no_panic_bind; [apply no_panic_bind; auto with vm|intros p Hp].
  unfold pixel_at in Hp. rbind_inv. apply get_range_inv in E as (? & ? & ? & _).
  rewrite slice_from_ok by lia. cbn [rbind].
  apply no_panic_bind; [auto|intros [? ?] _; auto with vm].
Qed.

Lemma shiftr_control_nonneg c : 0 <= c → 1 <= Z.shiftr c 1 + 1.
Proof. intros. rewrite Z.shiftr_div_pow2 by lia. pose proof (Z.div_pos c (2 ^ 1)). lia. Qed.

Lemma decode_loop_ok fuel bytes room px :
  Forall is_u8 bytes → 0 <= room →
  decode_loop fuel bytes room = Ok px → zlen px = room ∧ Forall is_u32 px.
Proof.
  revert bytes room px. induction fuel as [|fuel IH]; intros bytes room px Hb Hroom H;
    cbn [decode_loop] in H; destruct (room <=? 0) eqn:E0; bool_to_prop; try discriminate H.
  1, 2: destruct bytes; [|discriminate H]; injection H as <-; cbn; split; [lia|constructor].
  rbind_step H as [c w], Eread.
  apply read_ok in Eread as (Hc & Hw & Hwl); [|done].
  pose proof (shiftr_control_nonneg c ltac:(unfold is_u32 in Hc; lia)) as Hcount.
  rewrite slice_from_ok in H by lia. cbn [rbind] in H.
  set (bs := drop (Z.to_nat w) bytes) in *.
  assert (Hbs : Forall is_u8 bs) by (by apply Forall_drop).
  destruct (_ || _)%bool eqn:E1; [discriminate H|]. bool_to_prop.
  destruct (Z.land c 1 =? 1).
  - rbind_step H as p, Ep.
    apply pixel_at_ok in Ep as [? ?]; [|done]. rewrite slice_from_ok in H by lia.
    cbn [rbind] in H. rbind_step H as tl, Etl. simplify_eq.
    apply IH in Etl as [? ?]; [|by apply Forall_drop|lia].
    rewrite length_app, length_replicate. split; [lia|].
    apply Forall_app_2; [by apply Forall_replicate|done].
  - rbind_step H as [run rest], Er. rbind_step H as tl, Etl. simplify_eq.
    apply literal_pixels_ok in Er as (? & ? & ?); [|done].
    apply IH in Etl as [? ?]; [|done|lia].
    rewrite length_app. split; [lia|by apply Forall_app_2].
Qed.

Lemma decode_loop_no_panic fuel bytes room :
  Forall is_u8 bytes → room <= Z.of_nat fuel → no_panic (decode_loop fuel bytes room).
Proof.
  revert bytes room. induction fuel as [|fuel IH]; intros bytes room Hb Hroom;
    cbn [decode_loop]; destruct (room <=? 0) eqn:E0; bool_to_prop;
    try (destruct bytes; discriminate); [lia|].
  apply no_panic_bind; [auto with vm|intros [c w] Eread].
  apply read_ok in Eread as (Hc & Hw & Hwl); [|done].
  pose proof (shiftr_control_nonneg c ltac:(unfold is_u32 in Hc; lia)) as Hcount.
  rewrite slice_from_ok by lia. cbn [rbind].
  set (bs := drop (Z.to_nat w) bytes) in *.
  assert (Hbs : Forall is_u8 bs) by (by apply Forall_drop).
  destruct (_ || _)%bool; [discriminate|]. destruct (Z.land c 1 =? 1).
  - apply no_panic_bind; [unfold pixel_at; apply no_panic_bind; auto with vm|intros p Ep].
    apply pixel_at_ok in Ep as [? ?]; [|done]. rewrite slice_from_ok by lia. cbn [rbind].
    apply no_panic_bind; [apply IH; [by apply Forall_drop|lia]|auto with vm].
  - apply no_panic_bind; [apply literal_pixels_no_panic|intros [run rest] Er].
    apply literal_pixels_ok in Er as (? & ? & ?); [|done].
    apply no_panic_bind; [apply IH; [done|lia]|auto with vm].
Qed.

Lemma decode_ok bytes n px :
  Forall is_u8 bytes → 0 <= n → decode bytes n = Ok px → zlen px = n ∧ Forall is_u32 px.
Proof. apply decode_loop_ok. Qed.

Lemma decode_no_panic bytes n : Forall is_u8 bytes → no_panic (decode bytes n).
Proof. intros. apply decode_loop_no_panic; [done|lia]. Qed.

#[export] Hint Resolve decode_no_panic encode_loop_u8 : vm.
