(* ===== verification/Geometry.v ===== *)
(** * The frames of a stream, and the tile grid over them

    [crates/display-codec/src/geometry.rs].  Dimensions are [u32]; products that
    the source computes in [u32] are kept to 32 bits here, and [tile_count_range]
    shows that none of them wraps for a geometry [new] accepts. *)

From stdpp Require Import strings.
From S2P Require Import Prelude.
From S2P Require Import Varint.

(** ** The code *)

Definition MAX_DIMENSION : Z := 16384.

Inductive TileSize : Type := Sixteen | ThirtyTwo | SixtyFour.

Definition as_pixels (t : TileSize) : Z :=
  match t with Sixteen => 16 | ThirtyTwo => 32 | SixtyFour => 64 end.

Definition from_pixels (pixels : Z) : result codec_error TileSize :=
  if pixels =? 16 then Ok Sixteen
  else if pixels =? 32 then Ok ThirtyTwo
  else if pixels =? 64 then Ok SixtyFour
  else Err (GeometryError "a tile size other than 16, 32 or 64").

Inductive PixelFormat : Type := Bgra8888 | Xrgb8888.

Record Rect : Type := mk_rect { x : Z; y : Z; rect_width : Z; rect_height : Z }.

Record Geometry : Type := mk_geometry {
  width : Z;
  height : Z;
  tile_size : TileSize;
  pixel_format : PixelFormat;
  columns : Z;
  rows : Z;
}.

Definition new (width height : Z) (tile_size : TileSize) (pixel_format : PixelFormat)
    : result codec_error Geometry :=
  if (width =? 0) || (height =? 0) then Err (GeometryError "a zero width or height")
  else if (MAX_DIMENSION <? width) || (MAX_DIMENSION <? height) then
    Err (GeometryError "a dimension above the codec's maximum")
  else
    let tile := as_pixels tile_size in
    Ok {| width := width; height := height;
          tile_size := tile_size; pixel_format := pixel_format;
          columns := div_ceil width tile; rows := div_ceil height tile |}.

Definition tile_count (g : Geometry) : Z := as_u32 (columns g * rows g).

Definition tile (g : Geometry) (index : Z) : option Rect :=
  if tile_count g <=? index then None
  else
    let tile := as_pixels (tile_size g) in
    let x := as_u32 (index mod columns g * tile) in
    let y := as_u32 (index / columns g * tile) in
    Some {| x := x; y := y;
            rect_width := Z.min tile (as_u32 (width g - x));
            rect_height := Z.min tile (as_u32 (height g - y)) |}.

Definition pixel_count (g : Geometry) : Z := width g * height g.

Definition frame_bytes (g : Geometry) : Z := pixel_count g * 4.

#[export] Instance tile_size_eq_dec : EqDecision TileSize.
Proof. solve_decision. Defined.
#[export] Instance rect_eq_dec : EqDecision Rect.
Proof. solve_decision. Defined.

(** ** Well-formed geometries: the ones [new] accepts *)

Definition wf (g : Geometry) : Prop :=
  1 <= width g <= MAX_DIMENSION ∧ 1 <= height g <= MAX_DIMENSION ∧
  columns g = div_ceil (width g) (as_pixels (tile_size g)) ∧
  rows g = div_ceil (height g) (as_pixels (tile_size g)).

Lemma new_wf w h ts pf g :
  is_u32 w → is_u32 h → new w h ts pf = Ok g →
  wf g ∧ width g = w ∧ height g = h ∧ tile_size g = ts ∧ pixel_format g = pf.
Proof.
  unfold new, wf, is_u32. intros Hw Hh H. case_ifs. injection H as <-. cbn.
  split_and!; auto; lia.
Qed.

Lemma as_pixels_range ts : 16 <= as_pixels ts <= 64.
Proof. destruct ts; cbn; lia. Qed.

(** A pixel coordinate's tile is inside the grid, and the grid does not reach
    past the last tile that holds a pixel. *)
Lemma div_ceil_spec a t :
  0 < t → 0 < a → 1 <= div_ceil a t ∧ (div_ceil a t - 1) * t < a ∧ a <= div_ceil a t * t.
Proof.
  intros Ht Ha. unfold div_ceil.
  pose proof (Z.div_mod (a + t - 1) t ltac:(lia)).
  pose proof (Z.mod_pos_bound (a + t - 1) t ltac:(lia)). nia.
Qed.

Lemma div_ceil_index a t i : 0 < t → 0 <= i < a → i / t < div_ceil a t.
Proof.
  intros Ht Hi. destruct (div_ceil_spec a t) as (? & ? & ?); [lia..|].
  apply Z.div_lt_upper_bound; lia.
Qed.

Section wf.
Context (g : Geometry) (Hwf : wf g).

Local Abbreviation T := (as_pixels (tile_size g)).

Lemma wf_grid :
  1 <= columns g <= 1024 ∧ 1 <= rows g <= 1024 ∧
  (columns g - 1) * T < width g <= columns g * T ∧
  (rows g - 1) * T < height g <= rows g * T.
Proof.
  destruct Hwf as (Hw & Hh & Hc & Hr). unfold MAX_DIMENSION in *.
  pose proof (as_pixels_range (tile_size g)) as HT.
  destruct (div_ceil_spec (width g) T) as (? & ? & ?); [lia..|].
  destruct (div_ceil_spec (height g) T) as (? & ? & ?); [lia..|].
  rewrite <- Hc, <- Hr in *. nia.
Qed.

Lemma tile_count_eq : tile_count g = columns g * rows g.
Proof. unfold tile_count, as_u32. pose proof wf_grid. apply Z.mod_small. nia. Qed.

Lemma tile_count_range : 1 <= tile_count g <= 1048576.
Proof. rewrite tile_count_eq. pose proof wf_grid. nia. Qed.

Lemma tile_position index :
  0 <= index < tile_count g →
  0 <= index mod columns g < columns g ∧ 0 <= index / columns g < rows g.
Proof.
  rewrite tile_count_eq. pose proof wf_grid. intros Hi.
  split; [apply Z.mod_pos_bound; lia|]. split; [apply Z.div_pos; lia|].
  apply Z.div_lt_upper_bound; lia.
Qed.

Lemma tile_eq index :
  0 <= index < tile_count g →
  tile g index = Some
    {| x := index mod columns g * T; y := index / columns g * T;
       rect_width := Z.min T (width g - index mod columns g * T);
       rect_height := Z.min T (height g - index / columns g * T) |}.
Proof.
  intros Hi. destruct (tile_position index Hi) as [Hcol Hrow].
  pose proof wf_grid as (? & ? & ? & ?). pose proof (as_pixels_range (tile_size g)).
  destruct Hwf as (? & ? & _). unfold MAX_DIMENSION in *.
  unfold tile. replace (tile_count g <=? index) with false by (symmetry; apply Z.leb_gt; lia).
  unfold as_u32. rewrite !(Z.mod_small (_ * T)) by nia.
  rewrite !(Z.mod_small (_ - _)) by nia. done.
Qed.

Lemma tile_none index : tile_count g <= index → tile g index = None.
Proof. intros. unfold tile. by replace (tile_count g <=? index) with true by (symmetry; apply Z.leb_le; lia). Qed.

Lemma tile_some index r : 0 <= index → tile g index = Some r → index < tile_count g.
Proof. unfold tile. intros. case_ifs. lia. Qed.

(** Every tile lies inside the frame and holds at least one pixel. *)
Lemma tile_in_frame index r :
  0 <= index → tile g index = Some r →
  0 <= x r ∧ 0 <= y r ∧ 1 <= rect_width r <= T ∧ 1 <= rect_height r <= T ∧
  x r + rect_width r <= width g ∧ y r + rect_height r <= height g.
Proof.
  intros Hi Hr. pose proof (tile_some _ _ Hi Hr) as Hlt.
  rewrite tile_eq in Hr by lia. injection Hr as <-. cbn.
  destruct (tile_position index ltac:(lia)) as [Hcol Hrow].
  pose proof wf_grid as (? & ? & ? & ?). pose proof (as_pixels_range (tile_size g)). nia.
Qed.
End wf.

(** Whether a rectangle holds a pixel. *)
Definition inside (r : Rect) (px py : Z) : Prop :=
  x r <= px < x r + rect_width r ∧ y r <= py < y r + rect_height r.

Definition tile_of (g : Geometry) (px py : Z) : Z :=
  py / as_pixels (tile_size g) * columns g + px / as_pixels (tile_size g).

Lemma tile_of_range g px py :
  wf g → 0 <= px < width g → 0 <= py < height g → 0 <= tile_of g px py < tile_count g.
Proof.
  intros Hwf Hx Hy. rewrite (tile_count_eq g Hwf). unfold tile_of.
  pose proof (wf_grid g Hwf). pose proof (as_pixels_range (tile_size g)).
  destruct Hwf as (_ & _ & Hc & Hr).
  pose proof (div_ceil_index (width g) (as_pixels (tile_size g)) px ltac:(lia) Hx) as Hcol. rewrite <- Hc in Hcol.
  pose proof (div_ceil_index (height g) (as_pixels (tile_size g)) py ltac:(lia) Hy) as Hrow. rewrite <- Hr in Hrow.
  pose proof (Z.div_pos px (as_pixels (tile_size g))).
  pose proof (Z.div_pos py (as_pixels (tile_size g))). nia.
Qed.

Lemma inside_tile_of g px py index r :
  wf g → 0 <= index → tile g index = Some r → 0 <= px < width g → 0 <= py < height g →
  inside r px py ↔ index = tile_of g px py.
Proof.
  intros Hwf Hi Hr Hx Hy. pose proof (tile_some g _ _ Hi Hr) as Hlt.
  rewrite tile_eq in Hr by (done || lia). injection Hr as <-. unfold inside; cbn.
  destruct (tile_position g Hwf index ltac:(lia)) as [Hcol Hrow].
  pose proof (wf_grid g Hwf) as (? & ? & ? & ?).
  pose proof (as_pixels_range (tile_size g)) as HT. unfold tile_of.
  set (t := as_pixels (tile_size g)) in *. set (c := columns g) in *.
  pose proof (Z.div_mod px t ltac:(lia)). pose proof (Z.mod_pos_bound px t ltac:(lia)).
  pose proof (Z.div_mod py t ltac:(lia)). pose proof (Z.mod_pos_bound py t ltac:(lia)).
  pose proof (Z.div_mod index c ltac:(lia)) as Hdm.
  split.
  - intros [Hpx Hpy].
    assert (px / t = index mod c) as ->
      by (symmetry; apply Z.div_unique with (px - index mod c * t); lia).
    assert (py / t = index / c) as ->
      by (symmetry; apply Z.div_unique with (py - index / c * t); lia).
    lia.
  - intros ->.
    assert (Hc : 0 <= px / t < c).
    { split; [apply Z.div_pos; lia|]. apply Z.div_lt_upper_bound; lia. }
    rewrite (Z.add_comm (py / t * c)), Z.mod_add, Z.div_add by lia.
    rewrite (Z.mod_small (px / t)), (Z.div_small (px / t)), Z.add_0_l by lia. lia.
Qed.
