(* ===== verification/Container.v ===== *)
(** * The container a keyframe and a tile delta share

    [crates/display-codec/src/container.rs]: eight header bytes, then tile
    records, each of which starts with the byte of its [Method]. *)

From S2P Require Import Prelude.
From S2P Require Import Varint.
From S2P Require Import Geometry.

(** ** The code *)

Definition FORMAT_VERSION : Z := 1.
Definition HEADER_LEN : Z := 8.
Definition FLAG_KEYFRAME : Z := 1.

Inductive Method : Type := Raw | Zrle | XorZrle.

Definition as_byte (m : Method) : Z :=
  match m with Raw => 0 | Zrle => 1 | XorZrle => 2 end.

Definition from_byte (method : Z) : result codec_error Method :=
  if method =? 0 then Ok Raw
  else if method =? 1 then Ok Zrle
  else if method =? 2 then Ok XorZrle
  else Err (UnknownMethod method).

Definition write_header (out : list Z) (keyframe : bool) (g : Geometry) : list Z :=
  out ++ [FORMAT_VERSION] ++ [if keyframe then FLAG_KEYFRAME else 0]
    ++ to_le 2 (as_u16 (columns g)) ++ to_le 2 (as_u16 (rows g)) ++ [0; 0].

Definition read_header (bytes : list Z) (g : Geometry)
    : result codec_error (bool * list Z) :=
  let? header := ok_or (get_range bytes 0 HEADER_LEN) Truncated in
  let? h0 := index header 0 in
  if negb (h0 =? FORMAT_VERSION) then Err (UnknownVersion h0)
  else
    let? h6 := index header 6 in
    let? h7 := index header 7 in
    if negb (h6 =? 0) || negb (h7 =? 0) then Err TrailingBytes
    else
      let? h2 := index header 2 in
      let? h3 := index header 3 in
      let? h4 := index header 4 in
      let? h5 := index header 5 in
      let columns' := from_le [h2; h3] in
      let rows' := from_le [h4; h5] in
      if negb (columns' =? columns g) || negb (rows' =? rows g)
      then Err (GridMismatch columns' rows')
      else
        let? h1 := index header 1 in
        let? body := slice_from bytes HEADER_LEN in
        Ok (negb (Z.land h1 FLAG_KEYFRAME =? 0), body).

#[export] Instance method_eq_dec : EqDecision Method.
Proof. solve_decision. Defined.

(** ** Properties of the header *)

Lemma from_byte_as_byte m : from_byte (as_byte m) = Ok m.
Proof. by destruct m. Qed.

Lemma length_write_header keyframe g : zlen (write_header [] keyframe g) = HEADER_LEN.
Proof. done. Qed.

Lemma write_header_u8 keyframe g : Forall is_u8 (write_header [] keyframe g).
Proof.
  unfold write_header. repeat apply Forall_app_2; auto with vm;
    repeat constructor; unfold is_u8, FORMAT_VERSION, FLAG_KEYFRAME; destruct keyframe; lia.
Qed.

(** What [read_header] answers about a header whose eight bytes are known. *)
Lemma read_header_bytes h0 h1 h2 h3 h4 h5 h6 h7 body g :
  read_header ([h0; h1; h2; h3; h4; h5; h6; h7] ++ body) g =
  if negb (h0 =? FORMAT_VERSION) then Err (UnknownVersion h0)
  else if negb (h6 =? 0) || negb (h7 =? 0) then Err TrailingBytes
  else if negb (from_le [h2; h3] =? columns g) || negb (from_le [h4; h5] =? rows g)
    then Err (GridMismatch (from_le [h2; h3]) (from_le [h4; h5]))
  else Ok (negb (Z.land h1 FLAG_KEYFRAME =? 0), body).
Proof.
  unfold read_header. rewrite get_range_prefix by done. cbn [ok_or rbind].
  rewrite (slice_from_app _ body HEADER_LEN) by done.
  unfold index. cbn -[from_le FORMAT_VERSION FLAG_KEYFRAME Z.land]. done.
Qed.

Lemma read_write_header keyframe g body :
  wf g → read_header (write_header [] keyframe g ++ body) g = Ok (keyframe, body).
Proof.
  intros Hwf. pose proof (wf_grid g Hwf) as (Hc & Hr & _).
  unfold write_header. rewrite !as_u16_small by (unfold is_u16; lia).
  destruct (to_le_2 (columns g)) as (c0 & c1 & -> & Ec); [unfold is_u16; lia|].
  destruct (to_le_2 (rows g)) as (r0 & r1 & -> & Er); [unfold is_u16; lia|].
  pose proof (read_header_bytes FORMAT_VERSION (if keyframe then FLAG_KEYFRAME else 0)
    c0 c1 r0 r1 0 0 body g) as H. cbn [app] in *. rewrite H, Ec, Er, !Z.eqb_refl.
  by destruct keyframe.
Qed.

(** A slice too short for a header is [Truncated]; any other one has the eight
    bytes [read_header_bytes] speaks of. *)
Lemma header_split (bytes : list Z) :
  get_range bytes 0 HEADER_LEN = None ∨
  ∃ h0 h1 h2 h3 h4 h5 h6 h7 body, bytes = [h0; h1; h2; h3; h4; h5; h6; h7] ++ body.
Proof.
  do 8 (destruct bytes as [|? bytes]; [left; reflexivity|]).
  right. repeat eexists.
Qed.

Lemma read_header_no_panic bytes g : no_panic (read_header bytes g).
Proof.
  destruct (header_split bytes) as [H|(?&?&?&?&?&?&?&?&?&->)].
  - unfold read_header. by rewrite H.
  - rewrite read_header_bytes. repeat case_if; discriminate.
Qed.

Lemma read_header_body bytes g keyframe body :
  Forall is_u8 bytes → read_header bytes g = Ok (keyframe, body) → Forall is_u8 body.
Proof.
  intros Hb H. destruct (header_split bytes) as [H0|(?&?&?&?&?&?&?&?&body'&->)].
  - unfold read_header in H. by rewrite H0 in H.
  - rewrite read_header_bytes in H. repeat (case_if; try discriminate). simplify_eq.
    by apply Forall_app in Hb as [_ ?].
Qed.

#[export] Hint Resolve read_header_no_panic write_header_u8 : vm.
