(* ===== verification/Cursor.v ===== *)
(** * The cursor stream's two records

    [crates/display-codec/src/cursor.rs]: a bitmap, raw or run-length coded, and
    a six-byte position. *)

From S2P Require Import Prelude.
From S2P Require Import Varint.
From S2P Require Import Zrle.

(** ** The code *)

Definition MAX_CURSOR_DIMENSION : Z := 256.
Definition FORMAT_VERSION : Z := 1.
Definition IMAGE_HEADER_LEN : Z := 10.
Definition POSITION_LEN : Z := 6.

(** A bitmap; the borrowed and the owned form hold the same fields. *)
Record CursorImage : Type := mk_image {
  pixels : list Z;
  image_width : Z;
  image_height : Z;
  hotspot_x : Z;
  hotspot_y : Z;
}.

Record CursorPosition : Type := mk_position { pos_x : Z; pos_y : Z; visible : bool }.

(** The test [write_image] and [read_image] share. *)
Definition outside_limits (width height hotspot_x hotspot_y : Z) : bool :=
  (width =? 0) || (height =? 0)
    || (MAX_CURSOR_DIMENSION <? width) || (MAX_CURSOR_DIMENSION <? height)
    || (width <=? hotspot_x) || (height <=? hotspot_y).

Definition write_image (image : CursorImage) : result codec_error (list Z) :=
  if outside_limits (image_width image) (image_height image) (hotspot_x image) (hotspot_y image)
  then Err CursorTooLarge
  else
    let expected := image_width image * image_height image * 4 in
    if negb (zlen (pixels image) =? expected)
    then Err (FrameSize expected (zlen (pixels image)))
    else
      let compressed := Zrle.encode (u32s_of_bytes (pixels image)) [] in
      let raw := expected <=? zlen compressed in
      Ok ([FORMAT_VERSION] ++ [if negb raw then 1 else 0]
            ++ to_le 2 (as_u16 (image_width image)) ++ to_le 2 (as_u16 (image_height image))
            ++ to_le 2 (as_u16 (hotspot_x image)) ++ to_le 2 (as_u16 (hotspot_y image))
            ++ (if raw then pixels image else compressed)).

Definition read_image (payload : list Z) : result codec_error CursorImage :=
  let? header := ok_or (get_range payload 0 IMAGE_HEADER_LEN) Truncated in
  let? h0 := index header 0 in
  if negb (h0 =? FORMAT_VERSION) then Err (UnknownVersion h0)
  else
    let? h2 := index header 2 in
    let? h3 := index header 3 in
    let? h4 := index header 4 in
    let? h5 := index header 5 in
    let? h6 := index header 6 in
    let? h7 := index header 7 in
    let? h8 := index header 8 in
    let? h9 := index header 9 in
    let width := from_le [h2; h3] in
    let height := from_le [h4; h5] in
    let hotspot_x := from_le [h6; h7] in
    let hotspot_y := from_le [h8; h9] in
    if outside_limits width height hotspot_x hotspot_y then Err CursorTooLarge
    else
      let count := width * height in
      let? body := slice_from payload IMAGE_HEADER_LEN in
      let? method := index header 1 in
      let? pixels :=
        (if method =? 0 then
           if zlen body <? count * 4 then Err Truncated
           else if count * 4 <? zlen body then Err TrailingBytes
           else Ok body
         else if method =? 1 then
           let? decoded := Zrle.decode body count in
           Ok (bytes_of_u32s decoded)
         else Err (UnknownMethod method)) in
      Ok {| pixels := pixels; image_width := width; image_height := height;
            hotspot_x := hotspot_x; hotspot_y := hotspot_y |}.

Definition write_position (position : CursorPosition) : list Z :=
  [FORMAT_VERSION] ++ [if visible position then 1 else 0]
    ++ to_le 2 (as_u16 (Z.min (pos_x position) U16_MAX))
    ++ to_le 2 (as_u16 (Z.min (pos_y position) U16_MAX)).

Definition read_position (payload : list Z) : result codec_error CursorPosition :=
  if zlen payload <? POSITION_LEN then Err Truncated
  else if POSITION_LEN <? zlen payload then Err TrailingBytes
  else
    let? p0 := index payload 0 in
    if negb (p0 =? FORMAT_VERSION) then Err (UnknownVersion p0)
    else
      let? p1 := index payload 1 in
      let? p2 := index payload 2 in
      let? p3 := index payload 3 in
      let? p4 := index payload 4 in
      let? p5 := index payload 5 in
      Ok {| pos_x := from_le [p2; p3]; pos_y := from_le [p4; p5]; visible := negb (p1 =? 0) |}.

(** ** Properties *)

Definition within_limits (image : CursorImage) : Prop :=
  1 <= image_width image <= MAX_CURSOR_DIMENSION ∧
  1 <= image_height image <= MAX_CURSOR_DIMENSION ∧
  0 <= hotspot_x image < image_width image ∧ 0 <= hotspot_y image < image_height image ∧
  zlen (pixels image) = image_width image * image_height image * 4.

Lemma outside_limits_false w h hx hy :
  0 <= w → 0 <= h → 0 <= hx → 0 <= hy →
  outside_limits w h hx hy = false ↔
  1 <= w <= MAX_CURSOR_DIMENSION ∧ 1 <= h <= MAX_CURSOR_DIMENSION ∧ hx < w ∧ hy < h.
Proof.
  intros. unfold outside_limits. rewrite !orb_false_iff, !Z.eqb_neq, !Z.ltb_ge, !Z.leb_gt. lia.
Qed.

(** What [read_image] answers about a payload whose header bytes are known. *)
Lemma read_image_bytes m w0 w1 h0 h1 x0 x1 y0 y1 body :
  let w := from_le [w0; w1] in let h := from_le [h0; h1] in
  let hx := from_le [x0; x1] in let hy := from_le [y0; y1] in
  read_image ([FORMAT_VERSION; m; w0; w1; h0; h1; x0; x1; y0; y1] ++ body) =
  if outside_limits w h hx hy then Err CursorTooLarge
  else
    let? pixels :=
      (if m =? 0 then
         if zlen body <? w * h * 4 then Err Truncated
         else if w * h * 4 <? zlen body then Err TrailingBytes else Ok body
       else if m =? 1 then
         let? decoded := Zrle.decode body (w * h) in Ok (bytes_of_u32s decoded)
       else Err (UnknownMethod m)) in
    Ok {| pixels := pixels; image_width := w; image_height := h; hotspot_x := hx; hotspot_y := hy |}.
Proof.
  intros w h hx hy. unfold read_image. rewrite get_range_prefix by done. cbn [ok_or rbind].
  rewrite (slice_from_app _ body IMAGE_HEADER_LEN) by done.
  unfold index. cbn -[from_le outside_limits Zrle.decode bytes_of_u32s Z.mul]. done.
Qed.

Lemma within_limits_passes image :
  within_limits image →
  outside_limits (image_width image) (image_height image) (hotspot_x image) (hotspot_y image)
  = false.
Proof. intros (?&?&?&?&?). apply outside_limits_false; lia. Qed.

(** An image within the limits is written, whichever form is shorter ... *)
Lemma write_image_ok image :
  within_limits image → ∃ payload, write_image image = Ok payload ∧
    IMAGE_HEADER_LEN <= zlen payload <= IMAGE_HEADER_LEN + zlen (pixels image).
Proof.
  intros Hlim. unfold write_image. rewrite within_limits_passes by done.
  destruct Hlim as (Hw & Hh & Hhx & Hhy & Hlen).
  rewrite Hlen, Z.eqb_refl. cbn [negb]. eexists. split; [reflexivity|].
  set (c := Zrle.encode _ _). rewrite !length_app, !length_to_le. cbn [length].
  change IMAGE_HEADER_LEN with 10.
  destruct (_ <=? zlen c) eqn:E; bool_to_prop; lia.
Qed.

(** ... and reads back as itself. *)
Lemma read_write_image_self image payload :
  within_limits image → Forall is_u8 (pixels image) →
  write_image image = Ok payload → read_image payload = Ok image.
Proof.
  intros Hwithin Hb. pose proof (within_limits_passes image Hwithin) as Hlim.
  destruct Hwithin as (Hw & Hh & Hhx & Hhy & Hlen).
  unfold write_image. unfold MAX_CURSOR_DIMENSION in *.
  rewrite Hlim, Hlen, Z.eqb_refl, !as_u16_small by (unfold is_u16; lia). cbn [negb].
  destruct (to_le_2 (image_width image)) as (w0 & w1 & -> & Ew); [unfold is_u16; lia|].
  destruct (to_le_2 (image_height image)) as (h0 & h1 & -> & Eh); [unfold is_u16; lia|].
  destruct (to_le_2 (hotspot_x image)) as (x0 & x1 & -> & Ex); [unfold is_u16; lia|].
  destruct (to_le_2 (hotspot_y image)) as (y0 & y1 & -> & Ey); [unfold is_u16; lia|].
  set (area := image_width image * image_height image) in *.
  set (raw := area * 4 <=? _). intros [= <-].
  match goal with |- read_image (_ :: ?m :: _ :: _ :: _ :: _ :: _ :: _ :: _ :: _ :: ?body) = _ =>
    pose proof (read_image_bytes m w0 w1 h0 h1 x0 x1 y0 y1 body) as H end.
  cbn [app] in H. rewrite Ew, Eh, Ex, Ey, Hlim in H. cbn [app]. rewrite H. fold area.
  assert (Harea : 0 <= area) by (unfold area; nia).
  assert (Hpx : zlen (u32s_of_bytes (pixels image)) = area).
  { rewrite (length_u32s_of_bytes _ (Z.to_nat area)) by lia. lia. }
  destruct raw; cbn [negb Z.eqb Pos.eqb].
  - rewrite Hlen, Z.ltb_irrefl. cbn [rbind]. by destruct image.
  - rewrite <- Hpx, decode_encode_self by auto with vm. cbn [rbind].
    rewrite (bytes_of_u32s_of_bytes _ (Z.to_nat area)) by (done || lia). by destruct image.
Qed.

Lemma write_image_refuses image :
  outside_limits (image_width image) (image_height image)
    (hotspot_x image) (hotspot_y image) = true →
  write_image image = Err CursorTooLarge.
Proof. unfold write_image. by intros ->. Qed.

(** A hostile image payload is either refused or within the limits. *)
Lemma image_header_split (payload : list Z) :
  get_range payload 0 IMAGE_HEADER_LEN = None ∨
  ∃ v m w0 w1 h0 h1 x0 x1 y0 y1 body,
    payload = [v; m; w0; w1; h0; h1; x0; x1; y0; y1] ++ body.
Proof.
  do 10 (destruct payload as [|? payload]; [left; reflexivity|]). right. repeat eexists.
Qed.

Lemma read_image_short payload :
  get_range payload 0 IMAGE_HEADER_LEN = None → read_image payload = Err Truncated.
Proof. unfold read_image. by intros ->. Qed.

Lemma read_image_version v m w0 w1 h0 h1 x0 x1 y0 y1 body :
  v ≠ FORMAT_VERSION →
  read_image ([v; m; w0; w1; h0; h1; x0; x1; y0; y1] ++ body) = Err (UnknownVersion v).
Proof.
  intros Hv%Z.eqb_neq. unfold read_image. rewrite get_range_prefix by done.
  cbn [ok_or rbind].
  assert (index (E:=codec_error) [v; m; w0; w1; h0; h1; x0; x1; y0; y1] 0 = Ok v) as -> by done.
  cbn [rbind]. by rewrite Hv.
Qed.

Lemma read_image_no_panic payload : Forall is_u8 payload → no_panic (read_image payload).
Proof.
  intros Hb. destruct (image_header_split payload) as [H|(v&m&w0&w1&h0&h1&x0&x1&y0&y1&body&->)].
  { rewrite read_image_short by done. discriminate. }
  destruct (Z.eq_dec v FORMAT_VERSION) as [->|Hne];
    [|rewrite read_image_version by done; discriminate].
  rewrite read_image_bytes. apply Forall_app in Hb as [_ Hbody].
  destruct (outside_limits _ _ _ _); [discriminate|].
  apply no_panic_bind; [|auto with vm]. repeat case_if; auto with vm.
  apply no_panic_bind; auto with vm.
Qed.

Lemma read_image_within_limits payload image :
  Forall is_u8 payload → read_image payload = Ok image →
  within_limits image ∧ Forall is_u8 (pixels image).
Proof.
  intros Hb H. destruct (image_header_split payload) as [H0|(v&m&w0&w1&h0&h1&x0&x1&y0&y1&body&->)].
  { by rewrite read_image_short in H. }
  destruct (Z.eq_dec v FORMAT_VERSION) as [->|Hne]; [|by rewrite read_image_version in H].
  rewrite read_image_bytes in H. apply Forall_app in Hb as [Hhead Hbody].
  assert (Hfield : ∀ a b, is_u8 a → is_u8 b → 0 <= from_le [a; b]).
  { intros a b Ha Hb'. unfold is_u8 in *. cbn [from_le]. lia. }
  rewrite !Forall_cons_iff in Hhead. destruct Hhead as (?&?&?&?&?&?&?&?&?&?&_).
  destruct (outside_limits _ _ _ _) eqn:Elim; [discriminate|].
  apply outside_limits_false in Elim as (? & ? & ? & ?); auto.
  rbind_step H as px, Epx. simplify_eq. unfold within_limits. cbn [pixels image_width image_height hotspot_x hotspot_y].
  assert (zlen px = from_le [w0; w1] * from_le [h0; h1] * 4 ∧ Forall is_u8 px) as [? ?].
  { repeat (case_if; try discriminate); [simplify_eq; bool_to_prop; split; [lia|done]|].
    rbind_step Epx as dec, Edec. simplify_eq.
    apply Zrle.decode_ok in Edec as [Hl Hu]; [|done|nia].
    rewrite length_bytes_of_u32s. split; [lia|auto with vm]. }
  split; [|done].
  pose proof (Hfield x0 x1 ltac:(done) ltac:(done)). pose proof (Hfield y0 y1 ltac:(done) ltac:(done)).
  cbn [from_le] in *. lia.
Qed.

Lemma read_position_bytes v m x0 x1 y0 y1 :
  read_position [v; m; x0; x1; y0; y1] =
  if negb (v =? FORMAT_VERSION) then Err (UnknownVersion v)
  else Ok {| pos_x := from_le [x0; x1]; pos_y := from_le [y0; y1]; visible := negb (m =? 0) |}.
Proof. reflexivity. Qed.

Lemma read_write_position_self p :
  0 <= pos_x p → 0 <= pos_y p →
  read_position (write_position p) =
  Ok {| pos_x := Z.min (pos_x p) U16_MAX; pos_y := Z.min (pos_y p) U16_MAX; visible := visible p |}.
Proof.
  intros Hx Hy. unfold write_position, U16_MAX.
  rewrite !as_u16_small by (unfold is_u16; lia).
  destruct (to_le_2 (Z.min (pos_x p) 65535)) as (x0 & x1 & -> & Ex); [unfold is_u16; lia|].
  destruct (to_le_2 (Z.min (pos_y p) 65535)) as (y0 & y1 & -> & Ey); [unfold is_u16; lia|].
  cbn [app]. rewrite read_position_bytes, Ex, Ey. by destruct (visible p).
Qed.

Lemma read_position_no_panic payload : no_panic (read_position payload).
Proof.
  destruct payload as [|v [|m [|x0 [|x1 [|y0 [|y1 [|z payload]]]]]]]; try discriminate.
  - rewrite read_position_bytes. case_if; discriminate.
  - unfold read_position. replace (_ <? POSITION_LEN) with false
      by (symmetry; apply Z.ltb_ge; unfold POSITION_LEN; cbn [length]; lia).
    replace (POSITION_LEN <? _) with true; [discriminate|].
    symmetry; apply Z.ltb_lt; unfold POSITION_LEN; cbn [length]; lia.
Qed.

#[export] Hint Resolve read_image_no_panic read_position_no_panic : vm.
