(* ===== verification/Queue.v ===== *)
(** * What has been captured and not yet encoded

    [crates/display-codec/src/queue.rs].  A method that hands out a mutable
    buffer ([frame_mut], [cursor_image_mut], [cursor_position_mut]) is modelled
    by the update its callers perform through it. *)

From S2P Require Import Prelude.
From S2P Require Import Geometry.

Record Staging : Type := mk_staging {
  frame : list Z;
  frame_pending : bool;
  hint : option (list Rect);
  cursor_image : list Z;
  cursor_image_pending : bool;
  cursor_position : list Z;
  cursor_position_pending : bool;
  keyframe_requested : bool;
}.

Definition new (pixels : Z) : Staging :=
  {| frame := replicate (Z.to_nat pixels) 0; frame_pending := false; hint := Some [];
     cursor_image := []; cursor_image_pending := false;
     cursor_position := []; cursor_position_pending := false;
     keyframe_requested := false |}.

Definition frame_mut (s : Staging) (f : list Z) : Staging :=
  {| frame := f; frame_pending := frame_pending s; hint := hint s;
     cursor_image := cursor_image s; cursor_image_pending := cursor_image_pending s;
     cursor_position := cursor_position s;
     cursor_position_pending := cursor_position_pending s;
     keyframe_requested := keyframe_requested s |}.

Definition stage_frame (s : Staging) (damage : option (list Rect)) : Staging :=
  {| frame := frame s; frame_pending := true;
     hint := match damage, hint s with
             | Some rects, Some hint => Some (hint ++ rects)
             | Some _, None => None
             | None, _ => None
             end;
     cursor_image := cursor_image s; cursor_image_pending := cursor_image_pending s;
     cursor_position := cursor_position s;
     cursor_position_pending := cursor_position_pending s;
     keyframe_requested := keyframe_requested s |}.

(** The pending frame's hint, if a frame is pending, and the slot afterwards. *)
Definition take_frame (s : Staging) : option (option (list Rect)) * Staging :=
  if negb (frame_pending s) then (None, s)
  else
    (Some (hint s),
     {| frame := frame s; frame_pending := false; hint := Some [];
        cursor_image := cursor_image s; cursor_image_pending := cursor_image_pending s;
        cursor_position := cursor_position s;
        cursor_position_pending := cursor_position_pending s;
        keyframe_requested := keyframe_requested s |}).

Definition set_cursor_image (s : Staging) (bytes : list Z) (pending : bool) : Staging :=
  {| frame := frame s; frame_pending := frame_pending s; hint := hint s;
     cursor_image := bytes; cursor_image_pending := pending;
     cursor_position := cursor_position s;
     cursor_position_pending := cursor_position_pending s;
     keyframe_requested := keyframe_requested s |}.

Definition cursor_image_mut (s : Staging) (bytes : list Z) : Staging :=
  set_cursor_image s bytes (cursor_image_pending s).
Definition stage_cursor_image (s : Staging) : Staging :=
  set_cursor_image s (cursor_image s) true.
Definition take_cursor_image (s : Staging) : bool * Staging :=
  (cursor_image_pending s, set_cursor_image s (cursor_image s) false).

Definition set_cursor_position (s : Staging) (bytes : list Z) (pending : bool) : Staging :=
  {| frame := frame s; frame_pending := frame_pending s; hint := hint s;
     cursor_image := cursor_image s; cursor_image_pending := cursor_image_pending s;
     cursor_position := bytes; cursor_position_pending := pending;
     keyframe_requested := keyframe_requested s |}.

Definition cursor_position_mut (s : Staging) (bytes : list Z) : Staging :=
  set_cursor_position s bytes (cursor_position_pending s).
Definition stage_cursor_position (s : Staging) : Staging :=
  set_cursor_position s (cursor_position s) true.
Definition take_cursor_position (s : Staging) : bool * Staging :=
  (cursor_position_pending s, set_cursor_position s (cursor_position s) false).

Definition set_keyframe_requested (s : Staging) (requested : bool) : Staging :=
  {| frame := frame s; frame_pending := frame_pending s; hint := hint s;
     cursor_image := cursor_image s; cursor_image_pending := cursor_image_pending s;
     cursor_position := cursor_position s;
     cursor_position_pending := cursor_position_pending s;
     keyframe_requested := requested |}.

Definition request_keyframe (s : Staging) : Staging := set_keyframe_requested s true.
Definition keyframe_sent (s : Staging) : Staging := set_keyframe_requested s false.
