(* ===== verification/TileCopy.v ===== *)
(** * Moving pixels between a frame and a tile

    The row-wise loops of [crates/display-codec/src/encoder.rs] ([gather],
    [scatter], [differs]) and of [decoder.rs] ([scatter], over the bytes of the
    frame), and what they do pixel by pixel. *)

From S2P Require Import Prelude.
From S2P Require Import Geometry.

(** ** The code *)

(** [rect.y..rect.y + rect.height]. *)
Definition rect_rows (rect : Rect) : list Z := seqZ (y rect) (rect_height rect).

Fixpoint gather_rows {E} (frame : list Z) (width : Z) (rect : Rect) (ys : list Z)
    : result E (list Z) :=
  match ys with
  | [] => Ok []
  | y :: ys =>
      let start := y * width + x rect in
      let? row := slice frame start (start + rect_width rect) in
      let? rest := gather_rows frame width rect ys in
      Ok (row ++ rest)
  end.

Definition gather {E} (frame : list Z) (g : Geometry) (rect : Rect) : result E (list Z) :=
  gather_rows frame (width g) rect (rect_rows rect).

Fixpoint scatter_rows {E} (frame : list Z) (width : Z) (rect : Rect) (tile : list Z)
    (row : Z) (ys : list Z) : result E (list Z) :=
  match ys with
  | [] => Ok frame
  | y :: ys =>
      let start := y * width + x rect in
      let? source := slice tile (row * rect_width rect) ((row + 1) * rect_width rect) in
      let? frame := splice frame start source in
      scatter_rows frame width rect tile (row + 1) ys
  end.

Definition scatter {E} (frame : list Z) (g : Geometry) (rect : Rect) (tile : list Z)
    : result E (list Z) :=
  scatter_rows frame (width g) rect tile 0 (rect_rows rect).

(** [any] stops at the first row that differs. *)
Fixpoint differs_rows {E} (frame reference : list Z) (width : Z) (rect : Rect) (ys : list Z)
    : result E bool :=
  match ys with
  | [] => Ok false
  | y :: ys =>
      let start := y * width + x rect in
      let? current := slice frame start (start + rect_width rect) in
      let? previous := slice reference start (start + rect_width rect) in
      if existsb (fun p => negb (p.1 =? p.2)) (zip current previous) then Ok true
      else differs_rows frame reference width rect ys
  end.

Definition differs {E} (frame reference : list Z) (g : Geometry) (rect : Rect) : result E bool :=
  differs_rows frame reference (width g) rect (rect_rows rect).

(** The decoder's inner loop: [source] zipped with the four-byte chunks of
    [target], which are overwritten in place. *)
Fixpoint blend (xor : bool) (source target : list Z) : list Z :=
  match source, target with
  | pixel :: source, b0 :: b1 :: b2 :: b3 :: target =>
      to_le 4 (if xor then Z.lxor pixel (from_le [b0; b1; b2; b3]) else pixel)
        ++ blend xor source target
  | _, _ => target
  end.

Fixpoint decoder_scatter_rows {E} (frame : list Z) (stride : Z) (rect : Rect) (tile : list Z)
    (xor : bool) (row : Z) (ys : list Z) : result E (list Z) :=
  match ys with
  | [] => Ok frame
  | y :: ys =>
      let start := y * stride + x rect * 4 in
      let? target := slice frame start (start + rect_width rect * 4) in
      let? source := slice tile (row * rect_width rect) ((row + 1) * rect_width rect) in
      let? frame := splice frame start (blend xor source target) in
      decoder_scatter_rows frame stride rect tile xor (row + 1) ys
  end.

Definition decoder_scatter {E} (frame : list Z) (g : Geometry) (rect : Rect) (tile : list Z)
    (xor : bool) : result E (list Z) :=
  decoder_scatter_rows frame (width g * 4) rect tile xor 0 (rect_rows rect).

(** ** Reading a list at a machine index *)

Definition zget (l : list Z) (i : Z) : option Z := l !! Z.to_nat i.

Lemma zget_some l i : 0 <= i < zlen l → ∃ v, zget l i = Some v.
Proof. intros. unfold zget. apply lookup_lt_is_Some_2. lia. Qed.

Lemma zget_ext l1 l2 :
  zlen l1 = zlen l2 → (∀ i, 0 <= i < zlen l1 → zget l1 i = zget l2 i) → l1 = l2.
Proof.
  intros Hlen H. apply list_eq. intros i.
  destruct (decide (i < length l1)%nat) as [Hi|Hi].
  - specialize (H (Z.of_nat i) ltac:(lia)). unfold zget in H. by rewrite Nat2Z.id in H.
  - rewrite !lookup_ge_None_2 by lia. done.
Qed.

Lemma slice_ok {E} (l : list Z) a b :
  0 <= a → a <= b → b <= zlen l →
  ∃ r, slice (E:=E) l a b = Ok r ∧ zlen r = b - a ∧
       ∀ i, 0 <= i < b - a → zget r i = zget l (a + i).
Proof.
  intros Ha Hab Hb. unfold slice, get_range. rewrite bool_true3 by lia. cbn [expect].
  eexists. split; [reflexivity|]. split; [rewrite length_take, length_drop; lia|].
  intros i Hi. unfold zget. rewrite lookup_take_lt, lookup_drop by lia. f_equal. lia.
Qed.

Lemma splice_get {E} (l src l' : list Z) a :
  splice (E:=E) l a src = Ok l' →
  zlen l' = zlen l ∧
  ∀ i, 0 <= i → zget l' i = if (a <=? i) && (i <? a + zlen src) then zget src (i - a) else zget l i.
Proof.
  intros (? & ? & ->)%splice_inv.
  split; [rewrite !length_app, length_take, length_drop; lia|].
  intros i Hi. unfold zget.
  destruct ((a <=? i) && (i <? a + zlen src))%bool eqn:E'; bool_to_prop.
  - rewrite lookup_app_r by (rewrite length_take; lia).
    rewrite lookup_app_l by (rewrite length_take; lia). f_equal. rewrite length_take. lia.
  - rewrite lookup_app_l by (rewrite length_take; lia). rewrite lookup_take_lt by lia. done.
  - rewrite !lookup_app_r by (rewrite !length_take; lia).
    rewrite length_take, lookup_drop. f_equal. lia.
Qed.

Lemma splice_ex {E} (l src : list Z) a :
  0 <= a → a + zlen src <= zlen l → ∃ l', splice (E:=E) l a src = Ok l'.
Proof. intros. rewrite splice_ok by lia. eauto. Qed.

Lemma slice_u32 {E} (l r : list Z) a b :
  Forall is_u32 l → slice (E:=E) l a b = Ok r → Forall is_u32 r.
Proof.
  unfold slice, expect. intros Hl H. destruct (get_range l a b) eqn:Eg; [|discriminate].
  apply get_range_inv in Eg as (_ & _ & _ & ->). simplify_eq. by apply Forall_take, Forall_drop.
Qed.

Lemma splice_u32 {E} (l src l' : list Z) a :
  Forall is_u32 l → Forall is_u32 src → splice (E:=E) l a src = Ok l' → Forall is_u32 l'.
Proof.
  intros Hl Hsrc (? & ? & ->)%splice_inv.
  repeat apply Forall_app_2; auto using Forall_take, Forall_drop.
Qed.

(** ** Pixels as bytes *)

Definition mixz (xor : bool) (new old : Z) : Z := if xor then Z.lxor new old else new.

Lemma take_bytes n px : take (4 * n) (bytes_of_u32s px) = bytes_of_u32s (take n px).
Proof.
  revert px. induction n as [|n IH]; intros px; [by rewrite !take_0|].
  destruct px as [|p px]; [by rewrite !take_nil|]. cbn [bytes_of_u32s take].
  rewrite take_app, length_to_le, take_ge by (rewrite length_to_le; lia).
  replace (4 * S n - 4)%nat with (4 * n)%nat by lia. by rewrite IH.
Qed.

Lemma drop_bytes n px : drop (4 * n) (bytes_of_u32s px) = bytes_of_u32s (drop n px).
Proof.
  revert px. induction n as [|n IH]; intros px; [by rewrite !drop_0|].
  destruct px as [|p px]; [by rewrite !drop_nil|]. cbn [bytes_of_u32s drop].
  rewrite drop_app, length_to_le, drop_ge by (rewrite length_to_le; lia).
  replace (4 * S n - 4)%nat with (4 * n)%nat by lia. by rewrite IH.
Qed.

Lemma slice_bytes {E} (l : list Z) a n r :
  slice (E:=E) l a (a + n) = Ok r →
  slice (E:=E) (bytes_of_u32s l) (a * 4) (a * 4 + n * 4) = Ok (bytes_of_u32s r).
Proof.
  unfold slice. intros H. destruct (get_range l a (a + n)) eqn:Eg; [|discriminate].
  apply get_range_inv in Eg as (? & ? & ? & ->). cbn in H. simplify_eq. unfold get_range.
  rewrite length_bytes_of_u32s, bool_true3 by lia. cbn [expect]. f_equal.
  rewrite <- take_bytes, <- drop_bytes. f_equal; [lia|]. f_equal. lia.
Qed.

Lemma splice_bytes {E} (l src : list Z) a l' :
  splice (E:=E) l a src = Ok l' →
  splice (E:=E) (bytes_of_u32s l) (a * 4) (bytes_of_u32s src) = Ok (bytes_of_u32s l').
Proof.
  intros (? & ? & ->)%splice_inv.
  rewrite splice_ok by (rewrite ?length_bytes_of_u32s; lia). rewrite length_bytes_of_u32s.
  rewrite !bytes_of_u32s_app, <- take_bytes, <- drop_bytes. do 3 f_equal; [lia|].
  f_equal. lia.
Qed.

Lemma blend_bytes xor src tgt :
  length src = length tgt → Forall is_u32 tgt →
  blend xor src (bytes_of_u32s tgt) = bytes_of_u32s (zip_with (mixz xor) src tgt).
Proof.
  revert tgt. induction src as [|p src IH]; intros [|q tgt] Hlen Hu; try discriminate; [done|].
  apply Forall_cons_1 in Hu as [Hq Hu].
  cbn [bytes_of_u32s zip_with]. pose proof (from_le_to_le_u32 q Hq) as Hrt.
  destruct (to_le 4 q) as [|b0 [|b1 [|b2 [|b3 [|]]]]] eqn:Eq; try discriminate Eq.
  cbn [app blend]. rewrite Hrt, IH by (done || (cbn in Hlen; lia)). done.
Qed.

Lemma zip_with_mixz_u32 xor src tgt :
  Forall is_u32 src → Forall is_u32 tgt → Forall is_u32 (zip_with (mixz xor) src tgt).
Proof.
  intros Hs. revert tgt. induction Hs as [|p src Hp Hs IH]; intros [|q tgt] Ht; cbn; constructor.
  - apply Forall_cons_1 in Ht as [Hq _]. unfold mixz. destruct xor; auto using lxor_u32.
  - apply Forall_cons_1 in Ht as [_ Ht]. auto.
Qed.

Lemma zget_zip_mixz xor src tgt i :
  zlen src = zlen tgt → 0 <= i < zlen src →
  zget (zip_with (mixz xor) src tgt) i
  = (if xor then match zget src i, zget tgt i with
                 | Some a, Some b => Some (Z.lxor a b) | _, _ => None end
     else zget src i).
Proof.
  intros Hlen Hi. unfold zget. rewrite lookup_zip_with.
  destruct (lookup_lt_is_Some_2 src (Z.to_nat i)) as [a ->]; [lia|].
  destruct (lookup_lt_is_Some_2 tgt (Z.to_nat i)) as [b ->]; [lia|].
  by destruct xor.
Qed.

(** ** Frames *)

(** A rectangle that lies inside a frame of this geometry. *)
Definition rect_in (g : Geometry) (r : Rect) : Prop :=
  0 <= x r ∧ 0 <= y r ∧ 0 < rect_width r ∧ 0 < rect_height r ∧
  x r + rect_width r <= width g ∧ y r + rect_height r <= height g.

Definition area (r : Rect) : Z := rect_width r * rect_height r.

Lemma tile_rect_in g index r : wf g → 0 <= index → tile g index = Some r → rect_in g r.
Proof.
  intros Hwf Hi Hr. destruct (tile_in_frame g Hwf _ _ Hi Hr) as (?&?&?&?&?&?).
  unfold rect_in. lia.
Qed.

(** A run of one row's pixels is exactly an interval of the frame. *)
Lemma row_interval W Y X n px py :
  0 <= px < W → 0 <= X → 0 <= n → X + n <= W →
  (Y * W + X <= py * W + px < Y * W + X + n) ↔ (py = Y ∧ X <= px < X + n).
Proof.
  intros ? ? ? ?. split; [|nia]. intros Hi.
  assert (py = Y) as -> by nia. lia.
Qed.

Lemma frame_index W H px py : 0 <= px < W → 0 <= py < H → 0 <= py * W + px < W * H.
Proof. nia. Qed.

Lemma frame_ext g f1 f2 :
  0 < width g → zlen f1 = pixel_count g → zlen f2 = pixel_count g →
  (∀ px py, 0 <= px < width g → 0 <= py < height g →
     zget f1 (py * width g + px) = zget f2 (py * width g + px)) →
  f1 = f2.
Proof.
  unfold pixel_count. intros HW H1 H2 H. apply zget_ext; [lia|]. intros i Hi.
  pose proof (Z.div_mod i (width g) ltac:(lia)) as Hdm.
  pose proof (Z.mod_pos_bound i (width g) ltac:(lia)).
  rewrite Hdm, (Z.mul_comm (width g)). apply H; [lia|].
  split; [apply Z.div_pos; lia|apply Z.div_lt_upper_bound; lia].
Qed.

(** ** What the row loops do to a frame *)

Section rows.
Context {E : Type} (g : Geometry) (r : Rect) (Hr : rect_in g r).

(** *** Gathering *)

Lemma gather_rows_ok f Y n :
  zlen f = pixel_count g → 0 <= Y → Y + Z.of_nat n <= height g →
  ∃ t, gather_rows (E:=E) f (width g) r (seqZ Y (Z.of_nat n)) = Ok t ∧
    zlen t = rect_width r * Z.of_nat n ∧
    ∀ row col, 0 <= row < Z.of_nat n → 0 <= col < rect_width r →
      zget t (row * rect_width r + col) = zget f ((Y + row) * width g + x r + col).
Proof.
  destruct Hr as (Hx & Hy & Hw & Hh & HW & HH). unfold pixel_count. intros Hf.
  revert Y. induction n as [|n IH]; intros Y HY HYn.
  { exists []. split; [done|]. split; [cbn; lia|lia]. }
  rewrite seqZ_cons by lia. cbn [gather_rows].
  destruct (slice_ok (E:=E) f (Y * width g + x r) (Y * width g + x r + rect_width r))
    as (row0 & -> & Hlen0 & Hget0); [nia..|]. cbn [rbind].
  destruct (IH (Z.succ Y) ltac:(lia) ltac:(lia)) as (t & Ht & Hlent & Hgett).
  replace (Z.pred (Z.of_nat (S n))) with (Z.of_nat n) by lia. rewrite Ht. cbn [rbind].
  exists (row0 ++ t). split; [done|]. split; [rewrite length_app; lia|].
  intros row col Hrow Hcol. unfold zget in *.
  destruct (Z.eq_dec row 0) as [->|Hne].
  - rewrite lookup_app_l by lia. rewrite Z.mul_0_l, Z.add_0_l, Z.add_0_r.
    rewrite Hget0 by lia. f_equal; lia.
  - assert (0 <= (row - 1) * rect_width r) by nia.
    rewrite lookup_app_r by nia.
    replace (Z.to_nat (row * rect_width r + col) - length row0)%nat
      with (Z.to_nat ((row - 1) * rect_width r + col)) by nia.
    rewrite Hgett by lia. f_equal. f_equal. lia.
Qed.

(** A gathered tile is the frame's pixels under the rectangle, row by row. *)
Lemma gather_ok f :
  zlen f = pixel_count g →
  ∃ t, gather (E:=E) f g r = Ok t ∧ zlen t = area r ∧
    ∀ row col, 0 <= row < rect_height r → 0 <= col < rect_width r →
      zget t (row * rect_width r + col) = zget f ((y r + row) * width g + (x r + col)).
Proof.
  intros Hf. pose proof Hr as (Hx & Hy & Hw & Hh & HW & HH).
  destruct (gather_rows_ok f (y r) (Z.to_nat (rect_height r)) Hf ltac:(lia) ltac:(lia))
    as (t & Ht & Hlen & Hget).
  rewrite Z2Nat.id in * by lia. exists t. unfold gather, rect_rows, area.
  split; [done|]. split; [done|]. intros row col Hrow Hcol.
  rewrite Hget by lia. f_equal. lia.
Qed.

(** *** Scattering *)

(** Both scatters, on pixels: the rows of the rectangle are overwritten with
    the tile's, XORed onto what is there when [xor] says so. *)
Definition mix (xor : bool) (new old : option Z) : option Z :=
  if xor then match new, old with Some a, Some b => Some (Z.lxor a b) | _, _ => None end
  else new.

Definition scattered (xor : bool) (f t f' : list Z) : Prop :=
  zlen f' = zlen f ∧
  ∀ px py, 0 <= px < width g → 0 <= py < height g →
    (inside r px py →
     zget f' (py * width g + px)
     = mix xor (zget t ((py - y r) * rect_width r + (px - x r))) (zget f (py * width g + px))) ∧
    (¬ inside r px py → zget f' (py * width g + px) = zget f (py * width g + px)).

(** The same after the first [n] rows of the rectangle. *)
Definition scattered_rows (xor : bool) (n : Z) (f t f' : list Z) : Prop :=
  zlen f' = zlen f ∧
  ∀ px py, 0 <= px < width g → 0 <= py < height g →
    (inside r px py ∧ py < y r + n →
     zget f' (py * width g + px)
     = mix xor (zget t ((py - y r) * rect_width r + (px - x r))) (zget f (py * width g + px))) ∧
    (¬ (inside r px py ∧ py < y r + n) →
     zget f' (py * width g + px) = zget f (py * width g + px)).

Lemma scattered_rows_all xor f t f' :
  scattered_rows xor (rect_height r) f t f' → scattered xor f t f'.
Proof.
  intros [Hlen H]. split; [done|]. intros px py Hpx Hpy.
  destruct (H px py Hpx Hpy) as [Hin Hout]. unfold inside in *.
  split; intros; [apply Hin|apply Hout]; lia.
Qed.

Lemma scattered_rows_step xor n f t f1 row f2 :
  scattered_rows xor n f t f1 → 0 <= n < rect_height r → zlen row = rect_width r →
  (∀ col, 0 <= col < rect_width r →
     zget row col = mix xor (zget t (n * rect_width r + col))
                            (zget f1 ((y r + n) * width g + x r + col))) →
  splice (E:=E) f1 ((y r + n) * width g + x r) row = Ok f2 →
  scattered_rows xor (n + 1) f t f2.
Proof.
  intros [Hlen1 H1] Hn Hrow Hcol (Hlen2 & Hget)%splice_get.
  pose proof Hr as (Hx & Hy & Hw & Hh & HW & HH). split; [lia|]. intros px py Hpx Hpy.
  destruct (H1 px py Hpx Hpy) as [Hin Hout].
  rewrite Hget, Hrow by (pose proof (frame_index (width g) (height g) px py); lia).
  pose proof (row_interval (width g) (y r + n) (x r) (rect_width r) px py
    ltac:(lia) ltac:(lia) ltac:(lia) ltac:(lia)) as Hint.
  unfold inside in *.
  destruct ((_ <=? _) && (_ <? _))%bool eqn:E0.
  - apply andb_true_iff in E0 as [?%Z.leb_le ?%Z.ltb_lt].
    destruct Hint as [Hint _]. destruct Hint as [-> Hpx']; [lia|]. split; [intros _|lia].
    replace ((y r + n) * width g + px - ((y r + n) * width g + x r)) with (px - x r) by lia.
    rewrite Hcol by lia. replace (y r + n - y r) with n by lia. f_equal.
    replace ((y r + n) * width g + x r + (px - x r)) with ((y r + n) * width g + px) by lia.
    apply Hout. lia.
  - assert (Hne : ¬ (py = y r + n ∧ x r <= px < x r + rect_width r)).
    { intros Heq%Hint. apply andb_false_iff in E0 as [?%Z.leb_gt|?%Z.ltb_ge]; lia. }
    split; intros Hcase; [apply Hin|apply Hout]; lia.
Qed.

Lemma scattered_rows_0 xor f t : scattered_rows xor 0 f t f.
Proof.
  split; [done|]. intros px py ? ?. unfold inside. split; [lia|done].
Qed.

Lemma seqZ_next n :
  0 <= n < rect_height r →
  seqZ (y r + n) (rect_height r - n) = y r + n :: seqZ (y r + (n + 1)) (rect_height r - (n + 1)).
Proof. intros. rewrite seqZ_cons by lia. f_equal. f_equal; lia. Qed.

Lemma scatter_rows_ok f t (k : nat) n f1 :
  zlen f = pixel_count g → zlen t = area r →
  rect_height r - n = Z.of_nat k → 0 <= n →
  scattered_rows false n f t f1 →
  ∃ f2, scatter_rows (E:=E) f1 (width g) r t n (seqZ (y r + n) (rect_height r - n)) = Ok f2 ∧
    scattered_rows false (rect_height r) f t f2.
Proof.
  pose proof Hr as (Hx & Hy & Hw & Hh & HW & HH). unfold pixel_count, area. intros Hf Ht.
  revert n f1. induction k as [|k IH]; intros n f1 Hk Hn Hf1.
  { assert (n = rect_height r) as -> by lia. rewrite Z.sub_diag. by exists f1. }
  rewrite seqZ_next by lia. cbn [scatter_rows].
  destruct (slice_ok (E:=E) t (n * rect_width r) ((n + 1) * rect_width r))
    as (src & -> & Hlen & Hget); [nia..|]. cbn [rbind].
  pose proof Hf1 as [Hlen1 _].
  destruct (splice_ex (E:=E) f1 src ((y r + n) * width g + x r)) as [f2 Esp]; [nia|nia|].
  rewrite Esp. cbn [rbind]. apply (IH (n + 1)); [lia|lia|].
  apply scattered_rows_step with (f1 := f1) (row := src); [done|lia|lia| |done].
  intros col Hcol. cbn [mix]. apply Hget. lia.
Qed.

Lemma scatter_ok f t :
  zlen f = pixel_count g → zlen t = area r →
  ∃ f', scatter (E:=E) f g r t = Ok f' ∧ scattered false f t f'.
Proof.
  intros Hf Ht. pose proof Hr as (_ & _ & _ & Hh & _).
  destruct (scatter_rows_ok f t (Z.to_nat (rect_height r)) 0 f) as (f' & Hok & Hsc);
    [done..|lia|lia|apply scattered_rows_0|].
  rewrite Z.add_0_r, Z.sub_0_r in Hok. exists f'. split; [done|]. by apply scattered_rows_all.
Qed.

(** *** The decoder's scatter, over bytes *)

Lemma decoder_scatter_rows_ok xor f t (k : nat) n f1 :
  zlen f = pixel_count g → zlen t = area r → Forall is_u32 t → Forall is_u32 f1 →
  rect_height r - n = Z.of_nat k → 0 <= n →
  scattered_rows xor n f t f1 →
  ∃ f2, decoder_scatter_rows (E:=E) (bytes_of_u32s f1) (width g * 4) r t xor n
          (seqZ (y r + n) (rect_height r - n)) = Ok (bytes_of_u32s f2) ∧
    Forall is_u32 f2 ∧ scattered_rows xor (rect_height r) f t f2.
Proof.
  pose proof Hr as (Hx & Hy & Hw & Hh & HW & HH). unfold pixel_count, area.
  intros Hf Ht Htu. revert n f1. induction k as [|k IH]; intros n f1 Hf1u Hk Hn Hf1.
  { assert (n = rect_height r) as -> by lia. rewrite Z.sub_diag. by exists f1. }
  rewrite seqZ_next by lia. cbn [decoder_scatter_rows].
  pose proof Hf1 as [Hlen1 _].
  destruct (slice_ok (E:=E) f1 ((y r + n) * width g + x r)
    ((y r + n) * width g + x r + rect_width r)) as (tgt & Htgt & Hlent & Hgett); [nia..|].
  replace ((y r + n) * (width g * 4) + x r * 4) with (((y r + n) * width g + x r) * 4) by lia.
  rewrite (slice_bytes _ _ _ tgt) by (rewrite <- Htgt; f_equal; lia).
  destruct (slice_ok (E:=E) t (n * rect_width r) ((n + 1) * rect_width r))
    as (src & Hsrc & Hlens & Hgets); [nia..|]. rewrite Hsrc. cbn [rbind].
  rewrite blend_bytes by (try lia; eauto using slice_u32).
  set (row := zip_with (mixz xor) src tgt).
  assert (Hrow : zlen row = rect_width r) by (unfold row; rewrite length_zip_with_l_eq; lia).
  destruct (splice_ex (E:=E) f1 row ((y r + n) * width g + x r)) as [f2 Esp]; [nia|nia|].
  rewrite (splice_bytes _ _ _ f2 Esp). cbn [rbind].
  assert (Hrowu : Forall is_u32 row) by (apply zip_with_mixz_u32; eauto using slice_u32).
  apply (IH (n + 1)); [exact (splice_u32 f1 row f2 _ Hf1u Hrowu Esp)|lia|lia|].
  apply scattered_rows_step with (f1 := f1) (row := row); [done|lia|lia| |done].
  intros col Hcol. rewrite <- Hgets by lia.
  replace ((y r + n) * width g + x r + col) with ((y r + n) * width g + x r + col) by lia.
  rewrite <- Hgett by lia. unfold row. apply zget_zip_mixz; lia.
Qed.

Lemma decoder_scatter_ok xor f t :
  zlen f = pixel_count g → zlen t = area r → Forall is_u32 t → Forall is_u32 f →
  ∃ f', decoder_scatter (E:=E) (bytes_of_u32s f) g r t xor = Ok (bytes_of_u32s f') ∧
    Forall is_u32 f' ∧ scattered xor f t f'.
Proof.
  intros Hf Ht Htu Hfu. pose proof Hr as (_ & _ & _ & Hh & _).
  destruct (decoder_scatter_rows_ok xor f t (Z.to_nat (rect_height r)) 0 f)
    as (f' & Hok & Hu & Hsc); [done..|lia|lia|apply scattered_rows_0|].
  rewrite Z.add_0_r, Z.sub_0_r in Hok. exists f'. split; [done|]. split; [done|].
  by apply scattered_rows_all.
Qed.

(** The relation determines its result. *)
Lemma scattered_unique xor f t f1 f2 :
  zlen f = pixel_count g → scattered xor f t f1 → scattered xor f t f2 → f1 = f2.
Proof.
  intros Hf [Hl1 H1] [Hl2 H2]. pose proof Hr as (?&?&?&?&?&?).
  apply (frame_ext g); [lia|lia|lia|]. intros px py Hpx Hpy.
  destruct (H1 px py Hpx Hpy) as [Hi1 Ho1], (H2 px py Hpx Hpy) as [Hi2 Ho2].
  assert (inside r px py ∨ ¬ inside r px py) as [Hin|Hout]
    by (unfold inside; lia).
  - by rewrite Hi1, Hi2.
  - by rewrite Ho1, Ho2.
Qed.
End rows.

(** ** Gathering, scattering and comparing whole tiles *)

Section tiles.
Context {E : Type} (g : Geometry) (r : Rect) (Hr : rect_in g r).

(** A pixel of the rectangle, as a position in the tile. *)
Lemma inside_offset px py :
  inside r px py →
  0 <= py - y r < rect_height r ∧ 0 <= px - x r < rect_width r.
Proof. unfold inside. lia. Qed.

Lemma gathered_get f t px py :
  gather (E:=E) f g r = Ok t → zlen f = pixel_count g → inside r px py →
  zget t ((py - y r) * rect_width r + (px - x r)) = zget f (py * width g + px).
Proof.
  intros Ht Hf Hin. destruct (gather_ok (E:=E) g r Hr f Hf) as (t' & Ht' & _ & Hget).
  rewrite Ht in Ht'. simplify_eq. destruct (inside_offset px py Hin).
  rewrite Hget by lia. f_equal. lia.
Qed.

Lemma gather_u32 f t : Forall is_u32 f → gather (E:=E) f g r = Ok t → Forall is_u32 t.
Proof.
  intros Hf. unfold gather. generalize (rect_rows r). intros ys. revert t.
  induction ys as [|y0 ys IH]; intros t H; cbn [gather_rows] in H; [by simplify_eq|].
  rbind_step H as row, Er. rbind_step H as rest, Et. simplify_eq.
  apply Forall_app_2; [by eapply slice_u32|auto].
Qed.

(** Scattering a gathered tile copies the rectangle from one frame to another. *)
Definition stamped (src f f' : list Z) : Prop :=
  zlen f' = zlen f ∧
  ∀ px py, 0 <= px < width g → 0 <= py < height g →
    (inside r px py → zget f' (py * width g + px) = zget src (py * width g + px)) ∧
    (¬ inside r px py → zget f' (py * width g + px) = zget f (py * width g + px)).

Lemma scattered_gathered src f t f' :
  gather (E:=E) src g r = Ok t → zlen src = pixel_count g →
  scattered g r false f t f' → stamped src f f'.
Proof.
  intros Ht Hsrc [Hlen H]. split; [done|]. intros px py Hpx Hpy.
  destruct (H px py Hpx Hpy) as [Hin Hout]. split; [|done].
  intros Hi. rewrite Hin by done. cbn [mix]. by apply gathered_get.
Qed.

Lemma stamped_same src f f' :
  zlen src = pixel_count g → zlen f = pixel_count g → stamped src f f' →
  src = f → f' = f.
Proof.
  intros Hs Hf [Hlen H] ->. pose proof Hr as (?&?&?&?&?&?). apply (frame_ext g); [lia|lia|lia|].
  intros px py Hpx Hpy. destruct (H px py Hpx Hpy) as [Hin Hout].
  assert (inside r px py ∨ ¬ inside r px py) as [?|?] by (unfold inside; lia); auto.
Qed.

Lemma lxor_back a b : Z.lxor (Z.lxor a b) b = a.
Proof. by rewrite Z.lxor_assoc, Z.lxor_nilpotent, Z.lxor_0_r. Qed.

(** XORing a tile against what the frame holds, then XORing it back onto the
    frame, is writing the tile. *)
Lemma scattered_xor f t old f' :
  zlen f = pixel_count g → zlen t = area r → gather (E:=E) f g r = Ok old →
  scattered g r true f (zip_with (mixz true) t old) f' → scattered g r false f t f'.
Proof.
  intros Hf Ht Hold [Hlen H]. pose proof Hr as (?&?&?&?&?&?). split; [done|].
  destruct (gather_ok (E:=E) g r Hr f Hf) as (old' & Hold' & Hlo & _).
  rewrite Hold in Hold'. simplify_eq. intros px py Hpx Hpy.
  destruct (H px py Hpx Hpy) as [Hin Hout]. split; [|done]. intros Hi.
  rewrite Hin by done. cbn [mix]. destruct (inside_offset px py Hi).
  assert (0 <= (py - y r) * rect_width r + (px - x r) < area r) by (unfold area; nia).
  rewrite zget_zip_mixz by lia. rewrite (gathered_get f old') by done.
  destruct (zget_some t ((py - y r) * rect_width r + (px - x r))) as [a ->]; [lia|].
  pose proof (frame_index (width g) (height g) px py Hpx Hpy). unfold pixel_count in Hf.
  destruct (zget_some f (py * width g + px)) as [b ->]; [lia|].
  by rewrite lxor_back.
Qed.

Lemma existsb_zip_differs (l1 l2 : list Z) :
  length l1 = length l2 →
  existsb (fun p => negb (p.1 =? p.2)) (zip l1 l2) = false → l1 = l2.
Proof.
  revert l2. induction l1 as [|a l1 IH]; intros [|b l2] Hlen H; try discriminate; [done|].
  cbn in H. apply orb_false_elim in H as [Hab H]. bool_to_prop. subst. f_equal. auto.
Qed.

Lemma differs_rows_ok f1 f2 Y n :
  zlen f1 = pixel_count g → zlen f2 = pixel_count g → 0 <= Y → Y + Z.of_nat n <= height g →
  ∃ b, differs_rows (E:=E) f1 f2 (width g) r (seqZ Y (Z.of_nat n)) = Ok b ∧
    (b = false → ∀ py px, Y <= py < Y + Z.of_nat n → x r <= px < x r + rect_width r →
       zget f1 (py * width g + px) = zget f2 (py * width g + px)).
Proof.
  destruct Hr as (Hx & Hy & Hw & Hh & HW & HH). unfold pixel_count. intros Hf1 Hf2.
  revert Y. induction n as [|n IH]; intros Y HY HYn.
  { exists false. split; [done|]. lia. }
  rewrite seqZ_cons by lia. cbn [differs_rows].
  destruct (slice_ok (E:=E) f1 (Y * width g + x r) (Y * width g + x r + rect_width r))
    as (r1 & -> & Hl1 & Hg1); [nia..|].
  destruct (slice_ok (E:=E) f2 (Y * width g + x r) (Y * width g + x r + rect_width r))
    as (r2 & -> & Hl2 & Hg2); [nia..|]. cbn [rbind].
  destruct (existsb _ (zip r1 r2)) eqn:Ex; [by exists true|].
  destruct (IH (Z.succ Y) ltac:(lia) ltac:(lia)) as (b & Hb & Hsame).
  replace (Z.pred (Z.of_nat (S n))) with (Z.of_nat n) by lia. exists b. split; [done|].
  intros -> py px Hpy Hpx. destruct (Z.eq_dec py Y) as [->|]; [|apply Hsame; lia].
  apply existsb_zip_differs in Ex; [|lia]. subst r2.
  replace (Y * width g + px) with (Y * width g + x r + (px - x r)) by lia.
  rewrite <- Hg1, <- Hg2 by lia. done.
Qed.

(** A tile that does not differ holds the same pixels in both frames. *)
Lemma differs_ok f1 f2 :
  zlen f1 = pixel_count g → zlen f2 = pixel_count g →
  ∃ b, differs (E:=E) f1 f2 g r = Ok b ∧
    (b = false → ∀ px py, inside r px py →
       zget f1 (py * width g + px) = zget f2 (py * width g + px)).
Proof.
  intros Hf1 Hf2. pose proof Hr as (?&?&?&?&?&?).
  destruct (differs_rows_ok f1 f2 (y r) (Z.to_nat (rect_height r)) Hf1 Hf2 ltac:(lia) ltac:(lia))
    as (b & Hb & Hsame). rewrite Z2Nat.id in * by lia.
  exists b. split; [done|]. intros Hfalse px py [Hpx Hpy]. apply Hsame; auto; lia.
Qed.
End tiles.
