(* ===== verification/Encoder.v ===== *)
(** * Turning captured frames into the frame channel's payloads

    [crates/display-codec/src/encoder.rs].  The buffers [tile],
    [previous_tile] and [scratch] are cleared before every use, so they are local
    values here; every other field of [Encoder] is a field of the record.  A
    slice index out of range is [Panic], and so is a [while] loop that does not
    end within its fuel. *)

From stdpp Require Import sets.
From S2P Require Import Prelude.
From S2P Require Import Varint.
From S2P Require Import Zrle.
From S2P Require Import Geometry.
From S2P Require Import Container.
From S2P Require Import Cursor.
From S2P Require Import Queue.
From S2P Require Import TileCopy.

(** ** Data *)

Record Frame : Type := mk_frame { frame_pixels : list Z; stride : Z }.

Record EncoderConfig : Type := mk_config {
  config_geometry : Geometry;
  config_refresh_interval : Z;
}.

Definition default_config (g : Geometry) : EncoderConfig :=
  {| config_geometry := g; config_refresh_interval := 300 |}.

Inductive Payload : Type :=
| Keyframe (bytes : list Z)
| TileDelta (bytes : list Z)
| CursorImagePayload (bytes : list Z)
| CursorPositionPayload (bytes : list Z).

Record Encoder : Type := mk_encoder {
  geometry : Geometry;
  refresh_interval : Z;
  sweep : Z;
  staging : Staging;
  reference : list Z;
  has_reference : bool;
  output : list Z;
  selected : list bool;
}.

Definition new (config : EncoderConfig) : Encoder :=
  let pixels := pixel_count (config_geometry config) in
  {| geometry := config_geometry config;
     refresh_interval := config_refresh_interval config;
     sweep := 0;
     staging := Queue.new pixels;
     reference := replicate (Z.to_nat pixels) 0;
     has_reference := false;
     output := [];
     selected := replicate (Z.to_nat (tile_count (config_geometry config))) false |}.

Definition with_staging (e : Encoder) (s : Staging) : Encoder :=
  {| geometry := geometry e; refresh_interval := refresh_interval e; sweep := sweep e;
     staging := s; reference := reference e; has_reference := has_reference e;
     output := output e; selected := selected e |}.

(** ** Submitting *)

(** The loop of [submit] over the rows of the frame. *)
Fixpoint submit_rows (staged pixels : list Z) (width stride : Z) (ys : list Z)
    : result codec_error (list Z) :=
  match ys with
  | [] => Ok staged
  | y :: ys =>
      let? source := slice pixels (y * stride) (y * stride + width * 4) in
      let? staged := splice staged (y * width) (u32s_of_bytes source) in
      submit_rows staged pixels width stride ys
  end.

(** [frame.stride * (height - 1) + row] is [usize] arithmetic, whose overflow a
    checked build panics on. *)
Definition submit (e : Encoder) (frame : Frame) (damage : option (list Rect))
    : result codec_error Encoder :=
  let width := width (geometry e) in
  let height := height (geometry e) in
  let row := width * 4 in
  let? needed :=
    (if stride frame <? row then Ok USIZE_MAX
     else if USIZE_MAX <? stride frame * (height - 1) + row then Panic
     else Ok (stride frame * (height - 1) + row)) in
  if zlen (frame_pixels frame) <? needed
  then Err (FrameSize needed (zlen (frame_pixels frame)))
  else
    let? staged :=
      submit_rows (Queue.frame (staging e)) (frame_pixels frame) width (stride frame)
        (seqZ 0 height) in
    Ok (with_staging e (stage_frame (frame_mut (staging e) staged) damage)).

Definition submit_cursor_image (e : Encoder) (image : CursorImage)
    : result codec_error Encoder :=
  let? bytes := write_image image in
  Ok (with_staging e (stage_cursor_image (cursor_image_mut (staging e) bytes))).

Definition submit_cursor_position (e : Encoder) (position : CursorPosition) : Encoder :=
  with_staging e
    (stage_cursor_position (cursor_position_mut (staging e) (write_position position))).

Definition request_keyframe (e : Encoder) : Encoder :=
  with_staging e (Queue.request_keyframe (staging e)).

(** ** Selecting tiles *)

Fixpoint mark_all {E} (selected : list bool) (indices : list Z) : result E (list bool) :=
  match indices with
  | [] => Ok selected
  | i :: indices =>
      let? selected := assign selected i true in
      mark_all selected indices
  end.

(** [a..=b]. *)
Definition range_inclusive (a b : Z) : list Z := seqZ a (b - a + 1).

(** The tiles a rectangle of the hint reaches, once it is clipped. *)
Definition hint_tiles (g : Geometry) (rect : Rect) : list Z :=
  if (rect_width rect =? 0) || (rect_height rect =? 0)
     || (width g <=? x rect) || (height g <=? y rect)
  then []
  else
    let tile := as_pixels (tile_size g) in
    let right := Z.min (u32_saturating_add (x rect) (rect_width rect)) (width g) - 1 in
    let bottom := Z.min (u32_saturating_add (y rect) (rect_height rect)) (height g) - 1 in
    row ← range_inclusive (y rect / tile) (bottom / tile);
    column ← range_inclusive (x rect / tile) (right / tile);
    [as_u32 (row * columns g + column)].

Fixpoint mark_hint {E} (selected : list bool) (g : Geometry) (hint : list Rect)
    : result E (list bool) :=
  match hint with
  | [] => Ok selected
  | rect :: hint =>
      let? selected := mark_all selected (hint_tiles g rect) in
      mark_hint selected g hint
  end.

Definition select_tiles {E} (selected : list bool) (g : Geometry) (hint : option (list Rect))
    : result E (list bool) :=
  match hint with
  | None => Ok (replicate (length selected) true)
  | Some hint => mark_hint (replicate (length selected) false) g hint
  end.

(** [mark_sweep] writes [selected] and [sweep], which come back as a pair. *)
Definition mark_sweep {E} (g : Geometry) (refresh_interval sweep : Z) (selected : list bool)
    : result E (list bool * Z) :=
  let count := tile_count g in
  if (refresh_interval =? 0) || (count =? 0) then Ok (selected, sweep)
  else
    let slice := div_ceil count refresh_interval in
    let? selected :=
      mark_all selected
        (map (fun step => as_u32 (sweep + step) mod count) (seqZ 0 (Z.min slice count))) in
    Ok (selected, as_u32 (sweep + slice) mod count).

(** ** Writing a tile *)

Definition xored (tile previous : list Z) : list Z := zip_with Z.lxor tile previous.

(** The method [write_tile] settles on: the shortest, ties to the lower number. *)
Definition choose_method (tile : list Z) (previous : option (list Z)) : Method :=
  let raw_len := zlen tile * 4 in
  let zrle := Zrle.encode tile [] in
  let zrle_len := zlen zrle + varint_len (as_u32 (zlen zrle)) in
  let '(best, best_len) :=
    if zrle_len <? raw_len then (Container.Zrle, zrle_len) else (Raw, raw_len) in
  match previous with
  | None => best
  | Some previous =>
      let xor_zrle := Zrle.encode (xored tile previous) [] in
      let xor_len := zlen xor_zrle + varint_len (as_u32 (zlen xor_zrle)) in
      if xor_len <? best_len then XorZrle else best
  end.

Definition write_tile (out tile : list Z) (previous : option (list Z)) : list Z :=
  let zrle := Zrle.encode tile [] in
  let xor_zrle :=
    match previous with
    | None => []
    | Some previous => Zrle.encode (xored tile previous) []
    end in
  let best := choose_method tile previous in
  let out := out ++ [as_byte best] in
  match best with
  | Raw => out ++ bytes_of_u32s tile
  | Container.Zrle => Varint.write out (as_u32 (zlen zrle)) ++ zrle
  | XorZrle => Varint.write out (as_u32 (zlen xor_zrle)) ++ xor_zrle
  end.

(** ** Encoding a frame *)

Fixpoint keyframe_tiles {E} (fuel : nat) (g : Geometry) (frame : list Z) (index : Z)
    (out : list Z) : result E (list Z) :=
  match tile g index, fuel with
  | None, _ => Ok out
  | Some _, O => Panic
  | Some rect, S fuel =>
      let? tile := gather frame g rect in
      keyframe_tiles fuel g frame (index + 1) (write_tile out tile None)
  end.

(** One more than the number of tiles, which is how often [tile] is asked. *)
Definition tile_fuel (g : Geometry) : nat := S (Z.to_nat (tile_count g)).

Definition encode_keyframe (e : Encoder) : result codec_error Encoder :=
  let g := geometry e in
  let frame := Queue.frame (staging e) in
  let? output := keyframe_tiles (tile_fuel g) g frame 0 (write_header [] true g) in
  let? reference := (if zlen frame =? zlen (reference e) then Ok frame else Panic) in
  Ok {| geometry := g; refresh_interval := refresh_interval e; sweep := 0;
        staging := keyframe_sent (staging e); reference := reference; has_reference := true;
        output := output; selected := selected e |}.

(** The loop of [encode_delta]: the bytes, the reference and [written] after the
    tiles from [index] on. *)
Fixpoint delta_tiles {E} (fuel : nat) (g : Geometry) (selected : list bool) (frame : list Z)
    (index : Z) (reference out : list Z) (written : bool)
    : result E (list Z * list Z * bool) :=
  match tile g index, fuel with
  | None, _ => Ok (reference, out, written)
  | Some _, O => Panic
  | Some rect, S fuel =>
      let? chosen := Prelude.index selected index in
      if negb chosen then delta_tiles fuel g selected frame (index + 1) reference out written
      else
        let? different := differs frame reference g rect in
        if negb different
        then delta_tiles fuel g selected frame (index + 1) reference out written
        else
          let? tile := gather frame g rect in
          let? previous_tile := gather reference g rect in
          let out := write_tile (Varint.write out index) tile (Some previous_tile) in
          let? reference := scatter reference g rect tile in
          delta_tiles fuel g selected frame (index + 1) reference out true
  end.

Definition encode_delta (e : Encoder) (hint : option (list Rect))
    : result codec_error (Encoder * bool) :=
  let g := geometry e in
  let? selected := select_tiles (selected e) g hint in
  let? (selected, sweep) := mark_sweep g (refresh_interval e) (sweep e) selected in
  let? (reference, output, written) :=
    delta_tiles (tile_fuel g) g selected (Queue.frame (staging e)) 0 (reference e)
      (write_header [] false g) false in
  Ok ({| geometry := g; refresh_interval := refresh_interval e; sweep := sweep;
         staging := staging e; reference := reference; has_reference := has_reference e;
         output := output; selected := selected |}, written).

Definition keyframe_due (e : Encoder) : bool :=
  negb (has_reference e) || keyframe_requested (staging e).

(** The part of [next_payload] that is left when no frame payload is due. *)
Definition next_cursor (e : Encoder) : option Payload * Encoder :=
  let '(image_pending, s) := take_cursor_image (staging e) in
  let e := with_staging e s in
  if image_pending then (Some (CursorImagePayload (cursor_image s)), e)
  else
    let '(position_pending, s) := take_cursor_position (staging e) in
    let e := with_staging e s in
    if position_pending then (Some (CursorPositionPayload (cursor_position s)), e)
    else (None, e).

Definition next_payload (e : Encoder) : result codec_error (option Payload * Encoder) :=
  let '(taken, s) := take_frame (staging e) in
  let e := with_staging e s in
  match taken with
  | Some hint =>
      if keyframe_due e then
        let? e := encode_keyframe e in
        Ok (Some (Keyframe (output e)), e)
      else
        let? (e, written) := encode_delta e hint in
        if written then Ok (Some (TileDelta (output e)), e) else Ok (next_cursor e)
  | None =>
      if keyframe_requested (staging e) && has_reference e then
        let? e := encode_keyframe e in
        Ok (Some (Keyframe (output e)), e)
      else Ok (next_cursor e)
  end.

(** ** Well-formed encoders *)

(** A rectangle as the type system has it: four [u32]s. *)
Definition u32_rect (r : Rect) : Prop :=
  is_u32 (x r) ∧ is_u32 (y r) ∧ is_u32 (rect_width r) ∧ is_u32 (rect_height r).

Definition u32_rects (hint : option (list Rect)) : Prop :=
  ∀ rects r, hint = Some rects → r ∈ rects → u32_rect r.

Record enc_wf (e : Encoder) : Prop := {
  enc_geometry : wf (geometry e);
  enc_frame : zlen (Queue.frame (staging e)) = pixel_count (geometry e);
  enc_frame_u32 : Forall is_u32 (Queue.frame (staging e));
  enc_reference : zlen (reference e) = pixel_count (geometry e);
  enc_reference_u32 : Forall is_u32 (reference e);
  enc_selected : zlen (selected e) = tile_count (geometry e);
  enc_sweep : 0 <= sweep e < tile_count (geometry e);
  enc_interval : is_u32 (refresh_interval e);
  enc_hint : u32_rects (Queue.hint (staging e));
}.

Lemma pixel_count_pos g : wf g → 1 <= pixel_count g.
Proof. intros (? & ? & _). unfold pixel_count. nia. Qed.

Lemma replicate_zero_u32 n : Forall is_u32 (replicate n 0).
Proof. apply Forall_replicate. unfold is_u32. lia. Qed.

Lemma new_enc_wf config :
  wf (config_geometry config) → is_u32 (config_refresh_interval config) → enc_wf (new config).
Proof.
  intros Hwf Hi. pose proof (pixel_count_pos _ Hwf). pose proof (tile_count_range _ Hwf).
  split; cbn -[replicate]; auto using replicate_zero_u32; rewrite ?length_replicate; try lia.
  intros ? ? [= <-] []%not_elem_of_nil.
Qed.

(** ** Submitting a frame *)

(** The pixels of a strided capture, as the source reads them. *)
Definition capture (pixels : list Z) (width stride height : Z) : list Z :=
  y ← seqZ 0 height;
  u32s_of_bytes (take (Z.to_nat (width * 4)) (drop (Z.to_nat (y * stride)) pixels)).

Lemma submit_rows_ok staged pixels W S0 Y n :
  0 <= W → W * 4 <= S0 → Forall is_u8 pixels → 0 <= Y →
  (1 <= Z.of_nat n → S0 * (Y + Z.of_nat n - 1) + W * 4 <= zlen pixels) →
  zlen staged = (Y + Z.of_nat n) * W → 
  submit_rows staged pixels W S0 (seqZ Y (Z.of_nat n)) =
  Ok (take (Z.to_nat (Y * W)) staged ++
      (y ← seqZ Y (Z.of_nat n);
       u32s_of_bytes (take (Z.to_nat (W * 4)) (drop (Z.to_nat (y * S0)) pixels)))).
Proof.
  intros HW HS Hpx. revert staged Y. induction n as [|n IH]; intros staged Y HY Hlen Hst.
  { cbn. rewrite app_nil_r, take_ge; [done|lia]. }
  rewrite seqZ_cons by lia. cbn [submit_rows].
  replace (Z.pred (Z.of_nat (S n))) with (Z.of_nat n) by lia.
  unfold slice, get_range. rewrite bool_true3 by nia. cbn [expect rbind].
  replace (Y * S0 + W * 4 - Y * S0) with (W * 4) by lia.
  set (row := u32s_of_bytes _).
  assert (Hrow : length row = Z.to_nat W).
  { apply length_u32s_of_bytes. rewrite length_take, length_drop. nia. }
  rewrite splice_ok by nia. cbn [rbind].
  rewrite IH; [|lia|lia|rewrite !length_app, length_take, length_drop; nia].
  f_equal. cbn [mbind list_bind]. fold row.
  set (rest := mbind _ _).
  rewrite !app_assoc. f_equal.
  rewrite take_app_le by (rewrite length_app, length_take; nia).
  rewrite take_ge; [done|]. rewrite length_app, length_take. nia.
Qed.

Lemma capture_length pixels W S0 H :
  0 <= W → W * 4 <= S0 → 0 <= H → (1 <= H → S0 * (H - 1) + W * 4 <= zlen pixels) →
  zlen (capture pixels W S0 H) = W * H.
Proof.
  intros HW HS HH Hlen. unfold capture.
  assert (∀ (n : nat) Y, 0 <= Y → Y + Z.of_nat n <= H →
    zlen (y ← seqZ Y (Z.of_nat n);
          u32s_of_bytes (take (Z.to_nat (W * 4)) (drop (Z.to_nat (y * S0)) pixels)))
    = W * Z.of_nat n) as Hgen.
  { induction n as [|n IH]; intros Y HY HYn; [rewrite seqZ_nil by lia; cbn; lia|].
    rewrite seqZ_cons by lia. replace (Z.pred (Z.of_nat (S n))) with (Z.of_nat n) by lia.
    cbn [mbind list_bind]. rewrite length_app, Nat2Z.inj_add, IH by lia.
    rewrite (length_u32s_of_bytes _ (Z.to_nat W)); [lia|].
    rewrite length_take, length_drop. nia. }
  specialize (Hgen (Z.to_nat H) 0 ltac:(lia) ltac:(lia)). rewrite Z2Nat.id in Hgen by lia. lia.
Qed.

Lemma capture_u32 pixels W S0 H : Forall is_u8 pixels → Forall is_u32 (capture pixels W S0 H).
Proof.
  intros Hb. unfold capture. generalize (seqZ 0 H). induction l; cbn; [constructor|].
  apply Forall_app_2; [|done]. by apply u32s_of_bytes_u32, Forall_take, Forall_drop.
Qed.

(** The buffer holds every row, the last one without its padding. *)
Definition frame_fits (g : Geometry) (f : Frame) : Prop :=
  width g * 4 <= stride f ∧
  stride f * (height g - 1) + width g * 4 <= zlen (frame_pixels f) <= USIZE_MAX.

Lemma submit_ok e f damage :
  enc_wf e → Forall is_u8 (frame_pixels f) → frame_fits (geometry e) f →
  submit e f damage =
  Ok (with_staging e (stage_frame (frame_mut (staging e)
        (capture (frame_pixels f) (width (geometry e)) (stride f) (height (geometry e)))) damage)).
Proof.
  intros He Hb [Hs [Hneed Hmax]]. destruct (enc_geometry e He) as (Hw & Hh & _).
  unfold submit.
  replace (stride f <? width (geometry e) * 4) with false by (symmetry; apply Z.ltb_ge; lia).
  replace (USIZE_MAX <? _) with false by (symmetry; apply Z.ltb_ge; lia). cbn [rbind].
  replace (zlen _ <? _) with false by (symmetry; apply Z.ltb_ge; lia).
  pose proof (submit_rows_ok (Queue.frame (staging e)) (frame_pixels f) (width (geometry e))
    (stride f) 0 (Z.to_nat (height (geometry e)))) as Hrows.
  rewrite Z2Nat.id in Hrows by lia.
  assert (zlen (Queue.frame (staging e)) = (0 + height (geometry e)) * width (geometry e))
    by (rewrite (enc_frame e He); unfold pixel_count; lia).
  rewrite Hrows by (done || lia). cbn [rbind]. by rewrite Z.mul_0_l, take_0.
Qed.

Lemma submit_too_small e f damage :
  stride f < width (geometry e) * 4 →
  zlen (frame_pixels f) < USIZE_MAX →
  submit e f damage = Err (FrameSize USIZE_MAX (zlen (frame_pixels f))).
Proof.
  intros Hs%Z.ltb_lt Hl%Z.ltb_lt. unfold submit. rewrite Hs. cbn [rbind]. by rewrite Hl.
Qed.

(** ** Which tiles are compared *)

Lemma mark_all_ok {E} (ids : list Z) (sel : list bool) :
  (∀ i, i ∈ ids → 0 <= i < zlen sel) →
  ∃ sel', mark_all (E:=E) sel ids = Ok sel' ∧ length sel' = length sel ∧
    ∀ i, 0 <= i → sel' !! Z.to_nat i
      = if decide (i ∈ ids ∧ i < zlen sel) then Some true else sel !! Z.to_nat i.
Proof.
  revert sel. induction ids as [|i0 ids IH]; intros sel Hin; cbn [mark_all].
  { exists sel. split; [done|]. split; [done|]. intros i _. by case_decide as Hc; [destruct Hc as [?%elem_of_nil]|]. }
  rewrite assign_ok by (apply Hin; set_solver). cbn [rbind].
  pose proof (Hin i0 ltac:(set_solver)) as Hi0.
  destruct (IH (<[Z.to_nat i0:=true]> sel)) as (sel' & Hok & Hlen & Hget).
  { intros i Hi. rewrite length_insert. apply Hin. set_solver. }
  exists sel'. split; [done|]. rewrite length_insert in *. split; [done|].
  intros i Hi. rewrite Hget by done. destruct (Z.eq_dec i i0) as [->|Hne].
  - rewrite list_lookup_insert_eq by lia. repeat case_decide; set_solver.
  - rewrite list_lookup_insert_ne by lia. repeat case_decide; set_solver.
Qed.

(** Whether a tile is selected. *)
Definition is_selected (selected : list bool) (i : Z) : bool :=
  default false (selected !! Z.to_nat i).

Lemma mark_all_selected {E} ids sel sel' i :
  mark_all (E:=E) sel ids = Ok sel' → (∀ i, i ∈ ids → 0 <= i < zlen sel) → 0 <= i →
  is_selected sel' i = true ↔ i ∈ ids ∨ is_selected sel i = true.
Proof.
  intros Hok Hin Hi. destruct (mark_all_ok (E:=E) ids sel Hin) as (s & Hs & Hlen & Hget).
  rewrite Hok in Hs. simplify_eq. unfold is_selected. rewrite Hget by done.
  case_decide as Hc; cbn; [tauto|]. split; [auto|]. intros [Hi'|?]; [|done].
  pose proof (Hin i Hi'). tauto.
Qed.

Lemma elem_of_range_inclusive a b i : i ∈ range_inclusive a b ↔ a <= i <= b.
Proof. unfold range_inclusive. rewrite elem_of_seqZ. lia. Qed.

Section hints.
Context (g : Geometry) (Hwf : wf g).
Local Abbreviation T := (as_pixels (tile_size g)).

(** The clipped extent of a rectangle along one axis. *)
Lemma clip_spec a n limit :
  is_u32 a → is_u32 n → 0 < n → a < limit → limit <= MAX_DIMENSION →
  a <= Z.min (u32_saturating_add a n) limit - 1 < limit ∧
  ∀ p, a <= p < limit → p < a + n → p <= Z.min (u32_saturating_add a n) limit - 1.
Proof.
  unfold is_u32, u32_saturating_add, U32_MAX, MAX_DIMENSION. intros. split; [lia|]. intros. lia.
Qed.

Lemma hint_tiles_range rect i : u32_rect rect → i ∈ hint_tiles g rect → 0 <= i < tile_count g.
Proof.
  intros (Hx & Hy & Hw & Hh) Hi. unfold hint_tiles in Hi.
  pose proof (wf_grid g Hwf) as (Hc & Hr & _). pose proof (as_pixels_range (tile_size g)).
  destruct Hwf as (HW & HH & Ec & Er).
  destruct (_ || _)%bool eqn:E0; [by apply elem_of_nil in Hi|].
  rewrite !orb_false_iff, !Z.eqb_neq, !Z.leb_gt in E0. unfold is_u32 in *.
  destruct (clip_spec (x rect) (rect_width rect) (width g)) as [Hcx _]; [unfold is_u32; lia..|].
  destruct (clip_spec (y rect) (rect_height rect) (height g)) as [Hcy _]; [unfold is_u32; lia..|].
  apply list_elem_of_bind in Hi as (row & Hi & Hrow%elem_of_range_inclusive).
  apply list_elem_of_bind in Hi as (col & Hi & Hcol%elem_of_range_inclusive).
  rewrite list_elem_of_singleton in Hi. subst i.
  set (right := Z.min _ (width g) - 1) in *. set (bottom := Z.min _ (height g) - 1) in *.
  pose proof (div_ceil_index (width g) T right ltac:(lia) ltac:(lia)).
  pose proof (div_ceil_index (height g) T bottom ltac:(lia) ltac:(lia)).
  pose proof (Z.div_pos (x rect) T). pose proof (Z.div_pos (y rect) T).
  rewrite (tile_count_eq g Hwf). unfold as_u32. rewrite Z.mod_small by nia. nia.
Qed.

(** A pixel a hinted rectangle covers is in a tile the hint reaches. *)
Lemma hint_tiles_cover rect px py :
  u32_rect rect → inside rect px py → 0 <= px < width g → 0 <= py < height g →
  tile_of g px py ∈ hint_tiles g rect.
Proof.
  intros (Hx & Hy & Hw & Hh) [Hpx Hpy] Hpw Hph. unfold hint_tiles.
  pose proof (wf_grid g Hwf) as (Hc & Hr & _). pose proof (as_pixels_range (tile_size g)).
  destruct Hwf as (HW & HH & Ec & Er). unfold is_u32 in *.
  destruct (_ || _)%bool eqn:E0.
  { rewrite !orb_true_iff, !Z.eqb_eq, !Z.leb_le in E0. lia. }
  destruct (clip_spec (x rect) (rect_width rect) (width g)) as [Hcx Hmx]; [unfold is_u32; lia..|].
  destruct (clip_spec (y rect) (rect_height rect) (height g)) as [Hcy Hmy]; [unfold is_u32; lia..|].
  set (right := Z.min _ (width g) - 1) in *. set (bottom := Z.min _ (height g) - 1) in *.
  apply list_elem_of_bind. exists (py / T). split;
    [|apply elem_of_range_inclusive; split; apply Z.div_le_mono; [lia|lia|lia|apply Hmy; lia]].
  apply list_elem_of_bind. exists (px / T). split;
    [|apply elem_of_range_inclusive; split; apply Z.div_le_mono; [lia|lia|lia|apply Hmx; lia]].
  apply list_elem_of_singleton. unfold tile_of, as_u32. symmetry. apply Z.mod_small.
  pose proof (div_ceil_index (width g) T px ltac:(lia) ltac:(lia)).
  pose proof (div_ceil_index (height g) T py ltac:(lia) ltac:(lia)).
  pose proof (Z.div_pos px T ltac:(lia) ltac:(lia)).
  pose proof (Z.div_pos py T ltac:(lia) ltac:(lia)).
  assert (0 <= py / T * columns g <= 1024 * 1024) by (split; [|apply Z.mul_le_mono_nonneg]; nia).
  lia.
Qed.
End hints.

Lemma mark_hint_selected {E} g hint sel :
  wf g → (∀ r, r ∈ hint → u32_rect r) → zlen sel = tile_count g →
  ∃ sel', mark_hint (E:=E) sel g hint = Ok sel' ∧ zlen sel' = tile_count g ∧
    ∀ i, 0 <= i → is_selected sel' i = true ↔
      (∃ r, r ∈ hint ∧ i ∈ hint_tiles g r) ∨ is_selected sel i = true.
Proof.
  intros Hwf. revert sel. induction hint as [|r hint IH]; intros sel Hu Hlen; cbn [mark_hint].
  { exists sel. split_and!; auto. intros i _. split; [auto|]. intros [(r & []%elem_of_nil & _)|]; done. }
  assert (Hin : ∀ i, i ∈ hint_tiles g r → 0 <= i < zlen sel).
  { intros i Hi. rewrite Hlen. eapply hint_tiles_range; eauto. apply Hu. set_solver. }
  destruct (mark_all_ok (E:=E) (hint_tiles g r) sel Hin) as (s1 & Hs1 & Hl1 & _).
  rewrite Hs1. cbn [rbind].
  destruct (IH s1) as (s2 & Hs2 & Hl2 & Hget); [set_solver|by rewrite Hl1|].
  exists s2. split_and!; auto. intros i Hi.
  rewrite Hget, (mark_all_selected _ _ _ _ Hs1 Hin) by done.
  setoid_rewrite elem_of_cons. split.
  - intros [(r' & ? & ?)|[?|?]]; eauto 6.
  - intros [(r' & [->|?] & ?)|?]; eauto 6.
Qed.

Lemma is_selected_replicate n b i : 0 <= i < Z.of_nat n → is_selected (replicate n b) i = b.
Proof. intros. unfold is_selected. by rewrite lookup_replicate_2 by lia. Qed.

Lemma is_selected_replicate_false n i : is_selected (replicate n false) i = false.
Proof.
  unfold is_selected. destruct (replicate n false !! Z.to_nat i) eqn:Er; [|done].
  by apply lookup_replicate in Er as [-> _].
Qed.

(** Exactly the tiles the hint reaches are selected; all of them without one. *)
Lemma select_tiles_selected {E} g hint sel :
  wf g → u32_rects hint → zlen sel = tile_count g →
  ∃ sel', select_tiles (E:=E) sel g hint = Ok sel' ∧ zlen sel' = tile_count g ∧
    ∀ i, 0 <= i < tile_count g → is_selected sel' i = true ↔
      match hint with None => True | Some rects => ∃ r, r ∈ rects ∧ i ∈ hint_tiles g r end.
Proof.
  intros Hwf Hu Hlen. unfold select_tiles. destruct hint as [rects|].
  - destruct (mark_hint_selected (E:=E) g rects (replicate (length sel) false))
      as (s & Hs & Hl & Hget); [done|by eauto|by rewrite length_replicate|].
    exists s. split_and!; auto. intros i Hi. rewrite Hget by lia.
    rewrite is_selected_replicate_false. split; [|auto]. by intros [|].
  - eexists. split; [done|]. rewrite length_replicate. split; [done|]. intros i Hi.
    rewrite is_selected_replicate by lia. done.
Qed.

(** The tiles the sweep visits this time. *)
Definition swept (g : Geometry) (interval sweep i : Z) : Prop :=
  interval ≠ 0 ∧
  ∃ step, 0 <= step < Z.min (div_ceil (tile_count g) interval) (tile_count g) ∧
    i = (sweep + step) mod tile_count g.

Definition next_sweep (g : Geometry) (interval sweep : Z) : Z :=
  if interval =? 0 then sweep
  else (sweep + div_ceil (tile_count g) interval) mod tile_count g.

Lemma slice_le_count g interval :
  wf g → is_u32 interval → interval ≠ 0 → 1 <= div_ceil (tile_count g) interval <= tile_count g.
Proof.
  intros Hwf Hi Hne. pose proof (tile_count_range g Hwf). unfold is_u32 in Hi.
  destruct (div_ceil_spec (tile_count g) interval); [lia|lia|]. nia.
Qed.

Lemma mark_sweep_selected {E} g interval sweep0 sel :
  wf g → is_u32 interval → 0 <= sweep0 < tile_count g → zlen sel = tile_count g →
  ∃ sel', mark_sweep (E:=E) g interval sweep0 sel = Ok (sel', next_sweep g interval sweep0) ∧
    zlen sel' = tile_count g ∧
    ∀ i, 0 <= i → is_selected sel' i = true ↔
      swept g interval sweep0 i ∨ is_selected sel i = true.
Proof.
  intros Hwf Hiv Hsw Hlen. pose proof (tile_count_range g Hwf) as Hc.
  unfold mark_sweep, next_sweep, swept.
  destruct (Z.eqb_spec interval 0) as [->|Hne]; cbn [orb].
  { exists sel. split_and!; auto. intros. split; [auto|]. by intros [[]|]. }
  replace (tile_count g =? 0) with false by (symmetry; apply Z.eqb_neq; lia).
  pose proof (slice_le_count g interval Hwf Hiv Hne) as Hs.
  set (s := div_ceil (tile_count g) interval) in *.
  set (ids := map _ _).
  assert (Hids : ∀ i, i ∈ ids ↔ ∃ step, 0 <= step < Z.min s (tile_count g) ∧
      i = (sweep0 + step) mod tile_count g).
  { intros i. unfold ids. rewrite list_elem_of_fmap. split.
    - intros (step & -> & Hst%elem_of_seqZ). exists step. split; [lia|].
      unfold as_u32. by rewrite (Z.mod_small (sweep0 + step) 4294967296) by lia.
    - intros (step & Hst & ->). exists step. split; [|apply elem_of_seqZ; lia].
      unfold as_u32. by rewrite (Z.mod_small (sweep0 + step) 4294967296) by lia. }
  assert (Hin : ∀ i, i ∈ ids → 0 <= i < zlen sel).
  { intros i (step & _ & ->)%Hids. rewrite Hlen. apply Z.mod_pos_bound. lia. }
  destruct (mark_all_ok (E:=E) ids sel Hin) as (sel' & Hok & Hl & _). rewrite Hok. cbn [rbind].
  exists sel'. unfold as_u32. rewrite (Z.mod_small (sweep0 + s) 4294967296) by lia.
  split_and!; [done|lia|]. intros i Hi.
  rewrite (mark_all_selected _ _ _ _ Hok Hin Hi), Hids. tauto.
Qed.

Lemma next_sweep_range g interval sweep0 :
  wf g → 0 <= sweep0 < tile_count g → 0 <= next_sweep g interval sweep0 < tile_count g.
Proof.
  intros Hwf Hs. unfold next_sweep. case_if; [done|]. apply Z.mod_pos_bound.
  pose proof (tile_count_range g Hwf). lia.
Qed.

(** ** What a delta does to the reference *)

(** The reference after the tiles from [index] on: a compared tile holds the
    staged frame's pixels, any other one is untouched. *)
Definition advanced (g : Geometry) (selected : list bool) (index : Z) (frame ref ref' : list Z)
    : Prop :=
  zlen ref' = zlen ref ∧
  ∀ px py, 0 <= px < width g → 0 <= py < height g →
    zget ref' (py * width g + px) =
    if (index <=? tile_of g px py) && is_selected selected (tile_of g px py)
    then zget frame (py * width g + px) else zget ref (py * width g + px).

Lemma index_selected {E} sel i :
  0 <= i < zlen sel → Prelude.index (E:=E) sel i = Ok (is_selected sel i).
Proof.
  intros Hi. destruct (index_ok (E:=E) sel i Hi) as (b & -> & Hb).
  unfold is_selected. by rewrite Hb.
Qed.

Section copying.
Context {E : Type} (g : Geometry) (Hwf : wf g) (frame : list Z).
Context (Hframe : zlen frame = pixel_count g) (Hframeu : Forall is_u32 frame).

(** Writing a differing tile, as the loop does it. *)
Lemma write_step index r ref :
  0 <= index → tile g index = Some r → zlen ref = pixel_count g → Forall is_u32 ref →
  ∃ t old ref1, gather (E:=E) frame g r = Ok t ∧ gather (E:=E) ref g r = Ok old ∧
    scatter (E:=E) ref g r t = Ok ref1 ∧ zlen t = area r ∧ zlen old = area r ∧
    Forall is_u32 t ∧ Forall is_u32 old ∧ scattered g r false ref t ref1 ∧
    stamped g r frame ref ref1.
Proof.
  intros Hi Hr Href Hrefu. pose proof (tile_rect_in g _ _ Hwf Hi Hr) as Hin.
  destruct (gather_ok (E:=E) g r Hin frame Hframe) as (t & Ht & Hlt & _).
  destruct (gather_ok (E:=E) g r Hin ref Href) as (old & Hold & Hlo & _).
  destruct (scatter_ok (E:=E) g r Hin ref t Href Hlt) as (ref1 & Hsc & Hsct).
  exists t, old, ref1. split_and!; auto.
  - exact (gather_u32 g r frame t Hframeu Ht).
  - exact (gather_u32 g r ref old Hrefu Hold).
  - eapply scattered_gathered; eauto.
Qed.

Lemma stamped_u32 r ref ref1 :
  zlen ref = pixel_count g → Forall is_u32 ref → stamped g r frame ref ref1 → Forall is_u32 ref1.
Proof.
  intros Href Hu [Hlen H]. apply Forall_lookup. intros i p Hp.
  pose proof (lookup_lt_Some _ _ _ Hp) as Hlt. destruct Hwf as (HW & HH & _).
  unfold pixel_count in *.
  pose proof (Z.div_mod (Z.of_nat i) (width g) ltac:(lia)) as Hdm.
  pose proof (Z.mod_pos_bound (Z.of_nat i) (width g) ltac:(lia)) as Hmod.
  destruct (H (Z.of_nat i mod width g) (Z.of_nat i / width g)) as [Hin Hout]; [lia| |].
  { split; [apply Z.div_pos; lia|apply Z.div_lt_upper_bound; lia]. }
  replace (Z.of_nat i / width g * width g + Z.of_nat i mod width g) with (Z.of_nat i)
    in Hin, Hout by lia.
  unfold zget in *. rewrite Nat2Z.id, Hp in *. rewrite Forall_lookup in Hu, Hframeu.
  assert (inside r (Z.of_nat i mod width g) (Z.of_nat i / width g) ∨
          ¬ inside r (Z.of_nat i mod width g) (Z.of_nat i / width g)) as [Hc|Hc]
    by (unfold inside; lia).
  - eapply Hframeu. symmetry. by apply Hin.
  - eapply Hu. symmetry. by apply Hout.
Qed.
End copying.

Section delta.
Context {E : Type} (g : Geometry) (Hwf : wf g) (frame : list Z) (selected : list bool).
Context (Hframe : zlen frame = pixel_count g) (Hframeu : Forall is_u32 frame).
Context (Hsel : zlen selected = tile_count g).

(** One tile: skipped, or written because it differs. *)
Lemma advanced_skip index r ref ref' :
  0 <= index → tile g index = Some r →
  (is_selected selected index = true →
     ∀ px py, inside r px py → zget frame (py * width g + px) = zget ref (py * width g + px)) →
  advanced g selected (index + 1) frame ref ref' → advanced g selected index frame ref ref'.
Proof.
  intros Hi Hr Hsame [Hlen H]. split; [done|]. intros px py Hpx Hpy.
  rewrite H by done. pose proof (inside_tile_of g px py index r Hwf Hi Hr Hpx Hpy) as Hin.
  destruct (Z.eq_dec index (tile_of g px py)) as [Heq|Hne].
  - replace (index + 1 <=? tile_of g px py) with false by (symmetry; apply Z.leb_gt; lia).
    replace (index <=? tile_of g px py) with true by (symmetry; apply Z.leb_le; lia).
    cbn [andb]. rewrite <- Heq. destruct (is_selected selected index) eqn:Es; [|done].
    symmetry. apply Hsame; tauto.
  - replace (index + 1 <=? tile_of g px py) with (index <=? tile_of g px py); [done|].
    apply eq_bool_prop_intro. rewrite !Is_true_true, !Z.leb_le. lia.
Qed.

Lemma advanced_write index r ref ref1 ref' :
  0 <= index → tile g index = Some r → is_selected selected index = true →
  stamped g r frame ref ref1 →
  advanced g selected (index + 1) frame ref1 ref' → advanced g selected index frame ref ref'.
Proof.
  intros Hi Hr Hs [Hl1 H1] [Hlen H]. split; [lia|]. intros px py Hpx Hpy.
  rewrite H by done. pose proof (inside_tile_of g px py index r Hwf Hi Hr Hpx Hpy) as Hin.
  destruct (H1 px py Hpx Hpy) as [Hin1 Hout1].
  destruct (Z.eq_dec index (tile_of g px py)) as [Heq|Hne].
  - replace (index + 1 <=? tile_of g px py) with false by (symmetry; apply Z.leb_gt; lia).
    replace (index <=? tile_of g px py) with true by (symmetry; apply Z.leb_le; lia).
    cbn [andb]. rewrite <- Heq, Hs. apply Hin1. tauto.
  - rewrite Hout1 by tauto.
    replace (index + 1 <=? tile_of g px py) with (index <=? tile_of g px py); [done|].
    apply eq_bool_prop_intro. rewrite !Is_true_true, !Z.leb_le. lia.
Qed.

Lemma advanced_end ref : advanced g selected (tile_count g) frame ref ref.
Proof.
  split; [done|]. intros px py Hpx Hpy. pose proof (tile_of_range g px py Hwf Hpx Hpy).
  by replace (tile_count g <=? tile_of g px py) with false by (symmetry; apply Z.leb_gt; lia).
Qed.

Lemma delta_tiles_ok n index ref out written :
  0 <= index → index + Z.of_nat n = tile_count g →
  zlen ref = pixel_count g → Forall is_u32 ref →
  ∃ ref' out' written',
    delta_tiles (E:=E) (S n) g selected frame index ref out written = Ok (ref', out', written') ∧
    advanced g selected index frame ref ref' ∧ Forall is_u32 ref'.
Proof.
  revert index ref out written.
  induction n as [|n IH]; intros index ref out written Hi Hn Href Hrefu; cbn [delta_tiles].
  { rewrite tile_none by lia. do 3 eexists. split; [done|]. split; [|done].
    replace index with (tile_count g) by lia. apply advanced_end. }
  destruct (tile g index) as [r|] eqn:Er; [|rewrite tile_eq in Er; by (done || lia)].
  rewrite index_selected by lia. cbn [rbind].
  destruct (is_selected selected index) eqn:Es; cbn [negb].
  2: { destruct (IH (index + 1) ref out written) as (ref' & out' & w' & Heq & Hadv & Hu);
         [lia..|done|done|].
       exists ref', out', w'. split_and!; [exact Heq| |done].
       eapply advanced_skip; eauto. by rewrite Es. }
  destruct (differs_ok (E:=E) g r (tile_rect_in g _ _ Hwf Hi Er) frame ref Hframe Href)
    as (b & -> & Hsame). cbn [rbind]. destruct b; cbn [negb].
  2: { destruct (IH (index + 1) ref out written) as (ref' & out' & w' & Heq & Hadv & Hu);
         [lia..|done|done|].
       exists ref', out', w'. split_and!; [exact Heq| |done].
       eapply advanced_skip; eauto. }
  destruct (write_step (E:=E) g Hwf frame Hframe Hframeu index r ref Hi Er Href Hrefu)
    as (t & old & ref1 & -> & -> & Hsc & _ & _ & _ & _ & _ & Hst). cbn [rbind].
  rewrite Hsc. cbn [rbind].
  destruct (IH (index + 1) ref1 (write_tile (Varint.write out index) t (Some old)) true)
    as (ref' & out' & w' & Heq & Hadv & Hu); [lia..| | |].
  { destruct Hst as [Hl _]. lia. }
  { by apply (stamped_u32 g Hwf frame Hframeu r ref). }
  exists ref', out', w'. split_and!; [exact Heq| |done]. eapply advanced_write; eauto.
Qed.
End delta.

(** ** What the operations keep *)

(** A capture as the type system has it. *)
Definition frame_valid (f : Frame) : Prop :=
  Forall is_u8 (frame_pixels f) ∧ zlen (frame_pixels f) < USIZE_MAX.

Lemma submit_fits e f damage e' :
  frame_valid f → submit e f damage = Ok e' → frame_fits (geometry e) f.
Proof.
  intros [_ Hlen] H. unfold submit in H. unfold frame_fits.
  destruct (stride f <? width (geometry e) * 4) eqn:E1; cbn [rbind] in H; bool_to_prop.
  - replace (zlen (frame_pixels f) <? USIZE_MAX) with true in H
      by (symmetry; apply Z.ltb_lt; lia). discriminate.
  - destruct (USIZE_MAX <? _) eqn:E2; cbn [rbind] in H; [discriminate|].
    destruct (_ <? _) eqn:E3 in H; [discriminate|]. bool_to_prop. lia.
Qed.

Lemma with_staging_wf e s :
  enc_wf e → Queue.frame s = Queue.frame (staging e) → u32_rects (Queue.hint s) →
  enc_wf (with_staging e s).
Proof. intros [] Hf Hh. split; cbn; rewrite ?Hf; auto. Qed.

Lemma submit_wf e f damage e' :
  enc_wf e → frame_valid f → u32_rects damage → submit e f damage = Ok e' →
  enc_wf e' ∧ geometry e' = geometry e ∧ reference e' = reference e ∧
  has_reference e' = has_reference e ∧
  Queue.frame (staging e') = capture (frame_pixels f) (width (geometry e)) (stride f)
                              (height (geometry e)).
Proof.
  intros He Hv Hd H. pose proof (submit_fits e f damage e' Hv H) as Hfit.
  rewrite submit_ok in H by (done || apply Hv). injection H as <-.
  pose proof (enc_geometry e He) as Hwf. destruct Hwf as (Hw & Hh & _).
  destruct Hfit as (Hs & Hlen & _). split_and!; try done. destruct He. split; cbn; auto.
  - rewrite capture_length; [done|lia..].
  - apply capture_u32, Hv.
  - intros rects r. destruct damage as [dr|], (Queue.hint (staging e)) as [hr|] eqn:Eh;
      try discriminate.
    intros [= <-] [Hr|Hr]%elem_of_app; eauto.
Qed.
