(* ===== verification/Decoder.v ===== *)
(** * Turning the frame channel's payloads back into pixels

    [crates/display-codec/src/decoder.rs].  A method takes the decoder and gives
    back the decoder together with its outcome, because a payload refused half
    way leaves the tiles before the refusal applied.  The scratch buffer [tile]
    is a local value. *)

From S2P Require Import Prelude.
From S2P Require Import Varint.
From S2P Require Import Zrle.
From S2P Require Import Geometry.
From S2P Require Import Container.
From S2P Require Import Cursor.
From S2P Require Import TileCopy.

(** ** The code *)

Record Decoder : Type := mk_decoder {
  geometry : Geometry;
  frame : list Z;
  has_frame : bool;
  damage : list Rect;
}.

Definition new (g : Geometry) : Decoder :=
  {| geometry := g; frame := replicate (Z.to_nat (frame_bytes g)) 0;
     has_frame := false; damage := [] |}.

Definition with_frame (d : Decoder) (f : list Z) : Decoder :=
  {| geometry := geometry d; frame := f; has_frame := has_frame d; damage := damage d |}.
Definition set_has_frame (d : Decoder) : Decoder :=
  {| geometry := geometry d; frame := frame d; has_frame := true; damage := damage d |}.
Definition clear_damage (d : Decoder) : Decoder :=
  {| geometry := geometry d; frame := frame d; has_frame := has_frame d; damage := [] |}.
Definition push_damage (d : Decoder) (rect : Rect) : Decoder :=
  {| geometry := geometry d; frame := frame d; has_frame := has_frame d;
     damage := damage d ++ [rect] |}.

(** The pixels of a tile record, how long the record is, and whether they are a
    difference: [read_tile] up to its call of [scatter]. *)
Definition tile_pixels (bytes : list Z) (rect : Rect) (xor : bool)
    : result codec_error (list Z * Z * bool) :=
  let? first := ok_or (head bytes) Truncated in
  let? method := from_byte first in
  if (if method is XorZrle then negb xor else false)
  then Err (UnknownMethod (as_byte method))
  else
    let pixels := rect_width rect * rect_height rect in
    match method with
    | Raw =>
        let? raw := ok_or (get_range bytes 1 (1 + pixels * 4)) Truncated in
        Ok (u32s_of_bytes raw, 1 + pixels * 4, false)
    | Container.Zrle | XorZrle =>
        let? tail := slice_from bytes 1 in
        let? (length, width) := Varint.read tail in
        let start := 1 + width in
        let? finish := ok_or (usize_checked_add start length) Truncated in
        let? stream := ok_or (get_range bytes start finish) Truncated in
        let? tile := Zrle.decode stream pixels in
        Ok (tile, finish, if method is XorZrle then true else false)
    end.

(** The decoder changes only once the whole record is read. *)
Definition read_tile (d : Decoder) (bytes : list Z) (rect : Rect) (xor : bool)
    : result codec_error (Decoder * Z) :=
  let? (tile, read, difference) := tile_pixels bytes rect xor in
  let? frame := decoder_scatter (frame d) (geometry d) rect tile difference in
  Ok (with_frame d frame, read).

Fixpoint keyframe_loop (fuel : nat) (d : Decoder) (body : list Z) (read index : Z)
    : Decoder * result codec_error Z :=
  match tile (geometry d) index, fuel with
  | None, _ => (d, Ok read)
  | Some _, O => (d, Panic)
  | Some rect, S fuel =>
      match (let? bytes := slice_from body read in read_tile d bytes rect false) with
      | Ok (d, n) => keyframe_loop fuel (push_damage d rect) body (read + n) (index + 1)
      | Err e => (d, Err e)
      | Panic => (d, Panic)
      end
  end.

Definition apply_keyframe (d : Decoder) (payload : list Z)
    : Decoder * result codec_error (list Rect) :=
  match read_header payload (geometry d) with
  | Err e => (d, Err e)
  | Panic => (d, Panic)
  | Ok (keyframe, body) =>
      if negb keyframe then (d, Err WrongPayloadKind)
      else
        match keyframe_loop (S (Z.to_nat (tile_count (geometry d)))) (clear_damage d) body 0 0 with
        | (d, Ok read) =>
            if negb (read =? zlen body) then (d, Err TrailingBytes)
            else (set_has_frame d, Ok (damage d))
        | (d, Err e) => (d, Err e)
        | (d, Panic) => (d, Panic)
        end
  end.

(** One turn of the loop of [apply_delta]: the rectangle, the tile's index and
    where the next record starts. *)
Definition delta_step (d : Decoder) (body : list Z) (read : Z) (previous : option Z)
    : result codec_error (Decoder * Z * Z) :=
  let? bytes := slice_from body read in
  let? (index, width) := Varint.read bytes in
  let read := read + width in
  let? rect := ok_or (tile (geometry d) index) (TileIndexOutOfRange index) in
  if (if previous is Some previous then index <=? previous else false)
  then Err (TileIndexNotIncreasing index)
  else
    let? bytes := slice_from body read in
    let? (d, n) := read_tile d bytes rect true in
    Ok (push_damage d rect, read + n, index).

Fixpoint delta_loop (fuel : nat) (d : Decoder) (body : list Z) (read : Z) (previous : option Z)
    : Decoder * result codec_error (list Rect) :=
  if zlen body <=? read then (d, Ok (damage d))
  else
    match fuel with
    | O => (d, Panic)
    | S fuel =>
        match delta_step d body read previous with
        | Ok (d, read, index) => delta_loop fuel d body read (Some index)
        | Err e => (d, Err e)
        | Panic => (d, Panic)
        end
    end.

Definition apply_delta (d : Decoder) (payload : list Z)
    : Decoder * result codec_error (list Rect) :=
  match read_header payload (geometry d) with
  | Err e => (d, Err e)
  | Panic => (d, Panic)
  | Ok (keyframe, body) =>
      if keyframe then (d, Err WrongPayloadKind)
      else if negb (has_frame d) then (d, Err NoBase)
      else delta_loop (length body) (clear_damage d) body 0 None
  end.

Definition decode_cursor_image (payload : list Z) : result codec_error CursorImage :=
  read_image payload.
Definition decode_cursor_position (payload : list Z) : result codec_error CursorPosition :=
  read_position payload.

(** ** A decoder that may be shown any payload *)

(** The frame is the bytes of as many pixels as the geometry has. *)
Record dec_wf (d : Decoder) : Prop := {
  dec_geometry : wf (geometry d);
  dec_frame : ∃ f, zlen f = pixel_count (geometry d) ∧ Forall is_u32 f ∧ frame d = bytes_of_u32s f;
}.

Lemma bytes_of_zeroes n : bytes_of_u32s (replicate n 0) = replicate (4 * n) 0.
Proof.
  induction n as [|n IH]; [done|]. replace (4 * S n)%nat with (4 + 4 * n)%nat by lia.
  rewrite replicate_add, <- IH. done.
Qed.

Lemma new_dec_wf g : wf g → dec_wf (new g).
Proof.
  intros Hwf. split; [done|]. exists (replicate (Z.to_nat (pixel_count g)) 0).
  destruct Hwf as (? & ? & _). unfold pixel_count in *. cbn [geometry new frame].
  split_and!.
  - rewrite length_replicate. nia.
  - apply Forall_replicate. unfold is_u32. lia.
  - rewrite bytes_of_zeroes. f_equal. unfold frame_bytes, pixel_count. nia.
Qed.

Lemma tile_pixels_ok bytes rect xor t n b :
  Forall is_u8 bytes → 0 < rect_width rect → 0 < rect_height rect →
  tile_pixels bytes rect xor = Ok (t, n, b) →
  zlen t = area rect ∧ Forall is_u32 t ∧ 1 <= n <= zlen bytes.
Proof.
  intros Hb Hw Hh H. unfold tile_pixels in H. fold (area rect) in H.
  assert (0 < area rect) by (unfold area; nia).
  rbind_step H as first, Ef. rbind_step H as m, Em.
  destruct (if m is XorZrle then negb xor else false); [discriminate|].
  assert (Hcoded : (let? tail := slice_from bytes 1 in
        let? (length, width) := Varint.read tail in
        let start := 1 + width in
        let? finish := ok_or (usize_checked_add start length) Truncated in
        let? stream := ok_or (get_range bytes start finish) Truncated in
        let? tile := Zrle.decode stream (area rect) in
        Ok (tile, finish, if m is XorZrle then true else false)) = Ok (t, n, b) →
      zlen t = area rect ∧ Forall is_u32 t ∧ 1 <= n <= zlen bytes).
  { clear H. intros H. rbind_step H as tail, Et. rbind_step H as [len w], Er.
    assert (Htail : Forall is_u8 tail).
    { unfold slice_from, slice in Et. rbind_inv. range_inv.
      by apply Forall_take, Forall_drop. }
    apply Varint.read_ok in Er as (Hlen & Hwd & _); [|done]. cbv zeta in H.
    rbind_step H as fin, Efin. rbind_step H as stream, Est. rbind_step H as tl, Etl.
    simplify_eq. rbind_inv.
    assert (n = 1 + w + len) as -> by (unfold usize_checked_add in *; case_ifs; by simplify_eq).
    range_inv.
    apply Zrle.decode_ok in Etl as [? ?]; [|by apply Forall_take, Forall_drop|lia].
    split_and!; auto; unfold is_u32 in *; lia. }
  destruct m; [|by apply Hcoded..]. clear Hcoded.
  rbind_step H as raw, Eraw. rbind_inv. range_inv.
  split_and!; [|apply u32s_of_bytes_u32; by apply Forall_take, Forall_drop|lia|lia].
  rewrite (length_u32s_of_bytes _ (Z.to_nat (area rect))); [lia|].
  rewrite length_take, length_drop. lia.
Qed.

Lemma tile_pixels_no_panic bytes rect xor :
  Forall is_u8 bytes → no_panic (tile_pixels bytes rect xor).
Proof.
  intros Hb. unfold tile_pixels.
  apply no_panic_bind; [auto with vm|]. intros first Hfirst.
  apply no_panic_bind; [unfold from_byte; repeat case_if; auto with vm|]. intros m _.
  destruct bytes as [|b0 bytes]; [discriminate Hfirst|].
  rewrite (slice_from_app [b0] bytes 1) by done. cbn [rbind].
  apply Forall_cons_1 in Hb as [Hb0 Hb].
  destruct (if m is XorZrle then negb xor else false); [auto with vm|].
  assert (Hcoded : ∀ c : bool, no_panic (let? (length, width) := Varint.read bytes in
        let start := 1 + width in
        let? finish := ok_or (usize_checked_add start length) Truncated in
        let? stream := ok_or (get_range (b0 :: bytes) start finish) Truncated in
        let? tile := Zrle.decode stream (rect_width rect * rect_height rect) in
        Ok (tile, finish, c))).
  { intros c. apply no_panic_bind; [auto with vm|]. intros [len w] Hread. cbv zeta.
    apply no_panic_bind; [auto with vm|]. intros fin _.
    apply no_panic_bind; [auto with vm|]. intros stream Hs. rbind_inv.
    range_inv.
    apply no_panic_bind; [|auto with vm].
    apply Zrle.decode_no_panic, Forall_take, Forall_drop. by constructor. }
  destruct m; [apply no_panic_bind; auto with vm|apply Hcoded..].
Qed.

(** Closes the branches of a method that only hand an outcome back. *)
Ltac refused :=
  simplify_eq; split_and!; auto with vm; try reflexivity; try discriminate; try congruence.

(** What a decoder keeps through a record, whatever the record holds. *)
Definition same_stream (d d' : Decoder) : Prop :=
  geometry d' = geometry d ∧ has_frame d' = has_frame d.

#[export] Instance same_stream_preorder : PreOrder same_stream.
Proof. split; [by split|]. intros ? ? ? [] []. split; congruence. Qed.

Lemma read_tile_sound d bytes rect xor :
  dec_wf d → rect_in (geometry d) rect → Forall is_u8 bytes →
  no_panic (read_tile d bytes rect xor) ∧
  ∀ d' n, read_tile d bytes rect xor = Ok (d', n) →
    dec_wf d' ∧ same_stream d d' ∧ damage d' = damage d ∧ 1 <= n <= zlen bytes.
Proof.
  intros [Hwf (f & Hlen & Hf & Hframe)] Hr Hb. unfold read_tile.
  pose proof Hr as (_ & _ & Hw & Hh & _).
  destruct (tile_pixels bytes rect xor) as [[[t n] b]|e|] eqn:Et; cbn [rbind].
  - apply tile_pixels_ok in Et as (Hlt & Htu & Hn); [|done..]. rewrite Hframe.
    destruct (decoder_scatter_ok (E:=codec_error) _ _ Hr b f t) as (f' & -> & Hu & [Hlen' _]);
      [done..|]. cbn [rbind].
    split; [auto with vm|]. intros ? ? [= <- <-]. split_and!; auto; try lia.
    + split; [done|]. exists f'. cbn. split_and!; auto; lia.
    + by split.
  - split; [auto with vm|discriminate].
  - by apply tile_pixels_no_panic in Et.
Qed.

Lemma push_damage_wf d r : dec_wf d → dec_wf (push_damage d r).
Proof. intros []. by split. Qed.
Lemma clear_damage_wf d : dec_wf d → dec_wf (clear_damage d).
Proof. intros []. by split. Qed.
Lemma set_has_frame_wf d : dec_wf d → dec_wf (set_has_frame d).
Proof. intros []. by split. Qed.
#[export] Hint Resolve push_damage_wf clear_damage_wf set_has_frame_wf : vm.

(** The tiles from [index] on, in order. *)
Fixpoint tiles_from (g : Geometry) (n : nat) (index : Z) : list Rect :=
  match n with
  | O => []
  | S n => match tile g index with
           | Some r => r :: tiles_from g n (index + 1)
           | None => []
           end
  end.

Lemma keyframe_loop_sound n d body read index :
  dec_wf d → Forall is_u8 body → 0 <= read <= zlen body → 0 <= index →
  index + Z.of_nat n = tile_count (geometry d) →
  ∀ d' o, keyframe_loop (S n) d body read index = (d', o) →
  dec_wf d' ∧ same_stream d d' ∧ no_panic o ∧
  (∀ m, o = Ok m → damage d' = damage d ++ tiles_from (geometry d) n index).
Proof.
  revert d read index. induction n as [|n IH]; intros d read index Hd Hb Hread Hi Hn d' o H;
    cbn [keyframe_loop tiles_from] in *; pose proof (dec_geometry d Hd) as Hwf.
  { rewrite tile_none in H by (done || lia). simplify_eq. rewrite app_nil_r.
    split_and!; auto with vm; reflexivity. }
  destruct (tile (geometry d) index) as [r|] eqn:Er; [|rewrite tile_eq in Er; by (done || lia)].
  rewrite slice_from_ok in H by lia. cbn [rbind] in H.
  destruct (read_tile_sound d (drop (Z.to_nat read) body) r false) as [Hnp Hok];
    [done|by eapply tile_rect_in|by apply Forall_drop|].
  destruct (read_tile d _ r false) as [[d1 w]|e|]; [|refused..].
  destruct (Hok d1 w eq_refl) as (Hd1 & [Hg Hh] & Hdam & Hw). rewrite length_drop in Hw.
  apply IH in H as (Hd' & [Hg' Hh'] & Hnp' & Hdam'); auto with vm;
    [|lia|lia|cbn; rewrite Hg; lia].
  split_and!; auto.
  - split; cbn in *; congruence.
  - intros m Hm. rewrite (Hdam' m Hm). cbn. by rewrite Hg, Hdam, <- app_assoc.
Qed.

Lemma apply_keyframe_sound d payload :
  dec_wf d → Forall is_u8 payload →
  ∀ d' o, apply_keyframe d payload = (d', o) →
  dec_wf d' ∧ geometry d' = geometry d ∧ no_panic o ∧
  (∀ rects, o = Ok rects →
     has_frame d' = true ∧
     rects = tiles_from (geometry d) (Z.to_nat (tile_count (geometry d))) 0) ∧
  (∀ e, o = Err e → has_frame d' = has_frame d).
Proof.
  intros Hd Hb d' o H. unfold apply_keyframe in H.
  pose proof (read_header_no_panic payload (geometry d)) as Hnp.
  destruct (read_header payload (geometry d)) as [[keyframe body]|e|] eqn:Eh;
    [|refused|done].
  destruct keyframe; cbn [negb] in H; [|refused].
  apply read_header_body in Eh; [|done].
  destruct (keyframe_loop _ _ _ _ _) as [d1 o1] eqn:El.
  apply keyframe_loop_sound in El as (Hd1 & [Hg Hh] & Hnp1 & Hdam); auto with vm;
    [|lia|lia|cbn; pose proof (tile_count_range _ (dec_geometry d Hd)); lia].
  cbn in Hg, Hh, Hdam.
  destruct o1 as [m|e|]; [|refused|done].
  destruct (m =? zlen body); cbn [negb] in H; simplify_eq; split_and!; auto with vm; try discriminate.
  intros rects [= <-]. split; [done|]. exact (Hdam m eq_refl).
Qed.

(** The rectangles a delta reports are tiles, in increasing order. *)
Fixpoint increasing_tiles (g : Geometry) (previous : option Z) (rects : list Rect) : Prop :=
  match rects with
  | [] => True
  | r :: rects => ∃ index, 0 <= index ∧ tile g index = Some r ∧
      (if previous is Some previous then previous < index else True) ∧
      increasing_tiles g (Some index) rects
  end.

Lemma delta_step_sound d body read previous :
  dec_wf d → Forall is_u8 body → 0 <= read <= zlen body →
  no_panic (delta_step d body read previous) ∧
  ∀ d' read' index, delta_step d body read previous = Ok (d', read', index) →
    dec_wf d' ∧ same_stream d d' ∧ read + 2 <= read' <= zlen body ∧ 0 <= index ∧
    (if previous is Some previous then previous < index else True) ∧
    ∃ r, tile (geometry d) index = Some r ∧ damage d' = damage d ++ [r].
Proof.
  intros Hd Hb Hread. unfold delta_step. rewrite slice_from_ok by lia. cbn [rbind].
  assert (Hbr : Forall is_u8 (drop (Z.to_nat read) body)) by by apply Forall_drop.
  pose proof (Varint.read_no_panic (drop (Z.to_nat read) body)) as Hnp.
  destruct (Varint.read _) as [[index w]|e|] eqn:Ev; cbn [rbind];
    [|split; [auto with vm|discriminate]|done].
  apply Varint.read_ok in Ev as (Hiu & Hw & Hwl); [|done]. rewrite length_drop in Hwl.
  unfold is_u32 in Hiu.
  destruct (tile (geometry d) index) as [r|] eqn:Er; cbn [ok_or rbind];
    [|split; [auto with vm|discriminate]].
  destruct (if previous is Some previous then index <=? previous else false) eqn:Ep;
    [split; [auto with vm|discriminate]|].
  rewrite slice_from_ok by lia. cbn [rbind].
  destruct (read_tile_sound d (drop (Z.to_nat (read + w)) body) r true) as [Hnp' Hok];
    [done|eapply tile_rect_in; eauto using dec_geometry; lia|by apply Forall_drop|].
  destruct (read_tile d _ r true) as [[d1 n]|e|]; cbn [rbind];
    [|split; [auto with vm|discriminate]|done].
  destruct (Hok d1 n eq_refl) as (Hd1 & Hs & Hdam & Hn). rewrite length_drop in Hn.
  split; [auto with vm|]. intros ? ? ? [= <- <- <-]. split_and!; auto with vm; try lia.
  - destruct previous; [bool_to_prop; lia|done].
  - exists r. split; [done|]. cbn. by rewrite Hdam.
Qed.

Lemma delta_loop_sound fuel d body read previous :
  dec_wf d → Forall is_u8 body → 0 <= read <= zlen body → zlen body - read <= Z.of_nat fuel →
  ∀ d' o, delta_loop fuel d body read previous = (d', o) →
  dec_wf d' ∧ same_stream d d' ∧ no_panic o ∧
  (∀ rects, o = Ok rects → ∃ more,
     rects = damage d ++ more ∧ increasing_tiles (geometry d) previous more).
Proof.
  revert d read previous. induction fuel as [|fuel IH];
    intros d read previous Hd Hb Hread Hfuel d' o H; cbn [delta_loop] in H.
  all: destruct (zlen body <=? read) eqn:E0; bool_to_prop; try lia.
  1, 2: simplify_eq; split_and!; auto with vm; try reflexivity;
    intros rects [= <-]; exists []; by rewrite app_nil_r.
  destruct (delta_step_sound d body read previous) as [Hnp Hok]; [done..|].
  destruct (delta_step d body read previous) as [[[d1 read1] index]|e|];
    [|refused..].
  destruct (Hok d1 read1 index eq_refl) as (Hd1 & [Hg Hh] & Hr1 & Hi & Hp & r & Hr & Hdam).
  apply IH in H as (Hd' & [Hg' Hh'] & Hnp' & Hinc); [|done|done|lia|lia].
  split_and!; auto; [split; congruence|].
  intros rects Hrects. destruct (Hinc rects Hrects) as (more & -> & Hmore).
  exists (r :: more). rewrite Hdam, <- app_assoc. split; [done|]. exists index.
  rewrite Hg in Hmore. auto.
Qed.

Lemma apply_delta_sound d payload :
  dec_wf d → Forall is_u8 payload →
  ∀ d' o, apply_delta d payload = (d', o) →
  dec_wf d' ∧ same_stream d d' ∧ no_panic o ∧
  (∀ rects, o = Ok rects → has_frame d = true ∧ increasing_tiles (geometry d) None rects).
Proof.
  intros Hd Hb d' o H. unfold apply_delta in H.
  pose proof (read_header_no_panic payload (geometry d)) as Hnp.
  destruct (read_header payload (geometry d)) as [[keyframe body]|e|] eqn:Eh;
    [|refused|done].
  destruct keyframe; cbn [negb] in H; [refused|].
  destruct (has_frame d) eqn:Ehf; cbn [negb] in H;
    [|refused].
  apply read_header_body in Eh; [|done].
  apply delta_loop_sound in H as (Hd' & [Hg Hh] & Hnp' & Hinc); auto with vm; [|lia|lia].
  split_and!; auto; [by split|]. intros rects Hr.
  destruct (Hinc rects Hr) as (more & -> & Hmore). by cbn.
Qed.
