(* ===== verification/CodecSync.v ===== *)
(** * Both ends of the frame channel together

    The encoder ([Encoder.v]) and the decoder ([Decoder.v]) as one system: what
    one writes the other reads, and the decoder's frame stays the encoder's
    reference. *)

From stdpp Require Import sets.
From S2P Require Import Prelude.
From S2P Require Import Varint.
From S2P Require Import Zrle.
From S2P Require Import Geometry.
From S2P Require Import Container.
From S2P Require Import Cursor.
From S2P Require Import Queue.
From S2P Require Import TileCopy.
From S2P Require Import Encoder.
From S2P Require Import Decoder.

(** ** One tile record *)

Lemma write_tile_app out t prev : write_tile out t prev = out ++ write_tile [] t prev.
Proof.
  unfold write_tile. destruct (choose_method t prev); cbn [app];
    unfold Varint.write; by rewrite <- ?app_assoc.
Qed.

Lemma write_tile_nonempty t prev : 1 <= zlen (write_tile [] t prev).
Proof.
  unfold write_tile. destruct (choose_method t prev); unfold Varint.write;
    rewrite ?length_app; cbn [length]; lia.
Qed.

Lemma varint_len_pos v : 1 <= varint_len v.
Proof. unfold varint_len. repeat case_if; lia. Qed.

(** The size of the record is the smallest of the encodings it may use. *)
Definition coded_len (pixels : list Z) : Z :=
  let coded := Zrle.encode pixels [] in zlen coded + varint_len (as_u32 (zlen coded)).

Definition best_len (t : list Z) (prev : option (list Z)) : Z :=
  let own := Z.min (zlen t * 4) (coded_len t) in
  match prev with None => own | Some old => Z.min own (coded_len (xored t old)) end.

(** The size of the method's own encoding. *)
Definition method_len (m : Method) (t : list Z) (prev : option (list Z)) : Z :=
  match m with
  | Raw => zlen t * 4
  | Container.Zrle => coded_len t
  | XorZrle => match prev with None => 0 | Some old => coded_len (xored t old) end
  end.

Lemma choose_method_spec t prev :
  method_len (choose_method t prev) t prev = best_len t prev ∧
  (choose_method t prev = XorZrle → prev ≠ None) ∧
  (choose_method t prev ≠ Raw → best_len t prev < zlen t * 4).
Proof.
  unfold choose_method, method_len, best_len. fold (coded_len t).
  destruct prev as [old|]; [fold (coded_len (xored t old))|].
  - destruct (coded_len t <? zlen t * 4) eqn:E1; bool_to_prop;
      [destruct (coded_len (xored t old) <? coded_len t) eqn:E2
      |destruct (coded_len (xored t old) <? zlen t * 4) eqn:E2]; bool_to_prop;
      split_and!; try done; lia.
  - destruct (coded_len t <? zlen t * 4) eqn:E1; bool_to_prop; split_and!; try done; lia.
Qed.

Lemma coded_record_len pixels out :
  zlen (Zrle.encode pixels []) < 4294967296 →
  zlen (Varint.write out (as_u32 (zlen (Zrle.encode pixels []))) ++ Zrle.encode pixels [])
  = zlen out + coded_len pixels.
Proof.
  intros Hlen. unfold Varint.write, coded_len. rewrite !length_app, !Nat2Z.inj_add.
  rewrite (Varint.length_write_loop (as_u32 _)); [lia|].
  apply Z.mod_pos_bound. lia.
Qed.

(** When a coded form is chosen its stream is shorter than the raw pixels. *)
Lemma chosen_fits t prev pixels :
  zlen t <= 4096 → choose_method t prev ≠ Raw →
  method_len (choose_method t prev) t prev = coded_len pixels →
  0 <= zlen (Zrle.encode pixels []) < 16384.
Proof.
  intros Hlen Hne Heq. destruct (choose_method_spec t prev) as (Hbest & _ & Hlt).
  specialize (Hlt Hne). rewrite Hbest in Heq. unfold coded_len in Heq.
  pose proof (varint_len_pos (as_u32 (zlen (Zrle.encode pixels [])))). lia.
Qed.

Lemma write_tile_len t prev :
  zlen t <= 4096 → zlen (write_tile [] t prev) = 1 + best_len t prev.
Proof.
  intros Hlen. destruct (choose_method_spec t prev) as (Hbest & Hxor & _).
  rewrite <- Hbest. unfold write_tile.
  pose proof (chosen_fits t prev) as Hfits.
  destruct (choose_method t prev) eqn:Em; cbn [app method_len] in *.
  - cbn [length]. rewrite length_bytes_of_u32s. lia.
  - rewrite coded_record_len; [cbn [length]; lia|]. pose proof (Hfits t Hlen ltac:(done) eq_refl). lia.
  - destruct prev as [old|]; [|by destruct (Hxor eq_refl)].
    rewrite coded_record_len; [cbn [length]; lia|].
    pose proof (Hfits (xored t old) Hlen ltac:(done) eq_refl). lia.
Qed.

(** What [tile_pixels] makes of a coded record. *)
Lemma tile_pixels_coded m pixels rest rect xor :
  m ≠ Raw → (m = XorZrle → xor = true) →
  Forall is_u32 pixels → zlen pixels = area rect → 0 <= zlen (Zrle.encode pixels []) < 16384 →
  let record := Varint.write [as_byte m] (as_u32 (zlen (Zrle.encode pixels [])))
                  ++ Zrle.encode pixels [] in
  tile_pixels (record ++ rest) rect xor
  = Ok (pixels, zlen record, if m is XorZrle then true else false).
Proof.
  intros Hm Hxor Hu Hlen Hfit. cbv zeta. unfold Varint.write.
  set (code := Zrle.encode pixels []) in *.
  rewrite as_u32_small by (unfold is_u32; lia).
  set (len := Varint.write_loop 5 (zlen code)).
  unfold tile_pixels. cbn [app head ok_or rbind]. rewrite from_byte_as_byte. cbn [rbind].
  replace (if m is XorZrle then negb xor else false) with false
    by (destruct m; try done; by rewrite Hxor).
  rewrite (slice_from_app [as_byte m] ((len ++ code) ++ rest) 1) by done.
  assert (Hread : Varint.read ((len ++ code) ++ rest) = Ok (zlen code, zlen len)).
  { rewrite <- app_assoc. pose proof (Varint.read_write_prefix (zlen code) (code ++ rest)) as Hr.
    unfold Varint.write in Hr. cbn [app] in Hr. apply Hr. unfold is_u32. lia. }
  assert (Hvl : zlen len <= 5).
  { unfold len. rewrite Varint.length_write_loop by (unfold is_u32; lia).
    unfold varint_len. repeat case_if; lia. }
  cbn [rbind]. rewrite Hread. cbn [rbind].
  unfold usize_checked_add. replace (_ <=? USIZE_MAX) with true
    by (symmetry; apply Z.leb_le; unfold USIZE_MAX; lia). cbn [ok_or rbind].
  change (as_byte m :: (len ++ code) ++ rest) with (([as_byte m] ++ (len ++ code)) ++ rest).
  rewrite <- !app_assoc, app_assoc.
  rewrite (get_range_middle ([as_byte m] ++ len) code rest (1 + zlen len)
    (1 + zlen len + zlen code)) by (rewrite length_app; cbn [length]; lia).
  cbn [ok_or rbind]. change (rect_width rect * rect_height rect) with (area rect).
  rewrite <- Hlen. unfold code. rewrite decode_encode_self by done. cbn [rbind].
  destruct m; [done|..]; repeat f_equal; cbn [app length]; rewrite !length_app; lia.
Qed.

Lemma xored_zip t old : xored t old = zip_with (mixz true) t old.
Proof. done. Qed.

Lemma area_bound g index r : wf g → 0 <= index → tile g index = Some r → 1 <= area r <= 4096.
Proof.
  intros Hwf Hi Hr. destruct (tile_in_frame g Hwf _ _ Hi Hr) as (_&_&?&?&_).
  pose proof (as_pixels_range (tile_size g)). unfold area. nia.
Qed.

(** The decoder reads exactly the record, and what it holds is the tile, or its
    difference from the tile before. *)
Lemma tile_pixels_write_tile t prev rest rect xor :
  zlen t = area rect → area rect <= 4096 → 0 <= area rect → Forall is_u32 t →
  (∀ old, prev = Some old → xor = true ∧ Forall is_u32 old ∧ zlen old = area rect) →
  ∃ px diff, tile_pixels (write_tile [] t prev ++ rest) rect xor
             = Ok (px, zlen (write_tile [] t prev), diff) ∧
    zlen px = area rect ∧ Forall is_u32 px ∧
    match diff, prev with
    | false, _ => px = t
    | true, Some old => px = zip_with (mixz true) t old
    | true, None => False
    end.
Proof.
  intros Hlen Hmax H0 Hu Hprev. destruct (choose_method_spec t prev) as (_ & Hxor & _).
  pose proof (chosen_fits t prev) as Hfits. unfold write_tile.
  destruct (choose_method t prev) eqn:Em; cbn [app].
  - exists t, false. split_and!; auto. unfold tile_pixels. cbn [head ok_or rbind].
    change (from_byte (as_byte Raw)) with (Ok (E:=codec_error) Raw). cbn [rbind].
    change (rect_width rect * rect_height rect) with (area rect).
    change (as_byte Raw :: bytes_of_u32s t ++ rest)
      with ([as_byte Raw] ++ bytes_of_u32s t ++ rest).
    rewrite (get_range_middle [as_byte Raw] (bytes_of_u32s t) rest 1 (1 + area rect * 4));
      [|done|rewrite length_bytes_of_u32s; cbn [length]; lia].
    cbn [ok_or rbind]. rewrite u32s_of_bytes_of_u32s by done. repeat f_equal.
    cbn [length]. rewrite length_bytes_of_u32s. lia.
  - exists t, false. split_and!; auto.
    apply (tile_pixels_coded Container.Zrle); auto; try discriminate.
    apply (Hfits t); [lia|discriminate|done].
  - destruct prev as [old|]; [|by destruct (Hxor eq_refl)].
    destruct (Hprev old eq_refl) as (-> & Huo & Hlo). rewrite xored_zip in *.
    exists (zip_with (mixz true) t old), true.
    assert (zlen (zip_with (mixz true) t old) = area rect)
      by (rewrite length_zip_with_l_eq; lia).
    assert (Forall is_u32 (zip_with (mixz true) t old)) by by apply zip_with_mixz_u32.
    split_and!; auto. apply (tile_pixels_coded XorZrle); auto; try discriminate.
    apply Hfits; [lia|discriminate|]. by rewrite <- xored_zip.
Qed.

(** On a decoder whose frame is the pixels [f], reading the record writes the
    tile over the rectangle. *)
Lemma read_tile_write_tile d g f t prev rest r xor f' :
  geometry d = g → frame d = bytes_of_u32s f → zlen f = pixel_count g → Forall is_u32 f →
  rect_in g r → area r <= 4096 → zlen t = area r → Forall is_u32 t →
  (∀ old, prev = Some old → xor = true ∧ Forall is_u32 old ∧ zlen old = area r ∧
          gather (E:=codec_error) f g r = Ok old) →
  scattered g r false f t f' →
  read_tile d (write_tile [] t prev ++ rest) r xor
  = Ok (with_frame d (bytes_of_u32s f'), zlen (write_tile [] t prev)).
Proof.
  intros Hg Hframe Hf Hfu Hr Ha Hlt Htu Hprev Hsc.
  assert (0 <= area r) by lia.
  destruct (tile_pixels_write_tile t prev rest r xor) as (px & diff & Hpx & Hlpx & Hpxu & Hdiff);
    [done..| |].
  { intros old Hold. destruct (Hprev old Hold) as (?&?&?&_). auto. }
  unfold read_tile. rewrite Hpx. cbn [rbind]. rewrite Hframe, Hg.
  destruct (decoder_scatter_ok (E:=codec_error) g r Hr diff f px) as (f1 & -> & Hu1 & Hsc1);
    [done..|]. cbn [rbind]. repeat f_equal.
  apply (scattered_unique g r Hr false f t); [done| |done].
  destruct diff; [|by subst px].
  destruct prev as [old|]; [|done]. subst px.
  destruct (Hprev old eq_refl) as (_&_&_&Hold).
  by apply (scattered_xor (E:=codec_error) g r Hr f t old).
Qed.

(** ** A whole keyframe *)

(** The frame agrees with the source on every tile before [index]. *)
Definition agrees_before (g : Geometry) (index : Z) (src f : list Z) : Prop :=
  ∀ px py, 0 <= px < width g → 0 <= py < height g → tile_of g px py < index →
    zget f (py * width g + px) = zget src (py * width g + px).

Lemma agrees_before_step g index r src f f' :
  wf g → 0 <= index → tile g index = Some r → stamped g r src f f' →
  agrees_before g index src f → agrees_before g (index + 1) src f'.
Proof.
  intros Hwf Hi Hr [_ Hst] H px py Hpx Hpy Hlt.
  destruct (Hst px py Hpx Hpy) as [Hin Hout].
  pose proof (inside_tile_of g px py index r Hwf Hi Hr Hpx Hpy).
  destruct (Z.eq_dec index (tile_of g px py)) as [|Hne]; [tauto|].
  rewrite Hout by tauto. apply H; auto. lia.
Qed.

Lemma agrees_all g src f :
  wf g → zlen src = pixel_count g → zlen f = pixel_count g →
  agrees_before g (tile_count g) src f → f = src.
Proof.
  intros Hwf Hs Hf H. apply (frame_ext g); auto.
  - destruct Hwf as (? & _). lia.
  - intros px py Hpx Hpy. apply H; auto. by apply tile_of_range.
Qed.

Section frames.
Context (g : Geometry) (Hwf : wf g).
Context (src : list Z) (Hsrc : zlen src = pixel_count g) (Hsrcu : Forall is_u32 src).

(** The tile gathered from the source, written to any other frame. *)
Lemma stamp_ex index r f :
  0 <= index → tile g index = Some r → zlen f = pixel_count g → Forall is_u32 f →
  ∃ t f', gather (E:=codec_error) src g r = Ok t ∧ zlen t = area r ∧ Forall is_u32 t ∧
    scattered g r false f t f' ∧ stamped g r src f f' ∧
    zlen f' = pixel_count g ∧ Forall is_u32 f'.
Proof.
  intros Hi Hr Hf Hfu.
  destruct (write_step (E:=codec_error) g Hwf src Hsrc Hsrcu index r f Hi Hr Hf Hfu)
    as (t & old & f' & Ht & _ & _ & Hlt & _ & Htu & _ & Hsc & Hst).
  exists t, f'. split_and!; auto.
  - destruct Hst. lia.
  - by apply (stamped_u32 g Hwf src Hsrcu r f).
Qed.

Lemma keyframe_tiles_decode n index out :
  0 <= index → index + Z.of_nat n = tile_count g →
  ∃ body, keyframe_tiles (E:=codec_error) (S n) g src index out = Ok (out ++ body) ∧
    ∀ d pre f, geometry d = g → frame d = bytes_of_u32s f →
      zlen f = pixel_count g → Forall is_u32 f → agrees_before g index src f →
      ∃ d', keyframe_loop (S n) d (pre ++ body) (zlen pre) index = (d', Ok (zlen (pre ++ body))) ∧
        frame d' = bytes_of_u32s src ∧ same_stream d d'.
Proof.
  revert index out. induction n as [|n IH]; intros index out Hi Hn; cbn [keyframe_tiles keyframe_loop].
  { rewrite tile_none by lia. exists []. rewrite app_nil_r. split; [done|].
    intros d pre f Hg Hframe Hf Hfu Hag. rewrite Hg, tile_none, app_nil_r by lia.
    exists d. split; [done|]. split; [|done]. rewrite Hframe. f_equal.
    apply (agrees_all g); auto. by replace (tile_count g) with index by lia. }
  destruct (tile g index) as [r|] eqn:Er; [|rewrite tile_eq in Er; by (done || lia)].
  pose proof (tile_rect_in g _ _ Hwf Hi Er) as Hin.
  destruct (stamp_ex index r src Hi Er Hsrc Hsrcu) as (t & _ & Ht & _). rewrite Ht. cbn [rbind].
  rewrite write_tile_app.
  destruct (IH (index + 1) (out ++ write_tile [] t None)) as (body & Hok & Hdec); [lia..|].
  exists (write_tile [] t None ++ body). rewrite app_assoc. split; [exact Hok|].
  intros d pre f Hg Hframe Hf Hfu Hag.
  destruct (stamp_ex index r f Hi Er Hf Hfu) as (t' & f' & Ht' & Hlt & Htu & Hsc & Hst & Hf' & Hfu').
  rewrite Ht in Ht'. injection Ht' as <-. rewrite Hg, Er.
  rewrite (slice_from_app pre) by done. cbn [rbind].
  rewrite (read_tile_write_tile d g f t None body r false f');
    [|try done; try (pose proof (area_bound g index r Hwf Hi Er); lia)..].
  destruct (Hdec (push_damage (with_frame d (bytes_of_u32s f')) r)
              (pre ++ write_tile [] t None) f') as (d' & Hloop & Hfr & Hs1 & Hs2); auto.
  { by eapply agrees_before_step. }
  exists d'. rewrite <- app_assoc, length_app, Nat2Z.inj_add in Hloop. split; [exact Hloop|].
  by split.
Qed.

(** ** The tiles of a delta *)

(** What [delta_tiles] from tile [index] on promises the decoder: the records it appended, read
    back from any position of a payload, paint the encoder's new reference. *)
Definition delta_decodes (index : Z) (ref out : list Z) (written : bool)
    (ref' out' : list Z) (written' : bool) : Prop :=
  ∃ body, out' = out ++ body ∧ written' = written || negb (bool_decide (body = [])) ∧
    (body = [] → ref' = ref) ∧
    ∀ fuel d pre previous, geometry d = g → frame d = bytes_of_u32s ref →
      (if previous is Some previous then previous < index else True) →
      zlen body <= Z.of_nat fuel →
      ∃ d', delta_loop fuel d (pre ++ body) (zlen pre) previous = (d', Ok (damage d')) ∧
        frame d' = bytes_of_u32s ref' ∧ same_stream d d'.

Lemma delta_decodes_end index ref out written :
  delta_decodes index ref out written ref out written.
Proof.
  exists []. rewrite app_nil_r, orb_false_r.
  split_and!; auto. intros fuel d pre previous Hg Hframe _ _. exists d.
  rewrite app_nil_r. split; [|done].
  destruct fuel; cbn [delta_loop]; by rewrite Z.leb_refl.
Qed.

Lemma delta_decodes_skip index ref out written ref' out' written' :
  delta_decodes (index + 1) ref out written ref' out' written' →
  delta_decodes index ref out written ref' out' written'.
Proof.
  intros (body & -> & -> & Hnil & Hdec).
  exists body. split_and!; auto. intros fuel d pre previous Hg Hframe Hprev Hfuel.
  apply Hdec; auto. destruct previous; [lia|done].
Qed.

(** One record of a delta, as the encoder writes it and as [Decoder::delta] reads it. *)
Lemma delta_step_record index r ref t old ref1 d pre more previous :
  0 <= index → tile g index = Some r → zlen ref = pixel_count g → Forall is_u32 ref →
  zlen t = area r → Forall is_u32 t → zlen old = area r → Forall is_u32 old →
  gather (E:=codec_error) ref g r = Ok old → scattered g r false ref t ref1 →
  geometry d = g → frame d = bytes_of_u32s ref →
  (if previous is Some previous then previous < index else True) →
  delta_step d (pre ++ Varint.write_loop 5 index ++ write_tile [] t (Some old) ++ more)
      (zlen pre) previous
  = Ok (push_damage (with_frame d (bytes_of_u32s ref1)) r,
        zlen (pre ++ Varint.write_loop 5 index ++ write_tile [] t (Some old)), index).
Proof.
  intros Hi Er Href Hrefu Hlt Htu Hlo Hou Hold Hsct Hg Hframe Hprev.
  pose proof (tile_rect_in g _ _ Hwf Hi Er) as Hin. pose proof (tile_count_range g Hwf).
  assert (index < tile_count g) by (by eapply tile_some).
  set (rec := write_tile [] t (Some old)).
  unfold delta_step. rewrite (slice_from_app pre) by done. cbn [rbind].
  pose proof (Varint.read_write_prefix index (rec ++ more)) as Hread.
  unfold Varint.write in Hread. cbn [app] in Hread.
  set (ix := Varint.write_loop 5 index) in *.
  rewrite Hread by (unfold is_u32; lia). cbn [rbind]. rewrite Hg, Er. cbn [ok_or rbind].
  replace (if previous is Some previous then index <=? previous else false) with false
    by (destruct previous; [symmetry; apply Z.leb_gt; lia|done]).
  rewrite (app_assoc pre ix). rewrite (slice_from_app (pre ++ ix)) by (rewrite length_app; lia).
  cbn [rbind]. unfold rec. rewrite (read_tile_write_tile d g ref t (Some old) more r true ref1);
    try done; try (pose proof (area_bound g index r Hwf Hi Er); lia).
  - cbn [rbind]. fold rec. repeat f_equal. rewrite !length_app. lia.
  - intros ? [= <-]. auto.
Qed.

Lemma delta_decodes_record index r ref t old ref1 out written ref' out' written' :
  0 <= index → tile g index = Some r → zlen ref = pixel_count g → Forall is_u32 ref →
  zlen t = area r → Forall is_u32 t → zlen old = area r → Forall is_u32 old →
  gather (E:=codec_error) ref g r = Ok old → scattered g r false ref t ref1 →
  delta_decodes (index + 1) ref1
    ((out ++ Varint.write_loop 5 index) ++ write_tile [] t (Some old)) true ref' out' written' →
  delta_decodes index ref out written ref' out' written'.
Proof.
  intros Hi Er Href Hrefu Hlt Htu Hlo Hou Hold Hsct (body & -> & -> & Hnil & Hdec).
  pose proof (write_tile_nonempty t (Some old)) as Hrec.
  assert (Hix : 1 <= zlen (Varint.write_loop 5 index)) by (apply Varint.write_loop_nonempty; lia).
  set (ix := Varint.write_loop 5 index) in *. set (rec := write_tile [] t (Some old)) in *.
  exists (ix ++ rec ++ body). rewrite <- !app_assoc. split; [done|].
  assert (Hne : ix ++ rec ++ body ≠ []) by (destruct ix; [cbn in Hix; lia|done]).
  split; [cbn [orb]; rewrite bool_decide_eq_false_2 by (by intros ?%Hne); by destruct written|]. split; [done|].
  intros fuel d pre previous Hg Hframe Hprev Hfuel.
  rewrite !length_app in Hfuel. destruct fuel as [|fuel]; [lia|]. cbn [delta_loop].
  replace (_ <=? zlen pre) with false
    by (symmetry; apply Z.leb_gt; rewrite !length_app; lia).
  unfold ix, rec. rewrite (delta_step_record index r ref t old ref1); try done.
  destruct (Hdec fuel (push_damage (with_frame d (bytes_of_u32s ref1)) r) (pre ++ ix ++ rec)
    (Some index)) as (d' & Hloop & Hfr & Hs1 & Hs2); [done|done|lia|lia|].
  exists d'. rewrite <- !app_assoc in Hloop. split; [exact Hloop|]. by split.
Qed.

Lemma delta_tiles_decode selected (Hsel : zlen selected = tile_count g) n index ref out written
    ref' out' written' :
  0 <= index → index + Z.of_nat n = tile_count g →
  zlen ref = pixel_count g → Forall is_u32 ref →
  delta_tiles (E:=codec_error) (S n) g selected src index ref out written
  = Ok (ref', out', written') →
  delta_decodes index ref out written ref' out' written'.
Proof.
  revert index ref out written.
  induction n as [|n IH]; intros index ref out written Hi Hn Href Hrefu H; cbn [delta_tiles] in H.
  { rewrite tile_none in H by lia. simplify_eq. apply delta_decodes_end. }
  destruct (tile g index) as [r|] eqn:Er; [|rewrite tile_eq in Er; by (done || lia)].
  pose proof (tile_rect_in g _ _ Hwf Hi Er) as Hin.
  rewrite index_selected in H by lia. cbn [rbind] in H.
  destruct (is_selected selected index); cbn [negb] in H;
    [|apply delta_decodes_skip, IH; by (done || lia)].
  destruct (differs_ok (E:=codec_error) g r Hin src ref Hsrc Href) as (b & Hb & _).
  rewrite Hb in H. cbn [rbind] in H.
  destruct b; cbn [negb] in H; [|apply delta_decodes_skip, IH; by (done || lia)].
  destruct (write_step (E:=codec_error) g Hwf src Hsrc Hsrcu index r ref Hi Er Href Hrefu)
    as (t & old & ref1 & Ht & Hold & Hsc & Hlt & Hlo & Htu & Hou & Hsct & Hst).
  rewrite Ht in H. cbn [rbind] in H. rewrite Hold in H. cbn [rbind] in H.
  rewrite Hsc in H. cbn [rbind] in H. rewrite write_tile_app in H. unfold Varint.write in H.
  apply (delta_decodes_record index r ref t old ref1); try done.
  apply IH; try lia; [destruct Hst; lia| |done].
  by apply (stamped_u32 g Hwf src Hsrcu r ref).
Qed.
End frames.

(** ** Encoding a frame, and decoding the payload *)

(** What the viewer does with a payload, by the record it came in. *)
Inductive received : Type :=
| Painted (rects : list Rect)
| CursorShape (image : CursorImage)
| CursorMoved (position : CursorPosition).

Definition map_outcome {A B} (f : A → B) (m : result codec_error A) : result codec_error B :=
  let? a := m in Ok (f a).

Definition receive (d : Decoder) (p : Payload) : Decoder * result codec_error received :=
  match p with
  | Keyframe bytes => let '(d, o) := apply_keyframe d bytes in (d, map_outcome Painted o)
  | TileDelta bytes => let '(d, o) := apply_delta d bytes in (d, map_outcome Painted o)
  | CursorImagePayload bytes => (d, map_outcome CursorShape (decode_cursor_image bytes))
  | CursorPositionPayload bytes => (d, map_outcome CursorMoved (decode_cursor_position bytes))
  end.

(** The decoder holds exactly the encoder's reference. *)
Definition mirrors (d : Decoder) (e : Encoder) : Prop :=
  Decoder.geometry d = Encoder.geometry e ∧ has_frame d = has_reference e ∧
  Decoder.frame d = bytes_of_u32s (reference e).

(** The cursor slots hold what a decoder reads. *)
Record cursor_ok (s : Staging) : Prop := {
  cursor_image_ok : cursor_image_pending s = true →
    ∃ image, read_image (cursor_image s) = Ok image;
  cursor_position_ok : cursor_position_pending s = true →
    ∃ position, read_position (cursor_position s) = Ok position;
}.

Lemma encode_keyframe_ok e :
  enc_wf e →
  ∃ e', encode_keyframe e = Ok e' ∧ enc_wf e' ∧
    reference e' = Queue.frame (staging e) ∧ has_reference e' = true ∧
    staging e' = keyframe_sent (staging e) ∧ Encoder.geometry e' = Encoder.geometry e ∧
    refresh_interval e' = refresh_interval e ∧
    ∀ d, mirrors d e → ∃ d' rects, apply_keyframe d (output e') = (d', Ok rects) ∧ mirrors d' e'.
Proof.
  intros He. pose proof (enc_geometry e He) as Hwf. set (g := Encoder.geometry e) in *.
  pose proof (tile_count_range g Hwf) as Hc. unfold encode_keyframe. fold g.
  destruct (keyframe_tiles_decode g Hwf (Queue.frame (staging e)) (enc_frame e He)
    (enc_frame_u32 e He) (Z.to_nat (tile_count g)) 0 (write_header [] true g))
    as (body & Hok & Hdec); [lia|lia|].
  unfold tile_fuel. rewrite Hok. cbn [rbind].
  rewrite (enc_frame e He), (enc_reference e He), Z.eqb_refl. cbn [rbind].
  eexists. split; [reflexivity|]. destruct He. split_and!; try done.
  { split; cbn; auto. lia. }
  intros d (Hg & Hh & Hfr). unfold apply_keyframe. cbn [output].
  rewrite Hg. fold g. rewrite read_write_header by done. cbn [negb].
  destruct (Hdec (clear_damage d) [] (reference e)) as (d' & Hloop & Hframe & Hs1 & Hs2); auto.
  { intros px py Hpx Hpy Hlt. pose proof (tile_of_range g px py Hwf Hpx Hpy). lia. }
  change (zlen (@nil Z)) with 0 in Hloop. cbn [app] in Hloop. rewrite Hloop, Z.eqb_refl. cbn [negb]. do 2 eexists. split; [done|].
  unfold mirrors. subst g. split_and!; cbn in *; congruence.
Qed.

(** What a delta compares: the hinted tiles and the sweep's. *)
Definition compared (e : Encoder) (hint : option (list Rect)) (i : Z) : Prop :=
  swept (Encoder.geometry e) (refresh_interval e) (sweep e) i ∨
  match hint with
  | None => True
  | Some rects => ∃ r, r ∈ rects ∧ i ∈ hint_tiles (Encoder.geometry e) r
  end.

(** What comes of it: a pixel of a compared tile is the staged frame's, any other
    one is what it was. *)
Definition delta_reference (e e' : Encoder) (hint : option (list Rect)) : Prop :=
  let g := Encoder.geometry e in
  zlen (reference e') = zlen (reference e) ∧
  ∀ px py, 0 <= px < width g → 0 <= py < height g →
    (compared e hint (tile_of g px py) →
     zget (reference e') (py * width g + px) = zget (Queue.frame (staging e)) (py * width g + px)) ∧
    (¬ compared e hint (tile_of g px py) →
     zget (reference e') (py * width g + px) = zget (reference e) (py * width g + px)).

Lemma encode_delta_ok e hint :
  enc_wf e → u32_rects hint →
  ∃ e' written, encode_delta e hint = Ok (e', written) ∧ enc_wf e' ∧
    delta_reference e e' hint ∧ has_reference e' = has_reference e ∧
    staging e' = staging e ∧ Encoder.geometry e' = Encoder.geometry e ∧
    refresh_interval e' = refresh_interval e ∧
    sweep e' = next_sweep (Encoder.geometry e) (refresh_interval e) (sweep e) ∧
    (written = false → reference e' = reference e) ∧
    ∀ d, mirrors d e → has_reference e = true → 
      ∃ d' rects, apply_delta d (output e') = (d', Ok rects) ∧ mirrors d' e'.
Proof.
  intros He Hu. pose proof (enc_geometry e He) as Hwf. unfold encode_delta.
  set (g := Encoder.geometry e) in *. pose proof (tile_count_range g Hwf) as Hc.
  destruct (select_tiles_selected (E:=codec_error) g hint (selected e) Hwf Hu (enc_selected e He))
    as (s1 & Hs1 & Hl1 & Hsel1). rewrite Hs1. cbn [rbind].
  destruct (mark_sweep_selected (E:=codec_error) g (refresh_interval e) (sweep e) s1 Hwf
    (enc_interval e He) (enc_sweep e He) Hl1) as (s2 & Hs2 & Hl2 & Hsel2).
  rewrite Hs2. cbn [rbind].
  destruct (delta_tiles_ok (E:=codec_error) g Hwf (Queue.frame (staging e)) s2 (enc_frame e He)
    (enc_frame_u32 e He) Hl2 (Z.to_nat (tile_count g)) 0 (reference e) (write_header [] false g)
    false) as (ref' & out' & written & Hok & [Hlen Hadv] & Hu'); [lia|lia|apply He|apply He|].
  unfold tile_fuel. rewrite Hok. cbn [rbind].
  destruct (delta_tiles_decode g Hwf (Queue.frame (staging e)) (enc_frame e He)
    (enc_frame_u32 e He) s2 Hl2 (Z.to_nat (tile_count g)) 0 (reference e) (write_header [] false g)
    false ref' out' written) as (body & -> & Hw & Hnil & Hdec);
    [lia|lia|apply He|apply He|done|].
  do 2 eexists. split; [reflexivity|].
  assert (Hcmp : ∀ px py, 0 <= px < width g → 0 <= py < height g →
    (is_selected s2 (tile_of g px py) = true ↔ compared e hint (tile_of g px py))).
  { intros px py Hpx Hpy. pose proof (tile_of_range g px py Hwf Hpx Hpy).
    unfold compared. fold g. rewrite Hsel2, Hsel1 by lia. tauto. }
  split_and!; try done.
  - destruct He. split; cbn; auto; [subst g; lia|apply next_sweep_range; auto].
  - split; [done|]. cbn [reference]. fold g. intros px py Hpx Hpy.
    pose proof (tile_of_range g px py Hwf Hpx Hpy) as Hr.
    rewrite Hadv by done. replace (0 <=? tile_of g px py) with true by (symmetry; apply Z.leb_le; lia).
    cbn [andb]. pose proof (Hcmp px py Hpx Hpy) as Hiff.
    destruct (is_selected s2 (tile_of g px py)); split; intros Hx; try done; naive_solver.
  - cbn [reference]. intros ->. apply Hnil.
    destruct (decide (body = [])) as [|Hne]; [done|]. by rewrite bool_decide_eq_false_2 in Hw.
  - intros d (Hg & Hh & Hfr) Hhas. unfold apply_delta. cbn [output]. rewrite Hg. fold g.
    rewrite read_write_header by done. rewrite Hh, Hhas. cbn [negb].
    destruct (Hdec (length body) (clear_damage d) [] None) as (d' & Hloop & Hframe & Hs1' & Hs2');
      auto; [lia|]. change (zlen (@nil Z)) with 0 in Hloop. cbn [app] in Hloop. rewrite Hloop. do 2 eexists. split; [done|].
    unfold mirrors. subst g. split_and!; cbn in *; congruence.
Qed.

(** ** The next payload *)

Lemma next_cursor_ok e p e' :
  enc_wf e → cursor_ok (staging e) → next_cursor e = (p, e') →
  enc_wf e' ∧ cursor_ok (staging e') ∧ reference e' = reference e ∧
  has_reference e' = has_reference e ∧ Encoder.geometry e' = Encoder.geometry e ∧
  Queue.frame (staging e') = Queue.frame (staging e) ∧
  ∀ d, match p with
       | None => True
       | Some p => ∃ r, receive d p = (d, Ok r)
       end.
Proof.
  intros He [Him Hpos] H. unfold next_cursor, take_cursor_image, take_cursor_position in H.
  assert (Hwf : ∀ s, Queue.frame s = Queue.frame (staging e) →
    Queue.hint s = Queue.hint (staging e) → enc_wf (with_staging e s)).
  { intros s Hf Hh. apply with_staging_wf; [done..|]. rewrite Hh. apply He. }
  destruct (cursor_image_pending (staging e)) eqn:Ei;
    [|destruct (cursor_position_pending _) eqn:Ep in H]; cbn in H; simplify_eq;
    (split; [by apply Hwf|]); cbn in *.
  - split; [by split|]. split_and!; try done. intros d. unfold decode_cursor_image.
    destruct (Him eq_refl) as (image & ->). eauto.
  - split; [by split|]. split_and!; try done. intros d. unfold decode_cursor_position.
    destruct (Hpos Ep) as (position & ->). eauto.
  - split; [by split|]. done.
Qed.

Lemma take_frame_wf e taken s :
  enc_wf e → take_frame (staging e) = (taken, s) →
  enc_wf (with_staging e s) ∧ (∀ hint, taken = Some hint → u32_rects hint) ∧
  (cursor_ok (staging e) → cursor_ok s) ∧ Queue.frame s = Queue.frame (staging e) ∧
  keyframe_requested s = keyframe_requested (staging e).
Proof.
  intros He H. unfold take_frame in H. destruct (frame_pending (staging e)); cbn [negb] in H;
    simplify_eq; split_and!; try done.
  - apply with_staging_wf; [done|done|]. intros ? ? [= <-] []%not_elem_of_nil.
  - intros hint [= <-]. apply He.
  - intros []. by split.
  - apply with_staging_wf; [done|done|apply He].
Qed.

(** The encoder never panics, whatever it hands out is accepted by a decoder that
    mirrors it, and that decoder then mirrors it again. *)
(** What a turn of the encoder owes: the encoder stays well formed, its stage is the one it
    had, and a decoder that mirrored it mirrors it again once it received the payload. *)
Definition payload_mirrors (e : Encoder) (p : option Payload) (e' : Encoder) : Prop :=
  enc_wf e' ∧ cursor_ok (staging e') ∧
  Encoder.geometry e' = Encoder.geometry e ∧
  Queue.frame (staging e') = Queue.frame (staging e) ∧
  ∀ d, mirrors d e →
    match p with
    | None => mirrors d e'
    | Some p => ∃ d' r, receive d p = (d', Ok r) ∧ mirrors d' e'
    end.

Lemma keyframe_mirrors e s :
  enc_wf (with_staging e s) → cursor_ok s → Queue.frame s = Queue.frame (staging e) →
  ∃ p e', (let? e := encode_keyframe (with_staging e s) in Ok (Some (Keyframe (output e)), e))
    = Ok (p, e') ∧ payload_mirrors e p e'.
Proof.
  intros Hes Hcs Hfs.
  destruct (encode_keyframe_ok _ Hes) as (e1 & -> & He1 & _ & _ & Hs1 & Hg1 & _ & Hdec).
  cbn [rbind]. do 2 eexists. split; [done|]. unfold payload_mirrors. rewrite Hs1.
  split_and!; try done.
  - destruct Hcs. by split.
  - intros d Hd. destruct (Hdec d Hd) as (d' & rects & Hap & Hm).
    exists d', (Painted rects). unfold receive. by rewrite Hap.
Qed.

Lemma cursor_mirrors e e1 :
  enc_wf e1 → cursor_ok (staging e1) → Encoder.geometry e1 = Encoder.geometry e →
  Queue.frame (staging e1) = Queue.frame (staging e) → (∀ d, mirrors d e → mirrors d e1) →
  ∃ p e', Ok (E:=codec_error) (next_cursor e1) = Ok (p, e') ∧ payload_mirrors e p e'.
Proof.
  intros He1 Hc1 Hg1 Hf1 Hm1. destruct (next_cursor e1) as [p e'] eqn:En.
  destruct (next_cursor_ok e1 p e' He1 Hc1 En) as (? & ? & Href & Hhas & Hg & Hf & Hrec).
  exists p, e'. split; [done|]. split_and!; try congruence; auto. intros d Hd%Hm1.
  assert (Hm' : mirrors d e') by (unfold mirrors in *; rewrite Hg, Href, Hhas; exact Hd).
  specialize (Hrec d). destruct p; [|done]. destruct Hrec as (r & Hr). eauto.
Qed.

Lemma next_payload_ok e :
  enc_wf e → cursor_ok (staging e) →
  ∃ p e', next_payload e = Ok (p, e') ∧ payload_mirrors e p e'.
Proof.
  intros He Hc. unfold next_payload. destruct (take_frame (staging e)) as [taken s] eqn:Et.
  destruct (take_frame_wf e taken s He Et) as (Hes & Hhint & Hcs & Hfs & Hks).
  specialize (Hcs Hc). destruct taken as [hint|].
  - destruct (keyframe_due (with_staging e s)) eqn:Ek; [by apply keyframe_mirrors|].
    unfold keyframe_due in Ek. apply orb_false_elim in Ek as [Hhas%negb_false_iff _].
    destruct (encode_delta_ok _ hint Hes (Hhint hint eq_refl))
      as (e1 & w & -> & He1 & _ & Hh1 & Hs1 & Hg1 & _ & _ & Hnil & Hdec). cbn [rbind].
    destruct w.
    + do 2 eexists. split; [done|]. unfold payload_mirrors. rewrite Hs1. split_and!; try done.
      intros d Hd. destruct (Hdec d Hd Hhas) as (d' & rects & Hap & Hm).
      exists d', (Painted rects). unfold receive. by rewrite Hap.
    + apply cursor_mirrors; rewrite ?Hs1; auto. intros d Hd. unfold mirrors.
      rewrite Hg1, Hh1, (Hnil eq_refl). exact Hd.
  - destruct (_ && _)%bool; [by apply keyframe_mirrors|]. by apply cursor_mirrors.
Qed.
