(* ===== verification/FrameChannel.v ===== *)
(** * The frame channel as a transition system

    An encoder, a decoder and the ordered channel between them, with every
    interleaving of captures, requests, encodings and deliveries; and the
    protective sweep over a run of encoded frames. *)

From stdpp Require Import sets.
From S2P Require Import Prelude.
From S2P Require Import Varint.
From S2P Require Import Zrle.
From S2P Require Import Geometry.
From S2P Require Import Container.
From S2P Require Import Cursor.
From S2P Require Import Queue.
From S2P Require Import TileCopy.
From S2P Require Import Encoder.
From S2P Require Import Decoder.
From S2P Require Import CodecSync.

(** ** The system *)

Record System : Type := mk_system { enc : Encoder; channel : list Payload; dec : Decoder }.

Definition start (config : EncoderConfig) : System :=
  {| enc := Encoder.new config; channel := []; dec := Decoder.new (config_geometry config) |}.

Inductive step : System → System → Prop :=
| step_submit frame damage e e' ch d :
    frame_valid frame → u32_rects damage → submit e frame damage = Ok e' →
    step (mk_system e ch d) (mk_system e' ch d)
| step_cursor_image image e e' ch d :
    0 <= image_width image → 0 <= image_height image →
    0 <= hotspot_x image → 0 <= hotspot_y image → Forall is_u8 (pixels image) →
    submit_cursor_image e image = Ok e' →
    step (mk_system e ch d) (mk_system e' ch d)
| step_cursor_position position e ch d :
    0 <= pos_x position → 0 <= pos_y position →
    step (mk_system e ch d) (mk_system (submit_cursor_position e position) ch d)
| step_request e ch d :
    step (mk_system e ch d) (mk_system (Encoder.request_keyframe e) ch d)
| step_send p e e' ch d :
    next_payload e = Ok (p, e') →
    step (mk_system e ch d) (mk_system e' (ch ++ option_list p) d)
| step_deliver p ch e d d' o :
    receive d p = (d', o) →
    step (mk_system e (p :: ch) d) (mk_system e ch d').

Inductive reachable (config : EncoderConfig) : System → Prop :=
| reachable_start : reachable config (start config)
| reachable_step s s' : reachable config s → step s s' → reachable config s'.

(** ** The invariant *)

(** The decoder once everything in flight has arrived; [None] when a payload on
    the way is refused. *)
Fixpoint drain (d : Decoder) (ch : list Payload) : option Decoder :=
  match ch with
  | [] => Some d
  | p :: ch => match receive d p with (d, Ok _) => drain d ch | _ => None end
  end.

Lemma drain_app d ch p d1 d2 r :
  drain d ch = Some d1 → receive d1 p = (d2, Ok r) → drain d (ch ++ [p]) = Some d2.
Proof.
  revert d. induction ch as [|q ch IH]; intros d Hd Hr; cbn [drain app] in *.
  { simplify_eq. by rewrite Hr. }
  destruct (receive d q) as [d0 [r0|e0|]]; [|discriminate..]. by apply IH.
Qed.

Record system_ok (s : System) : Prop := {
  system_enc : enc_wf (enc s);
  system_cursor : cursor_ok (staging (enc s));
  system_drains : ∃ d, drain (dec s) (channel s) = Some d ∧ mirrors d (enc s);
}.

Lemma start_ok config :
  wf (config_geometry config) → is_u32 (config_refresh_interval config) →
  system_ok (start config).
Proof.
  intros Hwf Hi. split; cbn [enc dec channel start].
  - by apply new_enc_wf.
  - split; discriminate.
  - eexists. split; [reflexivity|]. split_and!; try done. cbn.
    rewrite bytes_of_zeroes. f_equal. unfold frame_bytes.
    pose proof (pixel_count_pos _ Hwf). lia.
Qed.

(** A new encoder state whose reference the old one had. *)
Lemma mirrors_same d e e' :
  Encoder.geometry e' = Encoder.geometry e → reference e' = reference e →
  has_reference e' = has_reference e → mirrors d e → mirrors d e'.
Proof. unfold mirrors. by intros -> -> ->. Qed.

Lemma submit_cursor_ok e f damage e' :
  enc_wf e → frame_valid f → submit e f damage = Ok e' →
  cursor_ok (staging e) → cursor_ok (staging e').
Proof.
  intros He Hv H []. pose proof (submit_fits e f damage e' Hv H) as Hfit.
  rewrite submit_ok in H by (done || apply Hv). injection H as <-. by split.
Qed.

Lemma write_image_within image bytes :
  0 <= image_width image → 0 <= image_height image →
  0 <= hotspot_x image → 0 <= hotspot_y image →
  write_image image = Ok bytes → within_limits image.
Proof.
  intros Hw Hh Hx Hy H. unfold write_image in H.
  destruct (outside_limits _ _ _ _) eqn:El; [discriminate|].
  apply outside_limits_false in El as (? & ? & ? & ?); [|done..].
  destruct (_ =? _) eqn:Ez in H; [|discriminate]. bool_to_prop. unfold within_limits. lia.
Qed.

Lemma system_ok_step s s' : system_ok s → step s s' → system_ok s'.
Proof.
  intros [He Hc (d0 & Hdr & Hm)] H. destruct H; cbn [enc channel dec] in *.
  - destruct (submit_wf e frame damage e') as (He' & Hg & Hr & Hh & _); [done..|].
    split; [done|by apply (submit_cursor_ok e frame damage)|].
    exists d0. split; [done|]. by apply (mirrors_same _ e).
  - unfold submit_cursor_image in *. rbind_inv. split; cbn.
    + apply with_staging_wf; [done|done|apply He].
    + destruct Hc. split; [|done]. intros _. exists image. cbn.
      apply read_write_image_self; [|done|done]. by eapply write_image_within.
    + eauto.
  - split; cbn.
    + apply with_staging_wf; [done|done|apply He].
    + destruct Hc. split; [done|]. intros _. eexists. by apply read_write_position_self.
    + eauto.
  - split; cbn; [|by destruct Hc|by eauto]. apply with_staging_wf; [done|done|apply He].
  - destruct (next_payload_ok e He Hc) as (p' & e1 & Hn & He1 & Hc1 & _ & _ & Hdec).
    match goal with H : next_payload e = Ok (p, e') |- _ => rewrite H in Hn end.
    injection Hn as <- <-.
    specialize (Hdec d0 Hm). split; [done|done|]. cbn.
    destruct p as [p|]; cbn [option_list].
    + destruct Hdec as (d1 & r & Hr & Hm1). exists d1. split; [|done]. by eapply drain_app.
    + rewrite app_nil_r. eauto.
  - split; [done|done|]. cbn in *. match goal with H : receive d p = (d', o) |- _ => rewrite H in Hdr end.
    destruct o; [|discriminate..]. eauto.
Qed.

Lemma reachable_ok config s :
  wf (config_geometry config) → is_u32 (config_refresh_interval config) →
  reachable config s → system_ok s.
Proof. intros ? ? H. induction H; eauto using start_ok, system_ok_step. Qed.

(** ** The protective sweep *)

(** A turn of a capture loop that keeps seeing the same screen: it submits the
    frame with a damage hint, right or wrong, and writes what is due. *)
Definition turn (e : Encoder) (frame : Frame) (hint : list Rect)
    : result codec_error (option Payload * Encoder) :=
  let? e := submit e frame (Some hint) in next_payload e.

Fixpoint turns (e : Encoder) (frame : Frame) (hints : list (list Rect))
    : result codec_error Encoder :=
  match hints with
  | [] => Ok e
  | hint :: hints =>
      let? (p, e) := turn e frame hint in turns e frame hints
  end.

(** The pixels of these tiles are the source's. *)
Definition converged (e : Encoder) (src : list Z) (tiles : Z → Prop) : Prop :=
  let g := Encoder.geometry e in
  ∀ px py, 0 <= px < width g → 0 <= py < height g → tiles (tile_of g px py) →
    zget (reference e) (py * width g + px) = zget src (py * width g + px).

Lemma next_cursor_keeps e p e' :
  next_cursor e = (p, e') →
  reference e' = reference e ∧ sweep e' = sweep e ∧ refresh_interval e' = refresh_interval e.
Proof.
  unfold next_cursor, take_cursor_image, take_cursor_position. intros H.
  repeat case_match; by simplify_eq.
Qed.

(** With a frame pending, the reference becomes it, or is advanced by a delta. *)
Lemma next_payload_frame e :
  enc_wf e → frame_pending (staging e) = true →
  ∃ p e', next_payload e = Ok (p, e') ∧ refresh_interval e' = refresh_interval e ∧
    (reference e' = Queue.frame (staging e) ∨
     sweep e' = next_sweep (Encoder.geometry e) (refresh_interval e) (sweep e) ∧
     delta_reference e e' (Queue.hint (staging e))).
Proof.
  intros He Hp. unfold next_payload.
  destruct (take_frame (staging e)) as [taken s] eqn:Et.
  destruct (take_frame_wf e taken s He Et) as (Hes & Hhint & _ & Hfs & _).
  unfold take_frame in Et. rewrite Hp in Et. cbn [negb] in Et. injection Et as <- <-.
  set (e0 := with_staging e _) in *. destruct (keyframe_due e0).
  - destruct (encode_keyframe_ok e0 Hes) as (e1 & -> & _ & Hr & _ & _ & _ & Hi & _). cbn [rbind].
    do 2 eexists. split; [done|]. split; [done|]. by left.
  - destruct (encode_delta_ok e0 (Queue.hint (staging e)) Hes (Hhint _ eq_refl))
      as (e1 & w & -> & _ & Hd & _ & _ & _ & Hi & Hsw & _). cbn [rbind].
    destruct w; [do 2 eexists; split; [done|]; split; [done|]; by right|].
    destruct (next_cursor e1) as [p e'] eqn:En.
    destruct (next_cursor_keeps e1 p e' En) as (Hr & Hs & Hi').
    exists p, e'. split; [done|]. split; [by rewrite Hi'|]. right. split; [by rewrite Hs|].
    unfold delta_reference in *. by rewrite Hr.
Qed.

Section sweep.
Context (g : Geometry) (Hwf : wf g) (frame : Frame) (interval : Z).
Context (Hframe : frame_valid frame) (Hfits : frame_fits g frame).
Context (Hinterval : is_u32 interval) (Hpos : interval ≠ 0).

Local Abbreviation src := (capture (frame_pixels frame) (width g) (stride frame) (height g)).
Local Abbreviation c := (tile_count g).
Local Abbreviation s := (div_ceil (tile_count g) interval).

Record sweeping (e : Encoder) : Prop := {
  sweeping_wf : enc_wf e;
  sweeping_cursor : cursor_ok (staging e);
  sweeping_geometry : Encoder.geometry e = g;
  sweeping_interval : refresh_interval e = interval;
}.

Lemma turn_ok e hint :
  sweeping e → u32_rects (Some hint) →
  ∃ p e', turn e frame hint = Ok (p, e') ∧ sweeping e' ∧
    (converged e' src (λ _, True) ∨
     sweep e' = (sweep e + s) mod c ∧
     ∀ tiles, converged e src tiles →
       converged e' src (λ i, tiles i ∨ ∃ k, 0 <= k < s ∧ i = (sweep e + k) mod c)).
Proof.
  intros [He Hc Hg Hi] Hu. unfold turn.
  rewrite submit_ok by (rewrite ?Hg; done || apply Hframe). cbn [rbind].
  set (e0 := with_staging e _).
  destruct (submit_wf e frame (Some hint) e0 He Hframe Hu) as (He0 & Hg0 & Hr0 & _ & Hf0).
  { rewrite submit_ok by (rewrite ?Hg; done || apply Hframe). done. }
  assert (Hc0 : cursor_ok (staging e0)) by (destruct Hc; by split).
  destruct (next_payload_ok e0 He0 Hc0) as (p & e' & Hn & He' & Hc' & Hg' & _ & _).
  destruct (next_payload_frame e0 He0 eq_refl) as (p' & e'' & Hn' & Hi' & Hcase).
  rewrite Hn in Hn'. injection Hn' as <- <-. rewrite Hn. exists p, e'. split; [done|].
  rewrite Hg in *. split; [split; [done|done|congruence|by rewrite Hi', <- Hi]|].
  destruct Hcase as [Hr|[Hsw [_ Hd]]].
  { left. intros px py _ _ _. by rewrite Hr, Hf0. }
  assert (Hi0 : refresh_interval e0 = interval) by exact Hi.
  assert (Hs0 : sweep e0 = sweep e) by done. clearbody e0.
  right. unfold next_sweep in Hsw. rewrite Hg0, Hi0, Hs0 in Hsw.
  rewrite (proj2 (Z.eqb_neq _ _) Hpos) in Hsw. split; [exact Hsw|].
  intros tiles Ht px py Hpx Hpy Hin. rewrite Hg', Hg0 in *.
  destruct (Hd px py) as [Hyes Hno]; [done..|]. rewrite Hf0, Hr0 in *.
  destruct Hin as [Hin|(k & Hk & Hik)].
  - (* the tile already agreed: compared or not, it still does *)
    unfold converged in Ht. rewrite Hg in Ht. pose proof (Ht px py Hpx Hpy Hin) as Hold.
    destruct (decide (zget (reference e') (py * width g + px) = zget src (py * width g + px)))
      as [|Hne]; [done|].
    exfalso. apply Hne. rewrite Hno; [done|]. intros Hcmp. by apply Hne, Hyes.
  - apply Hyes. left. rewrite Hg0, Hi0, Hs0. split; [done|].
    pose proof (slice_le_count g interval Hwf Hinterval Hpos).
    exists k. split; [lia|done].
Qed.

(** Where the sweep has been after [n] turns. *)
Definition visited (s0 n i : Z) : Prop := ∃ k, 0 <= k < n * s ∧ i = (s0 + k) mod c.

Lemma turns_ok hints e s0 n :
  sweeping e → Forall (λ h, u32_rects (Some h)) hints → 0 <= n →
  (converged e src (λ _, True) ∨ sweep e = (s0 + n * s) mod c ∧ converged e src (visited s0 n)) →
  ∃ e', turns e frame hints = Ok e' ∧ sweeping e' ∧
    (converged e' src (λ _, True) ∨ converged e' src (visited s0 (n + zlen hints))).
Proof.
  revert e n. induction hints as [|hint hints IH]; intros e n He Hu Hn Hinv; cbn [turns].
  { exists e. rewrite Z.add_0_r. split_and!; auto. destruct Hinv as [|[_ ?]]; auto. }
  apply Forall_cons_1 in Hu as [Hu0 Hu].
  destruct (turn_ok e hint He Hu0) as (p & e1 & -> & He1 & Hcase). cbn [rbind].
  assert (Hnext : converged e1 src (λ _, True) ∨
    sweep e1 = (s0 + (n + 1) * s) mod c ∧ converged e1 src (visited s0 (n + 1))).
  { destruct Hcase as [|[Hsw Hstep]]; [by left|]. destruct Hinv as [Hall|[Hs0 Hvis]].
    - left. intros px py Hpx Hpy _. by apply (Hstep _ Hall); auto.
    - right. split.
      + rewrite Hsw, Hs0, Zplus_mod_idemp_l. f_equal. lia.
      + intros px py Hpx Hpy (k & Hk & Hik). apply (Hstep _ Hvis); [done..|].
        destruct (Z.lt_ge_cases k (n * s)); [left; exists k; split; [lia|done]|].
        right. exists (k - n * s). split; [lia|].
        rewrite Hik, Hs0, Zplus_mod_idemp_l. f_equal. lia. }
  destruct (IH e1 (n + 1) He1 Hu ltac:(lia) Hnext) as (e' & -> & He' & Hend).
  exists e'. cbn [length]. split_and!; auto.
  replace (n + Z.of_nat (S (length hints))) with (n + 1 + zlen hints) by lia. done.
Qed.

Lemma visited_all s0 n i : interval <= n → 0 <= i < c → visited s0 n i.
Proof.
  intros Hn Hi. pose proof (tile_count_range g Hwf) as Hc. unfold is_u32 in Hinterval.
  destruct (div_ceil_spec c interval) as (_ & _ & Hs); [lia..|].
  exists ((i - s0) mod c). split.
  - pose proof (Z.mod_pos_bound (i - s0) c). nia.
  - rewrite Zplus_mod_idemp_r. replace (s0 + (i - s0)) with i by lia. symmetry.
    by apply Z.mod_small.
Qed.

Lemma sweep_repairs e hints :
  sweeping e → Forall (λ h, u32_rects (Some h)) hints → interval <= zlen hints →
  ∃ e', turns e frame hints = Ok e' ∧ reference e' = src.
Proof.
  intros He Hu Hlen. destruct (turns_ok hints e (sweep e) 0 He Hu) as (e' & Hok & He' & Hend).
  { lia. }
  { right. rewrite Z.mul_0_l, Z.add_0_r. split.
    - symmetry. apply Z.mod_small. rewrite <- (sweeping_geometry e He).
      apply (enc_sweep e (sweeping_wf e He)).
    - intros px py _ _ (k & Hk & _). lia. }
  exists e'. split; [done|]. destruct He' as [Hwe' _ Hg' _].
  pose proof (enc_reference e' Hwe') as Hlr. rewrite Hg' in Hlr.
  pose proof Hwf as (Hw & Hh & _). destruct Hfits as (Hs & Hl & _).
  apply (frame_ext g); [lia|done|apply capture_length; lia|].
  intros px py Hpx Hpy. unfold converged in Hend. rewrite Hg' in Hend.
  destruct Hend as [Hend|Hend]; apply Hend; auto.
  apply visited_all; [lia|]. by apply tile_of_range.
Qed.
End sweep.

(** ** Properties *)

(** C2: whatever the interleaving of captures, cursor updates, keyframe requests,
    encodings and deliveries, the payload at the head of the channel is accepted
    by the decoder it reaches: never refused, and never a panic. *)
Theorem every_delivery_is_accepted config s p ch :
  wf (config_geometry config) → is_u32 (config_refresh_interval config) →
  reachable config s → channel s = p :: ch →
  ∃ d' r, receive (dec s) p = (d', Ok r).
Proof.
  intros Hwf Hi Hs Hch. destruct (reachable_ok config s Hwf Hi Hs) as [_ _ (d & Hd & _)].
  rewrite Hch in Hd. cbn [drain] in Hd.
  destruct (receive (dec s) p) as [d' [r|e|]]; [eauto|discriminate..].
Qed.

(** C1: once the channel is empty the viewer's frame is byte for byte the
    encoder's reference, and both ends agree on whether there is a frame at all. *)
Theorem drained_viewer_holds_the_reference config s :
  wf (config_geometry config) → is_u32 (config_refresh_interval config) →
  reachable config s → channel s = [] →
  Decoder.frame (dec s) = bytes_of_u32s (reference (enc s)) ∧
  has_frame (dec s) = has_reference (enc s).
Proof.
  intros Hwf Hi Hs Hch. destruct (reachable_ok config s Hwf Hi Hs) as [_ _ (d & Hd & Hm)].
  rewrite Hch in Hd. cbn in Hd. injection Hd as <-. destruct Hm as (_ & ? & ?). done.
Qed.

(** In every reachable state the encoder hands out a payload or says there is
    none; no slice index of it is ever out of range. *)
Theorem encoder_never_panics config s :
  wf (config_geometry config) → is_u32 (config_refresh_interval config) →
  reachable config s → ∃ p e', next_payload (enc s) = Ok (p, e').
Proof.
  intros Hwf Hi Hs. destruct (reachable_ok config s Hwf Hi Hs) as [He Hc _].
  destruct (next_payload_ok (enc s) He Hc) as (p & e' & Hn & _). eauto.
Qed.

(** C33: damage is only a hint.  However wrong the hints of an unchanging screen
    are, once [refresh_interval] frames have been encoded the reference is the
    screen, so a viewer that holds the reference shows the screen. *)
Theorem sweep_covers_the_grid e frame hints :
  enc_wf e → cursor_ok (staging e) → frame_valid frame → frame_fits (Encoder.geometry e) frame →
  refresh_interval e ≠ 0 → Forall (λ h, u32_rects (Some h)) hints →
  refresh_interval e <= zlen hints →
  ∃ e', turns e frame hints = Ok e' ∧
    reference e' = capture (frame_pixels frame) (width (Encoder.geometry e)) (stride frame)
                     (height (Encoder.geometry e)).
Proof.
  intros He Hc Hf Hfit Hne Hu Hlen.
  apply (sweep_repairs (Encoder.geometry e) (enc_geometry e He) frame (refresh_interval e));
    auto; [apply He|by split].
Qed.

(** ** Witnesses *)

(** A stream of one pixel: a capture is submitted, and its keyframe is on the
    way. *)
Definition one_pixel : Geometry :=
  {| width := 1; height := 1; tile_size := Sixteen; pixel_format := Xrgb8888;
     columns := 1; rows := 1 |}.
Definition one_pixel_config : EncoderConfig :=
  {| config_geometry := one_pixel; config_refresh_interval := 2 |}.
Definition one_pixel_frame : Frame := {| frame_pixels := [1; 2; 3; 255]; stride := 4 |}.

Definition ok_state {A} (m : result codec_error A) (default : A) : A :=
  match m with Ok a => a | _ => default end.
Definition captured : Encoder :=
  ok_state (submit (Encoder.new one_pixel_config) one_pixel_frame None)
    (Encoder.new one_pixel_config).
Definition in_flight : System :=
  match next_payload captured with
  | Ok (Some p, e) => mk_system e [p] (Decoder.new one_pixel)
  | _ => start one_pixel_config
  end.

Lemma one_pixel_valid : wf one_pixel ∧ is_u32 (config_refresh_interval one_pixel_config).
Proof. unfold wf, is_u32, MAX_DIMENSION. cbn. split_and!; lia || done. Qed.

Lemma one_pixel_frame_valid : frame_valid one_pixel_frame.
Proof. split; [repeat constructor; unfold is_u8; lia|done]. Qed.

Lemma in_flight_reachable : reachable one_pixel_config in_flight.
Proof.
  apply reachable_step with (mk_system captured [] (Decoder.new one_pixel)).
  - apply reachable_step with (start one_pixel_config); [constructor|].
    apply (step_submit one_pixel_frame None); [apply one_pixel_frame_valid|done|].
    vm_compute. reflexivity.
  - assert (∃ p e, next_payload captured = Ok (Some p, e)) as (p & e & Hn)
      by (do 2 eexists; vm_compute; reflexivity).
    unfold in_flight. rewrite Hn. by apply (step_send (Some p) captured e []).
Qed.

Lemma every_delivery_is_accepted_witness :
  channel in_flight ≠ [] ∧
  ∀ p ch, channel in_flight = p :: ch → ∃ d' r, receive (dec in_flight) p = (d', Ok r).
Proof.
  split; [vm_compute; discriminate|]. intros p ch Hch.
  exact (every_delivery_is_accepted one_pixel_config in_flight p ch
    (proj1 one_pixel_valid) (proj2 one_pixel_valid) in_flight_reachable Hch).
Defined.

Lemma drained_viewer_holds_the_reference_witness :
  Decoder.frame (dec (start one_pixel_config)) = [0; 0; 0; 0] ∧
  Decoder.frame (dec (start one_pixel_config))
  = bytes_of_u32s (reference (enc (start one_pixel_config))).
Proof.
  split; [vm_compute; reflexivity|].
  exact (proj1 (drained_viewer_holds_the_reference one_pixel_config (start one_pixel_config)
    (proj1 one_pixel_valid) (proj2 one_pixel_valid) (reachable_start _) eq_refl)).
Defined.

Lemma encoder_never_panics_witness :
  has_reference (enc in_flight) = true ∧ ∃ p e', next_payload (enc in_flight) = Ok (p, e').
Proof.
  split; [vm_compute; reflexivity|].
  exact (encoder_never_panics one_pixel_config in_flight
    (proj1 one_pixel_valid) (proj2 one_pixel_valid) in_flight_reachable).
Defined.

Lemma sweep_covers_the_grid_witness :
  ∃ e', turns (Encoder.new one_pixel_config) one_pixel_frame [[]; []] = Ok e' ∧
    reference e' = capture [1; 2; 3; 255] 1 4 1.
Proof.
  apply (sweep_covers_the_grid (Encoder.new one_pixel_config) one_pixel_frame [[]; []]).
  - apply new_enc_wf; apply one_pixel_valid.
  - split; discriminate.
  - apply one_pixel_frame_valid.
  - unfold frame_fits, USIZE_MAX. cbn. lia.
  - discriminate.
  - repeat apply Forall_cons_2; try apply Forall_nil_2; intros ? ? [= <-] []%not_elem_of_nil.
  - cbn. lia.
Defined.
