(* ===== verification/Record.v ===== *)
(** * Records: what delimits a payload on any of the five channels

    [crates/display-protocol/src/record.rs].  The transport is a script: what
    each call of [read] answers, and how long it takes.  [crc32c] is the
    [crc32c] crate's function and a parameter here. *)

From S2P Require Import Prelude.

(** ** Channels and headers *)

Definition HEADER_LEN : Z := 24.

Inductive Channel : Type := Control | Frame | Input | Clipboard | Audio.

#[export] Instance channel_eq_dec : EqDecision Channel.
Proof. solve_decision. Defined.

Definition as_wire (c : Channel) : Z :=
  match c with Control => 1 | Frame => 2 | Input => 3 | Clipboard => 4 | Audio => 5 end.

Inductive io_kind : Type := UnexpectedEof | TimedOut | OtherKind (kind : Z).

Inductive record_error : Type :=
| MalformedHeader (header_len : Z)
| UnknownChannel (value : Z)
| TooLarge (channel : Channel) (length cap : Z)
| ChecksumMismatch (expected found : Z)
| Closed
| Idle
| Io (kind : io_kind).

Definition from_wire (value : Z) : result record_error Channel :=
  if value =? 1 then Ok Control
  else if value =? 2 then Ok Frame
  else if value =? 3 then Ok Input
  else if value =? 4 then Ok Clipboard
  else if value =? 5 then Ok Audio
  else Err (UnknownChannel value).

Record Header : Type := mk_header {
  channel : Channel;
  message_type : Z;
  header_length : Z;
  sequence : Z;
  base : Z;
  checksum : Z;
  generation : Z;
}.

#[export] Instance header_eq_dec : EqDecision Header.
Proof. solve_decision. Defined.

Definition encode (h : Header) : list Z :=
  [HEADER_LEN] ++ [as_wire (channel h)] ++ to_le 2 (message_type h)
    ++ to_le 4 (header_length h) ++ to_le 4 (sequence h) ++ to_le 4 (base h)
    ++ to_le 4 (checksum h) ++ to_le 4 (generation h).

(** The argument is an array of [HEADER_LEN] bytes; any other list panics. *)
Definition decode (bytes : list Z) : result record_error (Header * Z) :=
  match bytes with
  | [b0; b1; b2; b3; b4; b5; b6; b7; b8; b9; b10; b11; b12; b13; b14; b15;
     b16; b17; b18; b19; b20; b21; b22; b23] =>
      if b0 <? HEADER_LEN then Err (MalformedHeader b0)
      else
        let? channel := from_wire b1 in
        Ok ({| channel := channel;
               message_type := from_le [b2; b3];
               header_length := from_le [b4; b5; b6; b7];
               sequence := from_le [b8; b9; b10; b11];
               base := from_le [b12; b13; b14; b15];
               checksum := from_le [b16; b17; b18; b19];
               generation := from_le [b20; b21; b22; b23] |}, b0 - HEADER_LEN)
  | _ => Panic
  end.

(** ** Limits *)

Definition CONTROL_MAX_PAYLOAD : Z := 64 * 1024.
Definition INPUT_MAX_PAYLOAD : Z := 4 * 1024.
Definition CLIPBOARD_MAX_PAYLOAD : Z := 64 * 1024.
Definition AUDIO_MAX_PAYLOAD : Z := 16 * 1024.
Definition FRAME_PAYLOAD_CEILING : Z := 64 * 1024 * 1024.
Definition FRAME_PAYLOAD_SLACK : Z := 64 * 1024.

Record Limits : Type := mk_limits { frame_limit : Z }.

Definition set_geometry (l : Limits) (width height : Z) : Limits :=
  {| frame_limit :=
       Z.min (u32_saturating_add (u32_saturating_mul (u32_saturating_mul width height) 4)
                FRAME_PAYLOAD_SLACK) FRAME_PAYLOAD_CEILING |}.

Definition limits (width height : Z) : Limits :=
  set_geometry {| frame_limit := 0 |} width height.

Definition for_channel (l : Limits) (c : Channel) : Z :=
  match c with
  | Control => CONTROL_MAX_PAYLOAD
  | Frame => frame_limit l
  | Input => INPUT_MAX_PAYLOAD
  | Clipboard => CLIPBOARD_MAX_PAYLOAD
  | Audio => AUDIO_MAX_PAYLOAD
  end.

(** ** Transports *)

(** What one call of [Read::read] answers: bytes (of which as many as the buffer
    holds are taken, the rest staying for the next call), [Ok(0)], or an error. *)
Inductive event : Type :=
| Data (bytes : list Z)
| Eof
| Interrupted
| NotYet
| Failed (kind : Z).

(** The script, with the milliseconds each call takes, and the clock. *)
Record Reader : Type := mk_reader { events : list (Z * event); clock : Z }.

Inductive io_outcome : Type :=
| Got (bytes : list Z)
| Retry
| NothingYet
| Broken (kind : Z).

(** One [read] into a buffer of [room > 0] bytes; a script that ran out is a peer
    that hung up. *)
Definition read_once (r : Reader) (room : Z) : io_outcome * Reader :=
  match events r with
  | [] => (Got [], r)
  | (delay, e) :: rest =>
      let now := clock r + delay in
      match e with
      | Data bytes =>
          if zlen bytes <=? room then (Got bytes, mk_reader rest now)
          else (Got (take (Z.to_nat room) bytes),
                mk_reader ((0, Data (drop (Z.to_nat room) bytes)) :: rest) now)
      | Eof => (Got [], mk_reader rest now)
      | Interrupted => (Retry, mk_reader rest now)
      | NotYet => (NothingYet, mk_reader rest now)
      | Failed kind => (Broken kind, mk_reader rest now)
      end
  end.

(** ** Reading *)

Definition RECORD_COMPLETION : Z := 5000.

(** The loop of [fill]: [room] bytes are still missing.  Every turn uses an event
    of the script up or fills the buffer. *)
Fixpoint fill_loop (fuel : nat) (r : Reader) (room deadline : Z)
    : Reader * result record_error (list Z) :=
  if room <=? 0 then (r, Ok [])
  else
    match fuel with
    | O => (r, Panic)
    | S fuel =>
        match read_once r room with
        | (Got [], r) => (r, Err (Io UnexpectedEof))
        | (Got bytes, r) =>
            let '(r, rest) := fill_loop fuel r (room - zlen bytes) deadline in
            (r, let? rest := rest in Ok (bytes ++ rest))
        | (Retry, r) => fill_loop fuel r room deadline
        | (NothingYet, r) =>
            if deadline <=? clock r then (r, Err (Io TimedOut))
            else fill_loop fuel r room deadline
        | (Broken kind, r) => (r, Err (Io (OtherKind kind)))
        end
    end.

Definition fill (r : Reader) (room : Z) : Reader * result record_error (list Z) :=
  fill_loop (S (length (events r))) r room (clock r + RECORD_COMPLETION).

(** The loop of [read_header_bytes] before the first byte. *)
Fixpoint first_bytes (fuel : nat) (r : Reader) : Reader * result record_error (list Z) :=
  match fuel with
  | O => (r, Panic)
  | S fuel =>
      match read_once r HEADER_LEN with
      | (Got [], r) => (r, Err Closed)
      | (Got bytes, r) => (r, Ok bytes)
      | (Retry, r) => first_bytes fuel r
      | (NothingYet, r) => (r, Err Idle)
      | (Broken kind, r) => (r, Err (Io (OtherKind kind)))
      end
  end.

Definition read_header_bytes (r : Reader) : Reader * result record_error (list Z) :=
  match first_bytes (S (length (events r))) r with
  | (r, Ok first) =>
      let '(r, rest) := fill r (HEADER_LEN - zlen first) in
      (r, let? rest := rest in Ok (first ++ rest))
  | (r, Err e) => (r, Err e)
  | (r, Panic) => (r, Panic)
  end.

Section crc.
Context (crc32c : list Z → Z).

Definition for_payload (channel : Channel) (message_type sequence base generation : Z)
    (payload : list Z) : Header :=
  {| channel := channel; message_type := message_type;
     header_length := Z.min (zlen payload) U32_MAX;
     sequence := sequence; base := base; checksum := crc32c payload;
     generation := generation |}.

Record Record : Type := mk_record { header : Header; payload : list Z }.

Definition new_record (channel : Channel) (message_type sequence base generation : Z)
    (payload : list Z) : Record :=
  {| header := for_payload channel message_type sequence base generation payload;
     payload := payload |}.

(** [read] after the header's bytes are in. *)
Definition read_body (r : Reader) (l : Limits) (bytes : list Z)
    : Reader * result record_error (Header * list Z) :=
  match decode bytes with
  | Err e => (r, Err e)
  | Panic => (r, Panic)
  | Ok (h, extra) =>
      let cap := for_channel l (channel h) in
      if cap <? header_length h then (r, Err (TooLarge (channel h) (header_length h) cap))
      else
        match (if 0 <? extra then fill r extra else (r, Ok [])) with
        | (r, Err e) => (r, Err e)
        | (r, Panic) => (r, Panic)
        | (r, Ok _) =>
            match fill r (header_length h) with
            | (r, Err e) => (r, Err e)
            | (r, Panic) => (r, Panic)
            | (r, Ok payload) =>
                let found := crc32c payload in
                if negb (found =? checksum h)
                then (r, Err (ChecksumMismatch (checksum h) found))
                else (r, Ok (h, payload))
            end
        end
  end.

Definition read (r : Reader) (l : Limits) : Reader * result record_error (Header * list Z) :=
  match read_header_bytes r with
  | (r, Err e) => (r, Err e)
  | (r, Panic) => (r, Panic)
  | (r, Ok bytes) => read_body r l bytes
  end.
End crc.

(** ** Writing *)

(** A sink that takes [room] more bytes, if it is bounded, and may refuse a
    flush. *)
Record Writer : Type := mk_writer { written : list Z; room : option Z; flushes : bool }.

Definition write_all (w : Writer) (bytes : list Z) : Writer * result record_error unit :=
  match room w with
  | None => (mk_writer (written w ++ bytes) None (flushes w), Ok tt)
  | Some n =>
      if zlen bytes <=? n
      then (mk_writer (written w ++ bytes) (Some (n - zlen bytes)) (flushes w), Ok tt)
      else (mk_writer (written w ++ take (Z.to_nat n) bytes) (Some 0) (flushes w),
            Err (Io (OtherKind 0)))
  end.

Definition flush (w : Writer) : result record_error unit :=
  if flushes w then Ok tt else Err (Io (OtherKind 1)).

Definition write_payload (w : Writer) (h : Header) (payload : list Z) (l : Limits)
    : Writer * result record_error unit :=
  let cap := for_channel l (channel h) in
  if cap <? header_length h then (w, Err (TooLarge (channel h) (header_length h) cap))
  else
    match write_all w (encode h) with
    | (w, Ok _) =>
        match write_all w payload with
        | (w, Ok _) => (w, flush w)
        | (w, Err e) => (w, Err e)
        | (w, Panic) => (w, Panic)
        end
    | (w, Err e) => (w, Err e)
    | (w, Panic) => (w, Panic)
    end.

Definition write (w : Writer) (rec : Record) (l : Limits) : Writer * result record_error unit :=
  write_payload w (header rec) (payload rec) l.

(** ** Headers read back *)

Definition header_typed (h : Header) : Prop :=
  is_u16 (message_type h) ∧ is_u32 (header_length h) ∧ is_u32 (sequence h) ∧
  is_u32 (base h) ∧ is_u32 (checksum h) ∧ is_u32 (generation h).

Lemma from_wire_as_wire c : from_wire (as_wire c) = Ok c.
Proof. by destruct c. Qed.

(** A header as a newer minor writes it: longer by [k] bytes it appends. *)
Definition encode_longer (h : Header) (k : Z) : list Z := (HEADER_LEN + k) :: tail (encode h).

Lemma encode_longer_0 h : encode_longer h 0 = encode h.
Proof. done. Qed.

Lemma length_encode h : zlen (encode h) = HEADER_LEN.
Proof. done. Qed.

Lemma length_encode_longer h k : zlen (encode_longer h k) = HEADER_LEN.
Proof. done. Qed.

Lemma decode_longer h k :
  header_typed h → 0 <= k → decode (encode_longer h k) = Ok (h, k).
Proof.
  intros (Hm & Hl & Hs & Hb & Hc & Hg) Hk. unfold encode_longer, encode. cbn [app tail].
  destruct (to_le_2 (message_type h) Hm) as (m0 & m1 & -> & Em).
  destruct (to_le_4 (header_length h) Hl) as (l0 & l1 & l2 & l3 & -> & El).
  destruct (to_le_4 (sequence h) Hs) as (s0 & s1 & s2 & s3 & -> & Es).
  destruct (to_le_4 (base h) Hb) as (a0 & a1 & a2 & a3 & -> & Ea).
  destruct (to_le_4 (checksum h) Hc) as (c0 & c1 & c2 & c3 & -> & Ec).
  destruct (to_le_4 (generation h) Hg) as (g0 & g1 & g2 & g3 & -> & Eg).
  cbn [app]. unfold decode.
  replace (HEADER_LEN + k <? HEADER_LEN) with false by (symmetry; apply Z.ltb_ge; lia).
  rewrite from_wire_as_wire, Em, El, Es, Ea, Ec, Eg. cbn [rbind].
  replace (HEADER_LEN + k - HEADER_LEN) with k by lia. by destruct h.
Qed.

Lemma header_decode_no_panic bytes : zlen bytes = HEADER_LEN → no_panic (decode bytes).
Proof.
  unfold HEADER_LEN. intros Hlen.
  do 24 (destruct bytes as [|? bytes]; [cbn in Hlen; lia|]).
  destruct bytes; [|cbn [length] in Hlen; lia]. unfold decode.
  case_if; [discriminate|]. unfold from_wire. repeat case_if; discriminate.
Qed.

(** ** Transports that deliver *)

(** The bytes a script delivers, in order. *)
Fixpoint stream (evs : list (Z * event)) : list Z :=
  match evs with
  | [] => []
  | (_, Data bytes) :: evs => bytes ++ stream evs
  | _ :: evs => stream evs
  end.

Fixpoint total_delay (evs : list (Z * event)) : Z :=
  match evs with [] => 0 | (delay, _) :: evs => delay + total_delay evs end.

(** Bytes, interruptions and expired polls only: the peer is alive. *)
Definition calm (evs : list (Z * event)) : Prop :=
  Forall (λ '(delay, e), 0 <= delay ∧
    match e with Data bytes => bytes ≠ [] | Interrupted | NotYet => True | _ => False end) evs.

(** The first thing a poll yields is a byte. *)
Fixpoint begins (evs : list (Z * event)) : Prop :=
  match evs with
  | (_, Interrupted) :: evs => begins evs
  | (_, Data _) :: _ => True
  | _ => False
  end.

Lemma total_delay_nonneg evs : calm evs → 0 <= total_delay evs.
Proof.
  induction evs as [|[d e] evs IH]; intros Hc; [cbn; lia|].
  apply Forall_cons_1 in Hc as [[? _] Hc]. cbn. specialize (IH Hc). lia.
Qed.

(** What the reader is left with. *)
Record advanced (r r' : Reader) (n : Z) : Prop := {
  advanced_calm : calm (events r');
  advanced_stream : stream (events r') = drop (Z.to_nat n) (stream (events r));
  advanced_clock : clock r' + total_delay (events r') <= clock r + total_delay (events r);
  advanced_later : clock r <= clock r';
}.

Lemma advanced_trans r1 r2 r3 n m :
  0 <= n → 0 <= m → advanced r1 r2 n → advanced r2 r3 m → advanced r1 r3 (n + m).
Proof.
  intros Hn Hm [] [Hc Hs Ht Hl]. split; auto; try lia.
  rewrite Hs, advanced_stream0, drop_drop. f_equal. lia.
Qed.

Lemma read_once_data evs now delay bytes room :
  calm ((delay, Data bytes) :: evs) → 0 < room →
  ∃ r', read_once (mk_reader ((delay, Data bytes) :: evs) now) room
        = (Got (take (Z.to_nat room) bytes), r') ∧
    take (Z.to_nat room) bytes ≠ [] ∧
    advanced (mk_reader ((delay, Data bytes) :: evs) now) r' (Z.min room (zlen bytes)) ∧
    (zlen bytes <= room → events r' = evs).
Proof.
  intros Hc Hroom. pose proof Hc as Hc'. apply Forall_cons_1 in Hc as [[Hd Hne] Hc].
  pose proof (total_delay_nonneg evs Hc) as Ht.
  unfold read_once. cbn [events clock]. destruct (zlen bytes <=? room) eqn:El; bool_to_prop.
  - eexists. rewrite take_ge by lia. split; [done|]. split; [done|]. split; [|done].
    split; cbn [events clock stream total_delay]; auto; try lia.
    rewrite drop_app_ge by lia. replace (_ - _)%nat with 0%nat by lia. by rewrite drop_0.
  - eexists. split; [done|].
    split; [destruct bytes; [done|]; by destruct (Z.to_nat room) eqn:?; [lia|]|].
    split; [|lia]. split; cbn [events clock stream total_delay]; auto; try lia.
    + constructor; [|done]. split; [lia|]. intros Hnil%(f_equal length).
      rewrite length_drop in Hnil. cbn in Hnil. lia.
    + rewrite drop_app_le by lia. f_equal. f_equal. lia.
Qed.

Lemma fill_loop_ok fuel r need deadline :
  calm (events r) → 0 <= need <= zlen (stream (events r)) →
  clock r + total_delay (events r) < deadline → (length (events r) < fuel)%nat →
  ∃ r', fill_loop fuel r need deadline = (r', Ok (take (Z.to_nat need) (stream (events r)))) ∧
    advanced r r' need.
Proof.
  revert r need. induction fuel as [|fuel IH]; intros [evs now] need Hc Hneed Hdl Hfuel; [lia|].
  cbn [events clock] in *. cbn [fill_loop]. destruct (need <=? 0) eqn:E0; bool_to_prop.
  { assert (need = 0) as -> by lia. exists (mk_reader evs now). split; [done|].
    split; cbn; auto; lia. }
  destruct evs as [|[delay e] evs]; [cbn in Hneed; lia|].
  pose proof Hc as Hc'. apply Forall_cons_1 in Hc' as [[Hd He] Hct].
  cbn [total_delay length] in Hdl, Hfuel. pose proof (total_delay_nonneg evs Hct).
  destruct e as [bytes| | | |kind]; [|done| | |done].
  - destruct (read_once_data evs now delay bytes need Hc ltac:(lia)) as (r1 & Hro & Hne & Hadv & Hev).
    rewrite Hro. destruct (take (Z.to_nat need) bytes) as [|b0 got] eqn:Et; [done|]. rewrite <- Et.
    cbn [stream] in Hneed |- *. rewrite length_app in Hneed.
    assert (Hlt : zlen (take (Z.to_nat need) bytes) = Z.min need (zlen bytes))
      by (rewrite length_take; lia). rewrite Hlt.
    destruct (Z.le_gt_cases (zlen bytes) need) as [Hle|Hgt].
    + destruct Hadv as [Hac Has Hat Hal]. cbn [events clock stream total_delay] in *.
      destruct (IH r1 (need - Z.min need (zlen bytes))) as (r' & Hf & Hadv2).
      * done.
      * rewrite (Hev Hle). lia.
      * lia.
      * rewrite (Hev Hle). lia.
      * rewrite Hf. exists r'. cbn [rbind]. rewrite (Hev Hle). split.
        { f_equal. f_equal. rewrite take_ge by lia. rewrite take_app_ge by lia.
          f_equal. f_equal. lia. }
        replace need with (Z.min need (zlen bytes) + (need - Z.min need (zlen bytes))) by lia.
        apply advanced_trans with r1; [lia|lia|by split|done].
    + replace (need - Z.min need (zlen bytes)) with 0 by lia.
      exists r1. rewrite Z.min_l in Hadv by lia. split; [|done].
      rewrite take_app_le by lia. by destruct fuel; cbn; rewrite app_nil_r.
  - cbn [read_once events clock].
    destruct (IH (mk_reader evs (now + delay)) need) as (r' & Hf & [Hac Has Hat Hal]);
      cbn [events clock] in *; [done|done|lia|lia|].
    exists r'. split; [exact Hf|]. split; cbn [events clock stream total_delay]; auto; lia.
  - cbn [read_once events clock].
    replace (deadline <=? now + delay) with false by (symmetry; apply Z.leb_gt; lia).
    destruct (IH (mk_reader evs (now + delay)) need) as (r' & Hf & [Hac Has Hat Hal]);
      cbn [events clock] in *; [done|done|lia|lia|].
    exists r'. split; [exact Hf|]. split; cbn [events clock stream total_delay]; auto; lia.
Qed.

Lemma fill_ok r need :
  calm (events r) → 0 <= need <= zlen (stream (events r)) →
  total_delay (events r) < RECORD_COMPLETION →
  ∃ r', fill r need = (r', Ok (take (Z.to_nat need) (stream (events r)))) ∧ advanced r r' need.
Proof. intros. unfold fill. apply fill_loop_ok; auto; lia. Qed.

Lemma first_bytes_ok fuel r :
  calm (events r) → begins (events r) → (length (events r) < fuel)%nat →
  ∃ r' first, first_bytes fuel r = (r', Ok first) ∧ 1 <= zlen first <= HEADER_LEN ∧
    first = take (length first) (stream (events r)) ∧ advanced r r' (zlen first).
Proof.
  revert r. induction fuel as [|fuel IH]; intros [evs now] Hc Hb Hf; [lia|]. cbn [events] in *.
  destruct evs as [|[delay e] evs]; [done|]. pose proof Hc as Hc'.
  apply Forall_cons_1 in Hc' as [[Hd He] Hct]. cbn [length] in Hf. cbn [first_bytes].
  destruct e as [bytes| | | |kind]; try done.
  - destruct (read_once_data evs now delay bytes HEADER_LEN Hc ltac:(done))
      as (r1 & Hro & Hne & Hadv & _). rewrite Hro.
    assert (Hpos : 0 < HEADER_LEN) by done.
    assert (Hlt : zlen (take (Z.to_nat HEADER_LEN) bytes) = Z.min HEADER_LEN (zlen bytes))
      by (rewrite length_take; lia).
    rewrite <- Hlt in Hadv.
    destruct (take (Z.to_nat HEADER_LEN) bytes) as [|b0 got] eqn:Et; [done|].
    exists r1, (b0 :: got). split; [done|]. split; [cbn [length] in *; lia|]. split; [|done].
    cbn [stream]. rewrite <- Et at 1. rewrite take_app_le by lia.
    assert (Hl : length (b0 :: got) = Nat.min (Z.to_nat HEADER_LEN) (length bytes))
      by (rewrite <- Et, length_take; lia). rewrite Hl.
    destruct (Nat.le_ge_cases (Z.to_nat HEADER_LEN) (length bytes));
      [by rewrite Nat.min_l by lia|]. rewrite Nat.min_r, !take_ge by lia. done.
  - cbn [read_once events clock].
    destruct (IH (mk_reader evs (now + delay))) as (r' & first & Hfb & Hl & Hfi & [Hac Has Hat Hal]);
      cbn [events clock] in *; [done|done|lia|].
    exists r', first. split; [exact Hfb|]. split; [done|]. split; [done|].
    split; cbn [events clock stream total_delay]; auto; lia.
Qed.

Lemma read_header_bytes_ok r head rest :
  calm (events r) → begins (events r) → total_delay (events r) < RECORD_COMPLETION →
  zlen head = HEADER_LEN → stream (events r) = head ++ rest →
  ∃ r', read_header_bytes r = (r', Ok head) ∧ advanced r r' HEADER_LEN.
Proof.
  intros Hc Hb Ht Hlen Hs. unfold read_header_bytes.
  destruct (first_bytes_ok (S (length (events r))) r Hc Hb ltac:(lia))
    as (r1 & first & Hf & Hl & Hfirst & Hadv). rewrite Hf.
  pose proof Hadv as [Hc1 Hs1 Ht1 Hl1].
  destruct (fill_ok r1 (HEADER_LEN - zlen first)) as (r2 & Hf2 & Hadv2); [done| |lia|].
  { rewrite Hs1, length_drop, Hs, length_app. lia. }
  rewrite Hf2. cbn [rbind]. exists r2. split.
  - assert (Hpre : first = take (length first) head)
      by (rewrite Hfirst at 1; rewrite Hs, take_app_le by lia; done).
    f_equal. f_equal. rewrite Hs1, Hs, Nat2Z.id, drop_app_le by lia.
    rewrite take_app_length' by (rewrite length_drop; lia).
    rewrite Hpre at 1. apply take_drop.
  - replace HEADER_LEN with (zlen first + (HEADER_LEN - zlen first)) at 1 by lia.
    apply advanced_trans with r1; auto; lia.
Qed.

(** ** What holds of any script *)

Lemma read_once_shrinks r room :
  match read_once r room with
  | (Got bytes, r') => zlen bytes <= Z.max 0 room ∧
      (room <= zlen bytes ∨ (length (events r') < length (events r))%nat ∨ bytes = [])
  | (_, r') => (length (events r') < length (events r))%nat
  end.
Proof.
  destruct r as [[|[delay e] evs] now]; cbn; [split; [lia|auto]|].
  destruct e; cbn; try lia. destruct (_ <=? _) eqn:E; cbn; bool_to_prop.
  - split; [lia|]. right. left. lia.
  - rewrite length_take. split; [lia|]. left. lia.
Qed.

Lemma fill_loop_length fuel r need deadline r' bytes :
  fill_loop fuel r need deadline = (r', Ok bytes) → zlen bytes = Z.max 0 need.
Proof.
  revert r need r' bytes. induction fuel as [|fuel IH]; intros r need r' bytes H;
    cbn [fill_loop] in H; destruct (need <=? 0) eqn:E0; bool_to_prop; simplify_eq; try (cbn; lia).
  pose proof (read_once_shrinks r need) as Hsh.
  destruct (read_once r need) as [[got| | |kind] r1]; cbn in H; try discriminate.
  - destruct got as [|b0 got]; [discriminate|].
    destruct (fill_loop fuel r1 _ deadline) as [r2 [rest|e|]] eqn:Ef; cbn [rbind] in H; simplify_eq.
    apply IH in Ef. rewrite app_comm_cons, length_app. lia.
  - by apply IH in H.
  - destruct (deadline <=? clock r1); [discriminate|]. by apply IH in H.
Qed.

Lemma fill_loop_no_panic fuel r need deadline :
  (length (events r) < fuel)%nat → no_panic (fill_loop fuel r need deadline).2.
Proof.
  revert r need. induction fuel as [|fuel IH]; intros r need Hf; [lia|]. cbn [fill_loop].
  destruct (need <=? 0) eqn:E0; [discriminate|]. bool_to_prop.
  pose proof (read_once_shrinks r need) as Hsh.
  destruct (read_once r need) as [[got| | |kind] r1].
  - destruct got as [|b0 got]; [discriminate|].
    destruct Hsh as [Hle [Hfull|[Hlt|Hnil]]]; [| |done].
    + replace (need - zlen (b0 :: got)) with 0 by lia. by destruct fuel.
    + specialize (IH r1 (need - zlen (b0 :: got)) ltac:(lia)).
      destruct (fill_loop fuel r1 _ deadline) as [r2 o]; cbn in *.
      apply no_panic_bind; [done|auto with vm].
  - apply IH. lia.
  - case_if; [discriminate|]. apply IH. lia.
  - discriminate.
Qed.

Lemma fill_no_panic r need : no_panic (fill r need).2.
Proof. apply fill_loop_no_panic. lia. Qed.

Lemma first_bytes_sound fuel r :
  (length (events r) < fuel)%nat →
  no_panic (first_bytes fuel r).2 ∧
  ∀ r' first, first_bytes fuel r = (r', Ok first) → zlen first <= HEADER_LEN.
Proof.
  revert r. induction fuel as [|fuel IH]; intros r Hf; [lia|]. cbn [first_bytes].
  pose proof (read_once_shrinks r HEADER_LEN) as Hsh.
  destruct (read_once r HEADER_LEN) as [[[|b0 got]| | |kind] r1].
  - split; [discriminate|]. discriminate.
  - split; [discriminate|]. intros ? ? [= <- <-]. destruct Hsh. unfold HEADER_LEN in *. lia.
  - apply IH. lia.
  - split; discriminate.
  - split; discriminate.
Qed.

Lemma read_header_bytes_sound r :
  no_panic (read_header_bytes r).2 ∧
  ∀ r' bytes, read_header_bytes r = (r', Ok bytes) → zlen bytes = HEADER_LEN.
Proof.
  unfold read_header_bytes.
  destruct (first_bytes_sound (S (length (events r))) r ltac:(lia)) as [Hnp Hlen].
  destruct (first_bytes _ r) as [r1 [first|e|]]; cbn in Hnp; [|split; discriminate|done].
  specialize (Hlen r1 first eq_refl). pose proof (fill_no_panic r1 (HEADER_LEN - zlen first)) as Hf.
  destruct (fill r1 _) as [r2 o] eqn:Ef. cbn [snd] in *. split; [apply no_panic_bind; auto with vm|].
  intros ? ? H. destruct o as [rest|e|]; cbn [rbind] in H; [|discriminate|discriminate].
  simplify_eq. apply fill_loop_length in Ef. rewrite length_app. lia.
Qed.

Section reading.
Context (crc32c : list Z → Z).

Lemma read_body_no_panic r l bytes :
  zlen bytes = HEADER_LEN → no_panic (read_body crc32c r l bytes).2.
Proof.
  intros Hlen%header_decode_no_panic. unfold read_body.
  destruct (decode bytes) as [[h extra]|e|]; [|discriminate|done].
  case_if; [discriminate|].
  pose proof (fill_no_panic r extra) as Hf1.
  assert (Hf1' : no_panic (if 0 <? extra then fill r extra else (r, Ok [])).2)
    by (case_if; [done|discriminate]).
  destruct (if 0 <? extra then fill r extra else (r, Ok [])) as [r1 [skipped|e|]];
    [|discriminate|done].
  pose proof (fill_no_panic r1 (header_length h)) as Hf2.
  destruct (fill r1 (header_length h)) as [r2 [p|e|]]; [|discriminate|done].
  case_if; discriminate.
Qed.

(** A header announced and a payload delivered: read in whatever pieces they
    come. *)
Lemma read_body_ok r l h extra p rest :
  header_typed h → header_length h = zlen p → header_length h <= for_channel l (channel h) →
  checksum h = crc32c p → calm (events r) →
  total_delay (events r) < RECORD_COMPLETION →
  stream (events r) = extra ++ p ++ rest →
  ∃ r', read_body crc32c r l (encode_longer h (zlen extra)) = (r', Ok (h, p)) ∧
    calm (events r') ∧ stream (events r') = rest.
Proof.
  intros Hty Hlen Hcap Hsum Hc Ht Hs. unfold read_body. rewrite decode_longer by (done || lia).
  replace (_ <? header_length h) with false by (symmetry; apply Z.ltb_ge; lia).
  assert (∃ r1, (if 0 <? zlen extra then fill r (zlen extra) else (r, Ok []))
                = (r1, Ok extra) ∧ advanced r r1 (zlen extra)) as (r1 & -> & Hadv).
  { destruct (0 <? zlen extra) eqn:E0; bool_to_prop.
    - destruct (fill_ok r (zlen extra)) as (r1 & -> & Hadv); [done|rewrite Hs, length_app; lia|done|].
      exists r1. split; [|done]. rewrite Hs, Nat2Z.id, take_app_length. done.
    - destruct extra; [|cbn in E0; lia]. exists r. split; [done|]. split; auto; cbn; lia. }
  destruct Hadv as [Hc1 Hs1 Ht1 Hl1].
  rewrite Hs, Nat2Z.id, drop_app_length in Hs1.
  destruct (fill_ok r1 (header_length h)) as (r2 & Hf & Hadv2); [done| |lia|].
  { rewrite Hs1, length_app. lia. }
  rewrite Hf, Hs1, Hlen, Nat2Z.id, take_app_length, <- Hsum, Z.eqb_refl. cbn [negb].
  exists r2. split; [done|]. destruct Hadv2 as [? Hs2 _ _]. split; [done|].
  by rewrite Hs2, Hs1, Hlen, Nat2Z.id, drop_app_length.
Qed.
End reading.

(** ** Properties *)

(** C13: a record is read back whatever pieces it arrives in, however often the
    poll expires or is interrupted on the way (within the completion time), and
    whatever fields a newer minor appended to its header; the bytes after it are
    left for the next read. *)
Theorem read_any_chunking crc32c r l h extra p rest :
  header_typed h → zlen extra <= 231 →
  header_length h = zlen p → header_length h <= for_channel l (channel h) →
  checksum h = crc32c p →
  calm (events r) → begins (events r) → total_delay (events r) < RECORD_COMPLETION →
  stream (events r) = encode_longer h (zlen extra) ++ extra ++ p ++ rest →
  ∃ r', read crc32c r l = (r', Ok (h, p)) ∧ calm (events r') ∧ stream (events r') = rest.
Proof.
  intros Hty Hx Hlen Hcap Hsum Hc Hb Ht Hs. unfold read.
  destruct (read_header_bytes_ok r (encode_longer h (zlen extra)) (extra ++ p ++ rest))
    as (r1 & -> & [Hc1 Hs1 Ht1 Hl1]); [done..|].
  apply (read_body_ok crc32c r1 l h extra p rest); auto; [lia|].
  rewrite Hs1, Hs. rewrite drop_app_length'; [done|].
  pose proof (length_encode_longer h (zlen extra)). lia.
Qed.

(** Reading always ends, and what a peer sends never makes it panic. *)
Theorem read_always_answers crc32c r l : no_panic (read crc32c r l).2.
Proof.
  unfold read. destruct (read_header_bytes_sound r) as [Hnp Hlen].
  destruct (read_header_bytes r) as [r1 [bytes|e|]]; [|discriminate|done].
  apply read_body_no_panic. by apply (Hlen r1).
Qed.

(** A record that is accepted carries exactly the bytes its header announced,
    never more than its channel allows, with the checksum it announced. *)
Theorem read_is_bounded crc32c r l r' h p :
  0 <= header_length h →
  read crc32c r l = (r', Ok (h, p)) →
  zlen p = header_length h ∧ zlen p <= for_channel l (channel h) ∧ crc32c p = checksum h.
Proof.
  intros Hh H. unfold read in H.
  destruct (read_header_bytes r) as [r1 [bytes|e|]]; [|discriminate..].
  unfold read_body in H. destruct (decode bytes) as [[h' extra]|e|]; [|discriminate..].
  destruct (_ <? header_length h') eqn:Ecap; [discriminate|].
  destruct (if 0 <? extra then _ else _) as [r2 [skipped|e|]]; [|discriminate..].
  destruct (fill r2 (header_length h')) as [r3 [p'|e|]] eqn:Ef; [|discriminate..].
  destruct (crc32c p' =? checksum h') eqn:Ec; cbn [negb] in H; [|discriminate]. simplify_eq.
  apply fill_loop_length in Ef. bool_to_prop. lia.
Qed.

(** A payload above its channel's cap is refused from the header alone: the
    payload's bytes are still in the stream, none of them has been buffered. *)
Theorem oversized_is_refused_unread crc32c r l h rest :
  header_typed h → for_channel l (channel h) < header_length h →
  calm (events r) → begins (events r) → total_delay (events r) < RECORD_COMPLETION →
  stream (events r) = encode h ++ rest →
  ∃ r', read crc32c r l
        = (r', Err (TooLarge (channel h) (header_length h) (for_channel l (channel h)))) ∧
    stream (events r') = rest.
Proof.
  intros Hty Hcap Hc Hb Ht Hs. unfold read.
  destruct (read_header_bytes_ok r (encode h) rest) as (r1 & -> & [Hc1 Hs1 Ht1 Hl1]); [done..|].
  exists r1. unfold read_body. rewrite <- encode_longer_0, decode_longer by done.
  replace (_ <? header_length h) with true by (symmetry; apply Z.ltb_lt; lia).
  split; [done|]. rewrite Hs1, Hs. apply drop_app_length'. pose proof (length_encode h). lia.
Qed.

(** What [write_payload] put on an unbounded sink. *)
Lemma write_payload_ok w h p l :
  room w = None → flushes w = true → header_length h <= for_channel l (channel h) →
  write_payload w h p l = (mk_writer (written w ++ encode h ++ p) None true, Ok tt).
Proof.
  intros Hr Hf Hcap. unfold write_payload.
  replace (_ <? header_length h) with false by (symmetry; apply Z.ltb_ge; lia).
  unfold write_all. rewrite Hr. cbn [room written flushes]. unfold flush. cbn [flushes].
  by rewrite Hf, <- app_assoc.
Qed.

(** What one end writes the other reads, header and payload, and the next
    record is where it stopped. *)
Theorem written_records_are_read crc32c w c ty seq b gen p l r rest :
  (∀ bytes, is_u32 (crc32c bytes)) →
  is_u16 ty → is_u32 seq → is_u32 b → is_u32 gen → zlen p <= for_channel l c →
  for_channel l c <= U32_MAX →
  room w = None → flushes w = true →
  calm (events r) → begins (events r) → total_delay (events r) < RECORD_COMPLETION →
  let rec := new_record crc32c c ty seq b gen p in
  ∃ bytes w', write w rec l = (w', Ok tt) ∧ written w' = written w ++ bytes ∧
    (stream (events r) = bytes ++ rest →
     ∃ r', read crc32c r l = (r', Ok (header rec, p)) ∧ stream (events r') = rest).
Proof.
  intros Hcrc Hty Hseq Hbase Hgen Hcap Hmax Hroom Hflush Hc Hb Ht rec.
  assert (Hlen : header_length (header rec) = zlen p) by (cbn; lia).
  assert (Hcap' : header_length (header rec) <= for_channel l (channel (header rec)))
    by (rewrite Hlen; done).
  exists (encode (header rec) ++ p). eexists. split; [by apply write_payload_ok|].
  split; [done|]. intros Hs.
  destruct (read_any_chunking crc32c r l (header rec) [] p rest) as (r' & Hr & _ & Hrest); auto.
  - unfold header_typed. rewrite Hlen. split; [done|]. pose proof (Hcrc p).
    cbn [rec header new_record for_payload sequence base checksum generation].
    unfold is_u32, U32_MAX in *. lia.
  - cbn. lia.
  - eauto.
Qed.

(** The frame cap is the exact arithmetic one whatever geometry a peer sends: a
    frame's raw bytes and the slack, up to the ceiling. *)
Lemma frame_cap_exact width height :
  is_u32 width → is_u32 height →
  for_channel (limits width height) Frame
  = Z.min (width * height * 4 + FRAME_PAYLOAD_SLACK) FRAME_PAYLOAD_CEILING.
Proof.
  unfold is_u32, limits, set_geometry, for_channel, frame_limit, u32_saturating_add,
    u32_saturating_mul, FRAME_PAYLOAD_SLACK, FRAME_PAYLOAD_CEILING, U32_MAX.
  intros Hw Hh. assert (0 <= width * height) by nia. lia.
Qed.

(** ** Witnesses *)

(** CRC-32C itself, bit by bit, as the crate computes it. *)
Fixpoint crc_bits (n : nat) (c : Z) : Z :=
  match n with
  | O => c
  | S n => crc_bits n (if Z.odd c then Z.lxor (Z.shiftr c 1) 0x82F63B78 else Z.shiftr c 1)
  end.

Definition castagnoli (bytes : list Z) : Z :=
  Z.lxor (fold_left (λ c b, crc_bits 8 (Z.lxor c (as_u8 b))) bytes U32_MAX) U32_MAX.

Example castagnoli_check : castagnoli [49; 50; 51; 52; 53; 54; 55; 56; 57] = 0xE3069283.
Proof. vm_compute. reflexivity. Qed.

Lemma crc_bits_u32 n c : is_u32 c → is_u32 (crc_bits n c).
Proof.
  revert c. induction n as [|n IH]; intros c Hc; cbn [crc_bits]; [done|]. apply IH.
  assert (is_u32 (Z.shiftr c 1)).
  { unfold is_u32 in *. rewrite Z.shiftr_div_pow2 by lia.
    split; [apply Z.div_pos; lia|apply Z.div_lt_upper_bound; lia]. }
  destruct (Z.odd c); [|done]. apply lxor_u32; [done|unfold is_u32; lia].
Qed.

Lemma castagnoli_u32 bytes : is_u32 (castagnoli bytes).
Proof.
  apply lxor_u32; [|unfold is_u32, U32_MAX; lia].
  assert (Hstart : is_u32 U32_MAX) by (unfold is_u32, U32_MAX; lia).
  revert Hstart. generalize U32_MAX. induction bytes as [|b bytes IH]; intros c Hc; [done|].
  cbn [fold_left]. apply IH, crc_bits_u32, lxor_u32; [done|].
  unfold is_u32, as_u8. pose proof (Z.mod_pos_bound b 256). lia.
Qed.

Definition ping : Record := new_record castagnoli Control 8 3 0 0 [7; 7].
Definition desk : Limits := limits 1920 1080.

(** The ping, from a newer minor, in three pieces with a poll expiring between. *)
Definition pieces : Reader :=
  let bytes := encode_longer (header ping) 1 ++ [99] ++ [7; 7] ++ [24] in
  {| events := [(0, Interrupted); (3, Data (take 5 bytes)); (10, NotYet); (5, Data (drop 5 bytes))];
     clock := 100 |}.

Lemma ping_typed : header_typed (header ping).
Proof.
  unfold header_typed, is_u16, is_u32. vm_compute. split_and!; discriminate || reflexivity.
Qed.

Lemma pieces_calm : calm (events pieces) ∧ begins (events pieces) ∧
  total_delay (events pieces) < RECORD_COMPLETION.
Proof.
  unfold calm. vm_compute. split_and!; [|done|done].
  repeat constructor; discriminate.
Qed.

Lemma read_any_chunking_witness :
  ∃ r', read castagnoli pieces desk = (r', Ok (header ping, [7; 7])) ∧
    calm (events r') ∧ stream (events r') = [24].
Proof.
  apply (read_any_chunking castagnoli pieces desk (header ping) [99] [7; 7] [24]).
  - apply ping_typed.
  - cbn; lia.
  - reflexivity.
  - vm_compute; discriminate.
  - vm_compute; reflexivity.
  - apply pieces_calm.
  - apply pieces_calm.
  - apply pieces_calm.
  - vm_compute; reflexivity.
Defined.

Lemma read_is_bounded_witness :
  zlen [7; 7] = header_length (header ping) ∧
  zlen [7; 7] <= for_channel desk (channel (header ping)) ∧
  castagnoli [7; 7] = checksum (header ping).
Proof.
  apply (read_is_bounded castagnoli pieces desk (read castagnoli pieces desk).1).
  - vm_compute; discriminate.
  - vm_compute; reflexivity.
Defined.

Definition flood : Header :=
  {| channel := Input; message_type := 4; header_length := 5000; sequence := 0; base := 0;
     checksum := 0; generation := 0 |}.
Definition flood_reader : Reader := {| events := [(0, Data (encode flood ++ [1; 2; 3]))]; clock := 0 |}.

Lemma oversized_is_refused_unread_witness :
  ∃ r', read castagnoli flood_reader desk = (r', Err (TooLarge Input 5000 4096)) ∧
    stream (events r') = [1; 2; 3].
Proof.
  apply (oversized_is_refused_unread castagnoli flood_reader desk flood [1; 2; 3]).
  - unfold header_typed, is_u16, is_u32. cbn. lia.
  - vm_compute; reflexivity.
  - repeat constructor; vm_compute; discriminate.
  - exact I.
  - vm_compute; reflexivity.
  - reflexivity.
Defined.

Definition sink : Writer := {| written := []; room := None; flushes := true |}.

Lemma written_records_are_read_witness :
  ∃ bytes w', write sink ping desk = (w', Ok tt) ∧ written w' = written sink ++ bytes ∧
    (stream [(0, Data (encode (header ping) ++ [7; 7]))] = bytes ++ [] →
     ∃ r', read castagnoli {| events := [(0, Data (encode (header ping) ++ [7; 7]))]; clock := 0 |}
             desk = (r', Ok (header ping, [7; 7])) ∧ stream (events r') = []).
Proof.
  apply (written_records_are_read castagnoli sink Control 8 3 0 0 [7; 7] desk
    {| events := [(0, Data (encode (header ping) ++ [7; 7]))]; clock := 0 |} []).
  - apply castagnoli_u32.
  - unfold is_u16; lia.
  - unfold is_u32; lia.
  - unfold is_u32; lia.
  - unfold is_u32; lia.
  - vm_compute; discriminate.
  - vm_compute; discriminate.
  - reflexivity.
  - reflexivity.
  - repeat constructor; vm_compute; discriminate.
  - exact I.
  - vm_compute; reflexivity.
Defined.
