(* ===== verification/Handshake.v ===== *)
(** * What two display peers agree on

    [crates/display-protocol/src/handshake.rs], with the enumerations and the
    [ProtocolVersion] message of the schema it reads. *)

From S2P Require Import Prelude.

(** ** The schema's values *)

Record ProtocolVersion : Type := mk_version { major : Z; minor : Z }.

#[export] Instance version_eq_dec : EqDecision ProtocolVersion.
Proof. solve_decision. Defined.

Inductive Capability : Type :=
| CapabilityUnspecified | CursorStream | DynamicResolution | ClipboardCapability
| FileClipboard | HostDisplayModes | AudioCapability | CursorHotspots.

#[export] Instance capability_eq_dec : EqDecision Capability.
Proof. solve_decision. Defined.

(** [i32::from(capability)] and [Capability::try_from(value)]. *)
Definition capability_wire (c : Capability) : Z :=
  match c with
  | CapabilityUnspecified => 0 | CursorStream => 1 | DynamicResolution => 2
  | ClipboardCapability => 3 | FileClipboard => 4 | HostDisplayModes => 5
  | AudioCapability => 6 | CursorHotspots => 7
  end.

Definition capability_of (value : Z) : option Capability :=
  if value =? 0 then Some CapabilityUnspecified
  else if value =? 1 then Some CursorStream
  else if value =? 2 then Some DynamicResolution
  else if value =? 3 then Some ClipboardCapability
  else if value =? 4 then Some FileClipboard
  else if value =? 5 then Some HostDisplayModes
  else if value =? 6 then Some AudioCapability
  else if value =? 7 then Some CursorHotspots
  else None.

(** ** The code *)

Record VersionMismatch : Type := mk_mismatch { local : ProtocolVersion; remote : ProtocolVersion }.
Record UnofferedCapability : Type := mk_unoffered { value : Z }.

Definition CURRENT_VERSION : ProtocolVersion := {| major := 1; minor := 5 |}.

Definition negotiate_version (local remote : ProtocolVersion)
    : result VersionMismatch ProtocolVersion :=
  if negb (major local =? major remote) then Err (mk_mismatch local remote)
  else Ok {| major := major local; minor := Z.min (minor local) (minor remote) |}.

Definition confirm_version (local chosen : ProtocolVersion)
    : result VersionMismatch ProtocolVersion :=
  if negb (major local =? major chosen) || (minor local <? minor chosen)
  then Err (mk_mismatch local chosen)
  else Ok chosen.

Definition agreed_capabilities (local : list Capability) (remote : list Z) : list Capability :=
  let agreed := filter (λ c, c ≠ CapabilityUnspecified) local in
  let agreed := filter (λ c, capability_wire c ∈ remote) agreed in
  if decide (ClipboardCapability ∈ agreed) then agreed
  else filter (λ c, c ≠ FileClipboard) agreed.

Definition retain_since (minor' : Z) (newer : Capability) (version : ProtocolVersion)
    (capabilities : list Capability) : list Capability :=
  if negb (major version =? 1) || (minor version <? minor')
  then filter (λ c, c ≠ newer) capabilities
  else capabilities.

Definition capabilities_at (version : ProtocolVersion) (capabilities : list Capability)
    : list Capability :=
  let capabilities := retain_since 3 FileClipboard version capabilities in
  let capabilities := retain_since 4 HostDisplayModes version capabilities in
  retain_since 5 CursorHotspots version capabilities.

Fixpoint confirm_capabilities (local : list Capability) (chosen : list Z)
    : result UnofferedCapability (list Capability) :=
  match chosen with
  | [] => Ok []
  | value :: chosen =>
      let? capability :=
        match capability_of value with
        | Some c =>
            if decide (c ≠ CapabilityUnspecified ∧ c ∈ local) then Ok c
            else Err (mk_unoffered value)
        | None => Err (mk_unoffered value)
        end in
      let? rest := confirm_capabilities local chosen in
      Ok (capability :: rest)
  end.

(** ** What comes of it *)

Lemma capability_of_wire c : capability_of (capability_wire c) = Some c.
Proof. by destruct c. Qed.

Lemma elem_of_retain_since minor' newer version c cs :
  c ∈ retain_since minor' newer version cs ↔
  c ∈ cs ∧ (c = newer → major version = 1 ∧ minor' <= minor version).
Proof.
  unfold retain_since. destruct (_ || _)%bool eqn:E.
  - rewrite list_elem_of_filter. rewrite orb_true_iff, negb_true_iff, Z.eqb_neq, Z.ltb_lt in E.
    split; [intros [? ?]; split; [done|]; intros ->; done|].
    intros [Hc Hn]. split; [|done]. intros ->. specialize (Hn eq_refl). lia.
  - bool_to_prop. split; [|tauto]. intros ?. split; [done|]. lia.
Qed.

Lemma elem_of_capabilities_at version c cs :
  c ∈ capabilities_at version cs ↔
  c ∈ cs ∧ (c = FileClipboard → major version = 1 ∧ 3 <= minor version) ∧
  (c = HostDisplayModes → major version = 1 ∧ 4 <= minor version) ∧
  (c = CursorHotspots → major version = 1 ∧ 5 <= minor version).
Proof. unfold capabilities_at. rewrite !elem_of_retain_since. tauto. Qed.

Lemma elem_of_agreed c local remote :
  c ∈ agreed_capabilities local remote ↔
  c ∈ local ∧ c ≠ CapabilityUnspecified ∧ capability_wire c ∈ remote ∧
  (c = FileClipboard → ClipboardCapability ∈ local ∧ capability_wire ClipboardCapability ∈ remote).
Proof.
  unfold agreed_capabilities.
  assert (Hclip : ClipboardCapability ∈ filter (λ c, capability_wire c ∈ remote)
      (filter (λ c, c ≠ CapabilityUnspecified) local) ↔
    ClipboardCapability ∈ local ∧ capability_wire ClipboardCapability ∈ remote).
  { rewrite !list_elem_of_filter. naive_solver. }
  destruct (decide _) as [Hyes|Hno].
  - rewrite !list_elem_of_filter. apply Hclip in Hyes. tauto.
  - rewrite !list_elem_of_filter. split; [naive_solver|].
    intros (?&?&?&Hf). split_and!; auto. intros ->. apply Hno, Hclip, Hf. done.
Qed.

Lemma capabilities_at_idemp v cs : capabilities_at v (capabilities_at v cs) = capabilities_at v cs.
Proof.
  unfold capabilities_at, retain_since.
  destruct (_ || (_ <? 3))%bool, (_ || (_ <? 4))%bool, (_ || (_ <? 5))%bool; try done;
    rewrite !list_filter_filter; apply list_filter_iff; tauto.
Qed.

(** A peer that answers with capabilities this side offered is taken at its word. *)
Lemma confirm_capabilities_ok local cs :
  (∀ c, c ∈ cs → c ∈ local ∧ c ≠ CapabilityUnspecified) →
  confirm_capabilities local (map capability_wire cs) = Ok cs.
Proof.
  induction cs as [|c cs IH]; intros Hall; cbn [map confirm_capabilities]; [done|].
  rewrite capability_of_wire.
  destruct (decide _) as [_|Hno].
  - cbn [rbind]. rewrite IH; [done|]. intros c' Hc'. apply Hall. by right.
  - exfalso. apply Hno. destruct (Hall c) as [? ?]; [left|]. done.
Qed.

(** ... and one that does not is refused with the value it made up. *)
Lemma confirm_capabilities_sound local chosen cs :
  confirm_capabilities local chosen = Ok cs →
  chosen = map capability_wire cs ∧ ∀ c, c ∈ cs → c ∈ local ∧ c ≠ CapabilityUnspecified.
Proof.
  revert cs. induction chosen as [|v chosen IH]; intros cs H; cbn [confirm_capabilities] in H.
  { simplify_eq. split; [done|]. intros c []%not_elem_of_nil. }
  rbind_step H as c0, E0. rbind_step H as rest, Er. simplify_eq.
  destruct (IH rest eq_refl) as [-> Hall].
  destruct (capability_of v) as [c1|] eqn:Ec; [|discriminate].
  destruct (decide _) as [[Hn Hl]|]; [|discriminate]. simplify_eq. split.
  - cbn. f_equal. unfold capability_of in Ec. repeat case_if; bool_to_prop; simplify_eq; done.
  - intros c [->|Hc]%elem_of_cons; auto.
Qed.
