(* ===== verification/Keys.v ===== *)
(** * Proofs that a peer holds the secret, and the keys that hang off them

    [crates/display-protocol/src/keys.rs].  The primitives are the [hkdf],
    [hmac] and [sha2] crates' and are an interface here; what the program
    decides is which bytes go into them. *)

From S2P Require Import Prelude.
From S2P Require Import Record.

(** ** The primitives *)

Class Crypto : Type := {
  (** [Hkdf::new(Some(salt), ikm).expand(info)] to 32 bytes. *)
  hkdf : list Z → list Z → list Z → list Z;
  (** [Hkdf::from_prk(prk).expand(info)] to 32 bytes. *)
  hkdf_expand : list Z → list Z → list Z;
  (** HMAC-SHA-256 of a message under a key. *)
  hmac : list Z → list Z → list Z;
  sha256 : list Z → list Z;
}.

(** Every output is 32 bytes. *)
Class CryptoLaws (C : Crypto) : Prop := {
  length_hmac key message : zlen (hmac key message) = 32;
  hmac_u8 key message : Forall is_u8 (hmac key message);
}.

Definition SECRET_LEN : Z := 32.
Definition NONCE_LEN : Z := 32.
Definition SESSION_ID_LEN : Z := 16.
Definition TAG_LEN : Z := 32.

(** The ASCII bytes of "vmlord.display.v1.session", "...transcript" and
    "...channel". *)
Definition DOMAIN_PREFIX : list Z :=
  [118; 109; 108; 111; 114; 100; 46; 100; 105; 115; 112; 108; 97; 121; 46; 118; 49; 46].
Definition SESSION_DOMAIN : list Z := DOMAIN_PREFIX ++ [115; 101; 115; 115; 105; 111; 110].
Definition TRANSCRIPT_DOMAIN : list Z :=
  DOMAIN_PREFIX ++ [116; 114; 97; 110; 115; 99; 114; 105; 112; 116].
Definition CHANNEL_DOMAIN : list Z := DOMAIN_PREFIX ++ [99; 104; 97; 110; 110; 101; 108].

Inductive Role : Type := Host | Guest.

#[export] Instance role_eq_dec : EqDecision Role.
Proof. solve_decision. Defined.

(** b"client" and b"server". *)
Definition label (r : Role) : list Z :=
  match r with
  | Host => [99; 108; 105; 101; 110; 116]
  | Guest => [115; 101; 114; 118; 101; 114]
  end.

Record WrongLength : Type := mk_wrong_length { field_len : Z }.

(** ** Deriving and proving *)

Section keys.
Context `{Crypto}.

Definition session_key (secret session_id host_nonce guest_nonce : list Z) : list Z :=
  hkdf (host_nonce ++ guest_nonce) secret (SESSION_DOMAIN ++ session_id).

(** What the hasher has been fed. *)
Definition Transcript : Type := list Z.
Definition transcript_new : Transcript := TRANSCRIPT_DOMAIN.
Definition transcript_record (t : Transcript) (payload : list Z) : Transcript :=
  t ++ to_le 4 (Z.min (zlen payload) U32_MAX) ++ payload.
Definition transcript_finish (t : Transcript) : list Z := sha256 t.

Definition channel_key (session transcript : list Z) (c : Channel) : list Z :=
  hkdf_expand session (CHANNEL_DOMAIN ++ transcript ++ [as_wire c]).

Definition tag_from_wire (bytes : list Z) : result WrongLength (list Z) :=
  if zlen bytes =? TAG_LEN then Ok bytes else Err (mk_wrong_length (zlen bytes)).

Definition control_message (role : Role) (transcript : list Z) : list Z :=
  label role ++ transcript.
Definition control_tag (session : list Z) (role : Role) (transcript : list Z) : list Z :=
  hmac session (control_message role transcript).

Definition channel_message (role : Role) (c : Channel) (host_nonce guest_nonce : list Z)
    : list Z :=
  label role ++ [as_wire c] ++ host_nonce ++ guest_nonce.
Definition channel_tag (key : list Z) (role : Role) (c : Channel)
    (host_nonce guest_nonce : list Z) : list Z :=
  hmac key (channel_message role c host_nonce guest_nonce).

(** [ct_eq]. *)
Definition verify (expected offered : list Z) : bool := bool_decide (expected = offered).
End keys.

(** ** What the bytes determine *)

Lemma label_inj r1 r2 : label r1 = label r2 → r1 = r2.
Proof. by destruct r1, r2. Qed.

Lemma length_label r : length (label r) = 6%nat.
Proof. by destruct r. Qed.

Lemma as_wire_inj c1 c2 : as_wire c1 = as_wire c2 → c1 = c2.
Proof. by destruct c1, c2. Qed.

Lemma channel_message_inj r1 r2 c1 c2 h1 h2 g1 g2 :
  length h1 = length h2 →
  channel_message r1 c1 h1 g1 = channel_message r2 c2 h2 g2 →
  r1 = r2 ∧ c1 = c2 ∧ h1 = h2 ∧ g1 = g2.
Proof.
  unfold channel_message. intros Hlen H.
  apply app_inj_1 in H as [Hl H]; [|by rewrite !length_label].
  apply app_inj_1 in H as [Hc H]; [|done]. apply app_inj_1 in H as [? ?]; [|done].
  injection Hc as Hc. auto using label_inj, as_wire_inj.
Qed.

Lemma control_message_inj r1 r2 t1 t2 :
  control_message r1 t1 = control_message r2 t2 → r1 = r2 ∧ t1 = t2.
Proof.
  unfold control_message. intros [? ?]%app_inj_1; [|by rewrite !length_label].
  auto using label_inj.
Qed.

Definition transcript_of (payloads : list (list Z)) : Transcript :=
  fold_left transcript_record payloads transcript_new.

Lemma transcript_of_app payloads t :
  fold_left transcript_record payloads t
  = t ++ mjoin (map (λ p, to_le 4 (Z.min (zlen p) U32_MAX) ++ p) payloads).
Proof.
  revert t. induction payloads as [|p ps IH]; intros t; cbn [fold_left map mjoin list_join].
  { by rewrite app_nil_r. }
  rewrite IH. unfold transcript_record. by rewrite <- !app_assoc.
Qed.

Lemma framed_inj ps qs :
  Forall (λ p, zlen p <= U32_MAX) ps → Forall (λ p, zlen p <= U32_MAX) qs →
  mjoin (map (λ p, to_le 4 (Z.min (zlen p) U32_MAX) ++ p) ps)
  = mjoin (map (λ p, to_le 4 (Z.min (zlen p) U32_MAX) ++ p) qs) → ps = qs.
Proof.
  intros Hps. revert qs. induction Hps as [|p ps Hp Hps IH]; intros [|q qs] Hqs H; auto.
  - discriminate H.
  - discriminate H.
  - apply Forall_cons_1 in Hqs as [Hq Hqs]. cbn [map mjoin list_join] in H.
    rewrite <- !app_assoc in H.
    apply app_inj_1 in H as [Hlen H]; [|by rewrite !length_to_le].
    rewrite !Z.min_l in Hlen by lia. apply (f_equal from_le) in Hlen.
    unfold U32_MAX in *.
    rewrite !from_le_to_le_u32 in Hlen by (unfold is_u32; lia).
    apply app_inj_1 in H as [-> H]; [|lia]. f_equal. auto.
Qed.
