(* ===== verification/Session.v ===== *)
(** * The states a display session moves through

    [crates/display-protocol/src/session.rs].  The Protobuf messages are records
    here and their wire form, which is the [prost] crate's, an interface; a
    random draw is an argument of the operation that makes it.  A handler runs
    in a monad of the session's state and its failure, because a handler that
    fails half way keeps what it had already stored.  An [expect] that does not
    hold is [Panic]; the sequence counters wrap at 32 bits. *)

From S2P Require Import Prelude.
From S2P Require Import Record.
From S2P Require Import Handshake.
From S2P Require Import Keys.

(** ** The schema's messages *)

Inductive Mode : Type := ModeUnspecified | Auto | Desktop | Motion.

#[export] Instance mode_eq_dec : EqDecision Mode.
Proof. solve_decision. Defined.

Definition mode_wire (m : Mode) : Z :=
  match m with ModeUnspecified => 0 | Auto => 1 | Desktop => 2 | Motion => 3 end.
Definition mode_of (value : Z) : option Mode :=
  if value =? 0 then Some ModeUnspecified
  else if value =? 1 then Some Auto
  else if value =? 2 then Some Desktop
  else if value =? 3 then Some Motion
  else None.

Record ClientHello : Type := mk_client_hello {
  ch_version : option ProtocolVersion; ch_capabilities : list Z; ch_session_id : list Z;
  ch_host_nonce : list Z; ch_mode : Z; ch_width : Z; ch_height : Z; ch_tile_size : Z }.
Record ServerHello : Type := mk_server_hello {
  sh_version : option ProtocolVersion; sh_capabilities : list Z; sh_guest_nonce : list Z;
  sh_modes : list Z; sh_tile_sizes : list Z; sh_width : Z; sh_height : Z }.
Record ServerAuth : Type := mk_server_auth { sa_tag : list Z }.
Record ClientAuth : Type := mk_client_auth { ca_tag : list Z }.
Record ChannelHello : Type := mk_channel_hello {
  hello_session_id : list Z; hello_channel : Z; hello_generation : Z; hello_nonce : list Z }.
Record ChannelAck : Type := mk_channel_ack { ack_nonce : list Z; ack_tag : list Z }.
Record ChannelAuth : Type := mk_channel_auth { auth_tag : list Z }.

(** [encode_to_vec] and [decode] of a message. *)
Class Message (A : Type) : Type := {
  encode_to_vec : A → list Z;
  decode_from : list Z → option A;
}.

(** The numbers of [ControlRecord] and [FrameRecord]. *)
Definition CLIENT_HELLO : Z := 1.
Definition SERVER_HELLO : Z := 2.
Definition SERVER_AUTH : Z := 3.
Definition CLIENT_AUTH : Z := 4.
Definition CHANNEL_HELLO : Z := 1.
Definition CHANNEL_ACK : Z := 2.
Definition CHANNEL_AUTH : Z := 3.

(** ** The session's data *)

Record Offer : Type := mk_offer {
  offer_capabilities : list Capability; offer_mode : Mode;
  offer_width : Z; offer_height : Z; offer_tile_size : Z }.

Record Support : Type := mk_support {
  support_capabilities : list Capability; support_modes : list Mode;
  support_tile_sizes : list Z; support_width : Z; support_height : Z }.

Record Negotiated : Type := mk_negotiated {
  version : ProtocolVersion; capabilities : list Capability; mode : Mode;
  negotiated_width : Z; negotiated_height : Z; tile_size : Z }.

Inductive Event : Type := Continue | ControlEstablished | ChannelBound (c : Channel).

Record Outcome : Type := mk_outcome { reply : option Record.Record; event : Event }.

Inductive State : Type :=
| AwaitingClientHello | AwaitingServerHello | AwaitingServerAuth | AwaitingClientAuth
| Established.

#[export] Instance state_eq_dec : EqDecision State.
Proof. solve_decision. Defined.

Record ChannelState : Type := mk_channel_state {
  generation : Z; host_nonce : option (list Z); guest_nonce : option (list Z);
  key : option (list Z); sequence : Z }.

Definition channel_default : ChannelState :=
  {| generation := 0; host_nonce := None; guest_nonce := None; key := None; sequence := 0 |}.

Record Session : Type := mk_session {
  role : Role;
  state : State;
  secret : option (list Z);
  offer : option Offer;
  support : option Support;
  session_id : list Z;
  session_host_nonce : option (list Z);
  session_guest_nonce : option (list Z);
  transcript : Transcript;
  transcript_hash : option (list Z);
  the_session_key : option (list Z);
  negotiated : option Negotiated;
  pending : option Negotiated;
  pending_auth : option Record.Record;
  control_sequence : Z;
  channels : list ChannelState;
  handover_keys : list (option (list Z));
}.

Inductive session_error : Type :=
| VersionError (e : VersionMismatch)
| CapabilityError (e : UnofferedCapability)
| Field (e : WrongLength)
| DecodeError
| Unexpected (channel : Channel) (message_type : Z)
| BadTag
| UnsupportedMode (m : Mode)
| NoCommonTileSize
| UnknownSession
| StaleGeneration (channel : Channel) (expected found : Z)
| NotEstablished.

(** The codes of the schema's [ErrorCode]. *)
Definition error_code (e : session_error) : Z :=
  match e with
  | VersionError _ => 1
  | CapabilityError _ | Field _ | DecodeError | Unexpected _ _ => 5
  | BadTag => 2
  | UnsupportedMode _ => 8
  | NoCommonTileSize => 9
  | UnknownSession => 3
  | StaleGeneration _ _ _ => 4
  | NotEstablished => 2
  end.

(** ** Handlers: state and failure *)

Definition M (A : Type) : Type := Session → Session * result session_error A.

Definition ret {A} (a : A) : M A := λ s, (s, Ok a).
Definition bindM {A B} (m : M A) (k : A → M B) : M B :=
  λ s, match m s with
       | (s, Ok a) => k a s
       | (s, Err e) => (s, Err e)
       | (s, Panic) => (s, Panic)
       end.
Definition get : M Session := λ s, (s, Ok s).
Definition modify (f : Session → Session) : M unit := λ s, (f s, Ok tt).
Definition lift {A} (r : result session_error A) : M A := λ s, (s, r).

Notation "'let!' x ':=' m 'in' k" := (bindM m (fun x => k))
  (at level 10, x pattern, m at level 100, k at level 200,
   format "'[v' 'let!'  x  ':='  m  'in' '/' k ']'") : vm_scope.

(** Field updates. *)
Definition set_state (st : State) (s : Session) : Session :=
  mk_session (role s) st (secret s) (offer s) (support s) (session_id s) (session_host_nonce s)
    (session_guest_nonce s) (transcript s) (transcript_hash s) (the_session_key s) (negotiated s)
    (pending s) (pending_auth s) (control_sequence s) (channels s) (handover_keys s).
Definition set_session_id (v : list Z) (s : Session) : Session :=
  mk_session (role s) (state s) (secret s) (offer s) (support s) v (session_host_nonce s)
    (session_guest_nonce s) (transcript s) (transcript_hash s) (the_session_key s) (negotiated s)
    (pending s) (pending_auth s) (control_sequence s) (channels s) (handover_keys s).
Definition set_nonces (host guest : option (list Z)) (s : Session) : Session :=
  mk_session (role s) (state s) (secret s) (offer s) (support s) (session_id s) host
    guest (transcript s) (transcript_hash s) (the_session_key s) (negotiated s)
    (pending s) (pending_auth s) (control_sequence s) (channels s) (handover_keys s).
Definition set_transcript (t : Transcript) (s : Session) : Session :=
  mk_session (role s) (state s) (secret s) (offer s) (support s) (session_id s)
    (session_host_nonce s) (session_guest_nonce s) t (transcript_hash s) (the_session_key s)
    (negotiated s) (pending s) (pending_auth s) (control_sequence s) (channels s)
    (handover_keys s).
Definition set_keys (hash session_key : option (list Z)) (s : Session) : Session :=
  mk_session (role s) (state s) (secret s) (offer s) (support s) (session_id s)
    (session_host_nonce s) (session_guest_nonce s) (transcript s) hash session_key
    (negotiated s) (pending s) (pending_auth s) (control_sequence s) (channels s)
    (handover_keys s).
Definition set_negotiated (v : option Negotiated) (s : Session) : Session :=
  mk_session (role s) (state s) (secret s) (offer s) (support s) (session_id s)
    (session_host_nonce s) (session_guest_nonce s) (transcript s) (transcript_hash s)
    (the_session_key s) v (pending s) (pending_auth s) (control_sequence s) (channels s)
    (handover_keys s).
Definition set_pending (v : option Negotiated) (s : Session) : Session :=
  mk_session (role s) (state s) (secret s) (offer s) (support s) (session_id s)
    (session_host_nonce s) (session_guest_nonce s) (transcript s) (transcript_hash s)
    (the_session_key s) (negotiated s) v (pending_auth s) (control_sequence s) (channels s)
    (handover_keys s).
Definition set_pending_auth (v : option Record.Record) (s : Session) : Session :=
  mk_session (role s) (state s) (secret s) (offer s) (support s) (session_id s)
    (session_host_nonce s) (session_guest_nonce s) (transcript s) (transcript_hash s)
    (the_session_key s) (negotiated s) (pending s) v (control_sequence s) (channels s)
    (handover_keys s).
Definition set_control_sequence (v : Z) (s : Session) : Session :=
  mk_session (role s) (state s) (secret s) (offer s) (support s) (session_id s)
    (session_host_nonce s) (session_guest_nonce s) (transcript s) (transcript_hash s)
    (the_session_key s) (negotiated s) (pending s) (pending_auth s) v (channels s)
    (handover_keys s).
Definition alter_channel (i : nat) (f : ChannelState → ChannelState) (s : Session) : Session :=
  mk_session (role s) (state s) (secret s) (offer s) (support s) (session_id s)
    (session_host_nonce s) (session_guest_nonce s) (transcript s) (transcript_hash s)
    (the_session_key s) (negotiated s) (pending s) (pending_auth s) (control_sequence s)
    (alter f i (channels s)) (handover_keys s).

(** ** Settling the mode and the tile size *)

Definition resolve_mode (wanted : Mode) (supported : list Mode) : result session_error Mode :=
  match supported with
  | [] => Err (UnsupportedMode wanted)
  | first :: _ =>
      match wanted with
      | Auto => Ok first
      | _ => if decide (wanted ∈ supported) then Ok wanted else Err (UnsupportedMode wanted)
      end
  end.

(** [Iterator::max] and [Iterator::min]. *)
Definition list_max (l : list Z) : option Z :=
  match l with [] => None | x :: l => Some (fold_left Z.max l x) end.
Definition list_min (l : list Z) : option Z :=
  match l with [] => None | x :: l => Some (fold_left Z.min l x) end.

Definition resolve_tile_size (wanted : Z) (supported : list Z) : result session_error Z :=
  if decide (wanted ∈ supported) then Ok wanted
  else
    ok_or (match list_max (filter (λ size, size < wanted) supported) with
           | Some size => Some size
           | None => list_min supported
           end) NoCommonTileSize.

Definition session_id_from_wire (bytes : list Z) : result session_error (list Z) :=
  if zlen bytes =? SESSION_ID_LEN then Ok bytes else Err (Field (mk_wrong_length (zlen bytes))).
Definition nonce_from_wire (bytes : list Z) : result session_error (list Z) :=
  if zlen bytes =? NONCE_LEN then Ok bytes else Err (Field (mk_wrong_length (zlen bytes))).

Definition channel_index (c : Channel) : result session_error nat :=
  match c with
  | Frame => Ok 0%nat
  | Input => Ok 1%nat
  | Clipboard => Ok 2%nat
  | Audio => Ok 3%nat
  | Control => Err (Unexpected c 0)
  end.

Section session.
Context `{Crypto} (crc32c : list Z → Z).
Context `{Message ClientHello, Message ServerHello, Message ServerAuth, Message ClientAuth,
          Message ChannelHello, Message ChannelAck, Message ChannelAuth}.

(** *** Records the session numbers *)

Definition control_record (message_type : Z) (payload : list Z) : M Record.Record :=
  let! s := get in
  let sequence := control_sequence s in
  let! _ := modify (set_control_sequence (as_u32 (sequence + 1))) in
  ret (new_record crc32c Control message_type sequence 0 0 payload).

Definition take_control_sequence : M Z :=
  let! s := get in
  let sequence := control_sequence s in
  let! _ := modify (set_control_sequence (as_u32 (sequence + 1))) in
  ret sequence.

Definition channel_at (i : nat) : M ChannelState :=
  let! s := get in
  lift (expect (channels s !! i)).

Definition bump_sequence (c : ChannelState) : ChannelState :=
  {| generation := generation c; host_nonce := host_nonce c; guest_nonce := guest_nonce c;
     key := key c; sequence := as_u32 (sequence c + 1) |}.

Definition take_channel_sequence (c : Channel) : M Z :=
  let! i := lift (channel_index c) in
  let! ch := channel_at i in
  let! _ := modify (alter_channel i bump_sequence) in
  ret (sequence ch).

Definition channel_record (c : Channel) (message_type : Z) (payload : list Z)
    : M Record.Record :=
  let! i := lift (match channel_index c with Ok i => Ok i | _ => Panic end) in
  let! ch := channel_at i in
  let! _ := modify (alter_channel i bump_sequence) in
  ret (new_record crc32c c message_type (sequence ch) 0 (generation ch) payload).

(** *** Keys *)

Definition derive_session_key : M unit :=
  let! s := get in
  let hash := transcript_finish (transcript s) in
  let! secret := lift (expect (secret s)) in
  let! host := lift (expect (session_host_nonce s)) in
  let! guest := lift (expect (session_guest_nonce s)) in
  modify (set_keys (Some hash) (Some (session_key secret (session_id s) host guest))).

Definition derive_channel_key (s : Session) (c : Channel) : option (list Z) :=
  match channel_index c with
  | Ok _ =>
      match the_session_key s, transcript_hash s with
      | Some k, Some hash => Some (channel_key k hash c)
      | _, _ => None
      end
  | _ => None
  end.

Definition established_channel_key (c : Channel) : M (list Z) :=
  let! s := get in
  let! i := lift (match channel_index c with Ok i => Ok i | _ => Panic end) in
  let! handed := lift (expect (handover_keys s !! i)) in
  match handed with
  | Some key => ret key
  | None =>
      let! k := lift (expect (the_session_key s)) in
      let! hash := lift (expect (transcript_hash s)) in
      ret (channel_key k hash c)
  end.

(** *** The control handshake *)

Definition fresh_channels : list ChannelState := replicate 4 channel_default.

Definition host_with_randomness (secret : list Z) (offer : Offer) (id nonce : list Z)
    : Session * Record.Record :=
  let payload := encode_to_vec
    {| ch_version := Some CURRENT_VERSION;
       ch_capabilities := map capability_wire (offer_capabilities offer);
       ch_session_id := id; ch_host_nonce := nonce;
       ch_mode := mode_wire (offer_mode offer);
       ch_width := offer_width offer; ch_height := offer_height offer;
       ch_tile_size := offer_tile_size offer |} in
  let session :=
    {| role := Host; state := AwaitingServerHello; secret := Some secret; offer := Some offer;
       support := None; session_id := id; session_host_nonce := Some nonce;
       session_guest_nonce := None;
       transcript := transcript_record transcript_new payload;
       transcript_hash := None; the_session_key := None; negotiated := None; pending := None;
       pending_auth := None; control_sequence := 1; channels := fresh_channels;
       handover_keys := replicate 4 None |} in
  (session, new_record crc32c Control CLIENT_HELLO 0 0 0 payload).

Definition guest_with_randomness (secret : list Z) (support : Support) (nonce : list Z)
    : Session :=
  {| role := Guest; state := AwaitingClientHello; secret := Some secret; offer := None;
     support := Some support; session_id := replicate 16 0; session_host_nonce := None;
     session_guest_nonce := Some nonce; transcript := transcript_new;
     transcript_hash := None; the_session_key := None; negotiated := None; pending := None;
     pending_auth := None; control_sequence := 0; channels := fresh_channels;
     handover_keys := replicate 4 None |}.

(** The four keys in [Channel] order. *)
Definition established_host (id : list Z) (settled : Negotiated)
    (frame_key input_key clipboard_key audio_key : list Z) (control_sequence : Z) : Session :=
  {| role := Host; state := Established; secret := None; offer := None; support := None;
     session_id := id; session_host_nonce := None; session_guest_nonce := None;
     transcript := transcript_new; transcript_hash := None; the_session_key := None;
     negotiated := Some settled; pending := None; pending_auth := None;
     control_sequence := control_sequence; channels := fresh_channels;
     handover_keys := [Some frame_key; Some input_key; Some clipboard_key; Some audio_key] |}.

Definition default_version : ProtocolVersion := {| major := 0; minor := 0 |}.

Definition on_client_hello (payload : list Z) : M Outcome :=
  let! hello := lift (ok_or (decode_from (A:=ClientHello) payload) DecodeError) in
  let! s := get in
  let! support := lift (expect (support s)) in
  let! version := lift (map_err VersionError
    (negotiate_version CURRENT_VERSION (default default_version (ch_version hello)))) in
  let capabilities :=
    capabilities_at version
      (agreed_capabilities (support_capabilities support) (ch_capabilities hello)) in
  let wanted := default ModeUnspecified (mode_of (ch_mode hello)) in
  let! mode := lift (resolve_mode wanted (support_modes support)) in
  let! tile_size := lift (resolve_tile_size (ch_tile_size hello) (support_tile_sizes support)) in
  let! id := lift (session_id_from_wire (ch_session_id hello)) in
  let! _ := modify (set_session_id id) in
  let! nonce := lift (nonce_from_wire (ch_host_nonce hello)) in
  let! _ := modify (λ s, set_nonces (Some nonce) (session_guest_nonce s) s) in
  let! _ := modify (λ s, set_transcript (transcript_record (transcript s) payload) s) in
  let! guest_nonce := lift (expect (session_guest_nonce s)) in
  let answer_payload := encode_to_vec
    {| sh_version := Some version; sh_capabilities := map capability_wire capabilities;
       sh_guest_nonce := guest_nonce; sh_modes := map mode_wire (support_modes support);
       sh_tile_sizes := support_tile_sizes support;
       sh_width := support_width support; sh_height := support_height support |} in
  let! _ := modify (λ s, set_transcript (transcript_record (transcript s) answer_payload) s) in
  let! _ := derive_session_key in
  let! s := get in
  let! hash := lift (expect (transcript_hash s)) in
  let! key := lift (expect (the_session_key s)) in
  let proof := encode_to_vec {| sa_tag := control_tag key Guest hash |} in
  let! _ := modify (set_pending (Some
    {| version := version; capabilities := capabilities; mode := mode;
       negotiated_width := support_width support; negotiated_height := support_height support;
       tile_size := tile_size |})) in
  let! hello_record := control_record SERVER_HELLO answer_payload in
  let! proof_record := control_record SERVER_AUTH proof in
  let! _ := modify (set_pending_auth (Some proof_record)) in
  let! _ := modify (set_state AwaitingClientAuth) in
  ret {| reply := Some hello_record; event := Continue |}.

Definition on_server_hello (payload : list Z) : M Outcome :=
  let! answer := lift (ok_or (decode_from (A:=ServerHello) payload) DecodeError) in
  let! s := get in
  let! offer := lift (expect (offer s)) in
  let! version := lift (map_err VersionError
    (confirm_version CURRENT_VERSION (default default_version (sh_version answer)))) in
  let! confirmed := lift (map_err CapabilityError
    (confirm_capabilities (offer_capabilities offer) (sh_capabilities answer))) in
  let capabilities := capabilities_at version confirmed in
  let modes := omap mode_of (sh_modes answer) in
  let! mode := lift (resolve_mode (offer_mode offer) modes) in
  let! tile_size := lift (resolve_tile_size (offer_tile_size offer) (sh_tile_sizes answer)) in
  let! nonce := lift (nonce_from_wire (sh_guest_nonce answer)) in
  let! _ := modify (λ s, set_nonces (session_host_nonce s) (Some nonce) s) in
  let! _ := modify (λ s, set_transcript (transcript_record (transcript s) payload) s) in
  let! _ := derive_session_key in
  let! _ := modify (set_pending (Some
    {| version := version; capabilities := capabilities; mode := mode;
       negotiated_width := sh_width answer; negotiated_height := sh_height answer;
       tile_size := tile_size |})) in
  let! _ := modify (set_state AwaitingServerAuth) in
  ret {| reply := None; event := Continue |}.

Definition tag_of (bytes : list Z) : result session_error (list Z) :=
  map_err Field (tag_from_wire bytes).

Definition on_server_auth (payload : list Z) : M Outcome :=
  let! proof := lift (ok_or (decode_from (A:=ServerAuth) payload) DecodeError) in
  let! offered := lift (tag_of (sa_tag proof)) in
  let! s := get in
  let! hash := lift (expect (transcript_hash s)) in
  let! key := lift (expect (the_session_key s)) in
  if negb (verify (control_tag key Guest hash) offered) then lift (Err BadTag)
  else
    let answer := encode_to_vec {| ca_tag := control_tag key Host hash |} in
    let! record := control_record CLIENT_AUTH answer in
    let! _ := modify (λ s, set_negotiated (pending s) s) in
    let! _ := modify (set_state Established) in
    ret {| reply := Some record; event := ControlEstablished |}.

Definition on_client_auth (payload : list Z) : M Outcome :=
  let! proof := lift (ok_or (decode_from (A:=ClientAuth) payload) DecodeError) in
  let! offered := lift (tag_of (ca_tag proof)) in
  let! s := get in
  let! hash := lift (expect (transcript_hash s)) in
  let! key := lift (expect (the_session_key s)) in
  if negb (verify (control_tag key Host hash) offered) then lift (Err BadTag)
  else
    let! _ := modify (λ s, set_negotiated (pending s) s) in
    let! _ := modify (set_state Established) in
    ret {| reply := None; event := ControlEstablished |}.

(** *** Binding a channel *)

Definition channel_hello (c : Channel) (draw : list Z) : M Record.Record :=
  let! i := lift (channel_index c) in
  let! s := get in
  if (if negotiated s is None then true else false) || negb (bool_decide (role s = Host))
  then lift (Err NotEstablished)
  else
    let! ch := channel_at i in
    let! _ := modify (alter_channel i (λ ch,
      {| generation := generation ch; host_nonce := Some draw; guest_nonce := guest_nonce ch;
         key := key ch; sequence := sequence ch |})) in
    channel_record c CHANNEL_HELLO (encode_to_vec
      {| hello_session_id := session_id s; hello_channel := as_wire c;
         hello_generation := generation ch; hello_nonce := draw |}).

Definition open_channel (c : Channel) (draw : list Z) : M Record.Record := channel_hello c draw.

Definition reconnect_channel (c : Channel) (draw : list Z) : M Record.Record :=
  let! i := lift (channel_index c) in
  let! _ := modify (alter_channel i (λ ch,
    {| generation := as_u32 (generation ch + 1); host_nonce := host_nonce ch;
       guest_nonce := guest_nonce ch; key := None; sequence := 0 |})) in
  channel_hello c draw.

Definition on_channel_hello (c : Channel) (payload draw : list Z) : M Outcome :=
  let! i := lift (channel_index c) in
  let! hello := lift (ok_or (decode_from (A:=ChannelHello) payload) DecodeError) in
  let! s := get in
  let! id := lift (session_id_from_wire (hello_session_id hello)) in
  if negb (bool_decide (id = session_id s)) then lift (Err UnknownSession)
  else if negb (hello_channel hello =? as_wire c) then lift (Err (Unexpected c CHANNEL_HELLO))
  else
    let! host := lift (nonce_from_wire (hello_nonce hello)) in
    let! k := established_channel_key c in
    let tag := channel_tag k Guest c host draw in
    let! _ := modify (alter_channel i (λ ch,
      {| generation := hello_generation hello; host_nonce := Some host;
         guest_nonce := Some draw; key := Some k; sequence := sequence ch |})) in
    let! record := channel_record c CHANNEL_ACK
      (encode_to_vec {| ack_nonce := draw; ack_tag := tag |}) in
    ret {| reply := Some record; event := Continue |}.

Definition set_key (k : option (list Z)) (ch : ChannelState) : ChannelState :=
  {| generation := generation ch; host_nonce := host_nonce ch; guest_nonce := guest_nonce ch;
     key := k; sequence := sequence ch |}.

Definition on_channel_ack (c : Channel) (payload : list Z) : M Outcome :=
  let! i := lift (channel_index c) in
  let! ack := lift (ok_or (decode_from (A:=ChannelAck) payload) DecodeError) in
  let! ch := channel_at i in
  let! host := lift (ok_or (host_nonce ch) NotEstablished) in
  let! guest := lift (nonce_from_wire (ack_nonce ack)) in
  let! offered := lift (tag_of (ack_tag ack)) in
  let! k := established_channel_key c in
  if negb (verify (channel_tag k Guest c host guest) offered) then lift (Err BadTag)
  else
    let mine := channel_tag k Host c host guest in
    let! _ := modify (alter_channel i (set_key (Some k))) in
    let! record := channel_record c CHANNEL_AUTH (encode_to_vec {| auth_tag := mine |}) in
    ret {| reply := Some record; event := ChannelBound c |}.

Definition on_channel_auth (c : Channel) (payload : list Z) : M Outcome :=
  let! i := lift (channel_index c) in
  let! auth := lift (ok_or (decode_from (A:=ChannelAuth) payload) DecodeError) in
  let! offered := lift (tag_of (auth_tag auth)) in
  let! ch := channel_at i in
  let! host := lift (ok_or (host_nonce ch) NotEstablished) in
  let! guest := lift (ok_or (guest_nonce ch) NotEstablished) in
  let! k := established_channel_key c in
  if negb (verify (channel_tag k Host c host guest) offered) then
    let! _ := modify (alter_channel i (set_key None)) in
    lift (Err BadTag)
  else ret {| reply := None; event := ChannelBound c |}.

(** *** The state machine *)

(** [draw] is the nonce a [ChannelHello] is answered with. *)
Definition handle (header : Header) (payload draw : list Z) : M Outcome :=
  let! s := get in
  let c := channel header in
  let ty := message_type header in
  match state s, c with
  | AwaitingClientHello, Control =>
      if ty =? CLIENT_HELLO then on_client_hello payload else lift (Err (Unexpected c ty))
  | AwaitingServerHello, Control =>
      if ty =? SERVER_HELLO then on_server_hello payload else lift (Err (Unexpected c ty))
  | AwaitingServerAuth, Control =>
      if ty =? SERVER_AUTH then on_server_auth payload else lift (Err (Unexpected c ty))
  | AwaitingClientAuth, Control =>
      if ty =? CLIENT_AUTH then on_client_auth payload else lift (Err (Unexpected c ty))
  | Established, (Frame | Input | Clipboard | Audio) =>
      if ty =? CHANNEL_HELLO then on_channel_hello c payload draw
      else if ty =? CHANNEL_ACK then on_channel_ack c payload
      else if ty =? CHANNEL_AUTH then on_channel_auth c payload
      else lift (Err (Unexpected c ty))
  | _, _ => lift (Err (Unexpected c ty))
  end.

Definition take_pending_auth (s : Session) : option Record.Record * Session :=
  (pending_auth s, set_pending_auth None s).

Definition accept (s : Session) (header : Header) : result session_error unit :=
  match channel_index (channel header) with
  | Ok i =>
      let? ch := expect (channels s !! i) in
      if negb (Record.generation header =? generation ch)
      then Err (StaleGeneration (channel header) (generation ch) (Record.generation header))
      else Ok tt
  | _ => Ok tt
  end.

Definition generation_of (s : Session) (c : Channel) : Z :=
  match channel_index c with
  | Ok i => match channels s !! i with Some ch => generation ch | None => 0 end
  | _ => 0
  end.

Definition bound_key (s : Session) (c : Channel) : option (list Z) :=
  match channel_index c with
  | Ok i => match channels s !! i with Some ch => key ch | None => None end
  | _ => None
  end.
End session.

(** ** Messages as the type system has them *)

Definition is_i32 (z : Z) : Prop := -2147483648 <= z < 2147483648.

Definition version_typed (v : option ProtocolVersion) : Prop :=
  match v with Some v => is_u32 (major v) ∧ is_u32 (minor v) | None => True end.

Definition client_hello_typed (m : ClientHello) : Prop :=
  version_typed (ch_version m) ∧ Forall is_i32 (ch_capabilities m) ∧
  Forall is_u8 (ch_session_id m) ∧ Forall is_u8 (ch_host_nonce m) ∧ is_i32 (ch_mode m) ∧
  is_u32 (ch_width m) ∧ is_u32 (ch_height m) ∧ is_u32 (ch_tile_size m).
Definition server_hello_typed (m : ServerHello) : Prop :=
  version_typed (sh_version m) ∧ Forall is_i32 (sh_capabilities m) ∧
  Forall is_u8 (sh_guest_nonce m) ∧ Forall is_i32 (sh_modes m) ∧ Forall is_u32 (sh_tile_sizes m) ∧
  is_u32 (sh_width m) ∧ is_u32 (sh_height m).
Definition server_auth_typed (m : ServerAuth) : Prop := Forall is_u8 (sa_tag m).
Definition client_auth_typed (m : ClientAuth) : Prop := Forall is_u8 (ca_tag m).
Definition channel_hello_typed (m : ChannelHello) : Prop :=
  Forall is_u8 (hello_session_id m) ∧ is_u32 (hello_channel m) ∧ is_u32 (hello_generation m) ∧
  Forall is_u8 (hello_nonce m).
Definition channel_ack_typed (m : ChannelAck) : Prop :=
  Forall is_u8 (ack_nonce m) ∧ Forall is_u8 (ack_tag m).
Definition channel_auth_typed (m : ChannelAuth) : Prop := Forall is_u8 (auth_tag m).

(** What is promised of a message's wire form: it reads back. *)
Class MessageLaws (A : Type) `{Message A} (typed : A → Prop) : Prop :=
  decode_encode : ∀ m : A, typed m → decode_from (encode_to_vec m) = Some m.

(** ** Settling *)

Lemma mode_of_wire m : mode_of (mode_wire m) = Some m.
Proof. by destruct m. Qed.

Lemma omap_mode_wire ms : omap mode_of (map mode_wire ms) = ms.
Proof.
  induction ms as [|m ms IH]; [done|]. change (map mode_wire (m :: ms)) with (mode_wire m :: map mode_wire ms).
  cbn [omap list_omap]. rewrite mode_of_wire. f_equal. exact IH.
Qed.

Lemma capability_wire_i32 cs : Forall is_i32 (map capability_wire cs).
Proof. induction cs; cbn; constructor; auto. destruct a; unfold is_i32; cbn; lia. Qed.

Lemma mode_wire_i32 ms : Forall is_i32 (map mode_wire ms).
Proof. induction ms; cbn; constructor; auto. destruct a; unfold is_i32; cbn; lia. Qed.

Lemma resolve_mode_sound wanted supported m :
  resolve_mode wanted supported = Ok m → m ∈ supported ∧ (wanted ≠ Auto → m = wanted).
Proof.
  unfold resolve_mode. destruct supported as [|first rest]; [discriminate|].
  destruct wanted; try (destruct (decide _); [|discriminate]); intros; simplify_eq; split; auto.
  - by left.
  - done.
Qed.

Lemma fold_max_spec l x : x <= fold_left Z.max l x ∧ (fold_left Z.max l x = x ∨ fold_left Z.max l x ∈ l) ∧
  ∀ y, y ∈ l → y <= fold_left Z.max l x.
Proof.
  revert x. induction l as [|a l IH]; intros x; cbn [fold_left].
  { split; [lia|]. split; [by left|]. intros y []%not_elem_of_nil. }
  destruct (IH (Z.max x a)) as (H1 & H2 & H3). split; [lia|]. split.
  - destruct H2 as [->|H2]; [|right; by right].
    destruct (Z.max_spec x a) as [[_ ->]|[_ ->]]; [right; by left|by left].
  - intros y [->|Hy]%elem_of_cons; [lia|auto].
Qed.

Lemma fold_min_spec l x : fold_left Z.min l x <= x ∧ (fold_left Z.min l x = x ∨ fold_left Z.min l x ∈ l) ∧
  ∀ y, y ∈ l → fold_left Z.min l x <= y.
Proof.
  revert x. induction l as [|a l IH]; intros x; cbn [fold_left].
  { split; [lia|]. split; [by left|]. intros y []%not_elem_of_nil. }
  destruct (IH (Z.min x a)) as (H1 & H2 & H3). split; [lia|]. split.
  - destruct H2 as [->|H2]; [|right; by right].
    destruct (Z.min_spec x a) as [[_ ->]|[_ ->]]; [by left|right; by left].
  - intros y [->|Hy]%elem_of_cons; [lia|auto].
Qed.

Lemma list_max_spec l m : list_max l = Some m → m ∈ l ∧ ∀ y, y ∈ l → y <= m.
Proof.
  destruct l as [|x l]; [discriminate|]. intros [= <-].
  destruct (fold_max_spec l x) as (H1 & H2 & H3). split.
  - destruct H2 as [->|]; [by left|by right].
  - intros y [->|Hy]%elem_of_cons; auto.
Qed.

Lemma list_min_spec l m : list_min l = Some m → m ∈ l ∧ ∀ y, y ∈ l → m <= y.
Proof.
  destruct l as [|x l]; [discriminate|]. intros [= <-].
  destruct (fold_min_spec l x) as (H1 & H2 & H3). split.
  - destruct H2 as [->|]; [by left|by right].
  - intros y [->|Hy]%elem_of_cons; auto.
Qed.

(** The tile size settled on is one the guest has: the wanted one, else the
    largest below it, else the smallest of all. *)
Lemma resolve_tile_size_spec wanted supported size :
  resolve_tile_size wanted supported = Ok size →
  size ∈ supported ∧
  (wanted ∈ supported → size = wanted) ∧
  (wanted ∉ supported → (∃ s, s ∈ supported ∧ s < wanted) →
     size < wanted ∧ ∀ s, s ∈ supported → s < wanted → s <= size) ∧
  (wanted ∉ supported → (∀ s, s ∈ supported → wanted <= s) → ∀ s, s ∈ supported → size <= s).
Proof.
  unfold resolve_tile_size. destruct (decide (wanted ∈ supported)) as [Hin|Hout].
  { intros [= <-]. split_and!; try done. }
  destruct (list_max _) as [m|] eqn:Em.
  - intros [= <-]. apply list_max_spec in Em as [Hm Hall].
    apply list_elem_of_filter in Hm as [Hlt Hm]. split_and!; try done.
    + intros _ _. split; [done|]. intros s Hs Hsw. apply Hall, list_elem_of_filter. done.
    + intros _ Habove. specialize (Habove m Hm). lia.
  - destruct (list_min supported) as [m|] eqn:En; [|discriminate]. intros [= <-].
    apply list_min_spec in En as [Hm Hall]. split_and!; try done.
    intros _ (s & Hs & Hlt). exfalso.
    assert (Hin : s ∈ filter (λ size, size < wanted) supported) by (apply list_elem_of_filter; done).
    destruct (filter _ supported); [by apply not_elem_of_nil in Hin|discriminate].
Qed.

Lemma resolve_tile_size_ok wanted supported :
  supported ≠ [] → ∃ size, resolve_tile_size wanted supported = Ok size.
Proof.
  intros Hne. unfold resolve_tile_size. case_decide; [eauto|].
  destruct (list_max _); [cbn; eauto|]. destruct supported; [done|cbn; eauto].
Qed.

(** ** A whole handshake *)

Section handshake.
Context `{CryptoLaws} (crc32c : list Z → Z).
Context `{Message ClientHello, Message ServerHello, Message ServerAuth, Message ClientAuth,
          Message ChannelHello, Message ChannelAck, Message ChannelAuth}.
Context `{!MessageLaws ClientHello client_hello_typed, !MessageLaws ServerHello server_hello_typed,
          !MessageLaws ServerAuth server_auth_typed, !MessageLaws ClientAuth client_auth_typed,
          !MessageLaws ChannelHello channel_hello_typed, !MessageLaws ChannelAck channel_ack_typed,
          !MessageLaws ChannelAuth channel_auth_typed}.

Local Abbreviation step s r := (handle crc32c (header r) (payload r) [] s).

(** The four records of the control handshake, each handed to the other end. *)
Definition control_handshake (host : Session * Record.Record) (guest : Session)
    : option (Session * Session) :=
  let '(h0, hello) := host in
  match step guest hello with
  | (g1, Ok {| reply := Some server_hello |}) =>
      match step h0 server_hello, take_pending_auth g1 with
      | (h1, Ok _), (Some server_auth, g1) =>
          match step h1 server_auth with
          | (h2, Ok {| reply := Some client_auth; event := ControlEstablished |}) =>
              match step g1 client_auth with
              | (g2, Ok {| event := ControlEstablished |}) => Some (h2, g2)
              | _ => None
              end
          | _ => None
          end
      | _, _ => None
      end
  | _ => None
  end.

Lemma tag_round_trip k m : tag_of (hmac k m) = Ok (hmac k m).
Proof.
  unfold tag_of, tag_from_wire. rewrite length_hmac. done.
Qed.

Lemma nonce_ok n : zlen n = NONCE_LEN → nonce_from_wire n = Ok n.
Proof. unfold nonce_from_wire. by intros ->. Qed.
Lemma id_ok n : zlen n = SESSION_ID_LEN → session_id_from_wire n = Ok n.
Proof. unfold session_id_from_wire. by intros ->. Qed.

Context (host_secret guest_secret : list Z) (the_offer : Offer) (the_support : Support)
        (sid hn gn : list Z).
Context (Hid : zlen sid = SESSION_ID_LEN) (Hidb : Forall is_u8 sid).
Context (Hhn : zlen hn = NONCE_LEN) (Hhnb : Forall is_u8 hn).
Context (Hgn : zlen gn = NONCE_LEN) (Hgnb : Forall is_u8 gn).
Context (Hoffer : is_u32 (offer_width the_offer) ∧ is_u32 (offer_height the_offer) ∧
                  is_u32 (offer_tile_size the_offer)).
Context (Hsupport : is_u32 (support_width the_support) ∧ is_u32 (support_height the_support) ∧
                    Forall is_u32 (support_tile_sizes the_support)).

Definition the_client_hello : ClientHello :=
  {| ch_version := Some CURRENT_VERSION;
     ch_capabilities := map capability_wire (offer_capabilities the_offer);
     ch_session_id := sid; ch_host_nonce := hn; ch_mode := mode_wire (offer_mode the_offer);
     ch_width := offer_width the_offer; ch_height := offer_height the_offer;
     ch_tile_size := offer_tile_size the_offer |}.

Definition agreed : list Capability :=
  capabilities_at CURRENT_VERSION
    (agreed_capabilities (support_capabilities the_support)
       (map capability_wire (offer_capabilities the_offer))).

Definition the_server_hello : ServerHello :=
  {| sh_version := Some CURRENT_VERSION; sh_capabilities := map capability_wire agreed;
     sh_guest_nonce := gn; sh_modes := map mode_wire (support_modes the_support);
     sh_tile_sizes := support_tile_sizes the_support;
     sh_width := support_width the_support; sh_height := support_height the_support |}.

Lemma current_version_typed : version_typed (Some CURRENT_VERSION).
Proof. split; unfold is_u32; cbn; lia. Qed.

Lemma client_hello_reads :
  decode_from (encode_to_vec the_client_hello) = Some the_client_hello.
Proof.
  apply decode_encode. destruct Hoffer as (?&?&?).
  unfold client_hello_typed, the_client_hello.
  cbn [ch_version ch_capabilities ch_session_id ch_host_nonce ch_mode ch_width ch_height ch_tile_size].
  repeat match goal with |- _ ∧ _ => split end;
    auto using capability_wire_i32, current_version_typed.
  destruct (offer_mode the_offer); unfold is_i32; cbn; lia.
Qed.

Lemma server_hello_reads :
  decode_from (encode_to_vec the_server_hello) = Some the_server_hello.
Proof.
  apply decode_encode. destruct Hsupport as (?&?&?).
  unfold server_hello_typed, the_server_hello.
  cbn [sh_version sh_capabilities sh_guest_nonce sh_modes sh_tile_sizes sh_width sh_height].
  repeat match goal with |- _ ∧ _ => split end;
    auto using capability_wire_i32, mode_wire_i32, current_version_typed.
Qed.

Lemma agreed_in_offer c : c ∈ agreed → c ∈ offer_capabilities the_offer ∧ c ≠ CapabilityUnspecified.
Proof.
  intros (Hc & _)%elem_of_capabilities_at. apply elem_of_agreed in Hc as (_ & Hn & Hr & _).
  split; [|done]. apply list_elem_of_fmap in Hr as (c' & Hw & Hc').
  by destruct c, c'.
Qed.

Context (m : Mode) (Hmode : resolve_mode (offer_mode the_offer) (support_modes the_support) = Ok m).
Context (ts : Z) (Hts : resolve_tile_size (offer_tile_size the_offer)
                          (support_tile_sizes the_support) = Ok ts).

Definition settled : Negotiated :=
  {| version := CURRENT_VERSION; capabilities := agreed; mode := m;
     negotiated_width := support_width the_support;
     negotiated_height := support_height the_support; tile_size := ts |}.

Definition the_transcript : Transcript :=
  transcript_record (transcript_record transcript_new (encode_to_vec the_client_hello))
    (encode_to_vec the_server_hello).
Definition the_hash : list Z := transcript_finish the_transcript.
Definition host_key : list Z := session_key host_secret sid hn gn.
Definition guest_key : list Z := session_key guest_secret sid hn gn.

Definition host0 : Session * Record.Record :=
  host_with_randomness crc32c host_secret the_offer sid hn.
Definition guest0 : Session := guest_with_randomness guest_secret the_support gn.

Definition server_hello_record : Record.Record :=
  new_record crc32c Control SERVER_HELLO 0 0 0 (encode_to_vec the_server_hello).
Definition server_auth_record : Record.Record :=
  new_record crc32c Control SERVER_AUTH 1 0 0
    (encode_to_vec {| sa_tag := control_tag guest_key Guest the_hash |}).
Definition client_auth_record : Record.Record :=
  new_record crc32c Control CLIENT_AUTH 1 0 0
    (encode_to_vec {| ca_tag := control_tag host_key Host the_hash |}).

(** The guest once it has answered, and the host once it has heard. *)
Definition guest1 : Session :=
  {| role := Guest; state := AwaitingClientAuth; secret := Some guest_secret; offer := None;
     support := Some the_support; session_id := sid; session_host_nonce := Some hn;
     session_guest_nonce := Some gn; transcript := the_transcript;
     transcript_hash := Some the_hash; the_session_key := Some guest_key; negotiated := None;
     pending := Some settled; pending_auth := Some server_auth_record; control_sequence := 2;
     channels := fresh_channels; handover_keys := replicate 4 None |}.
Definition host1 : Session :=
  {| role := Host; state := AwaitingServerAuth; secret := Some host_secret;
     offer := Some the_offer; support := None; session_id := sid; session_host_nonce := Some hn;
     session_guest_nonce := Some gn; transcript := the_transcript;
     transcript_hash := Some the_hash; the_session_key := Some host_key; negotiated := None;
     pending := Some settled; pending_auth := None; control_sequence := 1;
     channels := fresh_channels; handover_keys := replicate 4 None |}.

Lemma guest_answers :
  step guest0 host0.2
  = (guest1, Ok {| reply := Some server_hello_record; event := Continue |}).
Proof.
  change (payload host0.2) with (encode_to_vec the_client_hello).
  unfold handle. cbn -[on_client_hello encode_to_vec]. unfold on_client_hello, bindM at 1.
  rewrite client_hello_reads. unfold lift at 1. cbn [ok_or].
  unfold bindM, get, lift, modify, ret. cbn -[encode_to_vec agreed_capabilities capabilities_at
    resolve_tile_size resolve_mode transcript_record session_key control_tag transcript_finish
    mode_of mode_wire new_record].
  rewrite mode_of_wire. unfold default. cbn [from_option]. unfold id. rewrite Hmode, Hts, (id_ok sid Hid), (nonce_ok hn Hhn).
  reflexivity.
Qed.

Lemma host_hears :
  step host0.1 server_hello_record = (host1, Ok {| reply := None; event := Continue |}).
Proof.
  change (payload server_hello_record) with (encode_to_vec the_server_hello).
  unfold handle. cbn -[on_server_hello encode_to_vec]. unfold on_server_hello, bindM at 1.
  rewrite server_hello_reads. unfold lift at 1. cbn [ok_or].
  unfold bindM, get, lift, modify, ret. cbn -[encode_to_vec agreed capabilities_at
    resolve_tile_size resolve_mode transcript_record session_key control_tag transcript_finish
    mode_of mode_wire new_record confirm_capabilities].
  rewrite confirm_capabilities_ok by apply agreed_in_offer. cbn [map_err].
  rewrite omap_mode_wire, Hmode, Hts, (nonce_ok gn Hgn).
  unfold agreed at 1. rewrite capabilities_at_idemp. reflexivity.
Qed.

(** The host's check of the guest's proof. *)
Lemma host_checks :
  step host1 server_auth_record =
  if verify (control_tag host_key Guest the_hash) (control_tag guest_key Guest the_hash)
  then (set_state Established (set_negotiated (Some settled)
          (set_control_sequence 2 host1)),
        Ok {| reply := Some client_auth_record; event := ControlEstablished |})
  else (host1, Err BadTag).
Proof.
  change (payload server_auth_record)
    with (encode_to_vec {| sa_tag := control_tag guest_key Guest the_hash |}).
  unfold handle. cbn -[on_server_auth encode_to_vec]. unfold on_server_auth, bindM at 1.
  rewrite decode_encode by apply hmac_u8. unfold lift at 1. cbn [ok_or].
  unfold bindM, get, lift, modify, ret. cbn -[encode_to_vec tag_of verify control_tag].
  unfold control_tag at 1. rewrite tag_round_trip. fold (control_tag guest_key Guest the_hash).
  by destruct (verify _ _).
Qed.

Lemma guest_checks :
  step (set_pending_auth None guest1) client_auth_record =
  if verify (control_tag guest_key Host the_hash) (control_tag host_key Host the_hash)
  then (set_state Established (set_negotiated (Some settled) (set_pending_auth None guest1)),
        Ok {| reply := None; event := ControlEstablished |})
  else (set_pending_auth None guest1, Err BadTag).
Proof.
  change (payload client_auth_record)
    with (encode_to_vec {| ca_tag := control_tag host_key Host the_hash |}).
  unfold handle. cbn -[on_client_auth encode_to_vec]. unfold on_client_auth, bindM at 1.
  rewrite decode_encode by apply hmac_u8. unfold lift at 1. cbn [ok_or].
  unfold bindM, get, lift, modify, ret. cbn -[encode_to_vec tag_of verify control_tag].
  unfold control_tag at 1. rewrite tag_round_trip. fold (control_tag host_key Host the_hash).
  by destruct (verify _ _).
Qed.
End handshake.

(** ** Binding a channel of an established session *)

Lemma channel_index_lt c i : channel_index c = Ok i → (i < 4)%nat.
Proof. intros H; destruct c; cbn in H; simplify_eq; lia. Qed.

Section binding.
Context `{CryptoLaws} (crc32c : list Z → Z).
Context `{Message ClientHello, Message ServerHello, Message ServerAuth, Message ClientAuth,
          Message ChannelHello, Message ChannelAck, Message ChannelAuth}.
Context `{!MessageLaws ChannelHello channel_hello_typed, !MessageLaws ChannelAck channel_ack_typed,
          !MessageLaws ChannelAuth channel_auth_typed}.

(** An established end whose key for channel [c] is [k]. *)
Record established (s : Session) (c : Channel) (k : list Z) : Prop := {
  est_state : state s = Established;
  est_channels : length (channels s) = 4%nat;
  est_id : zlen (session_id s) = SESSION_ID_LEN;
  est_id_u8 : Forall is_u8 (session_id s);
  est_key : ∀ s', the_session_key s' = the_session_key s →
    transcript_hash s' = transcript_hash s → handover_keys s' = handover_keys s →
    established_channel_key c s' = (s', Ok k);
}.

Lemma handle_established s c ty p draw r :
  state s = Established → c ≠ Control → channel r = c → message_type r = ty →
  handle crc32c r p draw s =
  (if ty =? CHANNEL_HELLO then on_channel_hello crc32c c p draw s
   else if ty =? CHANNEL_ACK then on_channel_ack crc32c c p s
   else if ty =? CHANNEL_AUTH then on_channel_auth c p s
   else (s, Err (Unexpected c ty))).
Proof.
  intros Hs Hc <- <-. unfold handle, bindM, get. rewrite Hs.
  destruct (channel r); [done|..]; repeat case_if; reflexivity.
Qed.

Context (c : Channel) (i : nat) (Hi : channel_index c = Ok i) (k : list Z).

Lemma bindable : c ≠ Control.
Proof. by intros ->. Qed.

Lemma channel_lookup s : length (channels s) = 4%nat → ∃ ch, channels s !! i = Some ch.
Proof. intros Hl. apply lookup_lt_is_Some_2. pose proof (channel_index_lt _ _ Hi). lia. Qed.

Lemma channel_record_eq s ty p ch :
  channels s !! i = Some ch →
  channel_record crc32c c ty p s
  = (alter_channel i bump_sequence s,
     Ok (new_record crc32c c ty (sequence ch) 0 (generation ch) p)).
Proof.
  intros Hch. unfold channel_record, channel_at, bindM, get, lift, modify, ret.
  rewrite Hi. cbn. by rewrite Hch.
Qed.

(** The guest's answer to a hello of this session. *)
Lemma on_channel_hello_eq s p hello draw ch :
  established s c k → decode_from p = Some hello → hello_session_id hello = session_id s →
  hello_channel hello = as_wire c → zlen (hello_nonce hello) = NONCE_LEN →
  channels s !! i = Some ch →
  let ch' := {| generation := hello_generation hello; host_nonce := Some (hello_nonce hello);
                guest_nonce := Some draw; key := Some k; sequence := sequence ch |} in
  on_channel_hello crc32c c p draw s
  = (alter_channel i bump_sequence (alter_channel i (λ _, ch') s),
     Ok {| reply := Some (new_record crc32c c CHANNEL_ACK (sequence ch) 0 (hello_generation hello)
             (encode_to_vec {| ack_nonce := draw;
                ack_tag := channel_tag k Guest c (hello_nonce hello) draw |}));
           event := Continue |}).
Proof.
  intros He Hp Hid Hc Hn Hch ch'. unfold on_channel_hello, bindM, get, lift, modify, ret.
  rewrite Hi. cbn -[established_channel_key channel_record encode_to_vec channel_tag].
  rewrite Hp. cbn -[established_channel_key channel_record encode_to_vec channel_tag].
  rewrite Hid, (id_ok _ (est_id _ _ _ He)), bool_decide_eq_true_2, Hc, Z.eqb_refl by done.
  cbn -[established_channel_key channel_record encode_to_vec channel_tag].
  rewrite (nonce_ok _ Hn), (est_key _ _ _ He s) by auto.
  assert (Hal : ∀ f g, (∀ x, x = ch → f x = g x) →
    alter_channel i f s = alter_channel i g s).
  { intros f g Hfg. unfold alter_channel. f_equal. apply list_alter_ext; [|done].
    intros x Hx. rewrite Hch in Hx. injection Hx as <-. by apply Hfg. }
  rewrite (Hal _ (λ _, ch')) by (by intros x ->).
  rewrite (channel_record_eq _ _ _ ch'); [done|].
  cbn [alter_channel channels]. rewrite list_lookup_alter_eq, Hch. done.
Qed.

(** The host's check of an ack. *)
Lemma on_channel_ack_eq s p ack hn ch :
  established s c k → decode_from p = Some ack → zlen (ack_nonce ack) = NONCE_LEN →
  zlen (ack_tag ack) = TAG_LEN → channels s !! i = Some ch → host_nonce ch = Some hn →
  on_channel_ack crc32c c p s
  = if verify (channel_tag k Guest c hn (ack_nonce ack)) (ack_tag ack)
    then (alter_channel i bump_sequence (alter_channel i (set_key (Some k)) s),
          Ok {| reply := Some (new_record crc32c c CHANNEL_AUTH (sequence ch) 0 (generation ch)
                  (encode_to_vec {| auth_tag := channel_tag k Host c hn (ack_nonce ack) |}));
                event := ChannelBound c |})
    else (s, Err BadTag).
Proof.
  intros He Hp Hn Ht Hch Hh. unfold on_channel_ack, channel_at, bindM, get, lift, modify, ret.
  rewrite Hi. cbn -[established_channel_key channel_record encode_to_vec channel_tag].
  rewrite Hp. cbn -[established_channel_key channel_record encode_to_vec channel_tag].
  rewrite Hch. cbn -[established_channel_key channel_record encode_to_vec channel_tag].
  rewrite Hh. cbn -[established_channel_key channel_record encode_to_vec channel_tag].
  rewrite (nonce_ok _ Hn). unfold tag_of, tag_from_wire. rewrite Ht, Z.eqb_refl.
  cbn -[established_channel_key channel_record encode_to_vec channel_tag].
  rewrite (est_key _ _ _ He s) by auto. destruct (verify _ _); [|done]. cbn [negb].
  rewrite (channel_record_eq _ _ _ (set_key (Some k) ch)); [done|].
  cbn [alter_channel channels]. rewrite list_lookup_alter_eq, Hch. done.
Qed.

(** The guest's check of the host's proof. *)
Lemma on_channel_auth_eq s p auth hn gn ch :
  established s c k → decode_from p = Some auth → zlen (auth_tag auth) = TAG_LEN →
  channels s !! i = Some ch → host_nonce ch = Some hn → guest_nonce ch = Some gn →
  on_channel_auth c p s
  = if verify (channel_tag k Host c hn gn) (auth_tag auth)
    then (s, Ok {| reply := None; event := ChannelBound c |})
    else (alter_channel i (set_key None) s, Err BadTag).
Proof.
  intros He Hp Ht Hch Hh Hg. unfold on_channel_auth, channel_at, bindM, get, lift, modify, ret.
  rewrite Hi. cbn -[established_channel_key encode_to_vec channel_tag].
  rewrite Hp. cbn -[established_channel_key encode_to_vec channel_tag].
  unfold tag_of, tag_from_wire. rewrite Ht, Z.eqb_refl.
  cbn -[established_channel_key encode_to_vec channel_tag].
  rewrite Hch. cbn -[established_channel_key encode_to_vec channel_tag].
  rewrite Hh, Hg. cbn -[established_channel_key encode_to_vec channel_tag].
  rewrite (est_key _ _ _ He s) by auto. by destruct (verify _ _).
Qed.

(** The host's hello. *)
Lemma channel_hello_eq s draw ch :
  established s c k → negotiated s ≠ None → role s = Host → channels s !! i = Some ch →
  channel_hello crc32c c draw s
  = (alter_channel i bump_sequence (alter_channel i (λ ch,
       {| generation := generation ch; host_nonce := Some draw; guest_nonce := guest_nonce ch;
          key := key ch; sequence := sequence ch |}) s),
     Ok (new_record crc32c c CHANNEL_HELLO (sequence ch) 0 (generation ch)
       (encode_to_vec {| hello_session_id := session_id s; hello_channel := as_wire c;
          hello_generation := generation ch; hello_nonce := draw |}))).
Proof.
  intros He Hn Hr Hch. unfold channel_hello, channel_at, bindM, get, lift, modify, ret.
  rewrite Hi. cbn -[channel_record encode_to_vec].
  rewrite bool_decide_eq_true_2 by done. destruct (negotiated s); [|done].
  cbn -[channel_record encode_to_vec].
  rewrite Hch. cbn -[channel_record encode_to_vec].
  rewrite (channel_record_eq _ _ _
    {| generation := generation ch; host_nonce := Some draw; guest_nonce := guest_nonce ch;
       key := key ch; sequence := sequence ch |}); [done|].
  cbn [alter_channel channels]. rewrite list_lookup_alter_eq, Hch. done.
Qed.
(** *** The whole exchange *)

Lemma established_alter s f : established s c k → established (alter_channel i f s) c k.
Proof.
  intros []. split; auto. cbn. by rewrite length_alter.
Qed.

Lemma lookup_alter_channel s f ch :
  channels s !! i = Some ch → channels (alter_channel i f s) !! i = Some (f ch).
Proof. intros Hch. cbn. by rewrite list_lookup_alter_eq, Hch. Qed.

(** A hello, its ack and the host's proof, each handed to the other end. *)
Definition bind_channel (hello : M Record.Record) (host guest : Session) (draw : list Z)
    : option (Session * Session) :=
  match hello host with
  | (h1, Ok r1) =>
      match handle crc32c (header r1) (payload r1) draw guest with
      | (g1, Ok {| reply := Some r2 |}) =>
          match handle crc32c (header r2) (payload r2) [] h1 with
          | (h2, Ok {| reply := Some r3; event := ChannelBound _ |}) =>
              match handle crc32c (header r3) (payload r3) [] g1 with
              | (g2, Ok {| event := ChannelBound _ |}) => Some (h2, g2)
              | _ => None
              end
          | _ => None
          end
      | _ => None
      end
  | _ => None
  end.

Lemma handle_hello s r p draw :
  established s c k → channel r = c → message_type r = CHANNEL_HELLO →
  handle crc32c r p draw s = on_channel_hello crc32c c p draw s.
Proof. intros He Hc Ht. by rewrite (handle_established s c _ p draw r (est_state _ _ _ He) bindable Hc Ht). Qed.
Lemma handle_ack s r p draw :
  established s c k → channel r = c → message_type r = CHANNEL_ACK →
  handle crc32c r p draw s = on_channel_ack crc32c c p s.
Proof. intros He Hc Ht. by rewrite (handle_established s c _ p draw r (est_state _ _ _ He) bindable Hc Ht). Qed.
Lemma handle_auth s r p draw :
  established s c k → channel r = c → message_type r = CHANNEL_AUTH →
  handle crc32c r p draw s = on_channel_auth c p s.
Proof. intros He Hc Ht. by rewrite (handle_established s c _ p draw r (est_state _ _ _ He) bindable Hc Ht). Qed.

Context (h g : Session) (Hh : established h c k) (Hg : established g c k).
Context (Hsame : session_id g = session_id h).
Context (draw1 draw2 : list Z).
Context (Hd1 : zlen draw1 = NONCE_LEN) (Hd1b : Forall is_u8 draw1).
Context (Hd2 : zlen draw2 = NONCE_LEN) (Hd2b : Forall is_u8 draw2).

(** A host that has just sent a hello of generation [gen] binds. *)
Lemma bind_from_hello hello h1 r1 seq gen ch1 :
  hello h = (h1, Ok r1) → is_u32 gen →
  r1 = new_record crc32c c CHANNEL_HELLO seq 0 gen
         (encode_to_vec {| hello_session_id := session_id h; hello_channel := as_wire c;
            hello_generation := gen; hello_nonce := draw1 |}) →
  established h1 c k → channels h1 !! i = Some ch1 →
  host_nonce ch1 = Some draw1 → generation ch1 = gen →
  ∃ h2 g2, bind_channel hello h g draw2 = Some (h2, g2) ∧
    bound_key h2 c = Some k ∧ bound_key g2 c = Some k ∧
    generation_of h2 c = gen ∧ generation_of g2 c = gen.
Proof.
  intros Hhello Hgen Hr1 He1 Hch1 Hn1 Hg1. unfold bind_channel. rewrite Hhello.
  rewrite (handle_hello g) by (subst; done).
  destruct (channel_lookup g (est_channels _ _ _ Hg)) as [gch Hgch].
  erewrite (on_channel_hello_eq g); [|done|subst r1; cbn [payload new_record]; apply decode_encode|..|exact Hgch];
    [|unfold channel_hello_typed; cbn;
      repeat match goal with |- _ ∧ _ => split end; auto; [apply Hh|destruct c; unfold is_u32; cbn; lia]
     |cbn; done|done|done].
  cbn [hello_nonce hello_generation].
  rewrite (handle_ack h1) by done.
  assert (Htag : ∀ r, zlen (channel_tag k r c draw1 draw2) = TAG_LEN) by (intros; apply length_hmac).
  assert (Htagb : ∀ r, Forall is_u8 (channel_tag k r c draw1 draw2)) by (intros; apply hmac_u8).
  erewrite (on_channel_ack_eq h1); [|done|cbn [payload new_record]; apply decode_encode; split; [exact Hd2b|apply Htagb]
    |done|apply Htag|exact Hch1|exact Hn1].
  cbn [ack_nonce ack_tag]. unfold verify. rewrite bool_decide_eq_true_2 by done.
  set (g1 := alter_channel i bump_sequence (alter_channel i _ g)).
  assert (Hg1e : established g1 c k) by (by repeat apply established_alter).
  rewrite (handle_auth g1) by done.
  assert (Hg1c : channels g1 !! i = Some (bump_sequence
    {| generation := gen; host_nonce := Some draw1; guest_nonce := Some draw2; key := Some k;
       sequence := sequence gch |})).
  { unfold g1. erewrite lookup_alter_channel; [reflexivity|].
    by erewrite lookup_alter_channel; [reflexivity|]. }
  erewrite (on_channel_auth_eq g1); [|done|cbn [payload new_record]; apply decode_encode; apply Htagb
    |apply Htag|exact Hg1c|reflexivity|reflexivity].
  cbn [auth_tag]. unfold verify. rewrite bool_decide_eq_true_2 by done.
  do 2 eexists. split; [reflexivity|]. unfold bound_key, generation_of. rewrite Hi, Hg1c.
  erewrite lookup_alter_channel; [|erewrite lookup_alter_channel; [reflexivity|exact Hch1]].
  done.
Qed.
End binding.
