(* ===== verification/SessionProps.v ===== *)
(** * What the session machine guarantees

    Properties of [Session.v]: the handshake's agreement, what ends it, the
    binding of a channel, and what a replaced connection may still say; with an
    instance of the interfaces for the witnesses. *)

From S2P Require Import Prelude.
From S2P Require Import Record.
From S2P Require Import Handshake.
From S2P Require Import Keys.
From S2P Require Import Session.

(** ** The handshake *)

Section agreement.
Context `{CryptoLaws} (crc32c : list Z → Z).
Context `{Message ClientHello, Message ServerHello, Message ServerAuth, Message ClientAuth,
          Message ChannelHello, Message ChannelAck, Message ChannelAuth}.
Context `{!MessageLaws ClientHello client_hello_typed, !MessageLaws ServerHello server_hello_typed,
          !MessageLaws ServerAuth server_auth_typed, !MessageLaws ClientAuth client_auth_typed,
          !MessageLaws ChannelHello channel_hello_typed, !MessageLaws ChannelAck channel_ack_typed,
          !MessageLaws ChannelAuth channel_auth_typed}.

(** What the two ends draw and offer, as the type system has it. *)
Record handshake_inputs (the_offer : Offer) (the_support : Support) (sid hn gn : list Z)
    : Prop := {
  inputs_sid : zlen sid = SESSION_ID_LEN ∧ Forall is_u8 sid;
  inputs_hn : zlen hn = NONCE_LEN ∧ Forall is_u8 hn;
  inputs_gn : zlen gn = NONCE_LEN ∧ Forall is_u8 gn;
  inputs_offer : is_u32 (offer_width the_offer) ∧ is_u32 (offer_height the_offer) ∧
                 is_u32 (offer_tile_size the_offer);
  inputs_support : is_u32 (support_width the_support) ∧ is_u32 (support_height the_support) ∧
                   Forall is_u32 (support_tile_sizes the_support);
}.

(** C11: with one secret the four control records bring both ends to
    [Established] holding the same agreement, the same session key and the same
    transcript hash, whatever each offered, as long as the guest has the mode
    and some tile size. *)
Theorem handshake_agrees secret the_offer the_support sid hn gn m ts :
  handshake_inputs the_offer the_support sid hn gn →
  resolve_mode (offer_mode the_offer) (support_modes the_support) = Ok m →
  resolve_tile_size (offer_tile_size the_offer) (support_tile_sizes the_support) = Ok ts →
  ∃ h g, control_handshake crc32c (host_with_randomness crc32c secret the_offer sid hn)
           (guest_with_randomness secret the_support gn) = Some (h, g) ∧
    state h = Established ∧ state g = Established ∧
    negotiated h = Some (settled the_offer the_support m ts) ∧
    negotiated g = negotiated h ∧
    the_session_key h = Some (session_key secret sid hn gn) ∧
    the_session_key g = the_session_key h ∧ transcript_hash g = transcript_hash h ∧
    session_id h = sid ∧ session_id g = sid.
Proof.
  intros [[? ?] [? ?] [? ?] Hoffer Hsupport] Hm Hts. unfold control_handshake.
  rewrite (surjective_pairing (host_with_randomness _ _ _ _ _)).
  rewrite (guest_answers crc32c secret secret the_offer the_support sid hn gn) with (m := m) (ts := ts);
    [|done..].
  rewrite (host_hears crc32c secret the_offer the_support sid hn gn) with (m := m) (ts := ts);
    [|done..].
  change (take_pending_auth (guest1 crc32c secret the_offer the_support sid hn gn m ts)) with
    (Some (server_auth_record crc32c secret the_offer the_support sid hn gn),
     set_pending_auth None (guest1 crc32c secret the_offer the_support sid hn gn m ts)).
  cbv iota beta. rewrite host_checks by done. unfold host_key, guest_key, verify.
  rewrite bool_decide_eq_true_2 by done. rewrite guest_checks by done.
  unfold host_key, guest_key, verify. rewrite bool_decide_eq_true_2 by done.
  do 2 eexists. split; [reflexivity|]. done.
Qed.

(** A peer whose secret gives another tag over the transcript is refused
    with [BadTag], and the refusal leaves the host unestablished. *)
Theorem wrong_secret_is_refused secret other the_offer the_support sid hn gn m ts :
  handshake_inputs the_offer the_support sid hn gn →
  resolve_mode (offer_mode the_offer) (support_modes the_support) = Ok m →
  resolve_tile_size (offer_tile_size the_offer) (support_tile_sizes the_support) = Ok ts →
  let hash := the_hash the_offer the_support sid hn gn in
  control_tag (session_key other sid hn gn) Guest hash
    ≠ control_tag (session_key secret sid hn gn) Guest hash →
  ∃ h1 g1 sh sa,
    handle crc32c (header (host_with_randomness crc32c secret the_offer sid hn).2)
      (payload (host_with_randomness crc32c secret the_offer sid hn).2) []
      (guest_with_randomness other the_support gn)
    = (g1, Ok {| reply := Some sh; event := Continue |}) ∧ pending_auth g1 = Some sa ∧
    handle crc32c (header sh) (payload sh) []
      (host_with_randomness crc32c secret the_offer sid hn).1
    = (h1, Ok {| reply := None; event := Continue |}) ∧
    handle crc32c (header sa) (payload sa) [] h1 = (h1, Err BadTag) ∧
    state h1 = AwaitingServerAuth ∧ negotiated h1 = None.
Proof.
  intros [[? ?] [? ?] [? ?] Hoffer Hsupport] Hm Hts hash Hne.
  do 4 eexists. split; [eapply guest_answers; eassumption|]. split; [reflexivity|].
  split; [eapply (host_hears crc32c secret the_offer the_support sid hn gn); eassumption|].
  split; [|done].
  rewrite (host_checks crc32c secret other the_offer the_support sid hn gn) by done.
  unfold host_key, guest_key, verify. rewrite bool_decide_eq_false_2; [done|].
  intros Heq. apply Hne. symmetry. exact Heq.
Qed.
End agreement.

(** ** Records out of turn *)

(** The one record each state has an answer for on the control channel. *)
Definition awaited (st : State) : option Z :=
  match st with
  | AwaitingClientHello => Some CLIENT_HELLO
  | AwaitingServerHello => Some SERVER_HELLO
  | AwaitingServerAuth => Some SERVER_AUTH
  | AwaitingClientAuth => Some CLIENT_AUTH
  | Established => None
  end.

(** Whether a record in this state is one the machine answers at all. *)
Definition in_turn (st : State) (c : Channel) (ty : Z) : bool :=
  match awaited st, c with
  | Some wanted, Control => ty =? wanted
  | Some _, _ => false
  | None, Control => false
  | None, _ => (ty =? CHANNEL_HELLO) || (ty =? CHANNEL_ACK) || (ty =? CHANNEL_AUTH)
  end.

(** A record out of turn is refused as [Unexpected] and changes nothing. *)
Theorem out_of_turn_changes_nothing `{Crypto} crc32c
    `{Message ClientHello, Message ServerHello, Message ServerAuth, Message ClientAuth,
      Message ChannelHello, Message ChannelAck, Message ChannelAuth} hd p draw s :
  in_turn (state s) (channel hd) (message_type hd) = false →
  handle crc32c hd p draw s = (s, Err (Unexpected (channel hd) (message_type hd))).
Proof.
  unfold in_turn, handle, bindM, get. intros Ht.
  destruct (state s), (channel hd); cbn in *; try done; try (by rewrite Ht);
    rewrite !orb_false_iff in Ht; destruct Ht as [[-> ->] ->]; done.
Qed.

(** ** Binding and reconnecting *)

Section channels.
Context `{CryptoLaws} (crc32c : list Z → Z).
Context `{Message ClientHello, Message ServerHello, Message ServerAuth, Message ClientAuth,
          Message ChannelHello, Message ChannelAck, Message ChannelAuth}.
Context `{!MessageLaws ChannelHello channel_hello_typed, !MessageLaws ChannelAck channel_ack_typed,
          !MessageLaws ChannelAuth channel_auth_typed}.

Record bindable_ends (c : Channel) (k : list Z) (h g : Session) (draw1 draw2 : list Z)
    : Prop := {
  ends_host : established h c k ∧ role h = Host ∧ negotiated h ≠ None;
  ends_guest : established g c k ∧ session_id g = session_id h;
  ends_draw1 : zlen draw1 = NONCE_LEN ∧ Forall is_u8 draw1;
  ends_draw2 : zlen draw2 = NONCE_LEN ∧ Forall is_u8 draw2;
  ends_generation : is_u32 (generation_of h c);
  ends_channel : c ≠ Control;
}.

Lemma index_of c : c ≠ Control → ∃ i, channel_index c = Ok i.
Proof. destruct c; cbn; eauto; done. Qed.

(** C14: between two established ends that share a channel's key, a hello, an
    ack and a proof bind the channel: both ends hold that key for it, on the
    generation the host opened it with. *)
Theorem channel_binds c k h g draw1 draw2 :
  bindable_ends c k h g draw1 draw2 →
  ∃ h2 g2, bind_channel crc32c (open_channel crc32c c draw1) h g draw2 = Some (h2, g2) ∧
    bound_key h2 c = Some k ∧ bound_key g2 c = Some k ∧
    generation_of h2 c = generation_of h c ∧ generation_of g2 c = generation_of h c.
Proof.
  intros [(Hh & Hr & Hn) [Hg Hsame] [Hd1 Hd1b] [Hd2 Hd2b] Hgen Hc].
  destruct (index_of c Hc) as [i Hi].
  destruct (channel_lookup c i Hi h (est_channels _ _ _ Hh)) as [ch Hch].
  assert (Hgc : generation_of h c = generation ch) by (unfold generation_of; by rewrite Hi, Hch).
  rewrite Hgc in *. pose proof (channel_hello_eq crc32c c i Hi k h draw1 ch Hh Hn Hr Hch) as Hhello.
  apply (bind_from_hello crc32c c i Hi k h g Hh Hg Hsame draw1 draw2 Hd1 Hd1b Hd2 Hd2b
    (open_channel crc32c c draw1) _ _ (sequence ch) (generation ch) (bump_sequence
      {| generation := generation ch; host_nonce := Some draw1; guest_nonce := guest_nonce ch;
         key := key ch; sequence := sequence ch |}) Hhello); try done.
  - by repeat apply established_alter.
  - erewrite lookup_alter_channel; [done|]. by rewrite (lookup_alter_channel i _ _ ch).
Qed.

(** Replacing a channel's connection moves both ends to the next
    generation with the channel bound again; from then on a record of the
    replaced connection is refused as stale at both ends, and one of the new
    connection is accepted. *)
Theorem reconnect_rejects_the_old_connection c k h g draw1 draw2 :
  bindable_ends c k h g draw1 draw2 →
  ∃ h2 g2, bind_channel crc32c (reconnect_channel crc32c c draw1) h g draw2 = Some (h2, g2) ∧
    bound_key h2 c = Some k ∧ bound_key g2 c = Some k ∧
    ∀ hd, channel hd = c →
      (Record.generation hd = generation_of h c →
       (∃ e, accept h2 hd = Err e) ∧ (∃ e, accept g2 hd = Err e)) ∧
      (Record.generation hd = as_u32 (generation_of h c + 1) →
       accept h2 hd = Ok tt ∧ accept g2 hd = Ok tt).
Proof.
  intros [(Hh & Hr & Hn) [Hg Hsame] [Hd1 Hd1b] [Hd2 Hd2b] Hgen Hc].
  destruct (index_of c Hc) as [i Hi].
  destruct (channel_lookup c i Hi h (est_channels _ _ _ Hh)) as [ch Hch].
  assert (Hgc : generation_of h c = generation ch) by (unfold generation_of; by rewrite Hi, Hch).
  rewrite Hgc in *. set (gen := as_u32 (generation ch + 1)).
  assert (Hgen' : is_u32 gen) by (apply Z.mod_pos_bound; lia).
  set (renewed := {| generation := gen; host_nonce := host_nonce ch;
                     guest_nonce := guest_nonce ch; key := None; sequence := 0 |}).
  set (h0 := alter_channel i (λ ch, {| generation := as_u32 (generation ch + 1);
       host_nonce := host_nonce ch; guest_nonce := guest_nonce ch; key := None;
       sequence := 0 |}) h).
  assert (Hh0 : established h0 c k) by by apply established_alter.
  assert (Hc0 : channels h0 !! i = Some renewed)
    by (unfold h0; by rewrite (lookup_alter_channel i _ _ ch)).
  assert (Hre : reconnect_channel crc32c c draw1 h = channel_hello crc32c c draw1 h0).
  { unfold reconnect_channel, bindM, lift, modify. rewrite Hi. done. }
  pose proof (channel_hello_eq crc32c c i Hi k h0 draw1 renewed Hh0 Hn Hr Hc0) as Hhello.
  rewrite <- Hre in Hhello.
  destruct (bind_from_hello crc32c c i Hi k h g Hh Hg Hsame draw1 draw2 Hd1 Hd1b Hd2 Hd2b
    (reconnect_channel crc32c c draw1) _ _ 0 gen (bump_sequence
      {| generation := gen; host_nonce := Some draw1; guest_nonce := guest_nonce ch;
         key := None; sequence := 0 |}) Hhello) as (h2 & g2 & Hb & Hk1 & Hk2 & Hg1 & Hg2); try done.
  { by repeat apply established_alter. }
  { erewrite lookup_alter_channel; [done|]. by rewrite (lookup_alter_channel i _ _ renewed). }
  exists h2, g2. split_and!; auto. intros hd Hhd.
  assert (Hacc : ∀ s, bound_key s c = Some k → generation_of s c = gen →
    accept s hd = if negb (Record.generation hd =? gen)
                  then Err (StaleGeneration c gen (Record.generation hd)) else Ok tt).
  { intros s Hks Hgs. unfold accept, bound_key, generation_of in *. rewrite Hhd, Hi in *.
    destruct (channels s !! i) as [chs|]; [|discriminate]. cbn [expect rbind]. by rewrite Hgs. }
  rewrite (Hacc h2), (Hacc g2) by done. split.
  - intros Hold. assert (Hne : generation ch ≠ gen).
    { unfold gen, as_u32, is_u32 in *.
      destruct (Z.eq_dec (generation ch) 4294967295) as [Heq|Hneq].
      - rewrite Heq. done.
      - rewrite Z.mod_small by lia. lia. }
    rewrite Hold, (proj2 (Z.eqb_neq _ _) Hne). cbn [negb]. eauto.
  - intros ->. fold gen. by rewrite Z.eqb_refl.
Qed.

(** [handle] never looks at the session's role, so an established host
    answers a [ChannelHello] as the guest would.  Its own hello, handed back to
    it, yields an ack with a guest's proof, and that ack, handed back as well,
    binds the channel: no other end and no key but its own took part. *)
Theorem host_binds_to_its_own_reflection c k h draw1 draw2 :
  established h c k → role h = Host → negotiated h ≠ None → c ≠ Control →
  is_u32 (generation_of h c) →
  zlen draw1 = NONCE_LEN → Forall is_u8 draw1 → zlen draw2 = NONCE_LEN → Forall is_u8 draw2 →
  ∃ h1 hello h2 ack h3 proof,
    open_channel crc32c c draw1 h = (h1, Ok hello) ∧
    handle crc32c (header hello) (payload hello) draw2 h1
    = (h2, Ok {| reply := Some ack; event := Continue |}) ∧
    handle crc32c (header ack) (payload ack) [] h2
    = (h3, Ok {| reply := Some proof; event := ChannelBound c |}).
Proof.
  intros Hh Hr Hn Hc Hgen Hd1 Hd1b Hd2 Hd2b.
  destruct (index_of c Hc) as [i Hi].
  destruct (channel_lookup c i Hi h (est_channels _ _ _ Hh)) as [ch Hch].
  assert (Hgc : generation_of h c = generation ch) by (unfold generation_of; by rewrite Hi, Hch).
  rewrite Hgc in *.
  pose proof (channel_hello_eq crc32c c i Hi k h draw1 ch Hh Hn Hr Hch) as Hhello.
  set (h1 := alter_channel i bump_sequence _) in Hhello.
  assert (Hh1 : established h1 c k) by by repeat apply established_alter.
  set (ch1 := bump_sequence {| generation := generation ch; host_nonce := Some draw1;
    guest_nonce := guest_nonce ch; key := key ch; sequence := sequence ch |}).
  assert (Hch1 : channels h1 !! i = Some ch1).
  { unfold h1. erewrite lookup_alter_channel; [done|]. by rewrite (lookup_alter_channel i _ _ ch). }
  do 6 eexists. split; [exact Hhello|].
  rewrite (handle_hello crc32c c i Hi k h1) by done. split.
  { eapply (on_channel_hello_eq crc32c c i Hi k h1); [done| |..|exact Hch1].
    - cbn [payload new_record]. apply decode_encode. unfold channel_hello_typed. cbn.
      repeat match goal with |- _ ∧ _ => split end; auto; [apply Hh|].
      destruct c; unfold is_u32; cbn; lia.
    - done.
    - done.
    - done. }
  cbn [hello_nonce hello_generation].
  set (h2 := alter_channel i bump_sequence (alter_channel i _ h1)).
  assert (Hh2 : established h2 c k) by by repeat apply established_alter.
  set (ch2 := bump_sequence {| generation := generation ch; host_nonce := Some draw1;
    guest_nonce := Some draw2; key := Some k; sequence := sequence ch1 |}).
  assert (Hch2 : channels h2 !! i = Some ch2).
  { unfold h2. erewrite lookup_alter_channel; [done|]. by rewrite (lookup_alter_channel i _ _ ch1). }
  rewrite (handle_ack crc32c c i Hi k h2) by done.
  erewrite (on_channel_ack_eq crc32c c i Hi k h2);
    [|done|cbn [payload new_record]; apply decode_encode; split; [done|apply hmac_u8]
     |done|cbn [ack_tag]; apply length_hmac|exact Hch2|reflexivity].
  cbn [ack_nonce ack_tag]. unfold verify. rewrite bool_decide_eq_true_2 by done. reflexivity.
Qed.
End channels.

(** ** Instances for the witnesses *)

(** A stand-in for the primitives: 32 bytes that depend on everything fed in. *)
Definition digest (l : list Z) : list Z :=
  to_le 32 (fold_left (λ acc b, (acc * 257 + b + 1) mod 2 ^ 256) l 7).

#[export] Instance toy_crypto : Crypto :=
  {| hkdf salt ikm info := digest (salt ++ ikm ++ info);
     hkdf_expand prk info := digest (prk ++ info);
     hmac key message := digest (key ++ message);
     sha256 := digest |}.

#[export] Instance toy_crypto_laws : CryptoLaws toy_crypto.
Proof.
  split; intros; cbn -[to_le]; unfold digest; [by rewrite length_to_le|apply to_le_u8].
Qed.

(** A stand-in for the wire form: lists preceded by their length. *)
Definition put (l : list Z) : list Z := zlen l :: l.
Definition take_list (bs : list Z) : option (list Z * list Z) :=
  match bs with
  | n :: rest => Some (take (Z.to_nat n) rest, drop (Z.to_nat n) rest)
  | [] => None
  end.

Lemma take_list_put l rest : take_list (put l ++ rest) = Some (l, rest).
Proof. cbn. by rewrite Nat2Z.id, take_app_length, drop_app_length. Qed.

Definition put_version (v : option ProtocolVersion) : list Z :=
  match v with Some v => put [major v; minor v] | None => put [] end.
Definition version_of_list (l : list Z) : option ProtocolVersion :=
  match l with [a; b] => Some (mk_version a b) | _ => None end.

Lemma version_of_put v rest :
  ∃ l, take_list (put_version v ++ rest) = Some (l, rest) ∧ version_of_list l = v.
Proof.
  destruct v as [[]|]; [exists [major; minor]|exists []]; split; try done; apply take_list_put.
Qed.

#[export] Instance toy_client_hello : Message ClientHello :=
  {| encode_to_vec m := put_version (ch_version m) ++ put (ch_capabilities m)
       ++ put (ch_session_id m) ++ put (ch_host_nonce m)
       ++ [ch_mode m; ch_width m; ch_height m; ch_tile_size m];
     decode_from bs :=
       match take_list bs with None => None | Some (v, bs) =>
       match take_list bs with None => None | Some (caps, bs) =>
       match take_list bs with None => None | Some (sid, bs) =>
       match take_list bs with
       | Some (n, [mode; w; h; t]) =>
           Some (mk_client_hello (version_of_list v) caps sid n mode w h t)
       | _ => None end end end end |}.

#[export] Instance toy_server_hello : Message ServerHello :=
  {| encode_to_vec m := put_version (sh_version m) ++ put (sh_capabilities m)
       ++ put (sh_guest_nonce m) ++ put (sh_modes m) ++ put (sh_tile_sizes m)
       ++ [sh_width m; sh_height m];
     decode_from bs :=
       match take_list bs with None => None | Some (v, bs) =>
       match take_list bs with None => None | Some (caps, bs) =>
       match take_list bs with None => None | Some (n, bs) =>
       match take_list bs with None => None | Some (modes, bs) =>
       match take_list bs with
       | Some (sizes, [w; h]) => Some (mk_server_hello (version_of_list v) caps n modes sizes w h)
       | _ => None end end end end end |}.

#[export] Instance toy_server_auth : Message ServerAuth :=
  {| encode_to_vec m := sa_tag m; decode_from bs := Some (mk_server_auth bs) |}.
#[export] Instance toy_client_auth : Message ClientAuth :=
  {| encode_to_vec m := ca_tag m; decode_from bs := Some (mk_client_auth bs) |}.
#[export] Instance toy_channel_auth : Message ChannelAuth :=
  {| encode_to_vec m := auth_tag m; decode_from bs := Some (mk_channel_auth bs) |}.
#[export] Instance toy_channel_hello : Message ChannelHello :=
  {| encode_to_vec m := put (hello_session_id m)
       ++ [hello_channel m; hello_generation m] ++ hello_nonce m;
     decode_from bs := match take_list bs with
       | Some (sid, c :: g :: n) => Some (mk_channel_hello sid c g n) | _ => None end |}.
#[export] Instance toy_channel_ack : Message ChannelAck :=
  {| encode_to_vec m := put (ack_nonce m) ++ ack_tag m;
     decode_from bs := match take_list bs with
       | Some (n, t) => Some (mk_channel_ack n t) | None => None end |}.

#[export] Instance toy_client_hello_laws : MessageLaws ClientHello client_hello_typed.
Proof.
  intros [] _. cbn -[take_list put put_version].
  destruct (version_of_put ch_version (put ch_capabilities ++ put ch_session_id
    ++ put ch_host_nonce ++ [ch_mode; ch_width; ch_height; ch_tile_size])) as (l & -> & Hv).
  by rewrite !take_list_put, Hv.
Qed.
#[export] Instance toy_server_hello_laws : MessageLaws ServerHello server_hello_typed.
Proof.
  intros [] _. cbn -[take_list put put_version].
  destruct (version_of_put sh_version (put sh_capabilities ++ put sh_guest_nonce
    ++ put sh_modes ++ put sh_tile_sizes ++ [sh_width; sh_height])) as (l & -> & Hv).
  by rewrite !take_list_put, Hv.
Qed.
#[export] Instance toy_server_auth_laws : MessageLaws ServerAuth server_auth_typed.
Proof. by intros [] _. Qed.
#[export] Instance toy_client_auth_laws : MessageLaws ClientAuth client_auth_typed.
Proof. by intros [] _. Qed.
#[export] Instance toy_channel_auth_laws : MessageLaws ChannelAuth channel_auth_typed.
Proof. by intros [] _. Qed.
#[export] Instance toy_channel_hello_laws : MessageLaws ChannelHello channel_hello_typed.
Proof. intros [] _. cbn -[take_list put]. by rewrite take_list_put. Qed.
#[export] Instance toy_channel_ack_laws : MessageLaws ChannelAck channel_ack_typed.
Proof. intros [] _. cbn -[take_list put]. by rewrite take_list_put. Qed.

(** ** Witnesses *)

Definition viewer_offer : Offer :=
  {| offer_capabilities := [CursorStream; FileClipboard; CursorHotspots]; offer_mode := Auto;
     offer_width := 1920; offer_height := 1080; offer_tile_size := 48 |}.
Definition desktop_support : Support :=
  {| support_capabilities := [CursorHotspots; CursorStream; FileClipboard; AudioCapability];
     support_modes := [Desktop]; support_tile_sizes := [16; 32; 64];
     support_width := 1280; support_height := 800 |}.
Definition some_sid : list Z := replicate 16 5.
Definition some_hn : list Z := replicate 32 6.
Definition some_gn : list Z := replicate 32 7.
Definition no_crc (_ : list Z) : Z := 0.

Lemma replicate_nonce n b : is_u8 b → zlen (replicate (Z.to_nat n) b) = Z.max 0 n ∧
  Forall is_u8 (replicate (Z.to_nat n) b).
Proof. intros. rewrite length_replicate. split; [lia|]. by apply Forall_replicate. Qed.

Lemma some_inputs :
  handshake_inputs viewer_offer desktop_support some_sid some_hn some_gn.
Proof.
  split; try (split; [reflexivity|apply Forall_replicate; unfold is_u8; lia]);
    unfold is_u32; cbn; split_and!; try lia; repeat constructor; lia.
Qed.

Lemma handshake_agrees_witness :
  ∃ h g, control_handshake no_crc
           (host_with_randomness no_crc [1; 2; 3] viewer_offer some_sid some_hn)
           (guest_with_randomness [1; 2; 3] desktop_support some_gn) = Some (h, g) ∧
    state h = Established ∧ state g = Established ∧
    negotiated h = Some (settled viewer_offer desktop_support Desktop 32) ∧
    negotiated g = negotiated h ∧
    the_session_key h = Some (session_key [1; 2; 3] some_sid some_hn some_gn) ∧
    the_session_key g = the_session_key h ∧ transcript_hash g = transcript_hash h ∧
    session_id h = some_sid ∧ session_id g = some_sid.
Proof.
  apply (handshake_agrees no_crc [1; 2; 3] viewer_offer desktop_support some_sid some_hn some_gn
    Desktop 32); [exact some_inputs|reflexivity|vm_compute; reflexivity].
Defined.

Lemma wrong_secret_is_refused_witness :
  ∃ h1 g1 sh sa,
    handle no_crc (header (host_with_randomness no_crc [1] viewer_offer some_sid some_hn).2)
      (payload (host_with_randomness no_crc [1] viewer_offer some_sid some_hn).2) []
      (guest_with_randomness [2] desktop_support some_gn)
    = (g1, Ok {| reply := Some sh; event := Continue |}) ∧ pending_auth g1 = Some sa ∧
    handle no_crc (header sh) (payload sh) []
      (host_with_randomness no_crc [1] viewer_offer some_sid some_hn).1
    = (h1, Ok {| reply := None; event := Continue |}) ∧
    handle no_crc (header sa) (payload sa) [] h1 = (h1, Err BadTag) ∧
    state h1 = AwaitingServerAuth ∧ negotiated h1 = None.
Proof.
  apply (wrong_secret_is_refused no_crc [1] [2] viewer_offer desktop_support some_sid some_hn
    some_gn Desktop 32); [exact some_inputs|reflexivity|vm_compute; reflexivity|].
  vm_compute; discriminate.
Defined.

Definition ping_header : Header :=
  {| channel := Control; message_type := 8; header_length := 0; Record.sequence := 0; base := 0;
     checksum := 0; Record.generation := 0 |}.

Lemma out_of_turn_changes_nothing_witness :
  let s := guest_with_randomness [1] desktop_support some_gn in
  handle no_crc ping_header [] [] s = (s, Err (Unexpected Control 8)).
Proof.
  apply (out_of_turn_changes_nothing no_crc ping_header [] []
    (guest_with_randomness [1] desktop_support some_gn)). reflexivity.
Defined.

(** Two ends of one established session. *)
Definition host_end : Session :=
  established_host some_sid (settled viewer_offer desktop_support Desktop 32) [11] [12] [13] [14] 2.
Definition guest_end : Session :=
  mk_session Guest Established None None None some_sid None None transcript_new None None
    (Some (settled viewer_offer desktop_support Desktop 32)) None None 2 fresh_channels
    [Some [11]; Some [12]; Some [13]; Some [14]].

Lemma ends_established : established host_end Frame [11] ∧ established guest_end Frame [11].
Proof.
  split; split; try reflexivity; try (apply Forall_replicate; unfold is_u8; lia);
    intros s' _ _ Hh; unfold established_channel_key, bindM, get, lift; cbn; by rewrite Hh.
Qed.

Lemma ends_bindable : bindable_ends Frame [11] host_end guest_end some_hn some_gn.
Proof.
  split; try (split; [reflexivity|apply Forall_replicate; unfold is_u8; lia]).
  - split; [apply ends_established|]. split; [done|discriminate].
  - split; [apply ends_established|done].
  - unfold is_u32; cbn; lia.
  - discriminate.
Qed.

Lemma channel_binds_witness :
  ∃ h2 g2, bind_channel no_crc (open_channel no_crc Frame some_hn) host_end guest_end some_gn
           = Some (h2, g2) ∧
    bound_key h2 Frame = Some [11] ∧ bound_key g2 Frame = Some [11] ∧
    generation_of h2 Frame = 0 ∧ generation_of g2 Frame = 0.
Proof. exact (channel_binds no_crc Frame [11] host_end guest_end some_hn some_gn ends_bindable). Defined.

Lemma reconnect_rejects_the_old_connection_witness :
  ∃ h2 g2, bind_channel no_crc (reconnect_channel no_crc Frame some_hn) host_end guest_end some_gn
           = Some (h2, g2) ∧
    bound_key h2 Frame = Some [11] ∧ bound_key g2 Frame = Some [11] ∧
    ∀ hd, channel hd = Frame →
      (Record.generation hd = 0 → (∃ e, accept h2 hd = Err e) ∧ (∃ e, accept g2 hd = Err e)) ∧
      (Record.generation hd = 1 → accept h2 hd = Ok tt ∧ accept g2 hd = Ok tt).
Proof.
  exact (reconnect_rejects_the_old_connection no_crc Frame [11] host_end guest_end some_hn some_gn
    ends_bindable).
Defined.

Lemma host_binds_to_its_own_reflection_witness :
  ∃ h1 hello h2 ack h3 proof,
    open_channel no_crc Frame some_hn host_end = (h1, Ok hello) ∧
    handle no_crc (header hello) (payload hello) some_gn h1
    = (h2, Ok {| reply := Some ack; event := Continue |}) ∧
    handle no_crc (header ack) (payload ack) [] h2
    = (h3, Ok {| reply := Some proof; event := ChannelBound Frame |}).
Proof.
  apply (host_binds_to_its_own_reflection no_crc Frame [11] host_end some_hn some_gn);
    try discriminate; try reflexivity; try (apply Forall_replicate; unfold is_u8; lia).
  - apply ends_established.
  - unfold is_u32; cbn; lia.
Defined.
