(* ===== verification/CodecProps.v ===== *)
(** * What the desktop codec guarantees, part by part

    Properties of the codec's components, each with a witness; what the two ends
    guarantee together is in [FrameChannel.v]. *)

From stdpp Require Import sets.
From S2P Require Import Prelude.
From S2P Require Import Zrle.
From S2P Require Import Geometry.
From S2P Require Import Container.
From S2P Require Import Queue.
From S2P Require Import TileCopy.
From S2P Require Import Encoder.
From S2P Require Import Decoder.
From S2P Require Import CodecSync.
From S2P Require Import Varint.
From S2P Require Import Cursor.
From S2P Require Import FrameChannel.
From S2P Require Record.

(** ** The areas of the tiles *)

Fixpoint area_from (g : Geometry) (n : nat) (index : Z) : Z :=
  match n with
  | O => 0
  | S n => default 0 (area <$> tile g index) + area_from g n (index + 1)
  end.

Section areas.
Context (g : Geometry) (Hwf : wf g).
Local Abbreviation T := (as_pixels (tile_size g)).
Local Abbreviation W := (width g).
Local Abbreviation H := (height g).
Local Abbreviation c := (columns g).

(** The pixels in the tiles before a grid position. *)
Definition pixels_before (row col : Z) : Z :=
  W * (row * T) + Z.min T (H - row * T) * Z.min (col * T) W.

Lemma grid_successor index :
  0 <= index →
  (index mod c + 1 < c ∧ (index + 1) / c = index / c ∧ (index + 1) mod c = index mod c + 1) ∨
  (index mod c + 1 = c ∧ (index + 1) / c = index / c + 1 ∧ (index + 1) mod c = 0).
Proof.
  intros Hi. pose proof (wf_grid g Hwf) as (Hc & _).
  pose proof (Z.div_mod index c ltac:(lia)). pose proof (Z.mod_pos_bound index c ltac:(lia)).
  destruct (Z.eq_dec (index mod c + 1) c) as [|Hne]; [right|left]; split_and!; try lia.
  - symmetry. apply Z.div_unique with 0; lia.
  - symmetry. apply Z.mod_unique with (index / c + 1); lia.
  - symmetry. apply Z.div_unique with (index mod c + 1); lia.
  - symmetry. apply Z.mod_unique with (index / c); lia.
Qed.

Lemma pixels_before_0 row : pixels_before row 0 = W * (row * T).
Proof. unfold pixels_before. destruct Hwf as (? & _). rewrite Z.mul_0_l, (Z.min_l 0 W) by lia. lia. Qed.

(** A tile's area is what its position adds. *)
Lemma area_step index r :
  0 <= index → tile g index = Some r →
  pixels_before (index / c) (index mod c + 1)
  = pixels_before (index / c) (index mod c) + area r.
Proof.
  intros Hi Hr. pose proof (tile_some g _ _ Hi Hr) as Hlt.
  rewrite tile_eq in Hr by (done || lia). injection Hr as <-.
  destruct (tile_position g Hwf index ltac:(lia)) as [Hcol _].
  pose proof (wf_grid g Hwf) as (Hc & _ & HW & _). pose proof (as_pixels_range (tile_size g)).
  unfold pixels_before, area. cbn [rect_width rect_height].
  replace (Z.min ((index mod c + 1) * T) W)
    with (Z.min (index mod c * T) W + Z.min T (W - index mod c * T)) by nia. lia.
Qed.

Lemma row_full row :
  0 <= row → row + 1 < rows g → pixels_before row c = pixels_before (row + 1) 0.
Proof.
  intros Hrow Hlast. pose proof (wf_grid g Hwf) as (_ & _ & HW & HH).
  pose proof (as_pixels_range (tile_size g)). rewrite pixels_before_0. unfold pixels_before.
  rewrite (Z.min_r (c * T)), (Z.min_l T) by nia. lia.
Qed.

Lemma last_row_full : pixels_before (rows g - 1) c = pixel_count g.
Proof.
  pose proof (wf_grid g Hwf) as (_ & _ & HW & HH). unfold pixels_before, pixel_count.
  rewrite (Z.min_r (c * T)), (Z.min_r T) by lia. lia.
Qed.

Lemma area_from_eq n index :
  0 <= index → index + Z.of_nat (S n) = tile_count g →
  area_from g (S n) index + pixels_before (index / c) (index mod c) = pixel_count g.
Proof.
  revert index. induction n as [|n IH]; intros index Hi Hn; cbn [area_from].
  all: destruct (tile g index) as [r|] eqn:Er; [|rewrite tile_eq in Er; by (done || lia)];
    cbn [default from_option id fmap option_fmap option_map];
    pose proof (area_step index r Hi Er) as Hstep;
    destruct (tile_position g Hwf index ltac:(lia)) as [Hcol Hrow];
    rewrite (tile_count_eq g Hwf) in Hn;
    pose proof (wf_grid g Hwf) as (Hc & Hr & _);
    pose proof (Z.div_mod index c ltac:(lia)).
  - assert (Hrow' : index / c = rows g - 1).
    { assert (c * (rows g - index / c) = index mod c + 1) by lia.
      destruct (Z.eq_dec (rows g - index / c) 1); [lia|]. nia. }
    assert (Hcol' : index mod c + 1 = c) by (rewrite Hrow' in *; lia).
    rewrite Hrow', Hcol', last_row_full in Hstep. rewrite Hrow'. lia.
  - specialize (IH (index + 1) ltac:(lia)). rewrite (tile_count_eq g Hwf) in IH.
    specialize (IH ltac:(lia)). cbn [area_from] in IH.
    destruct (grid_successor index Hi) as [(_ & Hd & Hm)|(Hlast & Hd & Hm)];
      rewrite Hd, Hm in IH; [lia|].
    rewrite Hlast in Hstep. rewrite <- row_full in IH by nia. lia.
Qed.

(** The tiles' areas add up to the frame. *)
Lemma areas_cover : area_from g (Z.to_nat (tile_count g)) 0 = pixel_count g.
Proof.
  pose proof (tile_count_range g Hwf) as Hc. pose proof (wf_grid g Hwf) as (? & _).
  destruct (Z.to_nat (tile_count g)) as [|n] eqn:En; [lia|].
  pose proof (area_from_eq n 0 ltac:(lia) ltac:(lia)) as Ha.
  rewrite Z.div_0_l, Z.mod_0_l, pixels_before_0 in Ha by lia. lia.
Qed.
End areas.

(** ** The size of a keyframe *)

Lemma best_len_raw t prev : best_len t prev <= zlen t * 4.
Proof. unfold best_len. destruct prev; lia. Qed.

Lemma keyframe_tiles_size {E} g src n index out out' :
  wf g → zlen src = pixel_count g → 0 <= index → index + Z.of_nat n = tile_count g →
  keyframe_tiles (E:=E) (S n) g src index out = Ok out' →
  zlen out + Z.of_nat n <= zlen out' <= zlen out + Z.of_nat n + 4 * area_from g n index.
Proof.
  intros Hwf Hsrc. revert index out.
  induction n as [|n IH]; intros index out Hi Hn Hk; cbn [keyframe_tiles area_from] in *.
  { rewrite tile_none in Hk by (done || lia). simplify_eq. lia. }
  destruct (tile g index) as [r|] eqn:Er; [|rewrite tile_eq in Er; by (done || lia)].
  pose proof (tile_rect_in g _ _ Hwf Hi Er) as Hin.
  destruct (gather_ok (E:=E) g r Hin src Hsrc) as (t & Ht & Hlt & _). rewrite Ht in Hk.
  cbn [rbind] in Hk. apply IH in Hk; [|lia|lia]. rewrite write_tile_app, length_app in Hk.
  pose proof (area_bound g index r Hwf Hi Er). pose proof (best_len_raw t None).
  pose proof (write_tile_len t None ltac:(lia)). pose proof (write_tile_nonempty t None).
  cbn [default from_option id fmap option_fmap option_map]. lia.
Qed.

Lemma encode_keyframe_size e e' :
  enc_wf e → encode_keyframe e = Ok e' →
  zlen (output e') <= HEADER_LEN + tile_count (Encoder.geometry e)
                      + frame_bytes (Encoder.geometry e).
Proof.
  intros He Hk. pose proof (enc_geometry e He) as Hwf. unfold encode_keyframe in Hk.
  rbind_step Hk as out, Eo. rbind_step Hk as ref, Er. simplify_eq. cbn [output].
  pose proof (tile_count_range _ Hwf).
  apply keyframe_tiles_size in Eo; [|done|apply He|lia|lia].
  rewrite length_write_header, areas_cover in Eo by done. unfold frame_bytes. lia.
Qed.

(** ** Hostile payloads *)

(** Any bytes at all, offered as a keyframe, leave a decoder that works: the
    outcome is a value or a refusal, never a panic, and a refused keyframe does
    not make a delta acceptable that was not before. *)
Theorem hostile_keyframe_is_harmless d payload d' o :
  dec_wf d → Forall is_u8 payload → apply_keyframe d payload = (d', o) →
  dec_wf d' ∧ no_panic o ∧
  match o with
  | Ok rects => has_frame d' = true ∧
      rects = tiles_from (Decoder.geometry d) (Z.to_nat (tile_count (Decoder.geometry d))) 0
  | _ => has_frame d' = has_frame d
  end.
Proof.
  intros Hd Hb H. destruct (apply_keyframe_sound d payload Hd Hb d' o H) as (Hd' & _ & Hnp & Hok & Herr).
  split_and!; auto. destruct o; eauto. done.
Qed.

(** The same of a delta, which moreover is only ever applied on top of a
    frame, and reports tiles of the grid in increasing order. *)
Theorem hostile_delta_is_harmless d payload d' o :
  dec_wf d → Forall is_u8 payload → apply_delta d payload = (d', o) →
  dec_wf d' ∧ no_panic o ∧ has_frame d' = has_frame d ∧
  (∀ rects, o = Ok rects →
     has_frame d = true ∧ increasing_tiles (Decoder.geometry d) None rects).
Proof.
  intros Hd Hb H. destruct (apply_delta_sound d payload Hd Hb d' o H) as (Hd' & [_ ?] & ? & ?). done.
Qed.

(** A cursor payload a peer sends either is refused or is a bitmap within the
    limits whose buffer is exactly its size. *)
Theorem hostile_cursor_image_is_bounded payload :
  Forall is_u8 payload →
  no_panic (decode_cursor_image payload) ∧
  ∀ image, decode_cursor_image payload = Ok image →
    within_limits image ∧ Forall is_u8 (pixels image).
Proof.
  intros Hb. split; [by apply read_image_no_panic|]. intros image. by apply read_image_within_limits.
Qed.

(** ** Round trips *)

(** C34: run-length coding loses nothing: the stream of any pixels decodes to
    them, and its length is what the output buffer announced. *)
Theorem zrle_round_trip px :
  Forall is_u32 px → Zrle.decode (Zrle.encode px []) (zlen px) = Ok px.
Proof. apply decode_encode_self. Qed.

(** A varint reads back as itself, in the number of bytes [varint_len] says,
    whatever follows it. *)
Theorem varint_round_trip v rest :
  is_u32 v → Varint.read (Varint.write [] v ++ rest) = Ok (v, varint_len v).
Proof.
  intros Hv. rewrite Varint.read_write_prefix by done. unfold Varint.write. cbn [app].
  by rewrite Varint.length_write_loop.
Qed.

(** A cursor bitmap within the limits is written, in whichever of its two
    forms is shorter, and reads back as itself. *)
Theorem cursor_image_round_trip image :
  within_limits image → Forall is_u8 (pixels image) →
  ∃ payload, write_image image = Ok payload ∧ read_image payload = Ok image ∧
    zlen payload <= IMAGE_HEADER_LEN + zlen (pixels image).
Proof.
  intros Hl Hb. destruct (write_image_ok image Hl) as (payload & Hw & _ & Hlen).
  exists payload. split_and!; auto. by apply read_write_image_self.
Qed.

(** ** The grid *)

(** The tiles of a geometry the constructor accepts partition the frame:
    every pixel is inside exactly one of them, and all of them lie inside the
    frame. *)
Theorem tiles_partition_the_frame w h ts pf g px py :
  is_u32 w → is_u32 h → Geometry.new w h ts pf = Ok g → 0 <= px < w → 0 <= py < h →
  (exists! index, 0 <= index ∧ ∃ r, tile g index = Some r ∧ inside r px py) ∧
  (∀ index r, 0 <= index → tile g index = Some r → rect_in g r).
Proof.
  intros Hw Hh Hnew Hpx Hpy. destruct (new_wf w h ts pf g Hw Hh Hnew) as (Hwf & <- & <- & _).
  split; [|intros; by eapply tile_rect_in].
  pose proof (tile_of_range g px py Hwf Hpx Hpy) as Hr.
  exists (tile_of g px py). split.
  - split; [lia|]. eexists. split; [by apply tile_eq|].
    eapply inside_tile_of; [done| |by apply tile_eq|done..]. lia.
  - intros index (Hi & r & Htile & Hin).
    pose proof (inside_tile_of g px py index r Hwf Hi Htile Hpx Hpy). symmetry. tauto.
Qed.

(** The tiles' areas add up to the frame's pixels, so no keyframe exceeds its
    raw bytes by more than its header and a method byte per tile. *)
Theorem keyframe_size_bound e e' :
  enc_wf e → encode_keyframe e = Ok e' →
  area_from (Encoder.geometry e) (Z.to_nat (tile_count (Encoder.geometry e))) 0
    = pixel_count (Encoder.geometry e) ∧
  zlen (output e') <= frame_bytes (Encoder.geometry e) + HEADER_LEN
                      + tile_count (Encoder.geometry e).
Proof.
  intros He Hk. split; [apply areas_cover, He|]. pose proof (encode_keyframe_size e e' He Hk). lia.
Qed.

(** Where the grid's method bytes fit the record slack and the frame is below
    the ceiling, every keyframe fits the frame channel's cap of a session of that
    geometry. *)
Theorem keyframe_fits_its_record e e' :
  enc_wf e → encode_keyframe e = Ok e' →
  HEADER_LEN + tile_count (Encoder.geometry e) <= Record.FRAME_PAYLOAD_SLACK →
  frame_bytes (Encoder.geometry e) + Record.FRAME_PAYLOAD_SLACK <= Record.FRAME_PAYLOAD_CEILING →
  zlen (output e') <= Record.for_channel
    (Record.limits (width (Encoder.geometry e)) (height (Encoder.geometry e))) Record.Frame.
Proof.
  intros He Hk Htiles Hceil. pose proof (encode_keyframe_size e e' He Hk) as Hs.
  destruct (enc_geometry e He) as (Hw & Hh & _). unfold MAX_DIMENSION in *.
  rewrite Record.frame_cap_exact by (unfold is_u32; lia).
  unfold frame_bytes, pixel_count in *. lia.
Qed.

(** ** Encoding *)

(** A tile record is one byte longer than the smallest encoding the tile may
    use, so no other choice of method would have been shorter. *)
Theorem tile_record_is_shortest t prev :
  zlen t <= 4096 →
  zlen (write_tile [] t prev) = 1 + best_len t prev ∧
  best_len t prev <= zlen t * 4 ∧ best_len t prev <= coded_len t ∧
  (∀ old, prev = Some old → best_len t prev <= coded_len (xored t old)).
Proof.
  intros Hlen. split; [by apply write_tile_len|]. unfold best_len.
  destruct prev; split_and!; try lia; intros ? [= <-]; lia.
Qed.

(** A delta advances the reference exactly on the tiles it compared (the
    hinted ones and the sweep's): there it becomes the staged frame, elsewhere it
    stays what the far side was sent. *)
Theorem delta_advances_compared_tiles e hint :
  enc_wf e → u32_rects hint →
  ∃ e' written, encode_delta e hint = Ok (e', written) ∧ enc_wf e' ∧
    delta_reference e e' hint ∧ (written = false → reference e' = reference e).
Proof.
  intros He Hu. destruct (encode_delta_ok e hint He Hu) as (e' & w & Hok & He' & Hd & _ & _ & _ & _ & _ & Hn & _).
  eauto 8.
Qed.

(** A hinted rectangle, clipped to the frame, selects the tile of every pixel
    it covers, and only tiles of the grid. *)
Theorem hints_select_what_they_cover g rect px py :
  wf g → u32_rect rect → inside rect px py → 0 <= px < width g → 0 <= py < height g →
  tile_of g px py ∈ hint_tiles g rect ∧ ∀ i, i ∈ hint_tiles g rect → 0 <= i < tile_count g.
Proof.
  intros Hwf Hu Hin Hx Hy. split; [by apply hint_tiles_cover|]. intros i. by apply hint_tiles_range.
Qed.

(** A capture that holds the geometry's rows at its stride is staged pixel by
    pixel, the padding between rows left out; nothing else of the encoder's
    frames changes. *)
Theorem submit_stages_the_capture e f damage :
  enc_wf e → frame_valid f → u32_rects damage → frame_fits (Encoder.geometry e) f →
  ∃ e', submit e f damage = Ok e' ∧ enc_wf e' ∧ frame_pending (staging e') = true ∧
    Queue.frame (staging e') = capture (frame_pixels f) (width (Encoder.geometry e)) (stride f)
                                 (height (Encoder.geometry e)) ∧
    reference e' = reference e.
Proof.
  intros He Hv Hd Hfit. pose proof (submit_ok e f damage He (proj1 Hv) Hfit) as Hok.
  destruct (submit_wf e f damage _ He Hv Hd Hok) as (He' & _ & Hr & _ & Hf).
  eexists. split; [exact Hok|]. split_and!; auto.
Qed.

(** ** Witnesses *)

Definition grid : Geometry :=
  {| width := 20; height := 18; tile_size := Sixteen; pixel_format := Xrgb8888;
     columns := 2; rows := 2 |}.

Lemma grid_wf : wf grid.
Proof. unfold wf, MAX_DIMENSION. cbn. split_and!; lia || done. Qed.

Lemma u8_list l : forallb (λ b, (0 <=? b) && (b <? 256)) l = true → Forall is_u8 l.
Proof.
  rewrite forallb_forall. intros H. apply Forall_forall. intros b Hb.
  specialize (H b Hb). bool_to_prop. unfold is_u8. lia.
Qed.

Lemma hostile_keyframe_is_harmless_witness :
  let '(d', o) := apply_keyframe (Decoder.new one_pixel) [1; 1; 1; 0; 1; 0; 0; 0; 2; 1; 9] in
  dec_wf d' ∧ no_panic o ∧ o = Err (UnknownMethod 2).
Proof.
  destruct (apply_keyframe (Decoder.new one_pixel) [1; 1; 1; 0; 1; 0; 0; 0; 2; 1; 9])
    as [d' o] eqn:E.
  destruct (hostile_keyframe_is_harmless (Decoder.new one_pixel)
    [1; 1; 1; 0; 1; 0; 0; 0; 2; 1; 9] d' o) as (Hd & Hn & _).
  - apply new_dec_wf, one_pixel_valid.
  - apply u8_list. reflexivity.
  - exact E.
  - split; [exact Hd|]. split; [exact Hn|]. vm_compute in E. injection E as _ <-. reflexivity.
Defined.

Lemma hostile_delta_is_harmless_witness :
  let '(d', o) := apply_delta (Decoder.new one_pixel) [1; 0; 1; 0; 1; 0; 0; 0; 0] in
  dec_wf d' ∧ no_panic o ∧ has_frame d' = false.
Proof.
  destruct (apply_delta (Decoder.new one_pixel) [1; 0; 1; 0; 1; 0; 0; 0; 0]) as [d' o] eqn:E.
  destruct (hostile_delta_is_harmless (Decoder.new one_pixel) [1; 0; 1; 0; 1; 0; 0; 0; 0] d' o)
    as (Hd & Hn & Hf & _).
  - apply new_dec_wf, one_pixel_valid.
  - apply u8_list. reflexivity.
  - exact E.
  - split; [exact Hd|]. split; [exact Hn|]. exact Hf.
Defined.

Lemma hostile_cursor_image_is_bounded_witness :
  no_panic (decode_cursor_image [1; 1; 0; 1; 0; 1; 0; 0; 0; 0; 255; 255; 255]).
Proof.
  apply (hostile_cursor_image_is_bounded [1; 1; 0; 1; 0; 1; 0; 0; 0; 0; 255; 255; 255]).
  apply u8_list. reflexivity.
Defined.

Lemma zrle_round_trip_witness :
  Zrle.decode (Zrle.encode [7; 7; 7; 8; 4294967295] []) 5 = Ok [7; 7; 7; 8; 4294967295].
Proof.
  apply (zrle_round_trip [7; 7; 7; 8; 4294967295]). repeat constructor; unfold is_u32; lia.
Defined.

Lemma varint_round_trip_witness :
  Varint.read (Varint.write [] 4294967295 ++ [1]) = Ok (4294967295, 5).
Proof. apply (varint_round_trip 4294967295 [1]). unfold is_u32. lia. Defined.

Definition dot : CursorImage :=
  {| pixels := [0; 0; 0; 255]; image_width := 1; image_height := 1; hotspot_x := 0;
     hotspot_y := 0 |}.

Lemma cursor_image_round_trip_witness :
  ∃ payload, write_image dot = Ok payload ∧ read_image payload = Ok dot ∧ zlen payload <= 14.
Proof.
  apply (cursor_image_round_trip dot).
  - unfold within_limits, MAX_CURSOR_DIMENSION. cbn. lia.
  - apply u8_list. reflexivity.
Defined.

Lemma tiles_partition_the_frame_witness :
  exists! index, 0 <= index ∧ ∃ r, tile grid index = Some r ∧ inside r 19 17.
Proof.
  apply (tiles_partition_the_frame 20 18 Sixteen Xrgb8888 grid 19 17);
    try (unfold is_u32; lia). reflexivity.
Defined.

Lemma captured_wf : enc_wf captured.
Proof.
  apply (submit_wf (Encoder.new one_pixel_config) one_pixel_frame None captured).
  - apply new_enc_wf; apply one_pixel_valid.
  - apply one_pixel_frame_valid.
  - done.
  - vm_compute. reflexivity.
Qed.

Lemma keyframe_size_bound_witness :
  ∃ e', encode_keyframe captured = Ok e' ∧ zlen (output e') <= 4 + 8 + 1.
Proof.
  destruct (encode_keyframe captured) as [e'|e|] eqn:E; [|vm_compute in E; discriminate E..].
  exists e'. split; [reflexivity|]. apply (keyframe_size_bound captured e'); [exact captured_wf|exact E].
Defined.

Lemma keyframe_fits_its_record_witness :
  ∃ e', encode_keyframe captured = Ok e' ∧
    zlen (output e') <= Record.for_channel (Record.limits 1 1) Record.Frame.
Proof.
  destruct (encode_keyframe captured) as [e'|e|] eqn:E; [|vm_compute in E; discriminate E..].
  exists e'. split; [reflexivity|].
  apply (keyframe_fits_its_record captured e'); [exact captured_wf|exact E|..];
    vm_compute; discriminate.
Defined.

Lemma tile_record_is_shortest_witness :
  zlen (write_tile [] (replicate 256 9) None) = 1 + best_len (replicate 256 9) None.
Proof. apply (tile_record_is_shortest (replicate 256 9) None). vm_compute. discriminate. Defined.

Lemma delta_advances_compared_tiles_witness :
  ∃ e' written, encode_delta captured (Some []) = Ok (e', written) ∧ enc_wf e' ∧
    delta_reference captured e' (Some []) ∧ (written = false → reference e' = reference captured).
Proof.
  apply (delta_advances_compared_tiles captured (Some [])); [exact captured_wf|].
  intros ? ? [= <-] []%not_elem_of_nil.
Defined.

Definition stale_rect : Rect := {| x := 17; y := 3; rect_width := 4294967295; rect_height := 2 |}.

Lemma hints_select_what_they_cover_witness :
  tile_of grid 19 4 ∈ hint_tiles grid stale_rect ∧
  ∀ i, i ∈ hint_tiles grid stale_rect → 0 <= i < tile_count grid.
Proof.
  apply (hints_select_what_they_cover grid stale_rect 19 4); try (cbn; lia).
  - exact grid_wf.
  - unfold u32_rect, is_u32. cbn. lia.
  - unfold inside. cbn. lia.
Defined.

Lemma submit_stages_the_capture_witness :
  ∃ e', submit captured one_pixel_frame None = Ok e' ∧ enc_wf e' ∧
    frame_pending (staging e') = true ∧
    Queue.frame (staging e') = capture [1; 2; 3; 255] 1 4 1 ∧ reference e' = reference captured.
Proof.
  apply (submit_stages_the_capture captured one_pixel_frame None).
  - exact captured_wf.
  - exact one_pixel_frame_valid.
  - done.
  - unfold frame_fits. vm_compute. repeat split; discriminate.
Defined.
