(* ===== verification/Clipboard.v ===== *)
(** * Clipboard: one selection moving between a host and a guest

    The exchange of crates/display-protocol/src/clipboard.rs: the allowlist, the
    caps, the numbering of offers and transfers and every rule of cancellation.
    Both ends run the same machine; an operation takes the exchange and answers
    the exchange after it with the list of [Op]s for the caller to carry out.

    Time is an argument of the code; here an [Instant] is a number of
    nanoseconds, and [duration_since] saturates at zero as the standard
    library's does.  A record off the channel becomes a call by [handle], and
    [arrives] is the focus rule the viewer puts in front of it
    (crates/display-viewer/src/windows/clipboard.rs). *)

From stdpp Require Import strings.
From S2P Require Import Prelude.
#[local] Open Scope Z_scope.

Definition TEXT_MIME : string := "text/plain;charset=utf-8".
Definition HTML_MIME : string := "text/html".
Definition BMP_MIME : string := "image/bmp".
Definition PNG_MIME : string := "image/png".

Definition MAX_MIME_TYPES : nat := 16.
Definition MAX_TEXT_TRANSFER : Z := 8 * 1024 * 1024.
Definition MAX_IMAGE_TRANSFER : Z := 32 * 1024 * 1024.
Definition CHUNK : Z := 60 * 1024.

(** Five seconds, in nanoseconds. *)
Definition IDLE : Z := 5 * 1000000000.
Definition duration_since (now since : Z) : Z := Z.max 0 (now - since).

Inductive Kind : Type := Text | Html | Bmp | Png.
#[export] Instance Kind_eq_dec : EqDecision Kind.
Proof. solve_decision. Defined.

Definition ORDER : list Kind := [Text; Html; Bmp; Png].

Definition from_mime (mime : string) : option Kind :=
  if String.eqb mime TEXT_MIME then Some Text
  else if String.eqb mime HTML_MIME then Some Html
  else if String.eqb mime BMP_MIME then Some Bmp
  else if String.eqb mime PNG_MIME then Some Png
  else None.

Definition mime (kind : Kind) : string :=
  match kind with
  | Text => TEXT_MIME
  | Html => HTML_MIME
  | Bmp => BMP_MIME
  | Png => PNG_MIME
  end.

Definition cap (kind : Kind) : Z :=
  match kind with
  | Text | Html => MAX_TEXT_TRANSFER
  | Bmp | Png => MAX_IMAGE_TRANSFER
  end.

Definition is_image (kind : Kind) : bool :=
  match kind with Bmp | Png => true | _ => false end.

Record Piece : Type := mkPiece { piece_kind : Kind; bytes : list Z }.

(** The schema's [CancelReason]. *)
Inductive CancelReason : Type :=
| Unspecified | Superseded | TooLarge | FocusLost | Unavailable | TimedOut.

Inductive Message : Type :=
| Offer (serial : Z) (mime_types : list string)
| Request (serial : Z) (mime_type : string) (transfer : Z)
| Data (transfer : Z) (chunk : list Z) (last : bool)
| Cancel (transfer : Z) (reason : CancelReason).

Inductive Op : Type :=
| Send (message : Message)
| Produce (kind : Kind) (transfer : Z)
| Apply (pieces : list Piece).

Record Outgoing : Type := mkOutgoing {
  out_serial : Z;
  out_transfer : option (Z * Kind);
  out_since : option Z;
}.

Record Incoming : Type := mkIncoming {
  in_serial : option Z;
  queue : list Kind;
  in_transfer : option (Z * Kind);
  buffer : list Z;
  pieces : list Piece;
  in_since : option Z;
}.

Record Exchange : Type := mkExchange {
  outgoing : Outgoing;
  incoming : Incoming;
  next_transfer : Z;
}.

Definition new : Exchange :=
  mkExchange (mkOutgoing 0 None None) (mkIncoming None [] None [] [] None) 1.

(** Assignments to the fields. *)
Definition set_outgoing (e : Exchange) (o : Outgoing) : Exchange :=
  mkExchange o (incoming e) (next_transfer e).
Definition set_incoming (e : Exchange) (i : Incoming) : Exchange :=
  mkExchange (outgoing e) i (next_transfer e).
Definition set_out_transfer (e : Exchange) (t : option (Z * Kind)) (since : option Z) : Exchange :=
  set_outgoing e (mkOutgoing (out_serial (outgoing e)) t since).

(** The kinds of [kinds], deduplicated and in [ORDER]. *)
Definition ordered (kinds : list Kind) : list Kind :=
  base.filter (fun kind => kind ∈ kinds) ORDER.

Definition cancel_outgoing (e : Exchange) (reason : CancelReason) : Exchange * list Op :=
  match out_transfer (outgoing e) with
  | Some (transfer, _) => (set_out_transfer e None None, [Send (Cancel transfer reason)])
  | None => (e, [])
  end.

Definition cancel_incoming (e : Exchange) (reason : CancelReason) : Exchange * list Op :=
  let i := incoming e in
  match in_transfer i with
  | Some (transfer, _) =>
      (set_incoming e (mkIncoming (in_serial i) (queue i) None (buffer i) (pieces i) None),
       [Send (Cancel transfer reason)])
  | None => (e, [])
  end.

Definition forget_incoming (e : Exchange) : Exchange :=
  set_incoming e (mkIncoming None [] None [] [] None).

Definition request_next (e : Exchange) (now : Z) : Exchange * list Op :=
  let i := incoming e in
  match in_serial i with
  | None => (e, [])
  | Some serial =>
      match queue i with
      | [] => (e, [])
      | kind :: rest =>
          let transfer := next_transfer e in
          (mkExchange (outgoing e)
             (mkIncoming (Some serial) rest (Some (transfer, kind)) [] (pieces i) (Some now))
             (u32_wrapping_add (next_transfer e) 1),
           [Send (Request serial (mime kind) transfer)])
      end
  end.

Definition local_offer (e : Exchange) (kinds : list Kind) (now : Z) : Exchange * list Op :=
  let '(e, ops) := cancel_outgoing e Superseded in
  let serial := u32_wrapping_add (out_serial (outgoing e)) 1 in
  let e := set_outgoing e (mkOutgoing serial (out_transfer (outgoing e)) (Some now)) in
  (e, ops ++ [Send (Offer serial (map mime (ordered kinds)))]).

Definition peer_request (e : Exchange) (serial : Z) (mime_type : string)
    (transfer now : Z) : Exchange * list Op :=
  if negb (serial =? out_serial (outgoing e)) then
    (e, [Send (Cancel transfer Superseded)])
  else
    match from_mime mime_type with
    | None => (e, [Send (Cancel transfer Unavailable)])
    | Some kind =>
        let '(e, ops) := cancel_outgoing e Superseded in
        (set_out_transfer e (Some (transfer, kind)) (Some now), ops ++ [Produce kind transfer])
    end.

Definition is_empty {A} (l : list A) : bool := match l with [] => true | _ => false end.

(** The [loop] of [produced]: every turn but the last takes a full chunk, so a
    turn per byte and one more is enough. *)
Fixpoint produced_loop (fuel : nat) (transfer : Z) (rest : list Z) : list Op :=
  match fuel with
  | O => []
  | S fuel =>
      let n := Z.to_nat (Z.min (zlen rest) CHUNK) in
      let chunk := take n rest in
      let tail := drop n rest in
      Send (Data transfer chunk (is_empty tail))
        :: (if is_empty tail then [] else produced_loop fuel transfer tail)
  end.

Definition produced (e : Exchange) (transfer : Z) (bytes : list Z) (now : Z)
    : Exchange * list Op :=
  match out_transfer (outgoing e) with
  | None => (e, [])
  | Some (current, kind) =>
      if negb (current =? transfer) then (e, [])
      else if cap kind <? zlen bytes then
        (set_out_transfer e None None, [Send (Cancel transfer TooLarge)])
      else
        (set_out_transfer e None (Some now), produced_loop (S (length bytes)) transfer bytes)
  end.

Definition unavailable (e : Exchange) (transfer : Z) : Exchange * list Op :=
  match out_transfer (outgoing e) with
  | Some (current, _) =>
      if current =? transfer
      then (set_out_transfer e None None, [Send (Cancel transfer Unavailable)])
      else (e, [])
  | None => (e, [])
  end.

(** What [peer_offer] decides to pull: the allowed kinds of the first sixteen
    mime types, in [ORDER], without a PNG beside a BMP. *)
Definition wanted (kinds : list Kind) : list Kind :=
  let wanted := ordered kinds in
  if bool_decide (Bmp ∈ wanted) then base.filter (fun kind => kind ≠ Png) wanted else wanted.

Definition peer_offer (e : Exchange) (serial : Z) (mime_types : list string) (now : Z)
    : Exchange * list Op :=
  let kinds := omap from_mime (take MAX_MIME_TYPES mime_types) in
  let wanted := wanted kinds in
  let '(e, ops) := cancel_incoming e Superseded in
  let e := forget_incoming e in
  if is_empty wanted then (e, ops)
  else
    let i := incoming e in
    let e := set_incoming e
      (mkIncoming (Some serial) wanted (in_transfer i) (buffer i) (pieces i) (in_since i)) in
    let '(e, more) := request_next e now in
    (e, ops ++ more).

Definition peer_data (e : Exchange) (transfer : Z) (chunk : list Z) (last : bool) (now : Z)
    : Exchange * list Op :=
  let i := incoming e in
  match in_transfer i with
  | None => (e, [])
  | Some (current, kind) =>
      if negb (current =? transfer) then (e, [])
      else if cap kind <? zlen (buffer i) + zlen chunk then
        let '(e, ops) := cancel_incoming e TooLarge in
        (forget_incoming e, ops)
      else
        let bytes := buffer i ++ chunk in
        if negb last then
          (set_incoming e
             (mkIncoming (in_serial i) (queue i) (in_transfer i) bytes (pieces i) (Some now)), [])
        else
          let e := set_incoming e
            (mkIncoming (in_serial i) (queue i) None [] (pieces i ++ [mkPiece kind bytes]) None) in
          let '(e, ops) := request_next e now in
          if negb (is_empty ops) then (e, ops)
          else
            let i := incoming e in
            (set_incoming e
               (mkIncoming None (queue i) (in_transfer i) (buffer i) [] (in_since i)),
             [Apply (pieces i)])
  end.

Definition is_current (t : option (Z * Kind)) (transfer : Z) : bool :=
  match t with Some (current, _) => current =? transfer | None => false end.

Definition peer_cancel (e : Exchange) (transfer : Z) (_ : CancelReason) : Exchange * list Op :=
  if is_current (in_transfer (incoming e)) transfer then (forget_incoming e, [])
  else if is_current (out_transfer (outgoing e)) transfer then (set_out_transfer e None None, [])
  else (e, []).

Definition focus_lost (e : Exchange) (_ : Z) : Exchange * list Op :=
  let '(e, ops) := cancel_outgoing e FocusLost in
  let '(e, more) := cancel_incoming e FocusLost in
  (forget_incoming e, ops ++ more).

(** Whether the transfer [t], which last moved at [since], has been idle. *)
Definition has_idled (t : option (Z * Kind)) (since : option Z) (now : Z) : bool :=
  match t, since with
  | Some _, Some since => IDLE <? duration_since now since
  | _, _ => false
  end.

Definition tick (e : Exchange) (now : Z) : Exchange * list Op :=
  let '(e, ops) :=
    if has_idled (out_transfer (outgoing e)) (out_since (outgoing e)) now
    then cancel_outgoing e TimedOut else (e, []) in
  if has_idled (in_transfer (incoming e)) (in_since (incoming e)) now then
    let '(e, more) := cancel_incoming e TimedOut in
    (forget_incoming e, ops ++ more)
  else (e, ops).

(** What one record off the channel means to the exchange. *)
Definition handle (e : Exchange) (message : Message) (now : Z) : Exchange * list Op :=
  match message with
  | Offer serial mime_types => peer_offer e serial mime_types now
  | Request serial mime_type transfer => peer_request e serial mime_type transfer now
  | Data transfer chunk last => peer_data e transfer chunk last now
  | Cancel transfer reason => peer_cancel e transfer reason
  end.

(** The offer in this record, if it is one and the window cannot take it. *)
Definition unfocused_offer (focused : bool) (message : Message) : option (Z * list string) :=
  match message with
  | Offer serial mime_types => if focused then None else Some (serial, mime_types)
  | _ => None
  end.

(** The viewer's turn for one record of the bound generation: the offer held
    until the window comes back, the exchange, and the operations. *)
Definition arrives (focused : bool) (awaited : option (Z * list string)) (e : Exchange)
    (message : Message) (now : Z) : option (Z * list string) * Exchange * list Op :=
  match unfocused_offer focused message with
  | Some offer => (Some offer, e, [])
  | None => let '(e, ops) := handle e message now in (awaited, e, ops)
  end.
