(* ===== verification/ClipboardProps.v ===== *)
(** * ClipboardProps: what the clipboard exchange promises

    Both sides of one copy: whatever the copying side can produce arrives whole
    and in order at the pasting side ([copied_selection_is_pasted]).  One side
    against any peer: what it holds and what it applies stay within the caps
    ([applied_selection_is_whole], [held_selection_is_bounded]), losing focus
    stops every transfer ([focus_lost_stops_every_transfer]), and a transfer
    that stopped moving is cancelled ([tick_leaves_nothing_idle]).  The two
    findings at the end show where the code does less than its comments say. *)

From stdpp Require Import strings sets.
From S2P Require Import Prelude.
From S2P Require Import Clipboard.
#[local] Open Scope Z_scope.

(** ** Any peer, any order of events *)

Inductive Input : Type :=
| LocalOffer (kinds : list Kind) (now : Z)
| Produced (transfer : Z) (bytes : list Z) (now : Z)
| NotProduced (transfer : Z)
| Peer (message : Message) (now : Z)
| LoseFocus (now : Z)
| Tick (now : Z).

Definition step (e : Exchange) (input : Input) : Exchange * list Op :=
  match input with
  | LocalOffer kinds now => local_offer e kinds now
  | Produced transfer bytes now => produced e transfer bytes now
  | NotProduced transfer => unavailable e transfer
  | Peer message now => handle e message now
  | LoseFocus now => focus_lost e now
  | Tick now => tick e now
  end.

Fixpoint run (e : Exchange) (inputs : list Input) : Exchange * list Op :=
  match inputs with
  | [] => (e, [])
  | input :: rest =>
      let '(e, ops) := step e input in
      let '(e, more) := run e rest in
      (e, ops ++ more)
  end.

Definition piece_fits (p : Piece) : Prop := zlen (bytes p) <= cap (piece_kind p).

(** What is pulled is a prefix of one offer: the pieces that have arrived, the
    kind in flight and the kinds still to ask for are the offer's wanted kinds. *)
Definition incoming_ok (i : Incoming) : Prop :=
  match in_transfer i with
  | None => i = mkIncoming None [] None [] [] None
  | Some (_, kind) =>
      is_Some (in_serial i) ∧ is_Some (in_since i) ∧
      zlen (buffer i) <= cap kind ∧ Forall piece_fits (pieces i) ∧
      ∃ kinds, map piece_kind (pieces i) ++ kind :: queue i = wanted kinds
  end.

Definition outgoing_ok (o : Outgoing) : Prop :=
  is_Some (out_transfer o) → is_Some (out_since o).

Definition exchange_ok (e : Exchange) : Prop :=
  incoming_ok (incoming e) ∧ outgoing_ok (outgoing e).

(** A whole selection: every wanted kind of some offer, once, in order. *)
Definition whole_selection (ps : list Piece) : Prop :=
  Forall piece_fits ps ∧ ps ≠ [] ∧ ∃ kinds, map piece_kind ps = wanted kinds.

Definition applies_whole (op : Op) : Prop :=
  match op with Apply ps => whole_selection ps | _ => True end.

Lemma new_ok : exchange_ok new.
Proof. split; [done | intros [? ?]; done]. Qed.

(** Splits the branches of an operation in a goal about its two results. *)
Ltac op_cases :=
  repeat match goal with
  | |- context [match ?x with _ => _ end] => destruct x eqn:?; simpl in *
  end; simpl in *.

Lemma forget_ok e : outgoing_ok (outgoing e) → exchange_ok (forget_incoming e).
Proof. by intros H; split. Qed.

Lemma cancel_outgoing_ok e r e' ops :
  cancel_outgoing e r = (e', ops) → outgoing_ok (outgoing e) →
  incoming e' = incoming e ∧ next_transfer e' = next_transfer e ∧
  out_serial (outgoing e') = out_serial (outgoing e) ∧
  out_transfer (outgoing e') = None ∧ Forall applies_whole ops.
Proof.
  unfold cancel_outgoing. destruct (out_transfer (outgoing e)) as [[t k]|] eqn:E;
    intros [= <- <-] H; repeat split; eauto; repeat constructor.
Qed.

Lemma cancel_incoming_ok e r e' ops :
  cancel_incoming e r = (e', ops) →
  outgoing e' = outgoing e ∧ next_transfer e' = next_transfer e ∧ Forall applies_whole ops.
Proof.
  unfold cancel_incoming. destruct (in_transfer (incoming e)) as [[t k]|];
    intros [= <- <-]; repeat split; eauto; repeat constructor.
Qed.

(** Asking for the next kind of an offer some pieces of which have arrived. *)
Lemma request_next_ok e now kinds :
  is_Some (in_serial (incoming e)) → queue (incoming e) ≠ [] →
  Forall piece_fits (pieces (incoming e)) →
  map piece_kind (pieces (incoming e)) ++ queue (incoming e) = wanted kinds →
  ∃ e' m, request_next e now = (e', [Send m]) ∧
    incoming_ok (incoming e') ∧ outgoing e' = outgoing e.
Proof.
  intros [s Hs] Hq Hp Hw. unfold request_next. rewrite Hs.
  destruct (queue (incoming e)) as [|k rest] eqn:E; [done|].
  eexists _, _. split; [done|]. split; [|done].
  unfold incoming_ok. simpl. repeat split; eauto.
  - destruct k; vm_compute; congruence.
Qed.

Lemma peer_offer_ok e serial mimes now :
  outgoing_ok (outgoing e) →
  exchange_ok (fst (peer_offer e serial mimes now)) ∧
  Forall applies_whole (snd (peer_offer e serial mimes now)).
Proof.
  intros Ho. unfold peer_offer.
  destruct (cancel_incoming e Superseded) as [e1 ops] eqn:E1.
  apply cancel_incoming_ok in E1 as (H1 & _ & H2).
  set (kinds := omap _ _).
  destruct (wanted kinds) as [|k rest] eqn:Ew; simpl.
  - split; [|done]. apply forget_ok. by rewrite H1.
  - split; [split|apply Forall_app; by repeat constructor].
    + repeat split; simpl; eauto. by destruct k.
    + simpl. by rewrite H1.
Qed.

Lemma peer_data_ok e t chunk last now :
  exchange_ok e →
  exchange_ok (fst (peer_data e t chunk last now)) ∧
  Forall applies_whole (snd (peer_data e t chunk last now)).
Proof.
  intros [Hi Ho]. unfold peer_data.
  destruct (in_transfer (incoming e)) as [[current kind]|] eqn:Et; [|by repeat split].
  unfold incoming_ok in Hi. rewrite Et in Hi.
  destruct Hi as (Hs & Hsince & Hb & Hp & kinds & Hk).
  assert (incoming_ok (incoming e)) by (unfold incoming_ok; rewrite Et; eauto 8).
  destruct (negb _); [done|].
  destruct (cap kind <? _) eqn:Hcap; bool_to_prop.
  { destruct (cancel_incoming e TooLarge) as [e1 ops] eqn:E1.
    apply cancel_incoming_ok in E1 as (H1 & _ & H2). simpl.
    split; [|done]. apply forget_ok. by rewrite H1. }
  destruct last; simpl.
  2:{ split; [|done]. split; [|done]. unfold incoming_ok. simpl.
      repeat split; eauto. rewrite length_app. lia. }
  match goal with |- context [request_next ?x now] => set (e2 := x) end.
  assert (Hp' : Forall piece_fits (pieces (incoming e2))).
  { simpl. apply Forall_app. split; [done|]. repeat constructor.
    unfold piece_fits. simpl. rewrite length_app. lia. }
  destruct (queue (incoming e)) as [|k rest] eqn:Eq.
  - unfold request_next. simpl. destruct Hs as [s Hs]. rewrite Hs. simpl.
    split; [done|].
    repeat constructor; [done|by destruct (pieces (incoming e))|].
    exists kinds. rewrite map_app. simpl. done.
  - destruct (request_next_ok e2 now kinds) as (e3 & m & -> & Hi' & Hout); simpl.
    + done.
    + done.
    + done.
    + rewrite map_app, <- app_assoc. simpl. done.
    + split; [split; [done|by rewrite Hout]|by repeat constructor].
Qed.

Lemma tick_ok e now :
  exchange_ok e →
  exchange_ok (fst (tick e now)) ∧ Forall applies_whole (snd (tick e now)).
Proof.
  intros [Hi Ho]. unfold tick.
  assert (∃ e1 ops, (if has_idled (out_transfer (outgoing e)) (out_since (outgoing e)) now
      then cancel_outgoing e TimedOut else (e, [])) = (e1, ops) ∧
      incoming e1 = incoming e ∧ outgoing_ok (outgoing e1) ∧ Forall applies_whole ops)
    as (e1 & ops & -> & H1 & H2 & H3).
  { case_if; [|by eauto 8].
    destruct (cancel_outgoing e TimedOut) as [e1 ops] eqn:E1.
    apply cancel_outgoing_ok in E1 as (H1 & H2 & H3 & H4 & H5); [|done].
    exists e1, ops. repeat split; try done. unfold outgoing_ok. rewrite H4. by intros [? ?]. }
  case_if; [|split; [split; simpl; [by rewrite H1|done]|done]].
  destruct (cancel_incoming e1 TimedOut) as [e2 more] eqn:E2.
  apply cancel_incoming_ok in E2 as (G1 & _ & G2). simpl.
  split; [|by apply Forall_app]. apply forget_ok. by rewrite G1.
Qed.

Lemma produced_loop_applies n t bs : Forall applies_whole (produced_loop n t bs).
Proof.
  revert bs. induction n as [|n IH]; intros bs; simpl; [done|].
  constructor; [done|]. by destruct (is_empty _).
Qed.

Lemma step_ok e input :
  exchange_ok e →
  exchange_ok (fst (step e input)) ∧ Forall applies_whole (snd (step e input)).
Proof.
  intros He. pose proof He as [Hi Ho].
  destruct input as [kinds now|t bs now|t|m now|now|now]; simpl.
  - unfold local_offer. destruct (cancel_outgoing e Superseded) as [e1 ops] eqn:E1.
    apply cancel_outgoing_ok in E1 as (H1 & H2 & H3 & H4 & H5); [|done]. simpl.
    rewrite H4. split; [split; [by simpl; rewrite H1|by intros [? ?]]|].
    apply Forall_app; by repeat constructor.
  - unfold produced.
    destruct (out_transfer (outgoing e)) as [[current kind]|]; [|done].
    repeat case_if; (split; [split; [done|]|]); try done; try (by intros [? ?]);
      [by repeat constructor|apply (produced_loop_applies (S _))].
  - unfold unavailable.
    destruct (out_transfer (outgoing e)) as [[current kind]|]; [|done].
    case_if; (split; [split; [done|]|]); try done; [by intros [? ?]|by repeat constructor].
  - destruct m as [s mimes|s mime t|t chunk last|t r]; simpl.
    + by apply peer_offer_ok.
    + unfold peer_request. case_if; [by repeat constructor|].
      destruct (from_mime mime); [|by repeat constructor].
      destruct (cancel_outgoing e Superseded) as [e1 ops] eqn:E1.
      apply cancel_outgoing_ok in E1 as (H1 & H2 & H3 & H4 & H5); [|done]. simpl.
      split; [split; [by simpl; rewrite H1|by intros _; simpl]|].
      apply Forall_app; by repeat constructor.
    + by apply peer_data_ok.
    + unfold peer_cancel. repeat case_if; (split; [|done]); try done.
      by split; [|intros [? ?]].
  - unfold focus_lost. destruct (cancel_outgoing e FocusLost) as [e1 ops] eqn:E1.
    apply cancel_outgoing_ok in E1 as (H1 & H2 & H3 & H4 & H5); [|done].
    destruct (cancel_incoming e1 FocusLost) as [e2 more] eqn:E2.
    apply cancel_incoming_ok in E2 as (G1 & _ & G2). simpl.
    split; [|by apply Forall_app]. apply forget_ok. rewrite G1. unfold outgoing_ok.
    rewrite H4. by intros [? ?].
  - by apply tick_ok.
Qed.

Lemma run_ok e inputs :
  exchange_ok e → exchange_ok (fst (run e inputs)) ∧ Forall applies_whole (snd (run e inputs)).
Proof.
  revert e. induction inputs as [|input inputs IH]; intros e He; simpl; [done|].
  destruct (step_ok e input He) as [H1 H2]. destruct (step e input) as [e1 ops]; simpl in *.
  destruct (IH e1 H1) as [H3 H4]. destruct (run e1 inputs) as [e2 more]; simpl in *.
  split; [done|]. by apply Forall_app.
Qed.

(** ** Two sides and the records between them *)

(** What a local clipboard holds, as its side reads it for a transfer. *)
Abbreviation source := (Kind → option (list Z)).

(** Both callers carry their operations out from a queue: producing a selection
    appends the chunks that carry it. *)
Fixpoint carry_out_loop (fuel : nat) (from : source) (now : Z) (e : Exchange) (ops : list Op)
    : Exchange * list Message * list (list Piece) :=
  match fuel, ops with
  | O, _ | _, [] => (e, [], [])
  | S fuel, Send m :: rest =>
      let '(e, sent, applied) := carry_out_loop fuel from now e rest in
      (e, m :: sent, applied)
  | S fuel, Produce kind transfer :: rest =>
      let '(e, more) :=
        match from kind with
        | Some bytes => produced e transfer bytes now
        | None => unavailable e transfer
        end in
      carry_out_loop fuel from now e (rest ++ more)
  | S fuel, Apply ps :: rest =>
      let '(e, sent, applied) := carry_out_loop fuel from now e rest in
      (e, sent, ps :: applied)
  end.

Fixpoint carry_fuel (from : source) (ops : list Op) : nat :=
  match ops with
  | [] => 0
  | Produce kind _ :: rest => 2 + length (default [] (from kind)) + carry_fuel from rest
  | _ :: rest => S (carry_fuel from rest)
  end.

Definition carry_out (from : source) (now : Z) (e : Exchange) (ops : list Op) :=
  carry_out_loop (carry_fuel from ops) from now e ops.

(** The side that copied, the side that pastes, the records on their way (those
    to the pasting side marked [true]), and what the pasting side applied. *)
Record Network : Type := mkNetwork {
  copier : Exchange;
  paster : Exchange;
  wire : list (bool * Message);
  pasted : list (list Piece);
}.

Definition deliver (here there : source) (now : Z) (n : Network) : Network :=
  match wire n with
  | [] => n
  | (true, m) :: rest =>
      let '(e, ops) := handle (paster n) m now in
      let '(e, sent, applied) := carry_out there now e ops in
      mkNetwork (copier n) e (rest ++ map (pair false) sent) (pasted n ++ applied)
  | (false, m) :: rest =>
      let '(e, ops) := handle (copier n) m now in
      let '(e, sent, _) := carry_out here now e ops in
      mkNetwork e (paster n) (rest ++ map (pair true) sent) (pasted n)
  end.

Fixpoint pump (fuel : nat) (here there : source) (now : Z) (n : Network) : Network :=
  match fuel with
  | O => n
  | S fuel => pump fuel here there now (deliver here there now n)
  end.

(** The local clipboard of [e] changed to [kinds], and its records are sent. *)
Definition copy (here : source) (now : Z) (e p : Exchange) (kinds : list Kind) : Network :=
  let '(e, ops) := local_offer e kinds now in
  let '(e, sent, _) := carry_out here now e ops in
  mkNetwork e p (map (pair true) sent) [].

Lemma pump_add here there now a b n :
  pump (a + b) here there now n = pump b here there now (pump a here there now n).
Proof. revert n. induction a as [|a IH]; intros n; simpl; [done|apply IH]. Qed.

Lemma carry_out_sends fuel from now e ms :
  (length ms <= fuel)%nat → carry_out_loop fuel from now e (map Send ms) = (e, ms, []).
Proof.
  revert fuel. induction ms as [|m ms IH]; intros [|fuel] Hf; simpl in *; [done..|lia|].
  rewrite IH by lia. done.
Qed.

(** The chunks of one piece: the loop ends, the chunks are the bytes in order,
    none is longer than a record's share and only the last is marked. *)
Fixpoint datas (transfer : Z) (chunks : list (list Z)) : list Message :=
  match chunks with
  | [] => []
  | c :: rest => Data transfer c (is_empty rest) :: datas transfer rest
  end.

Lemma produced_loop_chunks fuel t bs :
  (length bs < fuel)%nat →
  ∃ chunks, produced_loop fuel t bs = map Send (datas t chunks) ∧ concat chunks = bs ∧
    chunks ≠ [] ∧ Forall (λ c, zlen c <= CHUNK) chunks ∧ (length chunks <= S (length bs))%nat.
Proof.
  revert bs. induction fuel as [|fuel IH]; intros bs Hf; [lia|].
  cbn [produced_loop]. set (n := Z.to_nat (Z.min (zlen bs) CHUNK)).
  assert (Hn : zlen (take n bs) <= CHUNK).
  { rewrite length_take. subst n. unfold CHUNK. lia. }
  destruct (drop n bs) as [|b rest] eqn:E.
  - exists [take n bs]. cbn [is_empty datas map concat]. repeat split; auto; simpl; [|lia].
    rewrite app_nil_r. rewrite <- (take_drop n bs) at 2. by rewrite E, app_nil_r.
  - cbn [is_empty].
    assert (Hl : (length (b :: rest) + n = length bs)%nat).
    { rewrite <- E, length_drop. subst n. unfold CHUNK. lia. }
    assert (Hpos : (0 < n)%nat).
    { subst n. unfold CHUNK. destruct bs; [by rewrite drop_nil in E|]. simpl length. lia. }
    destruct (IH (b :: rest)) as (chunks & H1 & H2 & H3 & H4 & H5); [lia|].
    exists (take n bs :: chunks). rewrite H1.
    destruct chunks as [|c chunks]; [done|]. repeat split; auto.
    + cbn [concat] in *. rewrite H2, <- E. apply take_drop.
    + simpl in *. lia.
Qed.

(** The pasting side while it pulls [k] of the selection [s]: [rest] is still to
    ask for and [ps] has arrived. *)
Definition pulling (o : Outgoing) (s : Z) (rest : list Kind) (t : Z) (k : Kind)
    (buf : list Z) (ps : list Piece) (since : option Z) (next : Z) : Exchange :=
  mkExchange o (mkIncoming (Some s) rest (Some (t, k)) buf ps since) next.

(** The network once the piece that was being pulled has arrived whole. *)
Definition arrived (c : Exchange) (o : Outgoing) (s : Z) (rest : list Kind)
    (ps : list Piece) (now next : Z) : Network :=
  match rest with
  | [] => mkNetwork c (mkExchange o (mkIncoming None [] None [] [] None) next) [] [ps]
  | k :: rest =>
      mkNetwork c
        (pulling o s rest next k [] ps (Some now) (u32_wrapping_add next 1))
        [(false, Request s (mime k) next)] []
  end.

Section Pull.
Context (here there : source) (now : Z).

Lemma deliver_datas chunks c o s rest t k buf ps since next :
  chunks ≠ [] → zlen buf + zlen (concat chunks) <= cap k →
  pump (length chunks) here there now
    (mkNetwork c (pulling o s rest t k buf ps since next) (map (pair true) (datas t chunks)) []) =
  arrived c o s rest (ps ++ [mkPiece k (buf ++ concat chunks)]) now next.
Proof.
  revert buf since. induction chunks as [|chunk chunks IH]; intros buf since Hne Hcap; [done|].
  cbn [concat] in Hcap. rewrite length_app in Hcap.
  cbn [length pump datas map deliver wire]. cbn [handle paster]. unfold peer_data at 1.
  cbn [pulling incoming in_transfer]. rewrite Z.eqb_refl. cbn [negb].
  destruct (cap k <? _) eqn:E; [exfalso; simpl in E; bool_to_prop; lia|].
  destruct chunks as [|chunk' chunks].
  - cbn. destruct rest; cbn; by rewrite app_nil_r.
  - cbn [is_empty negb]. unfold carry_out. cbn [carry_fuel carry_out_loop copier].
    rewrite app_nil_r. cbn [pasted app]. unfold set_incoming. cbn [outgoing next_transfer].
    fold (pulling o s rest t k (buf ++ chunk) ps (Some now) next).
    cbn [concat]. rewrite app_assoc. apply IH; [done|].
    rewrite length_app. cbn [concat] in *. lia.
Qed.

Lemma from_mime_mime k : from_mime (mime k) = Some k.
Proof. by destruct k. Qed.

(** One request served: the selection is read, cut into chunks and sent. *)
Lemma deliver_request s t k bs c p since :
  here k = Some bs → zlen bs <= cap k →
  ∃ chunks, chunks ≠ [] ∧ concat chunks = bs ∧
    deliver here there now
      (mkNetwork (mkExchange (mkOutgoing s None since) (incoming c) (next_transfer c)) p
         [(false, Request s (mime k) t)] []) =
    mkNetwork (mkExchange (mkOutgoing s None (Some now)) (incoming c) (next_transfer c)) p
      (map (pair true) (datas t chunks)) [].
Proof.
  intros Hk Hcap.
  destruct (produced_loop_chunks (S (length bs)) t bs ltac:(lia)) as (chunks & H1 & H2 & H3 & _ & H5).
  exists chunks. split; [done|]. split; [done|].
  unfold deliver. cbn [wire handle copier]. unfold peer_request. cbn [outgoing out_serial].
  rewrite Z.eqb_refl, from_mime_mime. cbn [negb cancel_outgoing out_transfer outgoing app].
  unfold cancel_outgoing. cbn [outgoing out_transfer app].
  unfold carry_out. cbn [carry_fuel]. rewrite Hk. cbn [default].
  match goal with |- context [carry_out_loop ?f] => set (fuel := f) end.
  assert (Hf : (S (length (datas t chunks)) <= fuel)%nat).
  { assert (Hl : length (datas t chunks) = length chunks)
      by (clear; induction chunks; simpl; congruence).
    subst fuel. rewrite Hl. unfold id. lia. }
  clearbody fuel. destruct fuel as [|f]; [lia|].
  cbn [carry_out_loop]. rewrite Hk. unfold produced at 1.
  cbn [set_out_transfer set_outgoing outgoing out_transfer]. rewrite Z.eqb_refl. cbn [negb].
  destruct (cap k <? zlen bs) eqn:E; [exfalso; bool_to_prop; lia|].
  rewrite H1. cbn [app]. rewrite carry_out_sends by lia. done.
Qed.

(** Every kind that is still to be pulled arrives, in order. *)
Lemma pull_all rest : ∀ s t k c p o ps since since' next,
  (∀ k', k' ∈ k :: rest → ∃ bs, here k' = Some bs ∧ zlen bs <= cap k') →
  p = pulling o s rest t k [] ps since' next →
  ∃ fuel c' p',
    pump fuel here there now
      (mkNetwork (mkExchange (mkOutgoing s None since) (incoming c) (next_transfer c)) p
         [(false, Request s (mime k) t)] []) =
    mkNetwork c' p' []
      [ps ++ map (λ k', mkPiece k' (default [] (here k'))) (k :: rest)].
Proof.
  induction rest as [|k2 rest IH]; intros s t k c p o ps since since' next Hsrc ->;
    (destruct (Hsrc k) as (bs & Hk & Hcap); [set_solver|]);
    match goal with
    | |- context [pulling o s ?r t k [] ps since' next] =>
        destruct (deliver_request s t k bs c (pulling o s r t k [] ps since' next) since Hk Hcap)
          as (chunks & Hne & Hc & Hd)
    end.
  - exists (S (length chunks)). cbn [pump]. rewrite Hd, deliver_datas by (simpl; rewrite ?Hc; auto).
    do 2 eexists. cbn. by rewrite Hk, Hc.
  - assert (E : pump (S (length chunks)) here there now
      (mkNetwork (mkExchange (mkOutgoing s None since) (incoming c) (next_transfer c))
         (pulling o s (k2 :: rest) t k [] ps since' next) [(false, Request s (mime k) t)] []) =
      arrived (mkExchange (mkOutgoing s None (Some now)) (incoming c) (next_transfer c))
        o s (k2 :: rest) (ps ++ [mkPiece k bs]) now next).
    { cbn [pump]. rewrite Hd, deliver_datas by (simpl; rewrite ?Hc; auto). by rewrite Hc. }
    cbn [arrived] in E.
    destruct (IH s next k2 c
      (pulling o s rest next k2 [] (ps ++ [mkPiece k bs]) (Some now) (u32_wrapping_add next 1))
      o (ps ++ [mkPiece k bs]) (Some now) (Some now) (u32_wrapping_add next 1))
      as (fuel & c' & p' & Hp); [set_solver|done|].
    exists (S (length chunks) + fuel)%nat, c', p'. rewrite pump_add, E, Hp.
    cbn [map]. rewrite Hk. cbn [default]. by rewrite <- app_assoc.
Qed.

End Pull.

Lemma peer_cancel_silent e t r :
  ∃ e', peer_cancel e t r = (e', []) ∧ out_serial (outgoing e') = out_serial (outgoing e) ∧
    (out_transfer (outgoing e) = None → out_transfer (outgoing e') = None).
Proof. unfold peer_cancel. repeat case_if; eexists; split; eauto. Qed.

Lemma elem_of_ordered k kinds : k ∈ ordered kinds ↔ k ∈ kinds.
Proof.
  unfold ordered. rewrite list_elem_of_filter. split; [by intros [? _]|].
  intros H. split; [done|]. destruct k; unfold ORDER; set_solver.
Qed.

Lemma ordered_ordered kinds : ordered (ordered kinds) = ordered kinds.
Proof. apply list_filter_iff. intros k. apply elem_of_ordered. Qed.

Lemma ordered_length kinds : (length (ordered kinds) <= 4)%nat.
Proof. unfold ordered. etrans; [apply length_filter|]. done. Qed.

Lemma from_mimes kinds : omap from_mime (map mime kinds) = kinds.
Proof. induction kinds as [|k kinds IH]; [done|]. cbn. rewrite from_mime_mime. by f_equal. Qed.

Lemma offered_kinds kinds :
  wanted (omap from_mime (take MAX_MIME_TYPES (map mime (ordered kinds)))) = wanted kinds.
Proof.
  rewrite take_ge, from_mimes.
  - unfold wanted. by rewrite ordered_ordered.
  - rewrite length_map. pose proof (ordered_length kinds). unfold MAX_MIME_TYPES. lia.
Qed.

(** The sixteen selections there can be. *)
Lemma wanted_cases kinds :
  wanted kinds = base.filter (λ k, k ∈ wanted kinds) ORDER.
Proof.
  unfold wanted at 1. case_bool_decide as H.
  - unfold ordered at 1. rewrite list_filter_filter. apply list_filter_iff. intros k.
    unfold wanted. rewrite bool_decide_true by done.
    rewrite list_elem_of_filter, elem_of_ordered. done.
  - unfold ordered at 1. apply list_filter_iff. intros k.
    unfold wanted. rewrite bool_decide_false by done. by rewrite elem_of_ordered.
Qed.

Lemma wanted_nonempty kinds : kinds ≠ [] → wanted kinds ≠ [].
Proof.
  destruct kinds as [|k kinds]; [done|intros _ H].
  assert (Hk : k ∈ ordered (k :: kinds)) by (apply elem_of_ordered; set_solver).
  unfold wanted in H. case_bool_decide as Hb; [|rewrite H in Hk; set_solver].
  assert (Bmp ∈ base.filter (λ kind, kind ≠ Png) (ordered (k :: kinds)))
    by (by apply list_elem_of_filter).
  rewrite H in *. set_solver.
Qed.

(** The most one selection's wanted kinds can carry together. *)
Definition selection_cap : Z := 2 * MAX_TEXT_TRANSFER + MAX_IMAGE_TRANSFER.
Definition total (caps : list Z) : Z := foldr Z.add 0 caps.

Lemma total_app a b : total (a ++ b) = total a + total b.
Proof. induction a as [|x a IH]; simpl; [done|]. rewrite IH. lia. Qed.

Lemma wanted_one_image kinds : Bmp ∈ wanted kinds → Png ∉ wanted kinds.
Proof.
  unfold wanted. case_bool_decide as H; rewrite ?list_elem_of_filter; naive_solver.
Qed.

Lemma wanted_cap kinds : total (map cap (wanted kinds)) <= selection_cap.
Proof.
  rewrite wanted_cases. pose proof (wanted_one_image kinds) as Hi.
  generalize dependent (wanted kinds). intros l Hi. unfold ORDER.
  rewrite !filter_cons. repeat case_decide; try done; by naive_solver.
Qed.

Lemma caps_nonneg ks : 0 <= total (map cap ks).
Proof. induction ks as [|k ks IH]; simpl; [lia|]. destruct k; simpl; unfold MAX_TEXT_TRANSFER, MAX_IMAGE_TRANSFER; lia. Qed.

Lemma pieces_cap ps :
  Forall piece_fits ps → total (map (λ p, zlen (bytes p)) ps) <= total (map cap (map piece_kind ps)).
Proof. induction 1; simpl; [lia|]. unfold piece_fits in *. lia. Qed.

(** The bytes an exchange holds of the peer's selection. *)
Definition held (e : Exchange) : Z :=
  zlen (buffer (incoming e)) + total (map (λ p, zlen (bytes p)) (pieces (incoming e))).

(** A transfer that has moved within [IDLE] of [now]. *)
Definition moving (t : option (Z * Kind)) (since : option Z) (now : Z) : Prop :=
  is_Some t → ∃ s, since = Some s ∧ duration_since now s <= IDLE.

Lemma has_idled_false t since now :
  (is_Some t → is_Some since) → has_idled t since now = false → moving t since now.
Proof.
  intros H Hi [x ->]. destruct H as [s ->]; [by eexists|]. exists s. split; [done|].
  simpl in Hi. bool_to_prop. lia.
Qed.

(** The transfers a list of operations asks the peer for. *)
Definition requested (ops : list Op) : list Z :=
  omap (λ op, match op with Send (Request _ _ t) => Some t | _ => None end) ops.

Lemma requested_app a b : requested (a ++ b) = requested a ++ requested b.
Proof. apply omap_app. Qed.

Lemma produced_requests n t bs : requested (produced_loop n t bs) = [].
Proof.
  revert bs. induction n as [|n IH]; intros bs; [done|]. cbn [produced_loop requested omap list_omap].
  by destruct (is_empty _).
Qed.

(** Either nothing is asked for, or the next number is and the counter moves. *)
Lemma step_requests e input :
  let '(e', ops) := step e input in
  (requested ops = [] ∧ next_transfer e' = next_transfer e) ∨
  (requested ops = [next_transfer e] ∧
   next_transfer e' = u32_wrapping_add (next_transfer e) 1).
Proof.
  destruct input as [kinds now|t bs now|t|m now|now|now]; simpl.
  - unfold local_offer, cancel_outgoing. destruct (out_transfer (outgoing e)) as [[? ?]|]; by left.
  - unfold produced. destruct (out_transfer (outgoing e)) as [[? ?]|]; [|by left].
    repeat case_if; left; [done|done|]. split; [apply (produced_requests (S _))|done].
  - unfold unavailable. destruct (out_transfer (outgoing e)) as [[? ?]|]; [|by left]. case_if; by left.
  - destruct m as [s mimes|s mime t|t chunk last|t r]; simpl.
    + unfold peer_offer, cancel_incoming.
      destruct (in_transfer (incoming e)) as [[? ?]|]; destruct (wanted _); simpl; [by left|by right|by left|by right].
    + unfold peer_request. case_if; [by left|]. destruct (from_mime mime); [|by left].
      unfold cancel_outgoing. destruct (out_transfer (outgoing e)) as [[? ?]|]; by left.
    + unfold peer_data, request_next, cancel_incoming.
      destruct (in_transfer (incoming e)) as [[? ?]|]; [|by left]. repeat case_if; simpl in *; try (by left).
      destruct (in_serial (incoming e)); [|by left]. destruct (queue (incoming e)); [by left|by right].
    + unfold peer_cancel. repeat case_if; by left.
  - unfold focus_lost, cancel_outgoing, cancel_incoming.
    destruct (out_transfer (outgoing e)) as [[? ?]|]; simpl; destruct (in_transfer (incoming e)) as [[? ?]|]; by left.
  - unfold tick, cancel_outgoing, cancel_incoming.
    destruct (has_idled (out_transfer (outgoing e)) _ now); destruct (out_transfer (outgoing e)) as [[? ?]|]; simpl;
      destruct (has_idled (in_transfer (incoming e)) _ now); simpl; try (by left);
      destruct (in_transfer (incoming e)) as [[? ?]|]; by left.
Qed.

Lemma run_requests e inputs :
  is_u32 (next_transfer e) →
  requested (snd (run e inputs)) =
    map (λ i, as_u32 (next_transfer e + i))
      (seqZ 0 (zlen (requested (snd (run e inputs))))).
Proof.
  revert e. induction inputs as [|input inputs IH]; intros e He; [done|]. simpl.
  pose proof (step_requests e input) as Hs. destruct (step e input) as [e1 ops].
  specialize (IH e1). destruct (run e1 inputs) as [e2 more]. simpl in *.
  rewrite requested_app. destruct Hs as [[-> Hn]|[-> Hn]]; rewrite Hn in IH.
  - by apply IH.
  - simpl. specialize (IH ltac:(unfold u32_wrapping_add, as_u32, is_u32; apply Z.mod_pos_bound; lia)).
    rewrite Nat2Z.inj_succ, seqZ_cons by lia. cbn [map]. f_equal.
    + rewrite Z.add_0_r. symmetry. apply Z.mod_small. unfold is_u32 in He. lia.
    + rewrite IH at 1. rewrite Z.pred_succ. change (Z.succ 0) with (1 + 0).
      rewrite <- fmap_add_seqZ. change (map ?f ?l) with (f <$> l) at 2.
      rewrite <- list_fmap_compose. apply list_fmap_ext. intros _ i _. cbn.
      unfold u32_wrapping_add, as_u32. rewrite Zplus_mod_idemp_l. f_equal. lia.
Qed.

(** ** Properties *)

(** C12: Copying on one side pastes on the other.  Whatever state the two
    exchanges are in, when the copying side's clipboard changes to [kinds] and
    every wanted kind can be read within its cap, then carrying the records
    both ways ends with no record left and the pasting side has applied exactly
    one selection: every wanted kind (text, HTML and one picture), in [ORDER],
    with the bytes the copying side read, however many chunks they took. *)
Theorem copied_selection_is_pasted (here there : source) (now : Z) (c p : Exchange)
    (kinds : list Kind) :
  kinds ≠ [] →
  (∀ k, k ∈ wanted kinds → ∃ bs, here k = Some bs ∧ zlen bs <= cap k) →
  ∃ fuel c' p',
    pump fuel here there now (copy here now c p kinds) =
    mkNetwork c' p' [] [map (λ k, mkPiece k (default [] (here k))) (wanted kinds)].
Proof.
  intros Hne Hsrc. pose proof (wanted_nonempty kinds Hne) as Hw.
  set (c1 := set_outgoing c (mkOutgoing (u32_wrapping_add (out_serial (outgoing c)) 1) None (Some now))).
  set (s := u32_wrapping_add (out_serial (outgoing c)) 1).
  (* the offer has reached the pasting side [p1] *)
  assert (Hoffer : ∀ p1, ∃ fuel c' p',
    pump fuel here there now
      (mkNetwork c1 p1 [(true, Offer s (map mime (ordered kinds)))] []) =
    mkNetwork c' p' [] [map (λ k, mkPiece k (default [] (here k))) (wanted kinds)]).
  { intros p1. destruct (wanted kinds) as [|k rest] eqn:Ew; [done|].
    set (p2 := pulling (outgoing p1) s rest (next_transfer p1) k [] [] (Some now)
      (u32_wrapping_add (next_transfer p1) 1)).
    destruct (in_transfer (incoming p1)) as [[t0 k0]|] eqn:Et.
    - destruct (peer_cancel_silent c1 t0 Superseded) as (c2 & Hc & Hs & Ho).
      destruct (pull_all here there now rest s (next_transfer p1) k c2 p2 (outgoing p1) []
        (out_since (outgoing c2)) (Some now) (u32_wrapping_add (next_transfer p1) 1))
        as (fuel & c' & p' & Hp); [done|done|].
      exists (2 + fuel)%nat, c', p'. cbn [Nat.add pump]. cbn [app] in Hp. rewrite <- Hp. f_equal.
      unfold deliver at 2. cbn [wire handle paster]. unfold peer_offer.
      rewrite offered_kinds, Ew. unfold cancel_incoming at 1. rewrite Et. cbn.
      rewrite Hc. cbn. specialize (Ho eq_refl). subst s. unfold c1 in Hs. cbn in Hs.
      destruct c2 as [[os ot osi] ic nc]. cbn in *. by subst.
    - destruct (pull_all here there now rest s (next_transfer p1) k c1 p2 (outgoing p1) []
        (Some now) (Some now) (u32_wrapping_add (next_transfer p1) 1))
        as (fuel & c' & p' & Hp); [done|done|].
      exists (1 + fuel)%nat, c', p'. cbn [Nat.add pump]. cbn [app] in Hp. rewrite <- Hp. f_equal.
      unfold deliver. cbn [wire handle paster]. unfold peer_offer.
      rewrite offered_kinds, Ew. unfold cancel_incoming. rewrite Et. cbn. done. }
  unfold copy, local_offer, cancel_outgoing.
  destruct (out_transfer (outgoing c)) as [[t0 k0]|] eqn:Et.
  - destruct (peer_cancel_silent p t0 Superseded) as (p1 & Hp1 & _).
    destruct (Hoffer p1) as (fuel & c' & p' & Hp).
    exists (S fuel), c', p'. rewrite <- Hp. cbn. rewrite Hp1. done.
  - destruct (Hoffer p) as (fuel & c' & p' & Hp). exists fuel, c', p'. rewrite <- Hp.
    cbn. rewrite Et. done.
Qed.

(** A selection of text and a picture longer than one chunk. *)
Definition both_kinds : source :=
  λ k, match k with
       | Text => Some [104; 105]
       | Png => Some (replicate (Z.to_nat (CHUNK + 1)) 7)
       | _ => None
       end.

Lemma copied_selection_is_pasted_witness :
  ∃ fuel c' p',
    pump fuel both_kinds (λ _, None) 0 (copy both_kinds 0 new new [Png; Text]) =
    mkNetwork c' p' [] [map (λ k, mkPiece k (default [] (both_kinds k))) (wanted [Png; Text])].
Proof.
  apply (copied_selection_is_pasted both_kinds (λ _, None) 0 new new [Png; Text]); [done|].
  intros k Hk. change (wanted [Png; Text]) with [Text; Png] in Hk.
  destruct k; [|exfalso; set_solver|exfalso; set_solver|]; eexists; (split; [reflexivity|]).
  - by vm_compute.
  - rewrite length_replicate. by vm_compute.
Defined.

(** Against any peer and any order of events, this side applies only whole
    selections: each [Apply] carries every wanted kind of one offer exactly
    once, in [ORDER], no piece longer than its kind's cap, so no more than
    48 MiB together; a partial selection is never applied. *)
Theorem applied_selection_is_whole (inputs : list Input) (ps : list Piece) :
  Apply ps ∈ snd (run new inputs) →
  whole_selection ps ∧ total (map (λ p, zlen (bytes p)) ps) <= selection_cap.
Proof.
  intros Hin. destruct (run_ok new inputs new_ok) as [_ Hall].
  pose proof (proj1 (list.Forall_forall _ _) Hall _ Hin) as Hw. cbn in Hw.
  split; [done|]. destruct Hw as (Hf & _ & kinds & Hk).
  etrans; [by apply pieces_cap|]. rewrite Hk. apply wanted_cap.
Qed.

Lemma applied_selection_is_whole_witness :
  let inputs := [Peer (Offer 1 [TEXT_MIME]) 0; Peer (Data 1 [104] false) 1; Peer (Data 1 [105] true) 2] in
  Apply [mkPiece Text [104; 105]] ∈ snd (run new inputs) ∧
  whole_selection [mkPiece Text [104; 105]].
Proof.
  assert (H : Apply [mkPiece Text [104; 105]] ∈ snd (run new
    [Peer (Offer 1 [TEXT_MIME]) 0; Peer (Data 1 [104] false) 1; Peer (Data 1 [105] true) 2])).
  { change (snd (run _ _)) with [Send (Request 1 TEXT_MIME 1); Apply [mkPiece Text [104; 105]]].
    set_solver. }
  split; [exact H|]. exact (proj1 (applied_selection_is_whole _ _ H)).
Defined.

(** Whatever a peer sends and however the events interleave, this side
    never holds more than 48 MiB of the peer's selection: the transfer in
    flight is within its kind's cap and so is every piece kept for the offer. *)
Theorem held_selection_is_bounded (inputs : list Input) :
  held (fst (run new inputs)) <= selection_cap.
Proof.
  destruct (run_ok new inputs new_ok) as [[Hi _] _].
  destruct (fst (run new inputs)) as [o i next]. unfold held. cbn [incoming] in *.
  unfold incoming_ok in Hi. destruct (in_transfer i) as [[t k]|].
  - destruct Hi as (_ & _ & Hb & Hp & kinds & Hk).
    apply pieces_cap in Hp. pose proof (wanted_cap kinds) as Hc.
    rewrite <- Hk, !map_app, total_app in Hc. cbn [map total foldr] in Hc.
    change (foldr Z.add 0 ?l) with (total l) in Hc.
    pose proof (caps_nonneg (queue i)). lia.
  - subst i. by vm_compute.
Qed.

(** What can still arrive from a transfer that was under way. *)
Definition of_a_transfer (input : Input) : Prop :=
  match input with
  | Produced _ _ _ | NotProduced _ | LoseFocus _ | Tick _ => True
  | Peer (Data _ _ _) _ | Peer (Cancel _ _) _ => True
  | _ => False
  end.

Lemma settled_step e input :
  out_transfer (outgoing e) = None → incoming e = mkIncoming None [] None [] [] None →
  of_a_transfer input → step e input = (e, []).
Proof.
  destruct e as [[s t si] i next]. cbn. intros -> -> H.
  destruct input as [| | |m now| |]; try done. by destruct m.
Qed.

(** Losing focus stops every transfer, in both directions and at once:
    both are cancelled, everything pulled is forgotten, and nothing that was
    under way -- a late chunk, a late answer of the local clipboard, a peer's
    cancel, a tick -- makes this side send, fetch or apply anything more. *)
Theorem focus_lost_stops_every_transfer (e : Exchange) (now : Z) (later : list Input) :
  Forall of_a_transfer later →
  let '(stopped, ops) := focus_lost e now in
  run stopped later = (stopped, []) ∧ held stopped = 0 ∧
  Forall (λ op, ∃ t, op = Send (Cancel t FocusLost)) ops.
Proof.
  intros Hl. destruct (focus_lost e now) as [stopped ops] eqn:E.
  assert (out_transfer (outgoing stopped) = None ∧
    incoming stopped = mkIncoming None [] None [] [] None ∧
    Forall (λ op, ∃ t, op = Send (Cancel t FocusLost)) ops) as (Ho & Hi & Hops).
  { unfold focus_lost, cancel_outgoing, cancel_incoming in E.
    destruct (out_transfer (outgoing e)) as [[? ?]|] eqn:E1; cbn in E;
      destruct (in_transfer (incoming e)) as [[? ?]|]; inversion E; subst; cbn;
      rewrite ?E1; repeat split; repeat constructor; eauto. }
  split; [|split; [by unfold held; rewrite Hi|done]].
  induction Hl as [|input later Hin Hl IH]; [done|]. cbn.
  rewrite settled_step by done. by rewrite IH.
Qed.

Lemma focus_lost_stops_every_transfer_witness :
  let e := fst (run new [Peer (Offer 1 [TEXT_MIME]) 0; Peer (Data 1 [104] false) 1]) in
  held e = 1 ∧ run (fst (focus_lost e 2)) [Peer (Data 1 [105] true) 3] = (fst (focus_lost e 2), []).
Proof.
  split; [reflexivity|].
  exact (proj1 (focus_lost_stops_every_transfer
    (fst (run new [Peer (Offer 1 [TEXT_MIME]) 0; Peer (Data 1 [104] false) 1])) 2
    [Peer (Data 1 [105] true) 3] ltac:(repeat constructor))).
Defined.

(** After a tick no transfer is left that has not moved for five seconds:
    at every state the exchange can reach, what is still in flight after
    [tick now] last moved within [IDLE] of [now]. *)
Theorem tick_leaves_nothing_idle (inputs : list Input) (now : Z) :
  let e := fst (tick (fst (run new inputs)) now) in
  moving (out_transfer (outgoing e)) (out_since (outgoing e)) now ∧
  moving (in_transfer (incoming e)) (in_since (incoming e)) now.
Proof.
  destruct (run_ok new inputs new_ok) as [[Hi Ho] _].
  destruct (fst (run new inputs)) as [o i next]. cbn in Hi, Ho.
  assert (Hi' : is_Some (in_transfer i) → is_Some (in_since i)).
  { unfold incoming_ok in Hi. destruct (in_transfer i) as [[? ?]|]; [naive_solver|].
    by intros [? ?]. }
  unfold outgoing_ok in Ho.
  unfold tick. cbn [outgoing incoming].
  destruct (has_idled (out_transfer o) (out_since o) now) eqn:E1;
    destruct (has_idled (in_transfer i) (in_since i) now) eqn:E2.
  all: unfold cancel_outgoing, cancel_incoming; cbn [outgoing incoming].
  all: destruct (out_transfer o) as [[t1 k1]|] eqn:F1; try done; cbn.
  all: destruct (in_transfer i) as [[t2 k2]|] eqn:F2; try done; cbn in *.
  all: rewrite ?E2, ?F1, ?F2; cbn; rewrite ?F1, ?F2.
  all: split; try (by intros [? ?]); apply has_idled_false; naive_solver.
Qed.

(** Transfer numbers never repeat within a session of fewer than 2^32
    transfers, whatever happens in it: so a chunk of a cancelled transfer never
    names the transfer in flight. *)
Theorem transfers_never_repeat (inputs : list Input) :
  zlen (requested (snd (run new inputs))) < 4294967296 →
  NoDup (requested (snd (run new inputs))).
Proof.
  intros Hlen. rewrite run_requests by (vm_compute; split; congruence).
  apply NoDup_fmap_2_strong; [|apply NoDup_seqZ].
  intros x y Hx Hy. apply elem_of_seqZ in Hx, Hy.
  change (next_transfer new) with 1. unfold as_u32. intros H.
  destruct (decide (x = y)) as [|Hne]; [done|exfalso].
  assert (H' : ((1 + x) - (1 + y)) mod 4294967296 = 0).
  { rewrite Zminus_mod, H, Z.sub_diag. done. }
  apply Z.mod_divide in H' as [q Hq]; [|lia].
  assert (q = 0) by nia. lia.
Qed.

Lemma transfers_never_repeat_witness :
  NoDup (requested (snd (run new [Peer (Offer 1 [HTML_MIME; TEXT_MIME]) 0; Peer (Data 1 [] true) 0]))).
Proof. apply transfers_never_repeat. by vm_compute. Defined.

(** Finding.  A VM in the background can read what its user copies
    elsewhere.  Losing focus holds back the peer's offers but not its requests,
    and keeps the serial of the last announcement: the guest that asks for that
    selection while the window is in the background is answered, with whatever
    the host's clipboard holds by then. *)
Theorem background_request_is_answered (e : Exchange) (kinds : list Kind) (k : Kind)
    (t t1 t2 t3 t4 : Z) (awaited : option (Z * list string)) (secret : list Z) :
  zlen secret <= cap k →
  let offered := fst (local_offer e kinds t1) in
  let away := fst (focus_lost offered t2) in
  ∃ asked chunks,
    arrives false awaited away (Request (out_serial (outgoing away)) (mime k) t) t3 =
      (awaited, asked, [Produce k t]) ∧
    snd (produced asked t secret t4) = map Send (datas t chunks) ∧ concat chunks = secret.
Proof.
  intros Hcap offered away.
  assert (Ho : out_transfer (outgoing away) = None).
  { subst away. unfold focus_lost, cancel_outgoing, cancel_incoming.
    destruct (out_transfer (outgoing offered)) as [[? ?]|] eqn:E; cbn;
      destruct (in_transfer (incoming offered)) as [[? ?]|]; cbn; by rewrite ?E. }
  destruct (produced_loop_chunks (S (length secret)) t secret ltac:(lia))
    as (chunks & H1 & H2 & _).
  exists (set_out_transfer away (Some (t, k)) (Some t3)), chunks.
  unfold arrives. cbn [unfocused_offer handle]. unfold peer_request, cancel_outgoing.
  rewrite Z.eqb_refl, from_mime_mime, Ho. cbn [negb app]. split; [done|].
  split; [|done]. unfold produced.
  cbn [set_out_transfer set_outgoing outgoing out_transfer]. rewrite Z.eqb_refl. cbn [negb].
  destruct (cap k <? zlen secret) eqn:E; [exfalso; bool_to_prop; lia|]. done.
Qed.

Lemma background_request_is_answered_witness :
  let away := fst (focus_lost (fst (local_offer new [Text] 0)) 1) in
  ∃ asked chunks,
    arrives false None away (Request 1 TEXT_MIME 1) 2 = (None, asked, [Produce Text 1]) ∧
    snd (produced asked 1 [115] 3) = map Send (datas 1 chunks) ∧ concat chunks = [115].
Proof.
  apply (background_request_is_answered new [Text] Text 1 0 1 2 3 None [115]). by vm_compute.
Defined.

(** Finding.  A cancel names a transfer by a number both directions count
    from one, so the two can be in flight under the same number; a peer's
    cancel of the transfer this side is serving then abandons the one this side
    is pulling, and the cancelled one stays. *)
Theorem cancel_takes_the_wrong_transfer (r : CancelReason) (bs : list Z) :
  let e := fst (run new
    [Peer (Offer 9 [TEXT_MIME]) 0; LocalOffer [Html] 0; Peer (Request 1 HTML_MIME 1) 0]) in
  in_transfer (incoming e) = Some (1, Text) ∧ out_transfer (outgoing e) = Some (1, Html) ∧
  let e' := fst (peer_cancel e 1 r) in
  in_transfer (incoming e') = None ∧ out_transfer (outgoing e') = Some (1, Html) ∧
  (∀ now, peer_data e' 1 bs true now = (e', [])).
Proof. by vm_compute. Qed.
