(* ===== verification/Audio.v ===== *)
(** * Audio: which periods travel, and where each sits in the stream

    crates/display-protocol/src/audio.rs, the rules both ends of the audio
    channel share, with the host's reading of a position
    (crates/display-viewer/src/windows/audio.rs, [Renderer::play]).

    The guest stops sending after ten silent periods and goes on counting the
    frames it captures; the host learns how much it was not sent from the
    position of the next period.  [suppressed_silence_is_recovered] says that
    this loses nothing: with the gaps filled by silence the host has what the
    guest captured, however often the 32-bit position has come round. *)

From S2P Require Import Prelude.
#[local] Open Scope Z_scope.

Definition SILENT_PERIODS_BEFORE_SUPPRESSION : Z := 10.
Definition RING_PERIODS : nat := 20.

Inductive SampleFormat : Type := S16Le | S32Le | FloatLe.

(** [SampleFormat::bytes]. *)
Definition sample_bytes (f : SampleFormat) : Z :=
  match f with S16Le => 2 | S32Le | FloatLe => 4 end.

Record Format : Type := mkFormat {
  sample_rate : Z;
  channels : Z;
  sample_format : SampleFormat;
  frames_per_period : Z;
}.

Definition bytes_per_frame (f : Format) : Z := sample_bytes (sample_format f) * channels f.
Definition period_bytes (f : Format) : Z := bytes_per_frame f * frames_per_period f.

Record Sent : Type := mkSent { sent_position : Z; bytes : list Z }.

Record Stream : Type := mkStream {
  format : Format;
  position : Z;
  silent_periods : Z;
  waiting : list Sent;
}.

Definition new (f : Format) : Stream := mkStream f 0 0 [].

(** [u32::try_from(n).unwrap_or(0)]. *)
Definition u32_or_zero (n : Z) : Z := if n <=? U32_MAX then n else 0.

(** [len / bytes_per_frame], which divides by zero when there are no channels. *)
Definition frames_of {E} (f : Format) (period : list Z) : result E Z :=
  if bytes_per_frame f =? 0 then Panic
  else Ok (u32_or_zero (zlen period / bytes_per_frame f)).

Definition is_silent (period : list Z) : bool := forallb (λ byte, byte =? 0) period.

Definition captured {E} (s : Stream) (period : list Z) : result E (option Sent * Stream) :=
  let? frames := frames_of (format s) period in
  let next := u32_wrapping_add (position s) frames in
  if is_silent period then
    let silent := u32_saturating_add (silent_periods s) 1 in
    let s' := mkStream (format s) next silent (waiting s) in
    if SILENT_PERIODS_BEFORE_SUPPRESSION <? silent then Ok (None, s')
    else Ok (Some (mkSent (position s) period), s')
  else
    Ok (Some (mkSent (position s) period), mkStream (format s) next 0 (waiting s)).

Definition queue (s : Stream) (sent : Sent) : Stream :=
  let waiting :=
    if Nat.eqb (length (waiting s)) RING_PERIODS then tail (waiting s) else waiting s in
  mkStream (format s) (position s) (silent_periods s) (waiting ++ [sent]).

(** [Stream::take]. *)
Definition take_sent (s : Stream) : option Sent * Stream :=
  match waiting s with
  | [] => (None, s)
  | sent :: rest => (Some sent, mkStream (format s) (position s) (silent_periods s) rest)
  end.

Definition frames_between (earlier later : Z) : Z := u32_wrapping_sub later earlier.

(** The start of [Renderer::play]: the gap before this period, in frames, and
    the position the next one is expected at. *)
Definition play_gap {E} (f : Format) (last_position : option Z) (sent : Sent)
    : result E (Z * option Z) :=
  let gap :=
    match last_position with
    | Some previous => frames_between previous (sent_position sent)
    | None => 0
    end in
  let? frames := frames_of f (bytes sent) in
  Ok (gap, Some (u32_wrapping_add (sent_position sent) frames)).

(** ** What the host recovers *)

(** Everything the guest sends of the captured periods. *)
Fixpoint sent_of {E} (s : Stream) (periods : list (list Z)) : result E (list Sent) :=
  match periods with
  | [] => Ok []
  | period :: rest =>
      let? (out, s) := captured s period in
      let? more := sent_of s rest in
      Ok (option_list out ++ more)
  end.

(** What the host would play with every gap filled by silence. *)
Fixpoint recovered {E} (f : Format) (last_position : option Z) (sents : list Sent)
    : result E (list Z) :=
  match sents with
  | [] => Ok []
  | sent :: rest =>
      let? (gap, last_position) := play_gap f last_position sent in
      let? more := recovered f last_position rest in
      Ok (replicate (Z.to_nat (gap * bytes_per_frame f)) 0 ++ bytes sent ++ more)
  end.

(** A period of whole frames, of which a [u32] can count them. *)
Definition whole_frames (f : Format) (period : list Z) : Prop :=
  ∃ n, zlen period = n * bytes_per_frame f ∧ is_u32 n.

(** No stretch of suppressed silence reaches 2^32 frames, a day at 48 kHz;
    [silent] and [pending] are the silent periods and the unsent frames so far. *)
Fixpoint gaps_fit (f : Format) (silent pending : Z) (periods : list (list Z)) : bool :=
  match periods with
  | [] => true
  | period :: rest =>
      let frames := zlen period / bytes_per_frame f in
      if is_silent period then
        if SILENT_PERIODS_BEFORE_SUPPRESSION <? u32_saturating_add silent 1
        then gaps_fit f (u32_saturating_add silent 1) (pending + frames) rest
        else (pending <=? U32_MAX) && gaps_fit f (u32_saturating_add silent 1) 0 rest
      else (pending <=? U32_MAX) && gaps_fit f 0 0 rest
  end.

Lemma is_silent_zeroes period : is_silent period = true → period = replicate (length period) 0.
Proof.
  induction period as [|b period IH]; simpl; [done|]. intros H. bool_to_prop. subst.
  by rewrite <- IH.
Qed.

Lemma frames_of_whole {E} f period :
  0 < bytes_per_frame f → whole_frames f period →
  @frames_of E f period = Ok (zlen period / bytes_per_frame f) ∧
  is_u32 (zlen period / bytes_per_frame f) ∧
  zlen period = zlen period / bytes_per_frame f * bytes_per_frame f.
Proof.
  intros Hb (n & Hn & Hr). unfold frames_of. rewrite Hn, Z.div_mul by lia.
  destruct (bytes_per_frame f =? 0) eqn:E0; bool_to_prop; [lia|].
  unfold u32_or_zero, is_u32, U32_MAX in *. split; [|done].
  destruct (n <=? 4294967295) eqn:E1; bool_to_prop; [done|lia].
Qed.

(** [pending] frames of silence after [last] is where a stream at [p] stands. *)
Lemma gap_exact last p pending :
  is_u32 p → 0 <= pending <= U32_MAX → p = as_u32 (last + pending) →
  frames_between last p = pending.
Proof.
  intros Hp Hpend ->. unfold frames_between, u32_wrapping_sub, as_u32, U32_MAX in *.
  rewrite Zminus_mod_idemp_l, Z.add_simpl_l. apply Z.mod_small. lia.
Qed.

(** What one captured period does to the stream. *)
Lemma captured_whole {E} s period :
  0 < bytes_per_frame (format s) → whole_frames (format s) period →
  let frames := zlen period / bytes_per_frame (format s) in
  let next := u32_wrapping_add (position s) frames in
  let silent := u32_saturating_add (silent_periods s) 1 in
  @captured E s period =
    if is_silent period then
      Ok (if SILENT_PERIODS_BEFORE_SUPPRESSION <? silent then None
          else Some (mkSent (position s) period),
          mkStream (format s) next silent (waiting s))
    else Ok (Some (mkSent (position s) period), mkStream (format s) next 0 (waiting s)).
Proof.
  intros Hb Hw. destruct (@frames_of_whole E _ _ Hb Hw) as (Hf & _ & _).
  unfold captured. rewrite Hf. cbn [rbind]. destruct (is_silent period); [|done].
  by destruct (_ <? _).
Qed.

Lemma wrap_add_mod a b c : u32_wrapping_add (as_u32 (a + b)) c = as_u32 (a + (b + c)).
Proof. unfold u32_wrapping_add, as_u32. rewrite Zplus_mod_idemp_l. f_equal. lia. Qed.

Lemma as_u32_range z : is_u32 (as_u32 z).
Proof. apply Z.mod_pos_bound. lia. Qed.

(** A period that is sent, given what is recovered after it. *)
Lemma recovered_cons {E} f last sent rest more pending :
  0 < bytes_per_frame f → whole_frames f (bytes sent) →
  is_u32 (sent_position sent) → 0 <= pending <= U32_MAX →
  sent_position sent = as_u32 (last + pending) →
  @recovered E f (Some (u32_wrapping_add (sent_position sent) (zlen (bytes sent) / bytes_per_frame f))) rest
    = Ok more →
  @recovered E f (Some last) (sent :: rest) =
    Ok (replicate (Z.to_nat (pending * bytes_per_frame f)) 0 ++ bytes sent ++ more).
Proof.
  intros Hb Hw Hp Hpend Hat Hmore. cbn [recovered]. unfold play_gap.
  destruct (@frames_of_whole E _ _ Hb Hw) as (Hf & _ & _). rewrite Hf. cbn [rbind].
  rewrite Hmore. cbn [rbind]. by rewrite (gap_exact last _ pending).
Qed.

(** The stream stands [pending] unsent silent frames after [last]. *)
Lemma recovered_from {E} f : 0 < bytes_per_frame f → ∀ periods s last pending,
  format s = f → Forall (whole_frames f) periods →
  0 <= pending → position s = as_u32 (last + pending) →
  gaps_fit f (silent_periods s) pending periods = true →
  ∃ sents out n,
    @sent_of E s periods = Ok sents ∧ @recovered E f (Some last) sents = Ok out ∧
    replicate (Z.to_nat (pending * bytes_per_frame f)) 0 ++ concat periods = out ++ replicate n 0.
Proof.
  intros Hb. induction periods as [|period periods IH]; intros s last pending Hf Hw Hp Hpos Hfit.
  { exists [], [], (Z.to_nat (pending * bytes_per_frame f)). simpl. by rewrite app_nil_r. }
  inversion_clear Hw as [|? ? Hw1 Hw2]. subst f.
  destruct (@frames_of_whole E _ _ Hb Hw1) as (_ & Hfr & Hlen).
  set (fmt := format s) in *. set (frames := zlen period / bytes_per_frame fmt) in *.
  cbn [sent_of]. rewrite captured_whole by done. fold fmt frames.
  assert (Hsend : ∀ s1 more out n,
    @sent_of E s1 periods = Ok more →
    @recovered E fmt (Some (u32_wrapping_add (position s) frames)) more = Ok out →
    concat periods = out ++ replicate n 0 → pending <= U32_MAX →
    ∃ sents out n,
      rbind (@sent_of E s1 periods) (λ more, Ok ([mkSent (position s) period] ++ more)) = Ok sents ∧
      @recovered E fmt (Some last) sents = Ok out ∧
      replicate (Z.to_nat (pending * bytes_per_frame fmt)) 0 ++ period ++ concat periods
        = out ++ replicate n 0).
  { intros s1 more out n Hs1 Hmore Hcat Hle. rewrite Hs1. do 3 eexists. split; [done|]. split.
    - apply (recovered_cons _ _ _ _ out pending); simpl; try done.
      rewrite Hpos. apply as_u32_range.
    - rewrite Hcat, !app_assoc. done. }
  cbn [gaps_fit] in Hfit. fold fmt frames in Hfit.
  destruct (is_silent period) eqn:Hsil.
  - destruct (_ <? _) eqn:Hsup; cbn [rbind option_list app].
    + destruct (IH (mkStream fmt (u32_wrapping_add (position s) frames)
        (u32_saturating_add (silent_periods s) 1) (waiting s)) last (pending + frames) eq_refl Hw2)
        as (sents & out & n & H1 & H2 & H3);
        [unfold is_u32 in Hfr; lia|simpl; rewrite Hpos; apply wrap_add_mod|done|].
      exists sents, out, n. rewrite H1. split; [done|]. split; [done|].
      rewrite <- H3. cbn [concat]. rewrite (is_silent_zeroes period Hsil) at 1.
      rewrite app_assoc, <- replicate_add. do 2 f_equal. unfold is_u32 in Hfr.
      apply Nat2Z.inj. rewrite Nat2Z.inj_add, !Z2Nat.id by nia. lia.
    + bool_to_prop. destruct (IH (mkStream fmt (u32_wrapping_add (position s) frames)
        (u32_saturating_add (silent_periods s) 1) (waiting s))
        (u32_wrapping_add (position s) frames) 0 eq_refl Hw2) as (more & out & n & H1 & H2 & H3);
        [lia|simpl; rewrite Z.add_0_r; unfold u32_wrapping_add, as_u32; by rewrite Zmod_mod|done|].
      by apply (Hsend _ more out n).
  - cbn [rbind option_list app]. bool_to_prop.
    destruct (IH (mkStream fmt (u32_wrapping_add (position s) frames) 0 (waiting s))
      (u32_wrapping_add (position s) frames) 0 eq_refl Hw2) as (more & out & n & H1 & H2 & H3);
      [lia|simpl; rewrite Z.add_0_r; unfold u32_wrapping_add, as_u32; by rewrite Zmod_mod|done|].
    by apply (Hsend _ more out n).
Qed.

(** ** Properties *)

(** Silence suppression loses nothing: for whatever whole-frame periods a
    guest captures, filling the gap the host reads out of each position with
    silence gives back the captured stream byte for byte, up to the silence
    after the last period sent.  The 32-bit position may come round any number
    of times, as long as no single suppressed stretch reaches 2^32 frames. *)
Theorem suppressed_silence_is_recovered {E} (f : Format) (periods : list (list Z)) :
  0 < bytes_per_frame f → Forall (whole_frames f) periods → gaps_fit f 0 0 periods = true →
  ∃ sents out n,
    @sent_of E (new f) periods = Ok sents ∧ @recovered E f None sents = Ok out ∧
    concat periods = out ++ replicate n 0.
Proof.
  intros Hb Hw Hfit.
  destruct (@recovered_from E f Hb periods (new f) 0 0 eq_refl Hw) as (sents & out & n & H1 & H2 & H3);
    [lia|done|done|].
  exists sents, out, n. split; [done|]. split; [|done]. rewrite <- H2.
  destruct periods as [|period periods]; [by simplify_eq/=|].
  inversion_clear Hw. cbn [sent_of] in H1. rewrite captured_whole in H1 by done.
  destruct (is_silent period); cbn [rbind option_list app] in H1;
    destruct (sent_of _ periods); try discriminate; simpl in H1; by simplify_eq/=.
Qed.

Definition mono : Format := mkFormat 48000 1 S16Le 1.
Definition burst : list (list Z) := [[1; 2]] ++ replicate 14 [0; 0] ++ [[3; 4]; [0; 0]].

Lemma burst_whole : Forall (whole_frames mono) burst.
Proof.
  unfold burst. cbn [app replicate]. repeat constructor; exists 1; (split; [reflexivity|]);
    unfold is_u32; lia.
Qed.

Lemma suppressed_silence_is_recovered_witness :
  ∃ sents out n,
    @sent_of unit (new mono) burst = Ok sents ∧ @recovered unit mono None sents = Ok out ∧
    concat burst = out ++ replicate n 0.
Proof.
  apply (suppressed_silence_is_recovered mono burst); [done|exact burst_whole|by vm_compute].
Defined.

Lemma silent_run_sends {E} f : 0 < bytes_per_frame f → ∀ quiet s,
  format s = f → Forall (whole_frames f) quiet → Forall (λ p, is_silent p = true) quiet →
  0 <= silent_periods s →
  ∃ sents, @sent_of E s quiet = Ok sents ∧
    zlen sents <= Z.max 0 (SILENT_PERIODS_BEFORE_SUPPRESSION - silent_periods s).
Proof.
  intros Hb. induction quiet as [|period quiet IH]; intros s Hf Hw Hs Hn.
  { exists []. split; [done|]. simpl. lia. }
  inversion_clear Hw. inversion_clear Hs as [|? ? Hsil Hs']. subst f.
  cbn [sent_of]. rewrite captured_whole, Hsil by done. cbn [rbind].
  set (silent := u32_saturating_add (silent_periods s) 1).
  assert (Hsilent : 0 <= silent ∧ (silent = silent_periods s + 1 ∨
      U32_MAX <= silent ∧ U32_MAX <= silent_periods s + 1))
    by (unfold silent, u32_saturating_add, U32_MAX; lia).
  destruct (IH (mkStream (format s) (u32_wrapping_add (position s)
      (zlen period / bytes_per_frame (format s))) silent (waiting s))) as (sents & -> & Hl);
    [done..|cbn [silent_periods]; lia|].
  cbn [silent_periods] in Hl. cbn [rbind]. eexists. split; [reflexivity|].
  unfold SILENT_PERIODS_BEFORE_SUPPRESSION, U32_MAX in *. clearbody silent.
  destruct (10 <? silent) eqn:Hsup; bool_to_prop; rewrite length_app; cbn; lia.
Qed.

(** An idle desktop stops costing bandwidth: whatever a stream carried
    before, of any number of silent periods in a row it sends at most ten. *)
Theorem silence_stops_the_stream {E} (f : Format) (quiet : list (list Z)) (s : Stream) :
  0 < bytes_per_frame f → format s = f → 0 <= silent_periods s →
  Forall (whole_frames f) quiet → Forall (λ p, is_silent p = true) quiet →
  ∃ sents, @sent_of E s quiet = Ok sents ∧ zlen sents <= SILENT_PERIODS_BEFORE_SUPPRESSION.
Proof.
  intros Hb Hf Hn Hw Hs. destruct (@silent_run_sends E f Hb quiet s) as (out & H1 & H2); try done.
  exists out. split; [done|]. unfold SILENT_PERIODS_BEFORE_SUPPRESSION in *. lia.
Qed.

Lemma silence_stops_the_stream_witness :
  ∃ sents, @sent_of unit (new mono) (replicate 14 [0; 0]) = Ok sents ∧
    zlen sents <= SILENT_PERIODS_BEFORE_SUPPRESSION.
Proof.
  apply (silence_stops_the_stream mono _ (new mono)); try done.
  - apply Forall_replicate. exists 1. split; [reflexivity|]. unfold is_u32. lia.
  - by apply Forall_replicate.
Defined.

(** The queue in front of the socket keeps the newest periods, in order. *)
Lemma ring_keeps_the_newest s sent :
  (length (waiting s) <= RING_PERIODS)%nat →
  waiting (queue s sent) =
    drop (length (waiting s ++ [sent]) - RING_PERIODS) (waiting s ++ [sent]) ∧
  (length (waiting (queue s sent)) <= RING_PERIODS)%nat.
Proof.
  intros Hl. unfold queue. cbn [waiting]. rewrite length_app. cbn [length].
  destruct (Nat.eqb_spec (length (waiting s)) RING_PERIODS) as [Hf|Hf].
  - rewrite Hf. destruct (waiting s) as [|w ws]; [done|]. cbn [tail app].
    replace (RING_PERIODS + 1 - RING_PERIODS)%nat with 1%nat by lia. split; [done|].
    simpl in *. rewrite length_app. simpl. lia.
  - replace (length (waiting s) + 1 - RING_PERIODS)%nat with 0%nat by lia. split; [done|].
    rewrite length_app. simpl. lia.
Qed.
