(* ===== verification/ClipboardPath.v ===== *)
(** * ClipboardPath: whether a path from a peer may become a path here

    crates/display-protocol/src/clipboard/path.rs.  A path is the sequence of
    its Unicode code points; the limits count its UTF-8 bytes, as [str::len]
    does.  The Unicode table behind [str::to_lowercase] is a parameter: the code
    only uses it to name entries that Windows would take for one.

    [parse_accepts] says which paths are accepted, exactly, and
    [accepted_path_stays_inside] what that is for: on either platform, walking
    the accepted path from a directory never leaves the directory. *)

From S2P Require Import Prelude.
#[local] Open Scope Z_scope.

Abbreviation last := list.last.

(** A [str]: its code points. *)
Abbreviation str := (list Z).

Definition MAX_PATH_BYTES : Z := 1024.
Definition MAX_DEPTH : Z := 64.

(** The characters the rules name. *)
Definition slash : Z := 47.
Definition backslash : Z := 92.
Definition colon : Z := 58.
Definition dot : Z := 46.
Definition space : Z := 32.
Definition question : Z := 63.

(** [CON], [PRN], [AUX], [NUL]; [COM] and [LPT]; and the characters [< > ' | *]
    with a double quote for the quote. *)
Definition RESERVED : list str := [[67; 79; 78]; [80; 82; 78]; [65; 85; 88]; [78; 85; 76]].
Definition RESERVED_NUMBERED : list str := [[67; 79; 77]; [76; 80; 84]].
Definition FORBIDDEN : list Z := [60; 62; 34; 124; 42].

Inductive PathError : Type :=
| Empty
| TooLong (bytes limit : Z)
| TooDeep (depth limit : Z)
| Absolute | Traversal | Dot | EmptyComponent | Nul | Control | Separator | Colon
| Forbidden | TrailingDotOrSpace | Reserved.

(** [char::len_utf8] and [str::len]. *)
Definition len_utf8 (c : Z) : Z :=
  if c <? 128 then 1 else if c <? 2048 then 2 else if c <? 65536 then 3 else 4.
Definition str_len (s : str) : Z := foldr (λ c n, len_utf8 c + n) 0 s.

(** [char::is_control], the general category Cc. *)
Definition is_control (c : Z) : bool :=
  ((0 <=? c) && (c <=? 31)) || ((127 <=? c) && (c <=? 159)).

Definition one_of (l : list Z) (c : Z) : bool := existsb (Z.eqb c) l.

(** [s.split(sep)], which always yields at least one part. *)
Fixpoint split (sep : Z) (s : str) : list str :=
  match s with
  | [] => [[]]
  | c :: rest =>
      if c =? sep then [] :: split sep rest
      else
        match split sep rest with
        | part :: parts => (c :: part) :: parts
        | [] => [[c]]
        end
  end.

(** [parts.join(sep)]. *)
Fixpoint join (sep : Z) (parts : list str) : str :=
  match parts with
  | [] => []
  | [part] => part
  | part :: parts => part ++ sep :: join sep parts
  end.

(** What one character is refused for. *)
Definition check_character (c : Z) : option PathError :=
  if c =? 0 then Some Nul
  else if c =? backslash then Some Separator
  else if c =? colon then Some Colon
  else if is_control c then Some Control
  else if c =? question then Some Forbidden
  else if one_of FORBIDDEN c then Some Forbidden
  else None.

(** The [for] loop of [check_component]: the first character refused. *)
Fixpoint check_characters (s : str) : option PathError :=
  match s with
  | [] => None
  | c :: rest => match check_character c with Some e => Some e | None => check_characters rest end
  end.

Definition str_eqb (a b : str) : bool := bool_decide (a = b).

Definition ends_with (s : str) (c : Z) : bool :=
  match last s with Some d => d =? c | None => false end.

(** [split_once('.')] up to the dot, or the whole component. *)
Fixpoint stem_of (s : str) : str :=
  match s with
  | [] => []
  | c :: rest => if c =? dot then [] else c :: stem_of rest
  end.

Definition to_ascii_uppercase (c : Z) : Z := if (97 <=? c) && (c <=? 122) then c - 32 else c.

(** [strip_prefix]. *)
Fixpoint strip_prefix (s prefix : str) : option str :=
  match prefix, s with
  | [], _ => Some s
  | p :: prefix, c :: s => if p =? c then strip_prefix s prefix else None
  | _ :: _, [] => None
  end.

Definition is_reserved (component : str) : bool :=
  let stem := map to_ascii_uppercase (stem_of component) in
  existsb (str_eqb stem) RESERVED
  || existsb (λ family,
       match strip_prefix stem family with
       | Some [digit] => (49 <=? digit) && (digit <=? 57)
       | _ => false
       end) RESERVED_NUMBERED.

Definition check_component (component : str) : option PathError :=
  match check_characters component with
  | Some e => Some e
  | None =>
      if str_eqb component [] then Some EmptyComponent
      else if str_eqb component [dot] then Some Dot
      else if str_eqb component [dot; dot] then Some Traversal
      else if ends_with component dot || ends_with component space then Some TrailingDotOrSpace
      else if is_reserved component then Some Reserved
      else None
  end.

(** The [for] loop of [parse]: the first component refused. *)
Fixpoint check_components (components : list str) : option PathError :=
  match components with
  | [] => None
  | c :: rest => match check_component c with Some e => Some e | None => check_components rest end
  end.

Record ValidatedPath : Type := mkPath { path : str; key : str }.

Definition parse (to_lowercase : str → str) (p : str) : result PathError ValidatedPath :=
  if str_eqb p [] then Err Empty
  else if MAX_PATH_BYTES <? str_len p then Err (TooLong (str_len p) MAX_PATH_BYTES)
  else if match p with c :: _ => c =? slash | [] => false end then Err Absolute
  else
    let components := split slash p in
    if MAX_DEPTH <? zlen components then Err (TooDeep (zlen components) MAX_DEPTH)
    else
      match check_components components with
      | Some e => Err e
      | None => Ok (mkPath p (join slash (map to_lowercase components)))
      end.

(** ** What a receiver does with a path *)

(** A walk from a directory, component by component: the names below it, the
    innermost last, or nowhere once the walk has left it. *)
Fixpoint walk (here : list str) (components : list str) : option (list str) :=
  match components with
  | [] => Some here
  | c :: rest =>
      if str_eqb c [] || str_eqb c [dot] then walk here rest
      else if str_eqb c [dot; dot] then
        match here with
        | [] => None
        | _ => walk (take (length here - 1) here) rest
        end
      else walk (here ++ [c]) rest
  end.

(** Windows separates at a backslash as well. *)
Definition windows_components (p : str) : list str := concat (map (split backslash) (split slash p)).

Lemma split_nonempty sep s : split sep s ≠ [].
Proof. destruct s as [|c s]; simpl; [done|]. destruct (c =? sep); [done|]. by destruct (split sep s). Qed.

Lemma join_cons sep part parts :
  parts ≠ [] → join sep (part :: parts) = part ++ sep :: join sep parts.
Proof. by destruct parts. Qed.

Lemma join_split sep s : join sep (split sep s) = s.
Proof.
  induction s as [|c s IH]; [done|]. cbn [split]. destruct (c =? sep) eqn:E.
  - apply Z.eqb_eq in E as ->. rewrite join_cons by apply split_nonempty. by rewrite IH.
  - pose proof (split_nonempty sep s) as Hne. destruct (split sep s) as [|part parts]; [done|].
    destruct parts as [|part' parts]; simpl in *; by rewrite IH.
Qed.

(** No part of a split holds the separator, and a string without one is whole. *)
Lemma split_parts sep s part c : part ∈ split sep s → c ∈ part → c ≠ sep ∧ c ∈ s.
Proof.
  revert part. induction s as [|d s IH]; intros part Hp Hc; simpl in Hp.
  - apply list_elem_of_singleton in Hp as ->. by apply not_elem_of_nil in Hc.
  - destruct (d =? sep) eqn:E; bool_to_prop.
    + apply elem_of_cons in Hp as [->|Hp]; [by apply not_elem_of_nil in Hc|].
      destruct (IH _ Hp Hc). split; [done|]. by apply elem_of_cons; right.
    + pose proof (split_nonempty sep s) as Hne. destruct (split sep s) as [|first parts]; [done|].
      apply elem_of_cons in Hp as [->|Hp].
      * apply elem_of_cons in Hc as [->|Hc]; [split; [done|by apply elem_of_cons; left]|].
        destruct (IH first) as [? ?]; [by apply elem_of_cons; left|done|].
        split; [done|]. by apply elem_of_cons; right.
      * destruct (IH part) as [? ?]; [by apply elem_of_cons; right|done|].
        split; [done|]. by apply elem_of_cons; right.
Qed.

Lemma split_absent sep s : sep ∉ s → split sep s = [s].
Proof.
  induction s as [|c s IH]; [done|]. intros [Hc Hs]%not_elem_of_cons. simpl.
  destruct (c =? sep) eqn:E; bool_to_prop; [congruence|]. by rewrite IH.
Qed.

(** ** Properties *)

(** What every component of an accepted path is: characters both platforms
    hold, a name, and not one Windows trims or takes for a device. *)
Definition safe_character (c : Z) : Prop :=
  c ≠ 0 ∧ c ≠ backslash ∧ c ≠ colon ∧ c ≠ question ∧ is_control c = false ∧ c ∉ FORBIDDEN.

Definition safe_component (s : str) : Prop :=
  Forall safe_character s ∧ s ≠ [] ∧ s ≠ [dot] ∧ s ≠ [dot; dot] ∧
  last s ≠ Some dot ∧ last s ≠ Some space ∧ is_reserved s = false.

Lemma one_of_elem l c : one_of l c = true ↔ c ∈ l.
Proof.
  unfold one_of. rewrite existsb_exists. setoid_rewrite list_elem_of_In. split.
  - intros (x & Hx & ->%Z.eqb_eq). done.
  - intros H. exists c. split; [done|apply Z.eqb_refl].
Qed.

Lemma check_character_ok c : check_character c = None ↔ safe_character c.
Proof.
  pose proof (one_of_elem FORBIDDEN c) as Hf. unfold check_character, safe_character.
  destruct (one_of FORBIDDEN c), (is_control c);
    repeat (case_if; bool_to_prop); naive_solver.
Qed.

Lemma check_characters_ok s : check_characters s = None ↔ Forall safe_character s.
Proof.
  induction s as [|c s IH]; simpl; [done|]. rewrite Forall_cons_iff.
  destruct (check_character c) eqn:E; rewrite <- check_character_ok; [split; [done|]|];
    rewrite E; naive_solver.
Qed.

Lemma ends_with_last s c : ends_with s c = true ↔ last s = Some c.
Proof.
  unfold ends_with. destruct (last s) as [d|]; [|done]. rewrite Z.eqb_eq. naive_solver.
Qed.

Lemma check_component_ok s : check_component s = None ↔ safe_component s.
Proof.
  unfold check_component, safe_component. rewrite <- check_characters_ok.
  destruct (check_characters s); [naive_solver|].
  unfold str_eqb. rewrite <- !ends_with_last. repeat case_bool_decide; try naive_solver.
  destruct (ends_with s dot), (ends_with s space), (is_reserved s); simpl; naive_solver.
Qed.

Lemma check_components_ok l : check_components l = None ↔ Forall safe_component l.
Proof.
  induction l as [|c l IH]; simpl; [done|]. rewrite Forall_cons_iff.
  destruct (check_component c) eqn:E; rewrite <- check_component_ok; [split; [done|]|];
    rewrite E; naive_solver.
Qed.

(** The accepted paths, exactly. *)
Definition portable (p : str) : Prop :=
  p ≠ [] ∧ str_len p <= MAX_PATH_BYTES ∧ head p ≠ Some slash ∧
  zlen (split slash p) <= MAX_DEPTH ∧ Forall safe_component (split slash p).

Lemma parse_accepts lower p v :
  parse lower p = Ok v ↔
  portable p ∧ v = mkPath p (join slash (map lower (split slash p))).
Proof.
  unfold parse, portable. rewrite <- check_components_ok. unfold str_eqb.
  case_bool_decide; [naive_solver|].
  destruct (MAX_PATH_BYTES <? str_len p) eqn:El; bool_to_prop; [split; [done|]; intros; exfalso; lia|].
  destruct (match p with [] => false | c :: _ => c =? slash end) eqn:Ea.
  { split; [done|]. destruct p; simpl in *; bool_to_prop; naive_solver. }
  destruct (MAX_DEPTH <? _) eqn:Ed; bool_to_prop; [split; [done|]; intros; exfalso; lia|].
  assert (head p ≠ Some slash) by (destruct p; simpl in *; bool_to_prop; naive_solver).
  destruct (check_components _); naive_solver.
Qed.

Lemma walk_safe components here :
  Forall safe_component components → walk here components = Some (here ++ components).
Proof.
  revert here. induction components as [|c rest IH]; intros here Hs; simpl.
  - by rewrite app_nil_r.
  - inversion_clear Hs as [|? ? Hc Hr]. destruct Hc as (_ & H1 & H2 & H3 & _).
    unfold str_eqb. rewrite !bool_decide_false by done. cbn [orb].
    rewrite IH by done. by rewrite <- app_assoc.
Qed.

Lemma safe_windows p :
  Forall safe_component (split slash p) → windows_components p = split slash p.
Proof.
  unfold windows_components. generalize (split slash p) as l. intros l.
  induction 1 as [|c l Hc Hl IH]; [done|]. simpl. rewrite IH, split_absent; [done|].
  destruct Hc as (Hall & _). intros Hin.
  pose proof (proj1 (list.Forall_forall _ _) Hall _ Hin) as Hb. by destruct Hb as (_ & ? & _).
Qed.

(** A path a peer names and this side accepts stays inside the directory it
    is created in, on either platform: it is the path as it arrived, within the
    byte and depth limits, and walking it from the staging root -- whether only
    slashes separate, or backslashes as well -- goes down one safe name per
    component and never up, out or to a device. *)
Theorem accepted_path_stays_inside (lower : str → str) (p : str) (v : ValidatedPath) :
  parse lower p = Ok v →
  path v = p ∧ str_len p <= MAX_PATH_BYTES ∧ zlen (split slash p) <= MAX_DEPTH ∧
  Forall safe_component (split slash p) ∧
  (∀ root, walk root (split slash p) = Some (root ++ split slash p)) ∧
  (∀ root, walk root (windows_components p) = Some (root ++ split slash p)).
Proof.
  intros ((_ & Hl & _ & Hd & Hs) & ->)%parse_accepts. repeat split; try done; intros root.
  - by apply walk_safe.
  - rewrite safe_windows by done. by apply walk_safe.
Qed.

(** "notes/a.txt". *)
Definition notes : str := [110; 111; 116; 101; 115; 47; 97; 46; 116; 120; 116].

Lemma accepted_path_stays_inside_witness :
  parse id notes = Ok (mkPath notes notes) ∧
  walk [] (windows_components notes) = Some (split slash notes).
Proof.
  assert (H : parse id notes = Ok (mkPath notes notes)) by (vm_compute; reflexivity).
  split; [exact H|]. exact (proj2 (proj2 (proj2 (proj2 (proj2 (accepted_path_stays_inside id notes _ H))))) []).
Defined.

(** The refusals of the code's own tests. *)
Example refuses_traversal : parse id [97; 47; 46; 46; 47; 98] = Err Traversal.
Proof. vm_compute. reflexivity. Qed.
Example refuses_device : parse id [97; 47; 99; 111; 109; 49; 46; 116] = Err Reserved.
Proof. vm_compute. reflexivity. Qed.
Example refuses_stream : parse id [97; 58; 98] = Err Colon.
Proof. vm_compute. reflexivity. Qed.
