(* ===== verification/ClipboardFiles.v ===== *)
(** * ClipboardFiles: one file transfer in each direction

    crates/display-protocol/src/clipboard/files.rs.  The exchange never opens a
    file: an operation answers what the caller has to send, create, write,
    commit or remove.  [handle_file] is how a record becomes a call
    (crates/display-services/src/clipboard_main.rs).

    As in Clipboard.v an [Instant] is a number of nanoseconds, and as in
    ClipboardPath.v the Unicode lower-casing table is a parameter. *)

From stdpp Require Import gmap.
From S2P Require Import Prelude.
From S2P Require Import Clipboard.
From S2P Require Import ClipboardPath.
#[local] Open Scope Z_scope.

Definition MAX_ENTRIES : Z := 4096.
Definition DEFAULT_MAX_FILE_BYTES : Z := 1024 * 1024 * 1024.
Definition DEFAULT_MAX_TRANSFER_BYTES : Z := 4 * 1024 * 1024 * 1024.
Definition DEFAULT_RETENTION_SECONDS : Z := 24 * 60 * 60.

Inductive EntryKind : Type := File | Directory.
#[export] Instance EntryKind_eq_dec : EqDecision EntryKind.
Proof. solve_decision. Defined.

(** [EntryKind::from_wire] and [as_wire], over the schema's [FileEntryKind]. *)
Definition kind_from_wire (value : Z) : option EntryKind :=
  if value =? 1 then Some File else if value =? 2 then Some Directory else None.
Definition kind_as_wire (kind : EntryKind) : Z :=
  match kind with File => 1 | Directory => 2 end.

(** The schema's [FileCancelReason]. *)
Inductive FileCancelReason : Type :=
| FileUnspecified | FileSuperseded | FileTooLarge | FileFocusLost | FileUnavailable
| FileTimedOut | UnsafeEntry | InvalidPath | IoFailed | PolicyRejected.

Record Policy : Type := mkPolicy {
  max_file_bytes : Z;
  max_transfer_bytes : Z;
  retention_seconds : Z;
}.

Definition default_policy : Policy :=
  mkPolicy DEFAULT_MAX_FILE_BYTES DEFAULT_MAX_TRANSFER_BYTES DEFAULT_RETENTION_SECONDS.

Definition narrowed (a b : Policy) : Policy :=
  mkPolicy (Z.min (max_file_bytes a) (max_file_bytes b))
    (Z.min (max_transfer_bytes a) (max_transfer_bytes b))
    (Z.min (retention_seconds a) (retention_seconds b)).

Inductive Message : Type :=
| PolicyMessage (policy : Policy)
| Offer (serial : Z)
| Request (serial transfer : Z)
| Entry (transfer : Z) (path : str) (kind : EntryKind) (size : Z)
| Chunk (transfer : Z) (chunk : list Z)
| Complete (transfer : Z)
| Cancel (transfer : Z) (reason : FileCancelReason).

Inductive Op : Type :=
| Send (message : Message)
| Enumerate (transfer : Z)
| CreateEntry (transfer : Z) (path : ValidatedPath) (kind : EntryKind) (size : Z)
| WriteChunk (transfer : Z) (bytes : list Z)
| Commit (transfer : Z)
| Abort (transfer : Z).

Record Open : Type := mkOpen { declared : Z; written : Z }.

Record Tree : Type := mkTree {
  entries : Z;
  total : Z;
  open : option Open;
  keys : gset str;
}.

Definition empty_tree : Tree := mkTree 0 0 None ∅.

Definition u64_checked_add (a b : Z) : option Z :=
  if a + b <=? U64_MAX then Some (a + b) else None.

Section Exchange.
Context (to_lowercase : str → str).

(** [Tree::admit].  A refusal is followed by the end of the transfer, which
    forgets the tree, so only the tree of an admission is kept. *)
Definition tree_admit (t : Tree) (path : str) (kind : EntryKind) (size : Z) (policy : Policy)
    : result FileCancelReason (Tree * ValidatedPath) :=
  if open t is Some _ then Err IoFailed
  else
    let? parsed := map_err (λ _, InvalidPath) (parse to_lowercase path) in
    if bool_decide (kind = Directory) && negb (size =? 0) then Err UnsafeEntry
    else if MAX_ENTRIES <=? entries t then Err FileTooLarge
    else if max_file_bytes policy <? size then Err FileTooLarge
    else
      let? total := ok_or (u64_checked_add (total t) size) FileTooLarge in
      if max_transfer_bytes policy <? total then Err FileTooLarge
      else if bool_decide (key parsed ∈ keys t) then Err UnsafeEntry
      else
        Ok (mkTree (entries t + 1) total
              (if bool_decide (kind = File) && (0 <? size) then Some (mkOpen size 0) else None)
              ({[key parsed]} ∪ keys t), parsed).

(** [Tree::wrote]; the same holds of its refusals. *)
Definition wrote (t : Tree) (len : Z) : result FileCancelReason Tree :=
  match open t with
  | None => Err IoFailed
  | Some o =>
      let? written := ok_or (u64_checked_add (written o) len) IoFailed in
      if declared o <? written then Err IoFailed
      else
        Ok (mkTree (entries t) (total t)
              (if written =? declared o then None else Some (mkOpen (declared o) written)) (keys t))
  end.

Definition settled (t : Tree) : bool := if open t is Some _ then false else true.

Record Outgoing : Type := mkOutgoing {
  out_serial : Z;
  out_transfer : option Z;
  out_since : option Z;
  out_tree : Tree;
}.

Record Incoming : Type := mkIncoming {
  in_transfer : option Z;
  in_since : option Z;
  in_tree : Tree;
}.

Record Exchange : Type := mkExchange {
  policy : Policy;
  announced : bool;
  heard : bool;
  outgoing : Outgoing;
  incoming : Incoming;
  next_transfer : Z;
}.

Definition new (policy : Policy) (now : Z) : Exchange :=
  mkExchange policy false false (mkOutgoing 0 None (Some now) empty_tree)
    (mkIncoming None (Some now) empty_tree) 1.

(** Assignments to the fields. *)
Definition set_announced (e : Exchange) : Exchange :=
  mkExchange (policy e) true (heard e) (outgoing e) (incoming e) (next_transfer e).
Definition set_outgoing (e : Exchange) (o : Outgoing) : Exchange :=
  mkExchange (policy e) (announced e) (heard e) o (incoming e) (next_transfer e).
Definition set_incoming (e : Exchange) (i : Incoming) : Exchange :=
  mkExchange (policy e) (announced e) (heard e) (outgoing e) i (next_transfer e).

Definition forget_outgoing (e : Exchange) : Exchange :=
  set_outgoing e (mkOutgoing (out_serial (outgoing e)) None None empty_tree).
Definition forget_incoming (e : Exchange) : Exchange :=
  set_incoming e (mkIncoming None None empty_tree).

Definition cancel_outgoing (e : Exchange) (reason : FileCancelReason) : Exchange * list Op :=
  match out_transfer (outgoing e) with
  | Some transfer => (forget_outgoing e, [Send (Cancel transfer reason)])
  | None => (e, [])
  end.

Definition cancel_incoming (e : Exchange) (reason : FileCancelReason) : Exchange * list Op :=
  match in_transfer (incoming e) with
  | Some transfer => (forget_incoming e, [Send (Cancel transfer reason); Abort transfer])
  | None => (e, [])
  end.

Definition peer_policy (e : Exchange) (p : Policy) : Exchange :=
  mkExchange (narrowed (policy e) p) (announced e) true (outgoing e) (incoming e) (next_transfer e).

Definition announce (e : Exchange) : Exchange * list Op :=
  if announced e then (e, []) else (set_announced e, [Send (PolicyMessage (policy e))]).

Definition local_offer (e : Exchange) (now : Z) : Exchange * list Op :=
  let '(e, first) := announce e in
  let '(e, ops) := cancel_outgoing e FileSuperseded in
  let o := outgoing e in
  let serial := u32_wrapping_add (out_serial o) 1 in
  (set_outgoing e (mkOutgoing serial (out_transfer o) (Some now) (out_tree o)),
   first ++ ops ++ [Send (Offer serial)]).

Definition peer_offer (e : Exchange) (serial now : Z) : Exchange * list Op :=
  if negb (heard e) then (e, [])
  else
    let '(e, ops) := cancel_incoming e FileSuperseded in
    let transfer := next_transfer e in
    (mkExchange (policy e) (announced e) (heard e) (outgoing e)
       (mkIncoming (Some transfer) (Some now) empty_tree)
       (u32_wrapping_add (next_transfer e) 1),
     ops ++ [Send (Request serial transfer)]).

Definition peer_request (e : Exchange) (serial transfer now : Z) : Exchange * list Op :=
  if negb (serial =? out_serial (outgoing e)) then (e, [Send (Cancel transfer FileSuperseded)])
  else
    let '(e, ops) := cancel_outgoing e FileSuperseded in
    (set_outgoing e
       (mkOutgoing (out_serial (outgoing e)) (Some transfer) (Some now) empty_tree),
     ops ++ [Enumerate transfer]).

(** [self.outgoing.transfer == Some(transfer)], and the same of [incoming]. *)
Definition serving (e : Exchange) (transfer : Z) : bool :=
  bool_decide (out_transfer (outgoing e) = Some transfer).
Definition staging (e : Exchange) (transfer : Z) : bool :=
  bool_decide (in_transfer (incoming e) = Some transfer).

(** The tree of the transfer moved at [now]. *)
Definition out_moved (e : Exchange) (t : Tree) (now : Z) : Exchange :=
  set_outgoing e
    (mkOutgoing (out_serial (outgoing e)) (out_transfer (outgoing e)) (Some now) t).
Definition in_moved (e : Exchange) (t : Tree) (now : Z) : Exchange :=
  set_incoming e (mkIncoming (in_transfer (incoming e)) (Some now) t).

Definition produced_entry (e : Exchange) (transfer : Z) (path : str) (kind : EntryKind)
    (size now : Z) : Exchange * list Op :=
  if negb (serving e transfer) then (e, [])
  else
    match tree_admit (out_tree (outgoing e)) path kind size (policy e) with
    | Ok (t, parsed) =>
        (out_moved e t now, [Send (Entry transfer (ClipboardPath.path parsed) kind size)])
    | Err reason => cancel_outgoing e reason
    | Panic => (e, [])
    end.

Definition produced_chunk (e : Exchange) (transfer : Z) (chunk : list Z) (now : Z)
    : Exchange * list Op :=
  if negb (serving e transfer) then (e, [])
  else if CHUNK <? zlen chunk then cancel_outgoing e FileTooLarge
  else
    match wrote (out_tree (outgoing e)) (zlen chunk) with
    | Ok t => (out_moved e t now, [Send (Chunk transfer chunk)])
    | Err reason => cancel_outgoing e reason
    | Panic => (e, [])
    end.

Definition produced_complete (e : Exchange) (transfer now : Z) : Exchange * list Op :=
  if negb (serving e transfer) then (e, [])
  else if negb (settled (out_tree (outgoing e))) then cancel_outgoing e IoFailed
  else
    (set_outgoing e (mkOutgoing (out_serial (outgoing e)) None (Some now) empty_tree),
     [Send (Complete transfer)]).

Definition produced_failed (e : Exchange) (transfer : Z) (reason : FileCancelReason)
    : Exchange * list Op :=
  if negb (serving e transfer) then (e, []) else cancel_outgoing e reason.

Definition staging_failed (e : Exchange) (transfer : Z) (reason : FileCancelReason)
    : Exchange * list Op :=
  if negb (staging e transfer) then (e, []) else cancel_incoming e reason.

Definition peer_entry (e : Exchange) (transfer : Z) (path : str) (kind : EntryKind)
    (size now : Z) : Exchange * list Op :=
  if negb (staging e transfer) then (e, [])
  else
    match tree_admit (in_tree (incoming e)) path kind size (policy e) with
    | Ok (t, parsed) => (in_moved e t now, [CreateEntry transfer parsed kind size])
    | Err reason => cancel_incoming e reason
    | Panic => (e, [])
    end.

Definition peer_chunk (e : Exchange) (transfer : Z) (chunk : list Z) (now : Z)
    : Exchange * list Op :=
  if negb (staging e transfer) then (e, [])
  else
    match wrote (in_tree (incoming e)) (zlen chunk) with
    | Ok t => (in_moved e t now, [WriteChunk transfer chunk])
    | Err reason => cancel_incoming e reason
    | Panic => (e, [])
    end.

Definition peer_complete (e : Exchange) (transfer now : Z) : Exchange * list Op :=
  if negb (staging e transfer) then (e, [])
  else if negb (settled (in_tree (incoming e))) then cancel_incoming e IoFailed
  else (set_incoming e (mkIncoming None (Some now) empty_tree), [Commit transfer]).

Definition peer_cancel (e : Exchange) (transfer : Z) (_ : FileCancelReason)
    : Exchange * list Op :=
  if staging e transfer then (forget_incoming e, [Abort transfer])
  else if serving e transfer then (forget_outgoing e, [])
  else (e, []).

Definition focus_lost (e : Exchange) (_ : Z) : Exchange * list Op :=
  let '(e, ops) := cancel_outgoing e FileFocusLost in
  let '(e, more) := cancel_incoming e FileFocusLost in
  (e, ops ++ more).

Definition stalled (since : option Z) (now : Z) : bool :=
  match since with Some since => IDLE <? duration_since now since | None => false end.

Definition tick (e : Exchange) (now : Z) : Exchange * list Op :=
  let '(e, ops) :=
    if bool_decide (is_Some (out_transfer (outgoing e))) && stalled (out_since (outgoing e)) now
    then cancel_outgoing e FileTimedOut else (e, []) in
  if bool_decide (is_Some (in_transfer (incoming e))) && stalled (in_since (incoming e)) now then
    let '(e, more) := cancel_incoming e FileTimedOut in (e, ops ++ more)
  else (e, ops).

(** What one file record off the channel means to the exchange. *)
Definition handle_file (e : Exchange) (message : Message) (now : Z) : Exchange * list Op :=
  match message with
  | PolicyMessage p => (peer_policy e p, [])
  | Offer serial => peer_offer e serial now
  | Request serial transfer => peer_request e serial transfer now
  | Entry transfer path kind size => peer_entry e transfer path kind size now
  | Chunk transfer chunk => peer_chunk e transfer chunk now
  | Complete transfer => peer_complete e transfer now
  | Cancel transfer reason => peer_cancel e transfer reason
  end.

End Exchange.
