(* ===== verification/ClipboardFilesProps.v ===== *)
(** * ClipboardFilesProps: what the file clipboard promises

    [stage] is the contract of the adapter that carries the operations out: it
    knows the tree that is being staged and refuses what would be unsafe.  No
    peer and no order of events makes the exchange ask for such a thing
    ([staged_tree_is_sound]), and a tree the sender can produce arrives whole
    ([produced_tree_is_committed]). *)

From stdpp Require Import gmap.
From S2P Require Import Prelude.
From S2P Require Import Clipboard.
From S2P Require Import ClipboardPath.
From S2P Require Import ClipboardFiles.
#[local] Open Scope Z_scope.

(** ** The adapter's contract *)

Record StagedEntry : Type := mkStaged {
  at_path : ValidatedPath;
  entry_kind : EntryKind;
  entry_size : Z;
  so_far : Z;
}.

(** The transfer being staged and its entries, the newest first. *)
Definition Staging : Type := option (Z * list StagedEntry).

Definition whole (x : StagedEntry) : bool := so_far x =? entry_size x.

Definition sizes (xs : list StagedEntry) : Z := foldr (λ x n, entry_size x + n) 0 xs.

Section Exchange.
Context (lower : str → str).

(** A path that has been through every rule. *)
Definition checked (v : ValidatedPath) : bool :=
  match parse lower (path v) with Ok v' => str_eqb (key v') (key v) | _ => false end.

(** Whether [xs] may get one more entry: its path has been checked, everything
    before it has its bytes, no name is taken twice, and the limits of [p]
    hold. *)
Definition may_create (p : Policy) (xs : list StagedEntry) (path : ValidatedPath)
    (kind : EntryKind) (size : Z) : bool :=
  checked path
  && forallb whole xs
  && negb (bool_decide (key path ∈ map (λ x, key (at_path x)) xs))
  && (zlen xs <? MAX_ENTRIES)
  && (size <=? max_file_bytes p)
  && (sizes xs + size <=? max_transfer_bytes p)
  && (bool_decide (kind = File) || (size =? 0)).

(** One operation carried out, or [None] where it may not be. *)
Definition stage (p : Policy) (st : Staging) (op : Op) : option Staging :=
  match op, st with
  | Send _, _ | Enumerate _, _ => Some st
  | CreateEntry t path kind size, None =>
      if may_create p [] path kind size then Some (Some (t, [mkStaged path kind size 0])) else None
  | CreateEntry t path kind size, Some (t', xs) =>
      if (t =? t') && may_create p xs path kind size
      then Some (Some (t, mkStaged path kind size 0 :: xs)) else None
  | WriteChunk t bytes, Some (t', x :: xs) =>
      if (t =? t') && bool_decide (entry_kind x = File)
         && negb (whole x) && (so_far x + zlen bytes <=? entry_size x)
      then Some (Some (t, mkStaged (at_path x) (entry_kind x) (entry_size x)
                            (so_far x + zlen bytes) :: xs))
      else None
  | WriteChunk _ _, _ => None
  | Commit t, Some (t', xs) => if (t =? t') && forallb whole xs then Some None else None
  | Commit _, None => Some None
  | Abort t, Some (t', _) => if t =? t' then Some None else None
  | Abort _, None => Some None
  end.

Fixpoint stage_all (p : Policy) (st : Staging) (ops : list Op) : option Staging :=
  match ops with
  | [] => Some st
  | op :: rest => match stage p st op with Some st => stage_all p st rest | None => None end
  end.

Lemma stage_all_app p st a b :
  stage_all p st (a ++ b) =
    match stage_all p st a with Some st => stage_all p st b | None => None end.
Proof. revert st. induction a as [|op a IH]; intros st; simpl; [done|]. by destruct (stage p st op). Qed.

(** ** Any peer, any order of events *)

Inductive Input : Type :=
| Announce
| LocalOffer (now : Z)
| ProducedEntry (transfer : Z) (path : str) (kind : EntryKind) (size now : Z)
| ProducedChunk (transfer : Z) (chunk : list Z) (now : Z)
| ProducedComplete (transfer now : Z)
| ProducedFailed (transfer : Z) (reason : FileCancelReason)
| StagingFailed (transfer : Z) (reason : FileCancelReason)
| Peer (message : Message) (now : Z)
| LoseFocus (now : Z)
| Tick (now : Z).

(** The sizes of the schema are [u64]. *)
Definition input_typed (input : Input) : Prop :=
  match input with
  | ProducedEntry _ _ _ size _ => is_u64 size
  | Peer (Entry _ _ _ size) _ => is_u64 size
  | _ => True
  end.

Definition step (e : Exchange) (input : Input) : Exchange * list Op :=
  match input with
  | Announce => announce e
  | LocalOffer now => local_offer e now
  | ProducedEntry t path kind size now => produced_entry lower e t path kind size now
  | ProducedChunk t chunk now => produced_chunk e t chunk now
  | ProducedComplete t now => produced_complete e t now
  | ProducedFailed t reason => produced_failed e t reason
  | StagingFailed t reason => staging_failed e t reason
  | Peer m now => handle_file lower e m now
  | LoseFocus now => focus_lost e now
  | Tick now => tick e now
  end.

Fixpoint run (e : Exchange) (inputs : list Input) : Exchange * list Op :=
  match inputs with
  | [] => (e, [])
  | input :: rest =>
      let '(e, ops) := step e input in
      let '(e, more) := run e rest in
      (e, ops ++ more)
  end.

(** The exchange's account of a staged tree. *)
Definition accounts (t : Tree) (xs : list StagedEntry) : Prop :=
  entries t = zlen xs ∧ total t = sizes xs ∧
  (∀ k, k ∈ keys t ↔ k ∈ map (λ x, key (at_path x)) xs) ∧
  match open t with
  | None => forallb whole xs = true
  | Some o =>
      ∃ x rest, xs = x :: rest ∧ entry_kind x = File ∧ entry_size x = declared o ∧
        so_far x = written o ∧ 0 <= written o < declared o ∧ forallb whole rest = true
  end.

Definition stage_ok (i : Incoming) (st : Staging) : Prop :=
  match st, in_transfer i with
  | None, None => True
  | None, Some _ => accounts (in_tree i) []
  | Some (t, xs), Some t' => t = t' ∧ xs ≠ [] ∧ accounts (in_tree i) xs
  | Some _, None => False
  end.

Definition within (a b : Policy) : Prop :=
  max_file_bytes a <= max_file_bytes b ∧ max_transfer_bytes a <= max_transfer_bytes b.

Lemma empty_accounts : accounts empty_tree [].
Proof. repeat split; set_solver. Qed.

Lemma parse_checked p v : parse lower p = Ok v → checked v = true.
Proof.
  intros H. unfold checked. pose proof H as H'. apply parse_accepts in H' as [_ ->]. cbn [path].
  rewrite H. unfold str_eqb. by apply bool_decide_eq_true.
Qed.

Lemma admit_accounts t xs path kind size p p0 t' v :
  accounts t xs → within p p0 → is_u64 size →
  tree_admit lower t path kind size p = Ok (t', v) →
  may_create p0 xs v kind size = true ∧ accounts t' (mkStaged v kind size 0 :: xs).
Proof.
  intros (He & Ht & Hk & Ho) [Hf Hx] Hsize Ha. unfold tree_admit in Ha.
  destruct (open t) eqn:Eo; [discriminate|].
  destruct (parse lower path) as [parsed| |] eqn:Epath; cbn [map_err rbind] in Ha; try discriminate.
  destruct (_ && _) eqn:Ed in Ha; [discriminate|]. apply andb_false_iff in Ed.
  destruct (MAX_ENTRIES <=? _) eqn:Em in Ha; [discriminate|].
  destruct (max_file_bytes p <? size) eqn:Ef in Ha; [discriminate|].
  destruct (u64_checked_add _ _) as [tot|] eqn:Et in Ha; cbn [ok_or rbind] in Ha; [|discriminate].
  destruct (max_transfer_bytes p <? tot) eqn:Ex in Ha; [discriminate|].
  destruct (bool_decide (key parsed ∈ keys t)) eqn:Ek in Ha; [discriminate|].
  apply bool_decide_eq_false in Ek. simplify_eq. bool_to_prop.
  unfold u64_checked_add in Et. destruct (_ <=? U64_MAX); [|discriminate]. simplify_eq.
  unfold is_u64 in Hsize. split.
  - assert (Hn : key v ∉ map (λ x, key (at_path x)) xs) by (by rewrite <- Hk).
    unfold may_create. rewrite Ho, (bool_decide_false _ Hn), (parse_checked _ _ Epath). cbn [negb andb].
    repeat (apply andb_true_intro; split); try apply Z.ltb_lt; try apply Z.leb_le; try lia.
    destruct kind; [done|]. destruct Ed as [Ed|Ed]; [by rewrite bool_decide_true in Ed|].
    bool_to_prop. by subst.
  - unfold accounts. cbn [entries total open keys length map].
    repeat split; [lia|unfold sizes in *; cbn; lia|set_solver|set_solver|].
    destruct (bool_decide (kind = File) && (0 <? size)) eqn:Eb.
    + apply andb_true_iff in Eb as [Eb Epos]. apply bool_decide_eq_true in Eb as ->.
      bool_to_prop. exists (mkStaged v File size 0), xs. simpl. repeat split; try done; lia.
    + cbn [forallb]. rewrite Ho, andb_true_r. change (whole _) with (0 =? size).
      apply Z.eqb_eq.
      destruct kind.
      * rewrite bool_decide_true in Eb by done. simpl in Eb. bool_to_prop. lia.
      * destruct Ed as [Ed|Ed]; [by rewrite bool_decide_true in Ed|]. bool_to_prop; lia.
Qed.

Lemma wrote_accounts t xs bytes t' p0 tr :
  accounts t xs → wrote t (zlen bytes) = Ok t' →
  ∃ xs', stage p0 (Some (tr, xs)) (WriteChunk tr bytes) = Some (Some (tr, xs')) ∧
    xs' ≠ [] ∧ accounts t' xs'.
Proof.
  intros (He & Ht & Hk & Ho) Hw. unfold wrote in Hw.
  destruct (open t) as [o|] eqn:Eo; [|discriminate].
  destruct Ho as (x & rest & -> & Hf & Hd & Hs & Hr & Hrest).
  unfold u64_checked_add in Hw. destruct (_ <=? U64_MAX); [|discriminate].
  cbn [ok_or rbind] in Hw. destruct (declared o <? _) eqn:Ed; [discriminate|]. bool_to_prop.
  simplify_eq. cbn [stage]. rewrite Z.eqb_refl, bool_decide_true by done.
  assert (Hnw : whole x = false) by (unfold whole; apply Z.eqb_neq; lia).
  rewrite Hnw. rewrite (proj2 (Z.leb_le _ _)) by lia. cbn [andb negb].
  eexists. split; [reflexivity|]. split; [done|].
  unfold accounts. cbn [entries total open keys].
  repeat split; try done; [set_solver|set_solver|].
  destruct (written o + zlen bytes =? declared o) eqn:Ee; bool_to_prop.
  - cbn [forallb]. rewrite Hrest, andb_true_r. apply Z.eqb_eq. cbn. lia.
  - eexists _, rest. split; [reflexivity|]. cbn. repeat split; try done; lia.
Qed.

Lemma accounts_settled t xs : accounts t xs → settled t = true → forallb whole xs = true.
Proof. intros (_ & _ & _ & Ho). unfold settled. by destruct (open t). Qed.

(** What keeps an operation's answer in the contract. *)
Definition keeps (p0 : Policy) (st : Staging) (r : Exchange * list Op) : Prop :=
  within (policy (fst r)) p0 ∧
  ∃ st', stage_all p0 st (snd r) = Some st' ∧ stage_ok (incoming (fst r)) st'.

Definition only_sends (ops : list Op) : Prop :=
  Forall (λ op, match op with Send _ | Enumerate _ => True | _ => False end) ops.

Lemma stage_sends p0 st ops : only_sends ops → stage_all p0 st ops = Some st.
Proof. induction 1 as [|op ops Hop _ IH]; simpl; [done|]. by destruct op. Qed.

Lemma keeps_sends p0 st e ops :
  within (policy e) p0 → stage_ok (incoming e) st → only_sends ops → keeps p0 st (e, ops).
Proof. intros Hp Hi Ho. split; [done|]. exists st. by rewrite stage_sends. Qed.

Lemma cancel_outgoing_keeps e r :
  let c := cancel_outgoing e r in
  policy (fst c) = policy e ∧ incoming (fst c) = incoming e ∧ only_sends (snd c).
Proof. unfold cancel_outgoing. destruct (out_transfer _); repeat split; by repeat constructor. Qed.

Lemma abort_ok p0 st i t :
  stage_ok i st → in_transfer i = Some t → stage p0 st (Abort t) = Some None.
Proof.
  unfold stage_ok. intros Hi Ht. rewrite Ht in Hi. destruct st as [[t' xs]|]; [|done].
  destruct Hi as (-> & _). cbn. by rewrite Z.eqb_refl.
Qed.

Lemma cancel_incoming_keeps p0 st e r :
  within (policy e) p0 → stage_ok (incoming e) st →
  let c := cancel_incoming e r in
  keeps p0 st c ∧ policy (fst c) = policy e ∧ in_transfer (incoming (fst c)) = None ∧
  stage_all p0 st (snd c) = Some None.
Proof.
  intros Hp Hi. unfold cancel_incoming. destruct (in_transfer (incoming e)) as [t|] eqn:Et.
  - assert (Ha : stage_all p0 st [Send (Cancel t r); Abort t] = Some None).
    { cbn [stage_all]. change (stage p0 st (Send _)) with (Some st). cbn iota.
      by rewrite (abort_ok p0 st (incoming e)). }
    split; [|done]. split; [done|]. exists None. by split.
  - assert (st = None) as ->.
    { unfold stage_ok in Hi. rewrite Et in Hi. by destruct st as [[? ?]|]. }
    split; [|done]. split; [done|]. by exists None.
Qed.

Section Keeps.
Context (p0 : Policy) (st : Staging) (e : Exchange).
Hypothesis Hp : within (policy e) p0.
Hypothesis Hi : stage_ok (incoming e) st.

Lemma cancelled_keeps r : keeps p0 st (cancel_incoming e r).
Proof. by apply cancel_incoming_keeps. Qed.

Lemma outgoing_keeps r : keeps p0 st (cancel_outgoing e r).
Proof.
  destruct (cancel_outgoing_keeps e r) as (H1 & H2 & H3).
  destruct (cancel_outgoing e r) as [e' ops]. simpl in *.
  apply keeps_sends; [by rewrite H1|by rewrite H2|done].
Qed.

Lemma unchanged_keeps : keeps p0 st (e, []).
Proof. apply keeps_sends; [done..|constructor]. Qed.

Lemma announce_keeps : keeps p0 st (announce e) ∧ policy (fst (announce e)) = policy e ∧
  incoming (fst (announce e)) = incoming e ∧ only_sends (snd (announce e)).
Proof.
  unfold announce. destruct (announced e); [split; [apply unchanged_keeps|by repeat constructor]|].
  split; [apply keeps_sends; [done..|repeat constructor]|by repeat constructor].
Qed.

Lemma staging_in t : staging e t = true → in_transfer (incoming e) = Some t.
Proof. unfold staging. by rewrite bool_decide_eq_true. Qed.

Lemma peer_entry_keeps t path kind size now :
  is_u64 size → keeps p0 st (peer_entry lower e t path kind size now).
Proof.
  intros Hsize. unfold peer_entry. destruct (staging e t) eqn:Es; [|apply unchanged_keeps].
  apply staging_in in Es. cbn [negb].
  destruct (tree_admit _ _ _ _ _ _) as [[t' v]|r|] eqn:Ea; [|apply cancelled_keeps|apply unchanged_keeps].
  split; [done|]. unfold stage_ok in *. cbn [fst snd in_moved set_incoming incoming in_transfer].
  rewrite Es in *. destruct st as [[tr xs]|].
  - destruct Hi as (-> & _ & Hacc).
    destruct (admit_accounts _ _ _ _ _ _ p0 _ _ Hacc Hp Hsize Ea) as [Hm Hacc'].
    exists (Some (t, mkStaged v kind size 0 :: xs)). cbn [stage_all stage].
    by rewrite Z.eqb_refl, Hm.
  - destruct (admit_accounts _ _ _ _ _ _ p0 _ _ Hi Hp Hsize Ea) as [Hm Hacc'].
    exists (Some (t, [mkStaged v kind size 0])). cbn [stage_all stage]. by rewrite Hm.
Qed.

Lemma peer_chunk_keeps t chunk now : keeps p0 st (peer_chunk e t chunk now).
Proof.
  unfold peer_chunk. destruct (staging e t) eqn:Es; [|apply unchanged_keeps].
  apply staging_in in Es. cbn [negb].
  destruct (wrote _ _) as [t'|r|] eqn:Ew; [|apply cancelled_keeps|apply unchanged_keeps].
  split; [done|]. unfold stage_ok in *. cbn [fst snd in_moved set_incoming incoming in_transfer].
  rewrite Es in *. destruct st as [[tr xs]|].
  - destruct Hi as (-> & _ & Hacc).
    destruct (wrote_accounts _ _ _ _ p0 t Hacc Ew) as (xs' & Hst & Hne & Hacc').
    exists (Some (t, xs')). cbn [stage_all]. by rewrite Hst.
  - exfalso. destruct Hi as (_ & _ & _ & Ho). unfold wrote in Ew.
    destruct (open _) as [o|]; [|discriminate]. by destruct Ho as (x & rest & ? & _).
Qed.

Lemma peer_complete_keeps t now : keeps p0 st (peer_complete e t now).
Proof.
  unfold peer_complete. destruct (staging e t) eqn:Es; [|apply unchanged_keeps].
  apply staging_in in Es. cbn [negb].
  destruct (settled _) eqn:Ew; [|apply cancelled_keeps]. cbn [negb].
  split; [done|]. exists None. split; [|done]. unfold stage_ok in Hi. rewrite Es in Hi.
  destruct st as [[tr xs]|]; [|done]. destruct Hi as (-> & _ & Hacc).
  cbn [snd stage_all stage]. rewrite Z.eqb_refl. by rewrite (accounts_settled _ _ Hacc Ew).
Qed.

Lemma peer_cancel_keeps t r : keeps p0 st (peer_cancel e t r).
Proof.
  unfold peer_cancel. destruct (staging e t) eqn:Es.
  - apply staging_in in Es. split; [done|]. exists None. split; [|done].
    cbn [snd stage_all]. by rewrite (abort_ok p0 st (incoming e)).
  - case_if; [|apply unchanged_keeps]. apply keeps_sends; [done..|constructor].
Qed.

Lemma peer_offer_keeps serial now : keeps p0 st (peer_offer e serial now).
Proof.
  unfold peer_offer. destruct (heard e); [|apply unchanged_keeps]. cbn [negb].
  destruct (cancel_incoming_keeps p0 st e FileSuperseded Hp Hi) as ((H1 & _) & H2 & H3 & H4).
  destruct (cancel_incoming e FileSuperseded) as [e' ops]. simpl in *.
  split; [done|]. exists None. simpl. rewrite stage_all_app, H4. split; [done|apply empty_accounts].
Qed.

End Keeps.

(** A second step after one that kept the contract. *)
Lemma keeps_more p0 st e ops e' more :
  keeps p0 st (e, ops) →
  (∀ st', within (policy e) p0 → stage_ok (incoming e) st' → keeps p0 st' (e', more)) →
  keeps p0 st (e', ops ++ more).
Proof.
  intros (Hp & st' & Hs & Hi) Hmore. destruct (Hmore st' Hp Hi) as (Hp' & st'' & Hs' & Hi').
  split; [done|]. exists st''. simpl in *. by rewrite stage_all_app, Hs.
Qed.

Lemma sends_after p0 st e1 ops e2 more :
  keeps p0 st (e1, ops) → policy e2 = policy e1 → incoming e2 = incoming e1 →
  only_sends more → keeps p0 st (e2, ops ++ more).
Proof.
  intros H Hpol Hin Hmore. eapply keeps_more; [done|]. intros st' Hp Hi.
  apply keeps_sends; [by rewrite Hpol|by rewrite Hin|done].
Qed.

Lemma cancelled_after p0 st e1 ops reason :
  keeps p0 st (e1, ops) →
  keeps p0 st (let '(e2, more) := cancel_incoming e1 reason in (e2, ops ++ more)).
Proof.
  intros H. destruct (cancel_incoming e1 reason) as [e2 more] eqn:E2.
  eapply keeps_more; [done|]. intros st1 Hp1 Hi1. rewrite <- E2. by apply cancelled_keeps.
Qed.

Section LocalKeeps.
Context (p0 : Policy) (st : Staging) (e : Exchange).
Context (Hp : within (policy e) p0) (Hi : stage_ok (incoming e) st).

Lemma local_offer_keeps now : keeps p0 st (local_offer e now).
Proof.
  unfold local_offer. destruct (announce_keeps p0 st e Hp Hi) as (H1 & _).
  destruct (announce e) as [e1 first].
  destruct (cancel_outgoing e1 FileSuperseded) as [e2 ops] eqn:E2.
  eapply keeps_more; [done|]. intros st1 Hp1 Hi1.
  pose proof (outgoing_keeps p0 st1 e1 Hp1 Hi1 FileSuperseded) as H2. rewrite E2 in H2.
  eapply sends_after; [done..|repeat constructor].
Qed.

Lemma produced_entry_keeps t path kind size now :
  keeps p0 st (produced_entry lower e t path kind size now).
Proof.
  unfold produced_entry. case_if; [by apply unchanged_keeps|].
  destruct (tree_admit _ _ _ _ _ _) as [[t' v]|r|]; [|by apply outgoing_keeps|by apply unchanged_keeps].
  apply keeps_sends; [done..|repeat constructor].
Qed.

Lemma produced_chunk_keeps t chunk now : keeps p0 st (produced_chunk e t chunk now).
Proof.
  unfold produced_chunk. case_if; [by apply unchanged_keeps|].
  case_if; [by apply outgoing_keeps|].
  destruct (wrote _ _) as [t'|r|]; [|by apply outgoing_keeps|by apply unchanged_keeps].
  apply keeps_sends; [done..|repeat constructor].
Qed.

Lemma produced_complete_keeps t now : keeps p0 st (produced_complete e t now).
Proof.
  unfold produced_complete. case_if; [by apply unchanged_keeps|].
  case_if; [by apply outgoing_keeps|]. apply keeps_sends; [done..|repeat constructor].
Qed.

Lemma peer_request_keeps serial t now : keeps p0 st (peer_request e serial t now).
Proof.
  unfold peer_request. case_if; [apply keeps_sends; [done..|repeat constructor]|].
  pose proof (outgoing_keeps p0 st e Hp Hi FileSuperseded) as H.
  destruct (cancel_outgoing e FileSuperseded) as [e1 ops].
  eapply sends_after; [done..|repeat constructor].
Qed.

Lemma focus_lost_keeps now : keeps p0 st (focus_lost e now).
Proof.
  unfold focus_lost. pose proof (outgoing_keeps p0 st e Hp Hi FileFocusLost) as H.
  destruct (cancel_outgoing e FileFocusLost) as [e1 ops]. by apply cancelled_after.
Qed.

Lemma tick_keeps now : keeps p0 st (tick e now).
Proof.
  unfold tick.
  assert (H : keeps p0 st (if bool_decide (is_Some (out_transfer (outgoing e)))
    && stalled (out_since (outgoing e)) now then cancel_outgoing e FileTimedOut else (e, []))).
  { case_if; [by apply outgoing_keeps|by apply unchanged_keeps]. }
  destruct (if _ && _ then cancel_outgoing e _ else _) as [e1 ops].
  case_if; [by apply cancelled_after|done].
Qed.
End LocalKeeps.

Lemma step_keeps p0 st e input :
  within (policy e) p0 → stage_ok (incoming e) st → input_typed input →
  keeps p0 st (step e input).
Proof.
  intros Hp Hi Ht.
  destruct input as [|now|t path kind size now|t chunk now|t now|t r|t r|m now|now|now]; simpl.
  - by apply announce_keeps.
  - by apply local_offer_keeps.
  - by apply produced_entry_keeps.
  - by apply produced_chunk_keeps.
  - by apply produced_complete_keeps.
  - unfold produced_failed. case_if; [by apply unchanged_keeps|by apply outgoing_keeps].
  - unfold staging_failed. case_if; [by apply unchanged_keeps|by apply cancelled_keeps].
  - destruct m as [p|serial|serial t|t path kind size|t chunk|t|t r]; simpl.
    + apply keeps_sends; [|done|constructor]. destruct Hp. split; simpl; lia.
    + by apply peer_offer_keeps.
    + by apply peer_request_keeps.
    + by apply peer_entry_keeps.
    + by apply peer_chunk_keeps.
    + by apply peer_complete_keeps.
    + by apply peer_cancel_keeps.
  - by apply focus_lost_keeps.
  - by apply tick_keeps.
Qed.

Lemma run_keeps p0 inputs : ∀ st e,
  within (policy e) p0 → stage_ok (incoming e) st → Forall input_typed inputs →
  keeps p0 st (run e inputs).
Proof.
  induction inputs as [|input inputs IH]; intros st e Hp Hi Ht; simpl.
  - by apply unchanged_keeps.
  - inversion_clear Ht. pose proof (step_keeps p0 st e input Hp Hi) as H1.
    destruct (step e input) as [e1 ops]. destruct (run e1 inputs) as [e2 more] eqn:E.
    eapply keeps_more; [by apply H1|]. intros st1 Hp1 Hi1. rewrite <- E. by apply IH.
Qed.

(** ** A tree the sender can produce *)

Record Source : Type := mkSource {
  src_path : str;
  src_kind : EntryKind;
  src_chunks : list (list Z);
}.

Definition bytes_in (chunks : list (list Z)) : Z := foldr (λ c n, zlen c + n) 0 chunks.
Definition src_size (x : Source) : Z := bytes_in (src_chunks x).
Definition tree_size (xs : list Source) : Z := foldr (λ x n, src_size x + n) 0 xs.

Definition validated (x : Source) : ValidatedPath :=
  mkPath (src_path x) (join slash (map lower (split slash (src_path x)))).

Definition source_ok (x : Source) : Prop :=
  portable (src_path x) ∧ Forall (λ c, 0 < zlen c <= CHUNK) (src_chunks x) ∧
  (src_kind x = Directory → src_chunks x = []).

Definition within_limits (p : Policy) (xs : list Source) : Prop :=
  Forall (λ x, src_size x <= max_file_bytes p) xs ∧ tree_size xs <= max_transfer_bytes p.

(** What the walk of the local selection feeds back, and what the receiving side
    is to carry out. *)
Definition produced (t now : Z) (x : Source) : list Input :=
  ProducedEntry t (src_path x) (src_kind x) (src_size x) now
    :: map (λ c, ProducedChunk t c now) (src_chunks x).
Definition staged (t : Z) (x : Source) : list Op :=
  CreateEntry t (validated x) (src_kind x) (src_size x) :: map (WriteChunk t) (src_chunks x).

(** The sending side's operations: each record reaches the receiving side. *)
Fixpoint deliver_all (r : Exchange) (ops : list Op) (now : Z) : Exchange * list Op :=
  match ops with
  | [] => (r, [])
  | Send m :: rest =>
      let '(r, done) := handle_file lower r m now in
      let '(r, more) := deliver_all r rest now in
      (r, done ++ more)
  | _ :: rest => deliver_all r rest now
  end.

Fixpoint feed (s r : Exchange) (inputs : list Input) (now : Z) : Exchange * Exchange * list Op :=
  match inputs with
  | [] => (s, r, [])
  | input :: rest =>
      let '(s, ops) := step s input in
      let '(r, done) := deliver_all r ops now in
      let '(s, r, more) := feed s r rest now in
      (s, r, done ++ more)
  end.

Lemma feed_app s r a b now :
  feed s r (a ++ b) now =
    let '(s, r, done) := feed s r a now in
    let '(s, r, more) := feed s r b now in
    (s, r, done ++ more).
Proof.
  revert s r. induction a as [|input a IH]; intros s r; simpl.
  - by destruct (feed s r b now) as [[? ?] ?].
  - destruct (step s input) as [s1 ops]. destruct (deliver_all r ops now) as [r1 done1].
    rewrite IH. destruct (feed s1 r1 a now) as [[s2 r2] more].
    destruct (feed s2 r2 b now) as [[? ?] ?]. by rewrite app_assoc.
Qed.

(** Both sides hold the transfer [t], with the tree [T] on either. *)
Definition paired (t : Z) (ps pr : Policy) (T : Tree) (s r : Exchange) : Prop :=
  out_transfer (outgoing s) = Some t ∧ in_transfer (incoming r) = Some t ∧
  policy s = ps ∧ policy r = pr ∧ out_tree (outgoing s) = T ∧ in_tree (incoming r) = T.

Lemma serving_in s t : out_transfer (outgoing s) = Some t → serving s t = true.
Proof. intros H. unfold serving. by apply bool_decide_eq_true. Qed.
Lemma staging_of r t : in_transfer (incoming r) = Some t → staging r t = true.
Proof. intros H. unfold staging. by apply bool_decide_eq_true. Qed.

Lemma bytes_in_nonneg chunks : 0 <= bytes_in chunks.
Proof. induction chunks as [|c chunks IH]; simpl; lia. Qed.
Lemma tree_size_nonneg xs : 0 <= tree_size xs.
Proof.
  induction xs as [|x xs IH]; simpl; [lia|]. pose proof (bytes_in_nonneg (src_chunks x)).
  unfold src_size. lia.
Qed.

Definition closed_tree (T : Tree) : Tree := mkTree (entries T) (total T) None (keys T).

Lemma wrote_ok T o len :
  open T = Some o → written o + len <= declared o → declared o <= U64_MAX →
  wrote T len = Ok (mkTree (entries T) (total T)
    (if written o + len =? declared o then None else Some (mkOpen (declared o) (written o + len)))
    (keys T)).
Proof.
  intros Ho Hl Hu. unfold wrote, u64_checked_add. rewrite Ho.
  rewrite (proj2 (Z.leb_le _ _)) by lia. cbn [ok_or rbind].
  by rewrite (proj2 (Z.ltb_ge _ _)) by lia.
Qed.

(** The chunks of the open entry. *)
Lemma feed_chunks t ps pr now chunks : ∀ s r T o,
  paired t ps pr T s r → open T = Some o → chunks ≠ [] →
  Forall (λ c, 0 < zlen c <= CHUNK) chunks →
  written o + bytes_in chunks = declared o → declared o <= U64_MAX →
  ∃ s' r',
    feed s r (map (λ c, ProducedChunk t c now) chunks) now = (s', r', map (WriteChunk t) chunks) ∧
    paired t ps pr (closed_tree T) s' r'.
Proof.
  induction chunks as [|c chunks IH]; intros s r T o Hpair Ho Hne Hall Hsum Hu; [done|].
  inversion_clear Hall as [|? ? Hc Hall']. cbn [bytes_in foldr] in Hsum.
  change (foldr _ 0 chunks) with (bytes_in chunks) in Hsum.
  pose proof (bytes_in_nonneg chunks) as Hnn.
  destruct Hpair as (H1 & H2 & H3 & H4 & H5 & H6).
  pose proof (wrote_ok T o (zlen c) Ho ltac:(lia) Hu) as Hw.
  set (T' := mkTree _ _ _ _) in Hw.
  assert (Hstep : step s (ProducedChunk t c now) = (out_moved s T' now, [Send (Chunk t c)])).
  { cbn [step]. unfold produced_chunk. rewrite (serving_in s t H1), H5, Hw. cbn [negb].
    by rewrite (proj2 (Z.ltb_ge _ _)) by lia. }
  assert (Hdel : deliver_all r [Send (Chunk t c)] now = (in_moved r T' now, [WriteChunk t c])).
  { cbn [deliver_all handle_file]. unfold peer_chunk. by rewrite (staging_of r t H2), H6, Hw. }
  assert (Hp' : paired t ps pr T' (out_moved s T' now) (in_moved r T' now)) by done.
  cbn [map feed]. rewrite Hstep, Hdel.
  destruct chunks as [|c' chunks].
  - do 2 eexists. split; [reflexivity|]. cbn [bytes_in foldr] in Hsum.
    assert (T' = closed_tree T) as <-; [|done].
    unfold T', closed_tree. by rewrite (proj2 (Z.eqb_eq _ _)) by lia.
  - inversion Hall' as [|? ? Hc' _]. subst. cbn [bytes_in foldr] in Hsum.
    change (foldr _ 0 chunks) with (bytes_in chunks) in Hsum.
    pose proof (bytes_in_nonneg chunks) as Hnn'.
    destruct (IH _ _ T' (mkOpen (declared o) (written o + zlen c)) Hp') as (s' & r' & Hf & Hp'');
      [|done|done|cbn [bytes_in foldr written declared];
        change (foldr _ 0 chunks) with (bytes_in chunks); lia|done|].
    { unfold T'. cbn [open]. by rewrite (proj2 (Z.eqb_neq _ _)) by lia. }
    rewrite Hf. do 2 eexists. split; [reflexivity|done].
Qed.
(** The tree once [x] is admitted to it. *)
Definition admitted (T : Tree) (x : Source) : Tree :=
  mkTree (entries T + 1) (total T + src_size x)
    (if bool_decide (src_kind x = File) && (0 <? src_size x)
     then Some (mkOpen (src_size x) 0) else None)
    ({[key (validated x)]} ∪ keys T).

Definition room_for (p : Policy) (T : Tree) (x : Source) : Prop :=
  src_size x <= max_file_bytes p ∧ 0 <= total T ∧
  total T + src_size x <= max_transfer_bytes p ∧ is_u64 (max_transfer_bytes p).

Lemma admit_ok T x p :
  open T = None → source_ok x → entries T < MAX_ENTRIES → room_for p T x →
  key (validated x) ∉ keys T →
  tree_admit lower T (src_path x) (src_kind x) (src_size x) p = Ok (admitted T x, validated x).
Proof.
  intros Ho (Hport & _ & Hdir) He (Hf & _ & Ht & Hu) Hk. unfold tree_admit. rewrite Ho.
  rewrite (proj2 (parse_accepts lower (src_path x) (validated x)) (conj Hport eq_refl)).
  cbn [map_err rbind]. unfold u64_checked_add, is_u64, U64_MAX in *.
  assert (bool_decide (src_kind x = Directory) && negb (src_size x =? 0) = false) as ->.
  { case_bool_decide as Hd; [|done]. unfold src_size. by rewrite (Hdir Hd). }
  rewrite (proj2 (Z.leb_gt _ _)), (proj2 (Z.ltb_ge _ _)), (proj2 (Z.leb_le _ _)) by lia.
  cbn [ok_or rbind]. rewrite (proj2 (Z.ltb_ge _ _)) by lia.
  by rewrite bool_decide_false by done.
Qed.

Lemma feed_source t ps pr now T s r x :
  paired t ps pr T s r → open T = None → source_ok x → entries T < MAX_ENTRIES →
  room_for ps T x → room_for pr T x → key (validated x) ∉ keys T →
  ∃ s' r', feed s r (produced t now x) now = (s', r', staged t x) ∧
    paired t ps pr (closed_tree (admitted T x)) s' r'.
Proof.
  intros (H1 & H2 & H3 & H4 & H5 & H6) Ho Hx He Hps Hpr Hk.
  pose proof (admit_ok T x ps Ho Hx He Hps Hk) as Has.
  pose proof (admit_ok T x pr Ho Hx He Hpr Hk) as Har.
  set (T' := admitted T x) in *.
  assert (Hp' : paired t ps pr T' (out_moved s T' now) (in_moved r T' now)) by done.
  unfold produced, staged. cbn [feed step]. unfold produced_entry.
  rewrite (serving_in s t H1), H5, H3, Has. cbn [negb deliver_all handle_file validated path].
  unfold peer_entry. rewrite (staging_of r t H2), H6, H4, Har. cbn [negb app].
  destruct Hx as (_ & Hall & Hdir).
  destruct (src_chunks x) as [|c chunks] eqn:Ec.
  - cbn [map feed app]. do 2 eexists. split; [reflexivity|].
    assert (closed_tree T' = T') as ->; [|done].
    unfold T', closed_tree, admitted, src_size. rewrite Ec. cbn. by rewrite andb_false_r.
  - assert (Hsz : 0 < src_size x).
    { unfold src_size. rewrite Ec. inversion Hall. pose proof (bytes_in_nonneg chunks).
      cbn [bytes_in foldr]. change (foldr _ 0 chunks) with (bytes_in chunks). lia. }
    assert (Hfile : src_kind x = File).
    { destruct (src_kind x) eqn:E; [done|]. by specialize (Hdir eq_refl). }
    destruct (feed_chunks t ps pr now (c :: chunks) _ _ T' (mkOpen (src_size x) 0) Hp')
      as (s' & r' & Hf & Hp''); [|done|done|cbn; unfold src_size; by rewrite Ec|
        destruct Hps as (_ & ? & ? & Hu); cbn; unfold is_u64, U64_MAX in *; lia|].
    { unfold T', admitted. cbn [open]. rewrite bool_decide_true by done.
      by rewrite (proj2 (Z.ltb_lt _ _)) by lia. }
    rewrite Hf. do 2 eexists. split; [reflexivity|done].
Qed.
Lemma feed_tree t ps pr now xs : ∀ T s r,
  paired t ps pr T s r → open T = None → 0 <= total T →
  Forall source_ok xs → NoDup (map (λ x, key (validated x)) xs) →
  (∀ x, x ∈ xs → key (validated x) ∉ keys T) → entries T + zlen xs <= MAX_ENTRIES →
  is_u64 (max_transfer_bytes ps) → is_u64 (max_transfer_bytes pr) →
  Forall (λ x, src_size x <= max_file_bytes ps ∧ src_size x <= max_file_bytes pr) xs →
  total T + tree_size xs <= Z.min (max_transfer_bytes ps) (max_transfer_bytes pr) →
  ∃ s' r' T', feed s r (concat (map (produced t now) xs)) now =
      (s', r', concat (map (staged t) xs)) ∧
    paired t ps pr T' s' r' ∧ open T' = None.
Proof.
  induction xs as [|x xs IH]; intros T s r Hpair Ho Hnn Hok Hnd Hfresh He Hus Hur Hf Ht.
  { by exists s, r, T. }
  inversion_clear Hok as [|? ? Hx Hxs]. inversion_clear Hf as [|? ? [Hf1 Hf2] Hf'].
  cbn [map] in Hnd. apply list.NoDup_cons in Hnd as [Hnew Hnd].
  cbn [tree_size foldr] in Ht. change (foldr _ 0 xs) with (tree_size xs) in Ht.
  pose proof (tree_size_nonneg xs). pose proof (bytes_in_nonneg (src_chunks x)).
  fold (src_size x) in *. cbn [length] in He.
  destruct (feed_source t ps pr now T s r x Hpair Ho Hx) as (s1 & r1 & H1 & Hpair1);
    [lia|split_and!; [done|done|lia|done]|split_and!; [done|done|lia|done]|apply Hfresh; set_solver|].
  destruct (IH _ s1 r1 Hpair1) as (s' & r' & T' & H2 & Hpair2 & Ho2); try done.
  - cbn. lia.
  - intros y Hy. cbn [keys closed_tree admitted]. rewrite not_elem_of_union, not_elem_of_singleton. split.
    + intros Heq. apply Hnew. rewrite <- Heq. apply list_elem_of_In, (in_map (λ x, key (validated x))), list_elem_of_In, Hy.
    + apply Hfresh. set_solver.
  - cbn. lia.
  - cbn. lia.
  - exists s', r', T'. split; [|done]. cbn [map concat]. by rewrite feed_app, H1, H2.
Qed.

(** The records that start a transfer: an offer, the request it is answered
    with, and its number. *)
Definition pull_files (s r : Exchange) (now : Z) : Exchange * Exchange * Z :=
  let '(s, _) := local_offer s now in
  let serial := out_serial (outgoing s) in
  let t := next_transfer r in
  let '(r, _) := peer_offer r serial now in
  let '(s, _) := peer_request s serial t now in
  (s, r, t).

Lemma pull_files_paired s r now :
  heard r = true →
  let '(s', r', t) := pull_files s r now in
  paired t (policy s) (policy r) empty_tree s' r'.
Proof.
  intros Hh. unfold pull_files, local_offer, announce, peer_offer, peer_request, cancel_incoming,
    cancel_outgoing. rewrite Hh.
  destruct (announced s); cbn; destruct (out_transfer (outgoing s)) eqn:E; cbn;
    rewrite ?E; cbn; rewrite ?Z.eqb_refl; cbn; rewrite ?E;
    destruct (in_transfer (incoming r)); cbn; done.
Qed.

End Exchange.

(** ** Properties *)

(** C31: No peer and no order of events makes this side stage an unsafe tree:
    the operations it asks for always meet the adapter's contract.  Entries are
    created only at checked paths, never two under one Windows name, never more
    than the entry limit, the per-file limit or the per-transfer limit allow;
    bytes are written only to the file that is open and never past its declared
    size; a tree is published only when every file has all of its bytes; and
    what is not published is removed. *)
Theorem staged_tree_is_sound (lower : str → str) (p : Policy) (now : Z) (inputs : list Input) :
  Forall input_typed inputs →
  ∃ st, stage_all lower p None (snd (run lower (new p now) inputs)) = Some st.
Proof.
  intros Ht. destruct (run_keeps lower p inputs None (new p now)) as (_ & st & Hst & _); try done.
  by exists st.
Qed.

Definition hostile_tree : list Input :=
  [Peer (PolicyMessage default_policy) 0; Peer (Offer 7) 0;
   Peer (Entry 1 notes File 3) 1; Peer (Chunk 1 [1; 2]) 2; Peer (Complete 1) 3;
   Peer (Offer 8) 4; Peer (Entry 2 [46; 46; 47; 97] File 3) 5].

Lemma staged_tree_is_sound_witness :
  ∃ st, stage_all id default_policy None (snd (run id (new default_policy 0) hostile_tree)) = Some st.
Proof.
  apply (staged_tree_is_sound id default_policy 0 hostile_tree).
  unfold hostile_tree. repeat constructor; unfold is_u64; simpl; lia.
Defined.

(** C32: A tree the sender can produce arrives whole.  When both sides' limits
    allow it, its names are portable and distinct on Windows and its chunks fit
    a record, the walk fed through the sending side makes the receiving side
    create every entry in order, write exactly its bytes, and commit. *)
Theorem produced_tree_is_committed (lower : str → str) (s r : Exchange) (now : Z)
    (xs : list Source) :
  heard r = true →
  Forall source_ok xs → NoDup (map (λ x, key (validated lower x)) xs) →
  zlen xs <= MAX_ENTRIES → is_u64 (max_transfer_bytes (policy s)) →
  is_u64 (max_transfer_bytes (policy r)) →
  within_limits (policy s) xs → within_limits (policy r) xs →
  let '(s1, r1, t) := pull_files s r now in
  ∃ s2 r2,
    feed lower s1 r1 (concat (map (produced t now) xs) ++ [ProducedComplete t now]) now =
      (s2, r2, concat (map (staged lower t) xs) ++ [Commit t]) ∧
    out_transfer (outgoing s2) = None ∧ in_transfer (incoming r2) = None.
Proof.
  intros Hh Hok Hnd Hlen Hus Hur [Hf1 Ht1] [Hf2 Ht2].
  pose proof (pull_files_paired s r now Hh) as Hpair.
  destruct (pull_files s r now) as [[s1 r1] t].
  destruct (feed_tree lower t _ _ now xs empty_tree s1 r1 Hpair)
    as (s2 & r2 & T & Hfeed & (H1 & H2 & _ & _ & H5 & H6) & Ho); try done.
  - apply list.Forall_and. by split.
  - change (total empty_tree) with 0. lia.
  - rewrite feed_app, Hfeed. cbn [feed step]. unfold produced_complete.
    rewrite (serving_in s2 t H1), H5. unfold settled at 1. rewrite Ho.
    cbn [negb deliver_all handle_file]. unfold peer_complete.
    rewrite (staging_of r2 t H2), H6. unfold settled at 1. rewrite Ho. cbn [negb].
    do 2 eexists. split; [reflexivity|done].
Qed.

Definition folder : list Source :=
  [mkSource [110; 111; 116; 101; 115] Directory []; mkSource notes File [[1; 2]; [3]]].

Definition open_receiver : Exchange := peer_policy (new default_policy 0) default_policy.

Lemma folder_ok : Forall source_ok folder.
Proof.
  assert (Hparse : ∀ p v, parse id p = Ok v → portable p) by (intros p v Hv; apply parse_accepts in Hv; apply Hv).
  assert (H1 : portable [110; 111; 116; 101; 115])
    by (apply (Hparse _ (mkPath [110; 111; 116; 101; 115] [110; 111; 116; 101; 115]));
        vm_compute; reflexivity).
  assert (H2 : portable notes) by (apply (Hparse _ (mkPath notes notes)); vm_compute; reflexivity).
  apply Forall_cons; [exact (conj H1 (conj (Forall_nil _) (λ _, eq_refl)))|].
  apply Forall_cons; [|apply Forall_nil]. split; [exact H2|]. split; [|done].
  unfold CHUNK. repeat constructor; simpl; lia.
Qed.

Lemma produced_tree_is_committed_witness :
  let '(s1, r1, t) := pull_files (new default_policy 0) open_receiver 0 in
  ∃ s2 r2,
    feed id s1 r1 (concat (map (produced t 0) folder) ++ [ProducedComplete t 0]) 0 =
      (s2, r2, concat (map (staged id t) folder) ++ [Commit t]) ∧
    out_transfer (outgoing s2) = None ∧ in_transfer (incoming r2) = None.
Proof.
  apply (produced_tree_is_committed id (new default_policy 0) open_receiver 0 folder);
    [reflexivity|exact folder_ok| |by vm_compute|by vm_compute|by vm_compute| |].
  - by apply (bool_decide_unpack (NoDup _)).
  - split; [repeat constructor; by vm_compute|by vm_compute].
  - split; [repeat constructor; by vm_compute|by vm_compute].
Defined.

(** Finding.  The exchange's comment says that its transfer numbers "never
    collide by construction"; they do.  Both sides count what they ask for from
    one, so a tree may be served and another staged under one number, and the
    cancel of the one being served removes the one being staged. *)
Theorem file_cancel_takes_the_wrong_tree (lower : str → str) (p : Policy)
    (reason : FileCancelReason) :
  let e := fst (run lower (new p 0)
    [Peer (PolicyMessage p) 0; LocalOffer 0; Peer (Offer 5) 0; Peer (Request 1 1) 0]) in
  out_transfer (outgoing e) = Some 1 ∧ in_transfer (incoming e) = Some 1 ∧
  let '(e', ops) := peer_cancel e 1 reason in
  ops = [Abort 1] ∧ out_transfer (outgoing e') = Some 1 ∧ in_transfer (incoming e') = None.
Proof. by vm_compute. Qed.
