(* ===== verification/AgentProto.v ===== *)
(** * What the host and the agent in a guest say to each other

    [crates/agent-protocol]: the messages of proto/vmlord/agent/v1/agent.proto
    as the generated types have them (a [oneof] is an inductive under an
    [option], an enumeration a field of wire values), the constructors of
    envelope.rs, the agreements of handshake.rs, the proof of auth.rs and the
    retry rhythm of backoff.rs. *)

From stdpp Require Import strings pretty.
From S2P Require Import Prelude.

(** ** Enumerations

    [try_from] a wire value; a getter of the generated code reads a number it
    does not know as the zero value. *)

Inductive Capability : Type := CapabilityUnspecified | Gpu | Display.

#[export] Instance agent_capability_eq_dec : EqDecision Capability.
Proof. solve_decision. Defined.

Definition capability_wire (c : Capability) : Z :=
  match c with CapabilityUnspecified => 0 | Gpu => 1 | Display => 2 end.
Definition capability_of (value : Z) : option Capability :=
  if value =? 0 then Some CapabilityUnspecified
  else if value =? 1 then Some Gpu
  else if value =? 2 then Some Display
  else None.

Inductive ErrorCode : Type :=
| ErrorUnspecified | UnsupportedVersion | Unauthenticated | UnsupportedRequest
| InvalidArgument | Unavailable | Internal.

#[export] Instance error_code_eq_dec : EqDecision ErrorCode.
Proof. solve_decision. Defined.

Definition error_code_wire (c : ErrorCode) : Z :=
  match c with
  | ErrorUnspecified => 0 | UnsupportedVersion => 1 | Unauthenticated => 2
  | UnsupportedRequest => 3 | InvalidArgument => 4 | Unavailable => 5 | Internal => 6
  end.
Definition error_code (value : Z) : ErrorCode :=
  if value =? 1 then UnsupportedVersion
  else if value =? 2 then Unauthenticated
  else if value =? 3 then UnsupportedRequest
  else if value =? 4 then InvalidArgument
  else if value =? 5 then Unavailable
  else if value =? 6 then Internal
  else ErrorUnspecified.

(** ** Messages *)

Record ProtocolVersion : Type := mk_version { major : Z; minor : Z }.

#[export] Instance agent_version_eq_dec : EqDecision ProtocolVersion.
Proof. solve_decision. Defined.

Record HelloRequest : Type := mk_hello_request {
  hello_version : option ProtocolVersion; hello_capabilities : list Z; agent_version : string }.
Record HelloResponse : Type := mk_hello_response {
  chosen_version : option ProtocolVersion; chosen_capabilities : list Z }.

(** A role is its wire value. *)
Record GpuShare : Type := mk_gpu_share {
  gpu_share_name : string; gpu_share_role : Z; gpu_share_package : string }.
Record GpuMount : Type := mk_gpu_mount {
  gpu_mount_share : string; gpu_mount_state : Z; gpu_mount_path : string;
  gpu_mount_message : string }.

(** A stage of a recipe, a check of the probe: which, what became of it, and
    free text. *)
Record GpuRecipeStage : Type := mk_gpu_stage {
  gpu_step : Z; gpu_state : Z; gpu_message : string }.
Record GpuProbeCheck : Type := mk_gpu_check {
  check_step : Z; check_state : Z; check_message : string }.
Record DisplayRecipeStage : Type := mk_display_stage {
  display_step : Z; display_state : Z; display_message : string }.

Record ProbeGpuResponse : Type := mk_probe {
  probe_verdict : Z; probe_checks : list GpuProbeCheck; probe_renderer : string;
  probe_driver : string; probe_render_node : string }.

Record DisplayMount : Type := mk_display_mount {
  display_mount_name : string; display_mount_point : string; display_mount_state : Z;
  display_mount_message : string }.
Record DisplayPayloadVersions : Type := mk_versions {
  installed : string; previous : string; loaded : string }.
Record DisplaySigningCertificate : Type := mk_certificate {
  certificate : list Z; cert_sha256 : string; subject_key_identifier : string }.
Record GuestDesktopMessage : Type := mk_desktop_message {
  desktop_session : string; desktop_session_type : string; desktop_display_manager : string }.
Record ApplyDisplayRecipeResponse : Type := mk_display_recipe {
  recipe_stages : list DisplayRecipeStage; recipe_versions : option DisplayPayloadVersions;
  recipe_certificate : option DisplaySigningCertificate;
  recipe_desktop : option GuestDesktopMessage }.
Record UpdateDisplayPayloadResponse : Type := mk_update {
  update_stages : list DisplayRecipeStage; update_versions : option DisplayPayloadVersions;
  update_outcome : Z }.

Inductive request_kind : Type :=
| HelloRequestK (hello : HelloRequest)
| HeartbeatRequestK
| AuthenticateRequestK (nonce : list Z)
| AttachGpuSharesRequestK (shares : list GpuShare)
| ApplyGpuRecipeRequestK
| ProbeGpuRequestK
| AttachDisplayPayloadRequestK (share : option string)
| ApplyDisplayRecipeRequestK (initial_mode : option (Z * Z))
| UpdateDisplayPayloadRequestK (target_version : string)
| RebootRequestK.

Inductive response_kind : Type :=
| ErrorK (code : Z) (message : string)
| HelloResponseK (hello : HelloResponse)
| HeartbeatResponseK
| AuthenticateResponseK (tag : list Z)
| AttachGpuSharesResponseK (mounts : list GpuMount) (libraries_refreshed : bool)
| ApplyGpuRecipeResponseK (stages : list GpuRecipeStage)
| ProbeGpuResponseK (probe : ProbeGpuResponse)
| AttachDisplayPayloadResponseK (mount : option DisplayMount)
| ApplyDisplayRecipeResponseK (report : ApplyDisplayRecipeResponse)
| UpdateDisplayPayloadResponseK (report : UpdateDisplayPayloadResponse)
| RebootResponseK.

(** A [kind] of [None] is an arm this build does not know. *)
Inductive envelope_body : Type :=
| RequestBody (kind : option request_kind)
| ResponseBody (kind : option response_kind).

Record Envelope : Type := mk_envelope { request_id : Z; body : option envelope_body }.

(** *** envelope.rs *)

Definition request (id : Z) (kind : request_kind) : Envelope :=
  mk_envelope id (Some (RequestBody (Some kind))).
Definition response (id : Z) (kind : response_kind) : Envelope :=
  mk_envelope id (Some (ResponseBody (Some kind))).
Definition error (id : Z) (code : ErrorCode) (message : string) : Envelope :=
  response id (ErrorK (error_code_wire code) message).

(** ** handshake.rs *)

Definition CURRENT_VERSION : ProtocolVersion := {| major := 1; minor := 9 |}.
Definition DISPLAY_REBOOT_REQUIRED_REVISION : Z := 8.
Definition REBOOT_REQUEST_REVISION : Z := 9.

(** [unwrap_or_default] of an absent version. *)
Definition version_or_default (v : option ProtocolVersion) : ProtocolVersion :=
  default (mk_version 0 0) v.

Record VersionMismatch : Type := mk_mismatch { local : ProtocolVersion; remote : ProtocolVersion }.
Record UnofferedCapability : Type := mk_unoffered { value : Z }.

(** [VersionMismatch::fmt]. *)
Definition mismatch_text (m : VersionMismatch) : string :=
  ("this build speaks agent protocol " +:+ pretty (major (local m)) +:+ "."
    +:+ pretty (minor (local m)) +:+ " and the peer speaks " +:+ pretty (major (remote m))
    +:+ "." +:+ pretty (minor (remote m)))%string.

Definition negotiate_version (local remote : ProtocolVersion)
    : result VersionMismatch ProtocolVersion :=
  if negb (major local =? major remote) then Err (mk_mismatch local remote)
  else Ok {| major := major local; minor := Z.min (minor local) (minor remote) |}.

Definition agreed_capabilities (local : list Capability) (remote : list Z) : list Capability :=
  filter (λ c, capability_wire c ∈ remote) (filter (λ c, c ≠ CapabilityUnspecified) local).

Definition confirm_version (local chosen : ProtocolVersion)
    : result VersionMismatch ProtocolVersion :=
  if negb (major local =? major chosen) || (minor local <? minor chosen)
  then Err (mk_mismatch local chosen)
  else Ok chosen.

(** [collect] into a [Result] stops at the first refusal. *)
Fixpoint confirm_capabilities (local : list Capability) (chosen : list Z)
    : result UnofferedCapability (list Capability) :=
  match chosen with
  | [] => Ok []
  | value :: chosen =>
      let? capability :=
        match capability_of value with
        | Some c =>
            if decide (c ≠ CapabilityUnspecified ∧ c ∈ local) then Ok c
            else Err (mk_unoffered value)
        | None => Err (mk_unoffered value)
        end in
      let? rest := confirm_capabilities local chosen in
      Ok (capability :: rest)
  end.

(** ** auth.rs

    The MAC is the [hmac] crate's HMAC-SHA-256, a parameter. *)

Definition LEN : Z := 32.

(** b"vmlord.agent.v1.auth". *)
Definition DOMAIN : list Z :=
  [118; 109; 108; 111; 114; 100; 46; 97; 103; 101; 110; 116; 46; 118; 49; 46; 97; 117; 116; 104].

Inductive WrongLength : Type := NonceLength (len : Z) | TagLength (len : Z).

Definition nonce_from_wire (bytes : list Z) : result WrongLength (list Z) :=
  if zlen bytes =? LEN then Ok bytes else Err (NonceLength (zlen bytes)).
Definition tag_from_wire (bytes : list Z) : result WrongLength (list Z) :=
  if zlen bytes =? LEN then Ok bytes else Err (TagLength (zlen bytes)).

Section auth.
Context (hmac_sha256 : list Z → list Z → list Z).

Definition tag (secret nonce : list Z) : list Z := hmac_sha256 secret (DOMAIN ++ nonce).

(** [ct_eq]. *)
Definition verify (secret nonce answer : list Z) : bool :=
  bool_decide (tag secret nonce = answer).
End auth.

Definition allowed_unauthenticated (kind : request_kind) : bool :=
  match kind with HelloRequestK _ | AuthenticateRequestK _ => true | _ => false end.

(** ** backoff.rs, in milliseconds *)

Definition FIRST_DELAY : Z := 1000.
Definition MAX_DELAY : Z := 30000.

Record Backoff : Type := mk_backoff { next : Z }.

Definition backoff_new : Backoff := mk_backoff FIRST_DELAY.

(** The product saturates far above the cap that follows. *)
Definition after (b : Backoff) (authenticated : bool) : Z * Backoff :=
  if authenticated then (FIRST_DELAY, mk_backoff FIRST_DELAY)
  else (next b, mk_backoff (Z.min (next b * 2) MAX_DELAY)).

(** The waits of a run of connections, by whether each authenticated. *)
Fixpoint waits (b : Backoff) (connections : list bool) : list Z :=
  match connections with
  | [] => []
  | authenticated :: rest =>
      let '(delay, b) := after b authenticated in delay :: waits b rest
  end.

(** ** What comes of it *)

Lemma agent_capability_of_wire c : capability_of (capability_wire c) = Some c.
Proof. by destruct c. Qed.

Lemma error_code_of_wire c : error_code (error_code_wire c) = c.
Proof. by destruct c. Qed.

Lemma elem_of_agent_agreed c local remote :
  c ∈ agreed_capabilities local remote ↔
  c ∈ local ∧ c ≠ CapabilityUnspecified ∧ capability_wire c ∈ remote.
Proof. unfold agreed_capabilities. rewrite !list_elem_of_filter. tauto. Qed.

(** A peer that answers with capabilities this side offered is taken at its word. *)
Lemma agent_confirm_capabilities_ok local cs :
  (∀ c, c ∈ cs → c ∈ local ∧ c ≠ CapabilityUnspecified) →
  confirm_capabilities local (map capability_wire cs) = Ok cs.
Proof.
  induction cs as [|c cs IH]; intros Hall; cbn [map confirm_capabilities]; [done|].
  rewrite agent_capability_of_wire, decide_True by (destruct (Hall c); [by left|done]).
  cbn [rbind]. rewrite IH; [done|]. intros c' Hc'. apply Hall. by right.
Qed.

(** And one that answers with anything else is refused. *)
Lemma agent_confirm_capabilities_inv local chosen cs :
  confirm_capabilities local chosen = Ok cs →
  chosen = map capability_wire cs ∧ (∀ c, c ∈ cs → c ∈ local ∧ c ≠ CapabilityUnspecified).
Proof.
  revert cs. induction chosen as [|v chosen IH]; intros cs H; cbn [confirm_capabilities] in H.
  { simplify_eq. split; [done|]. intros c Hc. by apply elem_of_nil in Hc. }
  destruct (capability_of v) as [c|] eqn:Ec; [|done].
  destruct (decide _) as [[? ?]|]; [|done]. cbn [rbind] in H.
  destruct (confirm_capabilities local chosen) as [rest| |]; [|done..]. cbn [rbind] in H.
  injection H as <-. destruct (IH rest eq_refl) as [-> Hr]. split.
  - cbn [map]. f_equal. revert Ec. unfold capability_of.
    repeat case_if; bool_to_prop; intros; simplify_eq; cbn; lia.
  - intros c' [->|?]%elem_of_cons; auto.
Qed.

(** The waits never leave the band between the first one and the cap. *)
Lemma waits_bounded b connections :
  FIRST_DELAY <= next b <= MAX_DELAY →
  Forall (λ w, FIRST_DELAY <= w <= MAX_DELAY) (waits b connections).
Proof.
  revert b. unfold FIRST_DELAY, MAX_DELAY. induction connections as [|[] cs IH]; intros b Hb;
    cbn [waits after]; constructor; try (unfold FIRST_DELAY; lia);
    apply IH; cbn [next]; unfold FIRST_DELAY, MAX_DELAY; lia.
Qed.
