(* ===== verification/AgentFrame.v ===== *)
(** * How an envelope is delimited on the agent's byte stream

    [crates/agent-protocol/src/frame.rs], over the transports of [Record.v].
    [Envelope::encode] and [Envelope::decode] are the [prost] crate's and an
    interface here.  The buffer a caller keeps is cleared by whoever uses it
    next, so only what is read into it appears. *)

From stdpp Require Import strings.
From S2P Require Import Prelude.
From S2P Require Import Record.
From S2P Require Import AgentProto.

(** ** The encoding *)

Class EnvelopeCodec : Type := {
  envelope_bytes : Envelope → list Z;
  envelope_of : list Z → option Envelope;
}.

(** An ASCII text; every text of the opening messages is one. *)
Definition text_typed (s : string) : Prop :=
  Forall (λ b, b < 128)%N (map Ascii.N_of_ascii (String.list_ascii_of_string s)).
Definition is_i32 (z : Z) : Prop := -2147483648 <= z < 2147483648.
Definition version_typed (v : ProtocolVersion) : Prop := is_u32 (major v) ∧ is_u32 (minor v).

(** The values the generated types can hold, for the messages that open a
    session and those with no field. *)
Definition opening_typed (e : Envelope) : Prop :=
  is_u32 (request_id e) ∧
  match body e with
  | Some (RequestBody (Some (HelloRequestK h))) =>
      (∀ v, hello_version h = Some v → version_typed v) ∧
      Forall is_i32 (hello_capabilities h) ∧ text_typed (agent_version h)
  | Some (RequestBody (Some (AuthenticateRequestK nonce))) => Forall is_u8 nonce
  | Some (ResponseBody (Some (HelloResponseK h))) =>
      (∀ v, chosen_version h = Some v → version_typed v) ∧ Forall is_i32 (chosen_capabilities h)
  | Some (ResponseBody (Some (AuthenticateResponseK tag))) => Forall is_u8 tag
  | Some (RequestBody (Some HeartbeatRequestK)) => True
  | Some (ResponseBody (Some HeartbeatResponseK)) => True
  | _ => False
  end.

(** What Protobuf promises of them. *)
Class EnvelopeLaws `{EnvelopeCodec} : Prop := {
  envelope_of_bytes e : opening_typed e → envelope_of (envelope_bytes e) = Some e;
}.

(** ** The code *)

Definition LENGTH_PREFIX_LEN : Z := 4.
Definition MAX_BODY_LEN : Z := 1024 * 1024.

Inductive frame_error : Type :=
| FrameTooLarge (body_len : Z)
| FrameClosed
| FrameIdle
| FrameIo (kind : io_kind)
| FrameDecode.

Definition body_len (prefix : list Z) : result frame_error Z :=
  let body_len := from_le prefix in
  if MAX_BODY_LEN <? body_len then Err (FrameTooLarge body_len) else Ok body_len.

(** One loop of reads into a buffer of [len] bytes, [filled] of which are in: the
    loop of [read_prefix], and that of [Read::read_exact] which reads the body.
    They differ in what the end of the stream and an expired wait mean.  Every
    turn uses an event of the script up or fills the buffer. *)
Fixpoint fill_buffer (eof wait : list Z → frame_error) (fuel : nat) (r : Reader)
    (filled : list Z) (len : Z) : Reader * result frame_error (list Z) :=
  if len <=? zlen filled then (r, Ok filled)
  else
    match fuel with
    | O => (r, Panic)
    | S fuel =>
        match read_once r (len - zlen filled) with
        | (Got [], r) => (r, Err (eof filled))
        | (Got bytes, r) => fill_buffer eof wait fuel r (filled ++ bytes) len
        | (Retry, r) => fill_buffer eof wait fuel r filled len
        | (NothingYet, r) => (r, Err (wait filled))
        | (Broken kind, r) => (r, Err (FrameIo (OtherKind kind)))
        end
    end.

Definition at_boundary (filled : list Z) : bool :=
  match filled with [] => true | _ => false end.

Definition read_prefix (r : Reader) : Reader * result frame_error (list Z) :=
  fill_buffer
    (λ filled, if at_boundary filled then FrameClosed else FrameIo UnexpectedEof)
    (λ filled, if at_boundary filled then FrameIdle else FrameIo TimedOut)
    (S (length (events r))) r [] LENGTH_PREFIX_LEN.

Definition read_exact (r : Reader) (len : Z) : Reader * result frame_error (list Z) :=
  fill_buffer (λ _, FrameIo UnexpectedEof) (λ _, FrameIo TimedOut)
    (S (length (events r))) r [] len.

Section codec.
Context `{EnvelopeCodec}.

Definition encode (e : Envelope) : result frame_error (list Z) :=
  let body := envelope_bytes e in
  if MAX_BODY_LEN <? zlen body then Err (FrameTooLarge (zlen body))
  else Ok (to_le 4 (zlen body) ++ body).

Definition decode (bytes : list Z) : result frame_error Envelope :=
  ok_or (envelope_of bytes) FrameDecode.

Definition frame_of_io (e : record_error) : frame_error :=
  match e with Io kind => FrameIo kind | _ => FrameIo (OtherKind 0) end.

Definition write (w : Writer) (e : Envelope) : Writer * result frame_error unit :=
  match encode e with
  | Err e => (w, Err e)
  | Panic => (w, Panic)
  | Ok bytes =>
      match write_all w bytes with
      | (w, Ok _) => (w, map_err frame_of_io (flush w))
      | (w, Err e) => (w, Err (frame_of_io e))
      | (w, Panic) => (w, Panic)
      end
  end.

Definition read (r : Reader) : Reader * result frame_error Envelope :=
  match read_prefix r with
  | (r, Err e) => (r, Err e)
  | (r, Panic) => (r, Panic)
  | (r, Ok prefix) =>
      match body_len prefix with
      | Err e => (r, Err e)
      | Panic => (r, Panic)
      | Ok len =>
          match read_exact r len with
          | (r, Err e) => (r, Err e)
          | (r, Panic) => (r, Panic)
          | (r, Ok bytes) => (r, decode bytes)
          end
      end
  end.
End codec.

(** ** What holds of any script *)

Lemma read_once_stream r room :
  0 < room →
  match read_once r room with
  | (Got bytes, r') => stream (events r) = bytes ++ stream (events r')
  | (_, r') => stream (events r') = stream (events r)
  end.
Proof.
  intros Hroom. destruct r as [[|[delay e] evs] now]; [done|].
  destruct e; cbn; try done. destruct (_ <=? _); cbn; [done|].
  by rewrite app_assoc, take_drop.
Qed.

Lemma fill_buffer_accounts eof wait fuel r filled len r' o :
  fill_buffer eof wait fuel r filled len = (r', o) → zlen filled <= Z.max 0 len →
  ∃ taken, stream (events r) = taken ++ stream (events r') ∧
    zlen filled + zlen taken <= Z.max 0 len ∧
    match o with
    | Ok bytes => bytes = filled ++ taken ∧ zlen bytes = Z.max 0 len
    | Err e => e = eof (filled ++ taken) ∨ e = wait (filled ++ taken) ∨
               ∃ kind, e = FrameIo (OtherKind kind)
    | Panic => True
    end.
Proof.
  revert r filled. induction fuel as [|fuel IH]; intros r filled H Hle; cbn [fill_buffer] in H;
    (destruct (len <=? zlen filled) eqn:El; bool_to_prop;
     [simplify_eq; exists []; rewrite app_nil_r; split_and!; try done; cbn; lia|]).
  { simplify_eq. exists []. split_and!; [done|cbn; lia|done]. }
  pose proof (read_once_stream r (len - zlen filled) ltac:(lia)) as Hst.
  pose proof (read_once_shrinks r (len - zlen filled)) as Hsh.
  destruct (read_once r (len - zlen filled)) as [[[|b got]| | |kind] r1].
  - simplify_eq. exists []. rewrite app_nil_r. split_and!; [done|cbn; lia|auto].
  - destruct Hsh as [Hroom _]. apply IH in H; [|rewrite length_app; lia].
    destruct H as (taken & Ht & Hlen & Ho). exists ((b :: got) ++ taken).
    rewrite Hst, Ht, !app_assoc. split; [done|].
    split; [rewrite length_app in *; lia|]. exact Ho.
  - apply IH in H; [|done]. by rewrite <- Hst.
  - simplify_eq. exists []. rewrite app_nil_r. split_and!; [done|cbn; lia|auto].
  - simplify_eq. exists []. split_and!; [done|cbn; lia|eauto].
Qed.

Lemma fill_buffer_no_panic eof wait fuel r filled len :
  (length (events r) < fuel)%nat → no_panic (fill_buffer eof wait fuel r filled len).2.
Proof.
  revert r filled. induction fuel as [|fuel IH]; intros r filled Hf; [lia|]. cbn [fill_buffer].
  destruct (len <=? zlen filled) eqn:El; [discriminate|]. bool_to_prop.
  pose proof (read_once_shrinks r (len - zlen filled)) as Hsh.
  destruct (read_once r (len - zlen filled)) as [[[|b got]| | |kind] r1];
    try discriminate; [|apply IH; lia].
  destruct Hsh as [Hle [Hfull|[Hlt|Hnil]]]; [| |done]; [|apply IH; lia].
  assert (E : (len <=? zlen (filled ++ b :: got)) = true) by (apply Z.leb_le; rewrite length_app; lia).
  destruct fuel; cbn [fill_buffer]; rewrite E; discriminate.
Qed.

Lemma at_boundary_nil l : at_boundary l = true → l = [].
Proof. by destruct l. Qed.

(** ** Transports that deliver *)

(** Bytes and interruptions only: the peer is in the middle of talking. *)
Definition steady (evs : list (Z * event)) : Prop :=
  Forall (λ '(delay, e), 0 <= delay ∧
    match e with Data bytes => bytes ≠ [] | Interrupted => True | _ => False end) evs.

Record reached (r r' : Reader) (n : Z) : Prop := {
  reached_steady : steady (events r');
  reached_stream : stream (events r') = drop (Z.to_nat n) (stream (events r));
}.

Lemma read_once_steady delay e evs now room :
  steady ((delay, e) :: evs) → 0 < room →
  match e with
  | Data bytes =>
      ∃ r', read_once (mk_reader ((delay, e) :: evs) now) room = (Got (take (Z.to_nat room) bytes), r') ∧
        take (Z.to_nat room) bytes ≠ [] ∧
        reached (mk_reader ((delay, e) :: evs) now) r' (Z.min room (zlen bytes)) ∧
        (zlen bytes <= room → events r' = evs)
  | _ => e = Interrupted ∧ steady evs
  end.
Proof.
  intros Hs Hroom. pose proof Hs as [[Hd He] Hst]%Forall_cons_1.
  destruct e as [bytes| | | |]; try done.
  unfold read_once. cbn [events clock]. destruct (zlen bytes <=? room) eqn:El; bool_to_prop.
  - eexists. rewrite take_ge by lia. split; [done|]. split; [done|]. split; [|done].
    split; cbn [events stream]; [done|].
    rewrite drop_app_ge by lia. replace (_ - _)%nat with 0%nat by lia. by rewrite drop_0.
  - eexists. split; [done|].
    split; [destruct bytes; [done|]; by destruct (Z.to_nat room) eqn:?; [lia|]|].
    split; [|lia]. split; cbn [events stream].
    + constructor; [|done]. split; [lia|]. intros Hnil%(f_equal length).
      rewrite length_drop in Hnil. cbn in Hnil. lia.
    + rewrite drop_app_le by lia. f_equal. f_equal. lia.
Qed.

Lemma fill_buffer_ok eof wait fuel r filled len :
  steady (events r) → zlen filled <= len <= zlen filled + zlen (stream (events r)) →
  (length (events r) < fuel)%nat →
  ∃ r', fill_buffer eof wait fuel r filled len
        = (r', Ok (filled ++ take (Z.to_nat (len - zlen filled)) (stream (events r)))) ∧
    reached r r' (len - zlen filled).
Proof.
  revert r filled. induction fuel as [|fuel IH]; intros [evs now] filled Hs Hlen Hf; [lia|].
  cbn [events] in *. cbn [fill_buffer]. destruct (len <=? zlen filled) eqn:E0; bool_to_prop.
  { replace (len - zlen filled) with 0 by lia. exists (mk_reader evs now).
    rewrite app_nil_r. split; [done|]. by split. }
  destruct evs as [|[delay e] evs]; [cbn in Hlen; lia|]. cbn [length] in Hf.
  pose proof (read_once_steady delay e evs now (len - zlen filled) Hs ltac:(lia)) as Hone.
  destruct e as [bytes| | | |]; try (by destruct Hone).
  - destruct Hone as (r1 & -> & Hne & [Hs1 Hst1] & Hev). cbn [events stream] in *.
    set (room := len - zlen filled) in *. rewrite length_app in Hlen.
    assert (Hlt : zlen (take (Z.to_nat room) bytes) = Z.min room (zlen bytes))
      by (rewrite length_take; lia).
    destruct (take (Z.to_nat room) bytes) as [|b got] eqn:Et; [done|]. rewrite <- Et in *.
    destruct (Z.le_gt_cases (zlen bytes) room) as [Hle|Hgt].
    + rewrite take_ge in * by lia. rewrite Z.min_r in Hst1 by lia.
      rewrite Nat2Z.id, drop_app_length in Hst1.
      destruct (IH r1 (filled ++ bytes)) as (r' & -> & [Hs2 Hst2]);
        [done|rewrite length_app, Hst1; lia|rewrite (Hev Hle); lia|].
      exists r'. rewrite Hst1, length_app in *. split.
      * rewrite take_app_ge, <- app_assoc by lia. subst room. repeat f_equal. lia.
      * split; [done|]. rewrite Hst2. cbn [events stream]. rewrite drop_app_ge by lia.
        f_equal. lia.
    + exists r1. rewrite Z.min_l in Hst1 by lia. split; [|by split].
      rewrite take_app_le by lia.
      assert (E1 : (len <=? zlen (filled ++ take (Z.to_nat room) bytes)) = true)
        by (apply Z.leb_le; rewrite length_app; lia).
      destruct fuel; cbn [fill_buffer]; by rewrite E1.
  - cbn [read_once events clock].
    destruct (IH (mk_reader evs (now + delay)) filled) as (r' & -> & Hr);
      cbn [events stream] in *; [by destruct Hone|done|lia|].
    exists r'. split; [done|]. destruct Hr as [? Hst]. by split.
Qed.
Section properties.
Context `{Codec : EnvelopeCodec}.

Lemma read_prefix_accounts r r' o :
  read_prefix r = (r', o) →
  no_panic o ∧
  ∃ taken, stream (events r) = taken ++ stream (events r') ∧ zlen taken <= LENGTH_PREFIX_LEN ∧
    (∀ prefix, o = Ok prefix → prefix = taken ∧ zlen taken = LENGTH_PREFIX_LEN) ∧
    (∀ e, o = Err e → (e = FrameIdle ∨ e = FrameClosed) → taken = []) ∧
    (∀ n, o ≠ Err (FrameTooLarge n)).
Proof.
  intros E. unfold read_prefix in E. split.
  { intros ->. eapply fill_buffer_no_panic; [|by rewrite E]. lia. }
  apply fill_buffer_accounts in E as (taken & Ht & Hlen & Ho); [|cbn; lia].
  exists taken. cbn [length app] in *. split; [done|]. unfold LENGTH_PREFIX_LEN in *.
  split; [lia|]. destruct o as [prefix|e|]; [|split_and!..].
  - destruct Ho as [-> Hl]. split_and!; [|done..]. intros ? [= <-]. split; [done|lia].
  - done.
  - intros ? [= <-] He. apply at_boundary_nil.
    destruct Ho as [->|[->|[kind ->]]], He; try done; by destruct (at_boundary taken).
  - intros n [= ->]. by destruct Ho as [Ho|[Ho|[kind Ho]]]; try done; destruct (at_boundary taken).
  - done.
  - done.
  - done.
Qed.

(** What one read took off the stream, by what it came back with. *)
Lemma read_accounts (r r' : Reader) (o : result frame_error Envelope) :
  read r = (r', o) →
  no_panic o ∧
  ∃ taken, stream (events r) = taken ++ stream (events r') ∧
    zlen taken <= LENGTH_PREFIX_LEN + MAX_BODY_LEN ∧
    match o with
    | Ok e => ∃ prefix bytes, taken = prefix ++ bytes ∧ zlen prefix = LENGTH_PREFIX_LEN ∧
        zlen bytes = Z.max 0 (from_le prefix) ∧ envelope_of bytes = Some e
    | Err FrameIdle | Err FrameClosed => taken = []
    | Err (FrameTooLarge n) =>
        zlen taken = LENGTH_PREFIX_LEN ∧ n = from_le taken ∧ MAX_BODY_LEN < n
    | _ => True
    end.
Proof.
  intros H. unfold read in H. destruct (read_prefix r) as [r1 p] eqn:Ep.
  apply read_prefix_accounts in Ep as (Hnp & taken & Ht & Hlen & Hok & Herr & Hnl).
  destruct p as [prefix|e|]; [| |done].
  - destruct (Hok prefix eq_refl) as [-> Hl]. unfold body_len in H.
    destruct (_ <? _) eqn:Emax; bool_to_prop.
    { simplify_eq. split; [discriminate|]. exists taken. split; [done|].
      split; [unfold MAX_BODY_LEN; lia|done]. }
    destruct (read_exact r1 _) as [r2 b] eqn:Eb. unfold read_exact in Eb.
    assert (Hnp2 : no_panic b).
    { intros ->. eapply fill_buffer_no_panic; [|by rewrite Eb]. lia. }
    apply fill_buffer_accounts in Eb as (got & Hg & Hgl & Ho); [|cbn; lia]. cbn [length app] in *.
    assert (Hsum : zlen (taken ++ got) <= LENGTH_PREFIX_LEN + MAX_BODY_LEN)
      by (unfold MAX_BODY_LEN in *; rewrite length_app; lia).
    destruct b as [bytes|e|]; [| |done]; simplify_eq; (split; [unfold decode; auto with vm|]);
      exists (taken ++ got); rewrite Ht, Hg, app_assoc; (split; [done|split; [done|]]).
    + destruct Ho as [-> Hb]. unfold decode. destruct (envelope_of got) eqn:Ed; cbn; [|done].
      by exists taken, got.
    + by destruct Ho as [->|[->|[kind ->]]].
  - simplify_eq. split; [discriminate|]. exists taken. split; [done|].
    split; [unfold MAX_BODY_LEN; lia|].
    destruct e; try done; [by destruct (Hnl body_len0)|by apply (Herr FrameClosed); auto..|].
    by apply (Herr FrameIdle); auto.
Qed.

Lemma encode_inv e bytes :
  encode e = Ok bytes →
  zlen (envelope_bytes e) <= MAX_BODY_LEN ∧
  bytes = to_le 4 (zlen (envelope_bytes e)) ++ envelope_bytes e.
Proof. unfold encode. intros H. case_ifs. by simplify_eq. Qed.

(** A frame on a steady stream, in whatever pieces, and what is left. *)
Lemma read_frame r e bytes rest :
  envelope_of (envelope_bytes e) = Some e → encode e = Ok bytes →
  steady (events r) → stream (events r) = bytes ++ rest →
  ∃ r', read r = (r', Ok e) ∧ steady (events r') ∧ stream (events r') = rest.
Proof.
  intros Hrt [Hmax ->]%encode_inv Hs Hst. unfold read, read_prefix.
  set (body := envelope_bytes e) in *. set (prefix := to_le 4 (zlen body)) in *.
  assert (Hpl : zlen prefix = 4) by done. rewrite <- app_assoc in Hst.
  destruct (fill_buffer_ok
      (λ filled, if at_boundary filled then FrameClosed else FrameIo UnexpectedEof)
      (λ filled, if at_boundary filled then FrameIdle else FrameIo TimedOut)
      (S (length (events r))) r [] LENGTH_PREFIX_LEN) as (r1 & -> & [Hs1 Hst1]);
    [done|cbn [length]; rewrite Hst, length_app; unfold LENGTH_PREFIX_LEN; lia|lia|].
  cbn [app length] in *. rewrite Hst in *.
  change (Z.to_nat (LENGTH_PREFIX_LEN - Z.of_nat 0)) with (length prefix) in *.
  rewrite take_app_length. rewrite drop_app_length in Hst1.
  unfold body_len, prefix. rewrite from_le_to_le_u32 by (unfold is_u32, MAX_BODY_LEN in *; lia).
  replace (_ <? zlen body) with false by (symmetry; apply Z.ltb_ge; lia).
  unfold read_exact.
  destruct (fill_buffer_ok (λ _, FrameIo UnexpectedEof) (λ _, FrameIo TimedOut)
      (S (length (events r1))) r1 [] (zlen body)) as (r2 & -> & [Hs2 Hst2]);
    [done|cbn [length]; rewrite Hst1, length_app; lia|lia|].
  cbn [app length] in *. rewrite Hst1 in *.
  replace (Z.to_nat (zlen body - Z.of_nat 0)) with (length body) in * by lia.
  rewrite take_app_length. rewrite drop_app_length in Hst2.
  exists r2. unfold decode. by rewrite Hrt.
Qed.
End properties.

(** What [write] puts on an unbounded sink. *)
Lemma write_ok `{EnvelopeCodec} w e bytes :
  encode e = Ok bytes → room w = None → flushes w = true →
  write w e = (mk_writer (written w ++ bytes) None true, Ok tt).
Proof.
  intros He Hr Hf. unfold write, write_all, flush. rewrite He, Hr. cbn [flushes].
  by rewrite Hf.
Qed.

(** ** A connection

    The two halves of the stream a session owns.  A session's code runs in a
    monad of them and of its failure. *)

Record Conn : Type := mk_conn { reader : Reader; writer : Writer }.

Definition IO (E A : Type) : Type := Conn → Conn * result E A.

Definition done {E A} (a : A) : IO E A := λ c, (c, Ok a).
Definition fail {E A} (e : E) : IO E A := λ c, (c, Err e).
Definition from_result {E A} (r : result E A) : IO E A := λ c, (c, r).
Definition andthen {E A B} (m : IO E A) (k : A → IO E B) : IO E B :=
  λ c, match m c with
       | (c, Ok a) => k a c
       | (c, Err e) => (c, Err e)
       | (c, Panic) => (c, Panic)
       end.

Notation "'let*' x ':=' m 'in' k" := (andthen m (fun x => k))
  (at level 10, x pattern, m at level 100, k at level 200,
   format "'[v' 'let*'  x  ':='  m  'in' '/' k ']'") : vm_scope.

Section io.
Context `{Codec : EnvelopeCodec} {E : Type} (frame : frame_error → E).

(** [frame::read(..).map_err(SessionError::Frame)], and the same of [write]. *)
Definition receive : IO E Envelope := λ c,
  let '(r, o) := read (reader c) in (mk_conn r (writer c), map_err frame o).
Definition send (e : Envelope) : IO E unit := λ c,
  let '(w, o) := write (writer c) e in (mk_conn (reader c) w, map_err frame o).
End io.

(** ** What a stream of frames is *)

(** The bytes of some frames, one after the other. *)
Inductive framed `{EnvelopeCodec} : list Z → list Envelope → Prop :=
| framed_nil : framed [] []
| framed_cons prefix bytes e rest es :
    zlen prefix = LENGTH_PREFIX_LEN → zlen bytes = Z.max 0 (from_le prefix) →
    envelope_of bytes = Some e → framed rest es →
    framed (prefix ++ bytes ++ rest) (e :: es).

(** What a connection had read and written, when it succeeded, between two moments. *)
Record exchanged `{EnvelopeCodec} (c c' : Conn) (heard said : list Envelope) : Prop := {
  exchanged_heard : ∃ bytes, stream (events (reader c)) = bytes ++ stream (events (reader c')) ∧
    framed bytes heard;
  exchanged_said : ∃ frames, mapM (λ e, match encode e with Ok b => Some b | _ => None end) said
      = Some frames ∧ written (writer c') = written (writer c) ++ concat frames;
}.

Section exchanges.
Context `{Codec : EnvelopeCodec}.

Lemma framed_app b1 es1 b2 es2 : framed b1 es1 → framed b2 es2 → framed (b1 ++ b2) (es1 ++ es2).
Proof.
  induction 1; intros; [done|]. cbn [app]. rewrite <- !app_assoc. constructor; auto.
Qed.

Lemma exchanged_refl c : exchanged c c [] [].
Proof. split; [exists []; split; [done|constructor]|exists []; by rewrite app_nil_r]. Qed.

Lemma exchanged_trans c1 c2 c3 h1 s1 h2 s2 :
  exchanged c1 c2 h1 s1 → exchanged c2 c3 h2 s2 → exchanged c1 c3 (h1 ++ h2) (s1 ++ s2).
Proof.
  intros [(b1 & Hb1 & F1) (f1 & Hf1 & W1)] [(b2 & Hb2 & F2) (f2 & Hf2 & W2)]. split.
  - exists (b1 ++ b2). rewrite Hb1, Hb2, app_assoc. split; [done|]. by apply framed_app.
  - exists (f1 ++ f2). rewrite W2, W1, concat_app, app_assoc. split; [|done].
    apply mapM_Some. apply Forall2_app; by apply mapM_Some.
Qed.

Lemma receive_exchanged {E} (frame : frame_error → E) c c' e :
  receive frame c = (c', Ok e) → exchanged c c' [e] [].
Proof.
  unfold receive. destruct (read (reader c)) as [r o] eqn:Er. intros H.
  destruct o; cbn [map_err] in H; simplify_eq.
  apply read_accounts in Er as (_ & taken & Ht & _ & prefix & bytes & -> & Hp & Hb & He).
  split; cbn [reader writer]; [|exists []; by rewrite app_nil_r].
  exists (prefix ++ bytes). split; [done|]. rewrite <- (app_nil_r bytes).
  by constructor; [..|constructor].
Qed.

Lemma write_inv w e w' :
  write w e = (w', Ok tt) → ∃ bytes, encode e = Ok bytes ∧ written w' = written w ++ bytes.
Proof.
  unfold write. destruct (encode e) as [bytes| |]; [|done..]. intros H. exists bytes.
  split; [done|]. unfold write_all in H. destruct (room w) as [n|].
  - destruct (_ <=? n); [|done]. by destruct (flush _); simplify_eq.
  - by destruct (flush _); simplify_eq.
Qed.

Lemma send_exchanged {E} (frame : frame_error → E) e c c' u :
  send frame e c = (c', Ok u) → exchanged c c' [] [e].
Proof.
  unfold send. destruct (write (writer c) e) as [w o] eqn:Ew. intros H.
  destruct o as [[]| |]; cbn [map_err] in H; simplify_eq.
  apply write_inv in Ew as (bytes & He & Hw).
  split; cbn [reader writer]; [exists []; split; [done|constructor]|].
  exists [bytes]. cbn. by rewrite He, app_nil_r.
Qed.

(** A read that may be tried again used an event of the script up. *)
Lemma fill_buffer_shrinks eof wait fuel r filled len r' o :
  fill_buffer eof wait fuel r filled len = (r', o) →
  (length (events r') <= length (events r))%nat.
Proof.
  revert r filled. induction fuel as [|fuel IH]; intros r filled H; cbn [fill_buffer] in H;
    (destruct (len <=? zlen filled); [by simplify_eq|]); [by simplify_eq|].
  assert (Hle : (length (events (read_once r (len - zlen filled)).2) <= length (events r))%nat).
  { destruct r as [[|[delay []] evs] now]; cbn; try lia. by case_if; cbn; lia. }
  destruct (read_once r _) as [[[|b got]| | |kind] r1]; cbn [snd] in Hle; simplify_eq; try lia;
    apply IH in H; lia.
Qed.

Lemma fill_buffer_waited eof wait fuel r filled len r' e :
  fill_buffer eof wait fuel r filled len = (r', Err e) → (∀ f, eof f ≠ e) →
  (∀ kind, e ≠ FrameIo (OtherKind kind)) →
  (length (events r') < length (events r))%nat.
Proof.
  revert r filled. induction fuel as [|fuel IH]; intros r filled H Heof Hio; cbn [fill_buffer] in H;
    (destruct (len <=? zlen filled); [by simplify_eq|]); [by simplify_eq|].
  pose proof (read_once_shrinks r (len - zlen filled)) as Hsh.
  assert (Hle : (length (events (read_once r (len - zlen filled)).2) <= length (events r))%nat).
  { destruct r as [[|[delay []] evs] now]; cbn; try lia. by case_if; cbn; lia. }
  destruct (read_once r _) as [[[|b got]| | |kind] r1]; cbn [snd] in Hle.
  - simplify_eq. by destruct (Heof filled).
  - apply IH in H; [lia|done..].
  - apply IH in H; [lia|done..].
  - by simplify_eq.
  - simplify_eq. by destruct (Hio kind).
Qed.

Lemma read_idle_shrinks r r' :
  read r = (r', Err FrameIdle) → (length (events r') < length (events r))%nat.
Proof.
  unfold read, read_prefix. destruct (fill_buffer _ _ _ r _ _) as [r1 [prefix|e|]] eqn:Ep; [| |done].
  - destruct (body_len prefix) as [n|e|] eqn:En; [|unfold body_len in En; case_ifs; by simplify_eq|done].
    unfold read_exact. destruct (fill_buffer _ _ _ r1 _ _) as [r2 [bytes|e|]] eqn:Eb; [| |done].
    + unfold decode. by destruct (envelope_of bytes).
    + intros [= <- ->]. apply fill_buffer_accounts in Eb as (_ & _ & _ & H); [|cbn; lia].
      by destruct H as [?|[?|[? ?]]].
  - intros [= <- ->]. eapply fill_buffer_waited; [done| |done].
    cbv beta. intros f. by destruct (at_boundary f).
Qed.

Lemma read_frame_shrinks r r' e :
  read r = (r', Ok e) → (length (stream (events r')) < length (stream (events r)))%nat.
Proof.
  intros H. apply read_accounts in H as (_ & taken & -> & _ & prefix & bytes & -> & Hp & _).
  unfold LENGTH_PREFIX_LEN in Hp. rewrite !length_app. lia.
Qed.

Lemma frame_read_no_panic r : no_panic (read r).2.
Proof. destruct (read r) as [r' o] eqn:E. by apply read_accounts in E as [? _]. Qed.

Lemma receive_no_panic {E} (frame : frame_error → E) c : no_panic (receive frame c).2.
Proof.
  unfold receive. pose proof (frame_read_no_panic (reader c)) as H.
  destruct (read (reader c)) as [r [a|e|]]; try discriminate. done.
Qed.

Lemma write_no_panic w e : no_panic (write w e).2.
Proof.
  unfold write, encode. case_if; [discriminate|].
  unfold write_all, flush. destruct (room w) as [n|]; [destruct (_ <=? n)|];
    cbn [flushes]; try destruct (flushes w); discriminate.
Qed.

Lemma send_no_panic {E} (frame : frame_error → E) e c : no_panic (send frame e c).2.
Proof.
  unfold send. pose proof (write_no_panic (writer c) e) as H.
  destruct (write (writer c) e) as [w [a|er|]]; try discriminate. done.
Qed.

Lemma andthen_no_panic {E A B} (m : IO E A) (k : A → IO E B) c :
  no_panic (m c).2 → (∀ a c', m c = (c', Ok a) → no_panic (k a c').2) →
  no_panic (andthen m k c).2.
Proof. unfold andthen. destruct (m c) as [c' [a|e|]]; [eauto|discriminate|done]. Qed.
End exchanges.
