(* ===== verification/AgentHost.v ===== *)
(** * How the host opens an agent's session

    [crates/platform/src/agent_session.rs] up to an open session: the hello, the
    challenge, and what is refused before the guest has proved that it holds the
    VM's secret.  [Instant::now] is the reader's clock, the nonce that
    [Nonce::generate] draws an argument, and a build of the host its two
    constants.  Logging is left out. *)

From stdpp Require Import strings pretty.
From S2P Require Import Prelude.
From S2P Require Import Record.
From S2P Require Import AgentProto.
From S2P Require Import AgentFrame.

(** ** Data *)

(** What a build was compiled with: the revision of the schema it implements and
    what it announces beyond it. *)
Record Build : Type := mk_build {
  build_version : ProtocolVersion; build_capabilities : list Capability }.

Definition HOST_CAPABILITIES : list Capability := [Gpu; Display].
Definition this_host : Build := mk_build CURRENT_VERSION HOST_CAPABILITIES.

(** Milliseconds. *)
Definition OPEN_TIMEOUT : Z := 30000.
Definition REPLACEMENT_OPEN_TIMEOUT : Z := 5000.

Definition CHALLENGE_REQUEST_ID : Z := 1.

Inductive host_error : Type :=
| HostFrame (e : frame_error)
| HostVersion (m : VersionMismatch)
| HostUnauthenticated
| HostRefused (code : ErrorCode) (message : string)
| HostOutOfOrder (what : string)
| HostMalformed (what : string)
| HostUnresponsive
| HostOpeningTimedOut.

Record AgentSession : Type := mk_agent_session {
  version : ProtocolVersion; capabilities : list Capability; agent_build : string }.

Inductive host_body : Type :=
| HostRequest (kind : request_kind)
| HostResponse (kind : response_kind).

(** ** The code *)

Definition body_of (e : Envelope) : result host_error host_body :=
  match body e with
  | Some (RequestBody kind) =>
      ok_or (HostRequest <$> kind) (HostMalformed "a request with no kind this build knows")
  | Some (ResponseBody kind) =>
      ok_or (HostResponse <$> kind) (HostMalformed "a response with no kind this build knows")
  | None => Err (HostMalformed "an envelope with no body at all")
  end.

(** [WrongLength::fmt]. *)
Definition wrong_length_text (e : WrongLength) : string :=
  let '(what, len) := match e with NonceLength len => ("nonce", len) | TagLength len => ("tag", len) end in
  ("the peer sent a " +:+ pretty len +:+ "-byte " +:+ what
    +:+ ", and this protocol's is 32 bytes")%string.

Section opening.
Context `{Codec : EnvelopeCodec} (hmac_sha256 : list Z → list Z → list Z).
Context (build : Build).

(** The loop of [read_opening_frame]; every turn that comes round uses an event of
    the script up.  A script is finite, and its end is a peer that hung up: what a
    silent peer can hold the loop for is bounded by the clock below, not by that. *)
Fixpoint opening_loop (fuel : nat) (deadline : Z) : IO host_error Envelope := λ c,
  match fuel with
  | O => (c, Panic)
  | S fuel =>
      match read (reader c) with
      | (r, Ok envelope) => (mk_conn r (writer c), Ok envelope)
      | (r, Err FrameIdle) =>
          if clock r <? deadline then opening_loop fuel deadline (mk_conn r (writer c))
          else (mk_conn r (writer c), Err HostOpeningTimedOut)
      | (r, Err e) => (mk_conn r (writer c), Err (HostFrame e))
      | (r, Panic) => (mk_conn r (writer c), Panic)
      end
  end.

Definition read_opening_frame (deadline : Z) : IO host_error Envelope := λ c,
  opening_loop (S (length (events (reader c)))) deadline c.

Definition greet (deadline : Z) : IO host_error AgentSession :=
  let* envelope := read_opening_frame deadline in
  let* b := from_result (body_of envelope) in
  match b with
  | HostRequest (HelloRequestK hello) =>
      let remote := version_or_default (hello_version hello) in
      match negotiate_version (build_version build) remote with
      | Ok version =>
          let capabilities :=
            agreed_capabilities (build_capabilities build) (hello_capabilities hello) in
          let* _ := send HostFrame (response (request_id envelope)
            (HelloResponseK (mk_hello_response (Some version) (map capability_wire capabilities)))) in
          done (mk_agent_session version capabilities (agent_version hello))
      | Err mismatch =>
          let* _ := send HostFrame
            (error (request_id envelope) UnsupportedVersion (mismatch_text mismatch)) in
          fail (HostVersion mismatch)
      | Panic => from_result Panic
      end
  | _ =>
      let* _ := send HostFrame
        (error (request_id envelope) Unauthenticated "this session has not said hello yet") in
      fail (HostOutOfOrder "the agent sent something other than a hello to open its session")
  end.

(** What a request is told while the challenge is unanswered. *)
Definition opening_refusal (id : Z) (kind : request_kind) : Envelope :=
  if allowed_unauthenticated kind
  then error id InvalidArgument
    "this session is already open and waiting for its challenge to be answered"
  else error id Unauthenticated "this session has not answered its challenge yet".

(** The loop of [authenticate]; every turn takes a frame off the stream. *)
Fixpoint answer_loop (fuel : nat) (secret nonce : list Z) (deadline : Z) : IO host_error unit :=
  match fuel with
  | O => from_result Panic
  | S fuel =>
      let* envelope := read_opening_frame deadline in
      let* b := from_result (body_of envelope) in
      match b with
      | HostRequest kind =>
          let* _ := send HostFrame (opening_refusal (request_id envelope) kind) in
          answer_loop fuel secret nonce deadline
      | HostResponse kind =>
          if negb (request_id envelope =? CHALLENGE_REQUEST_ID)
          then fail (HostOutOfOrder "the agent answered a request VMLord never sent")
          else
            match kind with
            | AuthenticateResponseK answer =>
                let* answer := from_result
                  (map_err (λ e, HostMalformed (wrong_length_text e)) (tag_from_wire answer)) in
                if verify hmac_sha256 secret nonce answer then done tt else fail HostUnauthenticated
            | ErrorK code message => fail (HostRefused (error_code code) message)
            | _ => fail (HostOutOfOrder "the agent answered the challenge with something else")
            end
      end
  end.

Definition authenticate (secret nonce : list Z) (deadline : Z) : IO host_error unit :=
  let* _ := send HostFrame (request CHALLENGE_REQUEST_ID (AuthenticateRequestK nonce)) in
  λ c, answer_loop (S (length (stream (events (reader c))))) secret nonce deadline c.

Definition open_with_timeout (secret nonce : list Z) (timeout : Z) : IO host_error AgentSession :=
  λ c,
    let deadline := clock (reader c) + timeout in
    (let* session := greet deadline in
     let* _ := authenticate secret nonce deadline in
     done session) c.
End opening.

(** [open] and [open_replacement]. *)
Definition open `{EnvelopeCodec} hmac (secret nonce : list Z) : IO host_error AgentSession :=
  open_with_timeout hmac this_host secret nonce OPEN_TIMEOUT.
Definition open_replacement `{EnvelopeCodec} hmac (secret nonce : list Z)
    : IO host_error AgentSession :=
  open_with_timeout hmac this_host secret nonce REPLACEMENT_OPEN_TIMEOUT.

(** ** It takes no more turns than the script has events *)

Section ending.
Context `{Codec : EnvelopeCodec} (hmac_sha256 : list Z → list Z → list Z).
Context (build : Build).

Lemma opening_loop_no_panic fuel deadline c :
  (length (events (reader c)) < fuel)%nat → no_panic (opening_loop fuel deadline c).2.
Proof.
  revert c. induction fuel as [|fuel IH]; intros c Hf; [lia|]. cbn [opening_loop].
  pose proof (frame_read_no_panic (reader c)) as Hnp.
  destruct (read (reader c)) as [r [e|e|]] eqn:Er; [discriminate| |done].
  destruct e; try discriminate. case_if; [|discriminate].
  apply IH. cbn [reader]. apply read_idle_shrinks in Er. lia.
Qed.

Lemma read_opening_frame_no_panic deadline c : no_panic (read_opening_frame deadline c).2.
Proof. apply opening_loop_no_panic. lia. Qed.

(** A frame it returns was read, after some waits. *)
Lemma opening_loop_inv fuel deadline c c' e :
  opening_loop fuel deadline c = (c', Ok e) →
  exchanged c c' [e] [] ∧
  (length (stream (events (reader c'))) < length (stream (events (reader c))))%nat.
Proof.
  revert c. induction fuel as [|fuel IH]; intros c H; [done|]. cbn [opening_loop] in H.
  destruct (read (reader c)) as [r [env|er|]] eqn:Er; [| |done].
  - simplify_eq. split; [|by eapply read_frame_shrinks].
    apply (receive_exchanged HostFrame). unfold receive. by rewrite Er.
  - destruct er; try done. case_if; [|done].
    apply read_accounts in Er as (_ & taken & Ht & _ & ->). cbn [app] in Ht.
    apply IH in H as [[(bytes & Hb & Hf) Hsaid] Hlen]. cbn [reader writer] in *.
    rewrite Ht. split; [|done]. split; [by exists bytes; rewrite Ht|done].
Qed.

Lemma body_of_no_panic e : no_panic (body_of e).
Proof. unfold body_of. destruct (body e) as [[]|]; [auto with vm..|discriminate]. Qed.

Lemma answer_loop_no_panic fuel secret nonce deadline c :
  (length (stream (events (reader c))) < fuel)%nat →
  no_panic (answer_loop hmac_sha256 fuel secret nonce deadline c).2.
Proof.
  revert c. induction fuel as [|fuel IH]; intros c Hf; [lia|]. cbn [answer_loop].
  apply andthen_no_panic; [apply read_opening_frame_no_panic|]. intros envelope c1 H1.
  apply opening_loop_inv in H1 as [_ Hlen].
  apply andthen_no_panic; [apply body_of_no_panic|]. intros b c2 [= <- Hb].
  destruct b as [kind|kind].
  - apply andthen_no_panic; [apply send_no_panic|]. intros [] c3 H3. apply IH.
    unfold send in H3. destruct (write _ _) as [w o]. simplify_eq. cbn [reader]. lia.
  - case_if; [discriminate|]. destruct kind; try discriminate.
    apply andthen_no_panic.
    { unfold from_result, tag_from_wire. cbn. case_if; discriminate. }
    intros answer c4 _. case_if; discriminate.
Qed.

Lemma greet_no_panic deadline c : no_panic (greet build deadline c).2.
Proof.
  unfold greet. apply andthen_no_panic; [apply read_opening_frame_no_panic|]. intros e c1 _.
  apply andthen_no_panic; [apply body_of_no_panic|]. intros b c2 _.
  assert (Hrefuse : ∀ env err, no_panic ((let* _ := send HostFrame env in
    fail (A:=AgentSession) err) c2).2).
  { intros. apply andthen_no_panic; [apply send_no_panic|]. discriminate. }
  destruct b as [[]|]; try apply Hrefuse.
  unfold negotiate_version. case_if; [apply Hrefuse|].
  apply andthen_no_panic; [apply send_no_panic|]. discriminate.
Qed.

Lemma open_no_panic secret nonce timeout (c : Conn) :
  no_panic (open_with_timeout hmac_sha256 build secret nonce timeout c).2.
Proof.
  unfold open_with_timeout. apply andthen_no_panic; [apply greet_no_panic|].
  intros session c1 _. apply andthen_no_panic; [|discriminate].
  unfold authenticate. apply andthen_no_panic; [apply send_no_panic|].
  intros [] c2 _. apply answer_loop_no_panic. lia.
Qed.
End ending.

(** ** A peer that falls silent *)

(** A wait of a poll's length that brought nothing. *)
Definition silent_wait (poll : Z) (e : Z * event) : Prop := e.2 = NotYet ∧ 0 <= e.1 <= poll.

(** What is still to be heard comes before [by_then]; after it there is silence. *)
Definition falls_silent (poll by_then : Z) (r : Reader) : Prop :=
  ∃ heard silence, events r = heard ++ silence ∧ Forall (λ e, 0 <= e.1) heard ∧
    Forall (silent_wait poll) silence ∧ clock r + total_delay heard <= by_then.

(** One wait of the silence may have gone by on top of that. *)
Definition waited (poll by_then : Z) (r : Reader) : Prop :=
  falls_silent poll by_then r ∨ Forall (silent_wait poll) (events r) ∧ clock r <= by_then + poll.

Section silence.
Context `{Codec : EnvelopeCodec} (hmac_sha256 : list Z → list Z → list Z).
Context (build : Build) (poll by_then : Z).
Hypothesis Hpoll : 0 <= poll.

Lemma delays_nonneg evs : Forall (λ e : Z * event, 0 <= e.1) evs → 0 <= total_delay evs.
Proof. clear Hpoll. induction 1 as [|[d e] evs Hd _ IH]; cbn in *; lia. Qed.

Lemma waited_clock r : waited poll by_then r → clock r <= by_then + poll.
Proof using Hpoll.
  intros [(heard & silence & _ & Hh & _ & Hc)|[_ ?]]; [|done]. pose proof (delays_nonneg heard Hh). lia.
Qed.

Lemma read_once_silent r room :
  falls_silent poll by_then r →
  match read_once r room with
  | (NothingYet, r') => waited poll by_then r'
  | (_, r') => falls_silent poll by_then r'
  end.
Proof using Hpoll.
  destruct r as [evs now]. intros (heard & silence & E & Hh & Hs & Hc). cbn in E, Hc. subst evs.
  destruct heard as [|[delay e] heard].
  - destruct silence as [|[delay e] silence]; cbn.
    + by exists [], [].
    + apply list.Forall_cons in Hs as [[He Hd] Hs]. cbn in *. subst e. right. cbn. split; [done|lia].
  - apply list.Forall_cons in Hh as [Hd Hh]. cbn in Hd, Hc. cbn.
    assert (Hrest : falls_silent poll by_then (mk_reader (heard ++ silence) (now + delay)))
      by (exists heard, silence; cbn; split_and!; [done..|lia]).
    destruct e as [bytes| | | |kind]; try exact Hrest; [|by left]. case_if; [exact Hrest|].
    eexists ((0, _) :: heard), silence. cbn. split_and!; [done|by constructor|done|lia].
Qed.

Lemma fill_buffer_silent eof wait fuel r filled len r' o :
  fill_buffer eof wait fuel r filled len = (r', o) → falls_silent poll by_then r →
  waited poll by_then r' ∧ (∀ bytes, o = Ok bytes → falls_silent poll by_then r').
Proof using Hpoll.
  revert r filled. induction fuel as [|fuel IH]; intros r filled H Hr; cbn [fill_buffer] in H;
    (case_if; [simplify_eq; split; [by left|done]|]); [simplify_eq; split; [by left|done]|].
  pose proof (read_once_silent r (len - zlen filled) Hr) as H1.
  destruct (read_once r (len - zlen filled)) as [[[|b got]| | |kind] r1]; eauto; simplify_eq;
    (split; [|done]); first [exact H1|by left].
Qed.

Lemma read_silent r r' o :
  read r = (r', o) → falls_silent poll by_then r →
  waited poll by_then r' ∧ (∀ e, o = Ok e → falls_silent poll by_then r').
Proof using Hpoll.
  unfold read, read_prefix, read_exact. intros H Hr.
  destruct (fill_buffer _ _ _ r _ _) as [r1 [prefix|e|]] eqn:Ep;
    apply fill_buffer_silent in Ep as [Hw Hf]; try done; [|simplify_eq; split; [done|done]..].
  specialize (Hf _ eq_refl). destruct (body_len prefix) as [n|e|]; [|simplify_eq; split; [done|done]..].
  destruct (fill_buffer _ _ _ r1 _ _) as [r2 [bytes|e|]] eqn:Eb;
    apply fill_buffer_silent in Eb as [Hw' Hf']; try done; simplify_eq; (split; [done|]); eauto; done.
Qed.

(** An operation that hears no more than that. *)
Definition listens {E A} (m : IO E A) : Prop :=
  ∀ c, falls_silent poll by_then (reader c) →
    waited poll by_then (reader (m c).1) ∧ (∀ a, (m c).2 = Ok a → falls_silent poll by_then (reader (m c).1)).

Lemma listens_andthen {E A B} (m : IO E A) (k : A → IO E B) :
  listens m → (∀ a, listens (k a)) → listens (andthen m k).
Proof using.
  intros Hm Hk c Hc. unfold andthen. specialize (Hm c Hc) as [Hw Hf].
  destruct (m c) as [c1 [a|e|]]; cbn in *; [|by split..]. by apply Hk, (Hf a).
Qed.

Lemma listens_result {E A} (r : result E A) : listens (from_result r).
Proof using. intros c Hc. split; [by left|done]. Qed.

Lemma listens_send {E} f e : listens (E := E) (send f e).
Proof using. intros c Hc. unfold send. destruct (write _ _) as [w o]. split; [by left|done]. Qed.

Lemma opening_loop_listens fuel deadline : deadline <= by_then → listens (opening_loop fuel deadline).
Proof using Hpoll.
  intros Hd. induction fuel as [|fuel IH]; intros c Hc; cbn [opening_loop]; [by split; [left|]|].
  destruct (read (reader c)) as [r o] eqn:Er. apply read_silent in Er as [Hw Hf]; [|done].
  destruct o as [e|e|]; cbn; [split; eauto| |by split]. destruct e; try by split.
  destruct (clock r <? deadline) eqn:El; [|by split]. bool_to_prop. apply IH. cbn.
  destruct Hw as [?|[Hs Hck]]; [done|]. exists [], (events r). cbn. split_and!; [done..|lia].
Qed.

Lemma answer_loop_listens fuel secret nonce deadline :
  deadline <= by_then → listens (answer_loop hmac_sha256 fuel secret nonce deadline).
Proof using Hpoll.
  intros Hd. induction fuel as [|fuel IH]; cbn [answer_loop]; [apply listens_result|].
  apply listens_andthen; [intros c; by apply opening_loop_listens|]. intros envelope.
  apply listens_andthen; [apply listens_result|]. intros [kind|kind].
  - apply listens_andthen; [apply listens_send|]. by intros _.
  - case_if; [apply (listens_result (Err _))|]. destruct kind; try apply (listens_result (Err _)).
    apply listens_andthen; [apply listens_result|]. intros answer.
    case_if; [apply (listens_result (Ok _))|apply (listens_result (Err _))].
Qed.

Lemma greet_listens deadline : deadline <= by_then → listens (greet build deadline).
Proof using Hpoll.
  intros Hd. unfold greet. apply listens_andthen; [intros c; by apply opening_loop_listens|]. intros envelope.
  apply listens_andthen; [apply listens_result|].
  assert (Hrefuse : ∀ env err, listens (A := AgentSession) (let* _ := send HostFrame env in fail err)).
  { intros. apply listens_andthen; [apply listens_send|]. intros _. apply (listens_result (Err _)). }
  intros [[]|]; try apply Hrefuse. destruct (negotiate_version _ _); [|apply Hrefuse|apply listens_result].
  apply listens_andthen; [apply listens_send|]. intros _. apply (listens_result (Ok _)).
Qed.

Lemma authenticate_listens secret nonce deadline :
  deadline <= by_then → listens (authenticate hmac_sha256 secret nonce deadline).
Proof using Hpoll.
  intros Hd. unfold authenticate. apply listens_andthen; [apply listens_send|].
  intros _ c. by apply answer_loop_listens.
Qed.
End silence.

(** C39: a peer that falls silent is given up.  Whatever the host had heard by then,
    whole or in part, and however long the silence that follows, it is back from
    opening the session -- greeting and challenge together -- no later than one poll
    after the time allowed, or after the last it heard where that came later; and it
    comes back with a session or with a reason.  What bounds it is the silence: a peer
    that keeps talking is heard out. *)
Theorem a_silent_peer_is_given_up `{Codec : EnvelopeCodec} hmac_sha256 build secret nonce timeout poll
    heard silence now w :
  Forall (λ e, 0 <= e.1) heard → Forall (silent_wait poll) silence → 0 <= poll →
  let c := mk_conn (mk_reader (heard ++ silence) now) w in
  let '(c', o) := open_with_timeout hmac_sha256 build secret nonce timeout c in
  clock (reader c') <= now + Z.max timeout (total_delay heard) + poll ∧ no_panic o.
Proof.
  intros Hh Hs Hp c.
  pose proof (open_no_panic hmac_sha256 build secret nonce timeout c) as Hnp.
  set (by_then := now + Z.max timeout (total_delay heard)).
  assert (Hl : listens poll by_then (λ c, (let* session := greet build (now + timeout) in
     let* _ := authenticate hmac_sha256 secret nonce (now + timeout) in done session) c)).
  { assert (now + timeout <= by_then) by lia. intros c0.
    apply listens_andthen; [by apply greet_listens|]. intros session.
    apply listens_andthen; [by apply authenticate_listens|]. intros _. apply (listens_result _ _ (Ok _)). }
  destruct (Hl c) as [Hw _]; [exists heard, silence; cbn; split_and!; [done..|lia]|].
  apply waited_clock in Hw; [|done]. unfold open_with_timeout in *. cbn [reader clock] in *.
  destruct (andthen _ _ c) as [c' o]. by split.
Qed.
