(* ===== verification/AgentGuest.v ===== *)
(** * The guest's half of an agent's session

    [crates/agent/src/session.rs]: opening a session, and serving the host's
    requests until it hangs up.  What the requests are carried out with
    ([Handlers]) works on the guest itself, so every handler takes and returns a
    [world]; [&'static str] and [String] are texts. *)

From stdpp Require Import strings pretty.
From S2P Require Import Prelude.
From S2P Require Import Record.
From S2P Require Import AgentProto.
From S2P Require Import AgentFrame.
From S2P Require Import AgentHost.

(** ** Data *)

Definition HELLO_REQUEST_ID : Z := 1.
Definition FIRST_HEARTBEAT_REQUEST_ID : Z := HELLO_REQUEST_ID + 1.
Definition AGENT_CAPABILITIES : list Capability := [Gpu; Display].
Definition this_agent : Build := mk_build CURRENT_VERSION AGENT_CAPABILITIES.

Inductive guest_error : Type :=
| GuestFrame (e : frame_error)
| GuestRefused (code : ErrorCode) (message : string)
| InvalidHello (why : string)
| GuestOutOfOrder (what : string)
| GuestMalformed (what : string)
| HeartbeatUnanswered
| RequestIdsExhausted.

Record GuestSession : Type := mk_guest_session {
  guest_version : ProtocolVersion; guest_capabilities : list Capability }.

Inductive guest_body : Type :=
| GuestRequest (kind : request_kind)
| UnknownRequest
| GuestResponse (kind : response_kind).

Definition guest_body_of (e : Envelope) : result guest_error guest_body :=
  match body e with
  | Some (RequestBody kind) =>
      Ok (match kind with Some kind => GuestRequest kind | None => UnknownRequest end)
  | Some (ResponseBody kind) =>
      ok_or (GuestResponse <$> kind) (GuestMalformed "a response with no kind this build knows")
  | None => Err (GuestMalformed "an envelope with no body")
  end.

Definition kind_name (kind : request_kind) : string :=
  match kind with
  | HelloRequestK _ => "a hello request out of order"
  | AuthenticateRequestK _ => "an authentication challenge out of order"
  | HeartbeatRequestK => "a heartbeat request out of order"
  | AttachGpuSharesRequestK _ => "a GPU share manifest out of order"
  | ApplyGpuRecipeRequestK => "a GPU recipe request out of order"
  | ProbeGpuRequestK => "a GPU probe request out of order"
  | AttachDisplayPayloadRequestK _ => "a display payload share out of order"
  | ApplyDisplayRecipeRequestK _ => "a display recipe request out of order"
  | UpdateDisplayPayloadRequestK _ => "a display payload update out of order"
  | RebootRequestK => "a reboot request out of order"
  end.

Definition refuse_unsupported (id : Z) : Envelope :=
  error id UnsupportedRequest "this build of vmlord-agent does not implement that host request".

(** [UnofferedCapability::fmt]. *)
Definition unoffered_text (u : UnofferedCapability) : string :=
  ("the peer agreed on capability " +:+ pretty (value u) +:+ ", which this build did not offer")%string.

(** ** Opening *)

Section opening.
Context `{Codec : EnvelopeCodec} (hmac_sha256 : list Z → list Z → list Z).
Context (build : Build).

Definition confirm (hello : HelloResponse) : result guest_error GuestSession :=
  let chosen := version_or_default (chosen_version hello) in
  let? version := map_err (λ m, InvalidHello (mismatch_text m))
                    (confirm_version (build_version build) chosen) in
  let? capabilities := map_err (λ u, InvalidHello (unoffered_text u))
                         (confirm_capabilities (build_capabilities build) (chosen_capabilities hello)) in
  Ok (mk_guest_session version capabilities).

Definition guest_hello (agent_version : string) : Envelope :=
  request HELLO_REQUEST_ID
    (HelloRequestK (mk_hello_request (Some (build_version build))
       (map capability_wire (build_capabilities build)) agent_version)).

Definition guest_greet (agent_version : string) : IO guest_error GuestSession :=
  let* _ := send GuestFrame (guest_hello agent_version) in
  let* envelope := receive GuestFrame in
  let* b := from_result (guest_body_of envelope) in
  match b with
  | GuestResponse (HelloResponseK hello) =>
      if request_id envelope =? HELLO_REQUEST_ID then from_result (confirm hello)
      else fail (GuestOutOfOrder "a response other than the hello reply")
  | GuestResponse (ErrorK code message) => fail (GuestRefused (error_code code) message)
  | GuestRequest kind =>
      let* _ := send GuestFrame (refuse_unsupported (request_id envelope)) in
      fail (GuestOutOfOrder (kind_name kind))
  | UnknownRequest =>
      let* _ := send GuestFrame (refuse_unsupported (request_id envelope)) in
      fail (GuestOutOfOrder "an unsupported request out of order")
  | GuestResponse _ => fail (GuestOutOfOrder "a response other than the hello reply")
  end.

Definition guest_authenticate (secret : list Z) : IO guest_error unit :=
  let* envelope := receive GuestFrame in
  let* b := from_result (guest_body_of envelope) in
  match b with
  | GuestRequest (AuthenticateRequestK challenge) =>
      let* nonce := from_result
        (map_err (λ e, GuestMalformed (wrong_length_text e)) (nonce_from_wire challenge)) in
      send GuestFrame
        (response (request_id envelope) (AuthenticateResponseK (tag hmac_sha256 secret nonce)))
  | GuestResponse (ErrorK code message) => fail (GuestRefused (error_code code) message)
  | GuestRequest kind =>
      let* _ := send GuestFrame (refuse_unsupported (request_id envelope)) in
      fail (GuestOutOfOrder (kind_name kind))
  | UnknownRequest =>
      let* _ := send GuestFrame (refuse_unsupported (request_id envelope)) in
      fail (GuestOutOfOrder "an unsupported request out of order")
  | GuestResponse _ => fail (GuestOutOfOrder "a response instead of a challenge")
  end.

(** [run] up to the point where [opened] is set. *)
Definition guest_open (secret : list Z) (agent_version : string) : IO guest_error GuestSession :=
  let* session := guest_greet agent_version in
  let* _ := guest_authenticate secret in
  done session.
End opening.

(** ** Serving *)

(** The outcomes and steps [make_display_update_compatible] knows by name. *)
Definition OUTCOME_FAILED : Z := 3.
Definition OUTCOME_REBOOT_REQUIRED : Z := 4.
Definition STEP_INITRAMFS : Z := 10.

Definition make_display_update_compatible (report : UpdateDisplayPayloadResponse) (minor : Z)
    : UpdateDisplayPayloadResponse :=
  if DISPLAY_REBOOT_REQUIRED_REVISION <=? minor then report
  else
    {| update_stages := filter (λ s, display_step s ≠ STEP_INITRAMFS) (update_stages report);
       update_versions := update_versions report;
       update_outcome := if update_outcome report =? OUTCOME_REBOOT_REQUIRED
                         then OUTCOME_FAILED else update_outcome report |}.

Record Handlers (W : Type) : Type := mk_handlers {
  attach_gpu : list GpuShare → W → (list GpuMount * bool) * W;
  apply_gpu_recipe : W → list GpuRecipeStage * W;
  probe_gpu : W → ProbeGpuResponse * W;
  attach_display : string → W → DisplayMount * W;
  apply_display_recipe : option (Z * Z) → W → ApplyDisplayRecipeResponse * W;
  update_display : string → W → UpdateDisplayPayloadResponse * W;
  reboot : W → option string * W;
}.
Arguments attach_gpu {W}.
Arguments apply_gpu_recipe {W}.
Arguments probe_gpu {W}.
Arguments attach_display {W}.
Arguments apply_display_recipe {W}.
Arguments update_display {W}.
Arguments reboot {W}.

Record GuestState (W : Type) : Type := mk_guest {
  next_request_id : Z; pending_heartbeat : option Z; world : W }.
Arguments mk_guest {W}.
Arguments next_request_id {W}.
Arguments pending_heartbeat {W}.
Arguments world {W}.

Section serving.
Context {W : Type} (h : Handlers W) (session : GuestSession).

Definition agreed (c : Capability) : bool := bool_decide (c ∈ guest_capabilities session).

Definition set_world (st : GuestState W) (w : W) : GuestState W :=
  mk_guest (next_request_id st) (pending_heartbeat st) w.

(** What an expired wait between frames does: the frame to write. *)
Definition guest_idle (st : GuestState W) : GuestState W * result guest_error (option Envelope) :=
  match pending_heartbeat st with
  | Some _ => (st, Err HeartbeatUnanswered)
  | None =>
      let id := next_request_id st in
      if U32_MAX <? id + 1 then (st, Err RequestIdsExhausted)
      else (mk_guest (id + 1) (Some id) (world st), Ok (Some (request id HeartbeatRequestK)))
  end.

(** What a request is answered, and what it did to the guest. *)
Definition carry_out (kind : request_kind) (id : Z) (w : W) : Envelope * W :=
  match kind with
  | HeartbeatRequestK => (response id HeartbeatResponseK, w)
  | AttachGpuSharesRequestK shares =>
      if agreed Gpu then
        let '((mounts, refreshed), w) := attach_gpu h shares w in
        (response id (AttachGpuSharesResponseK mounts refreshed), w)
      else (refuse_unsupported id, w)
  | ApplyGpuRecipeRequestK =>
      if agreed Gpu then
        let '(stages, w) := apply_gpu_recipe h w in
        (response id (ApplyGpuRecipeResponseK stages), w)
      else (refuse_unsupported id, w)
  | ProbeGpuRequestK =>
      if agreed Gpu then
        let '(probe, w) := probe_gpu h w in (response id (ProbeGpuResponseK probe), w)
      else (refuse_unsupported id, w)
  | AttachDisplayPayloadRequestK share =>
      if agreed Display then
        let '(mount, w) := attach_display h (default EmptyString share) w in
        (response id (AttachDisplayPayloadResponseK (Some mount)), w)
      else (refuse_unsupported id, w)
  | ApplyDisplayRecipeRequestK mode =>
      if agreed Display then
        let '(report, w) := apply_display_recipe h mode w in
        (response id (ApplyDisplayRecipeResponseK report), w)
      else (refuse_unsupported id, w)
  | UpdateDisplayPayloadRequestK target =>
      if agreed Display then
        let '(update, w) := update_display h target w in
        (response id (UpdateDisplayPayloadResponseK
           (make_display_update_compatible update (minor (guest_version session)))), w)
      else (refuse_unsupported id, w)
  | RebootRequestK =>
      let '(refusal, w) := reboot h w in
      (match refusal with
       | None => response id RebootResponseK
       | Some reason => error id Unavailable reason
       end, w)
  | HelloRequestK _ | AuthenticateRequestK _ => (refuse_unsupported id, w)
  end.

(** What a frame does: the frame to write, if any. *)
Definition guest_hears (st : GuestState W) (envelope : Envelope)
    : GuestState W * result guest_error (option Envelope) :=
  match guest_body_of envelope with
  | Err e => (st, Err e)
  | Panic => (st, Panic)
  | Ok (GuestRequest kind) =>
      let '(answer, w) := carry_out kind (request_id envelope) (world st) in
      (set_world st w, Ok (Some answer))
  | Ok UnknownRequest => (st, Ok (Some (refuse_unsupported (request_id envelope))))
  | Ok (GuestResponse HeartbeatResponseK) =>
      if decide (pending_heartbeat st = Some (request_id envelope))
      then (mk_guest (next_request_id st) None (world st), Ok None)
      else (st, Err (GuestOutOfOrder "an unsolicited response"))
  | Ok (GuestResponse (ErrorK code message)) =>
      (st, Err (GuestRefused (error_code code) message))
  | Ok (GuestResponse _) => (st, Err (GuestOutOfOrder "an unsolicited response"))
  end.

(** ** The loop *)

Context `{Codec : EnvelopeCodec}.

Definition send_reply (reply : option Envelope) : IO guest_error unit :=
  match reply with Some e => send GuestFrame e | None => done tt end.

(** Every turn takes a frame off the stream or an event off the script. *)
Fixpoint guest_serve_loop (fuel : nat) (st : GuestState W) (c : Conn)
    : (Conn * GuestState W) * result guest_error unit :=
  match fuel with
  | O => ((c, st), Panic)
  | S fuel =>
      let turn r step :=
        match step with
        | (st, Err e) => ((mk_conn r (writer c), st), Err e)
        | (st, Panic) => ((mk_conn r (writer c), st), Panic)
        | (st, Ok reply) =>
            match send_reply reply (mk_conn r (writer c)) with
            | (c, Ok _) => guest_serve_loop fuel st c
            | (c, Err e) => ((c, st), Err e)
            | (c, Panic) => ((c, st), Panic)
            end
        end in
      match read (reader c) with
      | (r, Ok envelope) => turn r (guest_hears st envelope)
      | (r, Err FrameClosed) => ((mk_conn r (writer c), st), Ok tt)
      | (r, Err FrameIdle) => turn r (guest_idle st)
      | (r, Err e) => ((mk_conn r (writer c), st), Err (GuestFrame e))
      | (r, Panic) => ((mk_conn r (writer c), st), Panic)
      end
  end.

Definition guest_start (w : W) : GuestState W := mk_guest FIRST_HEARTBEAT_REQUEST_ID None w.

Definition guest_serve (w : W) (c : Conn) : (Conn * GuestState W) * result guest_error unit :=
  guest_serve_loop (S (length (events (reader c)) + length (stream (events (reader c)))))
    (guest_start w) c.
End serving.
