(* ===== verification/CoreVm.v ===== *)
(** * A machine as the domain names it

    [core/src/lib.rs]: the state a machine is in and the networks it may have;
    [core/src/progress.rs]: the slots a build reports through, the throttle in
    front of one, and what the watching thread reads out of them. *)

From stdpp Require Import base option strings.
From S2P Require Import Prelude.

(** ** Progress *)

Inductive DownloadPhase : Type :=
| Connecting
| Downloading (downloaded : Z) (total : option Z)
| Verifying (hashed total : Z)
| Completed.

Inductive BuildStep : Type :=
| StepDownloading | StepWritingDisk | StepProvisioning | StepRegistering | StepStarting
| StepAwaitingGuest.

#[export] Instance build_step_eq_dec : EqDecision BuildStep.
Proof. solve_decision. Defined.
#[export] Instance download_phase_eq_dec : EqDecision DownloadPhase.
Proof. solve_decision. Defined.

Record BuildProgress : Type := mk_build_progress {
  step : BuildStep; download : option DownloadPhase }.

(** [std::mem::discriminant] of a phase. *)
Definition phase_kind (p : DownloadPhase) : Z :=
  match p with Connecting => 0 | Downloading _ _ => 1 | Verifying _ _ => 2 | Completed => 3 end.

(** The throttle in front of a slot: what the slot holds, and when a value of
    which kind was put there last. Times in milliseconds. *)
Record ProgressThrottle : Type := mk_throttle {
  slot : option DownloadPhase; min_interval : Z; last_published : option (Z * Z) }.

Definition DEFAULT_INTERVAL : Z := 100.

Definition with_interval (published : option DownloadPhase) (interval : Z) : ProgressThrottle :=
  mk_throttle published interval None.

Definition publish_now (t : ProgressThrottle) (now : Z) (value : DownloadPhase) : ProgressThrottle :=
  mk_throttle (Some value) (min_interval t) (Some (now, phase_kind value)).

Definition publish (t : ProgressThrottle) (now : Z) (value : DownloadPhase) : ProgressThrottle :=
  match last_published t with
  | Some (published_at, last_kind) =>
      if (last_kind =? phase_kind value) && (now - published_at <? min_interval t)
      then t else publish_now t now value
  | None => publish_now t now value
  end.

(** [BuildMonitor]: two slots and a flag. *)
Record BuildMonitor : Type := mk_monitor {
  monitor_step : option BuildStep;
  monitor_download : option DownloadPhase;
  cancel_flag : bool;
}.

Definition monitor_new (initial : BuildStep) : BuildMonitor := mk_monitor (Some initial) None false.
Definition monitor_report (m : BuildMonitor) (step : BuildStep) : BuildMonitor :=
  mk_monitor (Some step) (monitor_download m) (cancel_flag m).
Definition cancel (m : BuildMonitor) : BuildMonitor :=
  mk_monitor (monitor_step m) (monitor_download m) true.
Definition check_cancelled (m : BuildMonitor) : result string unit :=
  if cancel_flag m then Err "creating the VM was cancelled"%string else Ok tt.

Definition snapshot (m : BuildMonitor) : BuildProgress :=
  let step := default StepDownloading (monitor_step m) in
  mk_build_progress step
    (match step with StepDownloading => monitor_download m | _ => None end).

(** ** Machines *)

Inductive AgentStatus : Type := Offline | Online | AgentUnknown.

Inductive VmState : Type :=
| Stopped
| Building (progress : BuildProgress)
| Starting
| Running (agent_status : AgentStatus).

Inductive NetworkMode : Type :=
| NetworkNone | NetworkNat | NetworkExternal | NetworkInternal | NetworkUnknown (value : Z).

(** [matches!(state, VmState::Starting | VmState::Running { .. })]. *)
Definition starting_or_running (state : VmState) : bool :=
  match state with Starting | Running _ => true | _ => false end.
