(* ===== verification/CoreGpu.v ===== *)
(** * What a machine asks of a GPU, and what is known of it

    [core/src/gpu.rs]: the mode, the facts, the status read from them, what the
    host can do, and the shares a guest is offered. *)

From stdpp Require Import base option strings.
From S2P Require Import Prelude.

Inductive GpuMode : Type := ModeNone | ModeDefault | ModeMirror | ModeUnknown (value : Z).

Inductive GpuState : Type :=
| GpuDisabled | GpuWaitingForGuest | GpuAssigned | GpuGuestReady | GpuDegraded | GpuBroken.

Inductive GpuStage : Type := GpuStageIdle | GpuStageAssignment | GpuStageGuest.

Inductive GpuStatusCode : Type :=
| ModeDisabled | VmNotRunning | ModeUnsupported | AssignmentPending | AssignmentUnknown
| GuestPending | AssignmentFailed | AssignmentPartial | GuestDevicePresent | GuestReady
| GuestFailed | HostNoAdapter | HostServiceUnavailable | HostDriverStoreMissing
| HostLinuxPayloadMissing.

#[export] Instance gpu_state_eq_dec : EqDecision GpuState.
Proof. solve_decision. Defined.
#[export] Instance gpu_stage_eq_dec : EqDecision GpuStage.
Proof. solve_decision. Defined.
#[export] Instance gpu_status_code_eq_dec : EqDecision GpuStatusCode.
Proof. solve_decision. Defined.

Definition as_str (code : GpuStatusCode) : string :=
  match code with
  | ModeDisabled => "gpu-mode-disabled"
  | VmNotRunning => "gpu-vm-not-running"
  | ModeUnsupported => "gpu-mode-unsupported"
  | AssignmentPending => "gpu-assignment-pending"
  | AssignmentUnknown => "gpu-assignment-unknown"
  | GuestPending => "gpu-guest-pending"
  | AssignmentFailed => "gpu-assignment-failed"
  | AssignmentPartial => "gpu-assignment-partial"
  | GuestDevicePresent => "gpu-guest-device-present"
  | GuestReady => "gpu-guest-ready"
  | GuestFailed => "gpu-guest-failed"
  | HostNoAdapter => "gpu-host-no-adapter"
  | HostServiceUnavailable => "gpu-host-service-unavailable"
  | HostDriverStoreMissing => "gpu-host-driver-store-missing"
  | HostLinuxPayloadMissing => "gpu-host-linux-payload-missing"
  end%string.

Record GpuFailure : Type := mk_gpu_failure { gpu_code : GpuStatusCode; gpu_text : string }.
Record NativeGpuDetail : Type := mk_native { adapter : option string; adapters : Z }.
Record GuestGpuDetail : Type := mk_gpu_detail {
  driver : option string; render_node : option string }.

Inductive GpuAssignment : Type :=
| Unknown
| Complete (detail : NativeGpuDetail)
| Partial (detail : NativeGpuDetail) (reason : GpuFailure)
| NotAssigned (reason : GpuFailure).

Inductive GuestGpuReport : Type :=
| DevicePresent (detail : GuestGpuDetail)
| GpuReady (detail : GuestGpuDetail)
| GpuFailed (failure : GpuFailure).

(** Times are milliseconds of the system clock. *)
Record VmGpuFacts : Type := mk_gpu_facts {
  assignment : option GpuAssignment; guest : option GuestGpuReport; observed_at : option Z }.

Definition gpu_facts_default : VmGpuFacts := mk_gpu_facts None None None.

Record VmGpuStatus : Type := mk_gpu_status {
  state : GpuState; stage : GpuStage; code : GpuStatusCode; message : string;
  native : option NativeGpuDetail; guest_detail : option GuestGpuDetail; status_at : Z }.

Definition is_active (s : VmGpuStatus) : bool :=
  match state s with GpuAssigned | GpuGuestReady | GpuDegraded => true | _ => false end.

(** ** What the host can do *)

Inductive GpuAvailability : Type := Available | Unavailable (failure : GpuFailure).

Definition is_available (a : GpuAvailability) : bool :=
  match a with Available => true | Unavailable _ => false end.
Definition failure (a : GpuAvailability) : option GpuFailure :=
  match a with Available => None | Unavailable f => Some f end.

Record HostGpuAdapter : Type := mk_adapter {
  name : string; instance_id : string; interface_path : string;
  driver_store : option string; service : option string }.

Record HostGpuCapabilities : Type := mk_host_gpu {
  host_assignment : GpuAvailability; linux_payload : GpuAvailability;
  host_adapters : list HostGpuAdapter }.

(** ** The shares a guest is offered *)

Inductive GpuShareRole : Type := GpuPayload | WslLib | DriverPackage (package : string) | WslD3d12.
Record GpuShare : Type := mk_core_share { share_name : string; share_role : GpuShareRole }.

Definition WSL_LIB_SHARE : string := "vmlord.gpu.wsl-lib".
Definition GPU_PAYLOAD_SHARE : string := "vmlord.gpu.payload".
Definition WSL_D3D12_SHARE : string := "vmlord.gpu.wsl-d3d12".
Definition DRIVER_PACKAGE_SHARE_PREFIX : string := "vmlord.gpu.drv.".
Definition MAX_PACKAGE_NAME : nat := 96.

Definition payload : GpuShare := mk_core_share GPU_PAYLOAD_SHARE GpuPayload.
Definition wsl_lib : GpuShare := mk_core_share WSL_LIB_SHARE WslLib.
Definition wsl_d3d12 : GpuShare := mk_core_share WSL_D3D12_SHARE WslD3d12.

(** Over bytes: a character outside ASCII has none the test lets through. *)
Definition is_share_character (c : Ascii.ascii) : bool :=
  let n := Ascii.nat_of_ascii c in
  ((48 <=? n) && (n <=? 57) || (65 <=? n) && (n <=? 90) || (97 <=? n) && (n <=? 122)
   || (n =? 46) || (n =? 95) || (n =? 45))%nat.

Definition driver_package (package : string) : option GpuShare :=
  if ((String.length package =? 0) || (MAX_PACKAGE_NAME <? String.length package))%nat then None
  else if String.eqb package "." || String.eqb package ".." then None
  else if negb (forallb is_share_character (String.list_ascii_of_string package)) then None
  else Some (mk_core_share (DRIVER_PACKAGE_SHARE_PREFIX +:+ package) (DriverPackage package)).
