(* ===== verification/CoreDisplay.v ===== *)
(** * What a machine asks of its desktop, and what is known of it

    [core/src/display.rs]: the profile, what installing it came to, the facts
    the guest reported, and the status read from them. *)

From stdpp Require Import base option strings.
From S2P Require Import Prelude.

(** ** Desired state *)

Inductive DesktopProfile : Type := Headless | Gnome | Hyprland.

Definition wants_desktop (p : DesktopProfile) : bool :=
  match p with Headless => false | _ => true end.

Definition MIN_DISPLAY_WIDTH : Z := 640.
Definition MIN_DISPLAY_HEIGHT : Z := 480.
Definition MAX_DISPLAY_WIDTH : Z := 2560.
Definition MAX_DISPLAY_HEIGHT : Z := 1440.

Record DisplayMode : Type := mk_mode { width : Z; height : Z }.

Definition mode_new (width height : Z) : option DisplayMode :=
  if (width <? MIN_DISPLAY_WIDTH) || (MAX_DISPLAY_WIDTH <? width)
     || (height <? MIN_DISPLAY_HEIGHT) || (MAX_DISPLAY_HEIGHT <? height)
  then None else Some (mk_mode width height).

Definition MIN_DESKTOP_CPU_CORES : Z := 2.
Definition MIN_DESKTOP_RAM_MB : Z := 4096.

Inductive Advisory : Type :=
| DesktopNeedsCores (required actual : Z)
| DesktopNeedsRam (required_gib actual_mb : Z)
| DesktopNeedsCoresAndRam (required_cores actual_cores required_gib actual_mb : Z)
| DesktopNeedsPassword.

Definition desktop_resource_advice (profile : DesktopProfile) (cpu_cores ram_mb : Z)
    : option Advisory :=
  if negb (wants_desktop profile) then None
  else
    let short_cpu := cpu_cores <? MIN_DESKTOP_CPU_CORES in
    let short_ram := ram_mb <? MIN_DESKTOP_RAM_MB in
    let ram_gib := MIN_DESKTOP_RAM_MB / 1024 in
    match short_cpu, short_ram with
    | false, false => None
    | true, false => Some (DesktopNeedsCores MIN_DESKTOP_CPU_CORES cpu_cores)
    | false, true => Some (DesktopNeedsRam ram_gib ram_mb)
    | true, true =>
        Some (DesktopNeedsCoresAndRam MIN_DESKTOP_CPU_CORES cpu_cores ram_gib ram_mb)
    end.

(** ** Failures *)

Inductive DisplayStage : Type := StageIdle | StageProvisioning | StageGuest | StagePayload.

Inductive DisplayStatusCode : Type :=
| ProfileHeadless | VmNotRunning | ProvisioningPending | PackageDownloadFailed
| PackageInstallFailed | ProvisioningTimeout | ProfileUnsupported | GuestPending | GuestReady
| GuestServicesFailed | PayloadMissing | PayloadInvalid | PayloadDependenciesFailed
| PayloadBuildFailed | PayloadModuleNotLoaded | PayloadModuleSignatureRejected | PayloadNoDevice
| PayloadUpdateRolledBack | PayloadUpdateRebootRequired | PayloadUpdateFailed.

#[export] Instance desktop_profile_eq_dec : EqDecision DesktopProfile.
Proof. solve_decision. Defined.
#[export] Instance display_stage_eq_dec : EqDecision DisplayStage.
Proof. solve_decision. Defined.
#[export] Instance display_status_code_eq_dec : EqDecision DisplayStatusCode.
Proof. solve_decision. Defined.

Definition code_as_str (code : DisplayStatusCode) : string :=
  match code with
  | ProfileHeadless => "display-profile-headless"
  | VmNotRunning => "display-vm-not-running"
  | ProvisioningPending => "display-provisioning-pending"
  | PackageDownloadFailed => "display-package-download-failed"
  | PackageInstallFailed => "display-package-install-failed"
  | ProvisioningTimeout => "display-provisioning-timeout"
  | ProfileUnsupported => "display-profile-unsupported"
  | GuestPending => "display-guest-pending"
  | GuestReady => "display-guest-ready"
  | GuestServicesFailed => "display-guest-services-failed"
  | PayloadMissing => "display-payload-missing"
  | PayloadInvalid => "display-payload-invalid"
  | PayloadDependenciesFailed => "display-payload-dependencies-failed"
  | PayloadBuildFailed => "display-payload-build-failed"
  | PayloadModuleNotLoaded => "display-payload-module-not-loaded"
  | PayloadModuleSignatureRejected => "display-payload-module-signature-rejected"
  | PayloadNoDevice => "display-payload-no-device"
  | PayloadUpdateRolledBack => "display-payload-update-rolled-back"
  | PayloadUpdateRebootRequired => "display-payload-update-reboot-required"
  | PayloadUpdateFailed => "display-payload-update-failed"
  end%string.

Definition is_retryable (code : DisplayStatusCode) : bool :=
  match code with
  | PackageDownloadFailed | PackageInstallFailed | ProvisioningTimeout | GuestServicesFailed
  | PayloadDependenciesFailed | PayloadBuildFailed | PayloadModuleNotLoaded | PayloadNoDevice
  | PayloadUpdateRolledBack | PayloadUpdateFailed => true
  | _ => false
  end.

Record DisplayFailure : Type := mk_display_failure {
  failure_stage : DisplayStage; failure_code : DisplayStatusCode; failure_message : string }.

Inductive DisplayProvisioning : Type :=
| NotRequested | Pending | ProvisioningReady | Degraded (failure : DisplayFailure).

Definition requested (p : DesktopProfile) : DisplayProvisioning :=
  match p with Headless => NotRequested | Gnome | Hyprland => Pending end.

Definition can_retry (p : DisplayProvisioning) : bool :=
  match p with Degraded failure => is_retryable (failure_code failure) | _ => false end.

Definition retried (p : DisplayProvisioning) : option DisplayProvisioning :=
  if can_retry p then Some Pending else None.

(** [str::contains]. *)
Fixpoint contains (phrase text : string) : bool :=
  String.prefix phrase text ||
  match text with EmptyString => false | String _ rest => contains phrase rest end.

Definition was_rejected_for_its_signature (text : string) : bool :=
  contains "Key was rejected by service" text || contains "Required key not available" text.

(** ** Facts *)

Definition DISPLAY_PAYLOAD_SHARE : string := "vmlord.display.payload".

Record GuestDesktop : Type := mk_desktop {
  session : option string; session_type : option string; display_manager : option string }.

(** [slice::join]. *)
Fixpoint joined (separator : string) (parts : list string) : string :=
  match parts with
  | [] => EmptyString
  | [part] => part
  | part :: parts => (part +:+ separator +:+ joined separator parts)%string
  end.

Definition found (d : GuestDesktop) : bool :=
  is_some (session d) || is_some (session_type d) || is_some (display_manager d).

Definition summary (d : GuestDesktop) : option string :=
  let found := omap id [session d; session_type d; display_manager d] in
  match found with [] => None | _ => Some (joined ", " found) end.

Record GuestDisplayDetail : Type := mk_display_detail {
  compositor : option string; output : option string }.
Definition display_detail_default : GuestDisplayDetail := mk_display_detail None None.

Inductive GuestDisplayReport : Type :=
| ServicesPending
| DisplayReady (detail : GuestDisplayDetail)
| DisplayFailed (failure : DisplayFailure).

Record DisplayPayloadFacts : Type := mk_payload_facts {
  installed_version : option string; previous_version : option string;
  loaded_version : option string; offered_version : option string }.

Definition payload_facts_default : DisplayPayloadFacts := mk_payload_facts None None None None.

Definition update_available (f : DisplayPayloadFacts) : bool :=
  match installed_version f, offered_version f with
  | Some installed, Some available => negb (String.eqb installed available)
  | _, _ => false
  end.

Record VmDisplayFacts : Type := mk_display_facts {
  guest : option GuestDisplayReport;
  payload : DisplayPayloadFacts;
  failure : option DisplayFailure;
  observed_at : option Z;
  update_in_flight : bool;
  desktop : option GuestDesktop;
}.

Definition display_facts_default : VmDisplayFacts :=
  mk_display_facts None payload_facts_default None None false None.

(** ** The status *)

Inductive DisplayState : Type :=
| DisplayDisabled | DisplayProvisioningState | DisplayWaitingForGuest | DisplayWorks | DisplayDegraded.

#[export] Instance display_state_eq_dec : EqDecision DisplayState.
Proof. solve_decision. Defined.

Record VmDisplayStatus : Type := mk_display_status {
  state : DisplayState; stage : DisplayStage; code : DisplayStatusCode;
  running_version : option string; available_version : option string; message : string;
  status_guest : option GuestDisplayDetail; status_desktop : option GuestDesktop;
  status_can_retry : bool; updating : bool; status_at : Z }.

Definition is_connectable (s : VmDisplayStatus) : bool :=
  match state s with DisplayWorks => true | _ => false end.
