(* ===== verification/AgentServe.v ===== *)
(** * How the host serves an agent's session

    [crates/platform/src/agent_session.rs] from an open session on: what the
    guest is asked, in which order, what its answers become, when it is probed,
    and what the updates and reboots other threads ask for wait on.  A report to
    a sink, an answer to an asker and a frame written are outputs; an asker is
    named by a number.  The loop's turns are steps of a machine, whose inputs are
    what [frame::read] came back with and when. *)

From stdpp Require Import strings pretty.
From S2P Require Import Prelude.
From S2P Require Import CoreGpu.
From S2P Require Import CoreDisplay.
From S2P Require Import AgentProto.
From S2P Require Import AgentFrame.
From S2P Require Import AgentHost.

(** ** What the host's model of a guest is made of *)

Record GuestDisplayPayloadReport : Type := mk_payload_report {
  report_installed : option string; report_previous : option string;
  report_loaded : option string; report_failure : option DisplayFailure;
  report_guest : option GuestDisplayReport; report_certificate : option (list Z);
  report_desktop : option GuestDesktop }.

Definition payload_report_default : GuestDisplayPayloadReport :=
  mk_payload_report None None None None None None None.

Inductive DisplayUpdateOutcome : Type :=
| OutcomeUnspecified | Updated | RolledBack | UpdateFailed | RebootRequired.

#[export] Instance display_update_outcome_eq_dec : EqDecision DisplayUpdateOutcome.
Proof. solve_decision. Defined.

Definition update_outcome_of (value : Z) : DisplayUpdateOutcome :=
  if value =? 1 then Updated
  else if value =? 2 then RolledBack
  else if value =? 3 then UpdateFailed
  else if value =? 4 then RebootRequired
  else OutcomeUnspecified.

Record DisplayUpdateAnswer : Type := mk_update_answer {
  outcome : DisplayUpdateOutcome; answer_report : GuestDisplayPayloadReport }.

(** ** The enumerations a report is read by

    Their wire values, and the name [{:?}] prints. *)

Definition STAGE_OK : Z := 1.
Definition STAGE_SKIPPED : Z := 2.
Definition STAGE_FAILED : Z := 3.

Definition name_of (names : list string) (value : Z) : string :=
  if (0 <=? value) && (value <? zlen names)
  then default "Unspecified"%string (names !! Z.to_nat value) else "Unspecified"%string.

Definition gpu_step_name : Z → string :=
  name_of ["Unspecified"; "Distribution"; "Payload"; "BuildDependencies"; "ModuleSource";
    "ModuleBuild"; "ModuleLoad"; "Device"; "Userspace"; "VulkanIcd"; "Environment"]%string.
Definition display_step_name : Z → string :=
  name_of ["Unspecified"; "Distribution"; "Payload"; "BuildDependencies"; "ModuleSource";
    "ModuleBuild"; "ModuleLoad"; "Device"; "Services"; "ServicesStart"; "Initramfs"; "SigningKey";
    "ModuleSignature"; "CompositorIsolation"; "CompositorRenderer"]%string.
Definition verdict_name : Z → string :=
  name_of ["Unspecified"; "NoDevice"; "DeviceOnly"; "Renders"]%string.

(** ** Reading the guest's reports *)

Definition some_text (value : string) : option string :=
  match value with EmptyString => None | _ => Some value end.

Definition code_for (step : Z) (message : string) : DisplayStatusCode :=
  if step =? 3 then PayloadDependenciesFailed
  else if (step =? 5) || (step =? 4) then PayloadBuildFailed
  else if (step =? 10) || (step =? 6) then
    if was_rejected_for_its_signature message then PayloadModuleSignatureRejected
    else PayloadModuleNotLoaded
  else if step =? 7 then PayloadNoDevice
  else if (step =? 13) || (step =? 14) then PayloadModuleNotLoaded
  else if (step =? 8) || (step =? 9) then GuestServicesFailed
  else PayloadInvalid.

Definition gpu_stage_done (s : GpuRecipeStage) : bool :=
  (gpu_state s =? STAGE_OK) || (gpu_state s =? STAGE_SKIPPED).

(** [report_recipe]: what goes to the sink, and whether a probe is worth asking for. *)
Definition report_recipe (stages : list GpuRecipeStage) : option GuestGpuReport * bool :=
  match List.find (λ s, negb (gpu_stage_done s)) stages with
  | None => (None, true)
  | Some broken =>
      (Some (GpuFailed (mk_gpu_failure CoreGpu.GuestFailed
         ("the guest's GPU recipe stopped at " +:+ gpu_step_name (gpu_step broken)
            +:+ ": " +:+ gpu_message broken)%string)), false)
  end.

Definition report_probe (report : ProbeGpuResponse) : GuestGpuReport :=
  let detail := mk_gpu_detail (some_text (probe_driver report)) (some_text (probe_render_node report)) in
  if probe_verdict report =? 3 then GpuReady detail
  else if probe_verdict report =? 2 then DevicePresent detail
  else GpuFailed (mk_gpu_failure CoreGpu.GuestFailed
         ("the guest reports no usable GPU (" +:+ verdict_name (probe_verdict report) +:+ ")")%string).

Definition mount_failed (message : string) : GuestDisplayPayloadReport :=
  mk_payload_report None None None (Some (mk_display_failure StagePayload PayloadInvalid message)) None None None.

Definition report_display_mount (mount : option DisplayMount)
    : option GuestDisplayPayloadReport * bool :=
  match mount with
  | None => (Some (mount_failed "the guest answered the display share with no mount report"), false)
  | Some mount =>
      if (display_mount_state mount =? 1) || (display_mount_state mount =? 2) then (None, true)
      else (Some (mount_failed ("the guest did not mount its display payload: "
                                 +:+ display_mount_message mount)%string), false)
  end.

Definition versions_or_default (v : option DisplayPayloadVersions) : DisplayPayloadVersions :=
  default (mk_versions EmptyString EmptyString EmptyString) v.

(** The stage a recipe is reported to have stopped at. *)
Definition degrades (s : DisplayRecipeStage) : bool :=
  (display_state s =? STAGE_FAILED) && negb ((display_step s =? 11) || (display_step s =? 12)).

Definition display_recipe_failure (stages : list DisplayRecipeStage) : option DisplayFailure :=
  match List.find degrades stages with
  | None => None
  | Some broken =>
      let message := ("the guest's display recipe stopped at "
        +:+ display_step_name (display_step broken) +:+ ": " +:+ display_message broken)%string in
      Some (mk_display_failure StagePayload (code_for (display_step broken) message) message)
  end.

Definition SERVICES_START : Z := 9.

Definition report_display_recipe (report : ApplyDisplayRecipeResponse)
    : GuestDisplayPayloadReport :=
  let versions := versions_or_default (recipe_versions report) in
  let failure := display_recipe_failure (recipe_stages report) in
  let services := display_state <$> List.find (λ s, display_step s =? SERVICES_START) (recipe_stages report) in
  let desktop := (λ d, mk_desktop (some_text (desktop_session d)) (some_text (desktop_session_type d))
                         (some_text (desktop_display_manager d))) <$> recipe_desktop report in
  let guest :=
    if bool_decide (services = Some STAGE_OK) then Some (DisplayReady display_detail_default)
    else if bool_decide (services = Some STAGE_SKIPPED) then
      Some (DisplayFailed (mk_display_failure StagePayload PayloadInvalid
        "this display payload carries no display services"))
    else DisplayFailed <$> failure in
  mk_payload_report (some_text (installed versions)) (some_text (previous versions))
    (some_text (loaded versions)) failure guest (certificate <$> recipe_certificate report) desktop.

Definition update_reason (stages : list DisplayRecipeStage) : string :=
  match List.find (λ s, display_state s =? STAGE_FAILED) stages with
  | Some stage => display_message stage
  | None =>
      match List.find (λ s, display_state s =? STAGE_SKIPPED) (rev stages) with
      | Some stage => display_message stage
      | None => "the guest did not say which stage failed"
      end
  end.

Definition report_display_update (report : UpdateDisplayPayloadResponse) : DisplayUpdateAnswer :=
  let versions := versions_or_default (update_versions report) in
  let outcome := update_outcome_of (update_outcome report) in
  let reason := update_reason (update_stages report) in
  let failure :=
    match outcome with
    | Updated => None
    | RolledBack => Some (mk_display_failure StagePayload PayloadUpdateRolledBack reason)
    | RebootRequired => Some (mk_display_failure StagePayload PayloadUpdateRebootRequired reason)
    | _ => Some (mk_display_failure StagePayload PayloadUpdateFailed reason)
    end in
  mk_update_answer outcome
    (mk_payload_report (some_text (installed versions)) (some_text (previous versions))
       (some_text (loaded versions)) failure None None None).

(** ** The session *)

Definition ATTACH_REQUEST_ID : Z := CHALLENGE_REQUEST_ID + 1.
Definition APPLY_REQUEST_ID : Z := ATTACH_REQUEST_ID + 1.
Definition PROBE_REQUEST_ID : Z := APPLY_REQUEST_ID + 1.
Definition DISPLAY_ATTACH_REQUEST_ID : Z := PROBE_REQUEST_ID + 1.
Definition DISPLAY_APPLY_REQUEST_ID : Z := DISPLAY_ATTACH_REQUEST_ID + 1.
Definition DISPLAY_UPDATE_REQUEST_ID : Z := DISPLAY_APPLY_REQUEST_ID + 1.
Definition LIVENESS_REQUEST_ID : Z := DISPLAY_UPDATE_REQUEST_ID + 1.
Definition REBOOT_REQUEST_ID : Z := LIVENESS_REQUEST_ID + 1.

(** [SessionTiming::NORMAL], in milliseconds. *)
Record SessionTiming : Type := mk_timing { idle_before_probe : Z; probe_timeout : Z }.
Definition NORMAL : SessionTiming := mk_timing 31000 5000.

Record DisplayUpdate : Type := mk_display_update { target_version : string; update_asker : Z }.
Record AgentReboot : Type := mk_agent_reboot { reboot_asker : Z }.

(** The share, the mode and the payload this session's guest is given. *)
Record SessionWork : Type := mk_work {
  gpu_shares : option (list CoreGpu.GpuShare);
  display_share : option string;
  display_mode : option DisplayMode;
}.

Inductive host_output : Type :=
| Wrote (e : Envelope)
| ReportedGpu (r : GuestGpuReport)
| ReportedDisplay (r : GuestDisplayPayloadReport)
| AnsweredUpdate (asker : Z) (answer : DisplayUpdateAnswer)
| AnsweredReboot (asker : Z) (answer : result string unit).

Record HostState : Type := mk_host {
  pending_manifest : option Z;
  pending_recipe : option Z;
  pending_probe : option Z;
  pending_display_attach : option Z;
  pending_display_recipe : option Z;
  pending_update : option Z;
  update_after_probe : option DisplayUpdate;
  pending_reboot : option Z;
  reboot_after_probe : option AgentReboot;
  liveness_deadline : option Z;
  last_received : Z;
  (** The two queues other threads fill. *)
  updates : list DisplayUpdate;
  reboots : list AgentReboot;
}.

Definition set_gpu (manifest recipe probe : option Z) (s : HostState) : HostState :=
  mk_host manifest recipe probe (pending_display_attach s) (pending_display_recipe s)
    (pending_update s) (update_after_probe s) (pending_reboot s) (reboot_after_probe s)
    (liveness_deadline s) (last_received s) (updates s) (reboots s).
Definition set_display (attach recipe : option Z) (s : HostState) : HostState :=
  mk_host (pending_manifest s) (pending_recipe s) (pending_probe s) attach recipe
    (pending_update s) (update_after_probe s) (pending_reboot s) (reboot_after_probe s)
    (liveness_deadline s) (last_received s) (updates s) (reboots s).
Definition set_update (pending : option Z) (after_probe : option DisplayUpdate) (s : HostState)
    : HostState :=
  mk_host (pending_manifest s) (pending_recipe s) (pending_probe s) (pending_display_attach s)
    (pending_display_recipe s) pending after_probe (pending_reboot s) (reboot_after_probe s)
    (liveness_deadline s) (last_received s) (updates s) (reboots s).
Definition set_reboot (pending : option Z) (after_probe : option AgentReboot) (s : HostState)
    : HostState :=
  mk_host (pending_manifest s) (pending_recipe s) (pending_probe s) (pending_display_attach s)
    (pending_display_recipe s) (pending_update s) (update_after_probe s) pending after_probe
    (liveness_deadline s) (last_received s) (updates s) (reboots s).
Definition set_liveness (deadline : option Z) (s : HostState) : HostState :=
  mk_host (pending_manifest s) (pending_recipe s) (pending_probe s) (pending_display_attach s)
    (pending_display_recipe s) (pending_update s) (update_after_probe s) (pending_reboot s)
    (reboot_after_probe s) deadline (last_received s) (updates s) (reboots s).
Definition set_received (now : Z) (s : HostState) : HostState :=
  mk_host (pending_manifest s) (pending_recipe s) (pending_probe s) (pending_display_attach s)
    (pending_display_recipe s) (pending_update s) (update_after_probe s) (pending_reboot s)
    (reboot_after_probe s) (liveness_deadline s) now (updates s) (reboots s).
Definition set_queues (us : list DisplayUpdate) (rs : list AgentReboot) (s : HostState)
    : HostState :=
  mk_host (pending_manifest s) (pending_recipe s) (pending_probe s) (pending_display_attach s)
    (pending_display_recipe s) (pending_update s) (update_after_probe s) (pending_reboot s)
    (reboot_after_probe s) (liveness_deadline s) (last_received s) us rs.

(** ** The host's answers and questions *)

Definition answer (id : Z) (kind : request_kind) : Envelope :=
  match kind with
  | HeartbeatRequestK => response id HeartbeatResponseK
  | HelloRequestK _ =>
      error id InvalidArgument "this session is already open; reconnect to open another"
  | AuthenticateRequestK _ =>
      error id UnsupportedRequest "this build of VMLord does not answer challenges from a guest"
  | AttachGpuSharesRequestK _ =>
      error id UnsupportedRequest "a GPU share manifest is the host's to send"
  | ApplyGpuRecipeRequestK => error id UnsupportedRequest "a GPU recipe is the host's to ask for"
  | ProbeGpuRequestK => error id UnsupportedRequest "a GPU probe is the host's to ask for"
  | AttachDisplayPayloadRequestK _ =>
      error id UnsupportedRequest "a display payload share is the host's to offer"
  | ApplyDisplayRecipeRequestK _ =>
      error id UnsupportedRequest "a display recipe is the host's to ask for"
  | UpdateDisplayPayloadRequestK _ =>
      error id UnsupportedRequest "a display payload update is the host's to ask for"
  | RebootRequestK => error id UnsupportedRequest "a reboot is the host's to ask for"
  end.

Definition wire_share (share : CoreGpu.GpuShare) : AgentProto.GpuShare :=
  match share_role share with
  | WslLib => mk_gpu_share (share_name share) 1 EmptyString
  | WslD3d12 => mk_gpu_share (share_name share) 4 EmptyString
  | GpuPayload => mk_gpu_share (share_name share) 3 EmptyString
  | DriverPackage package => mk_gpu_share (share_name share) 2 package
  end.

Definition liveness_probe : Envelope := request LIVENESS_REQUEST_ID HeartbeatRequestK.
Definition recipe_request : Envelope := request APPLY_REQUEST_ID ApplyGpuRecipeRequestK.
Definition probe_request : Envelope := request PROBE_REQUEST_ID ProbeGpuRequestK.
Definition display_recipe_request (mode : option DisplayMode) : Envelope :=
  request DISPLAY_APPLY_REQUEST_ID (ApplyDisplayRecipeRequestK ((λ m, (width m, height m)) <$> mode)).
Definition update_request (u : DisplayUpdate) : Envelope :=
  request DISPLAY_UPDATE_REQUEST_ID (UpdateDisplayPayloadRequestK (target_version u)).
Definition reboot_request : Envelope := request REBOOT_REQUEST_ID RebootRequestK.

Definition unsupported_update : DisplayUpdateAnswer :=
  mk_update_answer UpdateFailed
    (mk_payload_report None None None
       (Some (mk_display_failure StagePayload PayloadUpdateFailed
          "this guest's agent does not speak the display capability")) None None None).

(** A text between double quotes. *)
Definition quoted (text : string) : string :=
  let quote := String (Ascii.ascii_of_nat 34) EmptyString in (quote +:+ text +:+ quote)%string.

Inductive SessionExit : Type := ClosedExit | ReplacedExit.

(** What a turn found: what the read came back with, when, whether a newer
    connection has authenticated, and what [frame::write] makes of a frame. *)
Record Turn : Type := mk_turn {
  heard : result frame_error Envelope;
  now : Z;
  replacement_ready : bool;
  write_result : Envelope → result frame_error unit;
}.

(** What a piece of a turn puts out, the state it leaves, and whether it failed. *)
Definition Step (A : Type) : Type := list host_output * HostState * result host_error A.

(** A frame written between what comes before it and the state that follows. *)
Definition writing {A} (wr : Envelope → result frame_error unit) (e : Envelope)
    (outs : list host_output) (st : HostState) (a : A) : Step A :=
  match wr e with
  | Ok _ => (outs ++ [Wrote e], st, Ok a)
  | Err x => (outs, st, Err (HostFrame x))
  | Panic => (outs, st, Panic)
  end.

Section serving.
Context (vm_name : string) (s : AgentSession) (work : SessionWork) (timing : SessionTiming).

Definition speaks (c : Capability) : bool := bool_decide (c ∈ capabilities s).

(** [start_reboot]'s reason. *)
Definition too_old_to_reboot : string :=
  ("the agent of VM " +:+ quoted vm_name +:+ " speaks protocol " +:+ pretty (major (version s))
    +:+ "." +:+ pretty (minor (version s)) +:+ ", which cannot be asked to reboot")%string.

(** *** Opening questions *)

Definition host_start (now : Z) : HostState :=
  mk_host None None None None None None None None None None now [] [].

Definition attach_shares : option Envelope :=
  match gpu_shares work with
  | Some shares =>
      if speaks Gpu
      then Some (request ATTACH_REQUEST_ID (AttachGpuSharesRequestK (map wire_share shares)))
      else None
  | None => None
  end.

Definition attach_display : option Envelope :=
  match display_share work with
  | Some share =>
      if speaks Display
      then Some (request DISPLAY_ATTACH_REQUEST_ID (AttachDisplayPayloadRequestK (Some share)))
      else None
  | None => None
  end.

(** Before the loop: the two attachments, whichever there are. *)
Definition serve_start (now : Z) (wr : Envelope → result frame_error unit) : Step unit :=
  let st := host_start now in
  let '(outs, st, r) :=
    match attach_shares with
    | Some e => writing wr e [] (set_gpu (Some ATTACH_REQUEST_ID) None None st) tt
    | None => ([], st, Ok tt)
    end in
  match r with
  | Ok _ =>
      match attach_display with
      | Some e => writing wr e outs (set_display (Some DISPLAY_ATTACH_REQUEST_ID) None st) tt
      | None => (outs, st, Ok tt)
      end
  | Err x => (outs, st, Err x)
  | Panic => (outs, st, Panic)
  end.

(** *** An expired wait between frames *)

Definition has_pending_work (st : HostState) : bool :=
  is_some (pending_manifest st) || is_some (pending_recipe st)
  || is_some (pending_probe st) || is_some (pending_display_attach st)
  || is_some (pending_display_recipe st) || is_some (pending_update st)
  || is_some (pending_reboot st).

Definition overdue (st : HostState) (now : Z) : bool :=
  match liveness_deadline st with Some deadline => deadline <=? now | None => false end.

Definition host_idle (st : HostState) (t : Turn) : Step (option SessionExit) :=
  let probed st := set_liveness (Some (now t + probe_timeout timing)) st in
  if replacement_ready t then ([], st, Ok (Some ReplacedExit))
  else if overdue st (now t) then ([], st, Err HostUnresponsive)
  else if negb (is_some (liveness_deadline st)) && negb (has_pending_work st) then
    match updates st, reboots st with
    | u :: us, _ =>
        let st := set_queues us (reboots st) st in
        if speaks Display
        then writing (write_result t) liveness_probe []
               (probed (set_update (pending_update st) (Some u) st)) None
        else ([AnsweredUpdate (update_asker u) unsupported_update], st, Ok None)
    | [], b :: bs =>
        let st := set_queues [] bs st in
        writing (write_result t) liveness_probe []
          (probed (set_reboot (pending_reboot st) (Some b) st)) None
    | [], [] =>
        if idle_before_probe timing <=? now t - last_received st
        then writing (write_result t) liveness_probe [] (probed st) None
        else ([], st, Ok None)
    end
  else ([], st, Ok None).

(** *** The guest's answers *)

(** The heartbeat that a liveness probe was answered with. *)
Definition host_alive (st : HostState) (t : Turn) : Step (option SessionExit) :=
  match update_after_probe st, reboot_after_probe st with
  | Some u, _ =>
      let st := set_update (pending_update st) None st in
      if speaks Display
      then writing (write_result t) (update_request u) []
             (set_update (Some (update_asker u)) None st) None
      else ([], set_update None None st, Ok None)
  | None, Some b =>
      let st := set_reboot (pending_reboot st) None st in
      if minor (version s) <? REBOOT_REQUEST_REVISION
      then ([AnsweredReboot (reboot_asker b) (Err too_old_to_reboot)], set_reboot None None st, Ok None)
      else writing (write_result t) reboot_request []
             (set_reboot (Some (reboot_asker b)) None st) None
  | None, None => ([], st, Ok None)
  end.

Definition gpu_outputs (r : option GuestGpuReport) : list host_output :=
  match r with Some r => [ReportedGpu r] | None => [] end.
Definition display_outputs (r : option GuestDisplayPayloadReport) : list host_output :=
  match r with Some r => [ReportedDisplay r] | None => [] end.

(** The arms of the loop's [match], in order; an answer no arm takes is logged. *)
Definition host_response (st : HostState) (id : Z) (kind : response_kind) (t : Turn)
    : Step (option SessionExit) :=
  match kind with
  | AttachGpuSharesResponseK _ _ =>
      if decide (pending_manifest st = Some id)
      then writing (write_result t) recipe_request []
             (set_gpu None (Some APPLY_REQUEST_ID) (pending_probe st) st) None
      else ([], st, Ok None)
  | ApplyGpuRecipeResponseK stages =>
      if decide (pending_recipe st = Some id) then
        let st := set_gpu (pending_manifest st) None (pending_probe st) st in
        let '(report, worth_probing) := report_recipe stages in
        if worth_probing
        then writing (write_result t) probe_request (gpu_outputs report)
               (set_gpu (pending_manifest st) None (Some PROBE_REQUEST_ID) st) None
        else (gpu_outputs report, st, Ok None)
      else ([], st, Ok None)
  | ProbeGpuResponseK probe =>
      if decide (pending_probe st = Some id)
      then ([ReportedGpu (report_probe probe)],
            set_gpu (pending_manifest st) (pending_recipe st) None st, Ok None)
      else ([], st, Ok None)
  | AttachDisplayPayloadResponseK mount =>
      if decide (pending_display_attach st = Some id) then
        let st := set_display None (pending_display_recipe st) st in
        let '(report, mounted) := report_display_mount mount in
        if mounted
        then writing (write_result t) (display_recipe_request (display_mode work))
               (display_outputs report)
               (set_display None (Some DISPLAY_APPLY_REQUEST_ID) st) None
        else (display_outputs report, st, Ok None)
      else ([], st, Ok None)
  | ApplyDisplayRecipeResponseK report =>
      if decide (pending_display_recipe st = Some id)
      then ([ReportedDisplay (report_display_recipe report)],
            set_display (pending_display_attach st) None st, Ok None)
      else ([], st, Ok None)
  | UpdateDisplayPayloadResponseK report =>
      if id =? DISPLAY_UPDATE_REQUEST_ID then
        let a := report_display_update report in
        (ReportedDisplay (answer_report a) ::
           match pending_update st with Some asker => [AnsweredUpdate asker a] | None => [] end,
         set_update None (update_after_probe st) st, Ok None)
      else ([], st, Ok None)
  | HeartbeatResponseK =>
      if (id =? LIVENESS_REQUEST_ID) && is_some (liveness_deadline st)
      then host_alive (set_liveness None st) t
      else ([], st, Ok None)
  | RebootResponseK =>
      if id =? REBOOT_REQUEST_ID then
        (match pending_reboot st with Some asker => [AnsweredReboot asker (Ok tt)] | None => [] end,
         set_reboot None (reboot_after_probe st) st, Ok None)
      else ([], st, Ok None)
  | ErrorK _ message =>
      match pending_reboot st with
      | Some asker =>
          if id =? REBOOT_REQUEST_ID
          then ([AnsweredReboot asker (Err message)], set_reboot None (reboot_after_probe st) st, Ok None)
          else ([], st, Ok None)
      | None => ([], st, Ok None)
      end
  | _ => ([], st, Ok None)
  end.

(** One turn of the loop. *)
Definition host_turn (st : HostState) (t : Turn) : Step (option SessionExit) :=
  match heard t with
  | Err FrameClosed => ([], st, Ok (Some ClosedExit))
  | Err FrameIdle => host_idle st t
  | Err e => ([], st, Err (HostFrame e))
  | Panic => ([], st, Panic)
  | Ok envelope =>
      let st := set_received (now t) st in
      match body_of envelope with
      | Err e => ([], st, Err e)
      | Panic => ([], st, Panic)
      | Ok (HostRequest kind) =>
          writing (write_result t) (answer (request_id envelope) kind) [] st None
      | Ok (HostResponse kind) => host_response st (request_id envelope) kind t
      end
  end.

(** *** The session and the threads around it *)

Inductive host_input : Type :=
| AskUpdate (u : DisplayUpdate)
| AskReboot (b : AgentReboot)
| TakeTurn (t : Turn).

Definition host_step (st : HostState) (input : host_input) : Step (option SessionExit) :=
  match input with
  | AskUpdate u => ([], set_queues (updates st ++ [u]) (reboots st) st, Ok None)
  | AskReboot b => ([], set_queues (updates st) (reboots st ++ [b]) st, Ok None)
  | TakeTurn t => host_turn st t
  end.

(** The loop over what happens to it, up to its end; [None] is a session still open. *)
Fixpoint host_run (st : HostState) (inputs : list host_input)
    : list host_output * HostState * option (result host_error SessionExit) :=
  match inputs with
  | [] => ([], st, None)
  | input :: inputs =>
      match host_step st input with
      | (outs, st, Ok None) =>
          let '(more, st, exit) := host_run st inputs in (outs ++ more, st, exit)
      | (outs, st, Ok (Some exit)) => (outs, st, Some (Ok exit))
      | (outs, st, Err e) => (outs, st, Some (Err e))
      | (outs, st, Panic) => (outs, st, Some Panic)
      end
  end.
End serving.
