(* ===== verification/AgentOpenProps.v ===== *)
(** * What opening an agent's session guarantees

    Properties of [AgentFrame.v], [AgentHost.v] and of the opening half of
    [AgentGuest.v]: the two ends agree, nothing is opened without the proof, and
    what the deadline does and does not bound. *)

From stdpp Require Import countable strings.
From S2P Require Import Prelude.
From S2P Require Import Record.
From S2P Require Import AgentProto.
From S2P Require Import AgentFrame.
From S2P Require Import AgentHost.
From S2P Require Import AgentGuest.

(** ** A connection that delivers *)

(** What is still to come, on a transport that neither stalls nor refuses. *)
Record poised (c : Conn) (bytes : list Z) : Prop := {
  poised_steady : steady (events (reader c));
  poised_stream : stream (events (reader c)) = bytes;
  poised_room : room (writer c) = None;
  poised_flushes : flushes (writer c) = true;
}.

(** From [c] to [c'], [said] was written and [bytes] are left. *)
Definition reaches (c c' : Conn) (said bytes : list Z) : Prop :=
  poised c' bytes ∧ written (writer c') = written (writer c) ++ said.

Section delivering.
Context `{Codec : EnvelopeCodec}.

Lemma reaches_trans c1 c2 c3 s1 b1 s2 b2 :
  reaches c1 c2 s1 b1 → reaches c2 c3 s2 b2 → reaches c1 c3 (s1 ++ s2) b2.
Proof. intros [_ H1] [H2 H3]. split; [done|]. by rewrite H3, H1, app_assoc. Qed.

Lemma receive_ok {E} (frame : frame_error → E) c e bytes rest :
  envelope_of (envelope_bytes e) = Some e → encode e = Ok bytes → poised c (bytes ++ rest) →
  ∃ c', receive frame c = (c', Ok e) ∧ reaches c c' [] rest.
Proof.
  intros Hrt He [Hs Hst Hr Hf]. unfold receive.
  destruct (read_frame (reader c) e bytes rest Hrt He Hs Hst) as (r & -> & Hs' & Hst').
  eexists. split; [done|]. split; [by split|]. by rewrite app_nil_r.
Qed.

Lemma send_ok {E} (frame : frame_error → E) e bytes c rest :
  encode e = Ok bytes → poised c rest →
  ∃ c', send frame e c = (c', Ok tt) ∧ reaches c c' bytes rest.
Proof.
  intros He [Hs Hst Hr Hf]. unfold send. rewrite (write_ok _ e bytes) by done.
  eexists. split; [done|]. by split.
Qed.

Lemma read_opening_ok deadline c e bytes rest :
  envelope_of (envelope_bytes e) = Some e → encode e = Ok bytes → poised c (bytes ++ rest) →
  ∃ c', read_opening_frame deadline c = (c', Ok e) ∧ reaches c c' [] rest.
Proof.
  intros Hrt He [Hs Hst Hr Hf]. unfold read_opening_frame. cbn [opening_loop].
  destruct (read_frame (reader c) e bytes rest Hrt He Hs Hst) as (r & -> & Hs' & Hst').
  eexists. split; [done|]. split; [by split|]. by rewrite app_nil_r.
Qed.
End delivering.

(** ** Frames *)

(** As many frames as [n], read one after the other. *)
Fixpoint read_frames `{EnvelopeCodec} (n : nat) (r : Reader)
    : Reader * result frame_error (list Envelope) :=
  match n with
  | O => (r, Ok [])
  | S n =>
      match read r with
      | (r, Ok e) => let '(r, es) := read_frames n r in (r, let? es := es in Ok (e :: es))
      | (r, Err e) => (r, Err e)
      | (r, Panic) => (r, Panic)
      end
  end.

(** As they are written. *)
Fixpoint write_frames `{EnvelopeCodec} (w : Writer) (es : list Envelope)
    : Writer * result frame_error unit :=
  match es with
  | [] => (w, Ok tt)
  | e :: es =>
      match write w e with
      | (w, Ok _) => write_frames w es
      | (w, Err e) => (w, Err e)
      | (w, Panic) => (w, Panic)
      end
  end.

Lemma write_frames_app `{EnvelopeCodec} w es w' :
  write_frames w es = (w', Ok tt) →
  ∃ frames, Forall2 (λ e b, encode e = Ok b) es frames ∧
    written w' = written w ++ concat frames.
Proof.
  revert w. induction es as [|e es IH]; intros w Hw; cbn in Hw.
  { simplify_eq. exists []. by rewrite app_nil_r. }
  destruct (write w e) as [w1 [[]| |]] eqn:Ew; [|done..].
  apply write_inv in Ew as (b & Hb & Hw1). destruct (IH w1 Hw) as (frames & Hf & Hc).
  exists (b :: frames). split; [by constructor|]. by rewrite Hc, Hw1, <- app_assoc.
Qed.

(** C38: what one end writes, frame after frame, is what the other reads, in
    whatever pieces the transport delivers it and however often it is
    interrupted; the bytes that follow are left where they are. *)
Theorem frames_cross_the_stream `{EnvelopeCodec} (w w' : Writer) (r : Reader) es rest :
  Forall (λ e, envelope_of (envelope_bytes e) = Some e) es →
  write_frames w es = (w', Ok tt) → steady (events r) →
  (∀ sent, written w' = written w ++ sent → stream (events r) = sent ++ rest) →
  ∃ r', read_frames (length es) r = (r', Ok es) ∧ stream (events r') = rest.
Proof.
  intros Hrt Hw Hs Hst. destruct (write_frames_app w es w' Hw) as (frames & Hf & Hc).
  specialize (Hst _ Hc). clear Hw Hc. revert r Hs Hst.
  induction Hf as [|e b es frames He Hf IH]; intros r Hs Hst.
  { by exists r. }
  apply Forall_cons_1 in Hrt as [Hrt1 Hrt]. cbn [concat] in Hst. rewrite <- app_assoc in Hst.
  destruct (read_frame r e b _ Hrt1 He Hs Hst) as (r1 & Hr & Hs1 & Hst1).
  destruct (IH Hrt r1 Hs1 Hst1) as (r2 & Hr2 & Hrest).
  exists r2. cbn [length read_frames]. by rewrite Hr, Hr2.
Qed.

(** Reading a frame always answers, whatever the transport does.  It never
    takes more off the stream than a prefix and the largest body; a body that
    announces more is refused with none of it read; an expired wait or a hang-up
    before a frame leaves the stream where it was, so that the reader may speak
    and listen again; and a frame that is accepted is exactly the bytes its
    prefix announced. *)
Theorem frame_read_is_bounded `{EnvelopeCodec} (r : Reader) :
  no_panic (read r).2 ∧
  ∃ taken, stream (events r) = taken ++ stream (events (read r).1) ∧
    zlen taken <= LENGTH_PREFIX_LEN + MAX_BODY_LEN ∧
    match (read r).2 with
    | Ok e => ∃ prefix bytes, taken = prefix ++ bytes ∧ zlen prefix = LENGTH_PREFIX_LEN ∧
        zlen bytes = Z.max 0 (from_le prefix) ∧ envelope_of bytes = Some e
    | Err FrameIdle | Err FrameClosed => taken = []
    | Err (FrameTooLarge n) =>
        zlen taken = LENGTH_PREFIX_LEN ∧ n = from_le taken ∧ MAX_BODY_LEN < n
    | _ => True
    end.
Proof. apply read_accounts. apply surjective_pairing. Qed.

(** ** The four frames *)

Ltac small_id :=
  unfold is_u32, guest_hello, request, response; cbn [request_id];
  unfold HELLO_REQUEST_ID, CHALLENGE_REQUEST_ID; lia.

Section opening.
Context `{Codec : EnvelopeCodec} `{!EnvelopeLaws} (hmac_sha256 : list Z → list Z → list Z).
Context (host guest : Build) (secret nonce : list Z) (name : string).

Definition settled_version : ProtocolVersion :=
  {| major := major (build_version host);
     minor := Z.min (minor (build_version host)) (minor (build_version guest)) |}.
Definition settled_capabilities : list Capability :=
  agreed_capabilities (build_capabilities host) (map capability_wire (build_capabilities guest)).

Definition accepted : Envelope :=
  response HELLO_REQUEST_ID
    (HelloResponseK (mk_hello_response (Some settled_version)
       (map capability_wire settled_capabilities))).
Definition challenge : Envelope := request CHALLENGE_REQUEST_ID (AuthenticateRequestK nonce).
Definition proof : Envelope :=
  response CHALLENGE_REQUEST_ID (AuthenticateResponseK (tag hmac_sha256 secret nonce)).

(** The frames as they are on the wire. *)
Record frames (b1 b2 b3 b4 : list Z) : Prop := {
  frame_hello : encode (guest_hello guest name) = Ok b1;
  frame_accepted : encode accepted = Ok b2;
  frame_challenge : encode challenge = Ok b3;
  frame_proof : encode proof = Ok b4;
}.

(** What the type system knows of the parts. *)
Record opening_inputs : Prop := {
  one_major : major (build_version host) = major (build_version guest);
  host_typed : version_typed (build_version host);
  guest_typed : version_typed (build_version guest);
  nonce_bytes : zlen nonce = LEN ∧ Forall is_u8 nonce;
  tag_bytes : zlen (tag hmac_sha256 secret nonce) = LEN ∧ Forall is_u8 (tag hmac_sha256 secret nonce);
  name_text : text_typed name;
}.

Lemma capability_wires_typed cs : Forall is_i32 (map capability_wire cs).
Proof. apply Forall_fmap, Forall_true. intros []; unfold is_i32; cbn; lia. Qed.

Context (Hin : opening_inputs).

Lemma hello_typed : opening_typed (guest_hello guest name).
Proof.
  split; [small_id|]. cbn. split_and!; [|apply capability_wires_typed|apply Hin].
  intros v [= <-]. apply Hin.
Qed.

Lemma accepted_typed : opening_typed accepted.
Proof.
  unfold accepted.
  split; [small_id|]. cbn. split; [|apply capability_wires_typed].
  intros v [= <-]. pose proof (host_typed Hin) as [? ?]. pose proof (guest_typed Hin) as [? ?].
  unfold version_typed, settled_version, is_u32 in *. cbn [major minor]. lia.
Qed.

Lemma challenge_typed : opening_typed challenge.
Proof. unfold challenge. split; [small_id|]. apply (nonce_bytes Hin). Qed.

Lemma proof_typed : opening_typed proof.
Proof. unfold proof. split; [small_id|]. apply (tag_bytes Hin). Qed.

Lemma greet_ok b1 b2 b3 b4 deadline c rest :
  frames b1 b2 b3 b4 → poised c (b1 ++ rest) →
  ∃ c', greet host deadline c
        = (c', Ok (mk_agent_session settled_version settled_capabilities name)) ∧
    reaches c c' b2 rest.
Proof.
  intros [H1 H2 _ _] Hc. unfold greet, andthen.
  destruct (read_opening_ok deadline c (guest_hello guest name) b1 rest) as (c1 & -> & Hr1);
    [apply envelope_of_bytes, hello_typed|done..|].
  cbn [from_result body_of guest_hello request body fmap option_fmap option_map ok_or
       version_or_default default hello_version hello_capabilities agent_version request_id].
  unfold version_or_default, negotiate_version. cbn [default].
  rewrite (one_major Hin), Z.eqb_refl. cbn [negb]. rewrite <- (one_major Hin).
  fold settled_version settled_capabilities. change (response _ _) with accepted.
  destruct (send_ok HostFrame accepted b2 c1 rest H2) as (c2 & -> & Hr2); [apply Hr1|].
  exists c2. split; [done|]. by apply (reaches_trans c c1 c2 [] rest b2).
Qed.

Lemma authenticate_ok b1 b2 b3 b4 deadline c rest :
  frames b1 b2 b3 b4 → poised c (b4 ++ rest) →
  ∃ c', authenticate hmac_sha256 secret nonce deadline c = (c', Ok tt) ∧ reaches c c' b3 rest.
Proof.
  intros [_ _ H3 H4] Hc. unfold authenticate. unfold andthen at 1. fold challenge.
  destruct (send_ok HostFrame challenge b3 c (b4 ++ rest) H3 Hc) as (c1 & -> & Hr1).
  cbn [answer_loop]. unfold andthen at 1.
  destruct (read_opening_ok deadline c1 proof b4 rest) as (c2 & -> & Hr2);
    [apply envelope_of_bytes, proof_typed|done|apply Hr1|].
  unfold andthen. cbn [from_result body_of proof response body fmap option_fmap option_map ok_or
    request_id]. rewrite Z.eqb_refl. cbn [negb].
  unfold tag_from_wire. rewrite (proj1 (tag_bytes Hin)), Z.eqb_refl. cbn [map_err].
  unfold verify. rewrite bool_decide_eq_true_2 by done.
  exists c2. split; [done|]. pose proof (reaches_trans _ _ _ _ _ _ _ Hr1 Hr2) as Hall.
  by rewrite app_nil_r in Hall.
Qed.

Lemma guest_greet_ok b1 b2 b3 b4 c rest :
  frames b1 b2 b3 b4 → poised c (b2 ++ rest) →
  ∃ c', guest_greet guest name c
        = (c', Ok (mk_guest_session settled_version settled_capabilities)) ∧
    reaches c c' b1 rest.
Proof.
  intros [H1 H2 _ _] Hc. unfold guest_greet, andthen.
  destruct (send_ok GuestFrame (guest_hello guest name) b1 c (b2 ++ rest) H1 Hc) as (c1 & -> & Hr1).
  destruct (receive_ok GuestFrame c1 accepted b2 rest) as (c2 & -> & Hr2);
    [apply envelope_of_bytes, accepted_typed|done|apply Hr1|].
  cbn [from_result guest_body_of accepted response body fmap option_fmap option_map ok_or
    request_id]. rewrite Z.eqb_refl.
  unfold confirm, version_or_default. cbn [chosen_version chosen_capabilities default].
  unfold confirm_version, id. cbn [settled_version major minor].
  rewrite <- (one_major Hin), Z.eqb_refl. cbn [negb orb].
  replace (_ <? _) with false by (symmetry; apply Z.ltb_ge; lia). cbn [map_err rbind].
  rewrite agent_confirm_capabilities_ok.
  - cbn [map_err rbind]. exists c2. split; [done|].
    pose proof (reaches_trans _ _ _ _ _ _ _ Hr1 Hr2) as Hall. by rewrite app_nil_r in Hall.
  - intros k (_ & Hk & Hw)%elem_of_agent_agreed. split; [|done].
    apply list_elem_of_fmap in Hw as (k' & Hk' & Hin'). by destruct k, k'.
Qed.

Lemma guest_authenticate_ok b1 b2 b3 b4 c rest :
  frames b1 b2 b3 b4 → poised c (b3 ++ rest) →
  ∃ c', guest_authenticate hmac_sha256 secret c = (c', Ok tt) ∧ reaches c c' b4 rest.
Proof.
  intros [_ _ H3 H4] Hc. unfold guest_authenticate, andthen.
  destruct (receive_ok GuestFrame c challenge b3 rest) as (c1 & -> & Hr1);
    [apply envelope_of_bytes, challenge_typed|done..|].
  cbn [from_result guest_body_of challenge request body request_id].
  unfold nonce_from_wire. rewrite (proj1 (nonce_bytes Hin)), Z.eqb_refl. cbn [map_err].
  change (response _ _) with proof.
  destruct (send_ok GuestFrame proof b4 c1 rest H4) as (c2 & -> & Hr2); [apply Hr1|].
  exists c2. split; [done|]. by apply (reaches_trans c c1 c2 [] rest b4).
Qed.
End opening.

(** ** Agreement *)

(** C16: an agent and a host of one major, whichever revision and capabilities
    each was built with, open a session when they hold one secret: given what the
    other writes, in whatever pieces it arrives, each writes what the other was
    given, and both end with the older side's revision and the capabilities both
    announced, in the host's order. *)
Theorem opening_agrees `{Codec : EnvelopeCodec} `{!EnvelopeLaws} hmac host guest secret nonce name
    timeout b1 b2 b3 b4 (c_host c_guest : Conn) rest_host rest_guest :
  opening_inputs hmac host guest secret nonce name →
  frames hmac host guest secret nonce name b1 b2 b3 b4 →
  poised c_host (b1 ++ b4 ++ rest_host) → poised c_guest (b2 ++ b3 ++ rest_guest) →
  let v := settled_version host guest in
  let cs := settled_capabilities host guest in
  ∃ c_host' c_guest',
    open_with_timeout hmac host secret nonce timeout c_host
      = (c_host', Ok (mk_agent_session v cs name)) ∧
    reaches c_host c_host' (b2 ++ b3) rest_host ∧
    guest_open hmac guest secret name c_guest = (c_guest', Ok (mk_guest_session v cs)) ∧
    reaches c_guest c_guest' (b1 ++ b4) rest_guest ∧
    minor v <= minor (build_version host) ∧ minor v <= minor (build_version guest) ∧
    ∀ c, c ∈ cs ↔ c ≠ CapabilityUnspecified ∧
      c ∈ build_capabilities host ∧ c ∈ build_capabilities guest.
Proof.
  intros Hin Hb Hh Hg v cs.
  destruct (greet_ok hmac host guest secret nonce name Hin b1 b2 b3 b4
    (clock (reader c_host) + timeout) c_host (b4 ++ rest_host) Hb Hh) as (h1 & Eh1 & Rh1).
  destruct (authenticate_ok hmac host guest secret nonce name Hin b1 b2 b3 b4
    (clock (reader c_host) + timeout) h1 rest_host Hb (proj1 Rh1)) as (h2 & Eh2 & Rh2).
  destruct (guest_greet_ok hmac host guest secret nonce name Hin b1 b2 b3 b4 c_guest
    (b3 ++ rest_guest) Hb Hg) as (g1 & Eg1 & Rg1).
  destruct (guest_authenticate_ok hmac host guest secret nonce name Hin b1 b2 b3 b4 g1
    rest_guest Hb (proj1 Rg1)) as (g2 & Eg2 & Rg2).
  exists h2, g2. unfold open_with_timeout, guest_open, andthen.
  rewrite Eh1, Eh2, Eg1, Eg2. split_and!; try done.
  - by eapply reaches_trans.
  - by eapply reaches_trans.
  - cbn. lia.
  - cbn. lia.
  - intros c. unfold cs, settled_capabilities. rewrite elem_of_agent_agreed, list_elem_of_fmap.
    split; [|naive_solver]. intros (? & ? & c' & Hc' & ?). by destruct c, c'.
Qed.

(** ** Nothing opens without the proof *)

Lemma andthen_inv {E A B} (m : IO E A) (k : A → IO E B) c c' b :
  andthen m k c = (c', Ok b) → ∃ a c1, m c = (c1, Ok a) ∧ k a c1 = (c', Ok b).
Proof. unfold andthen. destruct (m c) as [c1 [a| |]]; [eauto|done..]. Qed.

(** The first step of a successful run, with what it returned and where it left
    the connection; and a step that only looks at a result. *)
Tactic Notation "run_step" hyp(H) "as" simple_intropattern(a) ident(c) ident(Eq) :=
  apply andthen_inv in H as (a & c & Eq & H).
Tactic Notation "pure_step" hyp(H) "as" simple_intropattern(a) ident(Eq) :=
  let c := fresh in
  apply andthen_inv in H as (a & c & Eq & H); unfold from_result in Eq; injection Eq as <- Eq.

Lemma body_of_request e kind : body_of e = Ok (HostRequest kind) → e = request (request_id e) kind.
Proof.
  unfold body_of. destruct e as [id [[[k|]|[k|]]|]]; cbn; try done. by intros [= ->].
Qed.

Lemma body_of_response e kind : body_of e = Ok (HostResponse kind) → e = response (request_id e) kind.
Proof.
  unfold body_of. destruct e as [id [[[k|]|[k|]]|]]; cbn; try done. by intros [= ->].
Qed.

Section proving.
Context `{Codec : EnvelopeCodec} (hmac_sha256 : list Z → list Z → list Z) (build : Build).

(** A request heard before the proof, and what it is told. *)
Definition premature (p : Z * request_kind) : Envelope := request p.1 p.2.
Definition refused (p : Z * request_kind) : Envelope := opening_refusal p.1 p.2.

Lemma answer_loop_inv fuel secret nonce deadline c c' u :
  answer_loop hmac_sha256 fuel secret nonce deadline c = (c', Ok u) →
  ∃ mids, exchanged c c'
    (map premature mids ++ [response CHALLENGE_REQUEST_ID
       (AuthenticateResponseK (tag hmac_sha256 secret nonce))])
    (map refused mids).
Proof.
  revert c. induction fuel as [|fuel IH]; intros c H; [done|]. cbn [answer_loop] in H.
  run_step H as e c1 Er. apply opening_loop_inv in Er as [Hx _].
  pure_step H as [kind|kind] Eb.
  - apply body_of_request in Eb. run_step H as [] c2 Es. apply send_exchanged in Es.
    destruct (IH c2 H) as (mids & Hm). exists ((request_id e, kind) :: mids). cbn [map].
    unfold premature at 1, refused at 1. cbn [fst snd]. rewrite <- Eb.
    exact (exchanged_trans _ _ _ _ _ _ _ (exchanged_trans _ _ _ _ _ _ _ Hx Es) Hm).
  - apply body_of_response in Eb. destruct (_ =? _) eqn:Eid; [|done]. bool_to_prop.
    cbn [negb] in H. destruct kind as [| | |answer| | | | | | |]; try done.
    pure_step H as bytes Et. unfold tag_from_wire in Et.
    destruct (_ =? _); cbn [map_err] in Et; [injection Et as <-|done].
    unfold verify in H. case_if; [|done]. apply bool_decide_eq_true in E. injection H as <- _.
    exists []. cbn [map app]. by rewrite E, <- Eid, <- Eb.
Qed.

(** C18: a session the host holds open was proved: the guest's first frame was a
    hello of the host's major, the last one answered the challenge with the tag
    this VM's secret gives this session's nonce, and everything between was a
    request that was refused.  Until then the host had said nothing but what
    settles the revision, the challenge and those refusals. *)
Theorem open_needs_the_proof secret nonce timeout (c c' : Conn) (s : AgentSession) :
  open_with_timeout hmac_sha256 build secret nonce timeout c = (c', Ok s) →
  ∃ id hello mids,
    exchanged c c'
      (request id (HelloRequestK hello) :: map premature mids ++
       [response CHALLENGE_REQUEST_ID (AuthenticateResponseK (tag hmac_sha256 secret nonce))])
      (response id (HelloResponseK (mk_hello_response (Some (version s))
         (map capability_wire (capabilities s)))) ::
       request CHALLENGE_REQUEST_ID (AuthenticateRequestK nonce) :: map refused mids) ∧
    major (version s) = major (build_version build) ∧
    major (version s) = major (version_or_default (hello_version hello)) ∧
    minor (version s) = Z.min (minor (build_version build))
                          (minor (version_or_default (hello_version hello))) ∧
    ∀ cap, cap ∈ capabilities s ↔ cap ∈ build_capabilities build ∧ cap ≠ CapabilityUnspecified ∧
      capability_wire cap ∈ hello_capabilities hello.
Proof.
  intros H. unfold open_with_timeout in H. run_step H as s' c1 Eg. run_step H as u c2 Ea.
  injection H as <- <-. unfold greet in Eg. run_step Eg as e c3 Er.
  apply opening_loop_inv in Er as [Hx _]. pure_step Eg as b Eb.
  destruct b as [[hello| | | | | | | | |]|]; try (by run_step Eg as v c4 Es).
  apply body_of_request in Eb.
  destruct (negotiate_version _ _) as [v|m|] eqn:En; [|by run_step Eg as v c4 Es|done].
  run_step Eg as w c4 Es. injection Eg as <- <-. apply send_exchanged in Es.
  unfold authenticate in Ea. run_step Ea as w2 c5 Ec. apply send_exchanged in Ec.
  apply answer_loop_inv in Ea as (mids & Hm).
  exists (request_id e), hello, mids. cbn [version capabilities]. split.
  { rewrite <- Eb. exact (exchanged_trans _ _ _ _ _ _ _ (exchanged_trans _ _ _ _ _ _ _
      (exchanged_trans _ _ _ _ _ _ _ Hx Es) Ec) Hm). }
  unfold negotiate_version in En. destruct (_ =? _) eqn:Em; [|done]. cbn [negb] in En.
  bool_to_prop. injection En as <-. cbn [major minor].
  split_and!; [done|done|done|]. intros cap. by rewrite elem_of_agent_agreed.
Qed.
End proving.

(** ** What the deadline bounds *)

Section stalling.
Context `{Codec : EnvelopeCodec} `{!EnvelopeLaws} (hmac_sha256 : list Z → list Z → list Z).
Context (host guest : Build) (secret nonce : list Z) (name : string).

Lemma fill_full eof wait fuel r filled len :
  zlen filled = len → fill_buffer eof wait fuel r filled len = (r, Ok filled).
Proof.
  intros Hl. destruct fuel; cbn [fill_buffer]; by rewrite (proj2 (Z.leb_le _ _)) by lia.
Qed.

Lemma fill_whole eof wait fuel d bytes evs now filled len :
  bytes ≠ [] → zlen filled + zlen bytes = len →
  fill_buffer eof wait (S fuel) (mk_reader ((d, Data bytes) :: evs) now) filled len
  = (mk_reader evs (now + d), Ok (filled ++ bytes)).
Proof.
  intros Hne Hlen. assert (0 < zlen bytes) by (destruct bytes; [done|cbn [length]; lia]).
  cbn [fill_buffer]. rewrite (proj2 (Z.leb_gt _ _)) by lia.
  unfold read_once. cbn [events clock]. rewrite (proj2 (Z.leb_le _ _)) by lia.
  destruct bytes as [|b bytes]; [done|]. apply fill_full. rewrite length_app. lia.
Qed.

Lemma fill_part eof wait fuel d bytes rest evs now filled len :
  bytes ≠ [] → rest ≠ [] → zlen filled + zlen bytes = len →
  fill_buffer eof wait (S fuel) (mk_reader ((d, Data (bytes ++ rest)) :: evs) now) filled len
  = (mk_reader ((0, Data rest) :: evs) (now + d), Ok (filled ++ bytes)).
Proof.
  intros Hne Hr Hlen. assert (0 < zlen bytes) by (destruct bytes; [done|cbn [length]; lia]).
  assert (0 < zlen rest) by (destruct rest; [done|cbn [length]; lia]).
  cbn [fill_buffer]. rewrite (proj2 (Z.leb_gt _ _)) by lia.
  unfold read_once. cbn [events clock]. rewrite (proj2 (Z.leb_gt _ _)) by (rewrite length_app; lia).
  replace (Z.to_nat (len - zlen filled)) with (length bytes) by lia.
  rewrite take_app_length, drop_app_length.
  destruct bytes as [|b bytes]; [done|]. apply fill_full. rewrite length_app. lia.
Qed.

(** A frame that arrives whole, [d] milliseconds after it was waited for. *)
Lemma read_single e bytes d evs now :
  envelope_of (envelope_bytes e) = Some e → encode e = Ok bytes →
  read (mk_reader ((d, Data bytes) :: evs) now) = (mk_reader evs (now + d), Ok e).
Proof.
  intros Hrt [Hmax ->]%encode_inv. unfold read, read_prefix, read_exact. cbn [events length].
  assert (Hlen : body_len (to_le 4 (zlen (envelope_bytes e))) = Ok (zlen (envelope_bytes e))).
  { unfold body_len. rewrite from_le_to_le_u32 by (unfold is_u32, MAX_BODY_LEN in *; lia).
    by rewrite (proj2 (Z.ltb_ge _ _)) by lia. }
  destruct (envelope_bytes e) as [|b wire] eqn:Ew.
  - rewrite app_nil_r, fill_whole by done. cbn [app]. rewrite Hlen, fill_full by done.
    unfold decode. by rewrite Hrt.
  - rewrite fill_part by done. cbn [app]. rewrite Hlen. cbn [events length].
    rewrite fill_whole by done. rewrite Z.add_0_r. cbn [app]. unfold decode. by rewrite Hrt.
Qed.

(** Requests that arrive one by one, each [d] milliseconds after the one before
    was answered. *)
Definition stalling (frames : list (Z * list Z)) (last : list Z) : list (Z * event) :=
  map (λ '(d, bytes), (d, Data bytes)) frames ++ [(0, Data last)].

(** A premature request that can be put on the wire, with its delay and its
    frame, and the frame of its refusal. *)
Record requested (p : Z * request_kind) (frame : Z * list Z) (refusal : list Z) : Prop := {
  requested_read : envelope_of (envelope_bytes (premature p)) = Some (premature p);
  requested_frame : encode (premature p) = Ok frame.2;
  requested_refusal : encode (refused p) = Ok refusal;
}.

Lemma answer_loop_stalls fuel deadline b4 mids frames refusals now w :
  opening_inputs hmac_sha256 host guest secret nonce name →
  encode (proof hmac_sha256 secret nonce) = Ok b4 →
  Forall3 requested mids frames refusals → (length mids < fuel)%nat →
  room w = None → flushes w = true →
  answer_loop hmac_sha256 fuel secret nonce deadline (mk_conn (mk_reader (stalling frames b4) now) w)
  = (mk_conn (mk_reader [] (now + total_delay (stalling frames b4)))
       (mk_writer (written w ++ concat refusals) None true), Ok tt).
Proof.
  intros Hin H4 Hall. revert fuel now w.
  induction Hall as [|[id kind] [d bytes] refusal mids frames refusals [Hrt Hf Hr] Hall IH];
    intros fuel now w Hfuel Hroom Hfl; (destruct fuel as [|fuel]; [cbn [length] in Hfuel; lia|]);
    cbn [answer_loop stalling map app]; unfold andthen at 1, read_opening_frame;
    cbn [reader opening_loop].
  - rewrite (read_single (proof hmac_sha256 secret nonce)) by
      (done || by apply envelope_of_bytes, (proof_typed _ host guest _ _ name)).
    cbn [writer]. unfold andthen. cbn [from_result body_of proof response body fmap option_fmap
      option_map ok_or request_id].
    rewrite Z.eqb_refl. cbn [negb]. unfold tag_from_wire.
    rewrite (proj1 (tag_bytes _ _ _ _ _ _ Hin)), Z.eqb_refl. cbn [map_err].
    unfold verify. rewrite bool_decide_eq_true_2 by done. unfold done.
    cbn [total_delay concat]. rewrite app_nil_r. destruct w. cbn in *. subst. done.
  - rewrite (read_single (premature (id, kind))) by done.
    cbn [writer]. unfold andthen. cbn [from_result body_of premature request body fmap option_fmap
      option_map ok_or request_id fst snd].
    unfold send at 1. cbn [reader writer]. change (opening_refusal id kind) with (refused (id, kind)).
    rewrite (write_ok _ _ refusal) by done. cbn [map_err].
    fold (stalling frames b4). rewrite IH by (cbn [length] in *; done || lia).
    cbn [written total_delay concat]. by rewrite app_assoc, Z.add_assoc.
Qed.

Lemma stalling_long mids frames refusals last :
  Forall3 requested mids frames refusals →
  (length mids <= length (stream (stalling frames last)))%nat.
Proof.
  induction 1 as [|p [d bytes] refusal mids frames refusals [_ Hf _] _ IH]; [cbn; lia|].
  cbn [stalling map app stream length]. fold (stalling frames last).
  cbn [snd] in Hf. apply encode_inv in Hf as [_ ->]. rewrite !length_app, length_to_le. lia.
Qed.

Lemma greet_whole b1 b2 deadline evs now w :
  opening_inputs hmac_sha256 host guest secret nonce name →
  encode (guest_hello guest name) = Ok b1 → encode (accepted host guest) = Ok b2 →
  room w = None → flushes w = true →
  greet host deadline (mk_conn (mk_reader ((0, Data b1) :: evs) now) w)
  = (mk_conn (mk_reader evs now) (mk_writer (written w ++ b2) None true),
     Ok (mk_agent_session (settled_version host guest) (settled_capabilities host guest) name)).
Proof.
  intros Hin H1 H2 Hroom Hfl. unfold greet, andthen at 1, read_opening_frame.
  cbn [reader events opening_loop].
  rewrite (read_single (guest_hello guest name)) by
    (done || by apply envelope_of_bytes, (hello_typed hmac_sha256 host guest secret nonce)).
  rewrite Z.add_0_r. unfold andthen. cbn [writer from_result body_of guest_hello request body fmap
    option_fmap option_map ok_or hello_version hello_capabilities agent_version request_id].
  unfold version_or_default, negotiate_version. cbn [default].
  rewrite (one_major _ _ _ _ _ _ Hin), Z.eqb_refl. cbn [negb].
  rewrite <- (one_major _ _ _ _ _ _ Hin).
  fold (settled_version host guest) (settled_capabilities host guest).
  change (response _ _) with (accepted host guest). unfold send. cbn [reader writer].
  by rewrite (write_ok _ _ b2).
Qed.

(** The time allowed for opening a session bounds only a guest that falls
    silent: one that keeps asking for things it has no right to yet is refused
    each of them, but keeps the host in the opening for as long as it likes, and
    is let in whenever it then answers. *)
Theorem opening_outlives_its_deadline b1 b2 b3 b4 mids frames' refusals timeout w :
  opening_inputs hmac_sha256 host guest secret nonce name →
  frames hmac_sha256 host guest secret nonce name b1 b2 b3 b4 →
  Forall3 requested mids frames' refusals → room w = None → flushes w = true →
  open_with_timeout hmac_sha256 host secret nonce timeout
    (mk_conn (mk_reader ((0, Data b1) :: stalling frames' b4) 0) w)
  = (mk_conn (mk_reader [] (total_delay (stalling frames' b4)))
       (mk_writer (written w ++ b2 ++ b3 ++ concat refusals) None true),
     Ok (mk_agent_session (settled_version host guest) (settled_capabilities host guest) name)).
Proof.
  intros Hin [H1 H2 H3 H4] Hall Hroom Hfl. unfold open_with_timeout, andthen at 1.
  rewrite (greet_whole b1 b2) by done. unfold authenticate. unfold andthen at 1, andthen at 1.
  unfold send at 1. cbn [reader writer]. fold (challenge nonce).
  rewrite (write_ok _ _ b3) by done. cbn [map_err].
  rewrite (answer_loop_stalls _ _ b4 mids frames' refusals) by
    (done || (cbn [reader events]; pose proof (stalling_long mids frames' refusals b4 Hall); lia)).
  cbn [written]. unfold done. by rewrite Z.add_0_l, <- !app_assoc.
Qed.
End stalling.

(** ** Witnesses

    An encoding of the opening messages by [Countable], and a MAC of 32 bytes. *)

Definition Wire : Type :=
  Z * (option (Z * Z) * list Z * string + list Z + option (Z * Z) * list Z + list Z + () + ()).

Definition pair_of (v : ProtocolVersion) : Z * Z := (major v, minor v).
Definition version_of (p : Z * Z) : ProtocolVersion := mk_version p.1 p.2.

Definition to_wire (e : Envelope) : option Wire :=
  match body e with
  | Some (RequestBody (Some (HelloRequestK h))) =>
      Some (request_id e, inl (inl (inl (inl (inl
        (pair_of <$> hello_version h, hello_capabilities h, agent_version h))))))
  | Some (RequestBody (Some (AuthenticateRequestK nonce))) =>
      Some (request_id e, inl (inl (inl (inl (inr nonce)))))
  | Some (ResponseBody (Some (HelloResponseK h))) =>
      Some (request_id e, inl (inl (inl (inr (pair_of <$> chosen_version h, chosen_capabilities h)))))
  | Some (ResponseBody (Some (AuthenticateResponseK tag))) =>
      Some (request_id e, inl (inl (inr tag)))
  | Some (RequestBody (Some HeartbeatRequestK)) => Some (request_id e, inl (inr ()))
  | Some (ResponseBody (Some HeartbeatResponseK)) => Some (request_id e, inr ())
  | _ => None
  end.

Definition of_wire (w : Wire) : Envelope :=
  match w.2 with
  | inl (inl (inl (inl (inl (v, caps, name))))) =>
      request w.1 (HelloRequestK (mk_hello_request (version_of <$> v) caps name))
  | inl (inl (inl (inl (inr nonce)))) => request w.1 (AuthenticateRequestK nonce)
  | inl (inl (inl (inr (v, caps)))) =>
      response w.1 (HelloResponseK (mk_hello_response (version_of <$> v) caps))
  | inl (inl (inr tag)) => response w.1 (AuthenticateResponseK tag)
  | inl (inr _) => request w.1 HeartbeatRequestK
  | inr _ => response w.1 HeartbeatResponseK
  end.

Fixpoint pos_bytes (p : positive) : list Z :=
  match p with xH => [] | xO p => 0 :: pos_bytes p | xI p => 1 :: pos_bytes p end.
Fixpoint bytes_pos (bytes : list Z) : positive :=
  match bytes with
  | [] => xH
  | b :: bytes => if b =? 0 then xO (bytes_pos bytes) else xI (bytes_pos bytes)
  end.

Lemma bytes_pos_bytes p : bytes_pos (pos_bytes p) = p.
Proof. induction p as [p IH|p IH|]; cbn; by rewrite ?IH. Qed.

#[export] Instance toy_codec : EnvelopeCodec := {|
  envelope_bytes e := match to_wire e with Some w => pos_bytes (countable.encode w) | None => [] end;
  envelope_of bytes := of_wire <$> countable.decode (bytes_pos bytes);
|}.

#[export] Instance toy_codec_laws : EnvelopeLaws.
Proof.
  split. intros [id [[[k|]|[k|]]|]] [_ H]; cbn in H; try done; destruct k; try done;
    unfold envelope_of, envelope_bytes, toy_codec, to_wire;
    cbn [body request_id]; rewrite bytes_pos_bytes, decode_encode; cbn; unfold of_wire; cbn.
  - destruct hello as [[[]|] ? ?]; done.
  - done.
  - done.
  - destruct hello as [[[]|] ?]; done.
  - done.
  - done.
Qed.

Definition toy_mac (key message : list Z) : list Z :=
  map (λ k, as_u8 (k + fold_right Z.add 0 message)) (take 32 (key ++ replicate 32 0)).

Definition toy_secret : list Z := replicate 32 7.
Definition toy_nonce : list Z := replicate 32 9.

(** A host of today, and an agent built two revisions ago without the display. *)
Definition old_agent : Build := mk_build (mk_version 1 7) [Gpu].

Definition wire_frame (e : Envelope) : list Z := match encode e with Ok b => b | _ => [] end.

Definition w1 : list Z := wire_frame (guest_hello old_agent "0.9").
Definition w2 : list Z := wire_frame (accepted this_host old_agent).
Definition w3 : list Z := wire_frame (challenge toy_nonce).
Definition w4 : list Z := wire_frame (proof toy_mac toy_secret toy_nonce).

Lemma toy_inputs : opening_inputs toy_mac this_host old_agent toy_secret toy_nonce "0.9".
Proof.
  assert (Hu8 : ∀ l, Forall is_u8 (map as_u8 l)).
  { intros l. apply Forall_fmap, Forall_true. intros b. apply Z.mod_pos_bound. lia. }
  split.
  - reflexivity.
  - unfold version_typed, is_u32. vm_compute. split_and!; discriminate || reflexivity.
  - unfold version_typed, is_u32. vm_compute. split_and!; discriminate || reflexivity.
  - split; [done|]. apply Forall_replicate. unfold is_u8. lia.
  - split; [done|]. unfold tag, toy_mac. apply Forall_fmap, Forall_true. intros b.
    apply Z.mod_pos_bound. lia.
  - unfold text_typed. vm_compute. repeat constructor.
Qed.

Lemma toy_frames : frames toy_mac this_host old_agent toy_secret toy_nonce "0.9" w1 w2 w3 w4.
Proof. split; vm_compute; reflexivity. Qed.

Definition open_sink : Writer := {| written := []; room := None; flushes := true |}.
Definition arriving (bytes : list Z) : Conn :=
  mk_conn (mk_reader [(5, Data (take 3 bytes)); (0, Interrupted); (9, Data (drop 3 bytes))] 0) open_sink.

Lemma arriving_poised bytes : (3 < length bytes)%nat → poised (arriving bytes) bytes.
Proof.
  intros Hlen. split; try done; cbn.
  - repeat constructor; try done.
    + by destruct bytes as [|? [|? [|? []]]]; cbn in *; try lia.
    + intros Hnil%(f_equal length). rewrite length_drop in Hnil. cbn in Hnil. lia.
  - by rewrite app_nil_r, take_drop.
Qed.

Lemma opening_agrees_witness :
  let c_host := arriving (w1 ++ w4 ++ []) in let c_guest := arriving (w2 ++ w3 ++ []) in
  let v := settled_version this_host old_agent in
  let cs := settled_capabilities this_host old_agent in
  ∃ c_host' c_guest',
    open_with_timeout toy_mac this_host toy_secret toy_nonce OPEN_TIMEOUT c_host
      = (c_host', Ok (mk_agent_session v cs "0.9")) ∧
    reaches c_host c_host' (w2 ++ w3) [] ∧
    guest_open toy_mac old_agent toy_secret "0.9" c_guest = (c_guest', Ok (mk_guest_session v cs)) ∧
    reaches c_guest c_guest' (w1 ++ w4) [] ∧
    minor v <= minor (build_version this_host) ∧ minor v <= minor (build_version old_agent) ∧
    ∀ c, c ∈ cs ↔ c ≠ CapabilityUnspecified ∧
      c ∈ build_capabilities this_host ∧ c ∈ build_capabilities old_agent.
Proof.
  apply (opening_agrees toy_mac this_host old_agent toy_secret toy_nonce "0.9" OPEN_TIMEOUT
    w1 w2 w3 w4).
  - apply toy_inputs.
  - apply toy_frames.
  - apply arriving_poised. apply Nat.ltb_lt. vm_compute. reflexivity.
  - apply arriving_poised. apply Nat.ltb_lt. vm_compute. reflexivity.
Defined.

Lemma frames_cross_the_stream_witness :
  let sent := w3 ++ w4 in
  ∃ r', read_frames 2 (reader (arriving (sent ++ [1; 2])))
        = (r', Ok [challenge toy_nonce; proof toy_mac toy_secret toy_nonce]) ∧
    stream (events r') = [1; 2].
Proof.
  set (sent := w3 ++ w4).
  apply (frames_cross_the_stream open_sink
    (write_frames open_sink [challenge toy_nonce; proof toy_mac toy_secret toy_nonce]).1
    (reader (arriving (sent ++ [1; 2])))
    [challenge toy_nonce; proof toy_mac toy_secret toy_nonce] [1; 2]).
  - repeat constructor; vm_compute; reflexivity.
  - vm_compute. reflexivity.
  - apply (arriving_poised (sent ++ [1; 2])). apply Nat.ltb_lt. vm_compute. reflexivity.
  - intros sent' H. assert (sent = sent') as <- by exact H. vm_compute. reflexivity.
Defined.

Definition silent_open : Conn := arriving (w1 ++ w4).

Lemma open_needs_the_proof_witness :
  let c' := (open_with_timeout toy_mac this_host toy_secret toy_nonce 100 silent_open).1 in
  let s := mk_agent_session (mk_version 1 7) [Gpu] "0.9" in
  ∃ id hello mids,
    exchanged silent_open c'
      (request id (HelloRequestK hello) :: map premature mids ++
       [response CHALLENGE_REQUEST_ID (AuthenticateResponseK (tag toy_mac toy_secret toy_nonce))])
      (response id (HelloResponseK (mk_hello_response (Some (version s))
         (map capability_wire (capabilities s)))) ::
       request CHALLENGE_REQUEST_ID (AuthenticateRequestK toy_nonce) :: map refused mids) ∧
    major (version s) = major (build_version this_host) ∧
    major (version s) = major (version_or_default (hello_version hello)) ∧
    minor (version s) = Z.min (minor (build_version this_host))
                          (minor (version_or_default (hello_version hello))) ∧
    ∀ cap, cap ∈ capabilities s ↔ cap ∈ build_capabilities this_host ∧
      cap ≠ CapabilityUnspecified ∧ capability_wire cap ∈ hello_capabilities hello.
Proof.
  apply (open_needs_the_proof toy_mac this_host toy_secret toy_nonce 100 silent_open).
  vm_compute. reflexivity.
Defined.

(** Forty heartbeats, a second each, where thirty seconds are allowed. *)
Definition heartbeats : list (Z * request_kind) := map (λ i, (Z.of_nat i, HeartbeatRequestK)) (seq 2 40).
Definition heartbeat_frames : list (Z * list Z) :=
  map (λ p, (1000, wire_frame (premature p))) heartbeats.
Definition heartbeat_refusals : list (list Z) := map (λ p, wire_frame (refused p)) heartbeats.

Lemma opening_outlives_its_deadline_witness :
  OPEN_TIMEOUT < total_delay (stalling heartbeat_frames w4) ∧
  open_with_timeout toy_mac this_host toy_secret toy_nonce OPEN_TIMEOUT
    (mk_conn (mk_reader ((0, Data w1) :: stalling heartbeat_frames w4) 0) open_sink)
  = (mk_conn (mk_reader [] (total_delay (stalling heartbeat_frames w4)))
       (mk_writer (written open_sink ++ w2 ++ w3 ++ concat heartbeat_refusals) None true),
     Ok (mk_agent_session (settled_version this_host old_agent)
           (settled_capabilities this_host old_agent) "0.9")).
Proof.
  split; [reflexivity|].
  apply (opening_outlives_its_deadline toy_mac this_host old_agent toy_secret toy_nonce "0.9"
    w1 w2 w3 w4 heartbeats).
  - apply toy_inputs.
  - apply toy_frames.
  - repeat constructor; vm_compute; reflexivity.
  - reflexivity.
  - reflexivity.
Defined.

(** It said hello, and then nothing for a hundred polls of a second each. *)
Definition falling_silent : Conn :=
  mk_conn (mk_reader ([(0, Data w1)] ++ repeat (1000, NotYet) 100) 0) open_sink.

Lemma a_silent_peer_is_given_up_witness :
  (let '(c', o) := open_with_timeout toy_mac this_host toy_secret toy_nonce 5000 falling_silent in
   clock (reader c') <= 0 + 5000 + 1000 ∧ no_panic o) ∧
  (open_with_timeout toy_mac this_host toy_secret toy_nonce 5000 falling_silent).2 = Err HostOpeningTimedOut.
Proof.
  split; [|vm_compute; reflexivity].
  apply (a_silent_peer_is_given_up toy_mac this_host toy_secret toy_nonce 5000 1000
           [(0, Data w1)] (repeat (1000, NotYet) 100) 0 open_sink).
  - repeat constructor. discriminate.
  - apply list.Forall_forall. intros e He. apply list_elem_of_In, repeat_spec in He. subst e.
    split; [reflexivity|split; discriminate].
  - discriminate.
Defined.
