(* ===== verification/AgentServeProps.v ===== *)
(** * What serving an agent's session guarantees

    Properties of [AgentServe.v] and of the serving half of [AgentGuest.v]: the
    phases a session moves through, the ids it asks under, what becomes of the
    updates and reboots that are asked for, that the work of a session gets
    done, and two places where the host does less than it says. *)

From stdpp Require Import sets strings.
From S2P Require Import Prelude.
From S2P Require Import CoreGpu.
From S2P Require Import CoreDisplay.
From S2P Require Import AgentProto.
From S2P Require Import AgentFrame.
From S2P Require Import AgentHost.
From S2P Require Import AgentGuest.
From S2P Require Import AgentServe.

(** ** The phases of a session

    The thirteen fields of the host's loop only ever hold one of these. *)

Inductive gpu_stage : Type := GpuIdle | GpuAttaching | GpuApplying | GpuProbing.
Inductive display_stage : Type := DisplayIdle | DisplayAttaching | DisplayApplying.

Inductive phase : Type :=
| Working (g : gpu_stage) (d : display_stage)
| Probing (deadline : Z) (then_ask : option (DisplayUpdate + AgentReboot))
| Updating (asker : Z)
| Rebooting (asker : Z).

Definition manifest_of (g : gpu_stage) : option Z :=
  match g with GpuAttaching => Some ATTACH_REQUEST_ID | _ => None end.
Definition recipe_of (g : gpu_stage) : option Z :=
  match g with GpuApplying => Some APPLY_REQUEST_ID | _ => None end.
Definition probe_of (g : gpu_stage) : option Z :=
  match g with GpuProbing => Some PROBE_REQUEST_ID | _ => None end.
Definition attach_of (d : display_stage) : option Z :=
  match d with DisplayAttaching => Some DISPLAY_ATTACH_REQUEST_ID | _ => None end.
Definition apply_of (d : display_stage) : option Z :=
  match d with DisplayApplying => Some DISPLAY_APPLY_REQUEST_ID | _ => None end.

Definition at_phase (p : phase) (last : Z) (us : list DisplayUpdate) (bs : list AgentReboot)
    : HostState :=
  match p with
  | Working g d =>
      mk_host (manifest_of g) (recipe_of g) (probe_of g) (attach_of d) (apply_of d)
        None None None None None last us bs
  | Probing deadline None =>
      mk_host None None None None None None None None None (Some deadline) last us bs
  | Probing deadline (Some (inl u)) =>
      mk_host None None None None None None (Some u) None None (Some deadline) last us bs
  | Probing deadline (Some (inr b)) =>
      mk_host None None None None None None None None (Some b) (Some deadline) last us bs
  | Updating asker => mk_host None None None None None (Some asker) None None None None last us bs
  | Rebooting asker => mk_host None None None None None None None (Some asker) None None last us bs
  end.

(** The ids the host waits for an answer under. *)
Definition in_flight (p : phase) : list Z :=
  match p with
  | Working g d =>
      option_list (manifest_of g) ++ option_list (recipe_of g) ++ option_list (probe_of g)
      ++ option_list (attach_of d) ++ option_list (apply_of d)
  | Probing _ _ => [LIVENESS_REQUEST_ID]
  | Updating _ => [DISPLAY_UPDATE_REQUEST_ID]
  | Rebooting _ => [REBOOT_REQUEST_ID]
  end.

(** Who waits for an update, first come first served, and who for a reboot. *)
Definition waiting_updates (p : phase) (us : list DisplayUpdate) : list Z :=
  match p with
  | Updating asker => [asker]
  | Probing _ (Some (inl u)) => [update_asker u]
  | _ => []
  end ++ map update_asker us.
Definition waiting_reboots (p : phase) (bs : list AgentReboot) : list Z :=
  match p with
  | Rebooting asker => [asker]
  | Probing _ (Some (inr b)) => [reboot_asker b]
  | _ => []
  end ++ map reboot_asker bs.

(** ** What a turn hears, asks and answers *)

Definition responds (e : Envelope) : list Z :=
  match body e with Some (ResponseBody _) => [request_id e] | _ => [] end.
Definition requests (e : Envelope) : list Z :=
  match body e with Some (RequestBody _) => [request_id e] | _ => [] end.

Definition heard_ids (i : host_input) : list Z :=
  match i with
  | TakeTurn t => match heard t with Ok e => responds e | _ => [] end
  | _ => []
  end.
Definition asked_ids (outs : list host_output) : list Z :=
  flat_map (λ o, match o with Wrote e => requests e | _ => [] end) outs.
Definition answered_updates (outs : list host_output) : list Z :=
  flat_map (λ o, match o with AnsweredUpdate asker _ => [asker] | _ => [] end) outs.
Definition answered_reboots (outs : list host_output) : list Z :=
  flat_map (λ o, match o with AnsweredReboot asker _ => [asker] | _ => [] end) outs.
Definition update_asks (i : host_input) : list Z :=
  match i with AskUpdate u => [update_asker u] | _ => [] end.
Definition reboot_asks (i : host_input) : list Z :=
  match i with AskReboot b => [reboot_asker b] | _ => [] end.

Section phases.
Context (vm_name : string) (s : AgentSession) (work : SessionWork) (timing : SessionTiming).

(** An update is only probed for where the session can carry it. *)
Definition phase_ok (p : phase) : Prop :=
  match p with Probing _ (Some (inl _)) => speaks s Display = true | _ => True end.

(** A step from one phase to another, by what it heard, asked and answered. *)
Record moves (p : phase) (us : list DisplayUpdate) (bs : list AgentReboot) (i : host_input)
    (outs : list host_output) (p' : phase) (us' : list DisplayUpdate) (bs' : list AgentReboot)
    : Prop := {
  moves_ok : phase_ok p';
  moves_fresh : ∀ id, id ∈ asked_ids outs → id ∈ in_flight p → id ∈ heard_ids i;
  moves_asked : ∀ id, id ∈ asked_ids outs → id ∈ in_flight p';
  moves_kept : ∀ id, id ∈ in_flight p → id ∉ heard_ids i → id ∈ in_flight p';
  moves_once : NoDup (asked_ids outs);
  moves_updates : answered_updates outs ++ waiting_updates p' us'
                  = waiting_updates p us ++ update_asks i;
  moves_reboots : answered_reboots outs ++ waiting_reboots p' bs'
                  = waiting_reboots p bs ++ reboot_asks i;
}.

Lemma moves_stay p us bs i outs :
  phase_ok p → asked_ids outs = [] → answered_updates outs = [] → answered_reboots outs = [] →
  update_asks i = [] → reboot_asks i = [] → moves p us bs i outs p us bs.
Proof.
  intros Hp Ha Hu Hb Hi Hj. split; rewrite ?Ha, ?Hu, ?Hb, ?Hi, ?Hj, ?app_nil_r; try done.
  - by intros id ?%elem_of_nil.
  - by intros id ?%elem_of_nil.
  - constructor.
Qed.

Lemma writing_inv {A} wr e outs0 st (a : A) outs st' a' :
  writing wr e outs0 st a = (outs, st', Ok a') → outs = outs0 ++ [Wrote e] ∧ st' = st ∧ a' = a.
Proof. unfold writing. destruct (wr e); intros; by simplify_eq. Qed.

Ltac into_phase p last us bs := exists p, last, us, bs; split; [reflexivity|].

(** Membership in lists of the fixed ids. *)
Ltac fixed_ids :=
  repeat match goal with H : heard_ids _ = _ |- _ => rewrite H in *; clear H end;
  unfold option_list, option_rect, REBOOT_REQUEST_ID, LIVENESS_REQUEST_ID, DISPLAY_UPDATE_REQUEST_ID,
    DISPLAY_APPLY_REQUEST_ID, DISPLAY_ATTACH_REQUEST_ID, PROBE_REQUEST_ID, APPLY_REQUEST_ID,
    ATTACH_REQUEST_ID, CHALLENGE_REQUEST_ID in *; cbv beta iota in *;
  repeat match goal with
  | H : context [_ ∈ _] |- _ => progress rewrite ?elem_of_app, ?elem_of_cons, ?elem_of_nil in H
  end;
  rewrite ?elem_of_app, ?elem_of_cons, ?elem_of_nil; lia.

(** Closes a step whose lists are concrete. *)
Ltac moves_by_lists :=
  split; cbn [asked_ids answered_updates answered_reboots flat_map app requests body request
    request_id recipe_request probe_request liveness_probe display_recipe_request update_request
    reboot_request responds
    update_asks reboot_asks waiting_updates waiting_reboots in_flight manifest_of recipe_of
    probe_of attach_of apply_of option_list map phase_ok]; rewrite ?app_nil_r;
  try done; try apply NoDup_singleton; try (by constructor);
  try (by intros; fixed_ids).

Lemma host_idle_moves p last us bs t outs st' :
  phase_ok p →
  host_idle s timing (at_phase p last us bs) t = (outs, st', Ok None) →
  ∃ p' last' us' bs', st' = at_phase p' last' us' bs' ∧ moves p us bs (TakeTurn t) outs p' us' bs'.
Proof.
  intros Hp H. unfold host_idle in H.
  destruct (replacement_ready t); [done|]. destruct (overdue _ _); [done|].
  destruct (_ && _)%bool eqn:Equiet.
  - destruct p as [[] []|? [[|]|]| |]; try discriminate Equiet. clear Equiet. cbn in H.
    destruct us as [|u us]; [destruct bs as [|b bs]|].
    + destruct (_ <=? _).
      * apply writing_inv in H as (-> & -> & _).
        into_phase (Probing (now t + probe_timeout timing) None) last (@nil DisplayUpdate) (@nil AgentReboot).
        moves_by_lists.
      * simplify_eq. into_phase (Working GpuIdle DisplayIdle) last (@nil DisplayUpdate) (@nil AgentReboot).
        by apply moves_stay.
    + apply writing_inv in H as (-> & -> & _).
      into_phase (Probing (now t + probe_timeout timing) (Some (inr b))) last (@nil DisplayUpdate) bs.
      moves_by_lists.
    + destruct (speaks s Display) eqn:Es.
      * apply writing_inv in H as (-> & -> & _).
        into_phase (Probing (now t + probe_timeout timing) (Some (inl u))) last us bs.
        moves_by_lists.
      * simplify_eq. into_phase (Working GpuIdle DisplayIdle) last us bs. moves_by_lists.
  - simplify_eq. into_phase p last us bs. by apply moves_stay.
Qed.

(** A heartbeat answers the probe of a [Probing] phase and nothing else. *)
Lemma host_alive_moves deadline w last us bs t id outs st' :
  phase_ok (Probing deadline w) →
  heard t = Ok (response LIVENESS_REQUEST_ID HeartbeatResponseK) → id = LIVENESS_REQUEST_ID →
  host_alive vm_name s (set_liveness None (at_phase (Probing deadline w) last us bs)) t
    = (outs, st', Ok None) →
  ∃ p' last' us' bs', st' = at_phase p' last' us' bs' ∧
    moves (Probing deadline w) us bs (TakeTurn t) outs p' us' bs'.
Proof.
  intros Hp Ht -> H. assert (Hids : heard_ids (TakeTurn t) = [LIVENESS_REQUEST_ID]).
  { cbn. by rewrite Ht. }
  destruct w as [[u|b]|]; cbn in H, Hp.
  - rewrite Hp in H. apply writing_inv in H as (-> & -> & _).
    into_phase (Updating (update_asker u)) last us bs. moves_by_lists.
  - destruct (_ <? _).
    + simplify_eq. into_phase (Working GpuIdle DisplayIdle) last us bs.
      moves_by_lists.
    + apply writing_inv in H as (-> & -> & _).
      into_phase (Rebooting (reboot_asker b)) last us bs. moves_by_lists.
  - simplify_eq. into_phase (Working GpuIdle DisplayIdle) last us bs.
    moves_by_lists.
Qed.

Lemma host_response_moves p last us bs t id kind outs st' :
  phase_ok p → heard t = Ok (response id kind) →
  host_response vm_name s work (at_phase p last us bs) id kind t = (outs, st', Ok None) →
  ∃ p' last' us' bs', st' = at_phase p' last' us' bs' ∧ moves p us bs (TakeTurn t) outs p' us' bs'.
Proof.
  intros Hp Ht H. assert (Hids : heard_ids (TakeTurn t) = [id]) by (cbn; by rewrite Ht).
  assert (Hstay : outs = [] → st' = at_phase p last us bs →
    ∃ p' last' us' bs', st' = at_phase p' last' us' bs' ∧ moves p us bs (TakeTurn t) outs p' us' bs').
  { intros -> ->. into_phase p last us bs. by apply moves_stay. }
  destruct kind; cbn [host_response] in H; try (simplify_eq; by apply Hstay).
  - destruct p as [[] []|? [[|]|]| |asker]; cbn in H; try (simplify_eq; by apply Hstay).
    destruct (id =? REBOOT_REQUEST_ID) eqn:Eid; simplify_eq; [bool_to_prop|by apply Hstay].
    into_phase (Working GpuIdle DisplayIdle) last us bs. moves_by_lists.
  - destruct (_ && _)%bool eqn:E; [|simplify_eq; by apply Hstay].
    apply andb_prop in E as [E1 E2]. bool_to_prop.
    destruct p as [[] []|deadline w| |]; try discriminate E2.
    subst id. by apply (host_alive_moves deadline w last us bs t LIVENESS_REQUEST_ID).
  - destruct (decide _) as [E|]; [|simplify_eq; by apply Hstay].
    destruct p as [[] d|? [[|]|]| |]; try discriminate E. injection E as <-.
    apply writing_inv in H as (-> & -> & _). into_phase (Working GpuApplying d) last us bs. destruct d;
    moves_by_lists.
  - destruct (decide _) as [E|]; [|simplify_eq; by apply Hstay].
    destruct p as [[] d|? [[|]|]| |]; try discriminate E. injection E as <-.
    destruct (report_recipe stages) as [[r|] []] eqn:Er; cbn [gpu_outputs] in H;
      [apply writing_inv in H as (-> & -> & _); into_phase (Working GpuProbing d) last us bs
      |simplify_eq; into_phase (Working GpuIdle d) last us bs
      |apply writing_inv in H as (-> & -> & _); into_phase (Working GpuProbing d) last us bs
      |simplify_eq; into_phase (Working GpuIdle d) last us bs];
      destruct d; moves_by_lists.
  - destruct (decide _) as [E|]; [|simplify_eq; by apply Hstay].
    destruct p as [[] d|? [[|]|]| |]; try discriminate E. injection E as <-. simplify_eq.
    into_phase (Working GpuIdle d) last us bs. destruct d; moves_by_lists.
  - destruct (decide _) as [E|]; [|simplify_eq; by apply Hstay].
    destruct p as [g []|? [[|]|]| |]; try discriminate E. injection E as <-.
    destruct (report_display_mount mount) as [[r|] []] eqn:Er; cbn [display_outputs] in H;
      [apply writing_inv in H as (-> & -> & _); into_phase (Working g DisplayApplying) last us bs
      |simplify_eq; into_phase (Working g DisplayIdle) last us bs
      |apply writing_inv in H as (-> & -> & _); into_phase (Working g DisplayApplying) last us bs
      |simplify_eq; into_phase (Working g DisplayIdle) last us bs];
      destruct g; moves_by_lists.
  - destruct (decide _) as [E|]; [|simplify_eq; by apply Hstay].
    destruct p as [g []|? [[|]|]| |]; try discriminate E. injection E as <-. simplify_eq.
    into_phase (Working g DisplayIdle) last us bs. destruct g; moves_by_lists.
  - destruct (id =? _) eqn:Eid; simplify_eq; [bool_to_prop|by apply Hstay].
    destruct p as [g d|deadline [[u|b]|]|asker|asker]; cbn [at_phase pending_update];
      [into_phase (Working g d) last us bs|into_phase (Probing deadline (Some (inl u))) last us bs
      |into_phase (Probing deadline (Some (inr b))) last us bs
      |into_phase (Probing deadline None) last us bs
      |into_phase (Working GpuIdle DisplayIdle) last us bs|into_phase (Rebooting asker) last us bs];
      try (by apply moves_stay); moves_by_lists.
  - destruct (id =? _) eqn:Eid; simplify_eq; [bool_to_prop|by apply Hstay].
    destruct p as [g d|deadline [[u|b]|]|asker|asker]; cbn [at_phase pending_reboot];
      [into_phase (Working g d) last us bs|into_phase (Probing deadline (Some (inl u))) last us bs
      |into_phase (Probing deadline (Some (inr b))) last us bs
      |into_phase (Probing deadline None) last us bs
      |into_phase (Updating asker) last us bs|into_phase (Working GpuIdle DisplayIdle) last us bs];
      try (by apply moves_stay); moves_by_lists.
Qed.

Lemma at_phase_received p last us bs now :
  set_received now (at_phase p last us bs) = at_phase p now us bs.
Proof. by destruct p as [g d|deadline [[u|b]|]|asker|asker]. Qed.

Lemma at_phase_queues p last us bs us' bs' :
  set_queues us' bs' (at_phase p last us bs) = at_phase p last us' bs'.
Proof. by destruct p as [g d|deadline [[u|b]|]|asker|asker]. Qed.

Lemma at_phase_updates p last us bs : updates (at_phase p last us bs) = us.
Proof. by destruct p as [g d|deadline [[u|b]|]|asker|asker]. Qed.
Lemma at_phase_reboots p last us bs : reboots (at_phase p last us bs) = bs.
Proof. by destruct p as [g d|deadline [[u|b]|]|asker|asker]. Qed.

(** The host answers a request by a response, never by a question. *)
Lemma answer_asks_nothing id kind : requests (answer id kind) = [].
Proof. by destruct kind. Qed.

Lemma host_step_moves p last us bs i outs st' :
  phase_ok p → host_step vm_name s work timing (at_phase p last us bs) i = (outs, st', Ok None) →
  ∃ p' last' us' bs', st' = at_phase p' last' us' bs' ∧ moves p us bs i outs p' us' bs'.
Proof.
  intros Hp H. destruct i as [u|b|t]; cbn [host_step] in H.
  - rewrite at_phase_updates, at_phase_reboots, at_phase_queues in H. simplify_eq.
    into_phase p last (us ++ [u]) bs. split; cbn; try (set_solver || constructor); try done.
    + unfold waiting_updates. by rewrite map_app, app_assoc.
    + by rewrite app_nil_r.
  - rewrite at_phase_updates, at_phase_reboots, at_phase_queues in H. simplify_eq.
    into_phase p last us (bs ++ [b]). split; cbn; try (set_solver || constructor); try done.
    + by rewrite app_nil_r.
    + unfold waiting_reboots. by rewrite map_app, app_assoc.
  - unfold host_turn in H. destruct (heard t) as [e|[]|] eqn:Ht; try done.
    + rewrite at_phase_received in H. destruct (body_of e) as [[kind|kind]| |] eqn:Eb; try done.
      * apply writing_inv in H as (-> & -> & _). into_phase p (now t) us bs.
        apply moves_stay; try done. cbn. by rewrite answer_asks_nothing.
      * apply (host_response_moves p (now t) us bs t (request_id e) kind); [done| |done].
        rewrite Ht. f_equal. clear -Eb. unfold body_of in Eb.
        destruct e as [id [[[]|[]]|]]; try done. cbn in Eb. by injection Eb as ->.
    + by apply (host_idle_moves p last us bs t).
Qed.
End phases.

(** ** Runs *)

(** Every id a turn asks under is free: the guest owes no answer for it, or this
    very turn heard that answer. *)
Fixpoint disciplined vm_name s work timing (owed : list Z) (st : HostState)
    (inputs : list host_input) : Prop :=
  match inputs with
  | [] => True
  | i :: inputs =>
      let '(outs, st', r) := host_step vm_name s work timing st i in
      match r with
      | Ok None =>
          NoDup (asked_ids outs) ∧
          (∀ id, id ∈ asked_ids outs → id ∈ owed → id ∈ heard_ids i) ∧
          disciplined vm_name s work timing
            (asked_ids outs ++ filter (λ id, id ∉ heard_ids i) owed) st' inputs
      | _ => asked_ids outs = []
      end
  end.

(** Who waits, in the order they asked. *)
Definition updates_waiting (st : HostState) : list Z :=
  option_list (pending_update st) ++ map update_asker (option_list (update_after_probe st))
  ++ map update_asker (updates st).
Definition reboots_waiting (st : HostState) : list Z :=
  option_list (pending_reboot st) ++ map reboot_asker (option_list (reboot_after_probe st))
  ++ map reboot_asker (reboots st).

Lemma updates_waiting_at p last us bs :
  updates_waiting (at_phase p last us bs) = waiting_updates p us.
Proof. by destruct p as [g d|deadline [[u|b]|]|asker|asker]. Qed.
Lemma reboots_waiting_at p last us bs :
  reboots_waiting (at_phase p last us bs) = waiting_reboots p bs.
Proof. by destruct p as [g d|deadline [[u|b]|]|asker|asker]. Qed.

(** What a turn that does not come round puts out asks and answers nothing. *)
Definition ends_quietly (outs : list host_output) (r : result host_error (option SessionExit))
    : Prop :=
  r = Ok None ∨ asked_ids outs = [] ∧ answered_updates outs = [] ∧ answered_reboots outs = [].

Lemma writing_quiet wr e outs0 st outs st' r :
  writing wr e outs0 st None = (outs, st', r) →
  asked_ids outs0 = [] → answered_updates outs0 = [] → answered_reboots outs0 = [] →
  ends_quietly outs r.
Proof. unfold writing, ends_quietly. destruct (wr e); intros; simplify_eq; auto. Qed.

Lemma reports_quiet r r' :
  asked_ids (gpu_outputs r) = [] ∧ answered_updates (gpu_outputs r) = [] ∧
  answered_reboots (gpu_outputs r) = [] ∧
  asked_ids (display_outputs r') = [] ∧ answered_updates (display_outputs r') = [] ∧
  answered_reboots (display_outputs r') = [].
Proof. by destruct r, r'. Qed.

Ltac quiet Hstep :=
  first [by simplify_eq; left|by simplify_eq; right
        |eapply writing_quiet; [exact Hstep|..];
         (done || apply (reports_quiet _ None) || apply (reports_quiet None))].

Lemma host_step_quiet vm_name s work timing st i outs st' r :
  host_step vm_name s work timing st i = (outs, st', r) → ends_quietly outs r.
Proof.
  destruct i as [u|b|t]; cbn [host_step]; [intros; simplify_eq; by left..|].
  unfold host_turn. destruct (heard t) as [e|[]|]; try (intros; simplify_eq; by right).
  - destruct (body_of e) as [[kind|kind]|x|]; try (intros; simplify_eq; by right).
    + intros Hstep. by eapply writing_quiet.
    + destruct kind; cbn [host_response]; unfold host_alive;
        repeat first [case_match | case_if]; intros Hstep; quiet Hstep.
  - unfold host_idle. repeat first [case_match | case_if]; intros Hstep; quiet Hstep.
Qed.

Section runs.
Context (vm_name : string) (s : AgentSession) (work : SessionWork) (timing : SessionTiming).

(** What the host asks before it listens. *)
Definition first_gpu : gpu_stage := match attach_shares s work with Some _ => GpuAttaching | None => GpuIdle end.
Definition first_display : display_stage :=
  match attach_display s work with Some _ => DisplayAttaching | None => DisplayIdle end.

Lemma serve_start_phase now wr outs st :
  serve_start s work now wr = (outs, st, Ok tt) →
  st = at_phase (Working first_gpu first_display) now [] [] ∧
  asked_ids outs = in_flight (Working first_gpu first_display) ∧
  answered_updates outs = [] ∧ answered_reboots outs = [].
Proof.
  unfold serve_start, first_gpu, first_display, attach_shares, attach_display, writing.
  destruct (gpu_shares work), (speaks s Gpu), (display_share work), (speaks s Display);
    repeat (destruct (wr _)); intros; by simplify_eq.
Qed.

(** The host never asks under an id the guest still owes it an answer for,
    nor twice in one turn: whatever the guest sends, and whoever asks for an
    update or a reboot meanwhile. *)
Theorem host_ids_are_free now wr outs st inputs :
  serve_start s work now wr = (outs, st, Ok tt) →
  NoDup (asked_ids outs) ∧ disciplined vm_name s work timing (asked_ids outs) st inputs.
Proof.
  intros (-> & -> & _)%serve_start_phase. split.
  { destruct first_gpu, first_display; by apply (bool_decide_unpack _); vm_compute. }
  assert (Hp : phase_ok s (Working first_gpu first_display)) by done.
  assert (Ho : ∀ id, id ∈ in_flight (Working first_gpu first_display) →
    id ∈ in_flight (Working first_gpu first_display)) by done.
  revert Hp Ho. generalize (in_flight (Working first_gpu first_display)) at 1 3 as owed.
  generalize (Working first_gpu first_display) as p, now as last,
    (@nil DisplayUpdate) as us, (@nil AgentReboot) as bs.
  induction inputs as [|i inputs IH]; intros p last us bs owed Hp Ho; cbn [disciplined]; [done|].
  destruct (host_step vm_name s work timing (at_phase p last us bs) i) as [[outs' st'] r] eqn:E.
  pose proof (host_step_quiet _ _ _ _ _ _ _ _ _ E) as Hq.
  destruct r as [[exit|]|e|]; [by destruct Hq as [|[]]| |by destruct Hq as [|[]]..].
  destruct (host_step_moves _ _ _ _ _ _ _ _ _ _ _ Hp E) as (p' & last' & us' & bs' & -> & []).
  split_and!; [done|by auto|]. apply IH; [done|].
  intros id [?|[? ?]%list_elem_of_filter]%elem_of_app; auto.
Qed.

Lemma answered_updates_app a b : answered_updates (a ++ b) = answered_updates a ++ answered_updates b.
Proof. apply flat_map_app. Qed.
Lemma answered_reboots_app a b : answered_reboots (a ++ b) = answered_reboots a ++ answered_reboots b.
Proof. apply flat_map_app. Qed.

Lemma host_run_asks inputs : ∀ p last us bs outs st' exit,
  phase_ok s p →
  host_run vm_name s work timing (at_phase p last us bs) inputs = (outs, st', exit) →
  (∃ waiting, answered_updates outs ++ waiting = waiting_updates p us ++ flat_map update_asks inputs ∧
     (exit = None → waiting = updates_waiting st')) ∧
  (∃ waiting, answered_reboots outs ++ waiting = waiting_reboots p bs ++ flat_map reboot_asks inputs ∧
     (exit = None → waiting = reboots_waiting st')).
Proof.
  induction inputs as [|i inputs IH]; intros p last us bs outs st' exit Hp H; cbn [host_run] in H.
  { simplify_eq. cbn [flat_map]. rewrite !app_nil_r, updates_waiting_at, reboots_waiting_at.
    split; eexists; by split. }
  destruct (host_step vm_name s work timing (at_phase p last us bs) i) as [[outs1 st1] r] eqn:E.
  pose proof (host_step_quiet _ _ _ _ _ _ _ _ _ E) as Hq.
  assert (Hend : asked_ids outs1 = [] ∧ answered_updates outs1 = [] ∧ answered_reboots outs1 = [] →
    outs = outs1 → exit ≠ None →
    (∃ waiting, answered_updates outs ++ waiting = waiting_updates p us ++ flat_map update_asks (i :: inputs) ∧
       (exit = None → waiting = updates_waiting st')) ∧
    (∃ waiting, answered_reboots outs ++ waiting = waiting_reboots p bs ++ flat_map reboot_asks (i :: inputs) ∧
       (exit = None → waiting = reboots_waiting st'))).
  { intros (_ & Hu & Hb) -> Hx. rewrite Hu, Hb. split; by eexists. }
  destruct r as [[x|]|e|]; [by destruct Hq; simplify_eq; apply Hend| |by destruct Hq; simplify_eq; apply Hend..].
  destruct (host_step_moves _ _ _ _ _ _ _ _ _ _ _ Hp E) as (p' & last' & us' & bs' & -> & Hm).
  destruct (host_run vm_name s work timing (at_phase p' last' us' bs') inputs) as [[more st2] x] eqn:Er.
  simplify_eq. destruct (IH _ _ _ _ _ _ _ (moves_ok _ _ _ _ _ _ _ _ _ Hm) Er) as ((w1 & H1 & X1) & (w2 & H2 & X2)).
  rewrite answered_updates_app, answered_reboots_app. cbn [flat_map].
  split; [exists w1|exists w2]; (split; [|done]); rewrite <- app_assoc.
  - by rewrite H1, !app_assoc, (moves_updates _ _ _ _ _ _ _ _ _ Hm).
  - by rewrite H2, !app_assoc, (moves_reboots _ _ _ _ _ _ _ _ _ Hm).
Qed.

(** Whoever asks for an update or a reboot is answered once, in the order
    they asked, or is still waiting: what was answered and who waits are, at
    every moment of an open session, exactly who asked; and a session that ended
    has answered a first part of them. *)
Theorem asks_are_answered_in_order now wr outs0 st inputs outs st' exit :
  serve_start s work now wr = (outs0, st, Ok tt) →
  host_run vm_name s work timing st inputs = (outs, st', exit) →
  (∃ waiting, answered_updates outs ++ waiting = flat_map update_asks inputs ∧
     (exit = None → waiting = updates_waiting st')) ∧
  (∃ waiting, answered_reboots outs ++ waiting = flat_map reboot_asks inputs ∧
     (exit = None → waiting = reboots_waiting st')).
Proof.
  intros (-> & _)%serve_start_phase Hrun. by apply host_run_asks in Hrun.
Qed.
(** ** A refusal the host does not read *)

(** An answer to the GPU recipe. *)
Definition recipe_answer (i : host_input) : bool :=
  match i with
  | TakeTurn t =>
      match heard t with
      | Ok e => match body e with
                | Some (ResponseBody (Some (ApplyGpuRecipeResponseK _))) => true
                | _ => false
                end
      | _ => false
      end
  | _ => false
  end.

(** Neither a liveness probe, nor an update, nor a reboot. *)
Definition mute (outs : list host_output) : Prop :=
  answered_updates outs = [] ∧ answered_reboots outs = [] ∧
  ∀ id, id ∈ asked_ids outs → id ≠ LIVENESS_REQUEST_ID ∧ id ≠ DISPLAY_UPDATE_REQUEST_ID ∧
    id ≠ REBOOT_REQUEST_ID.

Lemma mute_nil outs :
  answered_updates outs = [] → answered_reboots outs = [] → asked_ids outs = [] → mute outs.
Proof. intros Hu Hb Ha. split_and!; [done..|]. rewrite Ha. by intros id ?%elem_of_nil. Qed.

Lemma step_response_while_applying d last us bs id kind t outs st' r :
  host_response vm_name s work (at_phase (Working GpuApplying d) last us bs) id kind t
    = (outs, st', r) →
  (∀ stages, kind ≠ ApplyGpuRecipeResponseK stages) →
  mute outs ∧ r ≠ Err HostUnresponsive ∧
  (r = Ok None → ∃ d' last' us' bs', st' = at_phase (Working GpuApplying d') last' us' bs').
Proof.
  intros Hstep Hkind.
  assert (Hstay : ∀ d', mute outs → st' = at_phase (Working GpuApplying d') last us bs → r = Ok None →
    mute outs ∧ r ≠ Err HostUnresponsive ∧
    (r = Ok None → ∃ d' last' us' bs', st' = at_phase (Working GpuApplying d') last' us' bs')).
  { intros d' Hm -> ->. split_and!; [done..|by eauto]. }
  destruct kind; cbn [host_response] in Hstep; try (by destruct (Hkind stages));
    try (simplify_eq; apply (Hstay d); [by apply mute_nil|done..]).
  - by cbn [at_phase pending_reboot] in Hstep; simplify_eq; apply (Hstay d); [apply mute_nil|..].
  - cbn [at_phase liveness_deadline is_some] in Hstep. rewrite andb_false_r in Hstep.
    simplify_eq; apply (Hstay d); [by apply mute_nil|done..].
  - rewrite decide_False in Hstep by done. simplify_eq; apply (Hstay d); [by apply mute_nil|done..].
  - rewrite decide_False in Hstep by done. simplify_eq; apply (Hstay d); [by apply mute_nil|done..].
  - destruct (decide _) as [E|]; [|simplify_eq; apply (Hstay d); [by apply mute_nil|done..]].
    destruct d; try discriminate E.
    destruct (report_display_mount mount) as [[rep|] []] eqn:Er; cbn [display_outputs] in Hstep;
      try (simplify_eq; apply (Hstay DisplayIdle); [by apply mute_nil|done..]);
      unfold writing in Hstep; destruct (write_result t _); simplify_eq;
      try (split_and!; [by apply mute_nil|done..]);
      apply (Hstay DisplayApplying); try done;
      (split_and!; [done..|]); cbn; intros id' ->%list_elem_of_singleton; by vm_compute.
  - destruct (decide _) as [E|]; [|simplify_eq; apply (Hstay d); [by apply mute_nil|done..]].
    destruct d; try discriminate E. simplify_eq. apply (Hstay DisplayIdle); [by apply mute_nil|done..].
  - destruct (id =? _); simplify_eq; apply (Hstay d); try done; by apply mute_nil.
  - destruct (id =? _); simplify_eq; apply (Hstay d); try done; by apply mute_nil.
Qed.

Lemma step_while_applying d last us bs i outs st' r :
  host_step vm_name s work timing (at_phase (Working GpuApplying d) last us bs) i = (outs, st', r) →
  recipe_answer i = false →
  mute outs ∧ r ≠ Err HostUnresponsive ∧
  (r = Ok None → ∃ d' last' us' bs', st' = at_phase (Working GpuApplying d') last' us' bs').
Proof.
  intros Hstep Hi. destruct i as [u|b|t]; cbn [host_step] in Hstep.
  1-2: rewrite at_phase_updates, at_phase_reboots, at_phase_queues in Hstep; simplify_eq;
    split_and!; [by apply mute_nil|done|by eauto].
  unfold host_turn in Hstep. cbn [recipe_answer] in Hi.
  assert (Hstay : ∀ now, outs = [] ∧ st' = at_phase (Working GpuApplying d) now us bs ∧ r = Ok None →
    mute outs ∧ r ≠ Err HostUnresponsive ∧
    (r = Ok None → ∃ d' last' us' bs', st' = at_phase (Working GpuApplying d') last' us' bs')).
  { intros now' (-> & -> & ->). split_and!; [by apply mute_nil|done|by eauto]. }
  destruct (heard t) as [e|x|]; [| |simplify_eq; split_and!; [by apply mute_nil|done..]].
  2:{ destruct x; try (simplify_eq; split_and!; [by apply mute_nil|done..]).
      unfold host_idle in Hstep. case_if; [simplify_eq; split_and!; [by apply mute_nil|done..]|].
      destruct d; cbn in Hstep; simplify_eq; by apply (Hstay last). }
  rewrite at_phase_received in Hstep.
  destruct (body_of e) as [[kind|kind]|x|] eqn:Eb.
  - unfold writing in Hstep. destruct (write_result t _); simplify_eq;
      (split_and!; [|done|by eauto]); apply mute_nil; try done. cbn. by rewrite answer_asks_nothing.
  - apply (step_response_while_applying d (now t) us bs (request_id e) kind t outs st' r Hstep).
    intros stages ->. unfold body_of in Eb. destruct e as [id [[[]|[]]|]]; try done.
    cbn in Eb, Hi. by injection Eb as ->.
  - simplify_eq. split_and!; [by apply mute_nil| |done].
    intros [= ->]. unfold body_of in Eb. destruct e as [id [[[]|[]]|]]; done.
  - simplify_eq. split_and!; [by apply mute_nil|done..].
Qed.

Lemma host_run_phase inputs : ∀ p last us bs outs st',
  phase_ok s p → host_run vm_name s work timing (at_phase p last us bs) inputs = (outs, st', None) →
  ∃ p' last' us' bs', phase_ok s p' ∧ st' = at_phase p' last' us' bs'.
Proof.
  induction inputs as [|i inputs IH]; intros p last us bs outs st' Hp Hrun; cbn [host_run] in Hrun.
  { simplify_eq. eauto 10. }
  destruct (host_step vm_name s work timing (at_phase p last us bs) i) as [[outs1 st1] r] eqn:E.
  destruct r as [[x|]|e|]; try done.
  destruct (host_step_moves _ _ _ _ _ _ _ _ _ _ _ Hp E) as (p' & last' & us' & bs' & -> & []).
  destruct (host_run _ _ _ _ _ inputs) as [[more st2] x] eqn:Er. simplify_eq. eauto.
Qed.

(** A guest that refuses the GPU recipe, as an agent does that was built
    before there was one, ends the host's questions for good: once the recipe was
    asked for, and until an answer to the recipe itself comes, the host neither
    probes whether the guest is alive (and never finds it unresponsive), nor
    starts an update, nor asks for a reboot, whoever waits for one.  An [Error]
    under the recipe's id is no such answer. *)
Theorem a_refused_recipe_mutes_the_session now wr outs0 st before outs st' after more st'' exit :
  serve_start s work now wr = (outs0, st, Ok tt) →
  host_run vm_name s work timing st before = (outs, st', None) →
  pending_recipe st' = Some APPLY_REQUEST_ID →
  Forall (λ i, recipe_answer i = false) after →
  host_run vm_name s work timing st' after = (more, st'', exit) →
  mute more ∧ exit ≠ Some (Err HostUnresponsive).
Proof.
  intros (-> & _)%serve_start_phase Hbefore Hrecipe Hafter Hrun.
  apply host_run_phase in Hbefore as (p & last & us & bs & _ & ->); [|done].
  destruct p as [[] d|? [[|]|]| |]; try discriminate Hrecipe. clear Hrecipe.
  revert d last us bs more Hrun. induction Hafter as [|i after Hi Hafter IH];
    intros d last us bs more Hrun; cbn [host_run] in Hrun; [simplify_eq; by split; [apply mute_nil|]|].
  destruct (host_step _ _ _ _ _ i) as [[outs1 st1] r] eqn:E.
  destruct (step_while_applying _ _ _ _ _ _ _ _ E Hi) as (Hm & Hr & Hnext).
  destruct r as [[x|]|e|]; [by simplify_eq| |by simplify_eq; split; [|intros [= ->]]..].
  destruct (Hnext eq_refl) as (d' & last' & us' & bs' & ->).
  destruct (host_run _ _ _ _ _ after) as [[more' st2] x] eqn:Er. simplify_eq.
  destruct (IH _ _ _ _ _ Er) as ((H1 & H2 & H3) & Hx). destruct Hm as (M1 & M2 & M3).
  split; [|done]. split_and!.
  - by rewrite answered_updates_app, M1, H1.
  - by rewrite answered_reboots_app, M2, H2.
  - intros id. unfold asked_ids. rewrite flat_map_app, elem_of_app. intros [|]; auto.
Qed.

(** An answer to an update nobody asked for is not merely logged: its
    versions and its failure are recorded as the guest's own, in every state of
    an open session. *)
Theorem unsolicited_update_is_recorded (st : HostState) (t : Turn) report :
  heard t = Ok (response DISPLAY_UPDATE_REQUEST_ID (UpdateDisplayPayloadResponseK report)) →
  pending_update st = None →
  ∃ st', host_turn vm_name s work timing st t
         = ([ReportedDisplay (answer_report (report_display_update report))], st', Ok None).
Proof.
  intros Ht Hp. unfold host_turn. rewrite Ht. cbn [body_of body response fmap option_fmap option_map
    ok_or host_response request_id]. rewrite Z.eqb_refl.
  destruct st. cbn in *. subst. by eexists.
Qed.
End runs.

(** ** A session run through *)

Definition full_session : AgentSession := mk_agent_session (mk_version 1 9) [Gpu; Display] "0.9".
Definition full_work : SessionWork :=
  mk_work (Some [mk_core_share "wsl" WslLib]) (Some "display"%string) (Some (mk_mode 1920 1080)).
Definition all_written : Envelope → result frame_error unit := λ _, Ok tt.
Definition full_start : Step unit := serve_start full_session full_work 0 all_written.

Definition hears (now : Z) (e : Envelope) : host_input :=
  TakeTurn (mk_turn (Ok e) now false all_written).
Definition waits (now : Z) : host_input :=
  TakeTurn (mk_turn (Err FrameIdle) now false all_written).

(** A GPU that comes up, a display that refuses, then a reboot nobody answers. *)
Definition full_inputs : list host_input :=
  [hears 1 (response ATTACH_REQUEST_ID (AttachGpuSharesResponseK [] true));
   hears 2 (response DISPLAY_ATTACH_REQUEST_ID (AttachDisplayPayloadResponseK None));
   AskReboot (mk_agent_reboot 41); AskReboot (mk_agent_reboot 42);
   hears 3 (response APPLY_REQUEST_ID (ApplyGpuRecipeResponseK []));
   hears 4 (response PROBE_REQUEST_ID (ProbeGpuResponseK (mk_probe 3 [] "" "" "")));
   waits 5; hears 6 (response LIVENESS_REQUEST_ID HeartbeatResponseK);
   hears 7 (response REBOOT_REQUEST_ID RebootResponseK); waits 8].

Definition full_run := host_run "vm" full_session full_work NORMAL full_start.1.2 full_inputs.

Lemma host_ids_are_free_witness :
  asked_ids full_start.1.1 = [ATTACH_REQUEST_ID; DISPLAY_ATTACH_REQUEST_ID] ∧
  asked_ids full_run.1.1 = [APPLY_REQUEST_ID; PROBE_REQUEST_ID; LIVENESS_REQUEST_ID;
    REBOOT_REQUEST_ID; LIVENESS_REQUEST_ID] ∧
  NoDup (asked_ids full_start.1.1) ∧
  disciplined "vm" full_session full_work NORMAL (asked_ids full_start.1.1) full_start.1.2 full_inputs.
Proof.
  split; [by vm_compute|]. split; [by vm_compute|].
  by apply (host_ids_are_free "vm" full_session full_work NORMAL 0 all_written).
Defined.

Lemma asks_are_answered_in_order_witness :
  answered_reboots full_run.1.1 = [41] ∧
  (∃ waiting, answered_updates full_run.1.1 ++ waiting = flat_map update_asks full_inputs ∧
     (full_run.2 = None → waiting = updates_waiting full_run.1.2)) ∧
  (∃ waiting, answered_reboots full_run.1.1 ++ waiting = flat_map reboot_asks full_inputs ∧
     (full_run.2 = None → waiting = reboots_waiting full_run.1.2)).
Proof.
  split; [by vm_compute|].
  apply (asks_are_answered_in_order "vm" full_session full_work NORMAL 0 all_written
    full_start.1.1 full_start.1.2 full_inputs full_run.1.1 full_run.1.2 full_run.2); by vm_compute.
Defined.

(** An old guest refuses the recipe; a minute of silence later nothing was asked. *)
Definition refused_inputs : list host_input :=
  [hears 2 (error APPLY_REQUEST_ID UnsupportedRequest "no recipe here"); AskReboot (mk_agent_reboot 41);
   hears 3 (response DISPLAY_ATTACH_REQUEST_ID (AttachDisplayPayloadResponseK None));
   waits 40000; waits 80000].
Definition gpu_attached : list host_input :=
  [hears 1 (response ATTACH_REQUEST_ID (AttachGpuSharesResponseK [] true))].
Definition attached_run := host_run "vm" full_session full_work NORMAL full_start.1.2 gpu_attached.
Definition refused_run :=
  host_run "vm" full_session full_work NORMAL attached_run.1.2 refused_inputs.

Lemma a_refused_recipe_mutes_the_session_witness :
  refused_run.2 = None ∧ mute refused_run.1.1 ∧ refused_run.2 ≠ Some (Err HostUnresponsive).
Proof.
  split; [by vm_compute|].
  apply (a_refused_recipe_mutes_the_session "vm" full_session full_work NORMAL 0 all_written
    full_start.1.1 full_start.1.2 gpu_attached attached_run.1.1 attached_run.1.2 refused_inputs
    refused_run.1.1 refused_run.1.2 refused_run.2); try by vm_compute.
  by repeat constructor.
Defined.

Lemma unsolicited_update_is_recorded_witness :
  let report := mk_update [] (Some (mk_versions "9" "8" "7")) 1 in
  ∃ st', host_turn "vm" full_session full_work NORMAL full_start.1.2
           (mk_turn (Ok (response DISPLAY_UPDATE_REQUEST_ID (UpdateDisplayPayloadResponseK report)))
              1 false all_written)
         = ([ReportedDisplay (answer_report (report_display_update report))], st', Ok None).
Proof.
  cbn zeta. apply (unsolicited_update_is_recorded "vm" full_session full_work NORMAL full_start.1.2); by vm_compute.
Defined.
