(* ===== verification/AgentTalk.v ===== *)
(** * Both ends of an agent's session

    The guest's half of serving ([AgentGuest.v]): what it answers, under which
    ids, and what it does only where that was agreed; and the two halves
    together, where a session's work gets done in whatever order its frames are
    delivered. *)

From stdpp Require Import sets strings relations.
From S2P Require Import Prelude.
From S2P Require Import CoreGpu.
From S2P Require Import CoreDisplay.
From S2P Require Import AgentProto.
From S2P Require Import AgentFrame.
From S2P Require Import AgentHost.
From S2P Require Import AgentGuest.
From S2P Require Import AgentServe.
From S2P Require Import AgentServeProps.

(** ** The guest's turns *)

Section guest.
Context {W : Type} (h : Handlers W) (session : GuestSession).

(** A poll found a frame, or expired. *)
Definition guest_turn (st : GuestState W) (poll : option Envelope)
    : GuestState W * result guest_error (option Envelope) :=
  match poll with Some e => guest_hears h session st e | None => guest_idle st end.

(** What the guest says over some polls, and how far it got. *)
Fixpoint guest_turns (st : GuestState W) (polls : list (option Envelope))
    : list Envelope * GuestState W * result guest_error unit :=
  match polls with
  | [] => ([], st, Ok tt)
  | poll :: polls =>
      match guest_turn st poll with
      | (st, Ok reply) =>
          let '(said, st, r) := guest_turns st polls in (option_list reply ++ said, st, r)
      | (st, Err e) => ([], st, Err e)
      | (st, Panic) => ([], st, Panic)
      end
  end.

Definition expired (polls : list (option Envelope)) : Z :=
  zlen (filter (λ p, p = None) polls).

Lemma carry_out_answers kind id w :
  ∃ k, (carry_out h session kind id w).1 = response id k.
Proof.
  unfold carry_out, refuse_unsupported, error. destruct kind; repeat case_match; eauto.
Qed.

Lemma guest_hears_answers st e st' reply :
  guest_hears h session st e = (st', Ok reply) →
  flat_map responds (option_list reply) = requests e ∧
  flat_map requests (option_list reply) = [] ∧
  next_request_id st' = next_request_id st.
Proof.
  unfold guest_hears. destruct (guest_body_of e) as [[kind| |kind]|x|] eqn:Eb; try done.
  - destruct (carry_out_answers kind (request_id e) (world st)) as [k Hk].
    destruct (carry_out h session kind (request_id e) (world st)) as [a w]. cbn in Hk. subst a.
    intros [= <- <-]. destruct e as [id [[[]|[]]|]]; done.
  - intros [= <- <-]. destruct e as [id [[[]|[]]|]]; done.
  - destruct kind; try done. case_decide; [|done]. intros [= <- <-].
    destruct e as [id [[[]|[]]|]]; done.
Qed.

(** However the host's frames and its silences alternate, the guest answers
    every request once, in the order they came and under their ids, and its own
    heartbeats are numbered without a gap from the first one on, one for every
    expired wait: no id is used twice, and none exceeds 32 bits. *)
Theorem guest_answers_in_order (st st' : GuestState W) polls said :
  is_u32 (next_request_id st) → guest_turns st polls = (said, st', Ok tt) →
  flat_map responds said = flat_map requests (omap id polls) ∧
  flat_map requests said = seqZ (next_request_id st) (expired polls) ∧
  next_request_id st' = next_request_id st + expired polls ∧ is_u32 (next_request_id st').
Proof.
  revert st said. induction polls as [|poll polls IH]; intros st said Hu Hrun; cbn [guest_turns] in Hrun.
  { simplify_eq. unfold expired. cbn. rewrite Z.add_0_r. by split_and!. }
  destruct (guest_turn st poll) as [st1 [reply|e|]] eqn:E; [|done..].
  destruct (guest_turns st1 polls) as [[more st2] r] eqn:Er. simplify_eq.
  rewrite !flat_map_app. destruct poll as [e|]; cbn [guest_turn] in E.
  - apply guest_hears_answers in E as (H1 & H2 & H3). rewrite <- H3 in *.
    destruct (IH st1 more Hu Er) as (I1 & I2 & I3 & I4).
    rewrite H1, H2, I1, I2. by split_and!.
  - unfold guest_idle in E. destruct (pending_heartbeat st); [done|]. case_if; [done|].
    simplify_eq. apply Z.ltb_ge in E0. unfold U32_MAX in *.
    assert (Hu' : is_u32 (next_request_id st + 1)) by (unfold is_u32 in *; lia).
    destruct (IH (mk_guest (next_request_id st + 1) (Some (next_request_id st)) (world st)) more Hu' Er) as (I1 & I2 & I3 & I4). cbn [next_request_id] in *. rewrite I1, I2, I3.
    assert (Hx : expired (None :: polls) = Z.succ (expired polls)).
    { unfold expired. rewrite filter_cons_True by done. cbn [length]. lia. }
    rewrite Hx, (seqZ_cons _ (Z.succ _)) by (unfold expired; lia). rewrite Z.pred_succ.
    rewrite I3 in I4. split_and!; [done|done|lia|done].
Qed.
(** Which capability a request needs. *)
Definition needs (kind : request_kind) : option Capability :=
  match kind with
  | AttachGpuSharesRequestK _ | ApplyGpuRecipeRequestK | ProbeGpuRequestK => Some Gpu
  | AttachDisplayPayloadRequestK _ | ApplyDisplayRecipeRequestK _
  | UpdateDisplayPayloadRequestK _ => Some Display
  | _ => None
  end.

(** What a revision before 1.8 cannot name. *)
Definition nameable (minor : Z) (e : Envelope) : Prop :=
  match body e with
  | Some (ResponseBody (Some (UpdateDisplayPayloadResponseK report))) =>
      minor < DISPLAY_REBOOT_REQUIRED_REVISION →
      update_outcome report ≠ OUTCOME_REBOOT_REQUIRED ∧
      Forall (λ s, display_step s ≠ STEP_INITRAMFS) (update_stages report)
  | _ => True
  end.

(** C36: the guest does to itself only what was agreed: a request that needs a
    capability the session lacks, a second hello, a challenge and a request of a
    kind it does not know are refused and change nothing; and what it says of an
    update names nothing the session's revision cannot. *)
Theorem guest_does_what_was_agreed (st st' : GuestState W) e reply :
  guest_hears h session st e = (st', Ok (Some reply)) →
  nameable (minor (guest_version session)) reply ∧
  match body e with
  | Some (RequestBody (Some kind)) =>
      match needs kind with
      | Some c => c ∉ guest_capabilities session →
          world st' = world st ∧ reply = refuse_unsupported (request_id e)
      | None =>
          match kind with
          | HeartbeatRequestK => world st' = world st ∧ reply = response (request_id e) HeartbeatResponseK
          | RebootRequestK => world st' = (reboot h (world st)).2
          | _ => world st' = world st ∧ reply = refuse_unsupported (request_id e)
          end
      end
  | _ => world st' = world st ∧ reply = refuse_unsupported (request_id e)
  end.
Proof.
  unfold guest_hears. destruct e as [id [[[kind|]|[kind|]]|]]; cbn; try done.
  - destruct (carry_out h session kind id (world st)) as [a w] eqn:E. intros [= <- ->].
    unfold carry_out, agreed in E. cbn [set_world world].
    destruct kind; cbn [needs]; repeat case_match; simplify_eq; try done;
      try (split; [done|]; intros Hc; by rewrite bool_decide_eq_false_2 in * by done);
      try (by split; [|intros ?; rewrite ?bool_decide_eq_true in *]).
    all: try (split; [|intros ?; rewrite ?bool_decide_eq_true in *; done]).
    all: unfold nameable; cbn; intros Hm; unfold make_display_update_compatible.
    all: rewrite (proj2 (Z.leb_gt _ _)) by lia; cbn; split; [case_if; bool_to_prop; done|].
    all: apply list.Forall_forall; intros x [? _]%list_elem_of_filter; done.
  - intros [= <- <-]. by split.
  - destruct kind; try done. by case_decide.
Qed.
End guest.

(** ** The two ends together *)

Section talk.
Context {W : Type} (h : Handlers W) (vm_name : string).
Context (s : AgentSession) (gs : GuestSession) (work : SessionWork) (timing : SessionTiming).

(** Both ends, and the frames under way between them. *)
Record Talk : Type := mk_talk {
  host_side : HostState;
  guest_side : GuestState W;
  to_guest : list Envelope;
  to_host : list Envelope;
  reported : list host_output;
}.

Definition wrote (outs : list host_output) : list Envelope :=
  flat_map (λ o, match o with Wrote e => [e] | _ => [] end) outs.

(** A frame found by the host, whose own frames all go out. *)
Definition found (e : Envelope) (now : Z) : Turn := mk_turn (Ok e) now false (λ _, Ok tt).

(** One frame is delivered, to either end and at any time. *)
Inductive delivers : Talk → Talk → Prop :=
| to_the_guest st g g' e rest back out reply :
    guest_hears h gs g e = (g', Ok reply) →
    delivers (mk_talk st g (e :: rest) back out)
      (mk_talk st g' rest (back ++ option_list reply) out)
| to_the_host st st' g e rest forth out now outs :
    host_turn vm_name s work timing st (found e now) = (outs, st', Ok None) →
    delivers (mk_talk st g forth (e :: rest) out)
      (mk_talk st' g (forth ++ wrote outs) rest (out ++ outs)).

(** Right after the host's first questions. *)
Definition talk_start (now : Z) (g : GuestState W) : Talk :=
  let '(outs, st, _) := serve_start s work now (λ _, Ok tt) in
  mk_talk st g (wrote outs) [] outs.

Definition gpu_reports (outs : list host_output) : nat :=
  length (List.filter (λ o, match o with ReportedGpu _ => true | _ => false end) outs).
Definition display_reports (outs : list host_output) : nat :=
  length (List.filter (λ o, match o with ReportedDisplay _ => true | _ => false end) outs).

(** *** Where each stack's question is *)

Definition gpu_asks (g : gpu_stage) (e : Envelope) : Prop :=
  match g with
  | GpuIdle => False
  | GpuAttaching => ∃ shares, e = request ATTACH_REQUEST_ID (AttachGpuSharesRequestK shares)
  | GpuApplying => e = recipe_request
  | GpuProbing => e = probe_request
  end.
Definition gpu_answers (g : gpu_stage) (e : Envelope) : Prop :=
  match g with
  | GpuIdle => False
  | GpuAttaching => ∃ mounts b, e = response ATTACH_REQUEST_ID (AttachGpuSharesResponseK mounts b)
  | GpuApplying => ∃ stages, e = response APPLY_REQUEST_ID (ApplyGpuRecipeResponseK stages)
  | GpuProbing => ∃ probe, e = response PROBE_REQUEST_ID (ProbeGpuResponseK probe)
  end.
Definition display_asks (d : display_stage) (e : Envelope) : Prop :=
  match d with
  | DisplayIdle => False
  | DisplayAttaching => ∃ share, e = request DISPLAY_ATTACH_REQUEST_ID (AttachDisplayPayloadRequestK share)
  | DisplayApplying => ∃ mode, e = display_recipe_request mode
  end.
Definition display_answers (d : display_stage) (e : Envelope) : Prop :=
  match d with
  | DisplayIdle => False
  | DisplayAttaching => ∃ mount, e = response DISPLAY_ATTACH_REQUEST_ID (AttachDisplayPayloadResponseK mount)
  | DisplayApplying => ∃ report, e = response DISPLAY_APPLY_REQUEST_ID (ApplyDisplayRecipeResponseK report)
  end.

(** A question under way, its answer under way, or neither. *)
Inductive track (asks answers : Envelope → Prop) (idle : Prop)
    : list Envelope → list Envelope → Prop :=
| track_idle : idle → track asks answers idle [] []
| track_asked e : asks e → track asks answers idle [e] []
| track_answered e : answers e → track asks answers idle [] [e].

(** How many deliveries are left at most. *)
Definition gpu_left (g : gpu_stage) (answered : list Envelope) : nat :=
  match g with GpuIdle => 0 | GpuAttaching => 6 | GpuApplying => 4 | GpuProbing => 2 end
  - length answered.
Definition display_left (d : display_stage) (answered : list Envelope) : nat :=
  match d with DisplayIdle => 0 | DisplayAttaching => 4 | DisplayApplying => 2 end
  - length answered.

Definition gpu_due (g : gpu_stage) : nat := match g with GpuIdle => 0 | _ => 1 end.
Definition display_due (d : display_stage) : nat := match d with DisplayIdle => 0 | _ => 1 end.

(** Where a session stands whose frames are all accounted for. *)
Inductive standing (gpu display : nat) : nat → Talk → Prop :=
| standing_at g d now gst gq gr dq dr forth back out :
    track (gpu_asks g) (gpu_answers g) (g = GpuIdle) gq gr →
    track (display_asks d) (display_answers d) (d = DisplayIdle) dq dr →
    forth ≡ₚ gq ++ dq → back ≡ₚ gr ++ dr →
    (g ≠ GpuIdle → Gpu ∈ guest_capabilities gs) →
    (d ≠ DisplayIdle → Display ∈ guest_capabilities gs) →
    gpu = (gpu_reports out + gpu_due g)%nat →
    display = (display_reports out + display_due d)%nat →
    standing gpu display (gpu_left g gr + display_left d dr)%nat
      (mk_talk (at_phase (Working g d) now [] []) gst forth back out).

(** *** One stack at a time *)

Lemma gpu_reports_app a b : gpu_reports (a ++ b) = (gpu_reports a + gpu_reports b)%nat.
Proof. unfold gpu_reports. by rewrite List.filter_app, length_app. Qed.
Lemma display_reports_app a b :
  display_reports (a ++ b) = (display_reports a + display_reports b)%nat.
Proof. unfold display_reports. by rewrite List.filter_app, length_app. Qed.

Lemma guest_answers_gpu g gst e :
  gpu_asks g e → (g ≠ GpuIdle → Gpu ∈ guest_capabilities gs) →
  ∃ gst' a, guest_hears h gs gst e = (gst', Ok (Some a)) ∧ gpu_answers g a.
Proof.
  intros He Hc. destruct g; cbn in He; destruct_and?; [done|destruct He as [? ->]|subst..];
    unfold guest_hears; cbn; unfold agreed; rewrite bool_decide_eq_true_2 by (by apply Hc);
    repeat case_match; simplify_eq; (do 2 eexists; split; [reflexivity|]; cbn; eauto).
Qed.

Lemma guest_answers_display d gst e :
  display_asks d e → (d ≠ DisplayIdle → Display ∈ guest_capabilities gs) →
  ∃ gst' a, guest_hears h gs gst e = (gst', Ok (Some a)) ∧ display_answers d a.
Proof.
  intros He Hc. destruct d; cbn in He; [done|destruct He as [? ->]..];
    unfold guest_hears; cbn; unfold agreed; rewrite bool_decide_eq_true_2 by (by apply Hc);
    repeat case_match; simplify_eq; (do 2 eexists; split; [reflexivity|]; cbn; eauto).
Qed.

Lemma host_takes_gpu g d last now e :
  gpu_answers g e →
  ∃ g' outs, host_turn vm_name s work timing (at_phase (Working g d) last [] []) (found e now)
      = (outs, at_phase (Working g' d) now [] [], Ok None) ∧
    track (gpu_asks g') (gpu_answers g') (g' = GpuIdle) (wrote outs) [] ∧
    (gpu_left g' [] < gpu_left g [e])%nat ∧
    (gpu_reports outs + gpu_due g')%nat = gpu_due g ∧ display_reports outs = 0%nat ∧
    (g' ≠ GpuIdle → g ≠ GpuIdle).
Proof.
  intros He. destruct g; cbn in He; [done| | |]; unfold host_turn; cbn.
  - destruct He as (mounts & b & ->). exists GpuApplying. eexists. split; [reflexivity|].
    split_and!; [by constructor|cbn; lia|done..].
  - destruct He as (stages & ->). cbn. unfold report_recipe. destruct (List.find _ _).
    + exists GpuIdle. eexists. split; [reflexivity|]. split_and!; [by constructor|cbn; lia|done..].
    + exists GpuProbing. eexists. split; [reflexivity|]. split_and!; [by constructor|cbn; lia|done..].
  - destruct He as (probe & ->). exists GpuIdle. eexists. split; [reflexivity|].
    split_and!; [by constructor|cbn; lia|done..].
Qed.

Lemma host_takes_display g d last now e :
  display_answers d e →
  ∃ d' outs, host_turn vm_name s work timing (at_phase (Working g d) last [] []) (found e now)
      = (outs, at_phase (Working g d') now [] [], Ok None) ∧
    track (display_asks d') (display_answers d') (d' = DisplayIdle) (wrote outs) [] ∧
    (display_left d' [] < display_left d [e])%nat ∧
    (display_reports outs + display_due d')%nat = display_due d ∧ gpu_reports outs = 0%nat ∧
    (d' ≠ DisplayIdle → d ≠ DisplayIdle).
Proof.
  intros He. destruct d; cbn in He; [done| |]; unfold host_turn; cbn.
  - destruct He as (mount & ->). cbn. unfold report_display_mount.
    destruct mount as [mount|]; [destruct (_ || _)|].
    + exists DisplayApplying. eexists. split; [reflexivity|].
      split_and!; [constructor; by eexists|cbn; lia|done..].
    + exists DisplayIdle. eexists. split; [reflexivity|]. split_and!; [by constructor|cbn; lia|done..].
    + exists DisplayIdle. eexists. split; [reflexivity|]. split_and!; [by constructor|cbn; lia|done..].
  - destruct He as (report & ->). exists DisplayIdle. eexists. split; [reflexivity|].
    split_and!; [by constructor|cbn; lia|done..].
Qed.

(** *** One delivery *)

Lemma front_of_either {A} (x : A) rest a b :
  (x ∈ a → a = [x]) → (x ∈ b → b = [x]) → x :: rest ≡ₚ a ++ b →
  (a = [x] ∧ rest ≡ₚ b) ∨ (b = [x] ∧ rest ≡ₚ a).
Proof.
  intros Ha Hb Hp. assert (Hx : x ∈ a ++ b) by (rewrite <- Hp; left).
  apply elem_of_app in Hx as [Hx|Hx].
  - left. rewrite (Ha Hx) in *. split; [done|]. by apply (Permutation_cons_inv (a:=x)).
  - right. rewrite (Hb Hx) in *. split; [done|]. apply (Permutation_cons_inv (a:=x)).
    by rewrite Hp, Permutation_app_comm.
Qed.

Section tracks.
Context {asks answers : Envelope → Prop} {idle : Prop}.

Lemma track_front q r e : track asks answers idle q r → e ∈ q → q = [e] ∧ r = [] ∧ asks e.
Proof. intros [Hi|x Hx|x Hx] He; decompose_list_elem_of; by subst. Qed.
Lemma track_back q r e : track asks answers idle q r → e ∈ r → q = [] ∧ r = [e] ∧ answers e.
Proof. intros [Hi|x Hx|x Hx] He; decompose_list_elem_of; by subst. Qed.
End tracks.

Lemma stands_guest gpu display n st gst e rest back out :
  standing gpu display n (mk_talk st gst (e :: rest) back out) →
  ∃ gst' a, guest_hears h gs gst e = (gst', Ok (Some a)) ∧
    ∃ m, (m < n)%nat ∧ standing gpu display m (mk_talk st gst' rest (back ++ [a]) out).
Proof.
  inversion 1 as [g d now ? gq gr dq dr ? ? ? Hg Hd Hf Hb Cg Cd Rg Rd]; subst.
  destruct (front_of_either e rest gq dq) as [[-> Hr]|[-> Hr]]; [..|done| |].
  - intros He. by apply (track_front _ _ _ Hg).
  - intros He. by apply (track_front _ _ _ Hd).
  - destruct (track_front _ _ e Hg) as (_ & -> & Ha); [left|].
    destruct (guest_answers_gpu g gst e Ha Cg) as (gst' & a & Ea & Aa).
    exists gst', a. split; [done|]. exists (gpu_left g [a] + display_left d dr)%nat.
    split; [destruct g; [done|cbn; lia..]|].
    apply (standing_at _ _ g d now gst' [] [a] dq dr); try done; [by constructor|].
    by rewrite Hb, Permutation_app_comm.
  - destruct (track_front _ _ e Hd) as (_ & -> & Ha); [left|].
    destruct (guest_answers_display d gst e Ha Cd) as (gst' & a & Ea & Aa).
    exists gst', a. split; [done|]. exists (gpu_left g gr + display_left d [a])%nat.
    split; [destruct d; [done|cbn; lia..]|].
    apply (standing_at _ _ g d now gst' gq gr [] [a]); try done; [by constructor| |].
    + by rewrite app_nil_r.
    + by rewrite Hb, app_nil_r.
Qed.

Lemma stands_host gpu display n st gst forth e rest out now :
  standing gpu display n (mk_talk st gst forth (e :: rest) out) →
  ∃ outs st', host_turn vm_name s work timing st (found e now) = (outs, st', Ok None) ∧
    ∃ m, (m < n)%nat ∧ standing gpu display m (mk_talk st' gst (forth ++ wrote outs) rest (out ++ outs)).
Proof.
  inversion 1 as [g d last ? gq gr dq dr ? ? ? Hg Hd Hf Hb Cg Cd Rg Rd]; subst.
  destruct (front_of_either e rest gr dr) as [[-> Hr]|[-> Hr]]; [..|done| |].
  - intros He. by apply (track_back _ _ _ Hg).
  - intros He. by apply (track_back _ _ _ Hd).
  - destruct (track_back _ _ e Hg) as (-> & _ & Ha); [left|].
    destruct (host_takes_gpu g d last now e Ha) as (g' & outs & Et & Tg & Hl & Hrg & Hrd & Hi).
    do 2 eexists. split; [done|]. exists (gpu_left g' [] + display_left d dr)%nat. split; [lia|].
    apply (standing_at _ _ g' d now gst (wrote outs) [] dq dr); try done;
      [by rewrite Hf; apply Permutation_app_comm|auto|rewrite ?gpu_reports_app, ?display_reports_app; lia..].
  - destruct (track_back _ _ e Hd) as (-> & _ & Ha); [left|].
    destruct (host_takes_display g d last now e Ha) as (d' & outs & Et & Td & Hl & Hrd & Hrg & Hi).
    do 2 eexists. split; [done|]. exists (gpu_left g gr + display_left d' [])%nat. split; [lia|].
    apply (standing_at _ _ g d' now gst gq gr (wrote outs) []); try done;
      [by rewrite Hf, app_nil_r|by rewrite app_nil_r|auto|rewrite ?gpu_reports_app, ?display_reports_app; lia..].
Qed.

Lemma delivers_stands gpu display n t t' :
  standing gpu display n t → delivers t t' → ∃ m, (m < n)%nat ∧ standing gpu display m t'.
Proof.
  intros Hs Ht. destruct Ht as [? ? ? ? ? ? ? ? Eg|? ? ? ? ? ? ? at_ ? Eh].
  - apply stands_guest in Hs as (? & ? & Ea & Hm). rewrite Eg in Ea. by injection Ea as <- ->.
  - apply (stands_host _ _ _ _ _ _ _ _ _ at_) in Hs as (? & ? & Et & Hm).
    rewrite Eh in Et. by injection Et as <- <-.
Qed.

Lemma deliveries_stand gpu display k t t' :
  nsteps delivers k t t' → ∀ n, standing gpu display n t →
  ∃ m, (k + m <= n)%nat ∧ standing gpu display m t'.
Proof.
  induction 1 as [t|k t t1 t' Ht _ IH]; intros n Hs; [by exists n; split; [lia|]|].
  destruct (delivers_stands _ _ _ _ _ Hs Ht) as (n1 & Hn & Hs1).
  destruct (IH n1 Hs1) as (m & Hm & Hs'). exists m. split; [lia|done].
Qed.

Lemma talk_start_asks now g :
  let asked := option_list (attach_shares s work) ++ option_list (attach_display s work) in
  talk_start now g
  = mk_talk (at_phase (Working (first_gpu s work) (first_display s work)) now [] []) g
      asked [] (map Wrote asked).
Proof.
  cbn. unfold talk_start, serve_start, first_gpu, first_display.
  by destruct (attach_shares s work), (attach_display s work).
Qed.

Lemma first_gpu_track :
  track (gpu_asks (first_gpu s work)) (gpu_answers (first_gpu s work)) (first_gpu s work = GpuIdle)
    (option_list (attach_shares s work)) [] ∧
  (first_gpu s work ≠ GpuIdle → Gpu ∈ capabilities s) ∧ (gpu_left (first_gpu s work) [] <= 6)%nat.
Proof.
  unfold first_gpu, attach_shares, speaks.
  destruct (gpu_shares work); [case_bool_decide|]; cbn; split_and!; try done; try lia;
    solve [apply track_asked; by eexists | by apply track_idle].
Qed.

Lemma first_display_track :
  track (display_asks (first_display s work)) (display_answers (first_display s work))
    (first_display s work = DisplayIdle) (option_list (attach_display s work)) [] ∧
  (first_display s work ≠ DisplayIdle → Display ∈ capabilities s) ∧
  (display_left (first_display s work) [] <= 4)%nat.
Proof.
  unfold first_display, attach_display, speaks.
  destruct (display_share work); [case_bool_decide|]; cbn; split_and!; try done; try lia;
    solve [apply track_asked; by eexists | by apply track_idle].
Qed.

Lemma talk_start_stands now g :
  guest_capabilities gs = capabilities s →
  ∃ n, (n <= 10)%nat ∧
    standing (gpu_due (first_gpu s work)) (display_due (first_display s work)) n (talk_start now g).
Proof.
  intros Hc. rewrite talk_start_asks. cbn zeta.
  destruct first_gpu_track as (Tg & Cg & Lg), first_display_track as (Td & Cd & Ld).
  exists (gpu_left (first_gpu s work) [] + display_left (first_display s work) [])%nat.
  split; [lia|]. apply (standing_at _ _ _ _ _ _ (option_list (attach_shares s work)) []
    (option_list (attach_display s work)) []); rewrite ?Hc; try done;
    by destruct (attach_shares s work), (attach_display s work).
Qed.

Lemma talk_settles now g n t :
  guest_capabilities gs = capabilities s → nsteps delivers n (talk_start now g) t →
  to_guest t = [] → to_host t = [] →
  has_pending_work (host_side t) = false ∧
  gpu_reports (reported t) = (if is_some (attach_shares s work) then 1 else 0)%nat ∧
  display_reports (reported t) = (if is_some (attach_display s work) then 1 else 0)%nat.
Proof.
  intros Hc Hn. destruct (talk_start_stands now g Hc) as (k & Hk & Hs).
  destruct (deliveries_stand _ _ _ _ _ Hn _ Hs) as (m & Hm & Ht). clear Hn Hs.
  destruct t as [st gst forth back out]. cbn. intros -> ->.
  inversion Ht as [? d last ? gq gr dq dr ? ? ? Hg Hd Hf Hb Cg Cd Rg Rd]; subst.
  apply Permutation_nil_l in Hf, Hb. symmetry in Hf, Hb. apply app_eq_nil in Hf as [-> ->], Hb as [-> ->].
  inversion Hg; inversion Hd; subst. cbn in *.
  unfold first_gpu, first_display in *. split; [done|]. fold (gpu_reports out) (display_reports out).
  destruct (attach_shares s work), (attach_display s work); cbn in *; split; lia.
Qed.

(** C15: a session's work gets done. With a guest that agreed on the same
    capabilities, whatever its handlers come to and however the deliveries of the
    two directions alternate, at most ten frames are delivered; whichever is in
    front is taken by the end it is for, without an error and without ending the
    session; and when none is left under way, the host waits for nothing and has
    had exactly one report on each stack it had work for. *)
Theorem session_work_completes now g n t :
  guest_capabilities gs = capabilities s → nsteps delivers n (talk_start now g) t →
  (n <= 10)%nat ∧
  (∀ e rest, to_guest t = e :: rest →
     ∃ g' reply, guest_hears h gs (guest_side t) e = (g', Ok (Some reply))) ∧
  (∀ e rest later, to_host t = e :: rest →
     ∃ outs st', host_turn vm_name s work timing (host_side t) (found e later) = (outs, st', Ok None)) ∧
  (to_guest t = [] → to_host t = [] →
     has_pending_work (host_side t) = false ∧
     gpu_reports (reported t) = (if is_some (attach_shares s work) then 1 else 0)%nat ∧
     display_reports (reported t) = (if is_some (attach_display s work) then 1 else 0)%nat).
Proof.
  intros Hc Hn. destruct (talk_start_stands now g Hc) as (k & Hk & Hs).
  destruct (deliveries_stand _ _ _ _ _ Hn _ Hs) as (m & Hm & Ht).
  split; [lia|]. split; [|split; [|by apply (talk_settles now g n)]].
  - intros e rest E. destruct t as [st gst forth back out]. cbn in *. subst.
    apply stands_guest in Ht as (g' & a & Ea & _). eauto.
  - intros e rest later E. destruct t as [st gst forth back out]. cbn in *. subst.
    destruct (stands_host _ _ _ _ _ _ _ _ _ later Ht) as (o & st' & Et & _). eauto.
Qed.
End talk.

(** ** A guest to try them on *)

(** Every handler counts one call. *)
Definition counting : Handlers Z := mk_handlers Z
  (λ _ w, (([], true), w + 1)) (λ w, ([], w + 1)) (λ w, (mk_probe 3 [] "" "" "", w + 1))
  (λ share w, (mk_display_mount share "/mnt" 1 "", w + 1))
  (λ _ w, (mk_display_recipe [] None None None, w + 1))
  (λ _ w, (mk_update [mk_display_stage STEP_INITRAMFS 2 ""] None OUTCOME_REBOOT_REQUIRED, w + 1))
  (λ w, (None, w + 1)).

Definition gpu_only : GuestSession := mk_guest_session (mk_version 1 7) [Gpu].
Definition full_guest : GuestSession := mk_guest_session (mk_version 1 9) [Gpu; Display].

Definition guest_polls : list (option Envelope) :=
  [Some probe_request; None; Some (request 5 (UpdateDisplayPayloadRequestK "9"));
   Some (response FIRST_HEARTBEAT_REQUEST_ID HeartbeatResponseK); None; Some (request 6 RebootRequestK)].

Lemma guest_answers_in_order_witness :
  let '(said, st', r) := guest_turns counting gpu_only (guest_start 0) guest_polls in
  r = Ok tt ∧ flat_map responds said = [PROBE_REQUEST_ID; 5; 6] ∧
  flat_map responds said = flat_map requests (omap id guest_polls) ∧
  flat_map requests said = seqZ FIRST_HEARTBEAT_REQUEST_ID (expired guest_polls) ∧
  next_request_id st' = FIRST_HEARTBEAT_REQUEST_ID + expired guest_polls ∧
  is_u32 (next_request_id st').
Proof.
  destruct (guest_turns counting gpu_only (guest_start 0) guest_polls) as [[said st'] r] eqn:E.
  pose proof E as E'. vm_compute in E. injection E as <- <- <-. split; [done|]. split; [by vm_compute|].
  by apply (guest_answers_in_order counting gpu_only (guest_start 0)).
Defined.

Lemma guest_does_what_was_agreed_witness :
  let reply := refuse_unsupported 5 in
  guest_hears counting gpu_only (guest_start 0) (request 5 (UpdateDisplayPayloadRequestK "9"))
    = (guest_start 0, Ok (Some reply)) ∧
  nameable 7 reply ∧ (Display ∉ [Gpu] → world (guest_start 0) = 0 ∧ reply = refuse_unsupported 5).
Proof.
  split; [by vm_compute|].
  by apply (guest_does_what_was_agreed counting gpu_only (guest_start 0) (guest_start 0)
    (request 5 (UpdateDisplayPayloadRequestK "9")) (refuse_unsupported 5)).
Defined.

(** Ten deliveries later. *)
Lemma session_work_completes_witness :
  ∃ t, nsteps (delivers counting "vm" full_session full_guest full_work NORMAL) 10
         (talk_start full_session full_work 0 (guest_start 0)) t ∧
    world (guest_side t) = 5 ∧ to_guest t = [] ∧ to_host t = [] ∧
    has_pending_work (host_side t) = false ∧
    gpu_reports (reported t) = 1%nat ∧ display_reports (reported t) = 1%nat.
Proof.
  assert (Hrun : ∃ t, nsteps (delivers counting "vm" full_session full_guest full_work NORMAL) 10
      (talk_start full_session full_work 0 (guest_start 0)) t ∧
    world (guest_side t) = 5 ∧ to_guest t = [] ∧ to_host t = []).
  { eexists. split; [|split_and!].
    - do 10 (eapply nsteps_l; [first [eapply to_the_guest; vm_compute; reflexivity
        | eapply (to_the_host _ _ _ _ _ _ _ _ _ _ _ _ _ 1); vm_compute; reflexivity]|cbn]).
      apply nsteps_O.
    - done.
    - done.
    - done. }
  destruct Hrun as (t & Hn & Hw & Hg & Hh). exists t. do 4 (split; [done|]).
  apply (session_work_completes counting "vm" full_session full_guest full_work NORMAL 0
    (guest_start 0) 10 t); done.
Defined.
