(* ===== verification/VmStatus.v ===== *)
(** * From what was reported to what a person reads

    [platform/src/gpu_runs.rs] and [platform/src/display_runs.rs], where a run's
    facts are kept by machine; the sinks [platform/src/agent.rs] hands to a
    session; [platform/src/display_update.rs], what an update's answer means;
    and the two derivations of [app/src/gpu.rs] and [app/src/display.rs].  The
    clock is an argument. *)

From stdpp Require Import base option gmap strings pretty.
From S2P Require Import Prelude.
From S2P Require Import CoreVm.
From S2P Require Import CoreGpu.
From S2P Require Import CoreDisplay.
From S2P Require Import AgentServe.

(** ** A run's facts, by machine *)

Section entries.
Context {R : Type} (nothing : R).

(** [BTreeMap::entry], [or_default], and what is done to the entry. *)
Definition alter_entry (vm : Z) (f : R → R) (runs : gmap Z R) : gmap Z R :=
  <[vm := f (default nothing (runs !! vm))]> runs.
End entries.

Module GpuRuns.

Record GpuRun : Type := mk_gpu_run { facts : VmGpuFacts; shares : option (list GpuShare) }.
Definition run_default : GpuRun := mk_gpu_run gpu_facts_default None.
Abbreviation Runs := (gmap Z GpuRun).

Definition record_assignment (runs : Runs) (vm : Z) (a : GpuAssignment) (now : Z) : Runs :=
  alter_entry run_default vm
    (λ e, mk_gpu_run (mk_gpu_facts (Some a) (CoreGpu.guest (facts e)) (Some now)) (shares e)) runs.
Definition record_guest (runs : Runs) (vm : Z) (r : GuestGpuReport) (now : Z) : Runs :=
  alter_entry run_default vm
    (λ e, mk_gpu_run (mk_gpu_facts (assignment (facts e)) (Some r) (Some now)) (shares e)) runs.
Definition forget (runs : Runs) (vm : Z) : Runs := delete vm runs.
Definition forget_all (runs : Runs) : Runs := ∅.
Definition record_shares (runs : Runs) (vm : Z) (s : list GpuShare) : Runs :=
  alter_entry run_default vm (λ e, mk_gpu_run (facts e) (Some s)) runs.
Definition shares_of (runs : Runs) (vm : Z) : option (list GpuShare) := runs !! vm ≫= shares.
Definition snapshot (runs : Runs) (vm : Z) : VmGpuFacts :=
  default gpu_facts_default (facts <$> runs !! vm).

End GpuRuns.

Module DisplayRuns.

Record DisplayRun : Type := mk_display_run { facts : VmDisplayFacts; share : option string }.
Definition run_default : DisplayRun := mk_display_run display_facts_default None.
Abbreviation Runs := (gmap Z DisplayRun).

Definition observe (f : VmDisplayFacts → VmDisplayFacts) (e : DisplayRun) : DisplayRun :=
  mk_display_run (f (facts e)) (share e).

Definition record_host (runs : Runs) (vm : Z) (available : option string)
    (failure : option DisplayFailure) (now : Z) : Runs :=
  alter_entry run_default vm (observe (λ f,
    mk_display_facts (guest f)
      (mk_payload_facts (installed_version (payload f)) (previous_version (payload f))
         (loaded_version (payload f)) available)
      failure (Some now) (update_in_flight f) (desktop f))) runs.

Definition record_guest_display (runs : Runs) (vm : Z) (r : GuestDisplayReport) (now : Z) : Runs :=
  alter_entry run_default vm (observe (λ f,
    mk_display_facts (Some r) (payload f) (failure f) (Some now) (update_in_flight f) (desktop f)))
    runs.

Definition record_guest_desktop (runs : Runs) (vm : Z) (d : GuestDesktop) (now : Z) : Runs :=
  alter_entry run_default vm (observe (λ f,
    mk_display_facts (guest f) (payload f) (failure f) (Some now) (update_in_flight f) (Some d)))
    runs.

Definition record_guest_payload (runs : Runs) (vm : Z) (installed previous loaded : option string)
    (failure : option DisplayFailure) (now : Z) : Runs :=
  alter_entry run_default vm (observe (λ f,
    mk_display_facts (guest f)
      (mk_payload_facts installed previous loaded (offered_version (payload f)))
      failure (Some now) (update_in_flight f) (desktop f))) runs.

Definition record_share (runs : Runs) (vm : Z) (s : string) : Runs :=
  alter_entry run_default vm (λ e, mk_display_run (facts e) (Some s)) runs.
Definition share_of (runs : Runs) (vm : Z) : option string := runs !! vm ≫= share.
Definition snapshot (runs : Runs) (vm : Z) : VmDisplayFacts :=
  default display_facts_default (facts <$> runs !! vm).
Definition forget (runs : Runs) (vm : Z) : Runs := delete vm runs.
Definition forget_all (runs : Runs) : Runs := ∅.

End DisplayRuns.

(** ** Where a session's reports go *)

(** The second closure [AgentConnection::start] hands to the session; writing
    the certificate beside the machine is I/O. *)
Definition display_sink (runs : DisplayRuns.Runs) (vm : Z) (now : Z)
    (r : GuestDisplayPayloadReport) : DisplayRuns.Runs :=
  let runs := match report_guest r with
              | Some g => DisplayRuns.record_guest_display runs vm g now
              | None => runs
              end in
  let runs := match report_desktop r with
              | Some d => DisplayRuns.record_guest_desktop runs vm d now
              | None => runs
              end in
  DisplayRuns.record_guest_payload runs vm (report_installed r) (report_previous r)
    (report_loaded r) (report_failure r) now.

(** What one output of a session does to both. *)
Definition sink_output (vm now : Z) (runs : GpuRuns.Runs * DisplayRuns.Runs) (o : host_output)
    : GpuRuns.Runs * DisplayRuns.Runs :=
  match o with
  | ReportedGpu r => (GpuRuns.record_guest runs.1 vm r now, runs.2)
  | ReportedDisplay r => (runs.1, display_sink runs.2 vm now r)
  | _ => runs
  end.

Definition sink_outputs (vm now : Z) (runs : GpuRuns.Runs * DisplayRuns.Runs)
    (outs : list host_output) : GpuRuns.Runs * DisplayRuns.Runs :=
  fold_left (sink_output vm now) outs runs.

(** ** An update's answer *)

Record UpdateOutcome : Type := mk_update_outcome {
  outcome_payload : DisplayPayloadFacts; outcome_failure : option DisplayFailure }.

Definition outcome_of (a : DisplayUpdateAnswer) (available : string) : UpdateOutcome :=
  let report := answer_report a in
  mk_update_outcome
    (mk_payload_facts (report_installed report) (report_previous report) (report_loaded report)
       (Some available))
    (match outcome a with
     | Updated => None
     | _ => match report_failure report with
            | Some f => Some f
            | None => Some (mk_display_failure StagePayload PayloadUpdateFailed
                        "the guest did not say what its update came to")
            end
     end).

(** Staging the payload, which [vmlord_payload] and the disk decide, is an
    argument, and so is asking the guest. *)
Definition run_update (vm_name : string) (running : bool) (installed : option string)
    (stage_for_vm : result string string) (ask : string → result string DisplayUpdateAnswer)
    : result string UpdateOutcome :=
  if negb running then
    Err ("VM " +:+ quoted vm_name +:+ " is not running, so its display payload cannot be updated")%string
  else
    match stage_for_vm with
    | Err error =>
        Err ("the display payload of VM " +:+ quoted vm_name +:+ " could not be prepared: "
               +:+ error)%string
    | Panic => Panic
    | Ok version =>
        if decide (installed = Some version) then
          Err ("VM " +:+ quoted vm_name +:+ " already runs display payload " +:+ version)%string
        else
          match ask version with
          | Ok answer => Ok (outcome_of answer version)
          | Err e => Err e
          | Panic => Panic
          end
    end.

Inductive DiagnosticLevel : Type := Info | Warning | Error.

Definition update_report (vm_name : string) (o : UpdateOutcome) : DiagnosticLevel * string :=
  match outcome_failure o with
  | None =>
      (Info, match installed_version (outcome_payload o) with
             | Some v => ("Display payload of VM " +:+ quoted vm_name +:+ " updated to " +:+ v)%string
             | None => ("Display payload of VM " +:+ quoted vm_name +:+ " updated")%string
             end)
  | Some f =>
      if decide (failure_code f = PayloadUpdateRolledBack)
      then (Warning, ("Display payload of VM " +:+ quoted vm_name +:+ " was not updated: "
                        +:+ failure_message f)%string)
      else if decide (failure_code f = PayloadUpdateRebootRequired)
      then (Warning, ("Display payload of VM " +:+ quoted vm_name
                        +:+ " was installed and needs a guest reboot: " +:+ failure_message f)%string)
      else (Error, ("Failed to update the display payload of VM " +:+ quoted vm_name +:+ ": "
                      +:+ failure_message f)%string)
  end.

(** ** The status of a GPU: [vmlord_app::gpu::derive_status] *)

Definition gpu_native_detail (f : VmGpuFacts) : option NativeGpuDetail :=
  match assignment f with
  | Some (Complete detail) | Some (Partial detail _) => Some detail
  | _ => None
  end.

Definition gpu_guest_detail (f : VmGpuFacts) : option GuestGpuDetail :=
  match CoreGpu.guest f with
  | Some (DevicePresent detail) | Some (GpuReady detail) => Some detail
  | _ => None
  end.

Definition derive_gpu_status (mode : GpuMode) (st : VmState) (f : VmGpuFacts) (now : Z)
    : VmGpuStatus :=
  let observed_at := default now (CoreGpu.observed_at f) in
  let status state stage code message :=
    mk_gpu_status state stage code message (gpu_native_detail f) (gpu_guest_detail f) observed_at in
  match mode with
  | ModeNone =>
      status GpuDisabled GpuStageIdle ModeDisabled "This VM does not use GPU-PV."%string
  | ModeUnknown value =>
      status GpuBroken GpuStageIdle ModeUnsupported
        ("GPU mode " +:+ pretty value +:+ " is not supported by this build.")%string
  | ModeDefault | ModeMirror =>
      if negb (starting_or_running st) then
        status GpuDisabled GpuStageIdle CoreGpu.VmNotRunning
          "The VM is not running; its GPU is attached on the next start."%string
      else
        (* The reason a part is missing, or a status that needs no guest. *)
        let assigned : option GpuFailure + VmGpuStatus :=
          match assignment f with
          | None =>
              inr (status GpuWaitingForGuest GpuStageAssignment AssignmentPending
                "The host has not attached the GPU yet."%string)
          | Some (NotAssigned reason) =>
              inr (status GpuBroken GpuStageAssignment (gpu_code reason) (gpu_text reason))
          | Some Unknown =>
              match CoreGpu.guest f with
              | None =>
                  inr (status GpuWaitingForGuest GpuStageGuest AssignmentUnknown
                    "This VM was started before VMLord, so what is attached to it is not known; waiting for the guest to report."%string)
              | Some _ => inl None
              end
          | Some (Partial _ reason) => inl (Some reason)
          | Some (Complete _) => inl None
          end in
        match assigned with
        | inr s => s
        | inl partial_reason =>
            match CoreGpu.guest f, partial_reason with
            | None, Some reason =>
                status GpuWaitingForGuest GpuStageGuest AssignmentPartial
                  (gpu_text reason +:+ " Waiting for the guest to report.")%string
            | None, None =>
                status GpuWaitingForGuest GpuStageGuest CoreGpu.GuestPending
                  "The GPU is attached; waiting for the guest to report."%string
            | Some (GpuFailed reason), _ =>
                status GpuBroken GpuStageGuest (gpu_code reason) (gpu_text reason)
            | Some (DevicePresent _), _ =>
                status GpuAssigned GpuStageGuest GuestDevicePresent
                  "The guest sees the GPU, but nothing renders on it yet."%string
            | Some (GpuReady _), Some reason =>
                status GpuDegraded GpuStageGuest AssignmentPartial
                  ("The guest renders on the GPU. " +:+ gpu_text reason)%string
            | Some (GpuReady _), None =>
                status GpuGuestReady GpuStageGuest CoreGpu.GuestReady
                  "The guest renders on the GPU."%string
            end
        end
  end.

(** ** The status of a display: [vmlord_app::display::derive_status] *)

Definition payload_failure (f : VmDisplayFacts) : option DisplayFailure := failure f.

Definition display_guest_detail (f : VmDisplayFacts) : option GuestDisplayDetail :=
  match guest f with Some (DisplayReady detail) => Some detail | _ => None end.

Definition derive_display_status (profile : DesktopProfile) (provisioning : DisplayProvisioning)
    (st : VmState) (f : VmDisplayFacts) (now : Z) : VmDisplayStatus :=
  let observed_at := default now (observed_at f) in
  let status state stage code message can_retry :=
    mk_display_status state stage code
      (match loaded_version (payload f) with
       | Some v => Some v
       | None => installed_version (payload f)
       end)
      (if update_available (payload f) then offered_version (payload f) else None)
      message (display_guest_detail f) (desktop f) can_retry (update_in_flight f) observed_at in
  if negb (wants_desktop profile) then
    status DisplayDisabled StageIdle ProfileHeadless "This VM has no desktop."%string false
  else
    match provisioning with
    | Degraded failure =>
        status DisplayDegraded (failure_stage failure) (failure_code failure)
          (failure_message failure) (can_retry provisioning)
    | NotRequested | Pending =>
        status DisplayProvisioningState StageProvisioning ProvisioningPending
          "The desktop has not finished installing."%string false
    | ProvisioningReady =>
        if negb (starting_or_running st) then
          status DisplayDisabled StageIdle VmNotRunning
            "The VM is not running; its desktop starts with it."%string false
        else
          match payload_failure f with
          | Some failure =>
              status
                (if decide (failure_code failure = PayloadUpdateRolledBack)
                 then DisplayWorks else DisplayDegraded)
                (failure_stage failure) (failure_code failure) (failure_message failure)
                (is_retryable (failure_code failure))
          | None =>
              match guest f with
              | None | Some ServicesPending =>
                  status DisplayWaitingForGuest StageGuest GuestPending
                    "The desktop is installed; waiting for the guest to offer it."%string false
              | Some (DisplayReady _) =>
                  status DisplayWorks StageGuest GuestReady "The guest offers its desktop."%string false
              | Some (DisplayFailed failure) =>
                  status DisplayDegraded (failure_stage failure) (failure_code failure)
                    (failure_message failure) (is_retryable (failure_code failure))
              end
          end
    end.
