(* ===== verification/AgentThread.v ===== *)
(** * The thread that serves a machine's agent, and who may ask it things

    [platform/src/agent.rs]: the gate between the callers that ask for an update
    or a reboot and the session that carries them out, and the loop that accepts
    one connection after another, lets an authenticated newcomer displace a
    session, and paces the offers it makes. *)

From stdpp Require Import base option list strings.
From S2P Require Import Prelude.
From S2P Require Import AgentProto.
From S2P Require Import AgentFrame.
From S2P Require Import AgentHost.
From S2P Require Import AgentServe.

(** ** The gate *)

(** Nobody is connected; a session is served, which holds both queues; or it
    has returned and the gate is still open. *)
Inductive stage : Type :=
| Away
| Serving (s : AgentSession) (st : HostState)
| Ending.

(** [online], and what is in the two channels while no session reads them. *)
Record Gate : Type := mk_gate {
  online : bool; serving : stage;
  queued_updates : list DisplayUpdate; queued_reboots : list AgentReboot }.

Definition gate_start : Gate := mk_gate false Away [] [].

Inductive gate_input : Type :=
| AsksUpdate (u : DisplayUpdate)
| AsksReboot (b : AgentReboot)
| Opens (s : AgentSession) (now : Z) (wr : Envelope → result frame_error unit)
| TurnTaken (t : Turn)
| Closes.

(** What comes back to a caller, and what the session puts out. *)
Inductive gate_output : Type :=
| RefusedUpdate (asker : Z) | RefusedReboot (asker : Z)
| DroppedUpdate (asker : Z) | DroppedReboot (asker : Z)
| FromSession (o : host_output).

Section gate.
Context (vm_name : string) (work : SessionWork) (timing : SessionTiming).

(** [DisplayUpdateChannel::ask] and [RebootChannel::ask] up to the wait: the
    state is read and the request sent under one lock. *)
Definition ask_update (g : Gate) (u : DisplayUpdate) : Gate * list gate_output :=
  if negb (online g) then (g, [RefusedUpdate (update_asker u)])
  else
    match serving g with
    | Serving s st =>
        (mk_gate true (Serving s (set_queues (updates st ++ [u]) (reboots st) st))
           (queued_updates g) (queued_reboots g), [])
    | phase => (mk_gate true phase (queued_updates g ++ [u]) (queued_reboots g), [])
    end.
Definition ask_reboot (g : Gate) (b : AgentReboot) : Gate * list gate_output :=
  if negb (online g) then (g, [RefusedReboot (reboot_asker b)])
  else
    match serving g with
    | Serving s st =>
        (mk_gate true (Serving s (set_queues (updates st) (reboots st ++ [b]) st))
           (queued_updates g) (queued_reboots g), [])
    | phase => (mk_gate true phase (queued_updates g) (queued_reboots g ++ [b]), [])
    end.

(** The senders a session's own variables hold when it returns. *)
Definition held_updates (st : HostState) : list Z :=
  option_list (pending_update st) ++ map update_asker (option_list (update_after_probe st)).
Definition held_reboots (st : HostState) : list Z :=
  option_list (pending_reboot st) ++ map reboot_asker (option_list (reboot_after_probe st)).

Definition session_over (g : Gate) (st : HostState) : Gate * list gate_output :=
  (mk_gate (online g) Ending (updates st) (reboots st),
   map DroppedUpdate (held_updates st) ++ map DroppedReboot (held_reboots st)).

(** A session that is open is served: the gate opens, and what was queued since
    is the session's. *)
Definition session_opens (g : Gate) (s : AgentSession) (now : Z)
    (wr : Envelope → result frame_error unit) : Gate * list gate_output :=
  let '(outs, st, r) := serve_start s work now wr in
  let st := set_queues (queued_updates g) (queued_reboots g) st in
  let g := mk_gate true (Serving s st) [] [] in
  match r with
  | Ok _ => (g, map FromSession outs)
  | _ => let '(g, dropped) := session_over g st in (g, map FromSession outs ++ dropped)
  end.

Definition session_turns (g : Gate) (s : AgentSession) (st : HostState) (t : Turn)
    : Gate * list gate_output :=
  let '(outs, st, r) := host_turn vm_name s work timing st t in
  match r with
  | Ok None =>
      (mk_gate (online g) (Serving s st) (queued_updates g) (queued_reboots g), map FromSession outs)
  | _ => let '(g, dropped) := session_over g st in (g, map FromSession outs ++ dropped)
  end.

Definition set_offline_and_cancel_requests (g : Gate) : Gate * list gate_output :=
  (mk_gate false Away [] [],
   map (λ u, DroppedUpdate (update_asker u)) (queued_updates g)
   ++ map (λ b, DroppedReboot (reboot_asker b)) (queued_reboots g)).

(** Each is done where the thread is at that point, and nowhere else. *)
Definition gate_step (g : Gate) (i : gate_input) : Gate * list gate_output :=
  match i, serving g with
  | AsksUpdate u, _ => ask_update g u
  | AsksReboot b, _ => ask_reboot g b
  | Opens s now wr, Away => session_opens g s now wr
  | TurnTaken t, Serving s st => session_turns g s st t
  | Closes, Ending => set_offline_and_cancel_requests g
  | _, _ => (g, [])
  end.

Fixpoint gate_run (g : Gate) (inputs : list gate_input) : Gate * list gate_output :=
  match inputs with
  | [] => (g, [])
  | i :: inputs =>
      let '(g, outs) := gate_step g i in
      let '(g, more) := gate_run g inputs in (g, outs ++ more)
  end.
End gate.

(** What the caller's [ask] returns for how its wait ended. *)
Inductive Waited (A : Type) : Type := Came (answer : A) | Timeout | Disconnected.
Arguments Came {A}.
Arguments Timeout {A}.
Arguments Disconnected {A}.

Definition UPDATE_TIMEOUT : Z := 20 * 60 * 1000.
Definition REBOOT_TIMEOUT : Z := 30 * 60 * 1000.

Definition update_answered (vm_name : string) (w : Waited DisplayUpdateAnswer)
    : result string DisplayUpdateAnswer :=
  match w with
  | Came answer => Ok answer
  | Timeout => Err ("the display payload update of VM " +:+ quoted vm_name
                      +:+ " did not finish inside the time allowed for it")%string
  | Disconnected => Err ("the display payload update of VM " +:+ quoted vm_name
                           +:+ " ended before it answered")%string
  end.

Definition reboot_answered (vm_name : string) (w : Waited (result string unit)) : result string unit :=
  match w with
  | Came (Ok _) => Ok tt
  | Came (Err reason) =>
      Err ("the agent of VM " +:+ quoted vm_name +:+ " refused to reboot: " +:+ reason)%string
  | Came Panic => Panic
  | Timeout => Err ("the reboot ask of VM " +:+ quoted vm_name
                      +:+ " did not answer inside the time allowed for it")%string
  | Disconnected => Err ("the reboot ask of VM " +:+ quoted vm_name
                           +:+ " ended before it answered")%string
  end.

(** ** The loop *)

Definition ACCEPT_POLL : Z := 250.

(** One look at the listener, and what opening a session on it came to. *)
Inductive Accepted : Type :=
| Nobody
| ListenerBroken
| Connected (opened : result host_error AgentSession).

Record Thread : Type := mk_thread {
  backoff : Backoff; candidate_backoff : Backoff; candidate_after : Z;
  replacement : option AgentSession }.

Definition thread_start (now : Z) : Thread := mk_thread backoff_new backoff_new now None.

Inductive thread_event : Type :=
| Served (s : AgentSession)
| Waits (delay : Z)
| CandidateRefused (tried refused : Z)
| Reported (e : host_error).

(** What the session is told when it asks, between frames, whether a newer
    connection is ready; opening a session on one is over at [finished]. *)
Inductive Offer : Type := NoOffer | NextSession (s : AgentSession) | OfferFailed.

Definition offer (th : Thread) (now finished : Z) (a : Accepted) : Thread * list thread_event * Offer :=
  if now <? candidate_after th then (th, [], NoOffer)
  else
    match a with
    | Connected (Ok s) =>
        let '(_, b) := after (candidate_backoff th) true in
        (mk_thread (backoff th) b (candidate_after th) (replacement th), [], NextSession s)
    | Connected (Err e) =>
        let '(delay, b) := after (candidate_backoff th) false in
        (mk_thread (backoff th) b (finished + delay) (replacement th),
         [Reported e; CandidateRefused now finished], NoOffer)
    | Connected Panic => (th, [], NoOffer)
    | Nobody => (th, [], NoOffer)
    | ListenerBroken => (th, [], OfferFailed)
    end.

(** The idle polls of one session: until one of them ends it. *)
Fixpoint offers (th : Thread) (polls : list (Z * Z * Accepted)) : Thread * list thread_event * Offer :=
  match polls with
  | [] => (th, [], NoOffer)
  | (now, finished, a) :: polls =>
      match offer th now finished a with
      | (th, evs, NoOffer) =>
          let '(th, more, r) := offers th polls in (th, evs ++ more, r)
      | done => done
      end
  end.

(** One turn of [serve]'s loop: what the listener had, what the session's polls
    found, and how it ended when none of them ended it. *)
Record Round : Type := mk_round {
  first : Accepted; polls : list (Z * Z * Accepted); ended : result host_error unit }.

Definition serve_session (th : Thread) (s : AgentSession) (r : Round)
    : Thread * list thread_event * bool :=
  match offers th (polls r) with
  | (th, evs, OfferFailed) => (th, Served s :: evs, false)
  | (th, evs, NextSession next) =>
      (mk_thread (backoff th) (candidate_backoff th) (candidate_after th) (Some next),
       Served s :: evs, true)
  | (th, evs, NoOffer) =>
      let '(delay, b) := after (backoff th) true in
      (mk_thread b (candidate_backoff th) (candidate_after th) (replacement th),
       (Served s :: evs) ++ match ended r with Err e => [Reported e] | _ => [] end ++ [Waits delay], true)
  end.

Definition serve_round (th : Thread) (r : Round) : Thread * list thread_event * bool :=
  match replacement th with
  | Some s =>
      serve_session (mk_thread (backoff th) (candidate_backoff th) (candidate_after th) None) s r
  | None =>
      match first r with
      | Nobody => (th, [], true)
      | ListenerBroken => (th, [], false)
      | Connected (Ok s) => serve_session th s r
      | Connected (Err e) =>
          let '(delay, b) := after (backoff th) false in
          (mk_thread b (candidate_backoff th) (candidate_after th) (replacement th),
           [Reported e; Waits delay], true)
      | Connected Panic => (th, [], false)
      end
  end.

(** The loop over its turns, while it runs. *)
Fixpoint serve_rounds (th : Thread) (rounds : list Round) : Thread * list thread_event :=
  match rounds with
  | [] => (th, [])
  | r :: rounds =>
      match serve_round th r with
      | (th, evs, true) => let '(th, more) := serve_rounds th rounds in (th, evs ++ more)
      | (th, evs, false) => (th, evs)
      end
  end.

(** [wait_before_offering_again]: the slices slept, while [running]. *)
Fixpoint wait_loop (fuel : nat) (delay waited : Z) (running : Z → bool) : option (list Z) :=
  match fuel with
  | O => None
  | S fuel =>
      if (waited <? delay) && running waited then
        let slice := Z.min ACCEPT_POLL (delay - waited) in
        cons slice <$> wait_loop fuel delay (waited + slice) running
      else Some []
  end.

Definition wait_before_offering_again (delay : Z) (running : Z → bool) : option (list Z) :=
  wait_loop (S (Z.to_nat delay)) delay 0 running.
