(* ===== verification/AgentThreadProps.v ===== *)
(** * What the thread promises

    Nobody's ask is lost, whatever interleaves with it: the gate and the session
    behind it account for every one (AgentThread.v, AgentServe.v); and how
    strangers are paced. *)

From stdpp Require Import base option list strings.
From S2P Require Import Prelude.
From S2P Require Import CoreGpu.
From S2P Require Import CoreDisplay.
From S2P Require Import AgentProto.
From S2P Require Import AgentFrame.
From S2P Require Import AgentHost.
From S2P Require Import AgentServe.
From S2P Require Import AgentServeProps.
From S2P Require Import AgentThread.

(** ** Asks *)

Definition updates_asked (i : gate_input) : list Z :=
  match i with AsksUpdate u => [update_asker u] | _ => [] end.
Definition reboots_asked (i : gate_input) : list Z :=
  match i with AsksReboot b => [reboot_asker b] | _ => [] end.

(** Refused, dropped or answered. *)
Definition updates_back (o : gate_output) : list Z :=
  match o with
  | RefusedUpdate asker | DroppedUpdate asker | FromSession (AnsweredUpdate asker _) => [asker]
  | _ => []
  end.
Definition reboots_back (o : gate_output) : list Z :=
  match o with
  | RefusedReboot asker | DroppedReboot asker | FromSession (AnsweredReboot asker _) => [asker]
  | _ => []
  end.

Definition gate_updates (g : Gate) : list Z :=
  match serving g with Serving _ st => updates_waiting st | _ => [] end
  ++ map update_asker (queued_updates g).
Definition gate_reboots (g : Gate) : list Z :=
  match serving g with Serving _ st => reboots_waiting st | _ => [] end
  ++ map reboot_asker (queued_reboots g).

(** The gate is shut exactly while nobody is connected, nothing is queued then,
    and a session that is served is in one of its phases. *)
Definition gate_ok (g : Gate) : Prop :=
  match serving g with
  | Away => online g = false ∧ queued_updates g = [] ∧ queued_reboots g = []
  | Serving s st =>
      online g = true ∧ queued_updates g = [] ∧ queued_reboots g = [] ∧
      ∃ p last us bs, phase_ok s p ∧ st = at_phase p last us bs
  | Ending => online g = true
  end.

Lemma from_session_updates outs :
  flat_map updates_back (map FromSession outs) = answered_updates outs.
Proof. induction outs as [|[] outs IH]; cbn; by rewrite ?IH. Qed.
Lemma from_session_reboots outs :
  flat_map reboots_back (map FromSession outs) = answered_reboots outs.
Proof. induction outs as [|[] outs IH]; cbn; by rewrite ?IH. Qed.

Lemma dropped_updates {A} (f : A → Z) xs :
  flat_map updates_back (map (λ x, DroppedUpdate (f x)) xs) = map f xs ∧
  flat_map reboots_back (map (λ x, DroppedUpdate (f x)) xs) = [].
Proof. induction xs as [|x xs [IH1 IH2]]; cbn; [done|by rewrite IH1, IH2]. Qed.
Lemma dropped_reboots {A} (f : A → Z) xs :
  flat_map reboots_back (map (λ x, DroppedReboot (f x)) xs) = map f xs ∧
  flat_map updates_back (map (λ x, DroppedReboot (f x)) xs) = [].
Proof. induction xs as [|x xs [IH1 IH2]]; cbn; [done|by rewrite IH1, IH2]. Qed.

Lemma dropped_askers us bs :
  flat_map updates_back (map DroppedUpdate us ++ map DroppedReboot bs) = us ∧
  flat_map reboots_back (map DroppedUpdate us ++ map DroppedReboot bs) = bs.
Proof.
  rewrite !flat_map_app. destruct (dropped_updates (λ x : Z, x) us) as [H1 H2].
  destruct (dropped_reboots (λ x : Z, x) bs) as [H3 H4]. rewrite map_id in H1, H3.
  split; [etrans; [exact (f_equal2 app H1 H4)|apply app_nil_r]|exact (f_equal2 app H2 H3)].
Qed.

(** *** The end of a session *)

Section session.
Context (vm_name : string) (s : AgentSession) (work : SessionWork) (timing : SessionTiming).

Definition same_askers (st st' : HostState) : Prop :=
  updates_waiting st' = updates_waiting st ∧ reboots_waiting st' = reboots_waiting st.

Lemma writing_keeps_askers st wr e outs0 st1 outs st' r :
  writing wr e outs0 st1 (None : option SessionExit) = (outs, st', r) → r ≠ Ok None →
  same_askers st st1 →
  same_askers st st'.
Proof. unfold writing. destruct (wr e); intros; by simplify_eq. Qed.

Ltac keeps Hend :=
  first [ by simplify_eq | eapply writing_keeps_askers; [exact Hend|done|] ].

Lemma host_turn_end p last us bs t outs st' r :
  host_turn vm_name s work timing (at_phase p last us bs) t = (outs, st', r) → r ≠ Ok None →
  same_askers (at_phase p last us bs) st'.
Proof.
  unfold host_turn. destruct (heard t) as [e|[]|]; try (intros; by simplify_eq).
  - rewrite at_phase_received. intros Hend Hr.
    assert (Hs : same_askers (at_phase p last us bs) (at_phase p (now t) us bs))
      by (destruct p as [g d|deadline [[u|b]|]|asker|asker]; done).
    destruct (body_of e) as [[kind|kind]|x|]; try by simplify_eq.
    + by eapply writing_keeps_askers.
    + destruct kind; cbn [host_response] in Hend; unfold host_alive in Hend;
        repeat first [case_match | case_if]; keeps Hend;
        destruct p as [[] []|? [[|]|]|?|?]; try done; cbn in *; by simplify_eq.
  - unfold host_idle. intros Hend Hr. repeat first [case_match | case_if]; keeps Hend;
      destruct p as [[] []|? [[|]|]|?|?]; try done; cbn in *; by simplify_eq.
Qed.
End session.

Lemma serve_start_askers s work now wr outs st r us bs :
  serve_start s work now wr = (outs, st, r) →
  answered_updates outs = [] ∧ answered_reboots outs = [] ∧
  held_updates (set_queues us bs st) = [] ∧ held_reboots (set_queues us bs st) = [].
Proof.
  unfold serve_start, attach_shares, attach_display, writing, speaks.
  repeat first [case_match | case_if]; intros; by simplify_eq.
Qed.

(** *** One step *)

(** A step that loses nobody. *)
Definition accounts (g g' : Gate) (i : gate_input) (outs : list gate_output) : Prop :=
  gate_ok g' ∧
  flat_map updates_back outs ++ gate_updates g' ≡ₚ gate_updates g ++ updates_asked i ∧
  flat_map reboots_back outs ++ gate_reboots g' ≡ₚ gate_reboots g ++ reboots_asked i.

Section gate.
Context (vm_name : string) (work : SessionWork) (timing : SessionTiming).

Lemma ask_accounts_update g u g' outs :
  gate_ok g → ask_update g u = (g', outs) → accounts g g' (AsksUpdate u) outs.
Proof.
  unfold ask_update, accounts, gate_ok, gate_updates, gate_reboots. destruct g as [on [|s st|] us bs]; cbn.
  - intros (-> & -> & ->). cbn. intros; simplify_eq. by split_and!.
  - intros (-> & -> & -> & p & last & us' & bs' & Hp & ->). cbn. intros; simplify_eq.
    cbn. split_and!; try done.
    + exists p, last, (us' ++ [u]), bs'. by rewrite at_phase_updates, at_phase_reboots, at_phase_queues.
    + cbn. rewrite at_phase_updates, at_phase_reboots, at_phase_queues, !app_nil_r.
      rewrite !updates_waiting_at. unfold waiting_updates. by rewrite map_app, app_assoc.
    + cbn. by rewrite at_phase_updates, at_phase_reboots, at_phase_queues, !app_nil_r, !reboots_waiting_at.
  - intros ->. cbn. intros; simplify_eq. split_and!; [done| |by rewrite app_nil_r].
    unfold gate_updates. cbn. by rewrite map_app.
Qed.

Lemma ask_accounts_reboot g b g' outs :
  gate_ok g → ask_reboot g b = (g', outs) → accounts g g' (AsksReboot b) outs.
Proof.
  unfold ask_reboot, accounts, gate_ok, gate_updates, gate_reboots. destruct g as [on [|s st|] us bs]; cbn.
  - intros (-> & -> & ->). cbn. intros; simplify_eq. by split_and!.
  - intros (-> & -> & -> & p & last & us' & bs' & Hp & ->). cbn. intros; simplify_eq.
    cbn. split_and!; try done.
    + exists p, last, us', (bs' ++ [b]). by rewrite at_phase_updates, at_phase_reboots, at_phase_queues.
    + cbn. by rewrite at_phase_updates, at_phase_reboots, at_phase_queues, !app_nil_r, !updates_waiting_at.
    + cbn. rewrite at_phase_updates, at_phase_reboots, at_phase_queues, !app_nil_r.
      rewrite !reboots_waiting_at. unfold waiting_reboots. by rewrite map_app, app_assoc.
  - intros ->. cbn. intros; simplify_eq. split_and!; [done|by rewrite app_nil_r|].
    unfold gate_reboots. cbn. by rewrite map_app.
Qed.

Lemma session_over_askers g st g' outs :
  online g = true → session_over g st = (g', outs) →
  gate_ok g' ∧ flat_map updates_back outs ++ gate_updates g' = updates_waiting st ∧
  flat_map reboots_back outs ++ gate_reboots g' = reboots_waiting st.
Proof.
  intros Hon H. unfold session_over in H. simplify_eq. split; [done|].
  destruct (dropped_askers (held_updates st) (held_reboots st)) as [-> ->].
  unfold gate_updates, gate_reboots, updates_waiting, reboots_waiting, held_updates, held_reboots.
  cbn. by rewrite <- !app_assoc.
Qed.

Lemma failed_opening_accounts g touts st g' outs :
  answered_updates touts = [] → answered_reboots touts = [] → online g = true →
  (let '(g1, dropped) := session_over g st in (g1, map FromSession touts ++ dropped)) = (g', outs) →
  gate_ok g' ∧ flat_map updates_back outs ++ gate_updates g' = updates_waiting st ∧
  flat_map reboots_back outs ++ gate_reboots g' = reboots_waiting st.
Proof.
  intros Hu Hb Hon. destruct (session_over _ _) as [g1 dropped] eqn:Eo. intros [= <- <-].
  apply session_over_askers in Eo as (Hok & Eu & Eb); [|done].
  by rewrite !flat_map_app, from_session_updates, from_session_reboots, Hu, Hb, <- Eu, <- Eb.
Qed.

Lemma session_opens_accounts us bs s now wr g' outs :
  let g := mk_gate false Away us bs in
  gate_ok g → session_opens work g s now wr = (g', outs) → accounts g g' (Opens s now wr) outs.
Proof.
  intros g (_ & Hus & Hbs) H. cbn in Hus, Hbs. subst us bs g. unfold session_opens in H.
  cbn [queued_updates queued_reboots] in H.
  destruct (serve_start s work now wr) as [[touts st] r] eqn:Es.
  destruct (serve_start_askers _ _ _ _ _ _ _ [] [] Es) as (Hu & Hb & Wu & Wb).
  assert (Hw : updates_waiting (set_queues [] [] st) = [] ∧ reboots_waiting (set_queues [] [] st) = []).
  { unfold updates_waiting, reboots_waiting, held_updates, held_reboots in *.
    rewrite !app_assoc, Wu, Wb. done. }
  unfold accounts. destruct r as [[]|e|].
  - injection H as <- <-. rewrite from_session_updates, from_session_reboots, Hu, Hb.
    split; [|by unfold gate_updates, gate_reboots; cbn; destruct Hw as [-> ->]].
    apply serve_start_phase in Es as (-> & _).
    split_and!; try done. rewrite at_phase_queues. exists (Working (first_gpu s work) (first_display s work)), now, [], []. by split.
  - apply failed_opening_accounts in H as (? & -> & ->); [by destruct Hw as [-> ->]|done..].
  - apply failed_opening_accounts in H as (? & -> & ->); [by destruct Hw as [-> ->]|done..].
Qed.

Lemma session_turns_accounts s p last us bs t g' outs :
  phase_ok s p →
  let st := at_phase p last us bs in
  let g := mk_gate true (Serving s st) [] [] in
  session_turns vm_name work timing g s st t = (g', outs) → accounts g g' (TurnTaken t) outs.
Proof.
  intros Hp st g H. unfold session_turns in H. subst st g.
  destruct (host_turn vm_name s work timing (at_phase p last us bs) t) as [[touts st'] r] eqn:Et.
  unfold accounts. cbn [updates_asked reboots_asked]. rewrite !app_nil_r.
  assert (Hw : gate_updates (mk_gate true (Serving s (at_phase p last us bs)) [] []) = waiting_updates p us ∧
    gate_reboots (mk_gate true (Serving s (at_phase p last us bs)) [] []) = waiting_reboots p bs).
  { unfold gate_updates, gate_reboots. cbn. by rewrite !app_nil_r, updates_waiting_at, reboots_waiting_at. }
  destruct Hw as [-> ->].
  assert (Hend : r ≠ Ok None →
    (let '(g1, dropped) := session_over (mk_gate true (Serving s (at_phase p last us bs)) [] []) st' in
     (g1, map FromSession touts ++ dropped)) = (g', outs) →
    gate_ok g' ∧ flat_map updates_back outs ++ gate_updates g' ≡ₚ waiting_updates p us ∧
    flat_map reboots_back outs ++ gate_reboots g' ≡ₚ waiting_reboots p bs).
  { intros Hr Hover. destruct (host_turn_end _ _ _ _ _ _ _ _ _ _ _ _ Et Hr) as [Ku Kb].
    destruct (host_step_quiet vm_name s work timing (at_phase p last us bs) (TakeTurn t) _ _ _ Et)
      as [?|(_ & Hu & Hb)]; [done|].
    apply failed_opening_accounts in Hover as (? & -> & ->); [|done..].
    by rewrite Ku, Kb, updates_waiting_at, reboots_waiting_at. }
  destruct r as [[x|]|e|]; [by apply Hend| |by apply Hend..].
  injection H as <- <-.
  destruct (host_step_moves vm_name s work timing p last us bs (TakeTurn t) _ _ Hp Et)
    as (p' & last' & us' & bs' & -> & Hm).
  pose proof (moves_updates _ _ _ _ _ _ _ _ _ Hm) as Mu.
  pose proof (moves_reboots _ _ _ _ _ _ _ _ _ Hm) as Mb. cbn in Mu, Mb. rewrite !app_nil_r in Mu, Mb.
  unfold gate_updates, gate_reboots. cbn. rewrite from_session_updates, from_session_reboots.
  rewrite !app_nil_r, updates_waiting_at, reboots_waiting_at, Mu, Mb. split; [|done].
  split_and!; try done. exists p', last', us', bs'. split; [|done].
  apply (moves_ok _ _ _ _ _ _ _ _ _ Hm).
Qed.

Lemma set_offline_accounts us bs g' outs :
  let g := mk_gate true Ending us bs in
  set_offline_and_cancel_requests g = (g', outs) → accounts g g' Closes outs.
Proof.
  cbn. intros [= <- <-].
  destruct (dropped_updates update_asker us) as [H1 H2], (dropped_reboots reboot_asker bs) as [H3 H4].
  split; [done|]. rewrite !flat_map_app, H1, H2, H3, H4. unfold gate_updates, gate_reboots. cbn.
  by rewrite !app_nil_r.
Qed.

Lemma gate_step_accounts g i g' outs :
  gate_ok g → gate_step vm_name work timing g i = (g', outs) → accounts g g' i outs.
Proof.
  intros Hok H.
  assert (Hnone : (g, []) = (g', outs) → updates_asked i = [] → reboots_asked i = [] →
    accounts g g' i outs).
  { intros [= <- <-] Hu Hb. unfold accounts. rewrite Hu, Hb, !app_nil_r. done. }
  destruct i as [u|b|s now wr|t|]; [by apply ask_accounts_update|by apply ask_accounts_reboot|..];
    destruct g as [on [|s' st|] us bs]; try by apply Hnone.
  - pose proof Hok as (Hon & _). cbn in Hon. subst. by apply session_opens_accounts.
  - destruct Hok as (Hon & Hu & Hb & p & last & us' & bs' & Hp & ->). cbn in Hon, Hu, Hb. subst.
    by apply session_turns_accounts.
  - cbn in Hok. subst. by apply set_offline_accounts.
Qed.

Lemma gate_run_accounts inputs : ∀ g g' outs,
  gate_ok g → gate_run vm_name work timing g inputs = (g', outs) →
  gate_ok g' ∧
  flat_map updates_back outs ++ gate_updates g' ≡ₚ gate_updates g ++ flat_map updates_asked inputs ∧
  flat_map reboots_back outs ++ gate_reboots g' ≡ₚ gate_reboots g ++ flat_map reboots_asked inputs.
Proof.
  induction inputs as [|i inputs IH]; intros g g' outs Hok H; cbn [gate_run] in H.
  { injection H as <- <-. by rewrite !app_nil_r. }
  destruct (gate_step _ _ _ g i) as [g1 o] eqn:Es, (gate_run _ _ _ g1 inputs) as [g2 more] eqn:Er.
  injection H as <- <-. destruct (gate_step_accounts _ _ _ _ Hok Es) as (Hok1 & Hu & Hb).
  destruct (IH _ _ _ Hok1 Er) as (Hok2 & Iu & Ib). split; [done|]. cbn [flat_map].
  rewrite !flat_map_app, <- !app_assoc, Iu, Ib, !app_assoc, Hu, Hb. done.
Qed.

(** C17: nobody's ask is lost and none outlives its session. However callers,
    sessions that open, take turns and end, and the closing of the gate
    interleave, whoever asked for an update or a reboot was refused, answered or
    told that the session ended, exactly once, or is still waiting; and while no
    session is open, nobody waits, so no ask of one session reaches the next. *)
Theorem every_ask_comes_back inputs :
  let '(g, outs) := gate_run vm_name work timing gate_start inputs in
  flat_map updates_back outs ++ gate_updates g ≡ₚ flat_map updates_asked inputs ∧
  flat_map reboots_back outs ++ gate_reboots g ≡ₚ flat_map reboots_asked inputs ∧
  (online g = false → gate_updates g = [] ∧ gate_reboots g = []).
Proof.
  destruct (gate_run _ _ _ gate_start inputs) as [g outs] eqn:E.
  destruct (gate_run_accounts inputs gate_start g outs ltac:(done) E) as (Hok & Hu & Hb).
  split_and!; [done..|]. intros Hoff. destruct g as [on [|s st|] us bs]; cbn in *; [|naive_solver..].
  by destruct Hok as (_ & -> & ->).
Qed.
End gate.

(** ** Strangers *)

Definition waits_of (evs : list thread_event) : list Z :=
  omap (λ e, match e with Waits d => Some d | _ => None end) evs.
Definition refusals (evs : list thread_event) : list (Z * Z) :=
  omap (λ e, match e with CandidateRefused tried refused => Some (tried, refused) | _ => None end) evs.

(** Each was tried at least a second after the one before it was refused. *)
Fixpoint spaced (from : Z) (rs : list (Z * Z)) : Prop :=
  match rs with
  | [] => True
  | (tried, refused) :: rs => from <= tried ∧ spaced (refused + FIRST_DELAY) rs
  end.

Definition in_band (b : Backoff) : Prop := FIRST_DELAY <= next b <= MAX_DELAY.

Lemma after_band b authenticated delay b' :
  in_band b → after b authenticated = (delay, b') →
  FIRST_DELAY <= delay <= MAX_DELAY ∧ in_band b'.
Proof.
  unfold in_band, after, FIRST_DELAY, MAX_DELAY. destruct authenticated; intros Hb [= <- <-]; cbn; lia.
Qed.

Fixpoint due (from : Z) (rs : list (Z * Z)) : Z :=
  match rs with [] => from | (_, refused) :: rs => due (refused + FIRST_DELAY) rs end.

Lemma spaced_app rs1 rs2 : ∀ from,
  spaced from (rs1 ++ rs2) ↔ spaced from rs1 ∧ spaced (due from rs1) rs2.
Proof. induction rs1 as [|[tried refused] rs1 IH]; intros from; cbn; [tauto|]. rewrite IH. tauto. Qed.
Lemma due_app rs1 rs2 : ∀ from, due from (rs1 ++ rs2) = due (due from rs1) rs2.
Proof. induction rs1 as [|[tried refused] rs1 IH]; intros from; cbn; [done|apply IH]. Qed.

Definition thread_ok (th : Thread) : Prop := in_band (backoff th) ∧ in_band (candidate_backoff th).

(** A stretch of the loop that keeps its distance. *)
Record paced (th th' : Thread) (evs : list thread_event) : Prop := {
  paced_ok : thread_ok th';
  paced_waits : Forall (λ d, FIRST_DELAY <= d <= MAX_DELAY) (waits_of evs);
  paced_refusals : ∀ from, from <= candidate_after th →
    spaced from (refusals evs) ∧ due from (refusals evs) <= candidate_after th';
}.

Lemma paced_trans th1 th2 th3 evs1 evs2 :
  paced th1 th2 evs1 → paced th2 th3 evs2 → paced th1 th3 (evs1 ++ evs2).
Proof.
  intros [O1 W1 R1] [O2 W2 R2]. split; [done| |].
  - unfold waits_of. rewrite omap_app. by apply Forall_app.
  - intros from Hf. unfold refusals. rewrite omap_app, spaced_app, due_app.
    destruct (R1 from Hf) as [S1 D1], (R2 _ D1) as [S2 D2]. done.
Qed.

(** A thread whose pacing is untouched. *)
Lemma paced_quiet th th' evs :
  thread_ok th' → candidate_after th' = candidate_after th → refusals evs = [] →
  Forall (λ d, FIRST_DELAY <= d <= MAX_DELAY) (waits_of evs) → paced th th' evs.
Proof. intros Hok Hc Hr Hw. split; [done|done|]. intros from Hf. rewrite Hr, Hc. by split. Qed.

Lemma offer_paced th t finished a th' evs r :
  thread_ok th → offer th t finished a = (th', evs, r) → paced th th' evs.
Proof.
  intros Hok H. unfold offer in H. destruct (t <? _) eqn:Et; [simplify_eq; by apply paced_quiet|].
  apply Z.ltb_ge in Et. destruct a as [| |[s|e|]]; simplify_eq; try by apply paced_quiet.
  - destruct (after (candidate_backoff th) true) as [d b] eqn:Ea. simplify_eq.
    apply after_band in Ea as [_ Hb]; [|apply Hok]. apply paced_quiet; try done. split; [apply Hok|done].
  - destruct (after (candidate_backoff th) false) as [d b] eqn:Ea. simplify_eq.
    apply after_band in Ea as [Hd Hb]; [|apply Hok]. split; cbn; [split; [apply Hok|done]|done|].
    intros from Hf. split_and!; [lia|done|lia].
Qed.

Lemma offers_paced polls : ∀ th th' evs r,
  thread_ok th → offers th polls = (th', evs, r) → paced th th' evs.
Proof.
  induction polls as [|[[t finished] a] polls IH]; intros th th' evs r Hok H; cbn [offers] in H.
  { simplify_eq. by apply paced_quiet. }
  destruct (offer th t finished a) as [[th1 evs1] o] eqn:Eo. apply offer_paced in Eo; [|done].
  destruct o; simplify_eq; try done.
  destruct (offers th1 polls) as [[th2 more] o2] eqn:Er. simplify_eq.
  eapply paced_trans; [exact Eo|]. eapply IH; [apply Eo|exact Er].
Qed.

Lemma serve_session_paced th s r th' evs more :
  thread_ok th → serve_session th s r = (th', evs, more) → paced th th' evs.
Proof.
  intros Hok H. unfold serve_session in H.
  destruct (offers th (polls r)) as [[th1 evs1] o] eqn:Eo. apply offers_paced in Eo as P; [|done].
  assert (Ps : paced th th1 (Served s :: evs1)) by (destruct P; by split).
  destruct o as [|next|]; [destruct (after (backoff th1) true) as [d b] eqn:Ea|..]; simplify_eq; try done.
  - apply after_band in Ea as [Hd Hb]; [|apply P].
    eapply paced_trans; [exact Ps|].
    apply paced_quiet; destruct (ended r); cbn; try done.
    all: try (by apply Forall_singleton).
    all: split; [done|apply P].
  - destruct Ps. by split.
Qed.

Lemma serve_round_paced th r th' evs more :
  thread_ok th → serve_round th r = (th', evs, more) → paced th th' evs.
Proof.
  intros Hok H. unfold serve_round in H. destruct (replacement th) as [s|] eqn:Er.
  - apply serve_session_paced in H; [|done]. by destruct H.
  - destruct (first r) as [| |[s|e|]]; try (simplify_eq; by apply paced_quiet).
    + by apply serve_session_paced in H.
    + destruct (after (backoff th) false) as [d b] eqn:Ea. simplify_eq.
      apply after_band in Ea as [Hd Hb]; [|apply Hok].
      apply paced_quiet; try done; [split; [done|apply Hok]|by apply Forall_singleton].
Qed.

Lemma serve_rounds_paced rounds : ∀ th th' evs,
  thread_ok th → serve_rounds th rounds = (th', evs) → paced th th' evs.
Proof.
  induction rounds as [|r rounds IH]; intros th th' evs Hok H; cbn [serve_rounds] in H.
  { simplify_eq. by apply paced_quiet. }
  destruct (serve_round th r) as [[th1 evs1] []] eqn:Er; apply serve_round_paced in Er; try done.
  - destruct (serve_rounds th1 rounds) as [th2 more] eqn:Es. simplify_eq.
    eapply paced_trans; [exact Er|]. eapply IH; [apply Er|exact Es].
  - by simplify_eq.
Qed.

(** A peer that connects and drops as fast as it can is paced: whatever
    connects and however each connection ends, the thread never waits less than a
    second nor more than half a minute before it offers again; and candidates for
    a session's place are tried at least a second after the one before them was
    refused. *)
Theorem strangers_are_paced start rounds :
  let '(_, evs) := serve_rounds (thread_start start) rounds in
  Forall (λ d, FIRST_DELAY <= d <= MAX_DELAY) (waits_of evs) ∧ spaced start (refusals evs).
Proof.
  destruct (serve_rounds _ rounds) as [th evs] eqn:E. apply serve_rounds_paced in E as [_ Hw Hr];
    [|by split]. split; [done|]. by apply Hr.
Qed.

(** ** Waiting *)

Definition slept (slices : list Z) : Z := fold_right Z.add 0 slices.

Lemma wait_loop_spec fuel : ∀ delay waited running,
  (Z.to_nat (delay - waited) < fuel)%nat →
  ∃ slices, wait_loop fuel delay waited running = Some slices ∧
    Forall (λ x, 0 < x <= ACCEPT_POLL) slices ∧
    (waited <= delay → waited + slept slices <= delay) ∧
    (delay <= waited + slept slices ∨ running (waited + slept slices) = false) ∧
    (∀ a b, slices = a ++ b → b ≠ [] → running (waited + slept a) = true).
Proof.
  induction fuel as [|fuel IH]; intros delay waited running Hf; [lia|]. cbn [wait_loop].
  destruct (waited <? delay) eqn:Ed; cbn [andb].
  2:{ apply Z.ltb_ge in Ed. exists []. cbn. split_and!; try done; try lia.
      intros a b E Hb. symmetry in E. by apply app_eq_nil in E as [-> ->]. }
  apply Z.ltb_lt in Ed. destruct (running waited) eqn:Er.
  2:{ exists []. cbn. rewrite Z.add_0_r. split_and!; try done; try lia; [by right|].
      intros a b E Hb. symmetry in E. by apply app_eq_nil in E as [-> ->]. }
  unfold ACCEPT_POLL in *.
  destruct (IH delay (waited + Z.min 250 (delay - waited)) running) as (slices & -> & Hs & Hb & Hd & Hp);
    [lia|].
  eexists. split; [reflexivity|]. cbn [slept fold_right]. fold (slept slices).
  rewrite Z.add_assoc. split_and!; [constructor; [lia|done]|lia|done|].
  intros [|x a] b E Hne; [by rewrite Z.add_0_r|]. cbn in E. injection E as <- E.
  cbn [slept fold_right]. fold (slept a). rewrite Z.add_assoc. by apply (Hp a b).
Qed.

(** The wait between two offers ends, and can be ended: it sleeps in slices
    of at most a quarter of a second, adds up to the delay unless the thread was
    told to stop, and starts no slice after that. *)
Theorem wait_is_interruptible delay running :
  0 <= delay →
  ∃ slices, wait_before_offering_again delay running = Some slices ∧
    Forall (λ x, 0 < x <= ACCEPT_POLL) slices ∧
    (slept slices = delay ∨ slept slices < delay ∧ running (slept slices) = false) ∧
    (∀ a b, slices = a ++ b → b ≠ [] → running (slept a) = true).
Proof.
  intros Hd. unfold wait_before_offering_again.
  destruct (wait_loop_spec (S (Z.to_nat delay)) delay 0 running) as (slices & -> & Hs & Hb & He & Hp); [lia|].
  exists slices. split_and!; try done. rewrite !Z.add_0_l in *. destruct He; [left; lia|].
  specialize (Hb Hd). destruct (decide (slept slices = delay)); [by left|right]. split; [lia|done].
Qed.

Lemma wait_is_interruptible_witness :
  wait_before_offering_again 1000 (λ t, t <? 600) = Some [250; 250; 250] ∧
  ∃ slices, wait_before_offering_again 1000 (λ t, t <? 600) = Some slices ∧
    Forall (λ x, 0 < x <= ACCEPT_POLL) slices ∧
    (slept slices = 1000 ∨ slept slices < 1000 ∧ (slept slices <? 600) = false) ∧
    (∀ a b, slices = a ++ b → b ≠ [] → (slept a <? 600) = true).
Proof.
  split; [by vm_compute|]. apply (wait_is_interruptible 1000 (λ t, t <? 600)). lia.
Defined.

(** ** The gate tried out *)

(** A caller before the session, one during it, one just after it returned. *)
Definition gate_inputs : list gate_input :=
  [AsksReboot (mk_agent_reboot 1); Opens full_session 0 all_written; AsksReboot (mk_agent_reboot 2);
   TurnTaken (mk_turn (Err FrameClosed) 1 false all_written); AsksReboot (mk_agent_reboot 3); Closes;
   AsksReboot (mk_agent_reboot 4)].

Lemma every_ask_comes_back_witness :
  let '(g, outs) := gate_run "vm" full_work NORMAL gate_start gate_inputs in
  flat_map reboots_back outs = [1; 2; 3; 4] ∧
  flat_map updates_back outs ++ gate_updates g ≡ₚ flat_map updates_asked gate_inputs ∧
  flat_map reboots_back outs ++ gate_reboots g ≡ₚ flat_map reboots_asked gate_inputs ∧
  (online g = false → gate_updates g = [] ∧ gate_reboots g = []).
Proof.
  pose proof (every_ask_comes_back "vm" full_work NORMAL gate_inputs) as H. revert H.
  destruct (gate_run _ _ _ _ gate_inputs) as [g outs] eqn:E. intros H. split; [|done].
  by vm_compute in E; injection E as <- <-.
Defined.

Lemma strangers_are_paced_witness :
  let '(_, evs) := serve_rounds (thread_start 0)
    [mk_round (Connected (Err HostUnresponsive)) [] (Ok tt);
     mk_round (Connected (Ok full_session))
       [(5, 6, Connected (Err HostUnresponsive)); (7, 8, Connected (Err HostUnresponsive));
        (1006, 1007, Connected (Err HostUnresponsive)); (3007, 3008, Connected (Ok full_session))] (Ok tt)] in
  refusals evs = [(5, 6); (1006, 1007)] ∧
  Forall (λ d, FIRST_DELAY <= d <= MAX_DELAY) (waits_of evs) ∧ spaced 0 (refusals evs).
Proof.
  match goal with |- context [serve_rounds ?t ?rounds] =>
    pose proof (strangers_are_paced 0 rounds) as H; revert H;
    destruct (serve_rounds t rounds) as [th evs] eqn:E end.
  intros H. split; [|done]. vm_compute in E. by injection E as <- <-.
Defined.
