(* ===== verification/StatusProps.v ===== *)
(** * What a person reads is what was last said

    The facts of a run as the last words of the reports that made them, and the
    two statuses derived from them (VmStatus.v); across the session that brings
    the reports (AgentServe.v, AgentTalk.v). *)

From stdpp Require Import base option gmap list strings relations.
From S2P Require Import Prelude.
From S2P Require Import CoreVm.
From S2P Require Import CoreGpu.
From S2P Require Import CoreDisplay.
From S2P Require Import AgentProto.
From S2P Require Import AgentFrame.
From S2P Require Import AgentHost.
From S2P Require Import AgentGuest.
From S2P Require Import AgentServe.
From S2P Require Import AgentServeProps.
From S2P Require Import AgentTalk.
From S2P Require Import VmStatus.

(** ** The statuses, by what they need *)

(** A viewer may connect exactly when the machine was made with a desktop
    that is installed, it runs, and either nothing of its payload failed and the
    guest last said it offers its display, or what failed is an update that was
    rolled back. *)
Theorem connectable_exactly_when profile provisioning st f now :
  is_connectable (derive_display_status profile provisioning st f now) = true ↔
  wants_desktop profile = true ∧ provisioning = ProvisioningReady ∧ starting_or_running st = true ∧
  match failure f with
  | Some broken => failure_code broken = PayloadUpdateRolledBack
  | None => ∃ detail, guest f = Some (DisplayReady detail)
  end.
Proof.
  unfold derive_display_status, is_connectable, payload_failure.
  destruct (wants_desktop profile); cbn; [|naive_solver].
  destruct provisioning; cbn; try (split; [discriminate|by intros (_ & [=] & _)]).
  destruct (starting_or_running st); cbn; [|naive_solver].
  destruct (failure f) as [broken|]; cbn; [case_decide; naive_solver|].
  destruct (guest f) as [[]|]; cbn; naive_solver.
Qed.

(** A GPU status read off: active with all that needs, or not and one of it missing. *)
Ltac gpu_leaf :=
  split;
  [ split;
    [ try discriminate; intros _; split_and!; eauto
    | intros (Hm & Hr & (a & Ha & Hn) & (d & Hd)); destruct Hm, Hd; simplify_eq; try done;
      by edestruct Hn ]
  | try discriminate; eauto ].

(** A GPU is called active exactly when the machine asks for one this build
    can apply, runs, was not refused it by the host, and its guest last said that
    it sees or renders on it; a host that attached less than was asked is named
    only where the guest renders or has not answered. *)
Theorem gpu_active_exactly_when mode st f now :
  let status := derive_gpu_status mode st f now in
  (is_active status = true ↔
   (mode = ModeDefault ∨ mode = ModeMirror) ∧ starting_or_running st = true ∧
   (∃ a, assignment f = Some a ∧ ∀ reason, a ≠ NotAssigned reason) ∧
   (∃ detail, CoreGpu.guest f = Some (DevicePresent detail) ∨ CoreGpu.guest f = Some (GpuReady detail))) ∧
  (CoreGpu.state status = GpuDegraded → ∃ d reason, assignment f = Some (Partial d reason)).
Proof.
  cbn zeta. unfold derive_gpu_status, is_active.
  destruct mode; cbn; try gpu_leaf; (destruct (starting_or_running st) eqn:Er; cbn; [|gpu_leaf]);
    (destruct (assignment f) as [[]|] eqn:Ea; cbn; try gpu_leaf);
    (destruct (CoreGpu.guest f) as [[]|] eqn:Eg; cbn; gpu_leaf).
Qed.

(** What the retry a status offers rests on. *)
Lemma retry_follows_the_code profile provisioning st f now :
  let status := derive_display_status profile provisioning st f now in
  status_can_retry status = true → is_retryable (code status) = true.
Proof.
  cbn. unfold derive_display_status. destruct (wants_desktop profile); cbn; [|done].
  destruct provisioning; cbn; try done. destruct (starting_or_running st); cbn; [|done].
  destruct (payload_failure f) as [broken|]; cbn; [done|].
  by destruct (guest f) as [[]|].
Qed.

(** A status may offer to install the desktop again where there is nothing a
    retry could start from. *)
Lemma retry_without_a_start profile st f broken now :
  wants_desktop profile = true → starting_or_running st = true →
  failure f = Some broken → is_retryable (failure_code broken) = true →
  status_can_retry (derive_display_status profile ProvisioningReady st f now) = true ∧
  retried ProvisioningReady = None.
Proof.
  intros Hw Hr Hf Hc. unfold derive_display_status, payload_failure. by rewrite Hw, Hr, Hf, Hc.
Qed.

(** ** The last words *)

Definition display_reported (outs : list host_output) : list GuestDisplayPayloadReport :=
  omap (λ o, match o with ReportedDisplay r => Some r | _ => None end) outs.
Definition gpu_reported (outs : list host_output) : list GuestGpuReport :=
  omap (λ o, match o with ReportedGpu r => Some r | _ => None end) outs.

(** The last of [new], or what there was. *)
Definition last_word {A} (old : option A) (new : list A) : option A :=
  match list.last new with Some a => Some a | None => old end.

Lemma last_word_cons {A} (old : option A) a new :
  last_word old (a :: new) = last_word (Some a) new.
Proof. unfold last_word. rewrite last_cons. by destruct (list.last new). Qed.

Lemma snapshot_gpu_record runs vm r now :
  GpuRuns.snapshot (GpuRuns.record_guest runs vm r now) vm
  = mk_gpu_facts (assignment (GpuRuns.snapshot runs vm)) (Some r) (Some now).
Proof.
  unfold GpuRuns.snapshot, GpuRuns.record_guest, alter_entry. rewrite lookup_insert_eq. cbn.
  by destruct (runs !! vm).
Qed.

Lemma snapshot_display_sink runs vm now r :
  let f := DisplayRuns.snapshot runs vm in
  DisplayRuns.snapshot (display_sink runs vm now r) vm
  = mk_display_facts (last_word (guest f) (option_list (report_guest r)))
      (mk_payload_facts (report_installed r) (report_previous r) (report_loaded r)
         (offered_version (payload f)))
      (report_failure r) (Some now) (update_in_flight f)
      (last_word (desktop f) (option_list (report_desktop r))).
Proof.
  cbn. unfold display_sink, DisplayRuns.snapshot, DisplayRuns.record_guest_display,
    DisplayRuns.record_guest_desktop, DisplayRuns.record_guest_payload, alter_entry.
  destruct (report_guest r), (report_desktop r); cbn; rewrite !lookup_insert_eq; cbn;
    rewrite ?lookup_insert_eq; cbn; by destruct (runs !! vm).
Qed.

(** An update that is rolled back makes the display read as working, and a
    viewer be let in, although the guest last said that its display services do
    not run: whatever they failed with, and whoever asked for the update. *)
Theorem a_rollback_hides_failed_services profile st runs vm now later broken reason versions :
  wants_desktop profile = true → starting_or_running st = true →
  guest (DisplayRuns.snapshot runs vm) = Some (DisplayFailed broken) →
  failure (DisplayRuns.snapshot runs vm) = Some broken →
  failure_code broken = GuestServicesFailed →
  let stages := [mk_display_stage 6 STAGE_FAILED reason] in
  let rolled_back := report_display_update (mk_update stages versions 2) in
  let runs' := display_sink runs vm now (answer_report rolled_back) in
  is_connectable (derive_display_status profile ProvisioningReady st (DisplayRuns.snapshot runs vm) later)
    = false ∧
  is_connectable (derive_display_status profile ProvisioningReady st (DisplayRuns.snapshot runs' vm) later)
    = true ∧
  guest (DisplayRuns.snapshot runs' vm) = Some (DisplayFailed broken).
Proof.
  intros Hw Hr Hg Hf Hc. cbn zeta. rewrite snapshot_display_sink.
  unfold derive_display_status, payload_failure, is_connectable. cbn.
  by rewrite Hw, Hr, Hf, Hg, Hc.
Qed.

Lemma sink_outputs_gpu vm now outs : ∀ runs,
  let f := GpuRuns.snapshot runs.1 vm in
  let f' := GpuRuns.snapshot (sink_outputs vm now runs outs).1 vm in
  assignment f' = assignment f ∧ CoreGpu.guest f' = last_word (CoreGpu.guest f) (gpu_reported outs).
Proof.
  induction outs as [|o outs IH]; intros runs; cbn; [done|].
  destruct (IH (sink_output vm now runs o)) as [Ia Ig]. fold (sink_outputs vm now (sink_output vm now runs o) outs).
  rewrite Ia, Ig. destruct o; cbn; try done.
  rewrite snapshot_gpu_record. cbn. by rewrite last_word_cons.
Qed.

Lemma last_word_app {A} (old : option A) (a b : list A) :
  last_word (last_word old a) b = last_word old (a ++ b).
Proof. unfold last_word. rewrite last_app. by destruct (list.last b), (list.last a). Qed.

Lemma sink_outputs_display vm now outs : ∀ runs,
  let f := DisplayRuns.snapshot runs.2 vm in
  let f' := DisplayRuns.snapshot (sink_outputs vm now runs outs).2 vm in
  let reports := display_reported outs in
  guest f' = last_word (guest f) (omap report_guest reports) ∧
  desktop f' = last_word (desktop f) (omap report_desktop reports) ∧
  failure f' = match list.last reports with Some r => report_failure r | None => failure f end ∧
  payload f' = match list.last reports with
               | Some r => mk_payload_facts (report_installed r) (report_previous r)
                             (report_loaded r) (offered_version (payload f))
               | None => payload f
               end.
Proof.
  induction outs as [|o outs IH]; intros runs; cbn; [by split_and!|].
  fold (sink_outputs vm now (sink_output vm now runs o) outs).
  destruct (IH (sink_output vm now runs o)) as (Ig & Id & If & Iv). rewrite Ig, Id, If, Iv.
  destruct o as [e|g|r|asker a|asker a]; cbn; try by split_and!.
  rewrite snapshot_display_sink. cbn. fold (display_reported outs). rewrite list.last_cons.
  split_and!; try done.
  - rewrite last_word_app. by destruct (report_guest r).
  - rewrite last_word_app. by destruct (report_desktop r).
  - by destruct (list.last (display_reported outs)).
  - by destruct (list.last (display_reported outs)).
Qed.

Lemma sink_outputs_elsewhere vm vm' now outs : ∀ runs,
  vm' ≠ vm →
  (sink_outputs vm now runs outs).1 !! vm' = runs.1 !! vm' ∧
  (sink_outputs vm now runs outs).2 !! vm' = runs.2 !! vm'.
Proof.
  induction outs as [|o outs IH]; intros runs Hne; cbn; [done|].
  destruct (IH (sink_output vm now runs o) Hne) as [I1 I2].
  fold (sink_outputs vm now (sink_output vm now runs o) outs). rewrite I1, I2.
  destruct o; cbn; try done; unfold GpuRuns.record_guest, display_sink, DisplayRuns.record_guest_display,
    DisplayRuns.record_guest_desktop, DisplayRuns.record_guest_payload, alter_entry; split; try done;
    repeat case_match; by rewrite !lookup_insert_ne by done.
Qed.

(** C35: what is known of a running machine is the last word on each subject: of
    everything its session reported, the GPU's last report, the last display
    report that spoke of the services, the last that spoke of the desktop, and
    the versions and the failure of the last display report of all; what the
    host offered and attached, and every other machine, is left as it was. *)
Theorem facts_are_the_last_words vm vm' now runs outs :
  let g := GpuRuns.snapshot runs.1 vm in
  let f := DisplayRuns.snapshot runs.2 vm in
  let runs' := sink_outputs vm now runs outs in
  let g' := GpuRuns.snapshot runs'.1 vm in
  let f' := DisplayRuns.snapshot runs'.2 vm in
  let reports := display_reported outs in
  (assignment g' = assignment g ∧ CoreGpu.guest g' = last_word (CoreGpu.guest g) (gpu_reported outs)) ∧
  (guest f' = last_word (guest f) (omap report_guest reports) ∧
   desktop f' = last_word (desktop f) (omap report_desktop reports) ∧
   failure f' = match list.last reports with Some r => report_failure r | None => failure f end ∧
   payload f' = match list.last reports with
                | Some r => mk_payload_facts (report_installed r) (report_previous r)
                              (report_loaded r) (offered_version (payload f))
                | None => payload f
                end) ∧
  (vm' ≠ vm → runs'.1 !! vm' = runs.1 !! vm' ∧ runs'.2 !! vm' = runs.2 !! vm').
Proof.
  cbn zeta. split; [apply sink_outputs_gpu|split; [apply sink_outputs_display|]].
  apply sink_outputs_elsewhere.
Qed.

(** ** Across the session *)

(** Whoever asked for an update is told what is recorded of it: the answer
    handed over and the facts of the machine agree on the versions and on the
    failure, and it is called a success, with a line that is no warning, exactly
    when the guest said it updated. *)
Theorem an_update_is_told_as_it_is_recorded vm_name s work timing st t report asker :
  heard t = Ok (response DISPLAY_UPDATE_REQUEST_ID (UpdateDisplayPayloadResponseK report)) →
  pending_update st = Some asker →
  ∃ a st', host_turn vm_name s work timing st t
      = ([ReportedDisplay (answer_report a); AnsweredUpdate asker a], st', Ok None) ∧
    ∀ runs vm now version,
      let f := DisplayRuns.snapshot (display_sink runs vm now (answer_report a)) vm in
      let o := outcome_of a version in
      failure f = outcome_failure o ∧
      installed_version (payload f) = installed_version (outcome_payload o) ∧
      previous_version (payload f) = previous_version (outcome_payload o) ∧
      loaded_version (payload f) = loaded_version (outcome_payload o) ∧
      ((update_report vm_name o).1 = Info ↔ update_outcome report = 1).
Proof.
  intros Ht Hp. exists (report_display_update report). unfold host_turn. rewrite Ht.
  cbn [body_of body response fmap option_fmap option_map ok_or host_response request_id].
  rewrite Z.eqb_refl. destruct st. cbn in Hp |- *. subst. eexists. split; [done|].
  intros runs vm at_ version. rewrite snapshot_display_sink. cbn.
  unfold report_display_update, outcome_of, update_report, update_outcome_of; cbn.
  split_and!; try done; repeat (case_if; bool_to_prop); cbn; repeat case_decide; cbn; try done; naive_solver.
Qed.

(** A session settles what its machine's GPU reads as: with shares to give
    and a guest that agreed on the GPU, once no frame is left under way the
    status is the guest's to explain and no longer a wait, whatever the guest's
    handlers came to and in whatever order the two stacks' frames went. *)
Theorem a_session_settles_the_gpu {W} (h : Handlers W) vm_name s gs work timing now g n t
    runs vm at_ detail mode st later :
  guest_capabilities gs = capabilities s →
  nsteps (delivers h vm_name s gs work timing) n (talk_start s work now g) t →
  to_guest t = [] → to_host t = [] → is_some (attach_shares s work) = true →
  mode = ModeDefault ∨ mode = ModeMirror → starting_or_running st = true →
  assignment (GpuRuns.snapshot runs.1 vm) = Some (Complete detail) →
  let facts := GpuRuns.snapshot (sink_outputs vm at_ runs (reported t)).1 vm in
  let status := derive_gpu_status mode st facts later in
  CoreGpu.stage status = GpuStageGuest ∧ CoreGpu.state status ≠ GpuWaitingForGuest.
Proof.
  intros Hc Hn Hg Hh Hs Hm Hr Ha. cbn zeta.
  destruct (talk_settles h vm_name s gs work timing now g n t Hc Hn Hg Hh) as (_ & Hrep & _).
  rewrite Hs in Hrep. destruct (sink_outputs_gpu vm at_ (reported t) runs) as [Ea Eg]. cbn zeta in Ea, Eg.
  rewrite Ha in Ea. assert (Hgr : gpu_reported (reported t) ≠ []).
  { intros E. assert (L : gpu_reports (reported t) = length (gpu_reported (reported t))).
    { generalize (reported t) as outs. unfold gpu_reports, gpu_reported.
      induction outs as [|[] outs IH]; cbn; [done|..]; by rewrite ?IH. }
    rewrite E in L. cbn in L. lia. }
  assert (Hw : ∃ r, CoreGpu.guest (GpuRuns.snapshot (sink_outputs vm at_ runs (reported t)).1 vm) = Some r).
  { rewrite Eg. unfold last_word. destruct (list.last _) as [r|] eqn:El; [by eexists|].
    by apply last_None in El. }
  destruct Hw as [r Hw]. unfold derive_gpu_status. rewrite Ea, Hw, Hr.
  destruct Hm as [-> | ->], r; done.
Qed.

(** ** Tried out *)

Definition one_vm : GpuRuns.Runs * DisplayRuns.Runs :=
  (GpuRuns.record_assignment ∅ 7 (Complete (mk_native None 1)) 0,
   DisplayRuns.record_host ∅ 7 (Some "2"%string) None 0).

Lemma gpu_active_exactly_when_witness :
  let status := derive_gpu_status ModeDefault (Running Online)
    (GpuRuns.snapshot (GpuRuns.record_guest one_vm.1 7 (GpuReady (mk_gpu_detail None None)) 1) 7) 9 in
  CoreGpu.state status = GpuGuestReady ∧
  (is_active status = true ↔
   (ModeDefault = ModeDefault ∨ ModeDefault = ModeMirror) ∧ starting_or_running (Running Online) = true ∧
   (∃ a, Some (Complete (mk_native None 1)) = Some a ∧ ∀ reason, a ≠ NotAssigned reason) ∧
   (∃ detail, Some (GpuReady (mk_gpu_detail None None)) = Some (DevicePresent detail) ∨
              Some (GpuReady (mk_gpu_detail None None)) = Some (GpuReady detail))).
Proof.
  split; [by vm_compute|].
  apply (gpu_active_exactly_when ModeDefault (Running Online)
    (GpuRuns.snapshot (GpuRuns.record_guest one_vm.1 7 (GpuReady (mk_gpu_detail None None)) 1) 7) 9).
Defined.

Definition services_failed : DisplayFailure :=
  mk_display_failure StagePayload GuestServicesFailed "the guest's display recipe stopped".

Definition failing_vm : DisplayRuns.Runs :=
  display_sink one_vm.2 7 1
    (mk_payload_report (Some "1") None (Some "1") (Some services_failed)
       (Some (DisplayFailed services_failed)) None None)%string.

Lemma a_rollback_hides_failed_services_witness :
  let rolled_back := report_display_update (mk_update [mk_display_stage 6 STAGE_FAILED "no"] None 2) in
  let runs' := display_sink failing_vm 7 2 (answer_report rolled_back) in
  is_connectable (derive_display_status Gnome ProvisioningReady (Running Online)
    (DisplayRuns.snapshot failing_vm 7) 3) = false ∧
  is_connectable (derive_display_status Gnome ProvisioningReady (Running Online)
    (DisplayRuns.snapshot runs' 7) 3) = true ∧
  guest (DisplayRuns.snapshot runs' 7) = Some (DisplayFailed services_failed).
Proof.
  by apply (a_rollback_hides_failed_services Gnome (Running Online) failing_vm 7 2 3 services_failed
    "no" None).
Defined.

Lemma facts_are_the_last_words_witness :
  let outs := [ReportedGpu (GpuReady (mk_gpu_detail None None)); Wrote probe_request;
    ReportedDisplay (mk_payload_report (Some "1") None (Some "1") None
      (Some (DisplayReady display_detail_default)) None None)%string;
    ReportedDisplay (mk_payload_report (Some "2") (Some "1") (Some "2") None None None None)%string] in
  guest (DisplayRuns.snapshot (sink_outputs 7 1 one_vm outs).2 7) = Some (DisplayReady display_detail_default) ∧
  (8 ≠ 7 → (sink_outputs 7 1 one_vm outs).1 !! 8 = one_vm.1 !! 8 ∧
           (sink_outputs 7 1 one_vm outs).2 !! 8 = one_vm.2 !! 8).
Proof.
  intros outs. split; [by vm_compute|]. apply (facts_are_the_last_words 7 8 1 one_vm outs).
Defined.

Definition updating_host : HostState := set_update (Some 41) None (host_start 0).

Lemma an_update_is_told_as_it_is_recorded_witness :
  let report := mk_update [] (Some (mk_versions "2" "1" "2")) 1 in
  let t := mk_turn (Ok (response DISPLAY_UPDATE_REQUEST_ID (UpdateDisplayPayloadResponseK report)))
             1 false all_written in
  ∃ a st', host_turn "vm" full_session full_work NORMAL updating_host t
      = ([ReportedDisplay (answer_report a); AnsweredUpdate 41 a], st', Ok None) ∧
    ∀ runs vm now version,
      let f := DisplayRuns.snapshot (display_sink runs vm now (answer_report a)) vm in
      let o := outcome_of a version in
      failure f = outcome_failure o ∧
      installed_version (payload f) = installed_version (outcome_payload o) ∧
      previous_version (payload f) = previous_version (outcome_payload o) ∧
      loaded_version (payload f) = loaded_version (outcome_payload o) ∧
      ((update_report "vm" o).1 = Info ↔ update_outcome report = 1).
Proof.
  cbn zeta. by apply (an_update_is_told_as_it_is_recorded "vm" full_session full_work NORMAL updating_host).
Defined.

(** A session with shares and no display, over six deliveries. *)
Definition gpu_work : SessionWork := mk_work (Some [wsl_lib]) None None.

Lemma a_session_settles_the_gpu_witness :
  ∃ t, nsteps (delivers counting "vm" full_session full_guest gpu_work NORMAL) 6
         (talk_start full_session gpu_work 0 (guest_start 0)) t ∧
    let status := derive_gpu_status ModeMirror (Running Online)
      (GpuRuns.snapshot (sink_outputs 7 1 one_vm (reported t)).1 7) 9 in
    CoreGpu.stage status = GpuStageGuest ∧ CoreGpu.state status ≠ GpuWaitingForGuest.
Proof.
  assert (Hrun : ∃ t, nsteps (delivers counting "vm" full_session full_guest gpu_work NORMAL) 6
      (talk_start full_session gpu_work 0 (guest_start 0)) t ∧ to_guest t = [] ∧ to_host t = []).
  { eexists. split; [|split].
    - do 6 (eapply nsteps_l; [first [eapply to_the_guest; vm_compute; reflexivity
        | eapply (to_the_host _ _ _ _ _ _ _ _ _ _ _ _ _ 1); vm_compute; reflexivity]|cbn]).
      apply nsteps_O.
    - done.
    - done. }
  destruct Hrun as (t & Hn & Hg & Hh). exists t. split; [done|].
  apply (a_session_settles_the_gpu counting "vm" full_session full_guest gpu_work NORMAL 0
    (guest_start 0) 6 t one_vm 7 1 (mk_native None 1)); try done. by right.
Defined.
