(* ===== verification/Stateful.v ===== *)
(** * Code that changes a state and may fail

    An operation on a state [S] hands the state back with its outcome, whatever
    the outcome is: what a failed operation leaves behind is part of the model.
    [triple P m Q R] says that from a state of [P] the operation does not panic,
    that a success leaves a state of [Q] and a failure one of [R]. *)

From stdpp Require Import base option list.
From S2P Require Import Prelude.

Definition action (S E A : Type) : Type := S → S * result E A.

Section action.
Context {S E A B : Type}.

Definition pure_of (r : result E A) : action S E A := λ s, (s, r).

Definition abind (m : action S E A) (k : A → action S E B) : action S E B := λ s,
  let '(s, r) := m s in
  match r with
  | Ok a => k a s
  | Err e => (s, Err e)
  | Panic => (s, Panic)
  end.

End action.

Definition gets {S E A} (f : S → A) : action S E A := λ s, (s, Ok (f s)).
Definition modify {S E} (f : S → S) : action S E unit := λ s, (f s, Ok tt).

Notation "'let^' x ':=' m 'in' k" := (abind m (fun x => k))
  (at level 10, x pattern, m at level 100, k at level 200,
   format "'[v' 'let^'  x  ':='  m  'in' '/' k ']'") : vm_scope.

Section triple.
Context {S E : Type}.

Definition outcome {A} (Q : A → S → Prop) (R : E → S → Prop) (o : S * result E A) : Prop :=
  match o with
  | (s, Ok a) => Q a s
  | (s, Err e) => R e s
  | (_, Panic) => False
  end.

Definition triple {A} (P : S → Prop) (m : action S E A) (Q : A → S → Prop) (R : E → S → Prop) : Prop :=
  ∀ s, P s → outcome Q R (m s).

Lemma triple_bind {A B} P (m : action S E A) (k : A → action S E B) Q' Q R :
  triple P m Q' R → (∀ a, triple (Q' a) (k a) Q R) → triple P (abind m k) Q R.
Proof.
  intros Hm Hk s Hs. specialize (Hm s Hs). unfold abind.
  destruct (m s) as [s' [a|e|]]; cbn in *; [by apply Hk|done..].
Qed.

Lemma triple_ok {A} P (a : A) (Q : A → S → Prop) R :
  (∀ s, P s → Q a s) → triple P (pure_of (Ok a)) Q R.
Proof. by intros ? s ?; cbn; auto. Qed.

Lemma triple_err {A} P e (Q : A → S → Prop) (R : E → S → Prop) :
  (∀ s, P s → R e s) → triple P (pure_of (Err e)) Q R.
Proof. by intros ? s ?; cbn; auto. Qed.

Lemma triple_gets {A} P (f : S → A) R : triple P (gets f) (λ a s, P s ∧ a = f s) R.
Proof. by intros s Hs. Qed.

(** Reading a part of the state whose value is known. *)
Lemma triple_gets_known {A B} P (f : S → A) a (k : A → action S E B) Q R :
  (∀ s, P s → f s = a) → triple P (k a) Q R → triple P (abind (gets f) k) Q R.
Proof. intros Hf Hk s Hs. cbn. rewrite (Hf s Hs). by apply Hk. Qed.

Lemma triple_modify P (f : S → S) (Q : unit → S → Prop) R :
  (∀ s, P s → Q tt (f s)) → triple P (modify f) Q R.
Proof. by intros ? s ?; cbn; auto. Qed.

Lemma triple_weaken {A} (P P' : S → Prop) (m : action S E A) (Q Q' : A → S → Prop) (R R' : E → S → Prop) :
  triple P' m Q' R' → (∀ s, P s → P' s) → (∀ a s, Q' a s → Q a s) → (∀ e s, R' e s → R e s) →
  triple P m Q R.
Proof.
  intros Hm HP HQ HR s Hs. specialize (Hm s (HP s Hs)).
  destruct (m s) as [s' [a|e|]]; cbn in *; auto.
Qed.

Lemma triple_pre {A} (P P' : S → Prop) (m : action S E A) Q R :
  (∀ s, P s → P' s) → triple P' m Q R → triple P m Q R.
Proof. intros HP Hm s Hs. by apply Hm, HP. Qed.

(** A fact that does not depend on the state may be assumed. *)
Lemma triple_assume {A} (φ : Prop) P (m : action S E A) Q R :
  (φ → triple P m Q R) → triple (λ s, φ ∧ P s) m Q R.
Proof. intros H s [Hφ Hs]. by apply H. Qed.

Lemma triple_run {A} P (m : action S E A) Q R s s' r :
  triple P m Q R → P s → m s = (s', r) → outcome Q R (s', r).
Proof. intros Hm Hs Hr. specialize (Hm s Hs). by rewrite Hr in Hm. Qed.

End triple.

#[export] Hint Resolve triple_gets : vm.

(** ** Streams of bytes

    [std::io::Read] as a client sees it: a read may give fewer bytes than asked
    for, gives none only at the end, and may fail.  The disk reader promises
    this and the importer relies on it. *)

(** What a read at [p] of a stream holding [bytes] does to a buffer, and how many
    bytes it says it gave. *)
Inductive served (bytes : list Z) (p : Z) (buffer : list Z) : list Z → Z → Prop :=
| served_nothing :
    zlen bytes <= p ∨ buffer = [] → served bytes p buffer buffer 0
| served_some n :
    0 < n → n <= zlen buffer → p + n <= zlen bytes →
    served bytes p buffer
      (take (Z.to_nat n) (drop (Z.to_nat p) bytes) ++ drop (Z.to_nat n) buffer) n.

Class Source (S E : Type) := source_read : list Z → action S E (list Z * Z).

(** [at_ bytes p] are the states of a stream of [bytes] that has reached [p]. *)
Class SourceLaws {S E} (source : Source S E) (at_ : list Z → Z → S → Prop) : Prop :=
  source_serves bytes p buffer :
    0 <= p →
    triple (at_ bytes p) (source_read buffer)
      (λ '(buffer', n) s, served bytes p buffer buffer' n ∧ at_ bytes (p + n) s)
      (λ _ _, True).
