(* ===== verification/Qcow2Header.v ===== *)
(** * Vetting a qcow2 header

    [image/src/qcow2/header.rs]: every count and offset of a downloaded image is
    checked while the file is still nothing but bytes.  The file is a list of
    bytes; [file_length] is what its metadata said.  A message is the reason it
    was made for. *)

From stdpp Require Import base option list.
From S2P Require Import Prelude.

(** ** Refusals *)

Inductive malformation : Type :=
| ShortHeader
| BadMagic
| ZeroBytes
| L1TooSmall (l1_size clusters : Z)
| L1TooLarge (l1_size : Z)
| L1Misaligned (offset : Z)
| L1PastEnd (offset : Z)
| HeaderLength (length : Z)
| HeaderLengthUnaligned (length : Z)
| CompressionUndeclared (compression_type : Z)
| ExtensionTooLarge (kind length : Z)
| ExtensionPastEnd (kind : Z)
| TooManyExtensions
| Unreadable (offset : Z)
| NoL1Entry (l1_index : Z)
| SpanPastEnd (offset : Z)
| L2Misaligned (offset : Z)
| L2Unreadable (offset : Z)
| ContentsUnreadable (index : Z)
| Disagreement
| Unparsed
| L1Short.

Inductive qcow2_error : Type :=
| NotQcow2
| UnsupportedVersion (version : Z)
| UnsupportedFeatures (bits : Z)
| UnsupportedCompression (compression_type : Z)
| Encrypted (crypt_method : Z)
| BackingFile
| Snapshots (count : Z)
| UnsupportedClusterSize (cluster_bits : Z)
| TooLarge (virtual_size capacity : Z)
| Malformed (reason : malformation).

(** ** Constants *)

Definition MAGIC : list Z := [81; 70; 73; 251].
Definition V2_HEADER_LENGTH : Z := 72.
Definition V3_MIN_HEADER_LENGTH : Z := 104.
Definition MAX_HEADER_LENGTH : Z := 4096.
Definition INCOMPATIBLE_COMPRESSION_TYPE : Z := Z.shiftl 1 3.
Definition MIN_CLUSTER_BITS : Z := 9.
Definition MAX_CLUSTER_BITS : Z := 21.
Definition MAX_L1_ENTRIES : Z := 4 * 1024 * 1024.
Definition MAX_HEADER_EXTENSIONS : nat := 32.
Definition MAX_HEADER_EXTENSION_LENGTH : Z := 64 * 1024.

Inductive Compression : Type := Zlib | Zstd.

Record HeaderFacts : Type := mk_facts {
  version : Z; virtual_size : Z; cluster_size : Z; l1_size : Z; l1_table_offset : Z;
  compression : Compression }.

(** ** Arithmetic of the standard library *)

(** [u64::checked_add]. *)
Definition u64_checked_add (a b : Z) : option Z := if a + b <=? U64_MAX then Some (a + b) else None.
(** [u64] complement. *)
Definition not_u64 (a : Z) : Z := U64_MAX - a.

(** ** Reading *)

Definition be_u32 (bytes : list Z) (at_ : Z) : result qcow2_error Z :=
  let? four := slice bytes at_ (at_ + 4) in Ok (from_be four).
Definition be_u64 (bytes : list Z) (at_ : Z) : result qcow2_error Z :=
  let? eight := slice bytes at_ (at_ + 8) in Ok (from_be eight).

(** Seeks to [offset] and fills a buffer of [len] bytes. *)
Definition read_at (file : list Z) (offset len : Z) : result qcow2_error (list Z) :=
  match get_range file offset (offset + len) with
  | Some bytes => Ok bytes
  | None => Err (Malformed (Unreadable offset))
  end.

(** ** The checks *)

Definition check_l1_table (l1_size l1_table_offset virtual_size cluster_size file_length : Z)
    : result qcow2_error unit :=
  let entries_per_l2 := cluster_size / 8 in
  let clusters := div_ceil virtual_size cluster_size in
  let needed := div_ceil clusters entries_per_l2 in
  if l1_size <? needed then Err (Malformed (L1TooSmall l1_size clusters))
  else if MAX_L1_ENTRIES <? l1_size then Err (Malformed (L1TooLarge l1_size))
  else
    let table_bytes := l1_size * 8 in
    if (l1_table_offset =? 0) || negb (l1_table_offset mod cluster_size =? 0)
    then Err (Malformed (L1Misaligned l1_table_offset))
    else if file_length <? u64_saturating_add l1_table_offset table_bytes
    then Err (Malformed (L1PastEnd l1_table_offset))
    else Ok tt.

Definition check_version3 (file : list Z) : result qcow2_error (Compression * Z) :=
  let? tail := read_at file V2_HEADER_LENGTH (V3_MIN_HEADER_LENGTH - V2_HEADER_LENGTH) in
  let? incompatible := be_u64 tail 0 in
  let unsupported := Z.land incompatible (not_u64 INCOMPATIBLE_COMPRESSION_TYPE) in
  if negb (unsupported =? 0) then Err (UnsupportedFeatures unsupported)
  else
    let? header_length := be_u32 tail 28 in
    if (header_length <? V3_MIN_HEADER_LENGTH) || (MAX_HEADER_LENGTH <? header_length)
    then Err (Malformed (HeaderLength header_length))
    else if negb (header_length mod 8 =? 0)
    then Err (Malformed (HeaderLengthUnaligned header_length))
    else
      let declares_compression :=
        negb (Z.land incompatible INCOMPATIBLE_COMPRESSION_TYPE =? 0) in
      let? compression_type :=
        (if V3_MIN_HEADER_LENGTH <? header_length
         then let? byte := read_at file V3_MIN_HEADER_LENGTH 1 in expect (byte !! 0%nat)
         else Ok 0) in
      let? compression :=
        (if declares_compression then
           if compression_type =? 1 then Ok Zstd else Err (UnsupportedCompression compression_type)
         else
           if compression_type =? 0 then Ok Zlib
           else Err (Malformed (CompressionUndeclared compression_type))) in
      Ok (compression, header_length).

(** One turn per extension; none is left after the last. *)
Fixpoint check_extensions_loop (turns : nat) (file : list Z) (offset file_length : Z)
    : result qcow2_error unit :=
  match turns with
  | O => Err (Malformed TooManyExtensions)
  | S turns =>
      let? record := read_at file offset 8 in
      let? kind := be_u32 record 0 in
      let? length := be_u32 record 4 in
      if kind =? 0 then Ok tt
      else if MAX_HEADER_EXTENSION_LENGTH <? length
      then Err (Malformed (ExtensionTooLarge kind length))
      else
        let padded := div_ceil length 8 * 8 in
        match u64_checked_add offset (8 + padded) with
        | Some next =>
            if next <=? file_length then check_extensions_loop turns file next file_length
            else Err (Malformed (ExtensionPastEnd kind))
        | None => Err (Malformed (ExtensionPastEnd kind))
        end
  end.

Definition check_extensions (file : list Z) (offset file_length : Z) : result qcow2_error unit :=
  check_extensions_loop MAX_HEADER_EXTENSIONS file offset file_length.

Definition inspect (file : list Z) (file_length capacity : Z) : result qcow2_error HeaderFacts :=
  let? header :=
    match get_range file 0 V2_HEADER_LENGTH with
    | Some bytes => Ok bytes
    | None => Err (Malformed ShortHeader)
    end in
  let? magic := slice header 0 4 in
  if negb (bool_decide (magic = MAGIC)) then Err (Malformed BadMagic)
  else
    let? version := be_u32 header 4 in
    if negb (version =? 2) && negb (version =? 3) then Err (UnsupportedVersion version)
    else
      let? backing_offset := be_u64 header 8 in
      let? backing_size := be_u32 header 16 in
      if negb (backing_offset =? 0) || negb (backing_size =? 0) then Err BackingFile
      else
        let? cluster_bits := be_u32 header 20 in
        if (cluster_bits <? MIN_CLUSTER_BITS) || (MAX_CLUSTER_BITS <? cluster_bits)
        then Err (UnsupportedClusterSize cluster_bits)
        else
          let cluster_size := Z.shiftl 1 cluster_bits in
          let? virtual_size := be_u64 header 24 in
          if virtual_size =? 0 then Err (Malformed ZeroBytes)
          else if capacity <? virtual_size then Err (TooLarge virtual_size capacity)
          else
            let? crypt_method := be_u32 header 32 in
            if negb (crypt_method =? 0) then Err (Encrypted crypt_method)
            else
              let? l1_size := be_u32 header 36 in
              let? l1_table_offset := be_u64 header 40 in
              let? _ := check_l1_table l1_size l1_table_offset virtual_size cluster_size file_length in
              let? snapshots := be_u32 header 60 in
              if negb (snapshots =? 0) then Err (Snapshots snapshots)
              else
                let? v3 :=
                  (if version =? 3 then check_version3 file else Ok (Zlib, V2_HEADER_LENGTH)) in
                let '(compression, extensions_offset) := v3 in
                let? _ := check_extensions file extensions_offset file_length in
                Ok (mk_facts version virtual_size cluster_size l1_size l1_table_offset compression).

(** ** What an acceptable header is

    [field file at width] is the big-endian field of [width] bytes at [at]. *)

Definition field (file : list Z) (at_ width : Z) : option Z :=
  from_be <$> get_range file at_ (at_ + width).

(** The extensions from [offset] on: records that stay in the file and claim no
    more than may be allocated, up to the end marker. *)
Inductive extensions (file : list Z) (file_length : Z) : Z → list Z → Prop :=
| extensions_end offset length :
    field file offset 4 = Some 0 →
    field file (offset + 4) 4 = Some length →
    extensions file file_length offset []
| extensions_more offset kind length rest :
    field file offset 4 = Some kind → kind ≠ 0 →
    field file (offset + 4) 4 = Some length →
    length <= MAX_HEADER_EXTENSION_LENGTH →
    offset + 8 + div_ceil length 8 * 8 <= file_length →
    extensions file file_length (offset + 8 + div_ceil length 8 * 8) rest →
    extensions file file_length offset (length :: rest).

Definition compression_bits (c : Compression) : Z := match c with Zlib => 0 | Zstd => 8 end.
Definition compression_byte (c : Compression) : Z := match c with Zlib => 0 | Zstd => 1 end.

(** Where the extensions of an image described by [facts] start, given that what
    comes before them says what [facts] says. *)
Inductive feature_fields (file : list Z) (facts : HeaderFacts) : Z → Prop :=
| version2_fields :
    version facts = 2 → compression facts = Zlib → feature_fields file facts V2_HEADER_LENGTH
| version3_fields header_length :
    version facts = 3 →
    field file 72 8 = Some (compression_bits (compression facts)) →
    field file 100 4 = Some header_length →
    V3_MIN_HEADER_LENGTH <= header_length <= MAX_HEADER_LENGTH →
    header_length mod 8 = 0 →
    (if header_length =? V3_MIN_HEADER_LENGTH then Some 0 else field file 104 1)
      = Some (compression_byte (compression facts)) →
    feature_fields file facts header_length.

Record acceptable (file : list Z) (file_length capacity : Z) (facts : HeaderFacts) : Prop := {
  is_a_qcow2 : get_range file 0 4 = Some MAGIC ∧ V2_HEADER_LENGTH <= zlen file;
  says_version : field file 4 4 = Some (version facts);
  has_no_parent : field file 8 8 = Some 0 ∧ field file 16 4 = Some 0;
  says_cluster : ∃ bits, field file 20 4 = Some bits ∧
    MIN_CLUSTER_BITS <= bits <= MAX_CLUSTER_BITS ∧ cluster_size facts = 2 ^ bits;
  says_size : field file 24 8 = Some (virtual_size facts) ∧ 0 < virtual_size facts <= capacity;
  is_plain : field file 32 4 = Some 0 ∧ field file 60 4 = Some 0;
  says_l1 : field file 36 4 = Some (l1_size facts) ∧ l1_size facts <= MAX_L1_ENTRIES;
  reaches_every_byte : ∀ position, 0 <= position < virtual_size facts →
    position / cluster_size facts / (cluster_size facts / 8) < l1_size facts;
  has_its_l1_table : field file 40 8 = Some (l1_table_offset facts) ∧
    0 < l1_table_offset facts ∧ l1_table_offset facts mod cluster_size facts = 0 ∧
    l1_table_offset facts + l1_size facts * 8 <= file_length;
  extensions_stay : ∃ offset lengths, feature_fields file facts offset ∧
    extensions file file_length offset lengths ∧ (length lengths < MAX_HEADER_EXTENSIONS)%nat }.

(** ** Fields *)

Lemma get_range_of_range {A} (l r : list A) a b c d :
  get_range l a b = Some r → 0 <= c → c <= d → d <= b - a →
  get_range r c d = get_range l (a + c) (a + d).
Proof.
  intros Hr Hc Hd Hb. pose proof (get_range_length _ _ _ _ Hr) as Hlen.
  apply get_range_inv in Hr as (? & ? & ? & ->).
  unfold get_range. rewrite !bool_true3 by lia.
  rewrite skipn_firstn_comm, firstn_firstn, drop_drop. do 2 f_equal; [lia|f_equal; lia].
Qed.

(** A field of a part of the file that was read whole is that field of the file. *)
Lemma field_of_part file part a b at_ width :
  get_range file a b = Some part → 0 <= at_ → 0 <= width → at_ + width <= b - a →
  expect (E:=qcow2_error) (from_be <$> get_range part at_ (at_ + width))
  = expect (field file (a + at_) width).
Proof.
  intros Hpart ???. unfold field. rewrite (get_range_of_range _ _ _ _ _ _ Hpart) by lia.
  do 2 f_equal. f_equal. lia.
Qed.

Lemma be_u32_part file part a b at_ :
  get_range file a b = Some part → 0 <= at_ → at_ + 4 <= b - a →
  be_u32 part at_ = expect (field file (a + at_) 4).
Proof.
  intros. erewrite <- field_of_part by (done || lia). unfold be_u32, slice.
  by destruct (get_range part _ _).
Qed.

Lemma be_u64_part file part a b at_ :
  get_range file a b = Some part → 0 <= at_ → at_ + 8 <= b - a →
  be_u64 part at_ = expect (field file (a + at_) 8).
Proof.
  intros. erewrite <- field_of_part by (done || lia). unfold be_u64, slice.
  by destruct (get_range part _ _).
Qed.

Lemma field_bound file at_ width v :
  Forall is_u8 file → field file at_ width = Some v → 0 <= v < 256 ^ width.
Proof.
  unfold field. intros Hf. destruct (get_range _ _ _) as [r|] eqn:E; [|done]. intros [= <-].
  pose proof (get_range_length _ _ _ _ E) as Hl. replace (at_ + width - at_) with width in Hl by lia.
  rewrite <- Hl. apply get_range_inv in E as (? & ? & ? & ->).
  unfold from_be. erewrite <- length_rev. apply from_le_bound. apply Forall_rev. by apply Forall_take, Forall_drop.
Qed.

Lemma field_some file a b part at_ width :
  get_range file a b = Some part → a <= at_ → 0 <= width → at_ + width <= b →
  ∃ v, field file at_ width = Some v.
Proof.
  intros (? & ? & ? & _)%get_range_inv ???. unfold field, get_range.
  rewrite bool_true3 by lia. by eexists.
Qed.

Lemma field_in_file file at_ width v : field file at_ width = Some v → at_ + width <= zlen file.
Proof.
  unfold field. destruct (get_range _ _ _) eqn:E; [|done]. intros _.
  by apply get_range_inv in E as (? & ? & ? & _).
Qed.

(** ** The size of the L1 table *)

Lemma div_ceil_pred a b : 0 < b → div_ceil a b = (a - 1) / b + 1.
Proof.
  intros. unfold div_ceil. replace (a + b - 1) with (a - 1 + 1 * b) by lia.
  by rewrite Z.div_add by lia.
Qed.

Lemma covers_iff size cluster entries l1 :
  0 < size → 0 < cluster → 0 < entries →
  div_ceil (div_ceil size cluster) entries <= l1
  ↔ ∀ position, 0 <= position < size → position / cluster / entries < l1.
Proof.
  intros. rewrite !div_ceil_pred, Z.add_simpl_r by done. split.
  - intros Hl position ?.
    enough (position / cluster / entries <= (size - 1) / cluster / entries) by lia.
    do 2 (apply Z.div_le_mono; [lia|]). lia.
  - intros Hl. specialize (Hl (size - 1)). lia.
Qed.

(** ** Feature bits *)

Lemma only_compression_bit a :
  0 <= a < 2 ^ 64 → Z.land a (not_u64 INCOMPATIBLE_COMPRESSION_TYPE) = 0 → a = 0 ∨ a = 8.
Proof.
  intros Ha H. enough (a = Z.land a 8) as E.
  { destruct (Z.testbit a 3) eqn:B; [right|left]; rewrite E; apply Z.bits_inj'; intros n Hn;
      rewrite Z.land_spec, ?Z.bits_0; change 8 with (2 ^ 3); rewrite Z.pow2_bits_eqb by lia;
      destruct (Z.eqb_spec 3 n) as [<-|]; rewrite ?B, ?andb_false_r, ?andb_true_r; done. }
  apply Z.bits_inj'. intros n Hn. rewrite Z.land_spec. change 8 with (2 ^ 3) at 1.
  rewrite Z.pow2_bits_eqb by lia. destruct (Z.eqb_spec 3 n); [by rewrite andb_true_r|].
  rewrite andb_false_r. destruct (decide (n < 64)) as [Hs|Hs].
  - apply (f_equal (λ z, Z.testbit z n)) in H.
    change (not_u64 INCOMPATIBLE_COMPRESSION_TYPE) with (Z.ldiff (Z.ones 64) (2 ^ 3)) in H.
    rewrite Z.land_spec, Z.ldiff_spec, Z.ones_spec_low, Z.pow2_bits_false, Z.bits_0 in H by lia.
    by rewrite andb_true_r in H.
  - apply (Z.bits_above_log2 a); [lia|]. destruct (decide (a = 0)) as [->|]; [cbn; lia|].
    enough (Z.log2 a < 64) by lia. apply Z.log2_lt_pow2; lia.
Qed.

(** ** Each check is its clause *)

Section vetted.
Context (file : list Z) (file_length : Z).
Hypothesis file_bytes : Forall is_u8 file.
Hypothesis file_length_u64 : file_length < U64_MAX.

Lemma read_at_some offset len part : read_at file offset len = Ok part ↔
  get_range file offset (offset + len) = Some part.
Proof. unfold read_at. destruct (get_range _ _ _); split; congruence. Qed.

Lemma read_at_field offset len at_ width v :
  field file at_ width = Some v → 0 <= offset <= at_ + width → at_ + width = offset + len →
  0 <= len → ∃ part, read_at file offset len = Ok part.
Proof.
  intros Hv%field_in_file ???. unfold read_at, get_range. rewrite bool_true3 by lia. by eexists.
Qed.

Lemma check_l1_table_iff l1_size offset size cluster :
  0 < size → 8 <= cluster →
  check_l1_table l1_size offset size cluster file_length = Ok tt ↔
  (∀ position, 0 <= position < size → position / cluster / (cluster / 8) < l1_size) ∧
  l1_size <= MAX_L1_ENTRIES ∧ offset ≠ 0 ∧ offset mod cluster = 0 ∧
  offset + l1_size * 8 <= file_length.
Proof.
  intros Hs Hc. rewrite <- covers_iff by (done || lia || (apply Z.div_str_pos; lia)).
  unfold check_l1_table, u64_saturating_add. case_ifs;
    try (split; [discriminate|]; lia); split; try done; lia.
Qed.

Lemma check_extensions_loop_iff turns offset :
  0 <= offset →
  check_extensions_loop turns file offset file_length = Ok tt ↔
  ∃ lengths, extensions file file_length offset lengths ∧ (length lengths < turns)%nat.
Proof.
  revert offset. induction turns as [|turns IH]; intros offset Ho; cbn [check_extensions_loop].
  { split; [discriminate|]. intros (? & _ & ?). lia. }
  destruct (read_at file offset 8) as [part| |] eqn:Hpart; cbn [rbind].
  2,3: split; [discriminate|]; intros (? & He & _);
    assert (∃ v, field file (offset + 4) 4 = Some v) as [v Hv] by (inversion He; eauto);
    destruct (read_at_field offset 8 _ _ _ Hv); [lia..|congruence].
  apply read_at_some in Hpart.
  destruct (field_some _ _ _ _ offset 4 Hpart) as [kind Hk]; [lia..|].
  destruct (field_some _ _ _ _ (offset + 4) 4 Hpart) as [len Hl]; [lia..|].
  rewrite !(be_u32_part _ _ _ _ _ Hpart) by lia. rewrite Z.add_0_r, Hk, Hl. cbn [expect rbind].
  pose proof (field_bound _ _ _ _ file_bytes Hl) as Hlen.
  destruct (Z.eqb_spec kind 0) as [->|Hnz].
  { split; [|done]. intros _. exists []. cbn. split; [by econstructor|lia]. }
  assert (Hkind : ∀ ls, extensions file file_length offset ls ↔
    ∃ rest, ls = len :: rest ∧ len <= MAX_HEADER_EXTENSION_LENGTH ∧
      offset + 8 + div_ceil len 8 * 8 <= file_length ∧
      extensions file file_length (offset + 8 + div_ceil len 8 * 8) rest).
  { intros ls. split.
    - inversion 1; simplify_eq; eauto 8.
    - intros (rest & -> & ? & ? & ?). by eapply extensions_more. }
  assert (0 <= div_ceil len 8) by (apply Z.div_pos; lia).
  unfold u64_checked_add. rewrite Z.add_assoc.
  destruct (Z.ltb_spec MAX_HEADER_EXTENSION_LENGTH len).
  { split; [discriminate|]. intros (ls & (? & _ & ? & _)%Hkind & _). lia. }
  destruct (Z.leb_spec (offset + 8 + div_ceil len 8 * 8) U64_MAX);
    [destruct (Z.leb_spec (offset + 8 + div_ceil len 8 * 8) file_length)|].
  2,3: split; [discriminate|]; intros (ls & (? & _ & _ & ? & _)%Hkind & _); lia.
  rewrite IH by lia. split.
  - intros (ls & ? & ?). exists (len :: ls). rewrite Hkind. cbn. split; [eauto 8|lia].
  - intros (ls & (rest & -> & _ & _ & ?)%Hkind & ?). cbn in *. exists rest. split; [done|lia].
Qed.

(** The one byte after the fields of every version 3 image. *)
Lemma read_byte_field at_ b :
  (let? byte := read_at file at_ 1 in expect (byte !! 0%nat)) = Ok b ↔ field file at_ 1 = Some b.
Proof.
  unfold read_at, field. destruct (get_range file at_ (at_ + 1)) as [r|] eqn:E; cbn; [|done].
  apply get_range_length in E. destruct r as [|b' [|]]; cbn in E; try lia.
  cbn. unfold from_be. cbn. rewrite Z.add_0_r. split; congruence.
Qed.

Lemma compression_choice (incompatible byte : Z) c :
  0 <= incompatible < 2 ^ 64 →
  Z.land incompatible (not_u64 INCOMPATIBLE_COMPRESSION_TYPE) = 0 →
  (if negb (Z.land incompatible INCOMPATIBLE_COMPRESSION_TYPE =? 0)
   then if byte =? 1 then Ok Zstd else Err (UnsupportedCompression byte)
   else if byte =? 0 then Ok Zlib else Err (Malformed (CompressionUndeclared byte))) = Ok c
  ↔ incompatible = compression_bits c ∧ byte = compression_byte c.
Proof.
  intros Hi Hu. destruct (only_compression_bit _ Hi Hu) as [-> | ->]; cbn;
    case_ifs; destruct c; cbn; split; try done; intros; simplify_eq; try lia; intuition lia.
Qed.

Lemma check_version3_iff c offset :
  check_version3 file = Ok (c, offset) ↔
  field file 72 8 = Some (compression_bits c) ∧ field file 100 4 = Some offset ∧
  V3_MIN_HEADER_LENGTH <= offset <= MAX_HEADER_LENGTH ∧ offset mod 8 = 0 ∧
  (if offset =? V3_MIN_HEADER_LENGTH then Some 0 else field file 104 1) = Some (compression_byte c).
Proof.
  unfold check_version3. destruct (read_at file _ _) as [tail| |] eqn:Ht; cbn [rbind].
  2,3: split; [discriminate|]; intros (_ & Hf & _);
    destruct (read_at_field V2_HEADER_LENGTH (V3_MIN_HEADER_LENGTH - V2_HEADER_LENGTH) _ _ _ Hf);
    [done..|congruence].
  apply read_at_some in Ht.
  rewrite (be_u64_part _ _ _ _ _ Ht), (be_u32_part _ _ _ _ _ Ht) by done.
  change (V2_HEADER_LENGTH + 0) with 72. change (V2_HEADER_LENGTH + 28) with 100.
  destruct (field_some _ _ _ _ 72 8 Ht) as [bits Hb]; [done..|].
  destruct (field_some _ _ _ _ 100 4 Ht) as [len Hl]; [done..|].
  rewrite Hb, Hl. cbn [expect rbind]. pose proof (field_bound _ _ _ _ file_bytes Hb) as Hbits.
  destruct (Z.eqb_spec (Z.land bits (not_u64 INCOMPATIBLE_COMPRESSION_TYPE)) 0) as [Hu|Hu]; cbn [negb].
  2: { split; [done|]. intros ([= ->] & _). by destruct c. }
  unfold V3_MIN_HEADER_LENGTH, MAX_HEADER_LENGTH in *.
  case_if; [split; [done|]; intros (_ & [= ->] & ? & _); bool_to_prop; lia|].
  case_if; [split; [done|]; intros (_ & [= ->] & _ & ? & _); bool_to_prop; lia|].
  bool_to_prop. split.
  - intros Hrun. rbind_inv. apply compression_choice in E1 as [-> ->]; [|done..].
    repeat split; try lia. destruct (Z.eqb_spec offset 104), (Z.ltb_spec 104 offset); try lia; [congruence|].
    by apply read_byte_field.
  - intros ([= ->] & [= ->] & ? & ? & Hc).
    assert ((if 104 <? offset then let? byte := read_at file 104 1 in expect (byte !! 0%nat) else Ok 0)
      = Ok (E:=qcow2_error) (compression_byte c)) as ->.
    { destruct (Z.eqb_spec offset 104), (Z.ltb_spec 104 offset); try lia; [congruence|].
      by apply read_byte_field. }
    cbn [rbind]. rewrite (proj2 (compression_choice (compression_bits c) (compression_byte c) c Hbits Hu)) by done.
    done.
Qed.

End vetted.

(** ** The whole header *)

Lemma magic_of_part (file header : list Z) :
  get_range file 0 V2_HEADER_LENGTH = Some header →
  slice (E:=qcow2_error) header 0 4 = expect (get_range file 0 4).
Proof. intros H. unfold slice. by rewrite (get_range_of_range _ _ _ _ _ _ H) by done. Qed.

(** [inspect] with every field it reads named. *)
Lemma inspect_fields file file_length capacity header :
  get_range file 0 V2_HEADER_LENGTH = Some header →
  ∃ magic v bo bs cb vs cm l1 lo sn,
    get_range file 0 4 = Some magic ∧ field file 4 4 = Some v ∧ field file 8 8 = Some bo ∧
    field file 16 4 = Some bs ∧ field file 20 4 = Some cb ∧ field file 24 8 = Some vs ∧
    field file 32 4 = Some cm ∧ field file 36 4 = Some l1 ∧ field file 40 8 = Some lo ∧
    field file 60 4 = Some sn ∧
    inspect file file_length capacity =
      if negb (bool_decide (magic = MAGIC)) then Err (Malformed BadMagic)
      else if negb (v =? 2) && negb (v =? 3) then Err (UnsupportedVersion v)
      else if negb (bo =? 0) || negb (bs =? 0) then Err BackingFile
      else if (cb <? MIN_CLUSTER_BITS) || (MAX_CLUSTER_BITS <? cb) then Err (UnsupportedClusterSize cb)
      else if vs =? 0 then Err (Malformed ZeroBytes)
      else if capacity <? vs then Err (TooLarge vs capacity)
      else if negb (cm =? 0) then Err (Encrypted cm)
      else
        let? _ := check_l1_table l1 lo vs (Z.shiftl 1 cb) file_length in
        if negb (sn =? 0) then Err (Snapshots sn)
        else
          let? v3 := (if v =? 3 then check_version3 file else Ok (Zlib, V2_HEADER_LENGTH)) in
          let '(c, offset) := v3 in
          let? _ := check_extensions file offset file_length in
          Ok (mk_facts v vs (Z.shiftl 1 cb) l1 lo c).
Proof.
  intros Hh. unfold inspect. rewrite Hh. cbn [rbind].
  rewrite (magic_of_part _ _ Hh), !(be_u32_part _ _ _ _ _ Hh), !(be_u64_part _ _ _ _ _ Hh) by done.
  rewrite !Z.add_0_l.
  destruct (get_range file 0 4) as [magic|] eqn:Hm.
  2: { apply get_range_inv in Hh as (_ & _ & Hlen & _). unfold get_range, V2_HEADER_LENGTH in *.
       rewrite bool_true3 in Hm by lia. discriminate Hm. }
  assert (Hf : ∀ at_ width, 0 <= at_ → 0 <= width → at_ + width <= 72 →
    ∃ v, field file at_ width = Some v)
    by (intros; apply (field_some _ _ _ _ _ _ Hh); unfold V2_HEADER_LENGTH; lia).
  destruct (Hf 4 4) as [v Hv]; [lia..|].
  destruct (Hf 8 8) as [bo Hbo]; [lia..|].
  destruct (Hf 16 4) as [bs Hbs]; [lia..|].
  destruct (Hf 20 4) as [cb Hcb]; [lia..|].
  destruct (Hf 24 8) as [vs Hvs]; [lia..|].
  destruct (Hf 32 4) as [cm Hcm]; [lia..|].
  destruct (Hf 36 4) as [l1 Hl1]; [lia..|].
  destruct (Hf 40 8) as [lo Hlo]; [lia..|].
  destruct (Hf 60 4) as [sn Hsn]; [lia..|].
  exists magic, v, bo, bs, cb, vs, cm, l1, lo, sn.
  rewrite Hv, Hbo, Hbs, Hcb, Hvs, Hcm, Hl1, Hlo, Hsn. by cbn [expect rbind].
Qed.

Lemma read_at_no_panic file offset len : no_panic (read_at file offset len).
Proof. unfold read_at. by destruct (get_range _ _ _). Qed.

Lemma check_extensions_loop_no_panic turns file offset file_length :
  no_panic (check_extensions_loop turns file offset file_length).
Proof.
  revert offset. induction turns as [|turns IH]; intros offset; cbn [check_extensions_loop]; [done|].
  apply no_panic_bind; [apply read_at_no_panic|]. intros part Hpart%read_at_some.
  destruct (field_some _ _ _ _ offset 4 Hpart) as [kind Hk]; [lia..|].
  destruct (field_some _ _ _ _ (offset + 4) 4 Hpart) as [len Hl]; [lia..|].
  rewrite !(be_u32_part _ _ _ _ _ Hpart) by lia. rewrite Z.add_0_r, Hk, Hl. cbn [expect rbind].
  repeat case_match; auto with vm.
Qed.

Lemma check_version3_no_panic file : no_panic (check_version3 file).
Proof.
  unfold check_version3. apply no_panic_bind; [apply read_at_no_panic|]. intros tail Ht%read_at_some.
  rewrite (be_u64_part _ _ _ _ _ Ht), (be_u32_part _ _ _ _ _ Ht) by done.
  destruct (field_some _ _ _ _ (V2_HEADER_LENGTH + 0) 8 Ht) as [bits ->]; [done..|].
  destruct (field_some _ _ _ _ (V2_HEADER_LENGTH + 28) 4 Ht) as [len ->]; [done..|]. cbn [expect rbind].
  do 3 (case_if; [done|]). apply no_panic_bind.
  { case_if; [|done]. apply no_panic_bind; [apply read_at_no_panic|].
    intros byte Hb%read_at_some%get_range_length. by destruct byte. }
  intros byte _. apply no_panic_bind; [by repeat case_if|by intros].
Qed.

Lemma inspect_no_panic file file_length capacity : no_panic (inspect file file_length capacity).
Proof.
  destruct (get_range file 0 V2_HEADER_LENGTH) as [header|] eqn:Hh.
  2: { unfold inspect. by rewrite Hh. }
  destruct (inspect_fields file file_length capacity _ Hh)
    as (magic & v & bo & bs & cb & vs & cm & l1 & lo & sn & _ & _ & _ & _ & _ & _ & _ & _ & _ & _ & ->).
  do 7 (case_if; [done|]). apply no_panic_bind; [unfold check_l1_table; by repeat case_if|].
  intros _ _. case_if; [done|]. apply no_panic_bind.
  { case_if; [apply check_version3_no_panic|done]. }
  intros [c offset] _. apply no_panic_bind; [apply check_extensions_loop_no_panic|by intros].
Qed.

(** ** Acceptance *)

Lemma feature_fields_iff file facts offset :
  Forall is_u8 file → version facts = 2 ∨ version facts = 3 →
  (if version facts =? 3 then check_version3 file else Ok (Zlib, V2_HEADER_LENGTH))
    = Ok (compression facts, offset)
  ↔ feature_fields file facts offset.
Proof.
  intros Hu8 [E|E]; rewrite E; cbn.
  - split; [intros [= Hc <-]; by constructor|]. inversion 1; congruence.
  - rewrite check_version3_iff by done. split.
    + intros (? & ? & ? & ? & ?). by apply version3_fields.
    + inversion 1; [congruence|eauto 8].
Qed.

Lemma accepted_is_acceptable file file_length capacity facts :
  Forall is_u8 file → file_length < U64_MAX →
  inspect file file_length capacity = Ok facts → acceptable file file_length capacity facts.
Proof.
  intros Hu8 Hlen. destruct (get_range file 0 V2_HEADER_LENGTH) as [header|] eqn:Hh.
  2: { unfold inspect. by rewrite Hh. }
  destruct (inspect_fields file file_length capacity _ Hh)
    as (magic & v & bo & bs & cb & vs & cm & l1 & lo & sn &
        Hm & Hv & Hbo & Hbs & Hcb & Hvs & Hcm & Hl1 & Hlo & Hsn & ->).
  do 7 (case_if; [done|]). intros Hrun. rbind_step Hrun as [] , Htable.
  case_if; [done|]. rbind_step Hrun as [c offset], Hfeatures. rbind_step Hrun as [], Hext.
  injection Hrun as <-.
  assert (Hv23 : v = 2 ∨ v = 3) by (clear -E0; bool_to_prop; lia).
  apply (feature_fields_iff file (mk_facts v vs (Z.shiftl 1 cb) l1 lo c)) in Hfeatures; [|done..].
  clear E0. bool_to_prop. apply bool_decide_eq_true in E as ->. rewrite Z.shiftl_1_l in *. subst.
  pose proof (field_bound _ _ _ _ Hu8 Hvs). pose proof (field_bound _ _ _ _ Hu8 Hlo).
  assert (2 ^ 9 <= 2 ^ cb) as Hc by (apply Z.pow_le_mono_r; unfold MIN_CLUSTER_BITS in *; lia).
  apply check_l1_table_iff in Htable as (? & ? & ? & ? & ?); [|lia..].
  apply check_extensions_loop_iff in Hext as (lengths & ? & ?); [|done..|by destruct Hfeatures; unfold V2_HEADER_LENGTH, V3_MIN_HEADER_LENGTH in *; lia].
  apply get_range_inv in Hh as (_ & _ & ? & _).
  split; cbn [version virtual_size cluster_size l1_size l1_table_offset compression]; eauto 8 with lia.
Qed.

Lemma acceptable_is_accepted file file_length capacity facts :
  Forall is_u8 file → file_length < U64_MAX →
  acceptable file file_length capacity facts → inspect file file_length capacity = Ok facts.
Proof.
  intros Hu8 Hlen [[Hm Hlong] Hv [Hbo Hbs] (bits & Hcb & Hbits & Hcs) [Hvs ?] [Hcm Hsn] [Hl1 ?]
    Hreach (Hlo & ? & ? & ?) (offset & lengths & Hfeat & Hext & ?)].
  assert (∃ header, get_range file 0 V2_HEADER_LENGTH = Some header) as [header Hh].
  { unfold get_range, V2_HEADER_LENGTH in *. rewrite bool_true3 by lia. by eexists. }
  destruct (inspect_fields file file_length capacity _ Hh)
    as (magic & v & bo & bs & cb & vs & cm & l1 & lo & sn &
        Hm' & Hv' & Hbo' & Hbs' & Hcb' & Hvs' & Hcm' & Hl1' & Hlo' & Hsn' & ->).
  simplify_eq. rewrite bool_decide_eq_true_2 by done. cbn [negb].
  assert (Hv23 : version facts = 2 ∨ version facts = 3) by (destruct Hfeat; auto).
  assert (2 ^ 9 <= 2 ^ bits) as Hc by (apply Z.pow_le_mono_r; unfold MIN_CLUSTER_BITS in *; lia).
  rewrite Z.shiftl_1_l, <- Hcs in *.
  assert (check_l1_table (l1_size facts) (l1_table_offset facts) (virtual_size facts)
    (cluster_size facts) file_length = Ok tt) as ->.
  { apply check_l1_table_iff; [lia..|]. repeat split; try done; lia. }
  apply (feature_fields_iff _ _ _ Hu8 Hv23) in Hfeat as Hrun. rewrite Hrun.
  assert (check_extensions file offset file_length = Ok tt) as Hx.
  { apply check_extensions_loop_iff; [done..| |by exists lengths].
    destruct Hfeat; unfold V2_HEADER_LENGTH, V3_MIN_HEADER_LENGTH in *; lia. }
  cbn [rbind]. rewrite Hx. clear Hrun Hx.
  repeat case_if; bool_to_prop; try lia. all: clear; by destruct facts.
Qed.

(** C37: An image's header is accepted exactly when it is acceptable -- a qcow2 of
    version 2 or 3 without parent, encryption or snapshots, with a cluster size
    of the format, a disk that fits its destination, an L1 table that lies in the
    file and has an entry for every byte of the disk, no incompatible feature but
    the compression the facts name, and extensions that end within the file --
    and vetting it never panics, whatever the bytes. *)
Theorem accepted_exactly_when_acceptable file file_length capacity facts :
  Forall is_u8 file → file_length < U64_MAX →
  no_panic (inspect file file_length capacity) ∧
  (inspect file file_length capacity = Ok facts ↔ acceptable file file_length capacity facts).
Proof.
  intros. split; [apply inspect_no_panic|split].
  - by apply accepted_is_acceptable.
  - by apply acceptable_is_accepted.
Qed.

(** A version 3 image of eight 512-byte clusters with one extension. *)
Definition small_image : list Z :=
  MAGIC ++ to_be 4 3 ++ to_be 8 0 ++ to_be 4 0 ++ to_be 4 9 ++ to_be 8 4096 ++ to_be 4 0
  ++ to_be 4 1 ++ to_be 8 512 ++ to_be 8 1024 ++ to_be 4 1 ++ to_be 4 0 ++ to_be 8 0
  ++ to_be 8 8 ++ to_be 8 0 ++ to_be 8 0 ++ to_be 4 4 ++ to_be 4 112 ++ [1] ++ repeat 0 7
  ++ to_be 4 3799591626 ++ to_be 4 5 ++ [113; 99; 111; 119; 50] ++ repeat 0 395.

Lemma small_image_u8 : Forall is_u8 small_image.
Proof.
  apply (List.Forall_forall is_u8). intros b Hb.
  assert (forallb (λ b, (0 <=? b) && (b <? 256)) small_image = true) as Hall by (vm_compute; reflexivity).
  rewrite forallb_forall in Hall. specialize (Hall b Hb). bool_to_prop. done.
Qed.

Lemma accepted_exactly_when_acceptable_witness :
  acceptable small_image 1536 4096 (mk_facts 3 4096 512 1 512 Zstd).
Proof.
  apply (accepted_exactly_when_acceptable small_image 1536 4096);
    [apply small_image_u8|done|vm_compute; reflexivity].
Defined.
