(* ===== verification/Qcow2Image.v ===== *)
(** * The disk inside a qcow2 image

    [image/src/qcow2.rs]: mapping guest offsets onto the image's tables, with the
    last cluster and the last L2 table kept.  The [qcow] crate, which reads tables
    and clusters off the file, is the class [Qcow]; what it promises is
    [QcowLaws].  The file handle is the crate's [Reader] and any read of it may
    fail. *)

From stdpp Require Import base option list.
From S2P Require Import Prelude Stateful Qcow2Header.

(** ** The parser behind the reader *)

(** What an L2 entry says, as far as it is looked at here. *)
Inductive ClusterDescriptor : Type :=
| Standard (all_zeroes : bool) (host_cluster_offset : Z)
| Compressed (host_cluster_offset : Z).

(** What the parser makes of the header, the L1 table as the offsets in it. *)
Record Qcow2 : Type := mk_qcow2 {
  parsed_version : Z; parsed_size : Z; parsed_cluster_size : Z; parsed_l1_size : Z;
  parsed_l1_table_offset : Z; has_backing_file : bool; parsed_snapshots : Z;
  parsed_l1_table : list Z }.

Inductive DynamicQcow : Type := IsQcow1 (version : Z) | IsQcow2 (qcow : Qcow2).

(** [qcow::load] and [L1Entry::read_l2] give nothing when they fail;
    [L2Entry::read_contents] may have written into the buffer by then. *)
Class Qcow (Reader L2Entry : Type) := {
  qcow_load : Reader → Reader * option DynamicQcow;
  cluster_descriptor : L2Entry → ClusterDescriptor;
  read_l2 : Reader → Z → Z → Reader * option (list L2Entry);
  read_contents : Reader → L2Entry → list Z → Compression → Reader * list Z * bool }.

(** A read that succeeds reads what the file holds: the table at an offset, one
    cluster of entries long, and the contents of a cluster. *)
Class QcowLaws {Reader L2Entry} (Q : Qcow Reader L2Entry)
    (table_at : Z → Z → list L2Entry) (contents : L2Entry → nat → Compression → list Z) : Prop := {
  read_l2_reads r offset bits r' table :
    read_l2 r offset bits = (r', Some table) → table = table_at offset bits;
  length_table_at offset bits : zlen (table_at offset bits) = 2 ^ bits / 8;
  read_contents_keeps r entry buffer c r' buffer' ok :
    read_contents r entry buffer c = (r', buffer', ok) → length buffer' = length buffer;
  read_contents_reads r entry n c r' buffer :
    read_contents r entry (replicate n 0) c = (r', buffer, true) → buffer = contents entry n c;
  length_contents entry n c : length (contents entry n c) = n }.

(** [u64::trailing_zeros]: the exponent of the lowest set bit. *)
Definition trailing_zeros (a : Z) : Z := if a =? 0 then 64 else Z.log2 (Z.land a (- a)).

(** [SeekFrom]. *)
Inductive SeekFrom : Type := Start (position : Z) | Current (offset : Z) | End (offset : Z).

(** [u64::checked_add_signed]. *)
Definition checked_add_signed (a offset : Z) : option Z :=
  if (0 <=? a + offset) && (a + offset <=? U64_MAX) then Some (a + offset) else None.

Section image.
Context {Reader L2Entry : Type} `{!Qcow Reader L2Entry}.

(** ** The image *)

Record Qcow2Image : Type := mk_image {
  file : Reader;
  file_length : Z;
  l1_table : list Z;
  image_virtual_size : Z;
  image_cluster_size : Z;
  entries_per_l2 : Z;
  image_compression : Compression;
  position : Z;
  cluster : list Z;
  cluster_index : option Z;
  l2_table : list L2Entry;
  l1_index : option Z }.

Definition with_file (file' : Reader) (i : Qcow2Image) : Qcow2Image :=
  mk_image file' (file_length i) (l1_table i) (image_virtual_size i) (image_cluster_size i)
    (entries_per_l2 i) (image_compression i) (position i) (cluster i) (cluster_index i)
    (l2_table i) (l1_index i).
Definition with_position (p : Z) (i : Qcow2Image) : Qcow2Image :=
  mk_image (file i) (file_length i) (l1_table i) (image_virtual_size i) (image_cluster_size i)
    (entries_per_l2 i) (image_compression i) p (cluster i) (cluster_index i)
    (l2_table i) (l1_index i).
Definition with_cluster (bytes : list Z) (index : option Z) (i : Qcow2Image) : Qcow2Image :=
  mk_image (file i) (file_length i) (l1_table i) (image_virtual_size i) (image_cluster_size i)
    (entries_per_l2 i) (image_compression i) (position i) bytes index
    (l2_table i) (l1_index i).
Definition with_l2_table (table : list L2Entry) (index : Z) (i : Qcow2Image) : Qcow2Image :=
  mk_image (file i) (file_length i) (l1_table i) (image_virtual_size i) (image_cluster_size i)
    (entries_per_l2 i) (image_compression i) (position i) (cluster i) (cluster_index i)
    table (Some index).

Abbreviation Read A := (action Qcow2Image qcow2_error A).

(** ** Opening *)

Definition check_agreement (qcow : Qcow2) (facts : HeaderFacts) : result qcow2_error unit :=
  let parsed := (parsed_version qcow, parsed_size qcow, parsed_cluster_size qcow,
    parsed_l1_size qcow, parsed_l1_table_offset qcow, has_backing_file qcow, parsed_snapshots qcow) in
  let checked := (version facts, virtual_size facts, cluster_size facts, l1_size facts,
    l1_table_offset facts, false, 0) in
  if negb (bool_decide (parsed = checked)) then Err (Malformed Disagreement)
  else if negb (zlen (parsed_l1_table qcow) =? l1_size facts) then Err (Malformed L1Short)
  else Ok tt.

Definition load (reader : Reader) : Reader * result qcow2_error Qcow2 :=
  match qcow_load reader with
  | (reader, Some (IsQcow2 qcow)) => (reader, Ok qcow)
  | (reader, Some (IsQcow1 version)) => (reader, Err (UnsupportedVersion version))
  | (reader, None) => (reader, Err (Malformed Unparsed))
  end.

(** [bytes] is what is in the file that [reader] reads. *)
Definition open (bytes : list Z) (reader : Reader) (length capacity : Z) : result qcow2_error Qcow2Image :=
  let? facts :=
    map_err (λ e, match e with Malformed BadMagic => NotQcow2 | other => other end)
      (inspect bytes length capacity) in
  let '(reader, loaded) := load reader in
  let? qcow := loaded in
  let? _ := check_agreement qcow facts in
  Ok (mk_image reader length (parsed_l1_table qcow) (virtual_size facts) (cluster_size facts)
        (cluster_size facts / 8) (compression facts) 0
        (replicate (Z.to_nat (cluster_size facts)) 0) None [] None).

(** ** Looking a cluster up *)

Definition check_span (offset length : Z) : Read unit := λ i,
  if file_length i <? u64_saturating_add offset length
  then (i, Err (Malformed (SpanPastEnd offset)))
  else (i, Ok tt).

Definition load_l2_table (index l2_offset : Z) : Read unit :=
  let^ held := gets l1_index in
  if bool_decide (held = Some index) then pure_of (Ok tt)
  else
    let^ size := gets image_cluster_size in
    let^ _ := check_span l2_offset size in
    if negb (l2_offset mod size =? 0) then pure_of (Err (Malformed (L2Misaligned l2_offset)))
    else
      let^ table := λ i,
        let '(reader, table) := read_l2 (file i) l2_offset (trailing_zeros (image_cluster_size i)) in
        (with_file reader i, ok_or table (Malformed (L2Unreadable l2_offset))) in
      modify (with_l2_table table index).

Definition read_cluster_contents (index : Z) (entry : L2Entry) : Read unit :=
  let read : Read unit := λ i,
    let '(reader, bytes, ok) := read_contents (file i) entry (cluster i) (image_compression i) in
    (with_file reader (with_cluster bytes (cluster_index i) i),
     if (ok : bool) then Ok tt else Err (Malformed (ContentsUnreadable index))) in
  match cluster_descriptor entry with
  | Standard all_zeroes host_cluster_offset =>
      if all_zeroes || (host_cluster_offset =? 0) then pure_of (Ok tt)
      else
        let^ size := gets image_cluster_size in
        let^ _ := check_span host_cluster_offset size in
        read
  | Compressed host_cluster_offset =>
      let^ _ := check_span host_cluster_offset 1 in
      read
  end.

Definition load_cluster (index : Z) : Read unit :=
  let^ held := gets cluster_index in
  if bool_decide (held = Some index) then pure_of (Ok tt)
  else
    let^ entries := gets entries_per_l2 in
    let l1_index := index / entries in
    let l2_index := index mod entries in
    let^ table := gets l1_table in
    match table !! Z.to_nat l1_index with
    | None => pure_of (Err (Malformed (NoL1Entry l1_index)))
    | Some l2_offset =>
        let^ _ := modify (λ i, with_cluster (replicate (length (cluster i)) 0) None i) in
        if l2_offset =? 0 then modify (λ i, with_cluster (cluster i) (Some index) i)
        else
          let^ _ := load_l2_table l1_index l2_offset in
          let^ entries := gets l2_table in
          let^ entry := pure_of (Prelude.index entries l2_index) in
          let^ _ := read_cluster_contents index entry in
          modify (λ i, with_cluster (cluster i) (Some index) i)
    end.

(** ** The stream *)

(** [Read::read]: the buffer afterwards and how much of it was filled. *)
Definition read (buffer : list Z) : Read (list Z * Z) := λ i,
  if (image_virtual_size i <=? position i) || (zlen buffer =? 0) then (i, Ok (buffer, 0))
  else
    let index := position i / image_cluster_size i in
    let offset_in_cluster := position i mod image_cluster_size i in
    let wanted := Z.min (Z.min (zlen buffer) (zlen (cluster i) - offset_in_cluster))
                        (image_virtual_size i - position i) in
    (let^ _ := load_cluster index in
     let^ bytes := gets cluster in
     let^ served := pure_of (slice bytes offset_in_cluster (offset_in_cluster + wanted)) in
     let^ buffer := pure_of (splice buffer 0 served) in
     let^ _ := modify (λ i, with_position (position i + wanted) i) in
     pure_of (Ok (buffer, wanted))) i.

(** [Seek::seek]; [None] is the [InvalidInput] error. *)
Definition seek (from : SeekFrom) (i : Qcow2Image) : Qcow2Image * option Z :=
  let move base offset :=
    match checked_add_signed base offset with
    | Some position => (with_position position i, Some position)
    | None => (i, None)
    end in
  match from with
  | Start position => (with_position position i, Some position)
  | Current offset => move (position i) offset
  | End offset => move (image_virtual_size i) offset
  end.

End image.
Arguments Qcow2Image : clear implicits.
