(* ===== verification/Qcow2Session.v ===== *)
(** * An opened image is its disk

    What is assumed of the qcow crate, that a read of an image gives the bytes of
    the disk it stands for, and opening an image and any sequence of seeks and
    reads of it afterwards, against a plain file of the disk's bytes. *)

From stdpp Require Import base option list list_numbers.
From S2P Require Import Prelude Stateful Qcow2Header Qcow2Image.

(** ** Lists of clusters *)

Lemma concat_uniform {A} (ls : list (list A)) (size p : Z) (l : list A) w :
  0 < size → Forall (λ l, zlen l = size) ls → 0 <= p →
  ls !! Z.to_nat (p / size) = Some l → 0 <= w <= size - p mod size →
  take (Z.to_nat w) (drop (Z.to_nat p) (concat ls)) = take (Z.to_nat w) (drop (Z.to_nat (p mod size)) l).
Proof.
  intros Hs. revert p. induction ls as [|l0 ls IH]; intros p Hall Hp Hl Hw; [done|].
  apply Forall_cons_1 in Hall as [H0 Hall]. cbn [concat].
  pose proof (Z.div_mod p size). pose proof (Z.mod_pos_bound p size).
  destruct (decide (p < size)) as [Hlt|Hge].
  - rewrite Z.div_small in Hl by lia. cbn in Hl. injection Hl as ->. rewrite Z.mod_small in * by lia.
    rewrite drop_app_le by lia. rewrite take_app_le by (rewrite length_drop; lia). done.
  - assert (p / size = (p - size) / size + 1) as E.
    { replace p with (p - size + 1 * size) at 1 by lia. by rewrite Z.div_add by lia. }
    assert (p mod size = (p - size) mod size) as E'.
    { replace p with (p - size + 1 * size) at 1 by lia. by rewrite Z.mod_add by lia. }
    assert (0 <= (p - size) / size) by (apply Z.div_pos; lia).
    rewrite E, Z2Nat.inj_add, Nat.add_1_r in Hl by lia. cbn in Hl.
    rewrite drop_app_ge by lia. replace (Z.to_nat p - length l0)%nat with (Z.to_nat (p - size)) by lia.
    rewrite E' in *. apply IH; auto; lia.
Qed.

Lemma length_concat_uniform {A} (ls : list (list A)) size :
  Forall (λ l, zlen l = size) ls → zlen (concat ls) = size * zlen ls.
Proof. induction 1 as [|l ls Hl _ IH]; cbn; [lia|]. rewrite length_app. lia. Qed.

Section image.
Context {Reader L2Entry : Type} {Q : Qcow Reader L2Entry}.
Context (table_at : Z → Z → list L2Entry) (contents : L2Entry → nat → Compression → list Z).
Context {laws : QcowLaws Q table_at contents}.
Local Abbreviation image := (Qcow2Image Reader L2Entry).

(** ** The disk *)

(** The bytes of an entry's cluster: zeros where it is a hole. *)
Definition entry_bytes (i : image) (entry : L2Entry) : list Z :=
  let size := Z.to_nat (image_cluster_size i) in
  let hole := match cluster_descriptor entry with
              | Standard all_zeroes offset => all_zeroes || (offset =? 0)
              | Compressed _ => false
              end in
  if hole then replicate size 0 else contents entry size (image_compression i).

Definition disk_cluster (i : image) (index : Z) : list Z :=
  let zeros := replicate (Z.to_nat (image_cluster_size i)) 0 in
  match l1_table i !! Z.to_nat (index / entries_per_l2 i) with
  | None => zeros
  | Some l2_offset =>
      if l2_offset =? 0 then zeros
      else
        match table_at l2_offset (trailing_zeros (image_cluster_size i))
                !! Z.to_nat (index mod entries_per_l2 i) with
        | None => zeros
        | Some entry => entry_bytes i entry
        end
  end.

Definition clusters (i : image) : Z := div_ceil (image_virtual_size i) (image_cluster_size i).

Definition disk (i : image) : list Z :=
  take (Z.to_nat (image_virtual_size i)) (concat (disk_cluster i <$> seqZ 0 (clusters i))).

(** ** Images that can be read *)

(** What does not change while an image is read. *)
Definition fixed (i : image) :=
  (file_length i, l1_table i, image_virtual_size i, image_cluster_size i, entries_per_l2 i,
   image_compression i).

Record well_formed (i : image) : Prop := {
  size_is_u64 : 0 <= image_virtual_size i;
  cluster_is_a_power : ∃ bits, 9 <= bits /\ image_cluster_size i = 2 ^ bits;
  entries_fill_a_cluster : entries_per_l2 i = image_cluster_size i / 8;
  l1_reaches : ∀ p, 0 <= p < image_virtual_size i →
    p / image_cluster_size i / entries_per_l2 i < zlen (l1_table i) }.

(** The caches hold what they are named after. *)
Record coherent (i0 i : image) : Prop := {
  same_image : fixed i = fixed i0;
  buffer_is_a_cluster : zlen (cluster i) = image_cluster_size i0;
  cluster_is_cached : ∀ index, cluster_index i = Some index → cluster i = disk_cluster i0 index;
  table_is_cached : ∀ index, l1_index i = Some index →
    ∃ offset, l1_table i0 !! Z.to_nat index = Some offset ∧
      l2_table i = table_at offset (trailing_zeros (image_cluster_size i0));
  position_is_u64 : 0 <= position i }.

(** The failures a reading may end in: the file's fault, never "no L1 entry". *)
Definition file_fault (e : qcow2_error) : Prop :=
  match e with
  | Malformed (SpanPastEnd _) | Malformed (L2Misaligned _) | Malformed (L2Unreadable _)
  | Malformed (ContentsUnreadable _) => True
  | _ => False
  end.

Lemma trailing_zeros_pow2 bits : 0 <= bits → trailing_zeros (2 ^ bits) = bits.
Proof.
  intros. unfold trailing_zeros. destruct (Z.eqb_spec (2 ^ bits) 0) as [E|_]; [lia|].
  replace (- 2 ^ bits) with (Z.lnot (Z.ones bits)) by (rewrite Z.ones_equiv; unfold Z.lnot; lia).
  rewrite <- Z.ldiff_land, Z.ldiff_ones_r, Z.shiftr_div_pow2, Z.div_same, Z.shiftl_1_l by lia.
  by apply Z.log2_pow2.
Qed.

Lemma length_entry_bytes (i : image) entry : zlen (entry_bytes i entry) = Z.max 0 (image_cluster_size i).
Proof.
  unfold entry_bytes. case_if; rewrite ?length_replicate, ?length_contents; lia.
Qed.

Lemma length_disk_cluster (i : image) index : zlen (disk_cluster i index) = Z.max 0 (image_cluster_size i).
Proof.
  unfold disk_cluster. repeat case_match; rewrite ?length_entry_bytes, ?length_replicate; lia.
Qed.

Section reading.
Context (i0 : image) (wf : well_formed i0).

Lemma cluster_size_pos : 512 <= image_cluster_size i0.
Proof.
  destruct (cluster_is_a_power _ wf) as (bits & ? & ->).
  change 512 with (2 ^ 9). apply Z.pow_le_mono_r; lia.
Qed.

Lemma entries_pos : 64 <= entries_per_l2 i0.
Proof.
  rewrite (entries_fill_a_cluster _ wf). change 64 with (512 / 8).
  apply Z.div_le_mono; [done|apply cluster_size_pos].
Qed.

Lemma length_table offset :
  zlen (table_at offset (trailing_zeros (image_cluster_size i0))) = entries_per_l2 i0.
Proof.
  destruct (cluster_is_a_power _ wf) as (bits & ? & E).
  rewrite length_table_at, (entries_fill_a_cluster _ wf), E, trailing_zeros_pow2 by lia. done.
Qed.

(** Between the first byte written into the buffer and its being named again. *)
Definition loading (p : Z) (bytes : list Z) (i : image) : Prop :=
  coherent i0 i ∧ position i = p ∧ cluster_index i = None ∧ cluster i = bytes.

Definition failing (p : Z) (e : qcow2_error) (i : image) : Prop :=
  coherent i0 i ∧ position i = p ∧ file_fault e.

Lemma same_fields (i : image) : fixed i = fixed i0 →
  file_length i = file_length i0 ∧ l1_table i = l1_table i0 ∧
  image_virtual_size i = image_virtual_size i0 ∧ image_cluster_size i = image_cluster_size i0 ∧
  entries_per_l2 i = entries_per_l2 i0 ∧ image_compression i = image_compression i0.
Proof. unfold fixed. intros [= -> -> -> -> -> ->]. done. Qed.

Lemma loading_with_file p bytes r i : loading p bytes i → loading p bytes (with_file r i).
Proof. intros ([H1 H2 H3 H4 H5] & H6 & H7 & H8). by split_and!; [split|..]. Qed.

Lemma loading_failing p bytes e i : loading p bytes i → file_fault e → failing p e i.
Proof. by intros (? & ? & _) ?. Qed.

Lemma check_span_triple p bytes offset len :
  triple (loading p bytes) (check_span offset len) (λ _, loading p bytes) (failing p).
Proof.
  intros i Hi. unfold check_span. case_if; cbn; [|done]. by eapply loading_failing.
Qed.

Lemma load_l2_table_triple p bytes index offset :
  l1_table i0 !! Z.to_nat index = Some offset →
  triple (loading p bytes) (load_l2_table index offset)
    (λ _ i, loading p bytes i ∧ l2_table i = table_at offset (trailing_zeros (image_cluster_size i0)))
    (failing p).
Proof.
  intros Hoff. eapply triple_bind; [apply triple_gets|]. intros held. cbn beta.
  case_if.
  { apply triple_ok. intros i [Hi Hheld]. split; [done|]. apply bool_decide_eq_true in E; subst held.
    destruct Hi as ([_ _ _ Ht _] & _). destruct (Ht _ (eq_sym Hheld)) as (? & ? & ?). by simplify_eq. }
  eapply triple_pre; [by intros ? [? _]|].
  apply (triple_gets_known _ _ (image_cluster_size i0)).
  { intros i ([Hf _ _ _ _] & _). by apply same_fields in Hf as (_ & _ & _ & -> & _). }
  eapply triple_bind; [apply check_span_triple|].
  intros []. cbn beta. case_if.
  { apply triple_err. intros i Hi. by eapply loading_failing. }
  eapply (triple_bind _ _ _ (λ table i, loading p bytes i ∧
    table = table_at offset (trailing_zeros (image_cluster_size i0)))).
  - intros i Hi. cbn. destruct (read_l2 _ _ _) as [r [table|]] eqn:Hr; cbn.
    + apply read_l2_reads in Hr. split; [by apply loading_with_file|].
      destruct Hi as ([Hf _ _ _ _] & _). apply same_fields in Hf as (_ & _ & _ & <- & _). done.
    + eapply loading_failing; [by apply loading_with_file|done].
  - intros table. apply triple_modify. intros i [([H1 H2 H3 H4 H5] & H6 & H7 & H8) ->].
    split; [|done]. split_and!; try done. split; try done. cbn. intros ? [= <-]. eauto.
Qed.

(** The contents read into a zeroed buffer are the cluster's; what a failure
    leaves in it is not named. *)
Lemma read_contents_triple p entry index :
  triple (loading p (replicate (Z.to_nat (image_cluster_size i0)) 0))
    (λ i, let '(reader, bytes, ok) := read_contents (file i) entry (cluster i) (image_compression i) in
      (with_file reader (with_cluster bytes (cluster_index i) i),
       if (ok : bool) then Ok tt else Err (Malformed (ContentsUnreadable index))))
    (λ _, loading p (contents entry (Z.to_nat (image_cluster_size i0)) (image_compression i0)))
    (failing p).
Proof.
  intros i ([Hf H2 H3 H4 H5] & H6 & H7 & H8).
  pose proof (same_fields _ Hf) as (_ & _ & _ & _ & _ & Hc).
  destruct (read_contents _ _ _ _) as [[r bytes] ok] eqn:Hr.
  pose proof (read_contents_keeps _ _ _ _ _ _ _ Hr) as Hlen.
  assert (coherent i0 (with_file r (with_cluster bytes (cluster_index i) i))) as Hco.
  { split; try done; cbn; [lia|]. by rewrite H7. }
  destruct ok; cbn; [|by split_and!].
  rewrite H8, Hc in Hr. apply read_contents_reads in Hr as ->. by split_and!.
Qed.

Lemma read_cluster_contents_triple p entry index :
  triple (loading p (replicate (Z.to_nat (image_cluster_size i0)) 0))
    (read_cluster_contents index entry)
    (λ _, loading p (entry_bytes i0 entry)) (failing p).
Proof.
  unfold read_cluster_contents, entry_bytes. case_match.
  - case_if; [by apply triple_ok|]. apply (triple_gets_known _ _ (image_cluster_size i0)).
    { intros i ([Hf _ _ _ _] & _). by apply same_fields in Hf as (_ & _ & _ & -> & _). }
    eapply triple_bind; [apply check_span_triple|]. intros []. apply read_contents_triple.
  - eapply triple_bind; [apply check_span_triple|]. intros []. apply read_contents_triple.
Qed.

Definition at_position (p : Z) (i : image) : Prop := coherent i0 i ∧ position i = p.

Lemma naming_triple p index :
  triple (loading p (disk_cluster i0 index)) (modify (λ i, with_cluster (cluster i) (Some index) i))
    (λ _ i, at_position p i ∧ cluster i = disk_cluster i0 index) (failing p).
Proof.
  apply triple_modify. intros i ([H1 H2 H3 H4 H5] & H6 & H7 & H8). split; [|done]. split; [|done].
  split; try done. cbn. by intros ? [= <-].
Qed.

Lemma load_cluster_triple p index :
  0 <= index → index / entries_per_l2 i0 < zlen (l1_table i0) →
  triple (at_position p) (load_cluster index)
    (λ _ i, at_position p i ∧ cluster i = disk_cluster i0 index) (failing p).
Proof.
  intros Hi Hreach. pose proof entries_pos. pose proof cluster_size_pos.
  eapply triple_bind; [apply triple_gets|]. intros held. cbn beta. case_if.
  { apply triple_ok. intros i [[Hco Hp] Hheld]. apply bool_decide_eq_true in E; subst held.
    split; [done|]. by apply (cluster_is_cached _ _ Hco). }
  eapply triple_pre; [by intros ? [? _]|].
  apply (triple_gets_known _ _ (entries_per_l2 i0)).
  { intros i [[Hf _ _ _ _] _]. by apply same_fields in Hf as (_ & _ & _ & _ & -> & _). }
  apply (triple_gets_known _ _ (l1_table i0)).
  { intros i [[Hf _ _ _ _] _]. by apply same_fields in Hf as (_ & -> & _). }
  assert (0 <= index / entries_per_l2 i0) by (apply Z.div_pos; lia).
  destruct (lookup_lt_is_Some_2 (l1_table i0) (Z.to_nat (index / entries_per_l2 i0))) as [offset Ho]; [lia|].
  rewrite Ho. eapply (triple_bind _ _ _ (λ _, loading p (replicate (Z.to_nat (image_cluster_size i0)) 0))).
  { apply triple_modify. intros i [[? Hlen ? ? ?] ?]. split_and!; try done; cbn.
    - split; try done. cbn. rewrite length_replicate. lia.
    - f_equal. lia. }
  intros []. pose proof (naming_triple p index) as Hname. unfold disk_cluster in Hname at 1. rewrite Ho in Hname.
  case_if; [done|].
  eapply triple_bind; [by apply load_l2_table_triple|]. intros [].
  pose proof (length_table offset). pose proof (Z.mod_pos_bound index (entries_per_l2 i0)).
  destruct (lookup_lt_is_Some_2 (table_at offset (trailing_zeros (image_cluster_size i0)))
    (Z.to_nat (index mod entries_per_l2 i0))) as [entry He]; [lia|]. rewrite He in Hname.
  apply (triple_gets_known _ _ (table_at offset (trailing_zeros (image_cluster_size i0)))).
  { by intros i [_ ->]. }
  unfold Prelude.index. rewrite (proj2 (Z.leb_le _ _)) by lia. rewrite He.
  eapply (triple_bind _ _ _ (λ a i, a = entry ∧ loading p (replicate (Z.to_nat (image_cluster_size i0)) 0) i)).
  { apply triple_ok. by intros i [? _]. }
  intros entry'. apply triple_assume. intros ->.
  eapply triple_bind; [apply read_cluster_contents_triple|]. by intros [].
Qed.

(** ** Bytes of the disk *)

Lemma disk_clusters_uniform :
  Forall (λ l, zlen l = image_cluster_size i0) (disk_cluster i0 <$> seqZ 0 (clusters i0)).
Proof.
  pose proof cluster_size_pos. apply Forall_fmap, Forall_forall. intros ? _. cbn.
  rewrite length_disk_cluster. lia.
Qed.

Lemma length_disk : zlen (disk i0) = image_virtual_size i0.
Proof.
  pose proof cluster_size_pos as Hc. pose proof (size_is_u64 _ wf) as Hv.
  unfold disk. rewrite length_take.
  pose proof (length_concat_uniform _ _ disk_clusters_uniform) as Hlen.
  rewrite length_fmap, length_seqZ in Hlen. unfold clusters in *. rewrite div_ceil_pred in * by lia.
  pose proof (Z.div_mod (image_virtual_size i0 - 1) (image_cluster_size i0)).
  pose proof (Z.mod_pos_bound (image_virtual_size i0 - 1) (image_cluster_size i0)).
  assert (-1 <= (image_virtual_size i0 - 1) / image_cluster_size i0).
  { apply Z.div_le_lower_bound; lia. }
  rewrite Z2Nat.id in Hlen by lia. nia.
Qed.

Lemma disk_window p w :
  0 <= p < image_virtual_size i0 → 0 <= w → w <= image_cluster_size i0 - p mod image_cluster_size i0 →
  w <= image_virtual_size i0 - p →
  take (Z.to_nat w) (drop (Z.to_nat p) (disk i0))
  = take (Z.to_nat w)
      (drop (Z.to_nat (p mod image_cluster_size i0)) (disk_cluster i0 (p / image_cluster_size i0))).
Proof.
  intros Hp H0 Hw Hv. pose proof cluster_size_pos. unfold disk.
  rewrite skipn_firstn_comm, firstn_firstn, Nat.min_l by lia.
  apply concat_uniform; [lia|apply disk_clusters_uniform|lia| |lia].
  rewrite list_lookup_fmap. assert (0 <= p / image_cluster_size i0) by (apply Z.div_pos; lia).
  replace (seqZ 0 (clusters i0) !! Z.to_nat (p / image_cluster_size i0))
    with (Some (p / image_cluster_size i0)); [done|].
  symmetry. apply lookup_seqZ. split; [lia|]. unfold clusters. rewrite div_ceil_pred by lia.
  enough (p / image_cluster_size i0 <= (image_virtual_size i0 - 1) / image_cluster_size i0) by lia.
  apply Z.div_le_mono; lia.
Qed.

Lemma read_triple p buffer :
  0 <= p →
  triple (at_position p) (read buffer)
    (λ '(buffer', n) i, served (disk i0) p buffer buffer' n ∧ at_position (p + n) i) (failing p).
Proof.
  intros Hp i [Hco Hpos]. pose proof cluster_size_pos as Hc. pose proof Hco as [Hf Hbuf _ _ _].
  apply same_fields in Hf as (_ & _ & Hv & Hs & _). unfold read. rewrite Hv, Hs, Hpos.
  destruct (_ || _)%bool eqn:E; cbn.
  { split; [|split; [done|lia]]. apply served_nothing. rewrite length_disk. bool_to_prop; [by left|].
    right. destruct buffer; [done|cbn in *; lia]. }
  bool_to_prop. pose proof (Z.mod_pos_bound p (image_cluster_size i0)).
  set (w := Z.min _ _).
  assert (0 < w ∧ w <= zlen buffer ∧ w <= image_cluster_size i0 - p mod image_cluster_size i0
    ∧ w <= image_virtual_size i0 - p) as (Hw1 & Hw2 & Hw3 & Hw4) by lia.
  pose proof (load_cluster_triple p (p / image_cluster_size i0)
    ltac:(apply Z.div_pos; lia) ltac:(apply (l1_reaches _ wf); lia) i (conj Hco Hpos)) as Hload.
  unfold abind at 1. destruct (load_cluster _ i) as [i' [[]|e|]]; cbn in Hload; [|done..].
  destruct Hload as [[Hco' Hpos'] Hcl]. cbn. rewrite Hcl.
  assert (slice (E:=qcow2_error) (disk_cluster i0 (p / image_cluster_size i0)) (p mod image_cluster_size i0)
    (p mod image_cluster_size i0 + w) = Ok (take (Z.to_nat w) (drop (Z.to_nat p) (disk i0)))) as ->.
  { rewrite disk_window by lia. unfold slice, get_range. rewrite length_disk_cluster.
    rewrite bool_true3 by lia. cbn. do 2 f_equal. lia. }
  assert (zlen (take (Z.to_nat w) (drop (Z.to_nat p) (disk i0))) = w) as Hlen.
  { pose proof length_disk. rewrite length_take, length_drop. lia. }
  unfold abind, pure_of. cbn. rewrite splice_ok by lia. cbn. split.
  - replace (length _) with (Z.to_nat w) by lia. apply served_some; [lia..|]. rewrite length_disk. lia.
  - destruct Hco'. split; [split; try done; cbn; lia|cbn; lia].
Qed.

End reading.
End image.

(** ** Requests and answers *)

Inductive request : Type := ReadInto (buffer : list Z) | SeekTo (from : SeekFrom).
Inductive answer : Type :=
| Gave (buffer : list Z) (count : Z)
| Faulted (e : qcow2_error)
| Reached (position : option Z).

Section session.
Context {Reader L2Entry : Type} {Q : Qcow Reader L2Entry}.

(** A failed read is an answer: the caller may go on. *)
Definition serve (r : request) (i : Qcow2Image Reader L2Entry)
    : Qcow2Image Reader L2Entry * result qcow2_error answer :=
  match r with
  | ReadInto buffer =>
      let '(i, outcome) := read buffer i in
      (i, match outcome with
          | Ok (buffer, count) => Ok (Gave buffer count)
          | Err e => Ok (Faulted e)
          | Panic => Panic
          end)
  | SeekTo from => let '(i, position) := seek from i in (i, Ok (Reached position))
  end.

Fixpoint serve_all (rs : list request) (i : Qcow2Image Reader L2Entry)
    : Qcow2Image Reader L2Entry * result qcow2_error (list answer) :=
  match rs with
  | [] => (i, Ok [])
  | r :: rs =>
      let '(i, first) := serve r i in
      match first with
      | Ok a => let '(i, rest) := serve_all rs i in (i, let? answers := rest in Ok (a :: answers))
      | Err e => (i, Err e)
      | Panic => (i, Panic)
      end
  end.

End session.

(** ** A file of bytes *)

Definition seek_target (bytes : list Z) (p : Z) (from : SeekFrom) : option Z :=
  match from with
  | Start position => Some position
  | Current offset => checked_add_signed p offset
  | End offset => checked_add_signed (zlen bytes) offset
  end.

Inductive file_answers (bytes : list Z) : Z → list request → list answer → Prop :=
| no_requests p : file_answers bytes p [] []
| a_read p buffer buffer' count rs answers :
    served bytes p buffer buffer' count →
    file_answers bytes (p + count) rs answers →
    file_answers bytes p (ReadInto buffer :: rs) (Gave buffer' count :: answers)
| a_fault p buffer e rs answers :
    file_fault e →
    file_answers bytes p rs answers →
    file_answers bytes p (ReadInto buffer :: rs) (Faulted e :: answers)
| a_seek p from rs answers :
    file_answers bytes (default p (seek_target bytes p from)) rs answers →
    file_answers bytes p (SeekTo from :: rs) (Reached (seek_target bytes p from) :: answers).

(** Positions are [u64]s. *)
Definition well_typed (r : request) : Prop :=
  match r with SeekTo (Start position) => 0 <= position | _ => True end.

(** ** Opening *)

Section refinement.
Context {Reader L2Entry : Type} {Q : Qcow Reader L2Entry}.
Context (table_at : Z → Z → list L2Entry) (contents : L2Entry → nat → Compression → list Z).
Context {laws : QcowLaws Q table_at contents}.

Lemma check_agreement_inv qcow facts :
  check_agreement qcow facts = Ok tt → zlen (parsed_l1_table qcow) = l1_size facts.
Proof. unfold check_agreement. do 2 (case_if; [done|]). bool_to_prop. done. Qed.

Lemma opened_image bytes reader length capacity (i : Qcow2Image Reader L2Entry) :
  Forall is_u8 bytes → length < U64_MAX →
  open bytes reader length capacity = Ok i →
  well_formed i ∧ at_position table_at contents i 0 i ∧ image_virtual_size i <= capacity.
Proof.
  intros Hu8 Hlen Hopen. unfold open in Hopen. destruct (inspect _ _ _) as [facts|e|] eqn:Hin; cbn in Hopen; [|done..].
  apply accepted_is_acceptable in Hin as [_ _ _ (bits & _ & Hbits & Hcs) [_ Hvs] _ [_ _] Hreach _ _]; [|done..].
  destruct (load reader) as [r [qcow| |]]; cbn in Hopen; [|done..].
  destruct (check_agreement _ _) as [[]| |] eqn:Ha; cbn in Hopen; [|done..]. injection Hopen as <-.
  apply check_agreement_inv in Ha. unfold MIN_CLUSTER_BITS in *.
  split; [split; cbn|].
  - lia.
  - exists bits. split; [lia|done].
  - done.
  - intros p Hp. rewrite Ha. by apply Hreach.
  - cbn. split; [|lia]. split; [|done]. split; try done. cbn. rewrite length_replicate. lia.
Qed.

(** ** Requests *)

Lemma serve_answers (i0 : Qcow2Image Reader L2Entry) rs : well_formed i0 → Forall well_typed rs →
  ∀ p i, 0 <= p → at_position table_at contents i0 p i →
  ∃ i' answers, serve_all rs i = (i', Ok answers) ∧
    file_answers (disk table_at contents i0) p rs answers.
Proof.
  intros Hwf. induction 1 as [|r rs Hr Hrs IH]; intros p i Hp Hi; cbn [serve_all].
  { do 2 eexists. split; [done|constructor]. }
  destruct r as [buffer|from]; cbn [serve].
  - pose proof (read_triple table_at contents i0 Hwf p buffer Hp i Hi) as Hread.
    destruct (read buffer i) as [i1 [[buffer' n]|e|]]; cbn in Hread; [| |done].
    + destruct Hread as [Hserved Hi1].
      assert (0 <= p + n) as Hn by (inversion Hserved; lia).
      destruct (IH (p + n) i1 Hn Hi1) as (i' & answers & -> & Hans).
      do 2 eexists. split; [done|]. by econstructor.
    + destruct Hread as (Hco & Hpos & Hfault).
      destruct (IH p i1 Hp (conj Hco Hpos)) as (i' & answers & -> & Hans).
      do 2 eexists. split; [done|]. by econstructor.
  - destruct Hi as [Hco Hpos]. pose proof Hco as [Hf ? ? ? ?].
    apply same_fields in Hf as (_ & _ & Hv & _).
    assert (∀ q, 0 <= q → at_position table_at contents i0 q (with_position q i)) as Hat.
    { intros q Hq. split; [|done]. destruct Hco. by split. }
    assert (seek from i = (with_position (default p (seek_target (disk table_at contents i0) p from)) i,
      seek_target (disk table_at contents i0) p from)) as ->.
    { unfold seek, seek_target. rewrite (length_disk table_at contents i0 Hwf), Hv, Hpos.
      assert (with_position p i = i) as Hsame by (destruct i; cbn in *; by subst).
      repeat case_match; simplify_eq; cbn; rewrite ?Hsame; done. }
    assert (0 <= default p (seek_target (disk table_at contents i0) p from)) as Hd.
    { unfold seek_target, checked_add_signed. cbn in Hr.
      repeat case_match; bool_to_prop; cbn; lia. }
    destruct (IH _ _ Hd (Hat _ Hd)) as (i' & answers & -> & Hans).
    do 2 eexists. split; [done|]. by constructor.
Qed.

(** C30: An image that opens is the disk it holds: its length is the virtual size
    the header gave and fits the destination, and whatever is sought and read of
    it, in any order, with any of the reads of the file underneath failing in
    between, every answer is the one a plain file of the disk's bytes gives --
    or the failure of that one read -- without a panic.  The two caches, and what
    a failure leaves in them, are never seen. *)
Theorem an_opened_image_is_its_disk bytes reader length capacity i rs :
  Forall is_u8 bytes → length < U64_MAX →
  open bytes reader length capacity = Ok i → Forall well_typed rs →
  zlen (disk table_at contents i) = image_virtual_size i ∧ image_virtual_size i <= capacity ∧
  ∃ i' answers, serve_all rs i = (i', Ok answers) ∧
    file_answers (disk table_at contents i) 0 rs answers.
Proof.
  intros Hu8 Hlen Hopen Hrs.
  destruct (opened_image _ _ _ _ _ Hu8 Hlen Hopen) as (Hwf & Hat & Hfits).
  split; [by apply length_disk|]. split; [done|]. by apply (serve_answers i rs Hwf Hrs).
Qed.

End refinement.

(** ** A small image

    [small_image] of Qcow2Header.v, whose one L2 table sends every cluster to the
    same 512 bytes; the reader is the outcomes of the reads to come. *)

Definition next_read (r : list bool) : list bool * bool :=
  match r with [] => ([], true) | ok :: r => (r, ok) end.

Definition small_table (offset bits : Z) : list ClusterDescriptor :=
  replicate (Z.to_nat (2 ^ bits / 8)) (Standard false 512).

Definition small_contents (entry : ClusterDescriptor) (n : nat) (c : Compression) : list Z := replicate n 7.

#[export] Instance small_qcow : Qcow (list bool) ClusterDescriptor := {
  qcow_load r := (r, Some (IsQcow2 (mk_qcow2 3 4096 512 1 512 false 0 [1024])));
  cluster_descriptor entry := entry;
  read_l2 r offset bits :=
    let '(r, ok) := next_read r in (r, if ok then Some (small_table offset bits) else None);
  read_contents r entry buffer c :=
    let '(r, ok) := next_read r in (r, if ok then replicate (length buffer) 7 else buffer, ok) }.

#[export] Instance small_laws : QcowLaws small_qcow small_table small_contents.
Proof.
  split.
  - intros r offset bits r' table. cbn. destruct (next_read r) as [? []]; by intros [= _ <-].
  - intros offset bits. unfold small_table. rewrite length_replicate.
    assert (0 <= 2 ^ bits / 8) by (apply Z.div_pos; [apply Z.pow_nonneg|]; lia). lia.
  - intros r entry buffer c r' buffer' ok. cbn. destruct (next_read r) as [? []]; intros [= _ <- _]; [|done].
    by rewrite length_replicate.
  - intros r entry n c r' buffer. cbn. destruct (next_read r) as [? []]; intros [= _ <-].
    by rewrite length_replicate.
  - intros. apply length_replicate.
Qed.

Definition opened_small : Qcow2Image (list bool) ClusterDescriptor :=
  mk_image [true; false] 1536 [1024] 4096 512 64 Zstd 0 (replicate 512 0) None [] None.

(** The table is read, the cluster's contents are not; the second try succeeds. *)
Definition small_requests : list request :=
  [SeekTo (End (-4)); ReadInto [0; 0; 0; 0; 0; 0]; ReadInto [0; 0; 0; 0; 0; 0]].

Lemma an_opened_image_is_its_disk_witness :
  ∃ i', serve_all small_requests opened_small
    = (i', Ok [Reached (Some 4092); Faulted (Malformed (ContentsUnreadable 7)); Gave [7; 7; 7; 7; 0; 0] 4]) ∧
  file_answers (disk small_table small_contents opened_small) 0 small_requests
    [Reached (Some 4092); Faulted (Malformed (ContentsUnreadable 7)); Gave [7; 7; 7; 7; 0; 0] 4].
Proof.
  destruct (an_opened_image_is_its_disk small_table small_contents small_image [true; false] 1536 4096
    opened_small small_requests small_image_u8 ltac:(done) ltac:(vm_compute; reflexivity)
    ltac:(repeat constructor)) as (_ & _ & i' & answers & Hrun & Hans).
  assert (snd (serve_all small_requests opened_small)
    = Ok [Reached (Some 4092); Faulted (Malformed (ContentsUnreadable 7)); Gave [7; 7; 7; 7; 0; 0] 4])
    as Hgot by (vm_compute; reflexivity).
  rewrite Hrun in Hgot. injection Hgot as ->. exists i'. by split.
Defined.
