(* ===== verification/ImportPlan.v ===== *)
(** * Chunks of an image

    [platform/src/import/plan.rs]: filling a chunk from a stream that gives a
    cluster at a time, telling a hole from data, padding to the sector, and the
    64-bit FNV-1a hash a written chunk is recognised by. *)

From stdpp Require Import base option list.
From S2P Require Import Prelude Stateful.

Definition CHUNK_BYTES : Z := 1024 * 1024.
Definition SECTOR_ALIGNMENT : Z := 4096.

(** ** Operations *)

(** [filled] grows with every turn but the last, so as many turns as the buffer
    is long are enough; [Panic] if they were not. *)
Fixpoint fill_loop {S E} `{Source S E} (turns : nat) (filled : Z) (buffer : list Z)
    : action S E (list Z * Z) :=
  if filled <? zlen buffer then
    match turns with
    | O => pure_of Panic
    | Datatypes.S turns =>
        let^ tail := pure_of (slice_from buffer filled) in
        let^ (tail, read) := source_read tail in
        let^ buffer := pure_of (splice buffer filled tail) in
        if read =? 0 then pure_of (Ok (buffer, filled))
        else fill_loop turns (filled + read) buffer
    end
  else pure_of (Ok (buffer, filled)).

Definition fill_chunk {S E} `{Source S E} (buffer : list Z) : action S E (list Z * Z) :=
  fill_loop (length buffer) 0 buffer.

(** Eight bytes at a time, and the remainder. *)
Fixpoint is_zero (chunk : list Z) : bool :=
  match chunk with
  | b0 :: b1 :: b2 :: b3 :: b4 :: b5 :: b6 :: b7 :: rest =>
      bool_decide ([b0; b1; b2; b3; b4; b5; b6; b7] = replicate 8 0) && is_zero rest
  | tail => forallb (λ byte, byte =? 0) tail
  end.

Definition padded_length (used alignment : Z) : Z := div_ceil used alignment * alignment.

Definition OFFSET_BASIS : Z := 14695981039346656037.
Definition PRIME : Z := 1099511628211.

Definition digest_byte (hash byte : Z) : Z := (Z.lxor hash byte * PRIME) mod 2 ^ 64.
Definition digest (chunk : list Z) : Z := fold_left digest_byte chunk OFFSET_BASIS.

(** ** Holes *)

Lemma is_zero_iff chunk : is_zero chunk = true ↔ chunk = replicate (length chunk) 0.
Proof.
  induction chunk as [chunk IH] using (induction_ltof1 _ (@length Z)). unfold ltof in IH.
  do 8 (destruct chunk as [|? chunk];
    [cbn; rewrite ?andb_true_iff, ?Z.eqb_eq; split; [intros; intuition congruence|by intros; simplify_eq]|]).
  cbn [is_zero length replicate]. rewrite andb_true_iff, bool_decide_eq_true, IH by (cbn; lia).
  cbn [replicate]. split; [intros [[=] ->]|intros [=]].
  - subst. by rewrite length_replicate.
  - subst. done.
Qed.

(** ** The hash *)

Lemma lxor_bound a b : 0 <= a < 2 ^ 64 → 0 <= b < 2 ^ 64 → 0 <= Z.lxor a b < 2 ^ 64.
Proof.
  intros Ha Hb. assert (0 <= Z.lxor a b) by (apply Z.lxor_nonneg; lia). split; [done|].
  destruct (decide (Z.lxor a b = 0)) as [->|]; [done|].
  apply Z.log2_lt_pow2; [lia|]. eapply Z.le_lt_trans; [apply Z.log2_lxor; lia|].
  apply Z.max_lub_lt.
  - destruct (decide (a = 0)) as [->|]; [done|]. apply Z.log2_lt_pow2; lia.
  - destruct (decide (b = 0)) as [->|]; [done|]. apply Z.log2_lt_pow2; lia.
Qed.

(** The inverse of the prime. *)
Definition PRIME_INVERSE : Z := 14886173955864302971.

Lemma mul_prime_inj a b :
  0 <= a < 2 ^ 64 → 0 <= b < 2 ^ 64 → (a * PRIME) mod 2 ^ 64 = (b * PRIME) mod 2 ^ 64 → a = b.
Proof.
  intros Ha Hb H. apply (f_equal (λ z, (z * PRIME_INVERSE) mod 2 ^ 64)) in H.
  rewrite !Z.mul_mod_idemp_l, <- !Z.mul_assoc in H by done.
  rewrite <- (Z.mul_mod_idemp_r a), <- (Z.mul_mod_idemp_r b) in H by done.
  replace ((PRIME * PRIME_INVERSE) mod 2 ^ 64) with 1 in H by (vm_compute; reflexivity).
  rewrite !Z.mul_1_r, !Z.mod_small in H by done. done.
Qed.

Lemma digest_byte_bound hash byte : 0 <= digest_byte hash byte < 2 ^ 64.
Proof. apply Z.mod_pos_bound. done. Qed.

Lemma digest_byte_inj_hash h1 h2 byte :
  0 <= h1 < 2 ^ 64 → 0 <= h2 < 2 ^ 64 → is_u8 byte → digest_byte h1 byte = digest_byte h2 byte → h1 = h2.
Proof.
  unfold is_u8. intros H1 H2 Hb H%mul_prime_inj; try (apply lxor_bound; lia).
  apply (f_equal (λ z, Z.lxor z byte)) in H. by rewrite !Z.lxor_assoc, Z.lxor_nilpotent, !Z.lxor_0_r in H.
Qed.

Lemma digest_byte_inj_byte h b1 b2 :
  0 <= h < 2 ^ 64 → is_u8 b1 → is_u8 b2 → digest_byte h b1 = digest_byte h b2 → b1 = b2.
Proof.
  unfold is_u8. intros Hh H1 H2 H%mul_prime_inj; try (apply lxor_bound; lia).
  apply (f_equal (Z.lxor h)) in H. by rewrite <- !Z.lxor_assoc, !Z.lxor_nilpotent, !Z.lxor_0_l in H.
Qed.

Lemma fold_digest_bound chunk h : 0 <= h < 2 ^ 64 → 0 <= fold_left digest_byte chunk h < 2 ^ 64.
Proof.
  revert h. induction chunk as [|b chunk IH]; intros h Hh; cbn; [done|].
  apply IH, digest_byte_bound.
Qed.

Lemma fold_digest_inj chunk h1 h2 :
  Forall is_u8 chunk → 0 <= h1 < 2 ^ 64 → 0 <= h2 < 2 ^ 64 →
  fold_left digest_byte chunk h1 = fold_left digest_byte chunk h2 → h1 = h2.
Proof.
  intros Hc. revert h1 h2. induction Hc as [|b chunk Hb Hc IH]; intros h1 h2 H1 H2 H; cbn in H; [done|].
  apply IH in H; [|apply digest_byte_bound..]. by eapply digest_byte_inj_hash.
Qed.

(** A chunk with one byte changed, at any position and to any value, has
    another digest: every step of the hash is invertible in the hash and in the
    byte. *)
Theorem digest_notices_a_changed_byte before after b1 b2 :
  Forall is_u8 after → is_u8 b1 → is_u8 b2 →
  digest (before ++ b1 :: after) = digest (before ++ b2 :: after) → b1 = b2.
Proof.
  intros Ha H1 H2 H. unfold digest in H. rewrite !fold_left_app in H. cbn in H.
  apply fold_digest_inj in H; [|done|apply digest_byte_bound..].
  eapply digest_byte_inj_byte; [|done..|exact H]. by apply fold_digest_bound.
Qed.

Lemma digest_notices_a_changed_byte_witness : 9 = 9.
Proof.
  apply (digest_notices_a_changed_byte [1; 2] [3] 9 9); [|done..|done].
  by repeat constructor.
Defined.

(** ** Filling a chunk *)

Section fill.
Context {S E : Type} `{Source S E} (at_ : list Z → Z → S → Prop).
Context {laws : SourceLaws (S:=S) (E:=E) _ at_}.

Definition filled_with (bytes : list Z) (p : Z) (buffer buffer' : list Z) (n : Z) : Prop :=
  n = Z.min (zlen buffer) (zlen bytes - p) ∧
  buffer' = take (Z.to_nat n) (drop (Z.to_nat p) bytes) ++ drop (Z.to_nat n) buffer.

Lemma splice_tail (buffer tail : list Z) filled :
  0 <= filled <= zlen buffer → length tail = length (drop (Z.to_nat filled) buffer) →
  splice (E:=E) buffer filled tail = Ok (take (Z.to_nat filled) buffer ++ tail).
Proof.
  intros Hf Hl. rewrite length_drop in Hl. rewrite splice_ok by lia.
  rewrite (drop_ge buffer) by lia. by rewrite app_nil_r.
Qed.

(** The buffer once [filled] bytes of it have been read. *)
Definition filling (bytes : list Z) (p : Z) (buffer : list Z) (filled : Z) : list Z :=
  take (Z.to_nat filled) (drop (Z.to_nat p) bytes) ++ drop (Z.to_nat filled) buffer.

Lemma length_filling bytes p buffer filled :
  0 <= p → 0 <= filled <= zlen buffer → p + filled <= zlen bytes →
  length (take (Z.to_nat filled) (drop (Z.to_nat p) bytes)) = Z.to_nat filled ∧
  zlen (filling bytes p buffer filled) = zlen buffer.
Proof. intros. unfold filling. rewrite length_app, length_take, !length_drop. lia. Qed.

Lemma filling_step bytes p buffer filled n :
  0 <= p → 0 <= filled → 0 <= n → p + filled <= zlen bytes → filled <= zlen buffer →
  take (Z.to_nat filled) (filling bytes p buffer filled)
    ++ take (Z.to_nat n) (drop (Z.to_nat (p + filled)) bytes)
    ++ drop (Z.to_nat n) (drop (Z.to_nat filled) buffer)
  = filling bytes p buffer (filled + n).
Proof.
  intros. destruct (length_filling bytes p buffer filled) as [Hl _]; [lia..|].
  unfold filling at 1. rewrite <- Hl at 1. rewrite take_app_length.
  unfold filling. rewrite drop_drop, !Z2Nat.inj_add, app_assoc by lia.
  rewrite <- drop_drop, take_take_drop. done.
Qed.

Lemma fill_loop_triple bytes p buffer turns filled :
  0 <= p → 0 <= filled <= zlen buffer → p + filled <= zlen bytes →
  zlen buffer <= filled + Z.of_nat turns →
  triple (at_ bytes (p + filled)) (fill_loop turns filled (filling bytes p buffer filled))
    (λ '(buffer', n) s, filled_with bytes p buffer buffer' n ∧ at_ bytes (p + n) s) (λ _ _, True).
Proof.
  intros Hp. revert filled. induction turns as [|turns IH]; intros filled Hf Hb Ht;
    destruct (length_filling bytes p buffer filled Hp Hf Hb) as [Hl Hlen];
    cbn [fill_loop]; rewrite Hlen; (destruct (Z.ltb_spec filled (zlen buffer)); [try lia|]).
  1,3: apply triple_ok; intros s Hs; split; [split; [lia|done]|done].
  rewrite slice_from_ok by lia.
  replace (drop _ (filling _ _ _ _)) with (drop (Z.to_nat filled) buffer)
    by (unfold filling; by rewrite <- Hl at 2; rewrite drop_app_length).
  intros s Hs. cbn. unfold abind at 1. pose proof (source_serves bytes (p + filled) (drop (Z.to_nat filled) buffer) ltac:(lia) s Hs) as Hread.
  destruct (source_read _ s) as [s' [[tail n]|e|]]; cbn in Hread; [|done..].
  destruct Hread as [Hserved Hs'].
  assert (length tail = length (drop (Z.to_nat filled) (filling bytes p buffer filled))) as Htail.
  { rewrite length_drop. inversion Hserved; subst; rewrite ?length_app, ?length_take, ?length_drop in *; lia. }
  unfold abind, pure_of. rewrite splice_tail by (done || lia).
  inversion Hserved as [Hend|n' ? Hn ?]; subst; cbn.
  - split; [|by rewrite Z.add_0_r in Hs'].
    assert (zlen bytes <= p + filled) by (destruct Hend as [|Hend]; [lia|];
      apply (f_equal length) in Hend; rewrite length_drop in Hend; cbn in Hend; lia).
    split; [lia|]. unfold filling. rewrite <- Hl at 1. by rewrite take_app_length.
  - rewrite length_drop in Hn. destruct (Z.eqb_spec n 0) as [->|]; [lia|].
    rewrite filling_step by lia. apply IH; [lia..|]. by rewrite Z.add_assoc.
Qed.

Lemma fill_chunk_triple bytes p buffer :
  0 <= p <= zlen bytes →
  triple (at_ bytes p) (fill_chunk buffer)
    (λ '(buffer', n) s, filled_with bytes p buffer buffer' n ∧ at_ bytes (p + n) s) (λ _ _, True).
Proof.
  intros Hp s Hs. pose proof (fill_loop_triple bytes p buffer (length buffer) 0) as Hfill.
  unfold filling in Hfill. cbn in Hfill. rewrite Z.add_0_r in Hfill. apply Hfill; lia || done.
Qed.

End fill.
