(* ===== verification/ImportCopy.v ===== *)
(** * Copying an image onto a disk

    [platform/src/import/copy.rs]: the chunks of a stream are written onto a
    disk, holes skipped and the first chunk last, and what was written is read
    back and compared by its digest. *)

From stdpp Require Import base option list list_numbers.
From S2P Require Import Prelude Stateful ImportPlan.

(** ** The disk

    [DiskBlocks]; [read_at] fills the buffer it is given. *)

Class DiskBlocks (D F : Type) := {
  write_at : Z → list Z → action D F unit;
  read_at : Z → list Z → action D F (list Z);
  flush : action D F unit }.

Inductive copy_error (E F : Type) : Type :=
| Cancelled
| ReadingFailed (e : E)
| DoesNotFit (end_ capacity : Z)
| DiskFailed (e : F)
| NotKept (length offset : Z).
Arguments Cancelled {E F}.
Arguments ReadingFailed {E F} e.
Arguments DoesNotFit {E F} end_ capacity.
Arguments DiskFailed {E F} e.
Arguments NotKept {E F} length offset.

Record ImportSummary : Type := mk_summary {
  image_bytes : Z; written_bytes : Z; skipped_bytes : Z; verified_bytes : Z }.

Record Written : Type := mk_written { written_at : Z; written_length : Z; written_digest : Z }.

(** The locals of [copy_image] that change from one chunk to the next. *)
Record Copying : Type := mk_copying {
  chunk : list Z;
  first_chunk : list Z;
  first_length : Z;
  written : list Written;
  summary : ImportSummary;
  offset : Z }.

Section copy.
Context {S D E F : Type} `{Source S E} `{DiskBlocks D F}.

Abbreviation Copy A := (action (S * D) (copy_error E F) A).

Definition from_source {A} (m : action S E A) : Copy A := λ '(s, d),
  let '(s, r) := m s in ((s, d), map_err ReadingFailed r).
Definition to_disk {A} (m : action D F A) : Copy A := λ '(s, d),
  let '(d, r) := m d in ((s, d), map_err DiskFailed r).

Definition with_skipped (used : Z) (s : ImportSummary) : ImportSummary :=
  mk_summary (image_bytes s) (written_bytes s) (skipped_bytes s + used) (verified_bytes s).
Definition with_written (used : Z) (s : ImportSummary) : ImportSummary :=
  mk_summary (image_bytes s) (written_bytes s + used) (skipped_bytes s) (verified_bytes s).
Definition with_image (end_ : Z) (s : ImportSummary) : ImportSummary :=
  mk_summary end_ (written_bytes s) (skipped_bytes s) (verified_bytes s).
Definition with_verified (verified : Z) (s : ImportSummary) : ImportSummary :=
  mk_summary (image_bytes s) (written_bytes s) (skipped_bytes s) verified.

(** ** The loop *)

(** A chunk of [used] bytes: held back, skipped or written. *)
Definition place_chunk (capacity : Z) (c : Copying) (used : Z) : Copy Copying :=
  let end_ := (offset c + used) mod 2 ^ 64 in
  if capacity <? end_ then pure_of (Err (DoesNotFit end_ capacity))
  else
    let summary := with_image end_ (summary c) in
    let^ bytes := pure_of (slice (chunk c) 0 used) in
    if offset c =? 0 then
      let^ first := pure_of (splice (first_chunk c) 0 bytes) in
      pure_of (Ok (mk_copying (chunk c) first used (written c) summary end_))
    else if is_zero bytes then
      pure_of (Ok (mk_copying (chunk c) (first_chunk c) (first_length c) (written c)
                     (with_skipped used summary) end_))
    else
      let^ _ := to_disk (write_at (offset c) bytes) in
      pure_of (Ok (mk_copying (chunk c) (first_chunk c) (first_length c)
                     (written c ++ [mk_written (offset c) used (digest bytes)])
                     (with_written used summary) end_)).

(** [cancel n] is what the flag says when it is polled for the [n]th time.  A turn
    that does not end the loop moves the offset, which stays below the capacity:
    one turn more than the capacity is enough, and [Panic] if it were not. *)
Fixpoint copy_chunks (turns poll : nat) (cancel : nat → bool) (capacity : Z) (c : Copying) : Copy Copying :=
  match turns with
  | O => pure_of Panic
  | Datatypes.S turns =>
      if cancel poll then pure_of (Err Cancelled)
      else
        let^ (chunk, used) := from_source (fill_chunk (chunk c)) in
        let c := mk_copying chunk (first_chunk c) (first_length c) (written c) (summary c) (offset c) in
        if used =? 0 then pure_of (Ok c)
        else
          let^ c := place_chunk capacity c used in
          copy_chunks turns (Datatypes.S poll) cancel capacity c
  end.

(** The chunk that makes the disk look like a disk. *)
Definition place_first (c : Copying) : Copy Copying :=
  if 0 <? first_length c then
    let^ first := pure_of (slice (first_chunk c) 0 (first_length c)) in
    if is_zero first then
      pure_of (Ok (mk_copying (chunk c) (first_chunk c) (first_length c) (written c)
                     (with_skipped (first_length c) (summary c)) (offset c)))
    else
      let^ _ := to_disk (write_at 0 first) in
      pure_of (Ok (mk_copying (chunk c) (first_chunk c) (first_length c)
                     (written c ++ [mk_written 0 (first_length c) (digest first)])
                     (with_written (first_length c) (summary c)) (offset c)))
  else pure_of (Ok c).

(** ** Reading back *)

Fixpoint verify_loop (verified : Z) (written : list Written) (buffer : list Z) : Copy Z :=
  match written with
  | [] => pure_of (Ok verified)
  | record :: written =>
      let^ target := pure_of (slice buffer 0 (written_length record)) in
      let^ read_back := to_disk (read_at (written_at record) target) in
      let^ buffer := pure_of (splice buffer 0 read_back) in
      if negb (digest read_back =? written_digest record)
      then pure_of (Err (NotKept (written_length record) (written_at record)))
      else verify_loop (verified + written_length record) written buffer
  end.

Definition verify (written : list Written) (buffer : list Z) : Copy Z := verify_loop 0 written buffer.

(** ** The whole copy *)

Definition start (chunk_bytes : Z) : Copying :=
  let zeros := replicate (Z.to_nat chunk_bytes) 0 in
  mk_copying zeros zeros 0 [] (mk_summary 0 0 0 0) 0.

Definition copy_image (capacity chunk_bytes : Z) (cancel : nat → bool) : Copy ImportSummary :=
  let^ c := copy_chunks (Datatypes.S (Z.to_nat capacity)) 0 cancel capacity (start chunk_bytes) in
  let^ c := place_first c in
  let^ _ := to_disk flush in
  let^ verified := verify (written c) (chunk c) in
  pure_of (Ok (with_verified verified (summary c))).

End copy.

(** ** What a disk holds *)

Definition fragment (content : Z → Z) (at_ length : Z) : list Z := content <$> seqZ at_ length.

Definition overlay (content : Z → Z) (at_ : Z) (bytes : list Z) : Z → Z := λ i,
  if (at_ <=? i) && (i <? at_ + zlen bytes) then default 0 (bytes !! Z.to_nat (i - at_)) else content i.

(** A disk whose reads say what it holds, whatever became of the writes. *)
Class ReadsBack {D F} (disk : DiskBlocks D F) (stored : D → Z → Z) : Prop := {
  reads_back at_ buffer d :
    match read_at at_ buffer d with
    | (d', Ok bytes) => bytes = fragment (stored d) at_ (zlen buffer) ∧ ∀ i, stored d' i = stored d i
    | (d', Err _) => True
    | (_, Panic) => False
    end;
  write_at_no_panic at_ bytes d : no_panic (write_at at_ bytes d).2;
  flush_no_panic d : no_panic (flush d).2 }.

(** A disk that keeps what it is given, with zeros up to the sector. *)
Class Keeps {D F} (disk : DiskBlocks D F) (stored : D → Z → Z) (alignment : Z) : Prop := {
  keeps_reads : ReadsBack disk stored;
  write_lands at_ bytes d d' :
    write_at at_ bytes d = (d', Ok tt) →
    ∃ pad, zlen bytes + Z.of_nat pad <= padded_length (zlen bytes) alignment ∧
      ∀ i, stored d' i = overlay (stored d) at_ (bytes ++ replicate pad 0) i;
  flush_keeps d d' : flush d = (d', Ok tt) → ∀ i, stored d' i = stored d i }.
