(* ===== verification/ImportDrive.v ===== *)
(** * The physical drive

    [platform/src/import/drive.rs]: the handle an image is written through, whose
    every transfer is a whole number of sectors out of one aligned buffer.  What
    Windows does with a seek, a write, a read and a flush of the handle is the
    class [RawDrive]; [RawDriveLaws] is what its documentation promises. *)

From stdpp Require Import base option list list_numbers.
From S2P Require Import Prelude Stateful ImportPlan ImportCopy.

Definition I64_MAX : Z := 9223372036854775807.

(** [SetFilePointerEx], [WriteFile], [ReadFile] and [FlushFileBuffers]: a write
    says how many bytes it moved, a read fills a part of the buffer and says how
    much. *)
Class RawDrive (H W : Type) := {
  set_pointer : Z → action H W unit;
  write_file : list Z → action H W Z;
  read_file : list Z → action H W (list Z * Z);
  flush_file : action H W unit }.

Class RawDriveLaws {H W} (raw : RawDrive H W) (stored : H → Z → Z) (pointer : H → Z) : Prop := {
  set_pointer_moves p h h' :
    set_pointer p h = (h', Ok tt) → pointer h' = p ∧ ∀ i, stored h' i = stored h i;
  write_file_writes bytes h h' n :
    write_file bytes h = (h', Ok n) →
    0 <= n <= zlen bytes ∧
    ∀ i, stored h' i = overlay (stored h) (pointer h) (take (Z.to_nat n) bytes) i;
  read_file_reads buffer h h' buffer' n :
    read_file buffer h = (h', Ok (buffer', n)) →
    0 <= n <= zlen buffer ∧ length buffer' = length buffer ∧
    take (Z.to_nat n) buffer' = fragment (stored h) (pointer h) n ∧ ∀ i, stored h' i = stored h i;
  flush_file_keeps h h' : flush_file h = (h', Ok tt) → ∀ i, stored h' i = stored h i;
  raw_no_panic h p bytes :
    no_panic (set_pointer p h).2 ∧ no_panic (write_file bytes h).2 ∧
    no_panic (read_file bytes h).2 ∧ no_panic (flush_file h).2 }.

Inductive drive_error (W : Type) : Type :=
| Windows (e : W)
| OffsetPastAnyDisk (offset : Z)
| ShortWrite (length offset written : Z)
| ShortRead (length offset read : Z)
| TransferTooLong (length size : Z).
Arguments Windows {W} e.
Arguments OffsetPastAnyDisk {W} offset.
Arguments ShortWrite {W} length offset written.
Arguments ShortRead {W} length offset read.
Arguments TransferTooLong {W} length size.

(** [scratch] is the aligned buffer, as long as its layout. *)
Record PhysicalDrive (H : Type) : Type := mk_drive { handle : H; scratch : list Z }.
Arguments mk_drive {H} handle scratch.
Arguments handle {H} p.
Arguments scratch {H} p.

Section drive.
Context {H W : Type} {raw : RawDrive H W}.
Abbreviation Drive A := (action (PhysicalDrive H) (drive_error W) A).

Definition open_drive (h : H) (chunk_bytes : Z) : PhysicalDrive H :=
  mk_drive h (replicate (Z.to_nat (Z.max (padded_length chunk_bytes SECTOR_ALIGNMENT) SECTOR_ALIGNMENT)) 0).

Definition call {A} (m : action H W A) : Drive A := λ d,
  let '(h, r) := m (handle d) in (mk_drive h (scratch d), map_err Windows r).

Definition drive_seek (offset : Z) : Drive unit :=
  if I64_MAX <? offset then pure_of (Err (OffsetPastAnyDisk offset)) else call (set_pointer offset).

(** [AlignedBuffer::check], which [as_mut_slice] does first. *)
Definition check_transfer (length : Z) : Drive unit := λ d,
  (d, if zlen (scratch d) <? length then Err (TransferTooLong length (zlen (scratch d))) else Ok tt).

Definition fill_scratch (at_ : Z) (bytes : list Z) : Drive unit := λ d,
  match splice (scratch d) at_ bytes with
  | Ok scratch => (mk_drive (handle d) scratch, Ok tt)
  | Err e => (d, Err e)
  | Panic => (d, Panic)
  end.

Definition drive_write_at (offset : Z) (bytes : list Z) : Drive unit :=
  let length := padded_length (zlen bytes) SECTOR_ALIGNMENT in
  let^ _ := check_transfer length in
  let^ _ := fill_scratch 0 bytes in
  let^ _ := fill_scratch (zlen bytes) (replicate (Z.to_nat (length - zlen bytes)) 0) in
  let^ _ := drive_seek offset in
  let^ buffer := gets scratch in
  let^ transfer := pure_of (slice buffer 0 length) in
  let^ written := call (write_file transfer) in
  if negb (written =? length) then pure_of (Err (ShortWrite length offset written))
  else pure_of (Ok tt).

Definition drive_read_at (offset : Z) (bytes : list Z) : Drive (list Z) :=
  let length := padded_length (zlen bytes) SECTOR_ALIGNMENT in
  let^ _ := drive_seek offset in
  let^ _ := check_transfer length in
  let^ buffer := gets scratch in
  let^ transfer := pure_of (slice buffer 0 length) in
  let^ (transfer, read) := call (read_file transfer) in
  let^ _ := fill_scratch 0 transfer in
  if read <? zlen bytes then pure_of (Err (ShortRead (zlen bytes) offset read))
  else
    let^ buffer := gets scratch in
    pure_of (slice buffer 0 (zlen bytes)).

#[export] Instance drive_blocks : DiskBlocks (PhysicalDrive H) (drive_error W) := {
  write_at := drive_write_at;
  read_at := drive_read_at;
  flush := call flush_file }.

(** ** A drive keeps what it is given *)

Context (stored : H → Z → Z) (pointer : H → Z) {laws : RawDriveLaws raw stored pointer}.
Definition drive_stored (d : PhysicalDrive H) : Z → Z := stored (handle d).

Lemma padded_length_ge n : 0 <= n → n <= padded_length n SECTOR_ALIGNMENT.
Proof.
  unfold padded_length, div_ceil, SECTOR_ALIGNMENT. intros.
  pose proof (Z.div_mod (n + 4096 - 1) 4096). pose proof (Z.mod_pos_bound (n + 4096 - 1) 4096). lia.
Qed.

Lemma call_cases {A} (m : action H W A) d :
  no_panic (m (handle d)).2 →
  (∃ h' a, m (handle d) = (h', Ok a) ∧ call m d = (mk_drive h' (scratch d), Ok a)) ∨
  ∃ h' e, call m d = (mk_drive h' (scratch d), Err (Windows e)).
Proof. unfold call. destruct (m _) as [h' [a|e|]]; cbn; intros Hn; [left|right|done]; eauto. Qed.

Lemma drive_seek_cases offset d :
  (∃ d', drive_seek offset d = (d', Ok tt) ∧ scratch d' = scratch d ∧ pointer (handle d') = offset ∧
    ∀ i, drive_stored d' i = drive_stored d i) ∨
  ∃ d' e, drive_seek offset d = (d', Err e).
Proof.
  unfold drive_seek. case_if; [right; by repeat eexists|].
  destruct (call_cases (set_pointer offset) d) as [(h' & [] & Hm & ->)|(h' & e & ->)].
  - apply raw_no_panic. exact [].
  - left. eexists. split; [done|]. apply set_pointer_moves in Hm as [Hp Hs]. done.
  - right. eauto.
Qed.

(** The buffer of a write: the bytes, zeros up to the sector, what was there before. *)
Lemma fill_scratch_ok at_ bytes d :
  0 <= at_ → at_ + zlen bytes <= zlen (scratch d) →
  fill_scratch at_ bytes d
  = (mk_drive (handle d) (take (Z.to_nat at_) (scratch d) ++ bytes ++
       drop (Z.to_nat at_ + length bytes) (scratch d)), Ok tt).
Proof. intros. unfold fill_scratch. by rewrite splice_ok by lia. Qed.

Lemma write_buffer (old bytes : list Z) length :
  zlen bytes <= length → length <= zlen old →
  let filled := take 0 old ++ bytes ++ drop (0 + List.length bytes) old in
  let zeros := replicate (Z.to_nat (length - zlen bytes)) 0 in
  slice (E:=drive_error W)
    (take (Z.to_nat (zlen bytes)) filled ++ zeros ++ drop (Z.to_nat (zlen bytes) + List.length zeros) filled)
    0 length = Ok (bytes ++ zeros).
Proof.
  intros Hb Hl filled zeros. unfold filled. rewrite Nat2Z.id, take_0, app_nil_l, take_app_length.
  unfold slice. rewrite app_assoc, get_range_prefix; [done|].
  unfold zeros. rewrite length_app, length_replicate. lia.
Qed.

Lemma drive_write_at_lands offset bytes d :
  match drive_write_at offset bytes d with
  | (d', Ok tt) => ∀ i, drive_stored d' i = overlay (drive_stored d) offset
      (bytes ++ replicate (Z.to_nat (padded_length (zlen bytes) SECTOR_ALIGNMENT - zlen bytes)) 0) i
  | (_, Err _) => True
  | (_, Panic) => False
  end.
Proof.
  unfold drive_write_at. set (len := padded_length _ _).
  assert (zlen bytes <= len) as Hge by (apply padded_length_ge; lia).
  unfold abind at 1, check_transfer. case_if; [done|]. bool_to_prop.
  unfold abind at 1. rewrite fill_scratch_ok by lia.
  unfold abind at 1. rewrite fill_scratch_ok
    by (cbn; rewrite ?length_app, ?length_take, ?length_drop, ?length_replicate; lia).
  cbn [handle scratch]. set (d1 := mk_drive _ _). unfold abind at 1.
  destruct (drive_seek_cases offset d1) as [(d2 & -> & Hsc & Hp & Hs)|(d2 & e & ->)]; [|done].
  unfold abind at 1, gets. unfold abind at 1, pure_of at 1.
  rewrite Hsc. unfold d1 at 1. cbn [scratch]. rewrite write_buffer by lia.
  set (buffer := bytes ++ _). unfold abind at 1.
  destruct (call_cases (write_file buffer) d2) as [(h' & n & Hw & ->)|(h' & e & ->)];
    [apply raw_no_panic; exact 0| |done].
  apply write_file_writes in Hw as [Hn Hw]. case_if; [done|]. bool_to_prop. cbn. intros i. subst n.
  unfold drive_stored. cbn. rewrite Hw, Hp, take_ge by (unfold buffer; rewrite length_app, length_replicate; lia).
  unfold overlay. case_if; [done|apply Hs].
Qed.

Lemma fragment_prefix (content : Z → Z) at_ m n :
  0 <= m <= n → take (Z.to_nat m) (fragment content at_ n) = fragment content at_ m.
Proof.
  intros. unfold fragment. replace n with (m + (n - m)) by lia.
  rewrite seqZ_app, fmap_app by lia.
  by rewrite take_app_length' by (rewrite length_fmap, length_seqZ; lia).
Qed.

Lemma drive_read_at_reads offset buffer d :
  match drive_read_at offset buffer d with
  | (d', Ok bytes) => bytes = fragment (drive_stored d) offset (zlen buffer) ∧
      ∀ i, drive_stored d' i = drive_stored d i
  | (_, Err _) => True
  | (_, Panic) => False
  end.
Proof.
  unfold drive_read_at. set (len := padded_length _ _).
  assert (zlen buffer <= len) as Hge by (apply padded_length_ge; lia).
  unfold abind at 1.
  destruct (drive_seek_cases offset d) as [(d2 & -> & Hsc & Hp & Hs)|(d2 & e & ->)]; [|done].
  unfold abind at 1, check_transfer. case_if; [done|]. bool_to_prop.
  unfold abind at 1, gets. unfold abind at 1, pure_of at 1.
  unfold slice at 1, get_range at 1. rewrite bool_true3 by lia. rewrite Z.sub_0_r. cbn [drop expect Z.to_nat].
  set (transfer := take _ _).
  assert (zlen transfer = len) as Ht by (unfold transfer; rewrite length_take, length_drop; lia).
  unfold abind at 1.
  destruct (call_cases (read_file transfer) d2) as [(h' & [back n] & Hr & ->)|(h' & e & ->)];
    [apply raw_no_panic; exact 0| |done].
  apply read_file_reads in Hr as (Hn & Hlen & Htake & Hsame).
  unfold abind at 1. rewrite fill_scratch_ok by (cbn; lia). cbn [handle scratch].
  case_if; [done|]. bool_to_prop. unfold abind, gets, pure_of. cbn [firstn app scratch Z.to_nat].
  unfold slice, get_range. rewrite bool_true3 by (rewrite ?length_app, ?length_drop; lia). cbn.
  split; [|intros i; unfold drive_stored; cbn; rewrite Hsame; apply Hs].
  change (Z.to_nat 0) with 0%nat. rewrite Z.sub_0_r, drop_0, take_0, app_nil_l, take_app_le by lia.
  replace (take (Z.to_nat (zlen buffer)) back) with (take (Z.to_nat (zlen buffer)) (take (Z.to_nat n) back))
    by (rewrite take_take; f_equal; lia).
  rewrite Htake, Hp, fragment_prefix by lia. apply list_fmap_ext. intros _ i _. apply Hs.
Qed.

#[export] Instance drive_reads_back : ReadsBack drive_blocks drive_stored.
Proof.
  split.
  - intros offset buffer d. apply drive_read_at_reads.
  - intros offset bytes d. pose proof (drive_write_at_lands offset bytes d) as H0. change (no_panic (drive_write_at offset bytes d).2).
    destruct (drive_write_at _ _ _) as [d' [[]|e|]]; cbn; [done..|by destruct H0].
  - intros d. cbn. destruct (call_cases flush_file d) as [(h' & [] & _ & ->)|(h' & e & ->)]; [|done..].
    apply raw_no_panic; [exact 0|exact []].
Qed.

#[export] Instance drive_keeps : Keeps drive_blocks drive_stored SECTOR_ALIGNMENT.
Proof.
  split; [apply _| |].
  - intros offset bytes d d' Hw. change (drive_write_at offset bytes d = (d', Ok tt)) in Hw. pose proof (drive_write_at_lands offset bytes d) as Hl. rewrite Hw in Hl.
    exists (Z.to_nat (padded_length (zlen bytes) SECTOR_ALIGNMENT - zlen bytes)). split; [|done].
    pose proof (padded_length_ge (zlen bytes)). lia.
  - intros d d' Hf. cbn in Hf.
    destruct (call_cases flush_file d) as [(h' & [] & Hm & Hc)|(h' & e & Hc)];
      [apply raw_no_panic; [exact 0|exact []]|..]; rewrite Hc in Hf; [|done].
    injection Hf as <-. intros i. unfold drive_stored. cbn. by eapply flush_file_keeps.
Qed.
End drive.
