(* ===== verification/ImportProps.v ===== *)
(** * An imported disk

    A copy onto a disk that keeps its writes, a copy onto one that may not, the
    order the writes arrive in, and an image of [image/src/qcow2.rs] imported
    through the drive of [platform/src/import/drive.rs]. *)

From stdpp Require Import base option list list_numbers.
From S2P Require Import Prelude Stateful ImportPlan ImportCopy.
From S2P Require Import ImportDrive.
From S2P Require Qcow2Header Qcow2Image Qcow2Session.

(** Why a copy of [image] fails. *)
Definition copy_fault {E F} (image : list Z) (capacity : Z) (cancel : nat → bool) (e : copy_error E F) : Prop :=
  match e with
  | Cancelled => ∃ poll, cancel poll = true
  | ReadingFailed _ | DiskFailed _ => True
  | DoesNotFit _ c => c = capacity ∧ capacity < zlen image
  | NotKept _ _ => False
  end.

Definition total_length (written : list Written) : Z := foldr (λ w total, written_length w + total) 0 written.

Lemma total_length_app l1 l2 : total_length (l1 ++ l2) = total_length l1 + total_length l2.
Proof. unfold total_length. induction l1; cbn; lia. Qed.

Section copy.
Context {S D E F : Type} {source : Source S E} {disk : DiskBlocks D F}.
Context (at_ : list Z → Z → S → Prop) {source_laws : SourceLaws source at_}.
Context (image : list Z) (capacity chunk_bytes : Z) (cancel : nat → bool).
Hypothesis chunk_positive : 0 < chunk_bytes.
Hypothesis capacity_u64 : 0 <= capacity ∧ capacity + chunk_bytes < 2 ^ 64.

Abbreviation fault := (λ (e : copy_error E F) (_ : S * D), copy_fault image capacity cancel e).

(** The chunk of the image at [p]. *)
Definition chunk_at (p : Z) : list Z := take (Z.to_nat chunk_bytes) (drop (Z.to_nat p) image).

Lemma length_chunk_at p : 0 <= p <= zlen image → zlen (chunk_at p) = Z.min chunk_bytes (zlen image - p).
Proof. intros. unfold chunk_at. rewrite length_take, length_drop. lia. Qed.

(** ** Two states *)

Lemma from_source_triple {A} P (m : action S E A) (Q : A → S → Prop) (R : D → Prop) :
  triple P m Q (λ _ _, True) →
  triple (λ sd : S * D, P sd.1 ∧ R sd.2) (from_source m) (λ a sd, Q a sd.1 ∧ R sd.2) fault.
Proof.
  intros Hm [s d] [Hs Hd]. cbn in *. specialize (Hm s Hs). by destruct (m s) as [s' [a|e|]].
Qed.

Lemma to_disk_triple {A} P (m : action D F A) (Q : A → D → Prop) (R : S → Prop) :
  triple P m Q (λ _ _, True) →
  triple (λ sd : S * D, R sd.1 ∧ P sd.2) (to_disk m) (λ a sd, R sd.1 ∧ Q a sd.2) fault.
Proof.
  intros Hm [s d] [Hs Hd]. cbn in *. specialize (Hm d Hd). by destruct (m d) as [d' [a|e|]].
Qed.

(** ** Progress *)

Definition chunk_record (w : Written) : Prop :=
  0 <= written_at w < zlen image ∧ written_at w mod chunk_bytes = 0 ∧
  written_length w = zlen (chunk_at (written_at w)) ∧ written_digest w = digest (chunk_at (written_at w)).

Record progress (c : Copying) : Prop := {
  chunk_room : zlen (chunk c) = chunk_bytes;
  first_room : zlen (first_chunk c) = chunk_bytes;
  reached : 0 <= offset c <= zlen image ∧ offset c <= capacity;
  between_chunks : offset c mod chunk_bytes = 0 ∨ offset c = zlen image;
  first_held : first_length c = Z.min chunk_bytes (offset c) ∧
    take (Z.to_nat (first_length c)) (first_chunk c) = take (Z.to_nat (first_length c)) image;
  records : Forall chunk_record (written c);
  all_recorded : ∀ p, chunk_bytes <= p < offset c → p mod chunk_bytes = 0 →
    is_zero (chunk_at p) = false → Exists (λ w, written_at w = p) (written c);
  counted : image_bytes (summary c) = offset c ∧ verified_bytes (summary c) = 0 ∧
    written_bytes (summary c) = total_length (written c) ∧
    written_bytes (summary c) + skipped_bytes (summary c) = offset c - first_length c }.

Lemma next_chunk p n :
  0 <= p <= zlen image → (p mod chunk_bytes = 0 ∨ p = zlen image) →
  n = Z.min chunk_bytes (zlen image - p) → n ≠ 0 →
  p mod chunk_bytes = 0 ∧ p < zlen image ∧ 0 < n <= chunk_bytes ∧ (p ≠ 0 → chunk_bytes <= p) ∧
  ((p + n) mod chunk_bytes = 0 ∨ p + n = zlen image).
Proof.
  intros Hp Hb -> Hn. destruct Hb as [Hb| ->]; [|lia]. split_and!; try lia.
  - intros. pose proof (Z.div_mod p chunk_bytes). assert (0 < p / chunk_bytes) by nia. nia.
  - destruct (decide (chunk_bytes <= zlen image - p)); [left|right; lia].
    rewrite Z.min_l by lia. replace (p + chunk_bytes) with (p + 1 * chunk_bytes) by lia.
    by rewrite Z.mod_add by lia.
Qed.

(** No chunk starts strictly inside another. *)
Lemma chunk_start_before p n q :
  0 <= p → p mod chunk_bytes = 0 → n <= chunk_bytes → q < p + n → q mod chunk_bytes = 0 → 0 <= q →
  q < p ∨ q = p.
Proof.
  intros. pose proof (Z.div_mod p chunk_bytes). pose proof (Z.div_mod q chunk_bytes).
  destruct (decide (q < p)); [by left|right]. assert (q / chunk_bytes = p / chunk_bytes) by nia. nia.
Qed.

(** Chunks are recorded up to [p + n] if those before [p] are and the one at [p]
    is, or is a hole. *)
Lemma all_recorded_next (recorded recorded' : list Written) p n :
  0 <= p → p mod chunk_bytes = 0 → n <= chunk_bytes →
  (∀ q, chunk_bytes <= q < p → q mod chunk_bytes = 0 → is_zero (chunk_at q) = false →
    Exists (λ w, written_at w = q) recorded) →
  (∀ w, In w recorded → In w recorded') →
  (chunk_bytes <= p → is_zero (chunk_at p) = false → Exists (λ w, written_at w = p) recorded') →
  ∀ q, chunk_bytes <= q < p + n → q mod chunk_bytes = 0 → is_zero (chunk_at q) = false →
    Exists (λ w, written_at w = q) recorded'.
Proof.
  intros Hp Hm Hn Hold Hsub Hnew q Hq Hqm Hz.
  destruct (chunk_start_before p n q) as [Hlt| ->]; [lia..| |apply Hnew; [lia|done]].
  specialize (Hold q ltac:(lia) Hqm Hz). apply Exists_exists in Hold as (w & Hw & Hat).
  apply Exists_exists. exists w. auto.
Qed.

Lemma progress_held c n first :
  progress c → n = Z.min chunk_bytes (zlen image - offset c) → n ≠ 0 → offset c = 0 → n <= capacity →
  zlen first = chunk_bytes → take (Z.to_nat n) first = take (Z.to_nat n) image →
  progress (mk_copying (chunk c) first n (written c) (with_image (offset c + n) (summary c)) (offset c + n)).
Proof.
  intros [H1 H2 H3 H4 [H5 _] H6 H7 H8] Hn H0 Ho Hc Hf Ht.
  destruct (next_chunk _ n (proj1 H3) H4 Hn H0) as (Hm & ? & ? & _ & ?).
  split; cbn [chunk first_chunk first_length written summary offset with_image
    image_bytes written_bytes skipped_bytes verified_bytes]; try done; try lia.
  split; [lia|done].
Qed.

Lemma progress_skipped c n :
  progress c → n = Z.min chunk_bytes (zlen image - offset c) → n ≠ 0 → offset c ≠ 0 →
  offset c + n <= capacity → is_zero (chunk_at (offset c)) = true →
  progress (mk_copying (chunk c) (first_chunk c) (first_length c) (written c)
    (with_skipped n (with_image (offset c + n) (summary c))) (offset c + n)).
Proof.
  intros [H1 H2 H3 H4 [H5 ?] H6 H7 H8] Hn H0 Ho Hc Hz.
  destruct (next_chunk _ n (proj1 H3) H4 Hn H0) as (Hm & ? & ? & Hge & ?). specialize (Hge Ho).
  split; cbn [chunk first_chunk first_length written summary offset with_image with_skipped
    image_bytes written_bytes skipped_bytes verified_bytes]; try done; try lia.
  - split; [lia|done].
  - apply (all_recorded_next (written c)); [lia..|done|done|]. congruence.
Qed.

Lemma progress_written c n :
  progress c → n = Z.min chunk_bytes (zlen image - offset c) → n ≠ 0 → offset c ≠ 0 →
  offset c + n <= capacity →
  progress (mk_copying (chunk c) (first_chunk c) (first_length c)
    (written c ++ [mk_written (offset c) n (digest (chunk_at (offset c)))])
    (with_written n (with_image (offset c + n) (summary c))) (offset c + n)).
Proof.
  intros [H1 H2 H3 H4 [H5 ?] H6 H7 H8] Hn H0 Ho Hc.
  destruct (next_chunk _ n (proj1 H3) H4 Hn H0) as (Hm & ? & ? & Hge & ?). specialize (Hge Ho).
  split; cbn [chunk first_chunk first_length written summary offset with_image with_written
    image_bytes written_bytes skipped_bytes verified_bytes]; try done; try lia.
  - split; [lia|done].
  - apply Forall_app. split; [done|]. constructor; [|constructor]. split_and!; cbn; try done; try lia.
    rewrite length_chunk_at; lia.
  - apply (all_recorded_next (written c)); [lia..|done| |].
    + intros w Hw. apply in_or_app. by left.
    + intros _ _. apply Exists_app. right. by constructor.
  - rewrite total_length_app. cbn. lia.
Qed.

(** ** The loop, for any invariant of the disk *)

Section invariant.
Context (Inv : Z → D → Prop).

Class disk_invariant : Prop := {
  inv_held d : Inv 0 d → Inv (zlen (chunk_at 0)) d;
  inv_skip p d : chunk_bytes <= p < zlen image → p mod chunk_bytes = 0 →
    is_zero (chunk_at p) = true → Inv p d → Inv (p + zlen (chunk_at p)) d;
  inv_write p : chunk_bytes <= p < zlen image → p mod chunk_bytes = 0 →
    triple (Inv p) (write_at p (chunk_at p)) (λ _, Inv (p + zlen (chunk_at p))) (λ _ _, True) }.
Context {inv : disk_invariant}.

Definition copying (c : Copying) (sd : S * D) : Prop :=
  progress c ∧ at_ image (offset c) sd.1 ∧ Inv (offset c) sd.2.

Lemma place_chunk_triple c n rest :
  progress c → n = Z.min chunk_bytes (zlen image - offset c) → n ≠ 0 →
  chunk c = chunk_at (offset c) ++ rest →
  triple (λ sd, at_ image (offset c + n) sd.1 ∧ Inv (offset c) sd.2) (place_chunk capacity c n)
    (λ c' sd, copying c' sd ∧ offset c < offset c') fault.
Proof.
  intros Hp Hn H0 Hc. pose proof Hp as [H1 H2 H3 H4 [H5 _] _ _ _].
  destruct (next_chunk _ n (proj1 H3) H4 Hn H0) as (Hm & ? & ? & Hge & ?).
  pose proof (length_chunk_at (offset c) (proj1 H3)) as Hlen. rewrite <- Hn in Hlen.
  unfold place_chunk. rewrite Z.mod_small by lia. case_if.
  { apply triple_err. intros _ _. cbn. lia. }
  bool_to_prop. rewrite Hc. unfold slice. rewrite get_range_prefix by lia.
  cbn [expect]. intros sd [Hs Hd]. cbn. unfold abind at 1, pure_of at 1. cbn.
  case_if; [|case_if].
  - bool_to_prop. rewrite splice_ok by lia. cbn. rewrite <- Hc. split; [|lia]. split; [|split; [done|]].
    + apply progress_held; try done; try lia.
      { rewrite !length_app, length_take, length_drop. lia. }
      change (take (Z.to_nat 0) (first_chunk c)) with (@nil Z). cbn [app].
      replace (Z.to_nat n) with (length (chunk_at (offset c))) at 1 by lia.
      rewrite take_app_length. unfold chunk_at. rewrite E1, drop_0. cbn in Hn.
      rewrite E1 in Hn. destruct (decide (chunk_bytes <= zlen image)); [f_equal; lia|].
      by rewrite !take_ge by lia.
    + rewrite E1 in *. rewrite <- Hlen. by apply inv_held.
  - bool_to_prop. cbn. split; [|lia]. split; [|split; [done|]].
    + rewrite <- Hc. by apply progress_skipped.
    + rewrite <- Hlen. apply inv_skip; [lia..|done|done].
  - bool_to_prop. rewrite <- Hc.
    pose proof (to_disk_triple _ _ _ (at_ image (offset c + n)) (inv_write (offset c) ltac:(lia) Hm) sd (conj Hs Hd)) as Hw.
    unfold abind. destruct (to_disk _ sd) as [sd' [[]|e|]]; cbn in Hw |- *; [|done..].
    split; [|lia]. destruct Hw as [Hs' Hd']. rewrite Hlen in Hd'. split; [|by split].
    by apply progress_written.
Qed.

Lemma copy_chunks_triple turns poll c :
  capacity < offset c + Z.of_nat turns → 
  triple (copying c) (copy_chunks turns poll cancel capacity c)
    (λ c' sd, copying c' sd ∧ offset c' = zlen image) fault.
Proof.
  revert poll c. induction turns as [|turns IH]; intros poll c Ht sd (Hp & Hs & Hd);
    pose proof Hp as [H1 H2 H3 H4 H5 H6 H7 H8]; [lia|]. cbn [copy_chunks].
  case_if; [cbn; eauto|].
  pose proof (from_source_triple _ _ _ (Inv (offset c))
    (fill_chunk_triple at_ image (offset c) (chunk c) (proj1 H3)) sd (conj Hs Hd)) as Hfill.
  unfold abind at 1. destruct (from_source _ sd) as [sd' [[buffer n]|e|]]; cbn in Hfill |- *; [|done..].
  destruct Hfill as [[[Hn ->] Hs'] Hd']. rewrite H1 in Hn.
  assert (progress (mk_copying (take (Z.to_nat n) (drop (Z.to_nat (offset c)) image) ++ drop (Z.to_nat n) (chunk c))
    (first_chunk c) (first_length c) (written c) (summary c) (offset c))) as Hp'.
  { split; cbn; try done. rewrite length_app, length_take, !length_drop. lia. }
  case_if; bool_to_prop.
  { cbn. subst n. rewrite E1, Z.add_0_r in Hs'. split; [by split|lia]. }
  pose proof (place_chunk_triple _ n (drop (Z.to_nat n) (chunk c)) Hp' Hn E1) as Hplace.
  cbn [chunk offset] in Hplace.
  assert (take (Z.to_nat n) (drop (Z.to_nat (offset c)) image) = chunk_at (offset c)) as Hchunk.
  { unfold chunk_at. destruct (decide (chunk_bytes <= zlen image - offset c)); [f_equal; lia|].
    rewrite !take_ge; rewrite ?length_drop; lia || done. }
  rewrite Hchunk in *. specialize (Hplace eq_refl sd' (conj Hs' Hd')).
  unfold abind. destruct (place_chunk _ _ _ sd') as [sd'' [c'|e|]]; cbn in Hplace |- *; [|done..].
  destruct Hplace as [Hc' Hlt]. apply IH; [lia|done].
Qed.

(** ** The first chunk *)

(** All of the image is on its way to the disk. *)
Record placed (c : Copying) : Prop := {
  placed_room : zlen (chunk c) = chunk_bytes;
  placed_records : Forall chunk_record (written c);
  placed_all : ∀ p, 0 <= p < zlen image → p mod chunk_bytes = 0 → is_zero (chunk_at p) = false →
    Exists (λ w, written_at w = p) (written c);
  placed_counted : image_bytes (summary c) = zlen image ∧ verified_bytes (summary c) = 0 ∧
    written_bytes (summary c) = total_length (written c) ∧
    written_bytes (summary c) + skipped_bytes (summary c) = zlen image }.

Context (Fin : D → Prop).

Class disk_conclusion : Prop := {
  fin_hole d : is_zero (chunk_at 0) = true → Inv (zlen image) d → Fin d;
  fin_write : 0 < zlen image →
    triple (Inv (zlen image)) (write_at 0 (chunk_at 0)) (λ _, Fin) (λ _ _, True);
  fin_flush : triple Fin flush (λ _, Fin) (λ _ _, True) }.
Context {conclusion : disk_conclusion}.

Lemma placed_after c recorded s :
  progress c → offset c = zlen image → (∀ w, In w (written c) → In w recorded) → Forall chunk_record recorded →
  (is_zero (chunk_at 0) = false → Exists (λ w, written_at w = 0) recorded) →
  image_bytes s = zlen image ∧ verified_bytes s = 0 ∧ written_bytes s = total_length recorded ∧
    written_bytes s + skipped_bytes s = zlen image →
  placed (mk_copying (chunk c) (first_chunk c) (first_length c) recorded s (offset c)).
Proof.
  intros [H1 H2 H3 H4 H5 H6 H7 H8] Ho Hsub Hrec H0 Hs. split; cbn; try done.
  intros p Hp Hm Hz. destruct (decide (p = 0)) as [->|Hn]; [by apply H0|].
  assert (chunk_bytes <= p) as Hge.
  { pose proof (Z.div_mod p chunk_bytes). assert (0 < p / chunk_bytes) by nia. nia. }
  specialize (H7 p ltac:(lia) Hm Hz). apply List.Exists_exists in H7 as (w & Hw & Hat).
  apply List.Exists_exists. exists w. auto.
Qed.

Lemma first_is_chunk c :
  progress c → offset c = zlen image →
  first_length c = zlen (chunk_at 0) ∧
  slice (E:=copy_error E F) (first_chunk c) 0 (first_length c) = Ok (chunk_at 0).
Proof.
  intros [H1 H2 H3 H4 [H5 Ht] H6 H7 H8] Ho. pose proof (length_chunk_at 0 ltac:(lia)) as Hl.
  split; [lia|]. unfold slice, get_range. rewrite bool_true3 by lia. rewrite Z.sub_0_r, drop_0, Ht.
  unfold chunk_at. rewrite drop_0. cbn. f_equal.
  destruct (decide (chunk_bytes <= zlen image)); [f_equal; lia|]. by rewrite !take_ge by lia.
Qed.

Lemma place_first_triple c :
  progress c → offset c = zlen image →
  triple (λ sd, Inv (zlen image) sd.2) (place_first c) (λ c' sd, placed c' ∧ Fin sd.2) fault.
Proof.
  intros Hp Ho. pose proof Hp as [H1 H2 H3 H4 [H5 _] H6 H7 (? & ? & ? & ?)].
  destruct (first_is_chunk c Hp Ho) as [Hlen Hslice]. unfold place_first. case_if; bool_to_prop.
  - rewrite Hslice. intros sd Hd. cbn. unfold abind at 1, pure_of at 1. cbn. case_if.
    + cbn. split; [|by apply fin_hole]. apply placed_after; try done; [congruence|]. cbn. lia.
    + pose proof (to_disk_triple _ _ _ (λ _, True) (fin_write ltac:(lia)) sd (conj I Hd)) as Hw.
      unfold abind. destruct (to_disk _ sd) as [sd' [[]|e|]]; cbn in Hw |- *; [|done..].
      split; [|by destruct Hw]. apply placed_after; try done.
      * intros w Hw'. apply in_or_app. by left.
      * apply Forall_app. split; [done|]. constructor; [|constructor].
        split_and!; cbn; try done; lia.
      * intros _. apply Exists_app. right. by constructor.
      * rewrite total_length_app. cbn. lia.
  - assert (zlen image = 0) as Hz by lia. assert (chunk_at 0 = []) as Hnil.
    { apply nil_length_inv. rewrite length_chunk_at in Hlen by lia. pose proof (length_chunk_at 0 ltac:(lia)). lia. }
    intros sd Hd. cbn. split; [|by apply fin_hole; [rewrite Hnil|]].
    assert (c = mk_copying (chunk c) (first_chunk c) (first_length c) (written c) (summary c) (offset c))
      as -> by by destruct c.
    apply placed_after; try done; [by rewrite Hnil|]. split_and!; lia.
Qed.

End invariant.

(** ** Reading back *)

Section verify.
Context (stored : D → Z → Z) {reads : ReadsBack disk stored}.

(** A failure to verify is a chunk whose digest is not the one recorded. *)
Definition unkept (content : Z → Z) (e : copy_error E F) : Prop :=
  match e with
  | NotKept length at_ => 0 <= at_ < zlen image ∧ length = zlen (chunk_at at_) ∧
      digest (fragment content at_ length) ≠ digest (chunk_at at_)
  | _ => copy_fault image capacity cancel e
  end.

Lemma length_fragment content at_' n : zlen (fragment content at_' n) = Z.max 0 n.
Proof. unfold fragment. rewrite length_fmap, length_seqZ. lia. Qed.

Lemma fragment_ext f g at_' n : (∀ i, f i = g i) → fragment f at_' n = fragment g at_' n.
Proof. intros Hfg. unfold fragment. by apply list_fmap_ext. Qed.

Lemma verify_triple content recorded verified buffer :
  zlen buffer = chunk_bytes → Forall chunk_record recorded →
  triple (λ sd : S * D, ∀ i, stored sd.2 i = content i) (verify_loop verified recorded buffer)
    (λ total sd, (∀ i, stored sd.2 i = content i) ∧ total = verified + total_length recorded ∧
       Forall (λ w, digest (fragment content (written_at w) (written_length w)) = written_digest w) recorded)
    (λ e _, unkept content e).
Proof.
  intros Hb Hrec. revert verified buffer Hb.
  induction Hrec as [|w recorded (Hat & Hm & Hlen & Hdig) Hrec IH]; intros verified buffer Hb [s d] Hd; cbn [verify_loop].
  { cbn. split; [done|]. split; [cbn; lia|constructor]. }
  pose proof (length_chunk_at (written_at w) ltac:(lia)) as Hl.
  unfold slice, get_range. rewrite bool_true3 by lia. rewrite Z.sub_0_r, drop_0. cbn [expect]. unfold abind, pure_of. cbn.
  set (target := take (Z.to_nat (written_length w)) buffer). assert (zlen target = written_length w) as Ht by (unfold target; rewrite length_take; lia).
  pose proof (reads_back (written_at w) target d) as Hread.
  destruct (read_at (written_at w) target d) as [d' [back|e|]]; cbn; [|done..].
  destruct Hread as [-> Hd']. rewrite Ht, splice_ok by (rewrite ?length_fragment; lia). cbn.
  rewrite (fragment_ext _ content) by done. case_if; bool_to_prop; cbn.
  - split; [done|]. split; [done|]. congruence.
  - set (back := fragment content (written_at w) (written_length w)).
    assert (zlen back = written_length w) as Hback by (unfold back; rewrite length_fragment; lia).
    assert (zlen (take (Z.to_nat 0) buffer ++ back ++ drop (Z.to_nat 0 + length back) buffer) = chunk_bytes)
      as Hb' by (rewrite !length_app, length_take, length_drop; lia).
    assert (∀ i, stored d' i = content i) as Hc by (intros; by rewrite Hd').
    specialize (IH (verified + written_length w) _ Hb' (s, d') Hc).
    destruct (verify_loop _ _ _ _) as [sd'' [total|e|]]; cbn in IH |- *; [|done..].
    destruct IH as (? & -> & ?). split; [done|]. split; [unfold total_length in *; lia|by constructor].
Qed.

End verify.

(** ** The whole copy *)

(** What a success says of the disk it leaves. *)
Record copied (content : Z → Z) (s : ImportSummary) : Prop := {
  all_read_back : ∀ p, 0 <= p < zlen image → p mod chunk_bytes = 0 → is_zero (chunk_at p) = false →
    digest (fragment content p (zlen (chunk_at p))) = digest (chunk_at p);
  whole_image : image_bytes s = zlen image ∧ zlen image <= capacity;
  all_counted : written_bytes s + skipped_bytes s = image_bytes s ∧ verified_bytes s = written_bytes s }.

Section whole.
Context (stored : D → Z → Z) {reads : ReadsBack disk stored}.
Context (Inv : Z → D → Prop) (Fin : D → Prop) {inv : disk_invariant Inv} {conclusion : disk_conclusion Inv Fin}.

Lemma copy_image_outcome s d :
  at_ image 0 s → Inv 0 d →
  outcome (λ sum sd, copied (stored sd.2) sum ∧ ∃ d', Fin d' ∧ ∀ i, stored sd.2 i = stored d' i)
    (λ e _, copy_fault image capacity cancel e ∨ ∃ d', Fin d' ∧ unkept (stored d') e)
    (copy_image capacity chunk_bytes cancel (s, d)).
Proof.
  intros Hs Hd. unfold copy_image.
  assert (progress (start chunk_bytes)) as Hp.
  { split; cbn; try done; rewrite ?length_replicate; try lia; [left; by apply Z.mod_0_l; lia|].
    split; [lia|done]. }
  pose proof (copy_chunks_triple Inv (Datatypes.S (Z.to_nat capacity)) 0 (start chunk_bytes)
    ltac:(cbn; lia) (s, d) (conj Hp (conj Hs Hd))) as Hloop.
  unfold abind at 1. destruct (copy_chunks _ _ _ _ _ _) as [sd1 [c|e|]]; cbn in Hloop |- *; [|by left|done].
  destruct Hloop as [(Hp1 & _ & Hd1) Ho]. rewrite Ho in Hd1.
  pose proof (place_first_triple Inv Fin c Hp1 Ho sd1 Hd1) as Hfirst.
  unfold abind at 1. destruct (place_first _ _) as [sd2 [c2|e|]]; cbn in Hfirst |- *; [|by left|done].
  destruct Hfirst as [[Hroom Hrec Hall (Hib & Hvb & Hwb & Hsum)] Hd2].
  pose proof (to_disk_triple _ _ _ (λ _, True) (fin_flush Inv Fin) sd2 (conj I Hd2)) as Hflush.
  unfold abind at 1. destruct (to_disk flush sd2) as [sd3 [[]|e|]]; cbn in Hflush |- *; [|by left|done].
  destruct Hflush as [_ Hd3].
  pose proof (verify_triple stored (stored sd3.2) (written c2) 0 (chunk c2) Hroom Hrec sd3 (λ i, eq_refl)) as Hver.
  unfold abind, verify. destruct (verify_loop _ _ _ _) as [sd4 [total|e|]]; cbn in Hver |- *; [|right; eauto|done].
  destruct Hver as (Hsame & -> & Hdig). split; [|eauto]. split; cbn.
  - intros p Hpp Hm Hz. specialize (Hall p Hpp Hm Hz).
    apply List.Exists_exists in Hall as (w & Hw & <-).
    rewrite List.Forall_forall in Hrec, Hdig. destruct (Hrec w Hw) as (_ & _ & Hlen & Hd').
    rewrite <- Hd', <- (Hdig w Hw), <- Hlen. by rewrite (fragment_ext _ (stored sd3.2)).
  - destruct Hp1 as [_ _ [_ ?] _ _ _ _ _]. lia.
  - lia.
Qed.

End whole.
End copy.

(** The byte of [image] at [i], zero where it has none. *)
Definition byte_at (image : list Z) (i : Z) : Z :=
  if 0 <=? i then default 0 (image !! Z.to_nat i) else 0.

Lemma byte_past_end image i : zlen image <= i → byte_at image i = 0.
Proof. intros. unfold byte_at. case_if; [|done]. by rewrite lookup_ge_None_2 by lia. Qed.

(** ** A disk that keeps its writes *)

Section keeping.
Context {S D E F : Type} {source : Source S E} {disk : DiskBlocks D F}.
Context (at_ : list Z → Z → S → Prop) {source_laws : SourceLaws source at_}.
Context (stored : D → Z → Z) (alignment : Z) {keeps : Keeps disk stored alignment}.
Context (image : list Z) (capacity chunk_bytes : Z) (cancel : nat → bool).
Hypothesis chunk_positive : 0 < chunk_bytes.
Hypothesis chunk_aligned : 0 < alignment ∧ chunk_bytes mod alignment = 0.
Hypothesis capacity_u64 : 0 <= capacity ∧ capacity + chunk_bytes < 2 ^ 64.

Local Abbreviation chunk_at := (chunk_at image chunk_bytes).
#[local] Existing Instance keeps_reads.

(** The image's bytes from the second chunk up to [p], zeros elsewhere. *)
Definition holds_to (p : Z) (d : D) : Prop := ∀ i,
  stored d i = if (chunk_bytes <=? i) && (i <? p) then byte_at image i else 0.
Definition holds_image (d : D) : Prop := ∀ i, stored d i = byte_at image i.

Lemma byte_of_chunk p pad i :
  0 <= p → p <= i < p + zlen (chunk_at p ++ replicate pad 0) →
  (zlen (chunk_at p) < chunk_bytes → zlen image <= p + zlen (chunk_at p)) →
  (0 < Z.of_nat pad → zlen (chunk_at p) < chunk_bytes) →
  default 0 ((chunk_at p ++ replicate pad 0) !! Z.to_nat (i - p)) = byte_at image i.
Proof.
  intros Hp Hi Hshort Hpad. rewrite length_app, length_replicate in Hi.
  unfold byte_at. rewrite (proj2 (Z.leb_le 0 i)) by lia.
  destruct (decide (i - p < zlen (chunk_at p))).
  - rewrite lookup_app_l by lia. unfold chunk_at in *. rewrite length_take in *.
    rewrite lookup_take_lt by lia. rewrite lookup_drop. do 2 f_equal. lia.
  - rewrite lookup_app_r by lia. rewrite lookup_replicate_2 by lia.
    by rewrite lookup_ge_None_2 by lia.
Qed.

Lemma no_padding n pad :
  0 <= n <= chunk_bytes → n + Z.of_nat pad <= padded_length n alignment →
  0 < Z.of_nat pad → n < chunk_bytes.
Proof.
  intros Hn Hpad H0. destruct (decide (n = chunk_bytes)) as [->|]; [|lia]. exfalso.
  unfold padded_length, div_ceil in Hpad. destruct chunk_aligned as [Ha Hm].
  pose proof (Z.div_mod chunk_bytes alignment). 
  replace (chunk_bytes + alignment - 1) with (alignment - 1 + chunk_bytes / alignment * alignment) in Hpad by lia.
  rewrite Z.div_add, Z.div_small in Hpad by lia. lia.
Qed.

(** What a chunk written at [p] makes of the disk. *)
Lemma chunk_lands p d d' :
  0 <= p <= zlen image → write_at p (chunk_at p) d = (d', Ok tt) →
  (∀ i, zlen image <= i → stored d i = 0) →
  ∀ i, stored d' i = if (p <=? i) && (i <? p + zlen (chunk_at p)) then byte_at image i else stored d i.
Proof.
  intros Hp Hw Hend i. apply write_lands in Hw as (pad & Hpad & ->).
  pose proof (length_chunk_at image chunk_bytes chunk_positive p Hp) as Hlen.
  pose proof (no_padding (zlen (chunk_at p)) pad ltac:(rewrite Hlen; lia) Hpad) as Hnone.
  unfold overlay. rewrite length_app, length_replicate.
  destruct (_ && _)%bool eqn:E1; [|case_if; [bool_to_prop; lia|done]]. bool_to_prop.
  rewrite byte_of_chunk by (rewrite ?length_app, ?length_replicate; lia).
  case_if; [done|]. assert (zlen image <= i) by (bool_to_prop; lia).
  rewrite Hend by lia. by apply byte_past_end.
Qed.

Lemma hole_bytes p i :
  0 <= p → is_zero (chunk_at p) = true → p <= i < p + zlen (chunk_at p) → byte_at image i = 0.
Proof.
  intros Hp Hz Hi. apply is_zero_iff in Hz.
  rewrite <- (byte_of_chunk p 0) by (cbn; rewrite ?app_nil_r; try lia; unfold chunk_at in *;
    rewrite length_take, length_drop in *; lia).
  cbn [replicate]. rewrite app_nil_r, Hz. rewrite lookup_replicate_2 by lia. done.
Qed.

#[local] Instance keeping_invariant : disk_invariant (F:=F) image chunk_bytes holds_to.
Proof.
  split.
  - intros d Hd i. rewrite (Hd i). pose proof (length_chunk_at image chunk_bytes chunk_positive 0 ltac:(lia)).
    repeat case_if; bool_to_prop; lia || done.
  - intros p d Hp Hm Hz Hd i. rewrite (Hd i). pose proof (hole_bytes p i ltac:(lia) Hz).
    repeat case_if; bool_to_prop; try lia; try done; symmetry; auto with lia.
  - intros p Hp Hm d Hd. destruct (write_at p (chunk_at p) d) as [d' [[]|e|]] eqn:Hw; cbn.
    + assert (∀ i, zlen image <= i → stored d i = 0) as Hend.
      { intros j ?. rewrite (Hd j). case_if; [|done]. by apply byte_past_end. }
      intros i. rewrite (chunk_lands p d d') by (done || lia).
      rewrite (Hd i). repeat case_if; bool_to_prop; lia || done.
    + done.
    + by apply (write_at_no_panic p (chunk_at p) d); rewrite Hw.
Qed.

#[local] Instance keeping_conclusion : disk_conclusion (F:=F) image chunk_bytes holds_to holds_image.
Proof.
  split.
  - intros d Hz Hd i. rewrite (Hd i). pose proof (hole_bytes 0 i ltac:(lia) Hz) as H0.
    pose proof (length_chunk_at image chunk_bytes chunk_positive 0 ltac:(lia)).
    case_if; bool_to_prop; [done| |symmetry; by apply byte_past_end].
    destruct (decide (0 <= i)); [destruct (decide (i < zlen image))|].
    + rewrite H0 by lia. done.
    + symmetry. apply byte_past_end. lia.
    + unfold byte_at. case_if; [bool_to_prop; lia|done].
  - intros Hi d Hd. destruct (write_at 0 (chunk_at 0) d) as [d' [[]|e|]] eqn:Hw; cbn.
    + pose proof (length_chunk_at image chunk_bytes chunk_positive 0 ltac:(lia)).
      assert (∀ i, zlen image <= i → stored d i = 0) as Hend.
      { intros j ?. rewrite (Hd j). case_if; [|done]. by apply byte_past_end. }
      intros i. rewrite (chunk_lands 0 d d') by (done || lia). rewrite (Hd i).
      repeat case_if; bool_to_prop; try done; try lia; try (symmetry; apply byte_past_end; lia);
        unfold byte_at; case_if; bool_to_prop; lia || done.
    + done.
    + by apply (write_at_no_panic 0 (chunk_at 0) d); rewrite Hw.
  - intros d Hd. destruct (flush d) as [d' [[]|e|]] eqn:Hf; cbn.
    + intros i. rewrite (flush_keeps _ _ Hf i). apply Hd.
    + done.
    + by apply (flush_no_panic d); rewrite Hf.
Qed.

Lemma fragment_of_image content p n :
  0 <= p → 0 <= n <= zlen image - p → (∀ i, content i = byte_at image i) →
  fragment content p n = take (Z.to_nat n) (drop (Z.to_nat p) image).
Proof.
  intros Hp Hn Hc. apply list_eq. intros k. unfold fragment. rewrite list_lookup_fmap.
  destruct (decide (Z.of_nat k < n)).
  - rewrite lookup_seqZ_lt by lia. cbn. rewrite Hc, lookup_take_lt, lookup_drop by lia.
    unfold byte_at. rewrite (proj2 (Z.leb_le 0 _)) by lia.
    replace (Z.to_nat (p + Z.of_nat k)) with (Z.to_nat p + k)%nat by lia.
    destruct (lookup_lt_is_Some_2 image (Z.to_nat p + k)) as [b ->]; [lia|done].
  - rewrite lookup_seqZ_ge by lia. cbn. symmetry. apply lookup_ge_None_2. rewrite length_take. lia.
Qed.

Lemma chunk_is_kept content p :
  0 <= p < zlen image → (∀ i, content i = byte_at image i) →
  fragment content p (zlen (chunk_at p)) = chunk_at p.
Proof.
  intros Hp Hc. pose proof (length_chunk_at image chunk_bytes chunk_positive p ltac:(lia)) as Hl.
  rewrite (fragment_of_image content p) by (done || lia).
  unfold chunk_at in *. rewrite Hl.
  destruct (decide (chunk_bytes <= zlen image - p)); [f_equal; lia|].
  by rewrite !take_ge by (rewrite length_drop; lia).
Qed.

(** What copying onto a disk of zeros that keeps its writes comes to. *)
Lemma kept_copy s d :
  at_ image 0 s → (∀ i, stored d i = 0) →
  outcome (λ sum sd, copied image capacity chunk_bytes (stored sd.2) sum ∧ ∀ i, stored sd.2 i = byte_at image i)
    (λ e _, copy_fault image capacity cancel e) (copy_image capacity chunk_bytes cancel (s, d)).
Proof.
  intros Hs Hz.
  assert (holds_to 0 d) as Hd by (intros i; rewrite (Hz i); case_if; bool_to_prop; lia || done).
  pose proof (copy_image_outcome at_ image capacity chunk_bytes cancel chunk_positive capacity_u64
    stored holds_to holds_image s d Hs Hd) as Hout.
  destruct (copy_image _ _ _ _) as [sd [sum|e|]]; cbn in Hout |- *; [| |done].
  - destruct Hout as (Hc & d' & Hd' & Hsame). split; [done|]. intros i. by rewrite Hsame, (Hd' i).
  - destruct Hout as [|(d' & Hd' & He)]; [done|].
    destruct e as [| | | |len q]; try done. destruct He as (Hq & -> & Hne).
    destruct Hne. by rewrite chunk_is_kept.
Qed.

End keeping.

(** ** A disk that may not *)

Section lying.
Context {S D E F : Type} {source : Source S E} {disk : DiskBlocks D F}.
Context (at_ : list Z → Z → S → Prop) {source_laws : SourceLaws source at_}.
Context (stored : D → Z → Z) {reads : ReadsBack disk stored}.
Context (image : list Z) (capacity chunk_bytes : Z) (cancel : nat → bool).

Lemma action_outcome {A} (m : action D F A) d :
  no_panic (m d).2 → outcome (λ _ _, True) (λ _ _, True) (m d).
Proof. by destruct (m d) as [d' [a|e|]]. Qed.

#[local] Instance any_invariant : disk_invariant (F:=F) image chunk_bytes (λ _ _, True).
Proof. split; try done. intros p _ _ d _. apply action_outcome, write_at_no_panic. Qed.

#[local] Instance any_conclusion : disk_conclusion (F:=F) image chunk_bytes (λ _ _, True) (λ _, True).
Proof.
  split; try done.
  - intros _ d _. apply action_outcome, write_at_no_panic.
  - intros d _. apply action_outcome, flush_no_panic.
Qed.

(** A copy that succeeds was read back whole, whatever the disk did with the
    writes: the image fits the disk, and every chunk of it that is not a hole has
    on the disk the digest it has in the image.  Every byte of the image is
    counted as written or as skipped, and every byte written as verified. *)
Theorem a_successful_copy_was_read_back s d sd sum :
  0 < chunk_bytes → 0 <= capacity ∧ capacity + chunk_bytes < 2 ^ 64 → at_ image 0 s →
  copy_image capacity chunk_bytes cancel (s, d) = (sd, Ok sum) →
  copied image capacity chunk_bytes (stored sd.2) sum.
Proof.
  intros Hchunk Hcap Hs Hrun.
  pose proof (copy_image_outcome at_ image capacity chunk_bytes cancel Hchunk Hcap
    stored (λ _ _, True) (λ _, True) s d Hs I) as Hout.
  rewrite Hrun in Hout. by destruct Hout.
Qed.

End lying.

(** ** The order of the writes *)

Section order.
Context {S D E F : Type} {source : Source S E} {disk : DiskBlocks D F}.
Context (cancel : nat → bool) (capacity : Z).

Lemma place_chunk_keeps (P : D → Prop) c n sd :
  (∀ at_ bytes d, 0 < at_ → P d → P (write_at at_ bytes d).1) → 0 <= offset c → P sd.2 →
  P (place_chunk (S:=S) (E:=E) capacity c n sd).1.2 ∧
  ∀ c', (place_chunk (S:=S) (E:=E) capacity c n sd).2 = Ok c' → 0 <= offset c'.
Proof.
  intros HP Ho Hd. assert (0 <= (offset c + n) mod 2 ^ 64) by (apply Z.mod_pos_bound; lia).
  unfold place_chunk, abind, pure_of. case_if; [done|].
  destruct (slice (chunk c) 0 n) as [bytes|e|]; [|done..].
  case_if; [destruct (splice _ _ _); cbn; split; try done; by intros ? [= <-]|].
  case_if; [split; [done|by intros ? [= <-]]|].
  destruct sd as [s d]. cbn. specialize (HP (offset c) bytes d).
  bool_to_prop. specialize (HP ltac:(lia) Hd).
  destruct (write_at (offset c) bytes d) as [d' [[]|e|]]; cbn in *; split; try done. by intros ? [= <-].
Qed.

Lemma from_source_keeps {A} (P : D → Prop) (m : action S E A) sd :
  P sd.2 → P (from_source (D:=D) (F:=F) m sd).1.2.
Proof. destruct sd as [s d]. cbn. by destruct (m s). Qed.

Lemma copy_chunks_keeps (P : D → Prop) turns poll c sd :
  (∀ at_ bytes d, 0 < at_ → P d → P (write_at at_ bytes d).1) → 0 <= offset c → P sd.2 →
  P (copy_chunks turns poll cancel capacity c sd).1.2.
Proof.
  intros HP. revert poll c sd. induction turns as [|turns IH]; intros poll c sd Ho Hd; cbn [copy_chunks]; [done|].
  case_if; [done|]. unfold abind at 1.
  pose proof (from_source_keeps P (fill_chunk (chunk c)) sd Hd) as Hd'.
  destruct (from_source _ sd) as [sd' [[buffer n]|e|]]; cbn in Hd'; [|done..].
  case_if; [done|]. set (c' := mk_copying _ _ _ _ _ _). unfold abind.
  destruct (place_chunk_keeps P c' n sd' HP Ho Hd') as [Hp Ho'].
  destruct (place_chunk _ _ _ sd') as [sd'' [c''|e|]]; cbn in *; [|done..].
  apply IH; auto.
Qed.

(** The chunk that makes the disk look like one goes last: until every other
    chunk of the image has been written -- and, if the copy fails or is cancelled
    before that, to its end -- no write has gone to the start of the disk.
    Anything true of the disk that writes past the start leave true is still true
    when the loop ends, whatever the source and the disk do. *)
Theorem the_first_chunk_goes_last (P : D → Prop) chunk_bytes (s : S) d :
  P d → (∀ at_ bytes d, 0 < at_ → P d → P (write_at at_ bytes d).1) →
  P (copy_chunks (Datatypes.S (Z.to_nat capacity)) 0 cancel capacity (start chunk_bytes) (s, d)).1.2.
Proof. intros Hd HP. by apply copy_chunks_keeps. Qed.

End order.

(** ** An image imported *)

Section import.
Import Qcow2Header Qcow2Image Qcow2Session.
Context {Reader L2Entry : Type} {Q : Qcow Reader L2Entry}.
Context (table_at : Z → Z → list L2Entry) (contents : L2Entry → nat → Compression → list Z).
Context {laws : QcowLaws Q table_at contents}.

(** [impl Read for Qcow2Image]. *)
#[export] Instance image_source : Source (Qcow2Image Reader L2Entry) qcow2_error := read.

Definition image_at (bytes : list Z) (p : Z) (i : Qcow2Image Reader L2Entry) : Prop :=
  ∃ i0, well_formed i0 ∧ bytes = disk table_at contents i0 ∧ at_position table_at contents i0 p i.

#[export] Instance image_source_laws : SourceLaws image_source image_at.
Proof.
  intros bytes p buffer Hp i (i0 & Hwf & -> & Hat).
  pose proof (read_triple table_at contents i0 Hwf p buffer Hp i Hat) as Hread.
  unfold source_read, image_source. destruct (read buffer i) as [i' [[buffer' n]|e|]]; cbn in *; [|done..].
  destruct Hread as [Hserved Hat']. split; [done|]. by exists i0.
Qed.

Context {H W : Type} {raw : RawDrive H W} (stored : H → Z → Z) (pointer : H → Z).
Context {raw_laws : RawDriveLaws raw stored pointer}.

(** C29: Importing an opened image onto a blank disk: the copy ends without a
    panic; if it succeeds every byte of the disk is the byte the image's disk has
    there, and zero past its end, and the image's virtual size was counted as
    read; if it fails it is because the copy was cancelled, a read of the image or
    a call of the drive failed, or the image does not fit -- never because a chunk
    that landed was taken for one that did not. *)
Theorem an_imported_disk_is_the_image bytes reader length capacity i h chunk_bytes cancel :
  Forall is_u8 bytes → length < U64_MAX → 0 < chunk_bytes → chunk_bytes mod SECTOR_ALIGNMENT = 0 →
  capacity + chunk_bytes < 2 ^ 64 → (∀ k, stored h k = 0) →
  open bytes reader length capacity = Ok i →
  match copy_image capacity chunk_bytes cancel (i, open_drive h chunk_bytes) with
  | (sd, Ok sum) =>
      (∀ k, stored (handle sd.2) k = byte_at (disk table_at contents i) k) ∧
      image_bytes sum = image_virtual_size i ∧ written_bytes sum + skipped_bytes sum = image_bytes sum ∧
      verified_bytes sum = written_bytes sum
  | (_, Err e) => copy_fault (disk table_at contents i) capacity cancel e
  | (_, Panic) => False
  end.
Proof.
  intros Hu8 Hlen Hchunk Halign Hcap Hblank Hopen.
  destruct (opened_image table_at contents _ _ _ _ _ Hu8 Hlen Hopen) as (Hwf & Hat & Hfits).
  assert (0 <= capacity) as H0 by (destruct Hwf; lia).
  pose proof (kept_copy image_at (drive_stored stored) SECTOR_ALIGNMENT (disk table_at contents i) capacity
    chunk_bytes cancel Hchunk (conj eq_refl Halign) (conj H0 Hcap) i (open_drive h chunk_bytes)
    ltac:(by exists i) Hblank) as Hcopy.
  destruct (copy_image _ _ _ _) as [sd [sum|e|]]; cbn in Hcopy; [|done..].
  destruct Hcopy as [[_ [Himage _] [Hsum Hver]] Hdisk].
  rewrite <- (length_disk table_at contents i Hwf). done.
Qed.

End import.

(** ** A small import

    A blank drive that keeps its writes, its sectors being a function and its
    pointer a number. *)

Definition small_drive : Type := (Z → Z) * Z.

#[export] Instance small_raw : RawDrive small_drive unit := {
  set_pointer p := λ '(f, _), ((f, p), Ok tt);
  write_file bytes := λ '(f, p), ((overlay f p bytes, p + zlen bytes), Ok (zlen bytes));
  read_file buffer := λ '(f, p), ((f, p + zlen buffer), Ok (fragment f p (zlen buffer), zlen buffer));
  flush_file := λ d, (d, Ok tt) }.

#[export] Instance small_raw_laws : RawDriveLaws small_raw fst snd.
Proof.
  split.
  - intros p [f q] h' [= <-]. done.
  - intros bytes [f p] h' n [= <- <-]. split; [lia|]. intros i. cbn. by rewrite take_ge by lia.
  - intros buffer [f p] h' buffer' n [= <- <- <-].
    assert (length (fragment f p (zlen buffer)) = length buffer) as Hl
      by (unfold fragment; rewrite length_fmap, length_seqZ; lia).
    split_and!; [lia|lia|done| |done]. cbn. by rewrite take_ge by lia.
  - intros [f p] h' [= <-]. done.
  - intros [f p] q bytes. by split_and!.
Qed.

Definition blank : small_drive := (λ _, 0, 0).
#[local] Existing Instances Qcow2Session.small_qcow Qcow2Session.small_laws image_source image_source_laws.

Lemma an_imported_disk_is_the_image_witness :
  match copy_image (E:=Qcow2Header.qcow2_error) (F:=drive_error unit) 4096 4096 (λ _, false)
          (Qcow2Session.opened_small, open_drive blank 4096) with
  | (sd, Ok sum) =>
      (∀ k, (handle sd.2).1 k
        = byte_at (Qcow2Session.disk Qcow2Session.small_table Qcow2Session.small_contents
            Qcow2Session.opened_small) k) ∧
      image_bytes sum = 4096 ∧ written_bytes sum + skipped_bytes sum = image_bytes sum ∧
      verified_bytes sum = written_bytes sum
  | (_, Err e) => copy_fault (Qcow2Session.disk Qcow2Session.small_table Qcow2Session.small_contents
            Qcow2Session.opened_small) 4096 (λ _, false) e
  | (_, Panic) => False
  end.
Proof.
  apply (an_imported_disk_is_the_image Qcow2Session.small_table Qcow2Session.small_contents fst snd
    Qcow2Header.small_image [true; false] 1536); try done.
  apply Qcow2Header.small_image_u8.
Defined.

(** A stream that gives up to three bytes at a time, and a disk that is a function. *)
#[local] Instance dribble : Source (list Z) unit := λ buffer rest,
  let n := Nat.min (Nat.min (length buffer) 3) (length rest) in
  (drop n rest, Ok (take n rest ++ drop n buffer, Z.of_nat n)).

#[local] Instance dribble_laws : SourceLaws dribble (λ bytes p rest, rest = drop (Z.to_nat p) bytes).
Proof.
  intros bytes p buffer Hp rest ->. unfold source_read, dribble. cbn [outcome].
  set (n := Nat.min _ _). assert (length (drop (Z.to_nat p) bytes) = (length bytes - Z.to_nat p)%nat) as Hl
    by apply length_drop.
  split; [|rewrite drop_drop; f_equal; lia].
  destruct (decide (n = 0%nat)) as [Hn|Hn].
  - rewrite Hn. apply served_nothing. destruct buffer; [by right|left].
    unfold n in Hn. rewrite Hl in Hn. cbn [length] in Hn. lia.
  - replace n with (Z.to_nat (Z.of_nat n)) at 1 2 by lia. apply served_some; lia.
Qed.

#[local] Instance page : DiskBlocks (Z → Z) unit := {
  write_at p bytes := λ f, (overlay f p bytes, Ok tt);
  read_at p buffer := λ f, (f, Ok (fragment f p (zlen buffer)));
  flush := λ f, (f, Ok tt) }.

#[local] Instance page_reads : ReadsBack page (λ f, f).
Proof. split; by intros. Qed.

Definition nine_bytes : list Z := [1; 2; 3; 4; 0; 0; 0; 0; 5].

Lemma a_successful_copy_was_read_back_witness :
  copied nine_bytes 16 4
    (copy_image (E:=unit) (F:=unit) 16 4 (λ _, false) (nine_bytes, (λ _, 0))).1.2 (mk_summary 9 5 4 5).
Proof.
  apply (a_successful_copy_was_read_back (λ bytes p rest, rest = drop (Z.to_nat p) bytes) (λ f, f)
    nine_bytes 16 4 (λ _, false) nine_bytes (λ _, 0)); try done.
Defined.

Lemma the_first_chunk_goes_last_witness :
  (copy_chunks (S:=list Z) (E:=unit) (F:=unit) 17 0 (λ _, false) 16 (start 4) (nine_bytes, (λ _, 0))).1.2 0 = 0.
Proof.
  apply (the_first_chunk_goes_last (λ _, false) 16 (λ f, f 0 = 0) 4 nine_bytes (λ _, 0)); [done|].
  intros p bytes f Hp Hf. cbn. unfold overlay. case_if; [bool_to_prop; lia|done].
Defined.
