(* ===== verification/Threads.v ===== *)
(** * Threads that park an answer

    [platform/src/shutdown_workers.rs], [reboot_workers.rs] and
    [force_stop_workers.rs]: each request runs on a thread of its own, which parks
    what it came to, sets a flag as it leaves and is joined by whoever collects
    it.

    A thread is what its closure will come to and how far it has got; threads
    move between any two looks the main thread takes at them, and a [schedule]
    says which.  A lock is held for as long as an operation runs, so operations on
    one registry do not interleave with each other. *)

From stdpp Require Import base option list gmap strings.
From S2P Require Import Prelude.

(** ** A thread *)

(** What a closure comes to: it returns, with something to park or without, or it
    panics. *)
Inductive fate (A : Type) : Type := Returns (parked : option A) | Panics.
Arguments Returns {A} parked.
Arguments Panics {A}.

(** [Working] until the closure is over, [Leaving] until [Finish] is dropped. *)
Inductive phase : Type := Working | Leaving | Gone.

Record Thread (A : Type) : Type := mk_thread {
  will : fate A;
  at_phase : phase;
  outcome : option A;
  finished : bool }.
Arguments mk_thread {A} will at_phase outcome finished.
Arguments will {A} t.
Arguments at_phase {A} t.
Arguments outcome {A} t.
Arguments finished {A} t.

Section thread.
Context {A : Type}.

Definition spawn (f : fate A) : Thread A := mk_thread f Working None false.

(** The closure ends, parking its outcome; then the flag is set, by either exit. *)
Definition advance (t : Thread A) : Thread A :=
  match at_phase t with
  | Working =>
      mk_thread (will t) Leaving (match will t with Returns parked => parked | Panics => outcome t end)
        (finished t)
  | Leaving => mk_thread (will t) Gone (outcome t) true
  | Gone => t
  end.

(** [JoinHandle::join]: the thread is waited for; an error if it panicked. *)
Definition join (t : Thread A) : Thread A * bool :=
  (advance (advance t), match will t with Returns _ => true | Panics => false end).

(** [Option::take] of the parked outcome. *)
Definition take_outcome (t : Thread A) : Thread A * option A :=
  (mk_thread (will t) (at_phase t) None (finished t), outcome t).

(** What the thread parks if it is waited for. *)
Definition product (f : fate A) : option A :=
  match f with Returns parked => parked | Panics => None end.

(** A thread as its spawning and its own steps leave it. *)
Definition honest (t : Thread A) : Prop :=
  match at_phase t with
  | Working => outcome t = None ∧ finished t = false
  | Leaving => outcome t = product (will t) ∧ finished t = false
  | Gone => outcome t = product (will t) ∧ finished t = true
  end.

Lemma spawn_honest f : honest (spawn f).
Proof. done. Qed.

Lemma advance_honest t : honest t → honest (advance t).
Proof. destruct t as [[parked|] [] o b]; cbn; intros; destruct_and?; subst; auto. Qed.

Lemma advance_will t : will (advance t) = will t.
Proof. unfold advance. by destruct (at_phase t). Qed.

Lemma advance_finished t : finished t = true → finished (advance t) = true.
Proof. unfold advance. by destruct (at_phase t). Qed.

Lemma honest_finished t : honest t → finished t = true → outcome t = product (will t).
Proof. unfold honest. destruct (at_phase t); intros; destruct_and?; congruence. Qed.

Lemma join_outcome t : honest t → outcome (join t).1 = product (will t) ∧ at_phase (join t).1 = Gone.
Proof. destruct t as [[parked|] [] o b]; cbn; intros; destruct_and?; subst; auto. Qed.

End thread.

(** ** One worker per machine *)

Definition VmId : Type := Z.

Record Worker (R : Type) : Type := mk_worker { vm_id : VmId; vm_name : string; thread : Thread R }.
Arguments mk_worker {R} vm_id vm_name thread.
Arguments vm_id {R} w.
Arguments vm_name {R} w.
Arguments thread {R} w.

(** The machines whose threads take a step, between each look and the next. *)
Definition schedule : Type := list (list VmId).

Section workers.
(** [R] is what a request comes to, [Result<(), RepositoryError>]; [no_answer] is
    the error made for a thread that ended without one. *)
Context {R : Type} (no_answer : string → R).

Definition move_one (workers : list (Worker R)) (id : VmId) : list (Worker R) :=
  (λ w, if vm_id w =? id then mk_worker (vm_id w) (vm_name w) (advance (thread w)) else w) <$> workers.
Definition move (ids : list VmId) (workers : list (Worker R)) : list (Worker R) :=
  fold_left move_one ids workers.

Record Finished : Type := mk_finished { finished_id : VmId; finished_name : string; result : R }.

Inductive start_refusal : Type := AlreadyUnderWay | ThreadNotStarted.

(** [spawned] is whether the thread could be made. *)
Definition start_worker (workers : list (Worker R)) (id : VmId) (name : string) (request : fate R)
    (spawned : bool) : list (Worker R) * option start_refusal :=
  if existsb (λ w, vm_id w =? id) workers then (workers, Some AlreadyUnderWay)
  else if spawned then (workers ++ [mk_worker id name (spawn request)], None)
  else (workers, Some ThreadNotStarted).

(** Joins the thread, then reads the answer it parked. *)
Definition collect (w : Worker R) : Finished :=
  let '(joined, _) := join (thread w) in
  let '(_, parked) := take_outcome joined in
  mk_finished (vm_id w) (vm_name w) (default (no_answer (vm_name w)) parked).

(** Every turn passes a worker or removes one. *)
Fixpoint take_finished_loop (turns : nat) (moves : schedule) (index : nat) (workers : list (Worker R))
    (taken : list Finished) : list (Worker R) * list Finished :=
  match turns with
  | O => (workers, taken)
  | S turns =>
      let workers := move (default [] (head moves)) workers in
      match workers !! index with
      | None => (workers, taken)
      | Some w =>
          if finished (thread w)
          then take_finished_loop turns (tail moves) index (delete index workers) (taken ++ [collect w])
          else take_finished_loop turns (tail moves) (S index) workers taken
      end
  end.

Definition take_finished (moves : schedule) (workers : list (Worker R)) : list (Worker R) * list Finished :=
  take_finished_loop (length workers) moves 0 workers [].

Definition join_all (workers : list (Worker R)) : list (Worker R) * list Finished :=
  ([], collect <$> workers).

End workers.
Arguments Finished : clear implicits.

(** ** The other two

    [reboot_workers.rs] and [force_stop_workers.rs] are the same registry for other
    requests; a collected reboot is named by its machine's name alone. *)

Module RebootWorkers.
Section reboots.
Context {R : Type} (no_answer : string → R).
Definition start : list (Worker R) → VmId → string → fate R → bool → list (Worker R) * option start_refusal :=
  start_worker.
Definition collect (w : Worker R) : string * R :=
  let finished := Threads.collect no_answer w in (finished_name finished, result finished).
Definition take_finished (moves : schedule) (workers : list (Worker R)) : list (Worker R) * list (string * R) :=
  let '(workers, taken) := Threads.take_finished no_answer moves workers in
  (workers, (λ f, (finished_name f, result f)) <$> taken).
Definition join_all (workers : list (Worker R)) : list (Worker R) * list (string * R) :=
  ([], collect <$> workers).
End reboots.
End RebootWorkers.

Module ForceStopWorkers.
Section force_stops.
Context {R : Type} (no_answer : string → R).
Definition start : list (Worker R) → VmId → string → fate R → bool → list (Worker R) * option start_refusal :=
  start_worker.
Definition collect : Worker R → Finished R := Threads.collect no_answer.
Definition take_finished : schedule → list (Worker R) → list (Worker R) * list (Finished R) :=
  Threads.take_finished no_answer.
Definition join_all : list (Worker R) → list (Worker R) * list (Finished R) := Threads.join_all no_answer.
End force_stops.
End ForceStopWorkers.
