(* ===== verification/ThreadsProps.v ===== *)
(** * Every request is answered once

    The workers of Threads.v over any history of requests, steps of the threads
    and collections. *)

From stdpp Require Import base option list gmap strings.
From S2P Require Import Prelude Threads.

Section workers.
Context {R : Type} (no_answer : string → R).
Abbreviation worker := (Worker R).

(** What a worker will have answered once it is collected. *)
Definition promised (w : worker) : Finished R :=
  mk_finished (vm_id w) (vm_name w) (default (no_answer (vm_name w)) (product (will (thread w)))).

Definition all_honest (workers : list worker) : Prop := Forall (λ w, honest (thread w)) workers.

Lemma collect_promised w : honest (thread w) → collect no_answer w = promised w.
Proof.
  intros [Ho _]%join_outcome. unfold collect, promised.
  destruct (join (thread w)) as [joined ok] eqn:E. cbn in *. by rewrite Ho.
Qed.

(** ** Steps of the threads *)

Definition moved (id : VmId) (w : worker) : worker :=
  if vm_id w =? id then mk_worker (vm_id w) (vm_name w) (advance (thread w)) else w.

Lemma moved_keeps id w :
  vm_id (moved id w) = vm_id w ∧ promised (moved id w) = promised w ∧
  (honest (thread w) → honest (thread (moved id w))) ∧
  (finished (thread w) = true → finished (thread (moved id w)) = true).
Proof.
  unfold moved. case_if; [|done]. unfold promised. cbn. rewrite advance_will.
  split_and!; auto using advance_honest, advance_finished.
Qed.

(** A property of the workers that every step of a thread preserves. *)
Lemma move_invariant (P : list worker → Prop) ids workers :
  (∀ id workers, P workers → P (moved id <$> workers)) → P workers → P (move ids workers).
Proof.
  intros HP. unfold move. revert workers. induction ids as [|id ids IH]; intros workers Hw; cbn; [done|].
  apply IH. by apply (HP id).
Qed.

Lemma move_honest ids (workers : list worker) : all_honest workers → all_honest (move ids workers).
Proof.
  apply (move_invariant all_honest). intros id ws Hw. apply Forall_fmap.
  eapply Forall_impl; [|exact Hw]. intros w Hh. by apply moved_keeps.
Qed.

Lemma move_ids ids (workers : list worker) : vm_id <$> move ids workers = vm_id <$> workers.
Proof.
  apply (move_invariant (λ ws, vm_id <$> ws = vm_id <$> workers)); [|done].
  intros id ws <-. rewrite <- list_fmap_compose. apply list_fmap_ext.
  intros _ w _. apply moved_keeps.
Qed.

Lemma move_promised ids (workers : list worker) : promised <$> move ids workers = promised <$> workers.
Proof.
  apply (move_invariant (λ ws, promised <$> ws = promised <$> workers)); [|done].
  intros id ws <-. rewrite <- list_fmap_compose. apply list_fmap_ext.
  intros _ w _. apply moved_keeps.
Qed.

(** ** Collecting *)

Lemma take_loop_keeps turns moves index workers taken :
  all_honest workers →
  all_honest (take_finished_loop no_answer turns moves index workers taken).1 ∧
  (take_finished_loop no_answer turns moves index workers taken).2
    ++ (promised <$> (take_finished_loop no_answer turns moves index workers taken).1)
  ≡ₚ taken ++ (promised <$> workers) ∧
  (vm_id <$> (take_finished_loop no_answer turns moves index workers taken).1) ⊆+ (vm_id <$> workers).
Proof.
  revert moves index workers taken. induction turns as [|turns IH]; intros moves index workers taken Hh;
    cbn [take_finished_loop]; [done|].
  set (ids := default [] (head moves)). pose proof (move_honest ids _ Hh) as Hh'.
  rewrite <- (move_promised ids workers), <- (move_ids ids workers).
  set (ws := move ids workers) in *. destruct (ws !! index) as [w|] eqn:Hw; [|done].
  pose proof (delete_Permutation _ _ _ Hw) as Hperm.
  assert (honest (thread w)) as Hwh by (by eapply Forall_lookup_1 in Hh').
  case_if; [|by apply IH].
  assert (all_honest (delete index ws)) as Hd.
  { unfold all_honest in *. apply (Permutation_Forall Hperm) in Hh'. by apply Forall_cons_1 in Hh' as [_ ?]. }
  destruct (IH (tail moves) index (delete index ws) (taken ++ [collect no_answer w]) Hd) as (H1 & H2 & H3).
  split; [done|]. split.
  - pose proof (Permutation_map promised Hperm) as Hpp. change (map promised ws) with (promised <$> ws) in Hpp.
    rewrite H2, <- app_assoc, (collect_promised w Hwh), Hpp. done.
  - pose proof (Permutation_map vm_id Hperm) as Hpp. change (map vm_id ws) with (vm_id <$> ws) in Hpp.
    rewrite H3, Hpp. cbn. by apply submseteq_cons.
Qed.

(** What had left when the collection began is collected by it. *)
Lemma take_loop_takes (left_ : VmId → Prop) turns moves index workers taken :
  (∀ i w, workers !! i = Some w → left_ (vm_id w) → (index <= i)%nat ∧ finished (thread w) = true) →
  (length workers <= index + turns)%nat →
  Forall (λ w, ¬ left_ (vm_id w)) (take_finished_loop no_answer turns moves index workers taken).1.
Proof.
  revert moves index workers taken. induction turns as [|turns IH]; intros moves index workers taken Hleft Hlen;
    cbn [take_finished_loop].
  { apply Forall_lookup_2. cbn [fst]. intros i w Hi Hl. apply lookup_lt_Some in Hi as Hlt.
    destruct (Hleft _ _ Hi Hl). lia. }
  set (ids := default [] (head moves)).
  assert (Hleft' : ∀ i w, move ids workers !! i = Some w → left_ (vm_id w) →
    (index <= i)%nat ∧ finished (thread w) = true).
  { apply (move_invariant (λ ws, ∀ i w, ws !! i = Some w → left_ (vm_id w) →
      (index <= i)%nat ∧ finished (thread w) = true)); [|done].
    intros id ws Hws i w. rewrite list_lookup_fmap. destruct (ws !! i) as [w0|] eqn:Hi; intros [= <-] Hl.
    destruct (moved_keeps id w0) as (Hid & _ & _ & Hfin). rewrite Hid in Hl.
    destruct (Hws _ _ Hi Hl). auto. }
  assert (length (move ids workers) = length workers) as Hlen'.
  { rewrite <- (length_fmap vm_id (move ids workers)), move_ids. by rewrite length_fmap. }
  set (ws := move ids workers) in *. destruct (ws !! index) as [w|] eqn:Hw.
  - case_if; apply IH.
    + intros i w' Hi Hl. destruct (decide (i < index)%nat).
      * rewrite list_lookup_delete_lt in Hi by done. by apply (Hleft' i).
      * rewrite list_lookup_delete_ge in Hi by lia. destruct (Hleft' _ _ Hi Hl). split; [lia|done].
    + pose proof (lookup_lt_Some _ _ _ Hw). rewrite length_delete by (by eexists). lia.
    + intros i w' Hi Hl. destruct (Hleft' _ _ Hi Hl). split; [|done].
      destruct (decide (i = index)) as [->|]; [|lia]. congruence.
    + lia.
  - apply Forall_lookup_2. cbn [fst]. intros i w Hi Hl. apply lookup_lt_Some in Hi as Hlt.
    destruct (Hleft' _ _ Hi Hl). apply lookup_ge_None in Hw. lia.
Qed.

(** ** Histories *)

Inductive event : Type :=
| Moved (ids : list VmId)
| Asked (id : VmId) (name : string) (request : fate R) (spawned : bool)
| Collected (moves : schedule).

Record history : Type := mk_history {
  in_flight : list worker; accepted : list (Finished R); collected : list (Finished R) }.

Definition happens (h : history) (e : event) : history :=
  match e with
  | Moved ids => mk_history (move ids (in_flight h)) (accepted h) (collected h)
  | Asked id name request spawned =>
      match start_worker (in_flight h) id name request spawned with
      | (workers, None) => mk_history workers
          (accepted h ++ [mk_finished id name (default (no_answer name) (product request))]) (collected h)
      | (workers, Some _) => mk_history workers (accepted h) (collected h)
      end
  | Collected moves =>
      let '(workers, taken) := take_finished no_answer moves (in_flight h) in
      mk_history workers (accepted h) (collected h ++ taken)
  end.

Definition history_of (events : list event) : history := fold_left happens events (mk_history [] [] []).

Definition accounted (h : history) : Prop :=
  all_honest (in_flight h) ∧ NoDup (vm_id <$> in_flight h) ∧
  collected h ++ (promised <$> in_flight h) ≡ₚ accepted h.

Lemma existsb_vm_id (workers : list worker) id : existsb (λ w, vm_id w =? id) workers = false → id ∉ vm_id <$> workers.
Proof.
  intros He (w & -> & Hw)%list_elem_of_fmap.
  assert (existsb (λ w', vm_id w' =? vm_id w) workers = true) as Ht; [|congruence].
  apply existsb_exists. exists w. split; [by apply list_elem_of_In|apply Z.eqb_refl].
Qed.

Lemma happens_accounted h e : accounted h → accounted (happens h e).
Proof.
  intros (Hh & Hn & Hp). destruct e as [ids|id name request spawned|moves]; cbn.
  - split_and!; cbn; [by apply move_honest|by rewrite move_ids|by rewrite move_promised].
  - unfold start_worker. destruct (existsb _ _) eqn:He; [done|]. destruct spawned; [|done].
    split_and!; cbn.
    + apply Forall_app. split; [done|]. by repeat constructor.
    + rewrite fmap_app. cbn. apply list.NoDup_app. split_and!; [done| |apply NoDup_singleton].
      intros x Hx ->%list_elem_of_singleton. by apply existsb_vm_id in He.
    + rewrite fmap_app, app_assoc, Hp. done.
  - unfold take_finished. destruct (take_loop_keeps (length (in_flight h)) moves 0 (in_flight h) [] Hh) as (H1 & H2 & H3).
    destruct (take_finished_loop _ _ _ _ _ _) as [workers taken]. cbn in *.
    split_and!; cbn; [done| |].
    + apply submseteq_Permutation in H3 as (k & Hk). rewrite Hk in Hn. by apply list.NoDup_app in Hn as (? & _).
    + rewrite <- app_assoc, H2. done.
Qed.

Lemma history_accounted events : accounted (history_of events).
Proof.
  unfold history_of. assert (accounted (mk_history [] [] [])) as H0.
  { split_and!; [constructor|constructor|done]. }
  revert H0. generalize (mk_history [] [] []). induction events as [|e events IH]; intros h Hh; cbn; [done|].
  by apply IH, happens_accounted.
Qed.

(** C19: Every request that was accepted is answered exactly once, with what its
    thread came to -- or with the error that says it came to nothing -- however
    the threads move between the looks taken at them.  At any moment what was
    collected and what waiting for the threads in flight would collect are
    together the requests accepted; no machine has two of them under way; and a
    collection leaves behind no thread that had left when it began. *)
Theorem every_request_is_answered_once events moves :
  let h := history_of events in
  collected h ++ (join_all no_answer (in_flight h)).2 ≡ₚ accepted h ∧
  NoDup (vm_id <$> in_flight h) ∧
  ∀ w w', w ∈ in_flight h → finished (thread w) = true →
    w' ∈ (take_finished no_answer moves (in_flight h)).1 → vm_id w' ≠ vm_id w.
Proof.
  intros h. destruct (history_accounted events) as (Hh & Hn & Hp). fold h in Hh, Hn, Hp.
  split; [|split; [done|]].
  - cbn. rewrite <- Hp. apply Permutation_app_head. apply Permutation_refl'. apply list_fmap_ext.
    intros i w Hw. apply collect_promised. by eapply Forall_lookup_1 in Hh.
  - intros w w' Hw Hfin Hw'.
    pose proof (take_loop_takes (λ id, id = vm_id w) (length (in_flight h)) moves 0 (in_flight h) []) as Ht.
    rewrite Forall_forall in Ht. intros Heq. refine (Ht _ _ w' (proj1 (list_elem_of_In _ _) Hw') Heq); [|lia].
    intros i w1 Hi Hid. split; [lia|]. apply list_elem_of_lookup in Hw as [j Hj].
    assert (i = j) as ->; [|congruence].
    eapply NoDup_lookup; [exact Hn| |]; rewrite list_lookup_fmap, ?Hi, ?Hj; cbn; by rewrite ?Hid.
Qed.

End workers.

Definition no_answer_here (name : string) : option string := Some name.

Definition two_requests : list (event (R:=option string)) :=
  [Asked 1 "dev" (Returns (Some None)) true; Asked 2 "web" Panics true; Asked 1 "dev" Panics true;
   Moved [2; 1; 2]; Collected []; Moved [1]].

Lemma every_request_is_answered_once_witness :
  let h := history_of no_answer_here two_requests in
  accepted h = [mk_finished 1 "dev" None; mk_finished 2 "web" (Some "web")]
  ∧ collected h = [mk_finished 2 "web" (Some "web")] ∧
  collected h ++ (join_all no_answer_here (in_flight h)).2 ≡ₚ accepted h ∧ ¬ 1 ∈ vm_id <$> (take_finished no_answer_here [[1]] (in_flight h)).1.
Proof.
  intros h. destruct (every_request_is_answered_once no_answer_here two_requests [[1]]) as (Hp & _ & Hleft).
  split; [done|]. split; [done|]. split; [exact Hp|]. intros (w' & Heq & Hw')%list_elem_of_fmap.
  assert (∃ w, w ∈ in_flight h ∧ finished (thread w) = true ∧ vm_id w = 1) as (w & Hw & Hf & Hid).
  { eexists. split; [apply list_elem_of_here|]. vm_compute. done. }
  apply (Hleft w w' Hw Hf Hw'). congruence.
Defined.
