(* ===== verification/Registries.v ===== *)
(** * What is under way, by name

    [platform/src/start_registry.rs], [build.rs] and [display_updates.rs]: starts,
    creations and display updates run on threads of their own, listed by the name
    of their machine until they are reaped; what a start or a creation produced
    waits in a queue for the main thread.

    A registry is a map from names to entries, as its [HashMap] is: nothing depends
    on the order an iteration takes, and the model's is the map's. *)

From stdpp Require Import base option list gmap strings.
From S2P Require Import Prelude Threads CoreVm.

(** The names whose threads take a step, between each look and the next. *)
Definition turns_of : Type := list (list string).

Section registry.
(** [P] is what an entry carries besides its thread; [V] is what a thread may
    produce: a [StartedVm] for starts and creations, nothing for updates. *)
Context {P V : Type}.

(** [Start], [Build] and [Update]. *)
Record Entry : Type := mk_entry { payload : P; worker : Thread V }.

(** [StartRegistry], [BuildRegistry] and [DisplayUpdates]; the last has no queue. *)
Record Registry : Type := mk_registry { entries : gmap string Entry; started : list V }.

Definition step_entry (e : Entry) : Entry := mk_entry (payload e) (advance (worker e)).
Definition step_names (names : list string) (es : gmap string Entry) : gmap string Entry :=
  fold_left (λ es name, alter step_entry name es) names es.

(** ** Reaping *)

(** [collect_into]: what the thread parked is moved to the queue. *)
Definition collect_into (queue : list V) (e : Entry) : list V :=
  match (take_outcome (worker e)).2 with Some v => queue ++ [v] | None => queue end.

(** Which entries are flagged, each looked at in turn. *)
Fixpoint flagged (turns : turns_of) (names : list string) (es : gmap string Entry)
    : gmap string Entry * list string :=
  match names with
  | [] => (es, [])
  | name :: names =>
      let es := step_names (default [] (head turns)) es in
      let '(es', done_) := flagged (tail turns) names es in
      match es !! name with
      | Some e => (es', if finished (worker e) then name :: done_ else done_)
      | None => (es', done_)
      end
  end.

(** Each is removed, its outcome moved to the queue and its thread joined. *)
Fixpoint remove_all (names : list string) (r : Registry) : Registry :=
  match names with
  | [] => r
  | name :: names =>
      match entries r !! name with
      | None => remove_all names r
      | Some e => remove_all names (mk_registry (delete name (entries r)) (collect_into (started r) e))
      end
  end.

Definition reap (turns : turns_of) (r : Registry) : Registry :=
  let '(es, done_) := flagged turns ((map_to_list (entries r)).*1) (entries r) in
  remove_all done_ (mk_registry es (started r)).

Definition contains (turns : turns_of) (name : string) (r : Registry) : Registry * bool :=
  let r := reap turns r in
  (r, bool_decide (is_Some (entries r !! name))).

Inductive refusal : Type := AlreadyListed | NoThread | StillUnderWay | NotListed.

(** [StartRegistry::start]: an entry not yet reaped is still listed. *)
Definition start (name : string) (p : P) (f : fate V) (spawned : bool) (r : Registry)
    : Registry * option refusal :=
  if bool_decide (is_Some (entries r !! name)) then (r, Some AlreadyListed)
  else if spawned
  then (mk_registry (<[name := mk_entry p (spawn f)]> (entries r)) (started r), None)
  else (r, Some NoThread).

(** [refuse_if_starting] and [refuse_if_building]. *)
Definition refuse_if_listed (turns : turns_of) (name : string) (r : Registry) : Registry * option refusal :=
  let '(r, listed) := contains turns name r in
  (r, if listed : bool then Some StillUnderWay else None).

Definition take_started (turns : turns_of) (r : Registry) : Registry * list V :=
  let r := reap turns r in
  (mk_registry (entries r) [], started r).

(** [drain]: each entry's outcome is looked for, and then its thread waited for;
    the others' threads go on meanwhile. *)
Fixpoint drain (turns : turns_of) (names : list string) (es : gmap string Entry) (queue : list V) : list V :=
  match names with
  | [] => queue
  | name :: names =>
      let es := step_names (default [] (head turns)) es in
      drain (tail turns) names es
        (match es !! name with Some e => collect_into queue e | None => queue end)
  end.

(** [StartRegistry::join_all]. *)
Definition join_all_starts (turns : turns_of) (r : Registry) : Registry :=
  mk_registry ∅ (drain turns ((map_to_list (entries r)).*1) (entries r) (started r)).

(** [DisplayUpdates::start] reaps before it looks. *)
Definition start_update (turns : turns_of) (name : string) (p : P) (f : fate V) (spawned : bool)
    (r : Registry) : Registry * option refusal :=
  start name p f spawned (reap turns r).

End registry.
Arguments Entry : clear implicits.
Arguments Registry : clear implicits.

(** ** Creations

    [build.rs]: an entry carries the monitor of its build as well as what was
    asked for. *)
Section builds.
Context {Request V : Type} (name_of : Request → string) (first_step : Request → BuildStep).
Abbreviation Builds := (Registry (Request * BuildMonitor) V).

Definition start_build (request : Request) (f : fate V) (spawned : bool) (r : Builds)
    : Builds * option refusal :=
  start (name_of request) (request, monitor_new (first_step request)) f spawned r.

Definition cancel_entry (e : Entry (Request * BuildMonitor) V) : Entry (Request * BuildMonitor) V :=
  mk_entry ((payload e).1, CoreVm.cancel (payload e).2) (worker e).

Definition cancel_build (name : string) (r : Builds) : Builds * option refusal :=
  match entries r !! name with
  | None => (r, Some NotListed)
  | Some e => (mk_registry (<[name := cancel_entry e]> (entries r)) (started r), None)
  end.

Definition cancel_all_and_join (turns : turns_of) (r : Builds) : Builds :=
  let es := cancel_entry <$> entries r in
  mk_registry ∅ (drain turns ((map_to_list es).*1) es (started r)).

End builds.

(** ** What is never lost *)

Section kept.
Context {P V : Type}.
Implicit Types r : Registry P V.

Definition produced (o : option V) : list V := match o with Some v => [v] | None => [] end.

(** What the entries' threads are to produce. *)
Definition expected (es : gmap string (Entry P V)) : list V :=
  map_to_list es ≫= λ '(_, e), produced (product (will (worker e))).

Definition honest_entries (es : gmap string (Entry P V)) : Prop :=
  map_Forall (λ _ e, honest (worker e)) es.

Lemma expected_empty : expected ∅ = [].
Proof. unfold expected. by rewrite map_to_list_empty. Qed.

Lemma expected_insert es name e :
  es !! name = None →
  expected (<[name := e]> es) ≡ₚ produced (product (will (worker e))) ++ expected es.
Proof.
  intros Hn. unfold expected. rewrite map_to_list_insert by done. done.
Qed.

Lemma expected_delete es name e :
  es !! name = Some e →
  expected es ≡ₚ produced (product (will (worker e))) ++ expected (delete name es).
Proof.
  intros He. rewrite <- (insert_id es name e He) at 1. rewrite <- insert_delete_eq.
  apply expected_insert. by rewrite lookup_delete_eq.
Qed.

Lemma expected_alter es name :
  expected (alter step_entry name es) ≡ₚ expected es.
Proof.
  destruct (es !! name) as [e|] eqn:He.
  - rewrite (expected_delete _ name (step_entry e)) by (by rewrite lookup_alter_eq, He).
    rewrite delete_alter_eq, (expected_delete es name e He). cbn. by rewrite advance_will.
  - by rewrite alter_id by (intros ? H; congruence).
Qed.

(** Entries after some steps of their threads. *)
Record later (es es' : gmap string (Entry P V)) : Prop := {
  later_expected : expected es' ≡ₚ expected es;
  later_honest : honest_entries es → honest_entries es';
  later_finished : ∀ name e', es' !! name = Some e' →
    ∃ e, es !! name = Some e ∧ (finished (worker e) = true → finished (worker e') = true) }.

Lemma later_refl es : later es es.
Proof. split; eauto. Qed.

Lemma later_trans es1 es2 es3 : later es1 es2 → later es2 es3 → later es1 es3.
Proof.
  intros [H1 H2 H3] [K1 K2 K3]. split; [by rewrite K1|auto|].
  intros name e3 He3. destruct (K3 _ _ He3) as (e2 & He2 & ?). destruct (H3 _ _ He2) as (e1 & ? & ?). eauto.
Qed.

Lemma step_entry_later es name : later es (alter step_entry name es).
Proof.
  split; [apply expected_alter| |].
  - intros Hh name' e'. rewrite lookup_alter. case_decide; [|apply Hh]. subst.
    destruct (es !! name') as [e|] eqn:He; intros [= <-]. apply advance_honest. by apply (Hh name').
  - intros name' e'. rewrite lookup_alter. case_decide; [|eauto]. subst.
    destruct (es !! name') as [e|]; intros [= <-]. exists e. split; [done|]. apply advance_finished.
Qed.

Lemma step_names_later names es : later es (step_names names es).
Proof.
  unfold step_names. revert es. induction names as [|name names IH]; intros es; cbn; [apply later_refl|].
  eapply later_trans; [apply step_entry_later|apply IH].
Qed.

Lemma flagged_later turns names es :
  later es (flagged turns names es).1 ∧
  ∀ name, name ∈ (flagged turns names es).2 → ∀ e', (flagged turns names es).1 !! name = Some e' →
    finished (worker e') = true.
Proof.
  revert turns es. induction names as [|name names IH]; intros turns es; cbn [flagged].
  { split; [apply later_refl|]. by intros name ?%elem_of_nil. }
  set (es1 := step_names _ es). pose proof (step_names_later (default [] (head turns)) es) as H1. fold es1 in H1.
  destruct (IH (tail turns) es1) as [H2 Hdone]. destruct (flagged (tail turns) names es1) as [es' done_]. cbn in *.
  destruct (es1 !! name) as [e|] eqn:He; cbn; (split; [by eapply later_trans|]); [|done].
  case_if; [|done]. intros name' [->|Hin]%elem_of_cons e' He'; [|by eapply Hdone].
  destruct (later_finished _ _ H2 _ _ He') as (e1 & ? & Hf). simplify_eq. auto.
Qed.

(** What is in the queue and what is to come into it. *)
Definition kept r : list V := started r ++ expected (entries r).

Lemma collect_into_produced queue (e : Entry P V) : collect_into queue e = queue ++ produced (outcome (worker e)).
Proof. unfold collect_into. cbn. destruct (outcome _); cbn; [done|by rewrite app_nil_r]. Qed.

Lemma remove_all_keeps names r :
  honest_entries (entries r) →
  (∀ name e, name ∈ names → entries r !! name = Some e → finished (worker e) = true) →
  kept (remove_all names r) ≡ₚ kept r ∧ honest_entries (entries (remove_all names r)).
Proof.
  revert r. induction names as [|name names IH]; intros r Hh Hf; cbn [remove_all]; [done|].
  destruct (entries r !! name) as [e|] eqn:He.
  - assert (outcome (worker e) = product (will (worker e))) as Ho.
    { apply honest_finished; [by apply (Hh name)|]. eapply Hf; [apply list_elem_of_here|done]. }
    destruct (IH (mk_registry (delete name (entries r)) (collect_into (started r) e))) as [Hk Hh']; cbn.
    { by apply map_Forall_delete. }
    { intros name' e' Hin. rewrite lookup_delete. case_decide; [done|]. apply Hf. by apply list_elem_of_further. }
    split; [|done]. rewrite Hk. unfold kept. cbn [started entries].
    rewrite collect_into_produced, Ho, (expected_delete (entries r) name e He), app_assoc. done.
  - apply IH; [done|]. intros name' e' Hin. apply Hf. by apply list_elem_of_further.
Qed.

Lemma reap_keeps turns r :
  honest_entries (entries r) → kept (reap turns r) ≡ₚ kept r ∧ honest_entries (entries (reap turns r)).
Proof.
  intros Hh. unfold reap. destruct (flagged_later turns ((map_to_list (entries r)).*1) (entries r)) as [Hl Hf].
  destruct (flagged _ _ _) as [es done_]. cbn in *.
  destruct (remove_all_keeps done_ (mk_registry es (started r))) as [Hk Hh'].
  - by apply (later_honest _ _ Hl).
  - intros name e Hin He. by eapply Hf.
  - split; [|done]. rewrite Hk. unfold kept. cbn. by rewrite (later_expected _ _ Hl).
Qed.

(** ** Histories *)

Inductive call : Type :=
| Steps (names : list string)
| Starts (name : string) (p : P) (f : fate V) (spawned : bool)
| Reaps (turns : turns_of)
| Asks (turns : turns_of) (name : string)
| Takes (turns : turns_of).

Record account : Type := mk_account { registry : Registry P V; promises : list V; delivered : list V }.

Definition called (a : account) (c : call) : account :=
  match c with
  | Steps names =>
      mk_account (mk_registry (step_names names (entries (registry a))) (started (registry a)))
        (promises a) (delivered a)
  | Starts name p f spawned =>
      match start name p f spawned (registry a) with
      | (r, None) => mk_account r (promises a ++ produced (product f)) (delivered a)
      | (r, Some _) => mk_account r (promises a) (delivered a)
      end
  | Reaps turns => mk_account (reap turns (registry a)) (promises a) (delivered a)
  | Asks turns name => mk_account (contains turns name (registry a)).1 (promises a) (delivered a)
  | Takes turns =>
      let '(r, vs) := take_started turns (registry a) in mk_account r (promises a) (delivered a ++ vs)
  end.

Definition account_of (calls : list call) : account :=
  fold_left called calls (mk_account (mk_registry ∅ []) [] []).

Definition balanced (a : account) : Prop :=
  honest_entries (entries (registry a)) ∧ delivered a ++ kept (registry a) ≡ₚ promises a.

Lemma called_balanced a c : balanced a → balanced (called a c).
Proof.
  intros [Hh Hb]. destruct c as [names|name p f spawned|turns|turns name|turns]; unfold balanced; cbn.
  - pose proof (step_names_later names (entries (registry a))) as Hl.
    split; [by apply (later_honest _ _ Hl)|]. rewrite <- Hb. unfold kept. cbn. by rewrite (later_expected _ _ Hl).
  - unfold start. case_bool_decide as Hn; [done|]. destruct spawned; [|done]. cbn.
    apply eq_None_not_Some in Hn. split; [apply map_Forall_insert_2; [apply spawn_honest|done]|].
    rewrite <- Hb. unfold kept. cbn. rewrite expected_insert by done. cbn.
    rewrite <- !app_assoc. do 2 apply Permutation_app_head. apply Permutation_app_comm.
  - destruct (reap_keeps turns (registry a) Hh) as [Hk Hh']. split; [done|]. by rewrite Hk.
  - destruct (reap_keeps turns (registry a) Hh) as [Hk Hh']. split; [done|]. by rewrite Hk.
  - destruct (reap_keeps turns (registry a) Hh) as [Hk Hh']. split; [done|].
    rewrite <- Hb, <- Hk. unfold kept. cbn. by rewrite app_assoc.
Qed.

(** What a start or a creation produces is never lost while VMLord runs: at any
    moment the products handed over, those waiting in the queue and those the
    threads under way will produce are together what the accepted requests come
    to, whatever the threads do between the looks taken at them and however many
    of them panic. *)
Theorem nothing_started_is_lost calls :
  let a := account_of calls in
  delivered a ++ started (registry a) ++ expected (entries (registry a)) ≡ₚ promises a.
Proof.
  assert (balanced (mk_account (mk_registry ∅ []) [] [])) as H0.
  { split; [apply map_Forall_empty|]. unfold kept. cbn. by rewrite expected_empty. }
  unfold account_of. revert H0. generalize (mk_account (mk_registry ∅ []) [] []).
  induction calls as [|c calls IH]; intros a Ha; cbn; [apply Ha|]. by apply IH, called_balanced.
Qed.

(** ** Waiting for the starts *)

Lemma drain_still names (es : gmap string (Entry P V)) queue :
  drain [] names es queue
  = queue ++ (names ≫= λ name, match es !! name with Some e => produced (outcome (worker e)) | None => [] end).
Proof.
  revert queue. induction names as [|name names IH]; intros queue; cbn; [by rewrite app_nil_r|].
  rewrite IH. destruct (es !! name) as [e|]; [|done]. by rewrite collect_into_produced, app_assoc.
Qed.

(** Finding.  [join_all] says that it "waits for every start and collects what
    they produced"; it looks for what a start produced before it waits for it.
    A start whose closure is not over when its turn comes is waited for, comes to
    its machine, and the machine is dropped with the entry: the queue is left as
    it was.  What had been parked by then is collected. *)
Theorem join_all_looks_before_it_waits name (p : P) (v : V) queue :
  let running := spawn (Returns (Some v)) in
  started (join_all_starts [] (mk_registry {[name := mk_entry p running]} queue)) = queue ∧
  outcome (join running).1 = Some v ∧
  started (join_all_starts [] (mk_registry {[name := mk_entry p (advance running)]} queue)) = queue ++ [v].
Proof.
  cbn. unfold join_all_starts. rewrite !map_to_list_singleton, !drain_still. cbn.
  rewrite !lookup_singleton_eq. cbn. by rewrite app_nil_r.
Qed.

End kept.
