(* ===== verification/CoreRequest.v ===== *)
(** * CoreRequest: what may be asked for when a VM is created

    crates/core: the request of lib.rs, the provisioning and the validators of
    provisioning.rs, the SSH access of ssh.rs, and the part of a distribution
    profile (distro.rs) that a creation reads.  Text is a list of code points, as
    in ClipboardPath.v; what a rejection says is a constructor.

    [vm_name_accepted] and [username_accepted] say which names are accepted,
    exactly. *)

From stdpp Require Import strings gmap.
From S2P Require Import Prelude ClipboardPath CoreVm CoreGpu CoreDisplay.
#[local] Open Scope Z_scope.
#[local] Open Scope vm_scope.

(** ASCII text, for the literals of the code. *)
Definition text (s : string) : str :=
  map (λ c, Z.of_nat (Ascii.nat_of_ascii c)) (String.list_ascii_of_string s).

(** [char::is_whitespace], the property White_Space; [str::trim] removes a run of
    it at either end, so a string it empties is one of white space alone. *)
Definition is_whitespace (c : Z) : bool :=
  ((9 <=? c) && (c <=? 13)) || one_of [32; 133; 160; 5760; 8232; 8233; 8239; 8287; 12288] c
  || ((8192 <=? c) && (c <=? 8202)).
Definition trims_to_nothing (s : str) : bool := forallb is_whitespace s.

Inductive Rejection : Type :=
| EmptyMedia | EmptyRelease | EmptyPassword | NoLogin | SshWithoutCredential
| EmptyVmName | BadVmName | BadUsername
| EmptySetting (field : string) | ControlInSetting (field : string)
| NoRam | NoDisk | NoCores | ZeroPort.

Definition MAX_USERNAME_LENGTH : Z := 32.
Definition MAX_VM_NAME_LENGTH : Z := 63.

Definition is_ascii_lowercase (c : Z) : bool := (97 <=? c) && (c <=? 122).
Definition is_ascii_digit (c : Z) : bool := (48 <=? c) && (c <=? 57).
Definition hyphen : Z := 45.
Definition underscore : Z := 95.

Definition name_shaped (c : Z) : bool := is_ascii_lowercase c || is_ascii_digit c || (c =? hyphen).

Definition starts_with (s : str) (c : Z) : bool :=
  match s with x :: _ => x =? c | [] => false end.

(** [name.bytes().all(shaped)] is taken over the code points: the bytes of a code
    point that is not ASCII are 128 and above, which no clause of [shaped] has. *)
Definition validate_vm_name (name : str) : result Rejection unit :=
  if trims_to_nothing name then Err EmptyVmName
  else if (MAX_VM_NAME_LENGTH <? str_len name) || starts_with name hyphen
          || ends_with name hyphen || negb (forallb name_shaped name)
  then Err BadVmName
  else Ok tt.

Definition user_shaped (at_start : bool) (c : Z) : bool :=
  if at_start then is_ascii_lowercase c || (c =? underscore)
  else is_ascii_lowercase c || is_ascii_digit c || (c =? underscore) || (c =? hyphen).
Definition users_shaped (username : str) : bool :=
  match username with
  | [] => true
  | c :: rest => user_shaped true c && forallb (user_shaped false) rest
  end.

Definition validate_username (username : str) : result Rejection unit :=
  if bool_decide (username = []) || (MAX_USERNAME_LENGTH <? str_len username)
     || negb (users_shaped username)
  then Err BadUsername
  else Ok tt.

Definition validate_guest_setting (field : string) (value : str) : result Rejection unit :=
  if trims_to_nothing value then Err (EmptySetting field)
  else if existsb is_control value then Err (ControlInSetting field)
  else Ok tt.

(** ** SSH *)

Inductive SshAuthentication : Type := VmlordKey | PasswordLogin.

(** [SshPort], a [NonZeroU16]. *)
Definition SshPort : Type := Z.
Definition DEFAULT_SSH_PORT : SshPort := 22.
Definition port_new (port : Z) : result Rejection SshPort :=
  if port =? 0 then Err ZeroPort else Ok port.
Definition is_port (p : SshPort) : Prop := 1 <= p <= 65535.

Record SshConfig : Type := mk_ssh_config {
  ssh_username : str;
  ssh_port : SshPort;
  authentication : SshAuthentication;
}.

Definition config_validate (c : SshConfig) : result Rejection unit := validate_username (ssh_username c).

Inductive SshAccess : Type := SshDisabled | SshEnabled (deploy_key : bool) (port : SshPort).

(** ** The profile of a distribution *)

Inductive SshUnits : Type :=
| Service (unit : str)
| SocketActivated (socket socket_drop_in service : str).

Record SshDaemon : Type := mk_daemon { units : SshUnits; config_drop_in : str }.

Definition all_units (u : SshUnits) : list str :=
  match u with
  | Service unit => [unit]
  | SocketActivated socket _ service => [socket; service]
  end.

Inductive PackageRefresh : Type := Lists | FullUpgrade.
Inductive KeyboardForm : Type := ShellAssignment | XorgString.
Record KeyboardFile : Type := mk_keyboard_file { keyboard_path : str; form : KeyboardForm; keyboard_template : str }.
Record DesktopFile : Type := mk_desktop_file { desktop_path : str; desktop_template : str }.
Record DesktopSetup : Type := mk_setup { packages : list str; files : list DesktopFile; service_unit : str }.

Record DistroProfile : Type := mk_profile {
  profile_name : str;
  declared_os_release_id : option str;
  releases : list str;
  directory_template : str;
  file_name_template : str;
  checksum_file : str;
  default_user : str;
  admin_group : str;
  profile_ssh : SshDaemon;
  desktops : gmap str DesktopSetup;
  package_refresh : PackageRefresh;
  profile_keyboard : list KeyboardFile;
}.

Definition to_ascii_lowercase (c : Z) : Z := if (65 <=? c) && (c <=? 90) then c + 32 else c.
Definition os_release_id (p : DistroProfile) : str :=
  default (map to_ascii_lowercase (profile_name p)) (declared_os_release_id p).

(** ** The request *)

Record CloudImage : Type := mk_image { profile : DistroProfile; release : str }.

Record Provisioning : Type := mk_provisioning {
  username : str;
  password : option str;
  ssh : SshAccess;
  locale : str;
  keyboard : str;
  timezone : str;
  desktop : DesktopProfile;
}.

Inductive VmSource : Type :=
| LocalMedia (path : str)
| CloudImageSource (image : CloudImage) (provisioning : Provisioning).

Record VmCreateRequest : Type := mk_request {
  name : str;
  source : VmSource;
  ram_mb : Z;
  disk_gb : Z;
  cpu_cores : Z;
  gpu_mode : GpuMode;
  network_mode : NetworkMode;
}.

Definition provisioning_validate (p : Provisioning) : result Rejection unit :=
  let? _ := validate_username (username p) in
  if match password p with Some text => bool_decide (text = []) | None => false end
  then Err EmptyPassword
  else if match password p, ssh p with None, SshDisabled => true | _, _ => false end
  then Err NoLogin
  else if match password p, ssh p with None, SshEnabled false _ => true | _, _ => false end
  then Err SshWithoutCredential
  else
    let? _ := validate_guest_setting "locale" (locale p) in
    let? _ := validate_guest_setting "keyboard layout" (keyboard p) in
    validate_guest_setting "timezone" (timezone p).

Definition ssh_config (p : Provisioning) : option SshConfig :=
  match ssh p with
  | SshDisabled => None
  | SshEnabled true port => Some (mk_ssh_config (username p) port VmlordKey)
  | SshEnabled false port => Some (mk_ssh_config (username p) port PasswordLogin)
  end.

Definition source_validate (s : VmSource) : result Rejection unit :=
  match s with
  | LocalMedia path => if trims_to_nothing path then Err EmptyMedia else Ok tt
  | CloudImageSource image p =>
      if trims_to_nothing (release image) then Err EmptyRelease else provisioning_validate p
  end.

Definition request_validate (r : VmCreateRequest) : result Rejection unit :=
  let? _ := validate_vm_name (name r) in
  let? _ := source_validate (source r) in
  if ram_mb r =? 0 then Err NoRam
  else if disk_gb r =? 0 then Err NoDisk
  else if cpu_cores r =? 0 then Err NoCores
  else Ok tt.

Definition desktop_profile (r : VmCreateRequest) : DesktopProfile :=
  match source r with LocalMedia _ => Headless | CloudImageSource _ p => desktop p end.

Definition advisories (r : VmCreateRequest) : list Advisory :=
  option_list (desktop_resource_advice (desktop_profile r) (cpu_cores r) (ram_mb r))
  ++ (if wants_desktop (desktop_profile r)
         && match source r with
            | CloudImageSource _ p => bool_decide (password p = None)
            | LocalMedia _ => false
            end
      then [DesktopNeedsPassword] else []).

(** ** What is accepted *)

Lemma str_len_ascii s : Forall (λ c, c < 128) s → str_len s = zlen s.
Proof.
  induction 1 as [|c s Hc _ IH]; [done|]. rewrite length_cons, Nat2Z.inj_succ, <- IH.
  change (str_len (c :: s)) with (len_utf8 c + str_len s). unfold len_utf8.
  rewrite (proj2 (Z.ltb_lt _ _) Hc). lia.
Qed.

Definition name_character (c : Z) : Prop := 97 <= c <= 122 ∨ 48 <= c <= 57 ∨ c = hyphen.
Definition user_character (c : Z) : Prop := name_character c ∨ c = underscore.

Lemma name_shaped_spec c : name_shaped c = true ↔ name_character c.
Proof.
  unfold name_shaped, is_ascii_lowercase, is_ascii_digit, name_character.
  rewrite !orb_true_iff, !andb_true_iff, !Z.leb_le, Z.eqb_eq. tauto.
Qed.

Lemma user_shaped_spec c : user_shaped false c = true ↔ user_character c.
Proof.
  unfold user_shaped, is_ascii_lowercase, is_ascii_digit, user_character, name_character.
  rewrite !orb_true_iff, !andb_true_iff, !Z.leb_le, !Z.eqb_eq. tauto.
Qed.

Lemma forallb_spec {A} (f : A → bool) (P : A → Prop) l :
  (∀ x, f x = true ↔ P x) → forallb f l = true ↔ Forall P l.
Proof. intros H. rewrite forallb_forall, Forall_forall. setoid_rewrite H. setoid_rewrite <- list_elem_of_In. done. Qed.

Lemma name_character_ascii c : name_character c → c < 128.
Proof. unfold name_character, hyphen. lia. Qed.
Lemma user_character_ascii c : user_character c → c < 128.
Proof. unfold user_character, name_character, hyphen, underscore. lia. Qed.

Lemma str_len_shaped (P : Z → Prop) s : (∀ c, P c → c < 128) → Forall P s → str_len s = zlen s.
Proof. intros HP Hs. apply str_len_ascii. revert Hs. by apply Forall_impl. Qed.

Lemma name_character_shows c s : name_character c → trims_to_nothing (c :: s) = false.
Proof.
  intros Hc. cbn. apply andb_false_iff. left. unfold is_whitespace.
  apply not_true_iff_false. rewrite !orb_true_iff, !andb_true_iff, !Z.leb_le, one_of_elem, !elem_of_cons, elem_of_nil.
  unfold name_character, hyphen in Hc. lia.
Qed.

Lemma starts_with_head s c : starts_with s c = true ↔ head s = Some c.
Proof. destruct s as [|x s]; cbn; [done|]. rewrite Z.eqb_eq. by split; [intros ->|intros [= ->]]. Qed.

(** The names a VM may have: host names of one label, in lower case. *)
Definition host_label (n : str) : Prop :=
  n ≠ [] ∧ zlen n <= 63 ∧ Forall name_character n ∧ head n ≠ Some hyphen ∧ last n ≠ Some hyphen.

Lemma vm_name_accepted n : validate_vm_name n = Ok tt ↔ host_label n.
Proof.
  unfold validate_vm_name, host_label, MAX_VM_NAME_LENGTH. split.
  - intros H. destruct (trims_to_nothing n) eqn:Hn; [done|].
    destruct (orb _ _) eqn:Hb in H; [done|].
    apply orb_false_iff in Hb as [[[Hl Hh]%orb_false_iff He]%orb_false_iff Hs%negb_false_iff].
    apply (forallb_spec _ _ _ name_shaped_spec) in Hs. apply Z.ltb_ge in Hl.
    rewrite (str_len_shaped _ _ name_character_ascii Hs) in Hl.
    rewrite <- starts_with_head, <- ends_with_last, Hh, He.
    split_and!; [by intros ->|done..].
  - intros (Hn & Hl & Hs & Hh & He). destruct n as [|c n]; [done|].
    rewrite name_character_shows by by inversion Hs.
    rewrite (str_len_shaped _ _ name_character_ascii Hs).
    rewrite (proj2 (Z.ltb_ge _ _) Hl), (proj2 (forallb_spec _ _ _ name_shaped_spec) Hs).
    rewrite (proj1 (not_true_iff_false _) (λ H, Hh (proj1 (starts_with_head _ _) H))).
    by rewrite (proj1 (not_true_iff_false _) (λ H, He (proj1 (ends_with_last _ _) H))).
Qed.

(** The names a user may have. *)
Definition user_name (u : str) : Prop :=
  zlen u <= 32 ∧ Forall user_character u ∧
  ∃ c rest, u = c :: rest ∧ (97 <= c <= 122 ∨ c = underscore).

Lemma users_shaped_spec c rest :
  users_shaped (c :: rest) = true ↔ (97 <= c <= 122 ∨ c = underscore) ∧ Forall user_character rest.
Proof.
  cbn [users_shaped]. rewrite andb_true_iff, (forallb_spec _ _ _ user_shaped_spec).
  unfold user_shaped, is_ascii_lowercase.
  by rewrite orb_true_iff, andb_true_iff, !Z.leb_le, Z.eqb_eq.
Qed.

Lemma first_is_user_character c : 97 <= c <= 122 ∨ c = underscore → user_character c.
Proof. unfold user_character, name_character. tauto. Qed.

Lemma username_accepted u : validate_username u = Ok tt ↔ user_name u.
Proof.
  unfold validate_username, user_name, MAX_USERNAME_LENGTH. split.
  - intros H. destruct (orb _ _) eqn:Hb in H; [done|].
    apply orb_false_iff in Hb as [[Hn Hl]%orb_false_iff Hs%negb_false_iff].
    apply bool_decide_eq_false in Hn. destruct u as [|c rest]; [done|].
    apply users_shaped_spec in Hs as [Hc Hs]. apply Z.ltb_ge in Hl.
    assert (Hall : Forall user_character (c :: rest)) by auto using first_is_user_character.
    rewrite (str_len_shaped _ _ user_character_ascii Hall) in Hl. eauto 6.
  - intros (Hl & Hs & c & rest & -> & Hc).
    rewrite (str_len_shaped _ _ user_character_ascii Hs), (proj2 (Z.ltb_ge _ _) Hl).
    rewrite (proj2 (users_shaped_spec c rest)) by (split; [done|by inversion Hs]).
    by rewrite bool_decide_eq_false_2.
Qed.

(** ** What a validated request promises *)

Lemma provisioning_inv p :
  provisioning_validate p = Ok tt →
  validate_username (username p) = Ok tt ∧ password p ≠ Some [] ∧
  (password p = None → ∃ port, ssh p = SshEnabled true port).
Proof.
  unfold provisioning_validate. intros H. rbind_inv.
  match goal with Hu : validate_username _ = Ok ?u |- _ => destruct u end.
  split; [done|]. destruct (password p) as [text|] eqn:Hp.
  - split; [|done]. destruct (decide (text = [])) as [->|Hne]; [done|by intros [= ->]].
  - split; [done|]. intros _. destruct (ssh p) as [|[] port]; [done|eauto|done].
Qed.

Lemma request_inv r :
  request_validate r = Ok tt →
  host_label (name r) ∧ source_validate (source r) = Ok tt ∧
  ram_mb r ≠ 0 ∧ disk_gb r ≠ 0 ∧ cpu_cores r ≠ 0.
Proof.
  unfold request_validate. intros H. rbind_inv.
  repeat match goal with u : () |- _ => destruct u end. case_ifs.
  by rewrite <- vm_name_accepted.
Qed.

(** The way in that is recorded with a VM is one that is there: a key that is
    deployed, or a password that is set. *)
Lemma recorded_login_exists p c :
  provisioning_validate p = Ok tt → ssh_config p = Some c →
  config_validate c = Ok tt ∧ ssh_username c = username p ∧
  match authentication c with
  | VmlordKey => ∃ port, ssh p = SshEnabled true port
  | PasswordLogin => ∃ w, password p = Some w ∧ w ≠ []
  end.
Proof.
  intros (Hu & Hw & Hk)%provisioning_inv Hc. unfold ssh_config in Hc.
  destruct (ssh p) as [|[] port] eqn:Hs; [done| |]; injection Hc as <-.
  - split_and!; [done..|]. cbn. eauto.
  - split_and!; [done..|]. cbn. destruct (password p) as [w|].
    + exists w. split; [done|]. by intros ->.
    + by destruct (Hk eq_refl).
Qed.
