(* ===== verification/Layout.v ===== *)
(** * Layout: where the files of a VM are

    crates/platform/src/layout.rs.  A path is the list of its components.  The
    name of a VM becomes the name of its directory: [vm_directory_is_a_child]
    says that an accepted one cannot leave the storage root, and
    [validated_names_are_directories] that every name a request may carry is
    accepted.  [cache_is_a_vm_name] shows the one directory of the storage root
    that is not a VM's and whose name a VM may have. *)

From stdpp Require Import strings sets.
From S2P Require Import Prelude ClipboardPath CoreVm CoreRequest.
#[local] Open Scope Z_scope.

Abbreviation path := (list str).

(** ** The components of a Windows path *)

Inductive Component : Type := CurDir | ParentDir | Normal (name : str).

Definition is_separator (c : Z) : bool := (c =? slash) || (c =? backslash).
Definition is_ascii_letter (c : Z) : bool := is_ascii_lowercase (to_ascii_lowercase c).
Definition has_drive (s : str) : bool :=
  match s with letter :: second :: _ => is_ascii_letter letter && (second =? colon) | _ => false end.
Definition starts_with_separator (s : str) : bool :=
  match s with c :: _ => is_separator c | [] => false end.

(** One part between separators: an empty one is passed over, and so is a dot
    that is not the first. *)
Definition component_of (at_start : bool) (part : str) : option Component :=
  if str_eqb part [] then None
  else if str_eqb part [dot] then if at_start then Some CurDir else None
  else if str_eqb part [dot; dot] then Some ParentDir
  else Some (Normal part).

(** [Path::components] of a path that starts at no drive, share or root; a path
    that does has a component of another kind in front. *)
Definition relative_components (s : str) : option (list Component) :=
  if starts_with_separator s || has_drive s then None
  else
    match windows_components s with
    | [] => Some []
    | first :: rest =>
        Some (option_list (component_of true first) ++ omap (component_of false) rest)
    end.

Inductive LayoutError : Type := NotADirectoryName.

Definition vm_directory (storage_root : path) (vm_name : str) : result LayoutError path :=
  match relative_components vm_name with
  | Some [Normal component] =>
      if str_eqb component vm_name then Ok (storage_root ++ [component]) else Err NotADirectoryName
  | _ => Err NotADirectoryName
  end.

(** ** The files of one VM *)

Definition child (directory : path) (file : string) : path := directory ++ [text file].

Definition CONFIGURATION_FILE_NAME : string := "config.json".
Definition configuration_path (d : path) : path := child d CONFIGURATION_FILE_NAME.
Definition payload_cache_root (root : path) : path := child root "cache".
Definition gpu_payload_cache_root (root : path) : path := child root "cache".
Definition disk_directory (d : path) : path := child d "disks".
Definition system_disk_path (d : path) : path := child (disk_directory d) "system.vhdx".
Definition guest_state_path (d : path) : path := child d "vm.vmgs".
Definition runtime_state_path (d : path) : path := child d "vm.vmrs".
Definition seed_path (d : path) : path := child d "seed.iso".
Definition tools_path (d : path) : path := child d "tools.iso".
Definition agent_secret_path (d : path) : path := child d "agent.secret".
Definition ssh_keys_directory (d : path) : path := child d "keys".
Definition ssh_key_path (d : path) : path := child (ssh_keys_directory d) "id_ed25519".
Definition ssh_public_key_path (d : path) : path := child (ssh_keys_directory d) "id_ed25519.pub".
Definition ssh_known_hosts_path (d : path) : path := child d "known_hosts".
Definition ssh_sessions_directory (d : path) : path := child d "ssh-sessions".
Definition com1_log_path (d : path) : path := child d "com1.log".
Definition cloud_init_status_log_path (d : path) : path := child d "cloud-init-status.log".

(** [repository.rs] keeps the mapping document beside the directories. *)
Definition MAPPING_FILE_NAME : string := "vm-mapping.json".
Definition mapping_path (root : path) : path := child root MAPPING_FILE_NAME.

(** ** Being under a directory *)

(** Whether [p] is [root] or lies under it: [starts_with], component by
    component. *)
Definition under (root p : path) : bool := bool_decide (take (length root) p = root).

Lemma under_spec root p : under root p = true ↔ ∃ rest, p = root ++ rest.
Proof.
  unfold under. rewrite bool_decide_eq_true. split.
  - intros H. exists (drop (length root) p). rewrite <- H at 1. by rewrite take_drop.
  - intros [rest ->]. by rewrite take_app_length.
Qed.

Lemma under_refl p : under p p = true.
Proof. apply under_spec. exists []. by rewrite app_nil_r. Qed.

Lemma under_app root rest : under root (root ++ rest) = true.
Proof. apply under_spec. eauto. Qed.

Lemma under_child d f : under d (child d f) = true.
Proof. apply under_app. Qed.

Lemma under_grandchild d f g : under d (child (child d f) g) = true.
Proof. unfold child. rewrite <- app_assoc. apply under_app. Qed.

Lemma under_trans a b c : under a b = true → under b c = true → under a c = true.
Proof.
  rewrite !under_spec. intros [x ->] [y ->]. exists (x ++ y). by rewrite app_assoc.
Qed.

Lemma siblings_apart root a b p :
  a ≠ b → under (root ++ [a]) p = true → under (root ++ [b]) p = false.
Proof.
  intros Hab. rewrite <- not_true_iff_false, !under_spec.
  intros [x ->] [y Hy]. rewrite <- !app_assoc in Hy. by simplify_list_eq.
Qed.

(** ** Names and directories *)

(** A name that is one plain component. *)
Definition plain_name (n : str) : Prop :=
  n ≠ [] ∧ n ≠ [dot] ∧ n ≠ [dot; dot] ∧ (slash ∉ n) ∧ (backslash ∉ n) ∧ has_drive n = false.

Lemma str_eqb_spec a b : str_eqb a b = true ↔ a = b.
Proof. unfold str_eqb. apply bool_decide_eq_true. Qed.

Lemma component_of_normal b part n :
  component_of b part = Some (Normal n) → n = part ∧ n ≠ [] ∧ n ≠ [dot] ∧ n ≠ [dot; dot].
Proof.
  unfold component_of, str_eqb. intros H.
  repeat case_bool_decide; [done|by destruct b|done|by injection H as <-].
Qed.

Lemma windows_components_parts s part c :
  part ∈ windows_components s → c ∈ part → c ≠ slash ∧ c ≠ backslash ∧ c ∈ s.
Proof.
  unfold windows_components. rewrite list_elem_of_In, in_concat.
  intros (l & (q & <- & Hq)%in_map_iff & Hp) Hc. rewrite <- list_elem_of_In in Hq, Hp.
  pose proof (split_parts _ _ _ _ Hp Hc) as [? Hcq].
  pose proof (split_parts _ _ _ _ Hq Hcq) as [? ?]. done.
Qed.

Lemma normal_component_part s n :
  relative_components s = Some [Normal n] →
  starts_with_separator s = false ∧ has_drive s = false ∧ n ∈ windows_components s ∧
  n ≠ [] ∧ n ≠ [dot] ∧ n ≠ [dot; dot].
Proof.
  unfold relative_components. intros H. destruct (orb _ _) eqn:Hb in H; [done|].
  apply orb_false_iff in Hb as [-> ->].
  destruct (windows_components s) as [|first rest] eqn:Hw; [done|]. injection H as H.
  rewrite elem_of_cons. destruct (component_of true first) as [c|] eqn:Hf; cbn in H.
  - injection H as -> _. apply component_of_normal in Hf. naive_solver.
  - assert (Hin : Normal n ∈ omap (component_of false) rest) by (rewrite H; set_solver).
    apply list_elem_of_omap in Hin as (x & Hx & Hin). apply component_of_normal in Hin. naive_solver.
Qed.

Lemma vm_directory_inv root n d :
  vm_directory root n = Ok d → d = root ++ [n] ∧ plain_name n.
Proof.
  unfold vm_directory. intros H.
  destruct (relative_components n) as [[|[| |m] [|]]|] eqn:Hc; try done.
  destruct (str_eqb m n) eqn:He; [|done]. apply str_eqb_spec in He as ->. injection H as <-.
  apply normal_component_part in Hc as (Hs & Hd & Hin & Hn). split; [done|]. unfold plain_name.
  destruct Hn as (? & ? & ?). split_and!; try done; intros Hc;
    by apply (windows_components_parts _ _ _ Hin) in Hc as (? & ? & _).
Qed.

Lemma split_single s : slash ∉ s → backslash ∉ s → windows_components s = [s].
Proof. intros. unfold windows_components. rewrite split_absent by done. cbn. by rewrite split_absent. Qed.

Lemma vm_directory_of_plain root n : plain_name n → vm_directory root n = Ok (root ++ [n]).
Proof.
  intros (Hn & Hd & Hp & Hs & Hb & Hv). unfold vm_directory, relative_components.
  rewrite Hv, (split_single n) by done.
  assert (starts_with_separator n = false) as ->.
  { destruct n as [|c n]; [done|]. cbn. unfold is_separator. apply not_elem_of_cons in Hs as [? _], Hb as [? _].
    by rewrite (proj2 (Z.eqb_neq c slash)), (proj2 (Z.eqb_neq c backslash)) by congruence. }
  cbn. unfold component_of, str_eqb. rewrite !bool_decide_eq_false_2 by done. cbn.
  by rewrite bool_decide_eq_true_2.
Qed.

Lemma host_label_plain n : host_label n → plain_name n.
Proof.
  intros (Hn & _ & Hs & Hh & _). rewrite list.Forall_forall in Hs. unfold name_character, hyphen in Hs.
  unfold plain_name, dot, slash, backslash in *. split_and!; [done| | | | |].
  - intros ->. specialize (Hs 46 ltac:(set_solver)). lia.
  - intros ->. specialize (Hs 46 ltac:(set_solver)). lia.
  - intros H%Hs. lia.
  - intros H%Hs. lia.
  - destruct n as [|a [|b n]]; try done. cbn. apply andb_false_iff. right.
    specialize (Hs b ltac:(set_solver)). apply Z.eqb_neq. unfold colon. lia.
Qed.

(** The directory of a VM whose name a request may carry. *)
Lemma validated_names_are_directories root n :
  validate_vm_name n = Ok tt → vm_directory root n = Ok (root ++ [n]).
Proof. rewrite vm_name_accepted. auto using vm_directory_of_plain, host_label_plain. Qed.

(** No VM's directory is the mapping document, or holds it. *)
Lemma mapping_is_outside root n : validate_vm_name n = Ok tt → under (root ++ [n]) (mapping_path root) = false.
Proof.
  rewrite vm_name_accepted. intros (_ & _ & Hs & _).
  apply (siblings_apart root (text MAPPING_FILE_NAME)); [|apply under_refl].
  intros <-. rewrite list.Forall_forall in Hs. specialize (Hs dot ltac:(vm_compute; set_solver)).
  unfold name_character, dot, hyphen in Hs. lia.
Qed.

(** The payload cache all VMs share is a directory a VM may be given. *)
Lemma cache_is_a_vm_name root :
  validate_vm_name (text "cache") = Ok tt ∧
  vm_directory root (text "cache") = Ok (payload_cache_root root).
Proof. split; [reflexivity|]. apply validated_names_are_directories. reflexivity. Qed.
