(* ===== verification/HostFiles.v ===== *)
(** * HostFiles: the host a VM is made on

    What the pipelines of crates/platform change: the files under the storage
    root, the compute systems the Host Compute Service knows and the endpoints of
    VMLord's network.  The calls of [std::fs] are defined here.  How each goes is
    drawn from a list of fates: it works, or it fails having got part of the way.

    [touches files systems endpoints w w'] bounds what happened between two
    worlds; an operation that [stays] within a footprint does so whatever its
    outcome, a panic included. *)

From stdpp Require Import strings gmap list.
From S2P Require Import Prelude Stateful ClipboardPath CoreVm CoreRequest Layout.
#[local] Open Scope Z_scope.

(** How a call goes.  One that fails may have made some of its directories,
    written some of its text, or removed some of its files: [reached] says how
    many, and [spared] which files it left. *)
Inductive fate : Type := Works | Fails (reached : nat) (spared : path → bool).

(** A directory has no text. *)
Abbreviation node := (option str).

Record World : Type := mk_world {
  files : gmap path node;
  systems : gset str;
  endpoints : gset Z;
  fates : list fate;
  cancel_after : option nat;
  reported : list BuildStep;
}.

Definition set_files (f : gmap path node → gmap path node) (w : World) : World :=
  mk_world (f (files w)) (systems w) (endpoints w) (fates w) (cancel_after w) (reported w).
Definition set_systems (f : gset str → gset str) (w : World) : World :=
  mk_world (files w) (f (systems w)) (endpoints w) (fates w) (cancel_after w) (reported w).
Definition set_endpoints (f : gset Z → gset Z) (w : World) : World :=
  mk_world (files w) (systems w) (f (endpoints w)) (fates w) (cancel_after w) (reported w).

(** ** Failures *)

(** [RepositoryError], by what it is about.  [ByHost] is a refusal of Windows,
    with its code. *)
#[warnings="-register-all"]
Inductive Failure : Type :=
| Invalid (r : Rejection)
| NameTaken | DirectoryTaken | BadDirectoryName
| Io (operation : string) (p : path)
| Unparsable | Unserializable | InvalidMapping (r : Failure) | EmptyName | EmptySystemId
| SystemIdTaken (id : str)
| NoMapping
| ByHost (code : Z)
| UnsupportedMode
| MediaGone
| KeyExists
| CancelledBuild
| NoAddress | NoSystem | BadConfiguration | MissingInConfiguration (p : list str)
| Combined (operation : string) (failures : list Failure)
| WithCleanup (cause cleanup : Failure).

Abbreviation act := (action World Failure).

Definition fail {A} (e : Failure) : act A := pure_of (Err e).
Definition ret {A} (a : A) : act A := pure_of (Ok a).

(** What an operation that cannot fail the caller came to. *)
Definition attempt {A} (m : act A) : act (result Failure A) := λ w,
  match m w with
  | (w', Panic) => (w', Panic)
  | (w', r) => (w', Ok r)
  end.

(** What an operation came to, whatever its failures are. *)
Definition try_it {S E F A} (m : action S E A) : action S F (result E A) := λ s,
  match m s with
  | (s', Panic) => (s', Panic)
  | (s', r) => (s', Ok r)
  end.
(** What cannot fail. *)
Definition infallible {S E A} (f : S → S * A) : action S E A := λ s, let '(s', a) := f s in (s', Ok a).
Definition map_failure {S E F A} (f : E → F) (m : action S E A) : action S F A := λ s,
  let '(s', r) := m s in (s', map_err f r).

(** ** The file system *)

Definition next_fate {E} : action World E fate := λ w,
  match fates w with
  | [] => (w, Ok Works)
  | f :: rest => (mk_world (files w) (systems w) (endpoints w) rest (cancel_after w) (reported w), Ok f)
  end.

(** [Path::exists], where the metadata can be read: of a path whose metadata cannot
    be, it answers that there is none, and this does not. *)
Definition path_exists (p : path) : act bool := gets (λ w, is_some (files w !! p)).
Definition is_file (p : path) : act bool :=
  gets (λ w, match files w !! p with Some (Some _) => true | _ => false end).

(** The directories on the way to [p], [p] included, outermost first. *)
Definition ways_to (p : path) : list path := (λ n, take n p) <$> (seq 0 (S (length p))).

(** A file in the way ends the walk. *)
Fixpoint make_directories (todo : list path) (fs : gmap path node) : gmap path node :=
  match todo with
  | [] => fs
  | p :: rest =>
      match fs !! p with
      | None => make_directories rest (<[p := None]> fs)
      | Some None => make_directories rest fs
      | Some (Some _) => fs
      end
  end.
Definition is_directory (fs : gmap path node) (p : path) : bool :=
  match fs !! p with Some None => true | _ => false end.

Definition create_dir_all (p : path) : act unit :=
  let^ f := next_fate in
  let todo := match f with Works => ways_to p | Fails reached _ => take reached (ways_to p) end in
  let^ _ := modify (set_files (make_directories todo)) in
  let^ made := gets (λ w, forallb (is_directory (files w)) (ways_to p)) in
  match f, made with Works, true => ret tt | _, _ => fail (Io "create directory" p) end.

Definition parent (p : path) : path := take (length p - 1) p.
Definition writable (fs : gmap path node) (p : path) : bool :=
  is_directory fs (parent p) && negb (is_directory fs p).

(** [fs::write]: the file is opened, and emptied, before anything is written. *)
Definition write_file (operation : string) (p : path) (contents : str) : act unit :=
  let^ f := next_fate in
  let^ ok := gets (λ w, writable (files w) p) in
  match ok, f with
  | true, Works => modify (set_files <[p := Some contents]>)
  | true, Fails (S written) _ =>
      let^ _ := modify (set_files <[p := Some (take written contents)]>) in fail (Io operation p)
  | _, _ => fail (Io operation p)
  end.

(** [fs::read_to_string], where [None] is [ErrorKind::NotFound]. *)
Definition read_to_string (operation : string) (p : path) : act (option str) :=
  let^ f := next_fate in
  let^ found := gets (λ w, files w !! p) in
  match f, found with
  | Works, Some (Some contents) => ret (Some contents)
  | Works, None => ret None
  | _, _ => fail (Io operation p)
  end.

Definition remove_file (p : path) : act unit :=
  let^ f := next_fate in
  let^ found := is_file p in
  match f, found with
  | Works, true => modify (set_files (delete p))
  | _, _ => fail (Io "remove file" p)
  end.

Definition remove_dir_all (p : path) : act unit :=
  let^ f := next_fate in
  let^ found := gets (λ w, is_directory (files w) p) in
  match f, found with
  | Works, true => modify (set_files (filter (λ kv, under p kv.1 = false)))
  | Fails _ spared, true =>
      let^ _ := modify (set_files (filter (λ kv, under p kv.1 && negb (spared kv.1) = false))) in
      fail (Io "remove directory" p)
  | _, false => fail (Io "remove directory" p)
  end.

(** ** The build monitor *)

(** The flag is set by another thread: [cancel_after] says at which look the
    build finds it set.  Once found, it stays. *)
Definition is_cancelled {E} : action World E bool := λ w,
  match cancel_after w with
  | None => (w, Ok false)
  | Some O => (w, Ok true)
  | Some (S n) =>
      (mk_world (files w) (systems w) (endpoints w) (fates w) (Some n) (reported w), Ok false)
  end.
Definition check_build_cancelled : act unit :=
  let^ c := is_cancelled in if c : bool then fail CancelledBuild else ret tt.
Definition report (step : BuildStep) : act unit :=
  modify (λ w, mk_world (files w) (systems w) (endpoints w) (fates w) (cancel_after w) (reported w ++ [step])).

(** ** Footprints *)

Record touches (P : path → Prop) (ids : str → Prop) (eps : Z → Prop) (w w' : World) : Prop := {
  touched_files : ∀ p, ¬ P p → files w' !! p = files w !! p;
  touched_systems : ∀ id, ¬ ids id → (id ∈ systems w' ↔ id ∈ systems w);
  touched_endpoints : ∀ e, ¬ eps e → (e ∈ endpoints w' ↔ e ∈ endpoints w);
}.

Definition nobody {A} (_ : A) : Prop := False.
Definition stays {E A} (P : path → Prop) (ids : str → Prop) (eps : Z → Prop) (m : action World E A) : Prop :=
  ∀ w, touches P ids eps w (m w).1.

Section footprints.
Context {P : path → Prop} {ids : str → Prop} {eps : Z → Prop}.

Lemma touches_refl w : touches P ids eps w w.
Proof. by constructor. Qed.

Lemma touches_trans w1 w2 w3 : touches P ids eps w1 w2 → touches P ids eps w2 w3 → touches P ids eps w1 w3.
Proof.
  intros [F1 S1 E1] [F2 S2 E2]. constructor; intros x Hx.
  - by rewrite F2, F1.
  - by rewrite S2, S1.
  - by rewrite E2, E1.
Qed.

Lemma stays_pure {E A} (r : result E A) : stays P ids eps (pure_of r).
Proof. intros w. apply touches_refl. Qed.

Lemma stays_gets {E A} (f : World → A) : stays (E := E) P ids eps (gets f).
Proof. intros w. apply touches_refl. Qed.

Lemma stays_bind {E A B} (m : action World E A) (k : A → action World E B) :
  stays P ids eps m → (∀ a, stays P ids eps (k a)) → stays P ids eps (abind m k).
Proof.
  intros Hm Hk w. unfold abind. specialize (Hm w). destruct (m w) as [w' [a|e|]]; cbn in *; [|done..].
  eapply touches_trans; [done|]. apply Hk.
Qed.

Lemma stays_attempt {A} (m : act A) : stays P ids eps m → stays P ids eps (attempt m).
Proof. intros Hm w. unfold attempt. specialize (Hm w). by destruct (m w) as [w' [a|e|]]. Qed.

Lemma stays_next_fate {E} : stays (E := E) P ids eps next_fate.
Proof. intros w. unfold next_fate. by destruct (fates w). Qed.

Lemma stays_is_cancelled {E} : stays (E := E) P ids eps is_cancelled.
Proof. intros w. unfold is_cancelled. by destruct (cancel_after w) as [[|n]|]. Qed.

Lemma stays_report step : stays P ids eps (report step).
Proof. intros w. by constructor. Qed.

Lemma stays_files f :
  (∀ fs p, ¬ P p → (f fs : gmap path node) !! p = fs !! p) → stays (E := Failure) P ids eps (modify (set_files f)).
Proof. intros Hf w. constructor; cbn; [intros p Hp; by apply Hf|done..]. Qed.

End footprints.

#[export] Hint Resolve touches_refl stays_pure stays_gets stays_next_fate stays_is_cancelled stays_report : vm.

(** ** What the calls of [std::fs] touch and do *)

Definition on (ps : list path) (q : path) : Prop := q ∈ ps.
Definition within (d : path) (q : path) : Prop := under d q = true.

Lemma stays_weaken {E A} (P P' : path → Prop) (ids ids' : str → Prop) (eps eps' : Z → Prop) (m : action World E A) :
  stays P ids eps m → (∀ p, P p → P' p) → (∀ i, ids i → ids' i) → (∀ e, eps e → eps' e) →
  stays P' ids' eps' m.
Proof. intros Hm HP Hi He w. destruct (Hm w) as [F S Ep]. constructor; auto. Qed.

Lemma make_directories_elsewhere todo fs p :
  p ∉ todo → make_directories todo fs !! p = fs !! p.
Proof.
  revert fs. induction todo as [|q todo IH]; intros fs Hp; cbn [make_directories]; [done|].
  apply not_elem_of_cons in Hp as [Hq Hp]. destruct (fs !! q) as [[|]|]; [done|auto|].
  rewrite IH by done. by rewrite lookup_insert_ne.
Qed.

Lemma make_directories_keeps todo fs p :
  is_some (fs !! p) = true → make_directories todo fs !! p = fs !! p.
Proof.
  revert fs. induction todo as [|q todo IH]; intros fs Hp; cbn [make_directories]; [done|].
  destruct (fs !! q) as [[|]|] eqn:Hq; [done|auto|].
  assert (p ≠ q) by (intros E; by rewrite E, Hq in Hp).
  rewrite IH; by rewrite lookup_insert_ne.
Qed.

Section calls.
Context {P : path → Prop} {ids : str → Prop} {eps : Z → Prop}.

Lemma stays_create_dir_all p : (∀ q, q ∈ ways_to p → P q) → stays P ids eps (create_dir_all p).
Proof.
  intros HP. unfold create_dir_all. apply stays_bind; [apply stays_next_fate|]. intros f.
  apply stays_bind.
  - apply stays_files. intros fs q Hq. apply make_directories_elsewhere. intros Hin. apply Hq, HP.
    destruct f; [done|]. by apply subseteq_take in Hin.
  - intros _. apply stays_bind; [apply stays_gets|]. intros b. destruct f, b; apply stays_pure.
Qed.

Lemma stays_write_file op p contents : P p → stays P ids eps (write_file op p contents).
Proof.
  intros HP. unfold write_file. apply stays_bind; [apply stays_next_fate|]. intros f.
  apply stays_bind; [apply stays_gets|]. intros ok.
  assert (Hi : ∀ v, stays (E := Failure) P ids eps (modify (set_files <[p := v]>))).
  { intros v. apply stays_files. intros fs q Hq. apply lookup_insert_ne. by intros ->. }
  destruct ok, f as [|[|n] ?]; try apply stays_pure; [done|].
  apply stays_bind; [done|]. intros _. apply stays_pure.
Qed.

Lemma stays_read_to_string op p : stays P ids eps (read_to_string op p).
Proof.
  unfold read_to_string. apply stays_bind; [apply stays_next_fate|]. intros f.
  apply stays_bind; [apply stays_gets|]. intros [[contents|]|]; destruct f; apply stays_pure.
Qed.

Lemma stays_remove_file p : P p → stays P ids eps (remove_file p).
Proof.
  intros HP. unfold remove_file. apply stays_bind; [apply stays_next_fate|]. intros f.
  apply stays_bind; [apply stays_gets|]. intros ok. destruct f, ok; try apply stays_pure.
  apply stays_files. intros fs q Hq. apply lookup_delete_ne. by intros ->.
Qed.

Lemma stays_remove_dir_all p : (∀ q, under p q = true → P q) → stays P ids eps (remove_dir_all p).
Proof.
  intros HP. unfold remove_dir_all. apply stays_bind; [apply stays_next_fate|]. intros f.
  apply stays_bind; [apply stays_gets|]. intros ok.
  assert (Hq : ∀ q, ¬ P q → under p q = false).
  { intros q Hq. apply not_true_iff_false. auto. }
  destruct f as [|n spared], ok; try apply stays_pure.
  - apply stays_files. intros fs q Hn. apply option_eq. intros v.
    rewrite map_lookup_filter_Some. cbn. rewrite Hq by done. tauto.
  - apply stays_bind; [|intros _; apply stays_pure]. apply stays_files. intros fs q Hn.
    apply option_eq. intros v. rewrite map_lookup_filter_Some. cbn. rewrite Hq by done. tauto.
Qed.

End calls.

Lemma remove_dir_all_ok p w w' :
  remove_dir_all p w = (w', Ok tt) → ∀ q, under p q = true → files w' !! q = None.
Proof.
  unfold remove_dir_all, abind, gets, next_fate. intros H q Hq.
  destruct (fates w) as [|[|n spared] rest]; cbn in H; destruct (is_directory _ _) in H; try done;
    injection H as <-; cbn; apply map_lookup_filter_None; right; intros x _; cbn; by rewrite Hq.
Qed.

Lemma remove_file_ok p w w' : remove_file p w = (w', Ok tt) → files w' !! p = None.
Proof.
  unfold remove_file, is_file, abind, gets, next_fate. intros H.
  destruct (fates w) as [|[|n spared] rest]; cbn in H; destruct (files w !! p) as [[|]|] in H; try done;
    injection H as <-; apply lookup_delete_eq.
Qed.

Lemma write_file_ok op p contents w w' :
  write_file op p contents w = (w', Ok tt) → files w' = <[p := Some contents]> (files w).
Proof.
  unfold write_file, abind, gets, next_fate. intros H.
  destruct (fates w) as [|[|[|n] spared] rest]; cbn in H; destruct (writable _ _) in H; try done;
    by injection H as <-.
Qed.

Lemma write_file_err op p contents w w' e :
  write_file op p contents w = (w', Err e) → e = Io op p.
Proof.
  unfold write_file, abind, gets, next_fate. intros H.
  destruct (fates w) as [|[|[|n] spared] rest]; cbn in H; destruct (writable _ _) in H; try done;
    by injection H as _ <-.
Qed.

Lemma create_dir_all_ok p w w' :
  create_dir_all p w = (w', Ok tt) →
  files w' = make_directories (ways_to p) (files w) ∧
  ∀ q, q ∈ ways_to p → is_directory (files w') q = true.
Proof.
  unfold create_dir_all, abind, gets, modify, next_fate. intros H.
  destruct (fates w) as [|[|n spared] rest]; cbn -[ways_to] in H; [| |done];
    (destruct (forallb _ _) eqn:Hd in H; [|done]); injection H as <-; cbn -[ways_to];
    (split; [done|]); rewrite forallb_forall in Hd; intros q Hq; by apply Hd, list_elem_of_In.
Qed.

(** However it goes, it made some of the directories on the way. *)
Lemma create_dir_all_files p w :
  ∃ todo, todo ⊆ ways_to p ∧ files (create_dir_all p w).1 = make_directories todo (files w).
Proof.
  unfold create_dir_all, abind, gets, modify, next_fate.
  destruct (fates w) as [|[|n spared] rest]; cbn -[ways_to]; [exists (ways_to p)|exists (ways_to p)|exists (take n (ways_to p))];
    (split; [try done; intros q; apply subseteq_take|]); by repeat case_match.
Qed.

Lemma read_to_string_ok op p w w' r :
  read_to_string op p w = (w', Ok r) →
  files w' = files w ∧ match r with Some t => files w !! p = Some (Some t) | None => files w !! p = None end.
Proof.
  unfold read_to_string, abind, gets, next_fate. intros H.
  destruct (fates w) as [|[|n spared] rest]; cbn in H; destruct (files w !! p) as [[t|]|] eqn:Hp in H; try done;
    injection H as <- <-; done.
Qed.

(** An operation put together from ones that stay within a footprint does too. *)
Ltac stays_step :=
  match goal with
  | |- stays _ _ _ (abind _ _) => apply stays_bind; [|intros ?]
  | |- stays _ _ _ (attempt _) => apply stays_attempt
  | |- stays _ _ _ (ret _) => apply stays_pure
  | |- stays _ _ _ (fail _) => apply stays_pure
  | |- stays _ _ _ (pure_of _) => apply stays_pure
  | |- stays _ _ _ (gets _) => apply stays_gets
  | |- stays _ _ _ (path_exists _) => apply stays_gets
  | |- stays _ _ _ (is_file _) => apply stays_gets
  | |- stays _ _ _ (report _) => apply stays_report
  | |- stays _ _ _ is_cancelled => apply stays_is_cancelled
  | |- stays _ _ _ (read_to_string _ _) => apply stays_read_to_string
  | |- stays _ _ _ (write_file _ _ _) => apply stays_write_file
  | |- stays _ _ _ (remove_file _) => apply stays_remove_file
  | |- stays _ _ _ (remove_dir_all _) => apply stays_remove_dir_all
  | |- stays _ _ _ (create_dir_all _) => apply stays_create_dir_all
  | |- stays _ _ _ (match ?x with _ => _ end) => destruct x
  | |- stays _ _ _ _ => solve [eauto with vm]
  end.
Ltac stays := repeat stays_step.

Lemma stays_check_build_cancelled P ids eps : stays P ids eps check_build_cancelled.
Proof. unfold check_build_cancelled. stays. Qed.
#[export] Hint Resolve stays_check_build_cancelled : vm.

(** Taking an operation that came to [Ok] apart, step by step. *)
Lemma abind_ok {S E A B} (m : action S E A) (k : A → action S E B) w w' b :
  abind m k w = (w', Ok b) → ∃ w1 a, m w = (w1, Ok a) ∧ k a w1 = (w', Ok b).
Proof. unfold abind. destruct (m w) as [w1 [a|e|]]; intros H; [eauto|done..]. Qed.

Lemma abind_err {S E A B} (m : action S E A) (k : A → action S E B) w w' e :
  abind m k w = (w', Err e) →
  m w = (w', Err e) ∨ ∃ w1 a, m w = (w1, Ok a) ∧ k a w1 = (w', Err e).
Proof.
  unfold abind. destruct (m w) as [w1 [a|e'|]]; intros H; [eauto| |done].
  injection H as <- <-. by left.
Qed.

Tactic Notation "act_ok" hyp(H) "as" simple_intropattern(p) "," ident(Hm) :=
  apply abind_ok in H as (? & p & Hm & H).

Lemma path_exists_ok p w w' b :
  path_exists p w = (w', Ok b) → w' = w ∧ b = is_some (files w !! p).
Proof. unfold path_exists, gets. by intros [= <- <-]. Qed.
