(* ===== verification/Json.v ===== *)
(** * Json: documents as serde_json gives them to a program

    What the repository uses of serde_json is the interface [Json]: a program
    describes a value by its fields ([tree], which [derive(Serialize)] and
    [json!] come to), turns it into text, reads text back, and looks into what it
    read by pointers.  An object's entries are a [BTreeMap], kept here as the
    list it iterates over: ascending by key, by code points.  [JsonLaws] is what
    the documentation promises.

    [unchanged_at] is the frame of an edit: a pointer that parts from the place
    that was written finds what it found before. *)

From stdpp Require Import strings list.
From S2P Require Import Prelude ClipboardPath Layout.
#[local] Open Scope Z_scope.

(** ** Maps from keys to values *)

Fixpoint str_ltb (a b : str) : bool :=
  match a, b with
  | _, [] => false
  | [], _ :: _ => true
  | x :: a, y :: b => (x <? y) || ((x =? y) && str_ltb a b)
  end.

Section entries.
Context {V : Type}.
Implicit Types (k : str) (l : list (str * V)).

Fixpoint assoc (k : str) (l : list (str * V)) : option V :=
  match l with
  | [] => None
  | (k', v) :: rest => if str_eqb k' k then Some v else assoc k rest
  end.

(** [BTreeMap::insert]: an entry of the same key is replaced. *)
Fixpoint entry_insert (k : str) (v : V) (l : list (str * V)) : list (str * V) :=
  match l with
  | [] => [(k, v)]
  | (k', v') :: rest =>
      if str_eqb k' k then (k, v) :: rest
      else if str_ltb k k' then (k, v) :: l
      else (k', v') :: entry_insert k v rest
  end.

Fixpoint entry_remove (k : str) (l : list (str * V)) : list (str * V) :=
  match l with
  | [] => []
  | (k', v') :: rest => if str_eqb k' k then rest else (k', v') :: entry_remove k rest
  end.

(** [BTreeMap::from_iter]: the last entry of a key is the one that stays. *)
Definition from_entries (l : list (str * V)) : list (str * V) :=
  foldl (λ m kv, entry_insert kv.1 kv.2 m) [] l.

Definition above (k : str) (l : list (str * V)) : bool :=
  match l with [] => true | (k', _) :: _ => str_ltb k k' end.
Fixpoint ascending (l : list (str * V)) : bool :=
  match l with [] => true | (k, _) :: rest => above k rest && ascending rest end.

End entries.

#[warnings="-register-all"]
Inductive tree : Type :=
| TText (s : str)
| TNumber (n : Z)
| TBool (b : bool)
| TSeq (l : list tree)
| TStruct (fields : list (str * tree)).

(** A key an array would take for an index. *)
Definition is_index (k : str) : bool :=
  match k with [] => false | _ => forallb (λ c, (48 <=? c) && (c <=? 57)) k end.

Class Json := {
  value : Type;
  of_tree : tree → value;
  serialize : tree → option str;
  print : value → option str;
  parse : str → option value;
  object : list (str * value) → value;
  as_object : value → option (list (str * value));
  as_array : value → option (list value);
  as_str : value → option str;
  as_u64 : value → option Z;
  (** [pointer], and an assignment through [pointer_mut]. *)
  pointer : list str → value → option value;
  assign_at : list str → value → value → option value;
}.

Class JsonLaws (J : Json) : Prop := {
  printed_parses v s : print v = Some s → parse s = Some v;
  serialized_parses t s : serialize t = Some s → parse s = Some (of_tree t);
  object_entries l : ascending l = true → as_object (object l) = Some l;
  entries_object v l : as_object v = Some l → ascending l = true ∧ object l = v;
  struct_object fields :
    of_tree (TStruct fields) = object (from_entries (map (λ kv, (kv.1, of_tree kv.2)) fields));
  array_of_seq l : as_array (of_tree (TSeq l)) = Some (map of_tree l);
  text_is_str s : as_str (of_tree (TText s)) = Some s;
  number_is_u64 n : 0 <= n < 2 ^ 64 → as_u64 (of_tree (TNumber n)) = Some n;
  pointer_here v : pointer [] v = Some v;
  pointer_in k p v : is_index k = false →
    pointer (k :: p) v = (l ← as_object v; c ← assoc k l; pointer p c);
  assign_here n v : assign_at [] n v = Some n;
  assign_in k p n v : is_index k = false →
    assign_at (k :: p) n v =
      (l ← as_object v; c ← assoc k l; c' ← assign_at p n c; Some (object (entry_insert k c' l)));
}.

(** ** Laws of the entries *)

Lemma str_eqb_refl a : str_eqb a a = true.
Proof. by apply str_eqb_spec. Qed.

Lemma str_eqb_neq a b : str_eqb a b = false ↔ a ≠ b.
Proof. rewrite <- str_eqb_spec. by destruct (str_eqb a b). Qed.

Lemma str_ltb_irrefl a : str_ltb a a = false.
Proof. induction a as [|x a IH]; [done|]. cbn. by rewrite Z.ltb_irrefl, Z.eqb_refl. Qed.

Lemma str_ltb_trans a b c : str_ltb a b = true → str_ltb b c = true → str_ltb a c = true.
Proof.
  revert b c. induction a as [|x a IH]; intros [|y b] [|z c]; cbn; try done.
  rewrite !orb_true_iff, !andb_true_iff, !Z.ltb_lt, !Z.eqb_eq.
  intros [?|[-> ?]] [?|[-> ?]]; [left; lia|by left..|right; eauto].
Qed.

Lemma str_ltb_total a b : str_ltb a b = false → a = b ∨ str_ltb b a = true.
Proof.
  revert b. induction a as [|x a IH]; intros [|y b]; cbn; auto; try done.
  rewrite orb_false_iff, andb_false_iff, orb_true_iff, andb_true_iff, Z.ltb_ge, Z.ltb_lt, !Z.eqb_eq, Z.eqb_neq.
  intros [Hle Hor]. destruct (Z.eq_dec x y) as [->|Hne]; [|right; left; lia].
  destruct Hor as [?|[->|?]%IH]; [done|by left|by right; right].
Qed.

Section entry_laws.
Context {V : Type}.
Implicit Types (k : str) (v : V) (l : list (str * V)).

Lemma assoc_insert k v l : assoc k (entry_insert k v l) = Some v.
Proof.
  induction l as [|[k' v'] l IH]; cbn; [by rewrite str_eqb_refl|].
  destruct (str_eqb k' k) eqn:E; cbn; [by rewrite str_eqb_refl|].
  destruct (str_ltb k k'); cbn; [by rewrite str_eqb_refl|]. by rewrite E.
Qed.

Lemma assoc_insert_ne k k' v l : k ≠ k' → assoc k' (entry_insert k v l) = assoc k' l.
Proof.
  intros Hne%str_eqb_neq. induction l as [|[k1 v1] l IH]; cbn; [by rewrite Hne|].
  destruct (str_eqb k1 k) eqn:E; cbn.
  - apply str_eqb_spec in E as ->. by rewrite Hne.
  - destruct (str_ltb k k1); cbn; [by rewrite Hne|]. by rewrite IH.
Qed.

Lemma above_insert k0 k v l : above k0 l = true → str_ltb k0 k = true → above k0 (entry_insert k v l) = true.
Proof.
  destruct l as [|[k1 v1] l]; cbn; [done|]. intros H1 H2.
  destruct (str_eqb k1 k) eqn:E; cbn; [done|]. by destruct (str_ltb k k1).
Qed.

Lemma ascending_insert k v l : ascending l = true → ascending (entry_insert k v l) = true.
Proof.
  induction l as [|[k1 v1] l IH]; cbn; [done|]. intros [Ha Hs]%andb_true_iff.
  destruct (str_eqb k1 k) eqn:E; cbn.
  - apply str_eqb_spec in E as ->. by rewrite Ha.
  - destruct (str_ltb k k1) eqn:Hlt; cbn; [by rewrite Hlt, Ha|].
    rewrite IH, andb_true_r by done. apply above_insert; [done|].
    apply str_eqb_neq in E. destruct (str_ltb_total _ _ Hlt) as [->|]; done.
Qed.

Lemma ascending_from_entries l : ascending (from_entries l) = true.
Proof.
  unfold from_entries. assert (H : ascending (@nil (str * V)) = true) by done. revert H. generalize (@nil (str * V)).
  induction l as [|[k v] l IH]; intros m Hm; cbn; [done|]. by apply IH, ascending_insert.
Qed.

Lemma above_all k l k' v : above k l = true → ascending l = true → (k', v) ∈ l → str_ltb k k' = true.
Proof.
  revert k. induction l as [|[k1 v1] l IH]; cbn; intros k Ha Hs; [by intros ?%not_elem_of_nil|].
  apply andb_true_iff in Hs as [H1 Hs]. intros [[= -> ->]|Hin]%elem_of_cons; [done|].
  eapply str_ltb_trans; [done|]. by apply IH.
Qed.

Lemma assoc_elem k v l : assoc k l = Some v → (k, v) ∈ l.
Proof.
  induction l as [|[k1 v1] l IH]; cbn; [done|]. destruct (str_eqb k1 k) eqn:E.
  - apply str_eqb_spec in E as ->. intros [= ->]. apply elem_of_cons. by left.
  - intros H. apply elem_of_cons. right. auto.
Qed.

Lemma above_absent k l : above k l = true → ascending l = true → assoc k l = None.
Proof.
  intros Ha Hs. destruct (assoc k l) as [v|] eqn:E; [|done]. apply assoc_elem in E.
  pose proof (above_all _ _ _ _ Ha Hs E) as H. by rewrite str_ltb_irrefl in H.
Qed.

(** Writing what is there changes nothing. *)
Lemma insert_present k v l : ascending l = true → assoc k l = Some v → entry_insert k v l = l.
Proof.
  induction l as [|[k1 v1] l IH]; cbn; [done|]. intros [Ha Hs]%andb_true_iff.
  destruct (str_eqb k1 k) eqn:E; [apply str_eqb_spec in E as ->; by intros [= ->]|]. intros H.
  destruct (str_ltb k k1) eqn:Hlt; [|by rewrite IH].
  apply assoc_elem in H. pose proof (above_all _ _ _ _ Ha Hs H) as Hk.
  pose proof (str_ltb_trans _ _ _ Hlt Hk) as Hirr. by rewrite str_ltb_irrefl in Hirr.
Qed.

Lemma insert_insert k v v' l : entry_insert k v (entry_insert k v' l) = entry_insert k v l.
Proof.
  induction l as [|[k1 v1] l IH]; cbn; [by rewrite str_eqb_refl|].
  destruct (str_eqb k1 k) eqn:E; cbn; [by rewrite str_eqb_refl|].
  destruct (str_ltb k k1) eqn:Hlt; cbn; [by rewrite str_eqb_refl|]. by rewrite E, Hlt, IH.
Qed.

Lemma assoc_remove_ne k k' l : k ≠ k' → assoc k' (entry_remove k l) = assoc k' l.
Proof.
  intros Hne%str_eqb_neq. induction l as [|[k1 v1] l IH]; cbn; [done|].
  destruct (str_eqb k1 k) eqn:E; cbn.
  - apply str_eqb_spec in E as ->. by rewrite Hne.
  - by rewrite IH.
Qed.

Lemma above_remove k0 k l : above k0 l = true → ascending l = true → above k0 (entry_remove k l) = true.
Proof.
  destruct l as [|[k1 v1] l]; cbn; [done|]. intros H1 [Ha _]%andb_true_iff.
  destruct (str_eqb k1 k); [|done]. destruct l as [|[k2 v2] l]; [done|]. by eapply str_ltb_trans.
Qed.

Lemma ascending_remove k l : ascending l = true → ascending (entry_remove k l) = true.
Proof.
  induction l as [|[k1 v1] l IH]; cbn; [done|]. intros [Ha Hs]%andb_true_iff.
  destruct (str_eqb k1 k); cbn; [done|]. by rewrite IH, above_remove.
Qed.

Lemma assoc_remove k l : ascending l = true → assoc k (entry_remove k l) = None.
Proof.
  induction l as [|[k1 v1] l IH]; cbn; [done|]. intros [Ha Hs]%andb_true_iff.
  destruct (str_eqb k1 k) eqn:E; cbn; [|by rewrite E, IH].
  apply str_eqb_spec in E as ->. by apply above_absent.
Qed.

Lemma remove_absent k l : assoc k l = None → entry_remove k l = l.
Proof.
  induction l as [|[k1 v1] l IH]; cbn; [done|]. destruct (str_eqb k1 k); [done|]. intros H. by rewrite IH.
Qed.

(** What was there under the key does not show once it is removed. *)
Lemma remove_insert k v l : ascending l = true → entry_remove k (entry_insert k v l) = entry_remove k l.
Proof.
  induction l as [|[k1 v1] l IH]; cbn; [by rewrite str_eqb_refl|]. intros [Ha Hs]%andb_true_iff.
  destruct (str_eqb k1 k) eqn:E; cbn; [by rewrite str_eqb_refl|].
  destruct (str_ltb k k1) eqn:Hlt; cbn; [rewrite str_eqb_refl|by rewrite E, IH].
  rewrite remove_absent; [done|]. apply above_absent; [|done].
  destruct l as [|[k2 v2] l]; [done|]. by eapply str_ltb_trans.
Qed.

(** Entries that are in order already are taken as they are. *)
Definition below (l : list (str * V)) (k : str) : Prop := ∀ k' v, (k', v) ∈ l → str_ltb k' k = true.

Lemma str_ltb_antisym a b : str_ltb a b = true → str_ltb b a = false.
Proof.
  intros H. destruct (str_ltb b a) eqn:E; [|done]. pose proof (str_ltb_trans _ _ _ H E) as Hi.
  by rewrite str_ltb_irrefl in Hi.
Qed.

Lemma insert_at_the_end k v l : below l k → entry_insert k v l = l ++ [(k, v)].
Proof.
  induction l as [|[k1 v1] l IH]; intros Hl; [done|]. cbn.
  assert (H1 : str_ltb k1 k = true) by (eapply Hl; apply elem_of_cons; by left).
  assert (E : str_eqb k1 k = false) by (apply str_eqb_neq; intros ->; by rewrite str_ltb_irrefl in H1).
  rewrite E, (str_ltb_antisym _ _ H1), IH; [done|]. intros k' v' Hin. eapply Hl, elem_of_cons. by right.
Qed.

Lemma ascending_app_inv l k v : ascending (l ++ [(k, v)]) = true → ascending l = true ∧ below l k.
Proof.
  induction l as [|[k1 v1] l IH]; cbn; [intros _; split; [done|by intros k' v' ?%not_elem_of_nil]|].
  intros [Ha [Hs Hb]%IH]%andb_true_iff. split.
  - rewrite Hs, andb_true_r. by destruct l as [|[k2 v2] l].
  - intros k' v' [[= -> ->]|Hin]%elem_of_cons; [|by eapply Hb].
    destruct l as [|[k2 v2] l]; [exact Ha|]. eapply str_ltb_trans; [exact Ha|]. eapply Hb, elem_of_cons. by left.
Qed.

Lemma from_entries_ascending l : ascending l = true → from_entries l = l.
Proof.
  unfold from_entries. induction l as [|[k v] l IH] using rev_ind; [done|].
  intros [Hs Hb]%ascending_app_inv. rewrite foldl_app, IH by done. by apply insert_at_the_end.
Qed.

Lemma assoc_from_entries k l : assoc k (from_entries l) = assoc k (reverse l).
Proof.
  unfold from_entries. induction l as [|[k1 v1] l IH] using rev_ind; [done|].
  rewrite foldl_app, reverse_app. cbn. destruct (str_eqb k1 k) eqn:E.
  - apply str_eqb_spec in E as ->. apply assoc_insert.
  - apply str_eqb_neq in E. by rewrite assoc_insert_ne.
Qed.

End entry_laws.

(** ** Edits at a place *)

(** Two pointers that part ways, so that neither reaches into the other. *)
Fixpoint parts (p q : list str) : bool :=
  match p, q with
  | a :: p, b :: q => negb (str_eqb a b) || parts p q
  | _, _ => false
  end.

Definition plain (p : list str) : bool := forallb (λ k, negb (is_index k)) p.

Section edits.
Context `{J : Json} `{L : !JsonLaws J}.
Implicit Types (v n : value) (p q : list str).

Lemma plain_cons k p : plain (k :: p) = true → is_index k = false ∧ plain p = true.
Proof. cbn. by intros [?%negb_true_iff ?]%andb_true_iff. Qed.

Lemma assigned_there p n v v' : plain p = true → assign_at p n v = Some v' → pointer p v' = Some n.
Proof.
  revert v v'. induction p as [|k p IH]; intros v v' Hp H.
  - rewrite assign_here in H. injection H as <-. apply pointer_here.
  - apply plain_cons in Hp as [Hk Hp]. rewrite assign_in in H by done.
    destruct (as_object v) as [l|] eqn:Hl; [|done]. cbn in H.
    destruct (assoc k l) as [c|] eqn:Hc; [|done]. cbn in H.
    destruct (assign_at p n c) as [c'|] eqn:Hc'; [|done]. injection H as <-.
    apply entries_object in Hl as [Hs _].
    rewrite pointer_in, object_entries by auto using ascending_insert. cbn. rewrite assoc_insert. cbn. eauto.
Qed.

Lemma assigned_elsewhere p q n v v' :
  plain p = true → plain q = true → parts p q = true → assign_at p n v = Some v' → pointer q v' = pointer q v.
Proof.
  revert q v v'. induction p as [|k p IH]; intros [|k' q] v v' Hp Hq Hpq H; [done..|].
  apply plain_cons in Hp as [Hk Hp], Hq as [Hk' Hq]. rewrite assign_in in H by done.
  destruct (as_object v) as [l|] eqn:Hl; [|done]. cbn in H.
  destruct (assoc k l) as [c|] eqn:Hc; [|done]. cbn in H.
  destruct (assign_at p n c) as [c'|] eqn:Hc'; [|done]. injection H as <-.
  pose proof (entries_object _ _ Hl) as [Hs _].
  rewrite !pointer_in, object_entries, Hl by auto using ascending_insert. cbn.
  cbn in Hpq. destruct (str_eqb k k') eqn:E; cbn in Hpq.
  - apply str_eqb_spec in E as <-. rewrite assoc_insert, Hc. cbn. eauto.
  - apply str_eqb_neq in E. by rewrite assoc_insert_ne.
Qed.

Lemma assignable p n v : plain p = true → (∃ v', assign_at p n v = Some v') ↔ ∃ c, pointer p v = Some c.
Proof.
  revert v. induction p as [|k p IH]; intros v Hp.
  - rewrite assign_here, pointer_here. naive_solver.
  - apply plain_cons in Hp as [Hk Hp]. rewrite assign_in, pointer_in by done.
    destruct (as_object v) as [l|]; [|naive_solver]. cbn.
    destruct (assoc k l) as [c|]; [|naive_solver]. cbn. rewrite <- IH by done.
    destruct (assign_at p n c); naive_solver.
Qed.

(** Assigning what is there changes nothing, and the last assignment stands. *)
Lemma assign_same p c v : plain p = true → pointer p v = Some c → assign_at p c v = Some v.
Proof.
  revert v. induction p as [|k p IH]; intros v Hp H.
  - rewrite pointer_here in H. injection H as ->. apply assign_here.
  - apply plain_cons in Hp as [Hk Hp]. rewrite pointer_in in H by done. rewrite assign_in by done.
    destruct (as_object v) as [l|] eqn:Hl; [|done]. cbn in *.
    destruct (assoc k l) as [c1|] eqn:Hc; [|done]. cbn in *. rewrite (IH c1) by done. cbn.
    apply entries_object in Hl as [Hs <-]. by rewrite insert_present.
Qed.

Lemma assign_twice p n n' v v' v2 :
  plain p = true → assign_at p n v = Some v' → assign_at p n' v = Some v2 → assign_at p n' v' = Some v2.
Proof.
  revert v v' v2. induction p as [|k p IH]; intros v v' v2 Hp H H2.
  - rewrite assign_here in *. congruence.
  - apply plain_cons in Hp as [Hk Hp]. rewrite assign_in in H, H2 by done. rewrite assign_in by done.
    destruct (as_object v) as [l|] eqn:Hl; [|done]. cbn in *.
    destruct (assoc k l) as [c|] eqn:Hc; [|done]. cbn in *.
    destruct (assign_at p n c) as [c'|] eqn:Hc'; [|done]. injection H as <-.
    destruct (assign_at p n' c) as [c2|] eqn:Hc2; [|done]. injection H2 as <-.
    apply entries_object in Hl as [Hs _].
    rewrite object_entries by auto using ascending_insert. cbn. rewrite assoc_insert. cbn.
    rewrite (IH _ _ _ Hp Hc' Hc2). cbn. by rewrite insert_insert.
Qed.

Lemma pointer_app p q v c : plain p = true → pointer p v = Some c → pointer (p ++ q) v = pointer q c.
Proof.
  revert v. induction p as [|k p IH]; intros v Hp H; cbn [app].
  - rewrite pointer_here in H. congruence.
  - apply plain_cons in Hp as [Hk Hp]. rewrite pointer_in in * by done.
    destruct (as_object v) as [l|]; [|done]. cbn in *. destruct (assoc k l) as [c1|]; [|done]. cbn in *. auto.
Qed.

Lemma pointer_prefix p q v x :
  plain p = true → pointer (p ++ q) v = Some x → ∃ c, pointer p v = Some c ∧ pointer q c = Some x.
Proof.
  revert v. induction p as [|k p IH]; intros v Hp H; cbn [app] in H.
  - exists v. by rewrite pointer_here.
  - apply plain_cons in Hp as [Hk Hp]. rewrite pointer_in in H by done. rewrite pointer_in by done.
    destruct (as_object v) as [l|]; [|done]. cbn in *. destruct (assoc k l) as [c|]; [|done]. cbn in *. auto.
Qed.

(** What a tree becomes, by its own fields. *)
Fixpoint tree_at (p : list str) (t : tree) : option tree :=
  match p, t with
  | [], _ => Some t
  | k :: p, TStruct fields => c ← assoc k (reverse fields); tree_at p c
  | _, _ => None
  end.

Lemma assoc_of_trees k (fields : list (str * tree)) :
  assoc k (map (λ kv, (kv.1, of_tree kv.2)) fields) = of_tree <$> assoc k fields.
Proof. induction fields as [|[k1 t] fields IH]; [done|]. cbn. by destruct (str_eqb k1 k). Qed.

(** A struct read back: its fields, by name. *)
Lemma struct_field fields :
  as_object (of_tree (TStruct fields)) = Some (from_entries (map (λ kv, (kv.1, of_tree kv.2)) fields)).
Proof. rewrite struct_object. apply object_entries, ascending_from_entries. Qed.


Lemma pointer_tree p t t' : plain p = true → tree_at p t = Some t' → pointer p (of_tree t) = Some (of_tree t').
Proof.
  revert t. induction p as [|k p IH]; intros t Hp H.
  - injection H as ->. apply pointer_here.
  - apply plain_cons in Hp as [Hk Hp]. destruct t as [| | | |fields]; try done. cbn in H.
    rewrite pointer_in, struct_field by done. cbn [mbind option_bind]. rewrite assoc_from_entries.
    rewrite <- (list.fmap_reverse (λ kv : str * tree, (kv.1, of_tree kv.2)) fields). change ((λ kv : str * tree, (kv.1, of_tree kv.2)) <$> reverse fields) with (map (λ kv : str * tree, (kv.1, of_tree kv.2)) (reverse fields)). rewrite assoc_of_trees.
    destruct (assoc k (reverse fields)) as [c|]; [|done]. cbn in *. auto.
Qed.

End edits.
