(* ===== verification/HcsConfig.v ===== *)
(** * HcsConfig: the document a compute system is made from

    crates/platform/src/hcs_config.rs, with the service ids of hvsocket.rs and
    [attachment_paths] of start.rs.  The document is built once, when a VM is
    created, kept on disk as text, and edited in place from then on: its memory
    and processors when the user changes them, its network adapter and its Plan9
    shares at a start.  JSON is the interface of Json.v; how the Windows bindings
    spell a GUID is the class [Guids].

    The structs of the source that only name the fields of the document are the
    [tree]s of [configuration_tree]. *)

From stdpp Require Import strings list.
From S2P Require Import Prelude ClipboardPath CoreVm CoreGpu CoreRequest Layout HostFiles Json.
#[local] Open Scope Z_scope.

Definition hex_digit (n : Z) : Z := if n <? 10 then 48 + n else 87 + n.
(** [Uuid::as_simple]: 32 digits. *)
Fixpoint hex (digits : nat) (n : Z) : str :=
  match digits with
  | O => []
  | S k => hex k (n / 16) ++ [hex_digit (n mod 16)]
  end.

(** The text of a path, as Windows writes it. *)
Fixpoint path_text (p : path) : str :=
  match p with
  | [] => []
  | [name] => name
  | name :: rest => name ++ backslash :: path_text rest
  end.

Class Guids := { guid_debug : Z → str }.

(** ** hvsocket.rs *)

Definition AGENT_VSOCK_PORT : Z := 0x564D4C41.
Definition DISPLAY_CONTROL_VSOCK_PORT : Z := 0x564D4C44.
Definition DISPLAY_FRAME_VSOCK_PORT : Z := 0x564D4C46.
Definition DISPLAY_INPUT_VSOCK_PORT : Z := 0x564D4C49.
Definition DISPLAY_CLIPBOARD_VSOCK_PORT : Z := 0x564D4C43.
Definition DISPLAY_AUDIO_VSOCK_PORT : Z := 0x564D4C53.

(** The template of Linux's integration, with the port as the first field. *)
Definition vsock_service_id (port : Z) : Z :=
  Z.lor (Z.shiftl port 96) (Z.lor (Z.shiftl 0xfacb 80) (Z.lor (Z.shiftl 0x11e6 64) 0xbd5864006a7986d3)).
Definition agent_service_id : Z := vsock_service_id AGENT_VSOCK_PORT.
Definition display_service_ids : list Z :=
  map vsock_service_id
    [DISPLAY_CONTROL_VSOCK_PORT; DISPLAY_FRAME_VSOCK_PORT; DISPLAY_INPUT_VSOCK_PORT;
     DISPLAY_CLIPBOARD_VSOCK_PORT; DISPLAY_AUDIO_VSOCK_PORT].

(** ** The document *)

Definition fields (l : list (string * tree)) : tree := TStruct (map (λ kv, (text kv.1, kv.2)) l).
Definition EmptyObject : tree := fields [].
Definition keys (l : list string) : list str := map text l.

Definition MEMORY_SIZE_POINTER : list str := keys ["VirtualMachine"; "ComputeTopology"; "Memory"; "SizeInMB"]%string.
Definition PROCESSOR_COUNT_POINTER : list str := keys ["VirtualMachine"; "ComputeTopology"; "Processor"; "Count"]%string.
Definition DEVICES_POINTER : list str := keys ["VirtualMachine"; "Devices"]%string.
Definition ATTACHMENTS_POINTER : list str :=
  keys ["VirtualMachine"; "Devices"; "Scsi"; "Primary"; "Attachments"]%string.
Definition NETWORK_ADAPTERS_KEY : str := text "NetworkAdapters".
Definition PLAN9_KEY : str := text "Plan9".
Definition PLAN9_PORT : Z := 50001.
Definition PLAN9_FLAG_READ_ONLY : Z := 1.
Definition VIDEO_WIDTH : Z := 1024.
Definition VIDEO_HEIGHT : Z := 768.

Definition SCHEMA_VERSION : tree := fields [("Major", TNumber 2); ("Minor", TNumber 5)]%string.
Definition BIND_SECURITY_DESCRIPTOR : string := "D:P(A;;FA;;;SY)(A;;FA;;;BA)".

Definition com1_pipe_path (id : Z) : str := text "\\.\pipe\vmlord-" ++ hex 32 id ++ text ".com1".

Record VmTopology : Type := mk_topology { topology_ram : Z; topology_cores : Z }.
Record Plan9Export : Type := mk_export { export_name : str; export_path : str }.

Definition ensure_supported_network_mode (mode : NetworkMode) : result Failure unit :=
  match mode with NetworkNone | NetworkNat => Ok tt | _ => Err UnsupportedMode end.

(** [media_path], as text. *)
Definition media_text (r : VmCreateRequest) (seed : path) : str :=
  match source r with LocalMedia named => named | CloudImageSource _ _ => path_text seed end.

Definition attachment (kind : string) (file : str) : tree :=
  fields [("Type", TText (text kind)); ("Path", TText file)]%string.

#[global] Arguments keys : simpl never.
#[global] Arguments MEMORY_SIZE_POINTER : simpl never.
#[global] Arguments PROCESSOR_COUNT_POINTER : simpl never.
#[global] Arguments DEVICES_POINTER : simpl never.
#[global] Arguments ATTACHMENTS_POINTER : simpl never.
#[global] Arguments NETWORK_ADAPTERS_KEY : simpl never.
#[global] Arguments PLAN9_KEY : simpl never.
#[global] Arguments text : simpl never.

Section configuration.
Context `{J : Json} `{G : Guids}.

Definition hv_socket_service : tree :=
  fields [("BindSecurityDescriptor", TText (text BIND_SECURITY_DESCRIPTOR))]%string.

(** A [BTreeMap], filled entry by entry. *)
Definition service_table : tree :=
  TStruct (foldl (λ table id, entry_insert (guid_debug id) hv_socket_service table)
             [(guid_debug agent_service_id, hv_socket_service)] display_service_ids).

Definition attachments (r : VmCreateRequest) (system_disk seed : path) (tools : option path) : tree :=
  fields (("0", attachment "VirtualDisk" (path_text system_disk))
          :: ("1", attachment "Iso" (media_text r seed))
          :: match tools with Some t => [("2", attachment "Iso" (path_text t))] | None => [] end)%string.

Definition devices_tree (r : VmCreateRequest) (system_disk seed : path) (tools : option path) (id : Z) : tree :=
  fields [("Scsi", fields [("Primary", fields [("Attachments", attachments r system_disk seed tools)])]);
          ("ComPorts", fields [("0", fields [("NamedPipe", TText (com1_pipe_path id))])]);
          ("HvSocket", fields [("HvSocketConfig", fields [("ServiceTable", service_table)])]);
          ("Keyboard", EmptyObject); ("Mouse", EmptyObject);
          ("VideoMonitor", fields [("HorizontalResolution", TNumber VIDEO_WIDTH);
                                   ("VerticalResolution", TNumber VIDEO_HEIGHT)])]%string.

Definition topology_tree (r : VmCreateRequest) : tree :=
  fields [("Memory", fields [("SizeInMB", TNumber (ram_mb r)); ("AllowOvercommit", TBool true);
                             ("EnableDeferredCommit", TBool true); ("EnableColdDiscardHint", TBool true)]);
          ("Processor", fields [("Count", TNumber (cpu_cores r))])]%string.

Definition configuration_tree (r : VmCreateRequest) (system_disk seed : path) (tools : option path)
    (guest_state runtime_state : path) (id : Z) : tree :=
  fields [("SchemaVersion", SCHEMA_VERSION); ("Owner", TText (text "VMLord"));
          ("ShouldTerminateOnLastHandleClosed", TBool false);
          ("VirtualMachine", fields
             [("Chipset", fields [("Uefi", fields [("Console", TText (text "Default"))])]);
              ("ComputeTopology", topology_tree r);
              ("Devices", devices_tree r system_disk seed tools id);
              ("Services", fields [("Shutdown", EmptyObject); ("Timesync", EmptyObject)]);
              ("GuestState", fields [("GuestStateFilePath", TText (path_text guest_state));
                                     ("RuntimeStateFilePath", TText (path_text runtime_state))])])]%string.

Definition build (r : VmCreateRequest) (system_disk seed : path) (tools : option path)
    (guest_state runtime_state : path) (id : Z) : result Failure str :=
  let? _ := map_err Invalid (request_validate r) in
  match gpu_mode r with
  | ModeUnknown _ => Err UnsupportedMode
  | _ =>
      let? _ := ensure_supported_network_mode (network_mode r) in
      ok_or (serialize (configuration_tree r system_disk seed tools guest_state runtime_state id)) Unserializable
  end.

(** ** Edits of the stored document *)

Definition parse_document (document : str) : result Failure value := ok_or (parse document) BadConfiguration.
Definition write_document (configuration : value) : result Failure str := ok_or (print configuration) Unserializable.

Definition read_u32 (configuration : value) (p : list str) : result Failure Z :=
  ok_or (n ← pointer p configuration ≫= as_u64; if n <? 2 ^ 32 then Some n else None) (MissingInConfiguration p).

(** An assignment through [write_target]. *)
Definition write_at (configuration : value) (p : list str) (n : value) : result Failure value :=
  ok_or (assign_at p n configuration) (MissingInConfiguration p).

Definition read_topology (document : str) : result Failure VmTopology :=
  let? configuration := parse_document document in
  let? ram := read_u32 configuration MEMORY_SIZE_POINTER in
  let? cores := read_u32 configuration PROCESSOR_COUNT_POINTER in
  Ok (mk_topology ram cores).

Definition apply_topology (document : str) (topology : VmTopology) : result Failure str :=
  let? configuration := parse_document document in
  let? configuration := write_at configuration MEMORY_SIZE_POINTER (of_tree (TNumber (topology_ram topology))) in
  let? configuration := write_at configuration PROCESSOR_COUNT_POINTER (of_tree (TNumber (topology_cores topology))) in
  write_document configuration.

(** [devices.insert], where [Devices] is an object. *)
Definition insert_device (configuration : value) (key : str) (section : value) : result Failure value :=
  let? devices := ok_or (pointer DEVICES_POINTER configuration) (MissingInConfiguration DEVICES_POINTER) in
  let? entries := ok_or (as_object devices) (MissingInConfiguration DEVICES_POINTER) in
  write_at configuration DEVICES_POINTER (object (entry_insert key section entries)).

(** [devices.remove]: [None] when there was nothing to remove. *)
Definition remove_device (configuration : value) (key : str) : option value :=
  entries ← pointer DEVICES_POINTER configuration ≫= as_object;
  _ ← assoc key entries;
  assign_at DEVICES_POINTER (object (entry_remove key entries)) configuration.

(** What [remove_network_adapter] and [remove_plan9_shares] do. *)
Definition without_device (document key : str) : result Failure str :=
  let? configuration := parse_document document in
  match remove_device configuration key with
  | None => Ok document
  | Some configuration => write_document configuration
  end.

Definition adapter_key (endpoint : Z) : str := guid_debug endpoint.

Definition network_adapters (endpoint : Z) (mac_address : str) : tree :=
  let id := adapter_key endpoint in
  TStruct [(id, fields [("EndpointId", TText id); ("MacAddress", TText mac_address)]%string)].

Definition apply_network_adapter (document : str) (endpoint : Z) (mac_address : str) : result Failure str :=
  let? configuration := parse_document document in
  let? configuration := insert_device configuration NETWORK_ADAPTERS_KEY (of_tree (network_adapters endpoint mac_address)) in
  write_document configuration.

Definition remove_network_adapter (document : str) : result Failure str := without_device document NETWORK_ADAPTERS_KEY.

(** [Value::get] of a key. *)
Definition get_field (k : str) (v : value) : option value := as_object v ≫= assoc k.

Definition attached_mac_address (document : str) : option str :=
  configuration ← parse document;
  adapters ← pointer (DEVICES_POINTER ++ [NETWORK_ADAPTERS_KEY]) configuration ≫= as_object;
  '(_, adapter) ← list.head adapters;
  mac_address ← get_field (text "MacAddress") adapter ≫= as_str;
  if bool_decide (mac_address = []) then None else Some mac_address.

Definition Plan9Share (e : Plan9Export) : tree :=
  fields [("Name", TText (export_name e)); ("AccessName", TText (export_name e)); ("Path", TText (export_path e));
          ("Port", TNumber PLAN9_PORT); ("Flags", TNumber PLAN9_FLAG_READ_ONLY)]%string.

Definition apply_plan9_shares (document : str) (exports : list Plan9Export) : result Failure str :=
  let? configuration := parse_document document in
  let? configuration := insert_device configuration PLAN9_KEY
                          (of_tree (fields [("Shares", TSeq (map Plan9Share exports))]%string)) in
  write_document configuration.

Definition remove_plan9_shares (document : str) : result Failure str := without_device document PLAN9_KEY.

(** ** start.rs: the files a document attaches *)

Definition attachment_paths (document : str) : result Failure (list str) :=
  let? configuration := parse_document document in
  Ok match pointer ATTACHMENTS_POINTER configuration ≫= as_object with
     | None => []
     | Some attachments => omap (λ kv, get_field (text "Path") kv.2 ≫= as_str) attachments
     end.

End configuration.
