(* ===== verification/HcsConfigProps.v ===== *)
(** * HcsConfigProps: what the edits of a configuration document leave alone

    Each edit of HcsConfig.v writes one place.  [looked_up d q] is what a pointer
    finds in the text of a document.  Before that, a JSON that keeps the promises of
    [JsonLaws]: values as an inductive type, and text as their prefix code,
    executable, for the witnesses. *)

From stdpp Require Import strings list.
From S2P Require Import Prelude ClipboardPath CoreVm CoreGpu CoreDisplay CoreRequest Layout HostFiles Json HcsConfig.
#[local] Open Scope Z_scope.

(** ** A JSON *)

#[warnings="-register-all"]
Inductive json : Type :=
| JText (s : str) | JNumber (n : Z) | JBool (b : bool) | JArray (l : list json) | JObject (l : list (str * json)).

Fixpoint json_rect' (P : json → Prop) (Ht : ∀ s, P (JText s)) (Hn : ∀ n, P (JNumber n)) (Hb : ∀ b, P (JBool b))
    (Ha : ∀ l, Forall P l → P (JArray l)) (Ho : ∀ l, Forall (λ kv, P kv.2) l → P (JObject l)) (j : json) : P j :=
  match j with
  | JText s => Ht s
  | JNumber n => Hn n
  | JBool b => Hb b
  | JArray l =>
      Ha l ((fix all l := match l return Forall P l with
                          | [] => @List.Forall_nil _ _
                          | j :: l => @List.Forall_cons _ _ _ _ (json_rect' P Ht Hn Hb Ha Ho j) (all l)
                          end) l)
  | JObject l =>
      Ho l ((fix all l := match l return Forall (λ kv, P kv.2) l with
                          | [] => @List.Forall_nil _ _
                          | kv :: l => @List.Forall_cons _ _ _ _ (json_rect' P Ht Hn Hb Ha Ho kv.2) (all l)
                          end) l)
  end.

Definition put_str (s : str) : str := zlen s :: s.
Fixpoint encode_json (j : json) : str :=
  match j with
  | JText s => 0 :: put_str s
  | JNumber n => [1; n]
  | JBool b => [2; if b then 1 else 0]
  | JArray l => 3 :: zlen l :: concat (map encode_json l)
  | JObject l => 4 :: zlen l :: concat (map (λ kv, put_str kv.1 ++ encode_json kv.2) l)
  end.

Definition get_str (s : str) : option (str * str) :=
  match s with n :: rest => Some (take (Z.to_nat n) rest, drop (Z.to_nat n) rest) | [] => None end.
Fixpoint many {A} (get : str → option (A * str)) (n : nat) (s : str) : option (list A * str) :=
  match n with
  | O => Some ([], s)
  | S n => '(a, s) ← get s; '(l, s) ← many get n s; Some (a :: l, s)
  end.

Fixpoint decode_json (fuel : nat) (s : str) : option (json * str) :=
  match fuel, s with
  | S fuel, 0 :: s => '(t, s) ← get_str s; Some (JText t, s)
  | S _, 1 :: n :: s => Some (JNumber n, s)
  | S _, 2 :: b :: s => Some (JBool (b =? 1), s)
  | S fuel, 3 :: n :: s => '(l, s) ← many (decode_json fuel) (Z.to_nat n) s; Some (JArray l, s)
  | S fuel, 4 :: n :: s =>
      '(l, s) ← many (λ s, '(k, s) ← get_str s; '(v, s) ← decode_json fuel s; Some ((k, v), s)) (Z.to_nat n) s;
      Some (JObject l, s)
  | _, _ => None
  end.

Lemma get_put_str t rest : get_str (put_str t ++ rest) = Some (t, rest).
Proof. unfold put_str, get_str. cbn [app]. by rewrite Nat2Z.id, take_app_length, drop_app_length. Qed.

Lemma many_map {A} (get : str → option (A * str)) (put : A → str) l rest :
  Forall (λ a, ∀ rest, get (put a ++ rest) = Some (a, rest)) l →
  many get (Z.to_nat (zlen l)) (concat (map put l) ++ rest) = Some (l, rest).
Proof.
  rewrite Nat2Z.id. intros Hl. induction Hl as [|a l Ha _ IH]; [done|]. cbn.
  rewrite <- app_assoc, Ha. cbn. by rewrite IH.
Qed.

Lemma encoded_inside {A} (put : A → str) l a : a ∈ l → (length (put a) ≤ length (concat (map put l)))%nat.
Proof.
  induction l as [|b l IH]; [by intros ?%not_elem_of_nil|]. cbn. rewrite length_app.
  intros [->|H%IH]%elem_of_cons; lia.
Qed.

Lemma decode_encode j fuel rest :
  (length (encode_json j) ≤ fuel)%nat → decode_json fuel (encode_json j ++ rest) = Some (j, rest).
Proof.
  revert fuel rest. induction j as [s|n|b|l IH|l IH] using json_rect'; intros [|fuel] rest Hf; try (cbn in Hf; lia).
  - cbn [encode_json app decode_json]. by rewrite get_put_str.
  - done.
  - by destruct b.
  - cbn [encode_json app decode_json]. rewrite many_map; [done|].
    rewrite list.Forall_forall in *. intros j Hj rest'. apply IH; [done|].
    pose proof (encoded_inside encode_json l j Hj) as H. cbn [encode_json length] in Hf. lia.
  - cbn [encode_json app decode_json]. rewrite many_map; [done|].
    rewrite list.Forall_forall in *. intros [k v] Hj rest'. cbn [fst snd].
    rewrite <- app_assoc, get_put_str. cbn [mbind option_bind]. rewrite (IH (k, v) Hj fuel); [done|].
    pose proof (encoded_inside (λ kv, put_str kv.1 ++ encode_json kv.2) l (k, v) Hj) as H.
    cbn [encode_json length fst snd] in *. rewrite length_app in H. lia.
Qed.

Definition print_json (j : json) : option str := Some (encode_json j).
Definition parse_json (s : str) : option json :=
  match decode_json (length s) s with Some (j, []) => Some j | _ => None end.

Definition object_of (l : list (str * json)) : json := JObject l.
Definition entries_of (j : json) : option (list (str * json)) :=
  match j with JObject l => if ascending l then Some l else None | _ => None end.

Fixpoint json_of_tree (t : tree) : json :=
  match t with
  | TText s => JText s
  | TNumber n => JNumber n
  | TBool b => JBool b
  | TSeq l => JArray (map json_of_tree l)
  | TStruct fields => JObject (from_entries (map (λ kv, (kv.1, json_of_tree kv.2)) fields))
  end.

Fixpoint json_pointer (p : list str) (j : json) : option json :=
  match p with
  | [] => Some j
  | k :: p => l ← entries_of j; c ← assoc k l; json_pointer p c
  end.
Fixpoint json_assign (p : list str) (n j : json) : option json :=
  match p with
  | [] => Some n
  | k :: p =>
      l ← entries_of j; c ← assoc k l; c' ← json_assign p n c; Some (object_of (entry_insert k c' l))
  end.

#[export] Instance sample_json : Json := {|
  value := json;
  of_tree := json_of_tree;
  serialize t := print_json (json_of_tree t);
  print := print_json;
  parse := parse_json;
  object := object_of;
  as_object := entries_of;
  as_array j := match j with JArray l => Some l | _ => None end;
  as_str j := match j with JText s => Some s | _ => None end;
  as_u64 j := match j with JNumber n => if (0 <=? n) && (n <? 2 ^ 64) then Some n else None | _ => None end;
  pointer := json_pointer;
  assign_at := json_assign;
|}.

#[export] Instance sample_json_laws : JsonLaws sample_json.
Proof.
  assert (Hp : ∀ j, parse_json (encode_json j) = Some j).
  { intros j. unfold parse_json. rewrite <- (app_nil_r (encode_json j)) at 2. by rewrite decode_encode. }
  constructor.
  - intros v s [= <-]. apply Hp.
  - intros t s [= <-]. apply Hp.
  - intros l Hl. change (entries_of (JObject l) = Some l). unfold entries_of. by rewrite (Hl : ascending (V:=json) l = true).
  - intros v l H. destruct v as [| | | |l']; try done. cbn in H. destruct (ascending l') eqn:E; [|done].
    by injection H as <-.
  - done.
  - done.
  - done.
  - intros n Hn. cbn. by rewrite (proj2 (Z.leb_le _ _)), (proj2 (Z.ltb_lt _ _)) by lia.
  - done.
  - done.
  - done.
  - done.
Qed.

#[export] Instance sample_guids : Guids := {| guid_debug id := hex 32 id |}.

Lemma parts_snoc p k q :
  parts (p ++ [k]) q = true → parts p q = true ∨ ∃ k' q', q = p ++ k' :: q' ∧ k ≠ k'.
Proof.
  revert q. induction p as [|a p IH]; intros [|b q]; cbn; try done.
  - rewrite orb_true_iff, negb_true_iff, str_eqb_neq. intros [Hne|?]; [|by destruct q]. right. eauto.
  - intros [Hne|H]%orb_true_iff; [left; by rewrite Hne|].
    destruct (str_eqb a b) eqn:E; [|by left]. apply str_eqb_spec in E as ->.
    destruct (IH _ H) as [->|(k' & q' & -> & Hk)]; [by left; rewrite orb_true_r|right; eauto].
Qed.

Lemma plain_app p q : plain (p ++ q) = plain p && plain q.
Proof. unfold plain. apply forallb_app. Qed.

Section edits.
Context `{J : Json} `{L : !JsonLaws J} `{G : Guids}.

Definition looked_up (d : str) (q : list str) : option value := parse d ≫= pointer q.

(** Everything that does not reach into [p] is as it was. *)
Definition same_but (p : list str) (d d' : str) : Prop :=
  ∀ q, plain q = true → parts p q = true → looked_up d' q = looked_up d q.

Lemma plain_devices : plain DEVICES_POINTER = true.
Proof. reflexivity. Qed.

Lemma devices_plain k q : is_index k = false → plain q = true → plain (DEVICES_POINTER ++ k :: q) = true.
Proof. intros Hk Hq. rewrite plain_app. cbn. by rewrite Hk. Qed.

(** ** One section of [Devices] *)

Lemma devices_assigned k q (es es' : list (str * value)) c c' devices :
  pointer DEVICES_POINTER c = Some devices → as_object devices = Some es →
  ascending es' = true → (∀ k', k ≠ k' → assoc k' es' = assoc k' es) →
  assign_at DEVICES_POINTER (object es') c = Some c' →
  plain q = true → parts (DEVICES_POINTER ++ [k]) q = true → pointer q c' = pointer q c.
Proof.
  intros Hd He Hs Hsame Ha Hq Hp.
  destruct (parts_snoc _ _ _ Hp) as [Hp'|(k' & q' & -> & Hne)]; [by eapply (assigned_elsewhere DEVICES_POINTER)|].
  rewrite plain_app in Hq. apply andb_true_iff in Hq as [_ [Hk' Hq']%plain_cons].
  pose proof (assigned_there _ _ _ _ plain_devices Ha) as Hd'.
  rewrite (pointer_app _ _ _ _ plain_devices Hd), (pointer_app _ _ _ _ plain_devices Hd'), !pointer_in by done.
  rewrite He, object_entries by done. cbn. by rewrite Hsame.
Qed.

Lemma insert_device_inv c k s c' :
  is_index k = false → insert_device c k s = Ok c' →
  ∃ devices es, pointer DEVICES_POINTER c = Some devices ∧ as_object devices = Some es ∧
    ascending es = true ∧ assign_at DEVICES_POINTER (object (entry_insert k s es)) c = Some c' ∧
    pointer (DEVICES_POINTER ++ [k]) c' = Some s.
Proof.
  unfold insert_device, write_at. intros Hk H.
  destruct (pointer DEVICES_POINTER c) as [devices|] eqn:Hd; [|done]. cbn in H.
  destruct (as_object devices) as [es|] eqn:He; [|done]. cbn in H.
  destruct (assign_at _ _ _) as [c1|] eqn:Ha; [|done]. cbn in H. injection H as <-.
  pose proof (entries_object _ _ He) as [Hs _]. exists devices, es. split_and!; try done.
  rewrite (pointer_app _ _ _ _ plain_devices (assigned_there _ _ _ _ plain_devices Ha)), pointer_in by done.
  rewrite object_entries by auto using ascending_insert. cbn. rewrite assoc_insert. cbn. apply pointer_here.
Qed.

Lemma insert_device_frame c k s c' q :
  is_index k = false → insert_device c k s = Ok c' →
  plain q = true → parts (DEVICES_POINTER ++ [k]) q = true → pointer q c' = pointer q c.
Proof.
  intros Hk (devices & es & Hd & He & Hs & Ha & _)%insert_device_inv Hq Hp; [|done].
  eapply devices_assigned; [done|done| | |done|done|done]; [by apply ascending_insert|].
  intros k' Hne. by apply assoc_insert_ne.
Qed.

(** Inserting the same section twice is inserting it once. *)
Lemma insert_device_again c k s c' :
  is_index k = false → insert_device c k s = Ok c' → insert_device c' k s = Ok c'.
Proof.
  intros Hk (devices & es & Hd & He & Hs & Ha & _)%insert_device_inv; [|done].
  unfold insert_device, write_at. rewrite (assigned_there _ _ _ _ plain_devices Ha). cbn.
  rewrite object_entries by auto using ascending_insert. cbn. rewrite insert_insert.
  by rewrite (assign_twice _ _ _ _ _ _ plain_devices Ha Ha).
Qed.

Lemma remove_device_inv c k c' :
  remove_device c k = Some c' →
  ∃ devices es v, pointer DEVICES_POINTER c = Some devices ∧ as_object devices = Some es ∧
    ascending es = true ∧ assoc k es = Some v ∧
    assign_at DEVICES_POINTER (object (entry_remove k es)) c = Some c'.
Proof.
  unfold remove_device. intros H.
  destruct (pointer DEVICES_POINTER c) as [devices|] eqn:Hd; [|done]. cbn in H.
  destruct (as_object devices) as [es|] eqn:He; [|done]. cbn in H.
  destruct (assoc k es) as [v|] eqn:Hv; [|done]. cbn in H.
  pose proof (entries_object _ _ He) as [Hs _]. eauto 10.
Qed.

Lemma remove_device_frame c k c' q :
  remove_device c k = Some c' → plain q = true → parts (DEVICES_POINTER ++ [k]) q = true →
  pointer q c' = pointer q c.
Proof.
  intros (devices & es & v & Hd & He & Hs & Hv & Ha)%remove_device_inv Hq Hp.
  eapply devices_assigned; [done|done| | |done|done|done]; [by apply ascending_remove|].
  intros k' Hne. by apply assoc_remove_ne.
Qed.

Lemma removed_device c k c' :
  is_index k = false → remove_device c k = Some c' → pointer (DEVICES_POINTER ++ [k]) c' = None.
Proof.
  intros Hk (devices & es & v & Hd & He & Hs & Hv & Ha)%remove_device_inv.
  rewrite (pointer_app _ _ _ _ plain_devices (assigned_there _ _ _ _ plain_devices Ha)), pointer_in by done.
  rewrite object_entries by auto using ascending_remove. cbn. by rewrite assoc_remove.
Qed.

(** What was inserted, and what it replaced, do not show once it is removed. *)
Lemma remove_inserted c k s c' :
  is_index k = false → insert_device c k s = Ok c' →
  ∃ c0, remove_device c' k = Some c0 ∧ (remove_device c k = Some c0 ∨ remove_device c k = None ∧ c0 = c).
Proof.
  intros Hk (devices & es & Hd & He & Hs & Ha & _)%insert_device_inv; [|done].
  assert (Hr : ∃ c0, assign_at DEVICES_POINTER (object (entry_remove k es)) c = Some c0) by (apply assignable; eauto).
  destruct Hr as [c0 Hr]. exists c0. unfold remove_device.
  rewrite (assigned_there _ _ _ _ plain_devices Ha), Hd. cbn [mbind option_bind].
  rewrite object_entries, He by auto using ascending_insert. cbn [mbind option_bind]. rewrite assoc_insert.
  cbn [mbind option_bind]. rewrite remove_insert by done. split; [by eapply assign_twice|].
  destruct (assoc k es) as [v|] eqn:Hv; cbn [mbind option_bind]; [by left|right]. split; [done|].
  rewrite remove_absent in Hr by done. apply entries_object in He as [_ He]. rewrite He in Hr.
  rewrite (assign_same _ _ _ plain_devices Hd) in Hr. congruence.
Qed.

End edits.

(** ** The edits, on text *)

Section documents.
Context `{J : Json} `{L : !JsonLaws J} `{G : Guids}.

Lemma write_document_inv c d : write_document c = Ok d → parse d = Some c.
Proof. unfold write_document. destruct (print c) eqn:E; [|done]. intros [= <-]. by apply printed_parses. Qed.

Lemma parse_document_inv d c : parse_document d = Ok c → parse d = Some c.
Proof. unfold parse_document. destruct (parse d); [|done]. by intros [= <-]. Qed.

Lemma write_at_inv c p n c' : write_at c p n = Ok c' → assign_at p n c = Some c'.
Proof. unfold write_at. destruct (assign_at p n c); [|done]. by intros [= <-]. Qed.

(** What is read of a document is read at these places. *)
Definition adapter_place : list str := DEVICES_POINTER ++ [NETWORK_ADAPTERS_KEY].
Definition shares_place : list str := DEVICES_POINTER ++ [PLAN9_KEY].

Lemma read_topology_at d c :
  parse d = Some c →
  read_topology d =
    (let? ram := read_u32 c MEMORY_SIZE_POINTER in
     let? cores := read_u32 c PROCESSOR_COUNT_POINTER in Ok (mk_topology ram cores)).
Proof. intros H. unfold read_topology, parse_document. by rewrite H. Qed.

Lemma read_u32_of_pointer c c' p : pointer p c = pointer p c' → read_u32 c p = read_u32 c' p.
Proof. unfold read_u32. by intros ->. Qed.

Lemma same_topology d d' c c' :
  parse d = Some c → parse d' = Some c' →
  pointer MEMORY_SIZE_POINTER c' = pointer MEMORY_SIZE_POINTER c →
  pointer PROCESSOR_COUNT_POINTER c' = pointer PROCESSOR_COUNT_POINTER c →
  read_topology d' = read_topology d.
Proof.
  intros Hc Hc' Hm Hp. rewrite (read_topology_at _ _ Hc), (read_topology_at _ _ Hc').
  by rewrite (read_u32_of_pointer _ _ _ Hm), (read_u32_of_pointer _ _ _ Hp).
Qed.

Lemma same_mac d d' c c' :
  parse d = Some c → parse d' = Some c' → pointer adapter_place c' = pointer adapter_place c →
  attached_mac_address d' = attached_mac_address d.
Proof. intros Hc Hc' H. unfold attached_mac_address. rewrite Hc, Hc'. cbn [mbind option_bind]. unfold adapter_place in H. by rewrite H. Qed.

Lemma same_attachments d d' c c' :
  parse d = Some c → parse d' = Some c' → pointer ATTACHMENTS_POINTER c' = pointer ATTACHMENTS_POINTER c →
  attachment_paths d' = attachment_paths d.
Proof. intros Hc Hc' H. unfold attachment_paths, parse_document. rewrite Hc, Hc'. cbn [ok_or rbind]. by rewrite H. Qed.

(** A share, as the host offers it to the guest. *)
Record offered_share : Type := mk_offered {
  offered_name : option str;
  offered_access : option str;
  offered_path : option str;
  offered_port : option Z;
  offered_flags : option Z;
}.
Definition share_read (v : value) : offered_share :=
  mk_offered (get_field (text "Name") v ≫= as_str) (get_field (text "AccessName") v ≫= as_str)
    (get_field (text "Path") v ≫= as_str) (get_field (text "Port") v ≫= as_u64) (get_field (text "Flags") v ≫= as_u64).

Definition shares_list : list str := shares_place ++ [text "Shares"].
Definition offered_shares (d : str) : option (list offered_share) :=
  map share_read <$> (looked_up d shares_list ≫= as_array).

(** What it is to be: under its own name, read only, on the port of the shares. *)
Definition read_only_share (e : Plan9Export) : offered_share :=
  mk_offered (Some (export_name e)) (Some (export_name e)) (Some (export_path e)) (Some 50001) (Some 1).

Lemma share_field (k : string) (l : list (string * tree)) t :
  assoc (text k) (reverse (map (λ kv, (text kv.1, kv.2)) l)) = Some t →
  get_field (text k) (of_tree (fields l)) = Some (of_tree t).
Proof.
  intros Ha. unfold get_field, fields. rewrite struct_field. cbn [mbind option_bind].
  rewrite assoc_from_entries, <- (list.fmap_reverse (λ kv : str * tree, (kv.1, of_tree kv.2))), assoc_of_trees.
  unfold fmap, list_fmap in Ha |- *. by rewrite Ha.
Qed.

Lemma share_as_offered e : share_read (of_tree (Plan9Share e)) = read_only_share e.
Proof.
  unfold share_read, Plan9Share, read_only_share.
  rewrite (share_field "Name" _ (TText (export_name e))) by reflexivity.
  rewrite (share_field "AccessName" _ (TText (export_name e))) by reflexivity.
  rewrite (share_field "Path" _ (TText (export_path e))) by reflexivity.
  rewrite (share_field "Port" _ (TNumber PLAN9_PORT)) by reflexivity.
  rewrite (share_field "Flags" _ (TNumber PLAN9_FLAG_READ_ONLY)) by reflexivity.
  cbn [mbind option_bind]. by rewrite !text_is_str, !number_is_u64.
Qed.

Lemma same_shares d d' c c' :
  parse d = Some c → parse d' = Some c' → pointer shares_list c' = pointer shares_list c →
  offered_shares d' = offered_shares d.
Proof. intros Hc Hc' H. unfold offered_shares, looked_up. rewrite Hc, Hc'. cbn. by rewrite H. Qed.

Lemma same_but_of p d d' c c' :
  parse d = Some c → parse d' = Some c' →
  (∀ q, plain q = true → parts p q = true → pointer q c' = pointer q c) → same_but p d d'.
Proof. intros Hc Hc' H q Hq Hp. unfold looked_up. rewrite Hc, Hc'. cbn. auto. Qed.

(** *** Memory and processors *)

Definition in_u32 (n : Z) : Prop := 0 <= n < 2 ^ 32.

Lemma read_written_u32 c p n : in_u32 n → pointer p c = Some (of_tree (TNumber n)) → read_u32 c p = Ok n.
Proof.
  unfold in_u32, read_u32. intros Hn ->. cbn [mbind option_bind]. rewrite number_is_u64 by lia.
  cbn [mbind option_bind]. by rewrite (proj2 (Z.ltb_lt _ _)) by lia.
Qed.

Lemma apply_topology_inv d t d' :
  apply_topology d t = Ok d' →
  ∃ c c1 c', parse d = Some c ∧ parse d' = Some c' ∧
    assign_at MEMORY_SIZE_POINTER (of_tree (TNumber (topology_ram t))) c = Some c1 ∧
    assign_at PROCESSOR_COUNT_POINTER (of_tree (TNumber (topology_cores t))) c1 = Some c'.
Proof.
  unfold apply_topology. intros H.
  destruct (parse_document d) as [c|e|] eqn:Hc; [|done..]. cbn [rbind] in H. apply parse_document_inv in Hc.
  destruct (write_at c _ _) as [c1|e|] eqn:H1; [|done..]. cbn [rbind] in H. apply write_at_inv in H1.
  destruct (write_at c1 _ _) as [c'|e|] eqn:H2; [|done..]. cbn [rbind] in H. apply write_at_inv in H2.
  apply write_document_inv in H. eauto 10.
Qed.

Lemma topology_edit d t d' :
  in_u32 (topology_ram t) → in_u32 (topology_cores t) → apply_topology d t = Ok d' →
  read_topology d' = Ok t ∧ attached_mac_address d' = attached_mac_address d ∧
  attachment_paths d' = attachment_paths d ∧ offered_shares d' = offered_shares d.
Proof.
  intros Hr Hk (c & c1 & c' & Hc & Hc' & H1 & H2)%apply_topology_inv.
  assert (Hf : ∀ q, plain q = true → parts MEMORY_SIZE_POINTER q = true → parts PROCESSOR_COUNT_POINTER q = true →
                 pointer q c' = pointer q c).
  { intros q Hq Hm Hp. rewrite (assigned_elsewhere PROCESSOR_COUNT_POINTER q _ _ _ eq_refl Hq Hp H2).
    by apply (assigned_elsewhere MEMORY_SIZE_POINTER q _ _ _ eq_refl Hq Hm H1). }
  split_and!.
  - assert (Hm : pointer MEMORY_SIZE_POINTER c' = Some (of_tree (TNumber (topology_ram t)))).
    { rewrite (assigned_elsewhere PROCESSOR_COUNT_POINTER MEMORY_SIZE_POINTER _ _ _ eq_refl eq_refl eq_refl H2).
      by apply (assigned_there MEMORY_SIZE_POINTER _ _ _ eq_refl H1). }
    pose proof (assigned_there PROCESSOR_COUNT_POINTER _ _ _ eq_refl H2) as Hp.
    rewrite (read_topology_at _ _ Hc'), (read_written_u32 _ _ _ Hr Hm), (read_written_u32 _ _ _ Hk Hp).
    by destruct t.
  - eapply same_mac; [done..|]. by apply Hf.
  - eapply same_attachments; [done..|]. by apply Hf.
  - eapply same_shares; [done..|]. by apply Hf.
Qed.

(** *** The network adapter *)

Lemma apply_network_adapter_inv d e mac d' :
  apply_network_adapter d e mac = Ok d' →
  ∃ c c', parse d = Some c ∧ parse d' = Some c' ∧
    insert_device c NETWORK_ADAPTERS_KEY (of_tree (network_adapters e mac)) = Ok c' ∧ write_document c' = Ok d'.
Proof.
  unfold apply_network_adapter. intros H.
  destruct (parse_document d) as [c|x|] eqn:Hc; [|done..]. cbn [rbind] in H. apply parse_document_inv in Hc.
  destruct (insert_device c _ _) as [c'|x|] eqn:H1; [|done..]. cbn [rbind] in H.
  pose proof (write_document_inv _ _ H). eauto 10.
Qed.

Lemma read_adapter d c e mac :
  mac ≠ [] → parse d = Some c → pointer adapter_place c = Some (of_tree (network_adapters e mac)) →
  attached_mac_address d = Some mac.
Proof.
  intros Hm Hc Hp. unfold attached_mac_address. rewrite Hc. cbn [mbind option_bind].
  unfold adapter_place in Hp. rewrite Hp. cbn [mbind option_bind]. unfold network_adapters.
  rewrite struct_field. cbn [map from_entries foldl entry_insert mbind option_bind list.head fst snd].
  unfold get_field, fields. rewrite struct_field. cbn [mbind option_bind].
  rewrite assoc_from_entries.
  change (assoc (text "MacAddress") (reverse _)) with (Some (of_tree (TText mac))).
  cbn [mbind option_bind]. rewrite text_is_str. cbn [mbind option_bind]. by rewrite bool_decide_eq_false_2.
Qed.

Lemma adapter_edit d e mac d' :
  mac ≠ [] → apply_network_adapter d e mac = Ok d' →
  attached_mac_address d' = Some mac ∧ apply_network_adapter d' e mac = Ok d' ∧
  same_but adapter_place d d' ∧ read_topology d' = read_topology d ∧ attachment_paths d' = attachment_paths d ∧
  offered_shares d' = offered_shares d.
Proof.
  intros Hm (c & c' & Hc & Hc' & Hi & Hw)%apply_network_adapter_inv.
  pose proof (insert_device_inv _ NETWORK_ADAPTERS_KEY _ _ eq_refl Hi) as (_ & _ & _ & _ & _ & _ & Hp).
  assert (Hf : ∀ q, plain q = true → parts adapter_place q = true → pointer q c' = pointer q c)
    by (intros q; by eapply (insert_device_frame _ NETWORK_ADAPTERS_KEY)).
  split_and!.
  - by eapply read_adapter.
  - unfold apply_network_adapter, parse_document. rewrite Hc'. cbn [ok_or rbind].
    by rewrite (insert_device_again _ NETWORK_ADAPTERS_KEY _ _ eq_refl Hi).
  - by eapply same_but_of.
  - eapply same_topology; [done..|by apply Hf|by apply Hf].
  - eapply same_attachments; [done..|]. by apply Hf.
  - eapply same_shares; [done..|]. by apply Hf.
Qed.

(** Removing it: nothing else is touched, and a document that has none is left
    as it is, byte for byte. *)
Lemma without_device_inv d k d' :
  is_index k = false → without_device d k = Ok d' →
  ∃ c c', parse d = Some c ∧ parse d' = Some c' ∧
    ((remove_device c k = None ∧ d' = d) ∨ remove_device c k = Some c') ∧
    ∀ q, plain q = true → parts (DEVICES_POINTER ++ [k]) q = true → pointer q c' = pointer q c.
Proof.
  unfold without_device. intros Hk H.
  destruct (parse_document d) as [c|x|] eqn:Hc; [|done..]. cbn [rbind] in H. apply parse_document_inv in Hc.
  destruct (remove_device c k) as [c'|] eqn:Hr.
  - pose proof (write_document_inv _ _ H). exists c, c'. split_and!; auto. intros q. by eapply remove_device_frame.
  - injection H as <-. exists c, c. split_and!; auto.
Qed.

Lemma nothing_removed c k :
  is_index k = false → remove_device c k = None → pointer (DEVICES_POINTER ++ [k]) c = None.
Proof.
  intros Hk Hr. destruct (pointer (DEVICES_POINTER ++ [k]) c) as [x|] eqn:Hp; [|done].
  apply (pointer_prefix DEVICES_POINTER) in Hp as (devices & Hd & Hp); [|done].
  rewrite pointer_in in Hp by done. unfold remove_device in Hr. rewrite Hd in Hr. cbn [mbind option_bind] in Hr.
  destruct (as_object devices) as [es|]; cbn [mbind option_bind] in *; [|done].
  destruct (assoc k es) as [v|]; cbn [mbind option_bind] in *; [|done].
  assert (Hs : ∃ c1, assign_at DEVICES_POINTER (object (entry_remove k es)) c = Some c1) by (apply assignable; eauto).
  destruct Hs as [c1 Hs]. congruence.
Qed.

Lemma removed_adapter d d' :
  remove_network_adapter d = Ok d' →
  attached_mac_address d' = None ∧ same_but adapter_place d d' ∧
  read_topology d' = read_topology d ∧ attachment_paths d' = attachment_paths d ∧
  offered_shares d' = offered_shares d.
Proof.
  intros (c & c' & Hc & Hc' & Hr & Hf)%(without_device_inv _ NETWORK_ADAPTERS_KEY); [|done].
  assert (Hg : pointer adapter_place c' = None).
  { destruct Hr as [[Hr ->]|Hr]; [|by apply removed_device in Hr].
    rewrite Hc in Hc'. injection Hc' as <-. by apply nothing_removed. }
  split_and!.
  - unfold attached_mac_address. rewrite Hc'. cbn [mbind option_bind]. unfold adapter_place in Hg. by rewrite Hg.
  - by eapply same_but_of.
  - eapply same_topology; [done..|by apply Hf|by apply Hf].
  - eapply same_attachments; [done..|]. by apply Hf.
  - eapply same_shares; [done..|]. by apply Hf.
Qed.

(** Attaching and detaching again is detaching. *)
Lemma attach_then_detach d e mac d' d1 d0 :
  apply_network_adapter d e mac = Ok d' → remove_network_adapter d' = Ok d1 → remove_network_adapter d = Ok d0 →
  parse d1 = parse d0.
Proof.
  intros (c & c' & Hc & Hc' & Hi & Hw)%apply_network_adapter_inv H1 H0.
  pose proof (remove_inserted _ NETWORK_ADAPTERS_KEY _ _ eq_refl Hi) as (c0 & Hr & Hor).
  unfold remove_network_adapter, without_device, parse_document in *. rewrite Hc' in H1. rewrite Hc in H0.
  cbn [ok_or rbind] in *. rewrite Hr in H1. apply write_document_inv in H1. rewrite H1.
  destruct Hor as [Hr0|[Hr0 ->]]; rewrite Hr0 in H0; [by apply write_document_inv in H0|by injection H0 as <-].
Qed.

(** *** The shares *)

Lemma offered_there d c exports :
  parse d = Some c →
  pointer shares_place c = Some (of_tree (fields [("Shares", TSeq (map Plan9Share exports))]%string)) →
  offered_shares d = Some (map read_only_share exports).
Proof.
  intros Hc Hp. unfold offered_shares, looked_up, shares_list. rewrite Hc. cbn [mbind option_bind].
  rewrite (pointer_app _ _ _ _ (eq_refl : plain shares_place = true) Hp), pointer_in by done.
  unfold fields. rewrite struct_field. cbn [mbind option_bind]. rewrite assoc_from_entries.
  change (assoc (text "Shares") (reverse _)) with (Some (of_tree (TSeq (map Plan9Share exports)))).
  cbn [mbind option_bind]. rewrite pointer_here. cbn [mbind option_bind]. rewrite array_of_seq. cbn.
  rewrite !map_map. f_equal. apply map_ext, share_as_offered.
Qed.

Lemma nothing_offered d c : parse d = Some c → pointer shares_place c = None → offered_shares d = None.
Proof.
  intros Hc Hp. unfold offered_shares, looked_up, shares_list. rewrite Hc. cbn [mbind option_bind].
  destruct (pointer (shares_place ++ [text "Shares"]) c) as [v|] eqn:Hv; [|done].
  apply (pointer_prefix shares_place) in Hv as (x & Hx & _); [congruence|done].
Qed.

Lemma shares_edit d exports d' :
  apply_plan9_shares d exports = Ok d' →
  same_but shares_place d d' ∧ attached_mac_address d' = attached_mac_address d ∧
  read_topology d' = read_topology d ∧ attachment_paths d' = attachment_paths d ∧
  offered_shares d' = Some (map read_only_share exports).
Proof.
  unfold apply_plan9_shares. intros H.
  destruct (parse_document d) as [c|x|] eqn:Hc; [|done..]. cbn [rbind] in H. apply parse_document_inv in Hc.
  destruct (insert_device c _ _) as [c'|x|] eqn:Hi; [|done..]. cbn [rbind] in H. apply write_document_inv in H.
  assert (Hf : ∀ q, plain q = true → parts shares_place q = true → pointer q c' = pointer q c)
    by (intros q; by eapply (insert_device_frame _ PLAN9_KEY)).
  split_and!; [by eapply same_but_of|..].
  - eapply same_mac; [done..|]. by apply Hf.
  - eapply same_topology; [done..|by apply Hf|by apply Hf].
  - eapply same_attachments; [done..|]. by apply Hf.
  - eapply offered_there; [done|]. by pose proof (insert_device_inv _ PLAN9_KEY _ _ eq_refl Hi) as (_ & _ & _ & _ & _ & _ & Hp).
Qed.

Lemma removed_shares d d' :
  remove_plan9_shares d = Ok d' →
  offered_shares d' = None ∧ same_but shares_place d d' ∧ attached_mac_address d' = attached_mac_address d ∧
  read_topology d' = read_topology d ∧ attachment_paths d' = attachment_paths d.
Proof.
  intros (c & c' & Hc & Hc' & Hr & Hf)%(without_device_inv _ PLAN9_KEY); [|done].
  assert (Hg : pointer shares_place c' = None).
  { destruct Hr as [[Hr ->]|Hr]; [|by apply removed_device in Hr].
    rewrite Hc in Hc'. injection Hc' as <-. by apply nothing_removed. }
  split_and!.
  - by eapply nothing_offered.
  - by eapply same_but_of.
  - eapply same_mac; [done..|]. by apply Hf.
  - eapply same_topology; [done..|by apply Hf|by apply Hf].
  - eapply same_attachments; [done..|]. by apply Hf.
Qed.

(** ** A document that was just built *)

Lemma build_inv r disk seed tools gs rs id d :
  build r disk seed tools gs rs id = Ok d →
  request_validate r = Ok tt ∧ parse d = Some (of_tree (configuration_tree r disk seed tools gs rs id)).
Proof.
  unfold build. intros H. destruct (request_validate r) as [[]|e|] eqn:Hv; [|done..]. cbn [map_err rbind] in H.
  split; [done|].
  assert (Hs : serialize (configuration_tree r disk seed tools gs rs id) = Some d).
  { destruct (gpu_mode r); try done; destruct (ensure_supported_network_mode (network_mode r)); try done;
      cbn [rbind] in H; unfold ok_or in H; destruct (serialize _); congruence. }
  by apply serialized_parses.
Qed.

Lemma built_place r disk seed tools gs rs id d p t :
  build r disk seed tools gs rs id = Ok d → plain p = true →
  tree_at p (configuration_tree r disk seed tools gs rs id) = Some t → looked_up d p = Some (of_tree t).
Proof.
  intros [_ H]%build_inv Hp Ht. unfold looked_up. rewrite H. cbn [mbind option_bind]. by apply pointer_tree.
Qed.

Lemma attachment_path_of kind file : get_field (text "Path") (of_tree (attachment kind file)) ≫= as_str = Some file.
Proof.
  unfold get_field, attachment, fields. rewrite struct_field. cbn [mbind option_bind]. rewrite assoc_from_entries.
  change (assoc (text "Path") (reverse _)) with (Some (of_tree (TText file))). cbn [mbind option_bind].
  apply text_is_str.
Qed.

Lemma built_attachments r disk seed tools gs rs id d :
  build r disk seed tools gs rs id = Ok d →
  attachment_paths d =
    Ok (path_text disk :: media_text r seed :: match tools with Some t => [path_text t] | None => [] end).
Proof.
  intros H. assert (Hl : looked_up d ATTACHMENTS_POINTER = Some (of_tree (attachments r disk seed tools)))
    by (by eapply built_place).
  apply build_inv in H as [_ H]. unfold looked_up in Hl. rewrite H in Hl. cbn [mbind option_bind] in Hl.
  unfold attachment_paths, parse_document. rewrite H. cbn [ok_or rbind]. rewrite Hl. cbn [mbind option_bind].
  unfold attachments, fields. rewrite struct_field, from_entries_ascending by (destruct tools; reflexivity).
  destruct tools as [t|]; cbn [map omap list_omap fst snd]; rewrite ?attachment_path_of; reflexivity.
Qed.

Lemma built_topology r disk seed tools gs rs id d :
  in_u32 (ram_mb r) → in_u32 (cpu_cores r) → build r disk seed tools gs rs id = Ok d →
  read_topology d = Ok (mk_topology (ram_mb r) (cpu_cores r)).
Proof.
  intros Hr Hk H.
  assert (Hm : looked_up d MEMORY_SIZE_POINTER = Some (of_tree (TNumber (ram_mb r)))) by (by eapply built_place).
  assert (Hp : looked_up d PROCESSOR_COUNT_POINTER = Some (of_tree (TNumber (cpu_cores r)))) by (by eapply built_place).
  apply build_inv in H as [_ H]. unfold looked_up in *. rewrite H in Hm, Hp. cbn [mbind option_bind] in Hm, Hp.
  by rewrite (read_topology_at _ _ H), (read_written_u32 _ _ _ Hr Hm), (read_written_u32 _ _ _ Hk Hp).
Qed.

(** Every edit finds its place in a built document: what can go wrong is only
    that the result cannot be written. *)
Lemma insert_device_built c k s devices es :
  pointer DEVICES_POINTER c = Some devices → as_object devices = Some es →
  ∃ c', insert_device c k s = Ok c'.
Proof.
  intros Hd He. unfold insert_device, write_at. rewrite Hd. cbn [ok_or rbind]. rewrite He. cbn [ok_or rbind].
  assert (Ha : ∃ c', assign_at DEVICES_POINTER (object (entry_insert k s es)) c = Some c') by (apply assignable; eauto).
  destruct Ha as [c' ->]. by exists c'.
Qed.

Lemma built_devices r disk seed tools gs rs id d :
  build r disk seed tools gs rs id = Ok d →
  ∃ c devices es, parse d = Some c ∧ pointer DEVICES_POINTER c = Some devices ∧ as_object devices = Some es ∧
    assoc NETWORK_ADAPTERS_KEY es = None ∧ assoc PLAN9_KEY es = None.
Proof.
  intros H.
  assert (Hd : looked_up d DEVICES_POINTER = Some (of_tree (devices_tree r disk seed tools id))) by (by eapply built_place).
  apply build_inv in H as [_ H]. unfold looked_up in Hd. rewrite H in Hd. cbn [mbind option_bind] in Hd.
  eexists _, _, _. split_and!; [done..|apply struct_field| |]; rewrite assoc_from_entries;
    rewrite <- (list.fmap_reverse (λ kv : str * tree, (kv.1, of_tree kv.2))), (assoc_of_trees _ (reverse _));
    reflexivity.
Qed.

Lemma write_refused c e : write_document c = Err e → e = Unserializable.
Proof. unfold write_document. destruct (print c); by intros [=]. Qed.

(** ** The document as its readers know it *)

Inductive edit : Type :=
| SetTopology (t : VmTopology)
| Attach (endpoint : Z) (mac_address : str)
| Detach
| Offer (exports : list Plan9Export)
| Withdraw.

Definition apply_edit (d : str) (e : edit) : result Failure str :=
  match e with
  | SetTopology t => apply_topology d t
  | Attach endpoint mac => apply_network_adapter d endpoint mac
  | Detach => remove_network_adapter d
  | Offer exports => apply_plan9_shares d exports
  | Withdraw => remove_plan9_shares d
  end.
Fixpoint apply_edits (d : str) (es : list edit) : result Failure str :=
  match es with [] => Ok d | e :: es => let? d := apply_edit d e in apply_edits d es end.

(** What a start, the list of VMs and the host read of it. *)
Record readings : Type := mk_readings {
  topology_read : result Failure VmTopology;
  mac_read : option str;
  shares_read : option (list offered_share);
  files_read : result Failure (list str);
}.
Definition readings_of (d : str) : readings :=
  mk_readings (read_topology d) (attached_mac_address d) (offered_shares d) (attachment_paths d).
Definition read_edit (v : readings) (e : edit) : readings :=
  match e with
  | SetTopology t => mk_readings (Ok t) (mac_read v) (shares_read v) (files_read v)
  | Attach _ mac => mk_readings (topology_read v) (Some mac) (shares_read v) (files_read v)
  | Detach => mk_readings (topology_read v) None (shares_read v) (files_read v)
  | Offer exports =>
      mk_readings (topology_read v) (mac_read v) (Some (map read_only_share exports)) (files_read v)
  | Withdraw => mk_readings (topology_read v) (mac_read v) None (files_read v)
  end.
Definition sensible (e : edit) : Prop :=
  match e with
  | SetTopology t => in_u32 (topology_ram t) ∧ in_u32 (topology_cores t)
  | Attach _ mac => mac ≠ []
  | _ => True
  end.

Lemma readings_after d e d' : sensible e → apply_edit d e = Ok d' → readings_of d' = read_edit (readings_of d) e.
Proof.
  unfold readings_of. destruct e as [t|endpoint mac| |exports|];
    cbn [sensible apply_edit read_edit topology_read mac_read shares_read files_read].
  - by intros [Hr Hk] (-> & -> & -> & ->)%topology_edit.
  - by intros Hm (-> & _ & _ & -> & -> & ->)%adapter_edit.
  - by intros _ (-> & _ & -> & -> & ->)%removed_adapter.
  - by intros _ (_ & -> & -> & -> & ->)%shares_edit.
  - by intros _ (-> & _ & -> & -> & ->)%removed_shares.
Qed.

(** C25: the edits of a stored document keep to their places.  After any sequence
    of edits that succeed - memory and processors that fit 32 bits, attaching a
    network adapter with an address and detaching it, offering shares and taking them
    back - the readers of the document find the last thing written of each kind: the
    memory and the processors, the adapter's address, and the shares, each under its
    name and read only.  They find what was there before where nothing was written,
    and the same attached files. *)
Theorem edits_keep_to_their_places d es d' :
  Forall sensible es → apply_edits d es = Ok d' → readings_of d' = foldl read_edit (readings_of d) es.
Proof.
  intros Hs. revert d. induction Hs as [|e es He _ IH]; intros d H; cbn in *; [by injection H as <-|].
  destruct (apply_edit d e) as [d1|x|] eqn:H1; [|done..]. cbn [rbind] in H.
  rewrite (IH _ H). by rewrite (readings_after _ _ _ He H1).
Qed.

(** C26: a built document says what was asked for and takes every edit.  The
    memory, the processors and the attached files are the request's, in the order
    the controller is to have them; no adapter is attached and no share offered yet;
    and the adapter of a start and its shares find their place. *)
Theorem a_built_document_says_what_was_asked r disk seed tools gs rs id d :
  in_u32 (ram_mb r) → in_u32 (cpu_cores r) → build r disk seed tools gs rs id = Ok d →
  readings_of d =
    mk_readings (Ok (mk_topology (ram_mb r) (cpu_cores r))) None None
     (Ok (path_text disk :: media_text r seed :: match tools with Some t => [path_text t] | None => [] end)) ∧
  (∀ endpoint mac e, apply_network_adapter d endpoint mac = Err e → e = Unserializable) ∧
  (∀ exports e, apply_plan9_shares d exports = Err e → e = Unserializable).
Proof.
  intros Hr Hk H. destruct (built_devices _ _ _ _ _ _ _ _ H) as (c & devices & es & Hc & Hd & He & Hn & Hs).
  split_and!.
  - unfold readings_of. rewrite (built_topology _ _ _ _ _ _ _ _ Hr Hk H), (built_attachments _ _ _ _ _ _ _ _ H).
    f_equal.
    + unfold attached_mac_address. rewrite Hc. cbn [mbind option_bind].
      rewrite (pointer_app _ _ _ _ plain_devices Hd), pointer_in by done. rewrite He. cbn [mbind option_bind].
      by rewrite Hn.
    + apply (nothing_offered _ _ Hc). unfold shares_place.
      rewrite (pointer_app _ _ _ _ plain_devices Hd), pointer_in by done. rewrite He. cbn [mbind option_bind].
      by rewrite Hs.
  - intros endpoint mac e. unfold apply_network_adapter, parse_document. rewrite Hc. cbn [ok_or rbind].
    destruct (insert_device_built c NETWORK_ADAPTERS_KEY (of_tree (network_adapters endpoint mac)) _ _ Hd He) as [c' ->].
    apply write_refused.
  - intros exports e. unfold apply_plan9_shares, parse_document. rewrite Hc. cbn [ok_or rbind].
    edestruct (insert_device_built c PLAN9_KEY) as [c' ->]; [done..|]. apply write_refused.
Qed.

End documents.

(** ** On a document *)

Definition media_request : VmCreateRequest :=
  mk_request (text "dev") (LocalMedia (text "C:\arch.iso")) 2048 20 2 ModeNone NetworkNat.
Definition sample_build : result Failure str :=
  build media_request [text "C:"; text "system.vhdx"] [text "seed.iso"] None [text "vm.vmgs"] [text "vm.vmrs"] 5.
Definition sample_edits : list edit :=
  [Attach 7 (text "00-15-5D"); SetTopology (mk_topology 4096 4); Offer [mk_export (text "gpu") (text "C:\gpu")];
   Detach; Attach 8 (text "00-15-5E"); Withdraw; Offer [mk_export (text "display") (text "C:\display")]].

Lemma a_built_document_says_what_was_asked_witness :
  ∃ d, sample_build = Ok d ∧
    readings_of d = mk_readings (Ok (mk_topology 2048 2)) None None (Ok [text "C:\system.vhdx"; text "C:\arch.iso"]).
Proof.
  destruct sample_build as [d| |] eqn:Hd; [|vm_compute in Hd; discriminate Hd..].
  exists d. split; [reflexivity|].
  assert (H : in_u32 (ram_mb media_request) ∧ in_u32 (cpu_cores media_request)) by (cbn; unfold in_u32; lia).
  destruct H as [Hr Hk].
  destruct (a_built_document_says_what_was_asked media_request _ _ _ _ _ _ d Hr Hk Hd) as [Hv _].
  rewrite Hv. reflexivity.
Defined.

Lemma edits_keep_to_their_places_witness :
  ∃ d d', sample_build = Ok d ∧ apply_edits d sample_edits = Ok d' ∧
    readings_of d' = mk_readings (Ok (mk_topology 4096 4)) (Some (text "00-15-5E"))
      (Some [read_only_share (mk_export (text "display") (text "C:\display"))]) (attachment_paths d).
Proof.
  destruct sample_build as [d| |] eqn:Hd; [|vm_compute in Hd; discriminate Hd..].
  destruct (apply_edits d sample_edits) as [d'|e|] eqn:He.
  - exists d, d'. split; [reflexivity|]. split; [exact He|].
    assert (Hs : Forall sensible sample_edits).
    { repeat constructor; cbn; unfold in_u32; try lia; discriminate. }
    rewrite (edits_keep_to_their_places d sample_edits d' Hs He). reflexivity.
  - exfalso. vm_compute in Hd. injection Hd as <-. vm_compute in He. discriminate He.
  - exfalso. vm_compute in Hd. injection Hd as <-. vm_compute in He. discriminate He.
Defined.
