(* ===== verification/Metadata.v ===== *)
(** * Metadata: the document that remembers which VM is which

    crates/platform/src/metadata.rs.  The store is a path; every operation reads
    the document, and one that changes it writes the whole of it back.  The JSON
    of serde is a parameter ([MappingCodec]): what is assumed is that what was
    written reads back ([MappingLaws]).

    What the store promises to its callers is in MetadataProps.v. *)

From stdpp Require Import strings gmap list sets.
From S2P Require Import Prelude Stateful ClipboardPath CoreVm CoreGpu CoreDisplay CoreRequest Layout HostFiles.
#[local] Open Scope Z_scope.

Record GuestTargetKey : Type := mk_target { distribution : str; target_release : str; architecture : str }.

Record VmComputeSystemMapping : Type := mk_mapping {
  vm_id : Z;
  vm_name : str;
  hcs_compute_system_id : str;
  mapping_disk_gb : Z;
  endpoint_id : option Z;
  mapping_network : NetworkMode;
  mapping_ssh : option SshConfig;
  ssh_daemon : option SshDaemon;
  mapping_gpu : GpuMode;
  mapping_desktop : DesktopProfile;
  display_provisioning : DisplayProvisioning;
  display_mode : option DisplayMode;
  guest_target : option GuestTargetKey;
}.

Definition GUEST_ARCHITECTURE : string := "amd64".

Definition guest_target_key (s : VmSource) : option GuestTargetKey :=
  match s with
  | LocalMedia _ => None
  | CloudImageSource image _ =>
      Some (mk_target (os_release_id (profile image)) (release image) (text GUEST_ARCHITECTURE))
  end.

Definition set_display_mode (d : option DisplayMode) (m : VmComputeSystemMapping) : VmComputeSystemMapping :=
  mk_mapping (vm_id m) (vm_name m) (hcs_compute_system_id m) (mapping_disk_gb m) (endpoint_id m)
    (mapping_network m) (mapping_ssh m) (ssh_daemon m) (mapping_gpu m) (mapping_desktop m)
    (display_provisioning m) d (guest_target m).

(** [forgiving_display_mode], on a mapping whose stored width and height have not
    been looked at yet. *)
Definition forgiving_display_mode (m : VmComputeSystemMapping) : VmComputeSystemMapping :=
  set_display_mode (d ← display_mode m; mode_new (width d) (height d)) m.

(** A [DisplayMode] is only ever made by [DisplayMode::new]. *)
Definition mode_made (m : VmComputeSystemMapping) : Prop := forgiving_display_mode m = m.

Definition mapping_validate (m : VmComputeSystemMapping) : result Failure unit :=
  if bool_decide (vm_name m = []) then Err EmptyName
  else if bool_decide (hcs_compute_system_id m = []) then Err EmptySystemId
  else match mapping_ssh m with
       | Some c => map_err Invalid (config_validate c)
       | None => Ok tt
       end.

Class MappingCodec := {
  from_str : str → option (list VmComputeSystemMapping);
  to_string_pretty : list VmComputeSystemMapping → option str;
}.
Class MappingLaws (C : MappingCodec) : Prop := {
  written_reads_back : ∀ ms contents, to_string_pretty ms = Some contents → from_str contents = Some ms;
}.

Section store.
Context `{C : MappingCodec}.
Variable mapping_file_path : path.

Definition check_all (ms : list VmComputeSystemMapping) : result Failure unit :=
  foldr (λ m rest, match mapping_validate m with
                   | Ok _ => rest
                   | Err e => Err (InvalidMapping e)
                   | Panic => Panic
                   end) (Ok tt) ms.

Definition load : act (list VmComputeSystemMapping) :=
  let^ contents := read_to_string "read metadata mapping" mapping_file_path in
  match contents with
  | None => ret []
  | Some contents =>
      match from_str contents with
      | None => fail Unparsable
      | Some stored =>
          let mappings := map forgiving_display_mode stored in
          let^ _ := pure_of (check_all mappings) in
          ret mappings
      end
  end.

Definition save (mappings : list VmComputeSystemMapping) : act unit :=
  let^ _ := create_dir_all (parent mapping_file_path) in
  match to_string_pretty mappings with
  | None => fail Unserializable
  | Some document => write_file "write metadata mapping" mapping_file_path document
  end.

Definition conflicts (m existing : VmComputeSystemMapping) : bool :=
  negb (vm_id existing =? vm_id m)
  && bool_decide (hcs_compute_system_id existing = hcs_compute_system_id m).

Definition without (id : Z) (ms : list VmComputeSystemMapping) : list VmComputeSystemMapping :=
  filter (λ m, vm_id m ≠ id) ms.

Definition insert (m : VmComputeSystemMapping) : act unit :=
  let^ _ := pure_of (mapping_validate m) in
  let^ mappings := load in
  if existsb (conflicts m) mappings then fail (SystemIdTaken (hcs_compute_system_id m))
  else save (without (vm_id m) mappings ++ [m]).

Definition remove (id : Z) : act unit :=
  let^ mappings := load in
  let kept := without id mappings in
  if Nat.eqb (length kept) (length mappings) then ret tt else save kept.

Definition list_all : act (list VmComputeSystemMapping) := load.

Definition find_first (f : VmComputeSystemMapping → bool) : act (option VmComputeSystemMapping) :=
  let^ mappings := load in ret (List.find f mappings).
Definition find_by_vm_id (id : Z) : act (option VmComputeSystemMapping) :=
  find_first (λ m, vm_id m =? id).
Definition find_by_vm_name (n : str) : act (option VmComputeSystemMapping) :=
  find_first (λ m, str_eqb (vm_name m) n).
Definition find_by_hcs_id (id : str) : act (option VmComputeSystemMapping) :=
  find_first (λ m, str_eqb (hcs_compute_system_id m) id).

End store.

(** ** What the operations come to *)

Lemma forgiving_idempotent m : mode_made (forgiving_display_mode m).
Proof.
  unfold mode_made, forgiving_display_mode, set_display_mode. cbn. f_equal.
  destruct (display_mode m) as [[w h]|]; [|done]. cbn. unfold mode_new.
  destruct (orb _ _) eqn:E; [done|]. cbn. by rewrite E.
Qed.

Lemma forgive_all ms : Forall mode_made ms → map forgiving_display_mode ms = ms.
Proof. induction 1 as [|m ms Hm _ IH]; [done|]. cbn [map]. by rewrite Hm, IH. Qed.

Section store_lemmas.
Context `{C : MappingCodec} `{!MappingLaws C}.
Variable p : path.

(** What the document says, if it says anything. *)
Definition parsed (contents : str) : option (list VmComputeSystemMapping) :=
  stored ← from_str contents;
  let ms := map forgiving_display_mode stored in
  if is_ok (check_all ms) then Some ms else None.
Definition document (w : World) : option (list VmComputeSystemMapping) :=
  match files w !! p with
  | None => Some []
  | Some (Some contents) => parsed contents
  | Some None => None
  end.

Lemma load_ok w w' ms : load p w = (w', Ok ms) → files w' = files w ∧ document w = Some ms.
Proof.
  intros H. unfold load in H. act_ok H as contents, Hr. apply read_to_string_ok in Hr as [Hf Hr].
  unfold document, parsed. destruct contents as [contents|]; rewrite Hr; cbn in H |- *.
  - destruct (from_str contents) as [stored|]; [|done]. cbn.
    act_ok H as [], Hc. injection Hc as <- Hc. rewrite Hc. by injection H as <- <-.
  - by injection H as <- <-.
Qed.

Lemma load_files w w' r : load p w = (w', r) → files w' = files w.
Proof.
  intros H. apply map_eq. intros q. apply (f_equal fst) in H. cbn in H. subst w'.
  assert (Hs : stays nobody nobody nobody (load p)) by (unfold load; stays).
  apply (touched_files _ _ _ _ _ (Hs w)). auto.
Qed.

Lemma check_all_ok ms :
  is_ok (check_all ms) = true ↔ Forall (λ m, mapping_validate m = Ok tt) ms.
Proof.
  induction ms as [|m ms IH]; cbn; [by split|]. rewrite list.Forall_cons.
  destruct (mapping_validate m) as [[]|e|]; cbn; naive_solver.
Qed.

(** A document that was read holds mappings that are valid and whose modes are
    ones that can be driven. *)
Definition sound_mapping (m : VmComputeSystemMapping) : Prop := mapping_validate m = Ok tt ∧ mode_made m.

Lemma document_sound w ms : document w = Some ms → Forall sound_mapping ms.
Proof.
  unfold document, parsed. intros H. destruct (files w !! p) as [[contents|]|]; [|done|by injection H as <-].
  destruct (from_str contents) as [stored|]; [|done]. cbn in H.
  destruct (is_ok _) eqn:Hc; [|done]. injection H as <-. apply check_all_ok in Hc.
  rewrite list.Forall_forall in *. intros m Hm. split; [auto|].
  apply list_elem_of_In, in_map_iff in Hm as (x & <- & _). apply forgiving_idempotent.
Qed.

Lemma parsed_back ms contents :
  to_string_pretty ms = Some contents → Forall sound_mapping ms → parsed contents = Some ms.
Proof.
  intros Hw Hs. unfold parsed. rewrite (written_reads_back _ _ Hw). cbn.
  rewrite forgive_all by (revert Hs; apply Forall_impl; by intros m []).
  rewrite (proj2 (check_all_ok ms)); [done|]. revert Hs. apply Forall_impl. by intros m [].
Qed.

(** Saving either writes the whole of what is given, or fails; only a failed
    write changes the document. *)
Lemma save_ok ms w w' :
  Forall sound_mapping ms → save p ms w = (w', Ok tt) → document w' = Some ms.
Proof.
  intros Hs H. unfold save in H. act_ok H as [], Hd.
  destruct (to_string_pretty ms) as [contents|] eqn:Ht; [|done].
  apply write_file_ok in H. unfold document. rewrite H, lookup_insert_eq. by apply parsed_back.
Qed.

Lemma parent_shorter q : q ≠ [] → q ∉ ways_to (parent q).
Proof.
  intros Hq [n [E _]]%list_elem_of_fmap. apply (f_equal length) in E. unfold parent in E.
  rewrite !length_take in E. destruct q; cbn in *; [done|lia].
Qed.

Lemma save_elsewhere ms :
  stays (λ q, q ∈ ways_to (parent p) ∨ q = p) nobody nobody (save p ms).
Proof. unfold save. stays; [by left|by right]. Qed.

Lemma save_err ms w w' e :
  p ≠ [] → save p ms w = (w', Err e) →
  e = Io "write metadata mapping" p ∨ files w' !! p = files w !! p.
Proof.
  intros Hp H. unfold save in H.
  assert (Hd : ∀ w1 r, create_dir_all (parent p) w = (w1, r) → files w1 !! p = files w !! p).
  { intros w1 r Hd. apply (f_equal fst) in Hd. cbn in Hd. subst w1.
    apply (touched_files (λ q, q ∈ ways_to (parent p)) nobody nobody); [|by apply parent_shorter].
    by apply stays_create_dir_all. }
  apply abind_err in H as [H|(w1 & [] & H1 & H)]; [right; eauto|].
  destruct (to_string_pretty ms) as [contents|].
  - left. by eapply write_file_err.
  - right. injection H as <- <-. eauto.
Qed.

Lemma without_sound id ms : Forall sound_mapping ms → Forall sound_mapping (without id ms).
Proof. rewrite !list.Forall_forall. intros H m [_ Hm]%list_elem_of_filter. auto. Qed.

Lemma insert_ok m w w' :
  mode_made m → insert p m w = (w', Ok tt) →
  mapping_validate m = Ok tt ∧
  ∃ ms, document w = Some ms ∧ document w' = Some (without (vm_id m) ms ++ [m]) ∧
        Forall (λ x, vm_id x ≠ vm_id m → hcs_compute_system_id x ≠ hcs_compute_system_id m) ms.
Proof.
  intros Hm H. unfold insert in H. act_ok H as [], Hv. injection Hv as <- Hv. split; [done|].
  act_ok H as ms, Hl. pose proof (load_files _ _ _ Hl) as Hf. apply load_ok in Hl as [_ Hl].
  exists ms. destruct (existsb (conflicts m) ms) eqn:Hc; [done|]. split; [done|]. split.
  - eapply save_ok; [|done]. apply list.Forall_app. split; [|by repeat constructor].
    by apply without_sound, (document_sound w).
  - rewrite list.Forall_forall. intros other Hx Hne He.
    assert (existsb (conflicts m) ms = true); [|congruence].
    apply existsb_exists. exists other. split; [by apply list_elem_of_In|].
    unfold conflicts. rewrite (proj2 (Z.eqb_neq _ _) Hne). cbn. by apply bool_decide_eq_true_2.
Qed.

Lemma remove_ok id w w' :
  remove p id w = (w', Ok tt) →
  ∃ ms, document w = Some ms ∧ document w' = Some (without id ms).
Proof.
  intros H. unfold remove in H. act_ok H as ms, Hl.
  pose proof (load_files _ _ _ Hl) as Hf. apply load_ok in Hl as [_ Hl]. exists ms. split; [done|].
  destruct (Nat.eqb _ _) eqn:He.
  - injection H as <-. unfold document in Hl |- *. rewrite Hf, Hl. f_equal.
    apply Nat.eqb_eq in He. unfold without in *. symmetry. clear -He.
    induction ms as [|m ms IH]; [done|]. rewrite filter_cons in He |- *. case_decide.
    + cbn in He. f_equal. apply IH. lia.
    + pose proof (length_filter (λ m, vm_id m ≠ id) ms). cbn in He. lia.
  - eapply save_ok; [|done]. by apply without_sound, (document_sound w).
Qed.

Lemma find_first_ok f w w' r :
  find_first p f w = (w', Ok r) → files w' = files w ∧ ∃ ms, document w = Some ms ∧ r = List.find f ms.
Proof.
  intros H. unfold find_first in H. act_ok H as ms, Hl. injection H as <- <-.
  pose proof (load_files _ _ _ Hl) as Hf. apply load_ok in Hl as [_ Hl]. eauto.
Qed.

Lemma insert_err m w w' e :
  p ≠ [] → insert p m w = (w', Err e) →
  e = Io "write metadata mapping" p ∨ files w' !! p = files w !! p.
Proof.
  intros Hp H. unfold insert in H.
  apply abind_err in H as [[= <- _]|(w0 & [] & [= <- _] & H)]; [by right|].
  apply abind_err in H as [H|(w1 & ms & H1 & H)]; [right; by rewrite (load_files _ _ _ H)|].
  apply load_files in H1. rewrite <- H1. destruct (existsb _ _); [injection H as <- _; by right|].
  by eapply save_err.
Qed.

Lemma remove_err id w w' e :
  p ≠ [] → remove p id w = (w', Err e) →
  e = Io "write metadata mapping" p ∨ files w' !! p = files w !! p.
Proof.
  intros Hp H. unfold remove in H.
  apply abind_err in H as [H|(w1 & ms & H1 & H)]; [right; by rewrite (load_files _ _ _ H)|].
  apply load_files in H1. rewrite <- H1. destruct (Nat.eqb _ _); [done|]. by eapply save_err.
Qed.

Lemma insert_elsewhere m : stays (λ q, q ∈ ways_to (parent p) ∨ q = p) nobody nobody (insert p m).
Proof. unfold insert, load. stays. apply save_elsewhere. Qed.
Lemma remove_elsewhere id : stays (λ q, q ∈ ways_to (parent p) ∨ q = p) nobody nobody (remove p id).
Proof. unfold remove, load. stays. apply save_elsewhere. Qed.
Lemma find_elsewhere f : stays nobody nobody nobody (find_first p f).
Proof. unfold find_first, load. stays. Qed.

End store_lemmas.
