(* ===== verification/Creation.v ===== *)
(** * Creation: how a VM comes to be and how it goes

    crates/platform: cleanup.rs, create.rs (with [write_key_pair] of vm_key.rs)
    and delete.rs.  What these call outside themselves (the Host Compute and
    Networking Services, the disk and image importers, keys and hashes, the seed
    documents) is the interface [HostCalls]; what is promised of it is
    [HostLaws], in CreationProps.v. *)

From stdpp Require Import strings gmap list sets.
From S2P Require Import Prelude Stateful ClipboardPath CoreVm CoreGpu CoreDisplay CoreRequest.
From S2P Require Import Layout HostFiles Metadata Json HcsConfig.
#[local] Open Scope Z_scope.

(** The second disk of a VM: the file its user named, wherever that is, or the
    seed in its directory. *)
Inductive Attached : Type := UserMedia (named : str) | OwnFile (p : path).

(** crates/seed: what the two documents of the first boot are printed from. *)
Record SeedRequest : Type := mk_seed_request {
  seed_vm_name : str;
  seed_instance_id : str;
  seed_username : str;
  seed_password_hash : option str;
  seed_authorized_key : option str;
  seed_ssh : SshAccess;
  seed_locale : str;
  seed_keyboard : str;
  seed_keyboard_files : list KeyboardFile;
  seed_timezone : str;
  seed_admin_group : str;
  seed_ssh_daemon : SshDaemon;
  seed_agent_secret : option str;
  seed_desktop_packages : list str;
  seed_desktop_files : list DesktopFile;
  seed_desktop_service : option str;
  seed_package_refresh : PackageRefresh;
}.

Class HostCalls := {
  create_dynamic_vhdx : path → Z → act unit;
  cloud_disk : CloudImage → Z → path → act unit;
  media_is_file : str → World → bool;
  hcs_grant_vm_access : str → Attached → act unit;
  hcs_create_state_files : path → path → act unit;
  hcs_create_system : str → str → act unit;
  hcs_wait_created : str → act unit;
  hcs_open_if_present : str → act bool;
  hcs_terminate_and_wait : str → act unit;
  hcn_delete : Z → act unit;
  hcn_list : act (list Z);
  agent_beside_executable : World → option str;
  restrict_to_owner : path → act unit;
  generate_key_pair : str → act (str * str);
  hash_password : str → act str;
  generate_secret : act str;
  seed_image : SeedRequest → str;
  tools_image : str → str;
}.

Section pipelines.
Context `{H : HostCalls} `{C : MappingCodec} `{J : Json} `{G : Guids}.
(** The path of the mapping document. *)
Variable store : path.

(** ** cleanup.rs *)

Definition teardown_compute_system (id : str) : act unit :=
  let^ present := hcs_open_if_present id in
  if present : bool then hcs_terminate_and_wait id else ret tt.

Definition remove_vm_directory (vm_directory : path) : act unit :=
  let^ there := path_exists vm_directory in
  if there : bool then remove_dir_all vm_directory else ret tt.

(** A step of a best-effort cleanup: what it could not do is added to the list. *)
Definition collecting (m : act unit) (failures : list Failure) : act (list Failure) :=
  let^ r := attempt m in
  ret match r with Err e => failures ++ [e] | _ => failures end.

Fixpoint collect_all (steps : list (act unit)) (failures : list Failure) : act (list Failure) :=
  match steps with
  | [] => ret failures
  | m :: rest => let^ failures := collecting m failures in collect_all rest failures
  end.

Definition orphan_endpoints (listed : list Z) (mappings : list VmComputeSystemMapping) : list Z :=
  filter (λ id, existsb (λ m, bool_decide (endpoint_id m = Some id)) mappings = false) listed.

Definition remove_orphan_endpoints : act unit :=
  let^ listed := hcn_list in
  let^ mappings := list_all store in
  let^ failures := collect_all (map hcn_delete (orphan_endpoints listed mappings)) [] in
  match failures with
  | [] => ret tt
  | _ => fail (Combined "some endpoints that no VM owns were not removed" failures)
  end.

(** ** delete.rs *)

Definition remove_file_if_present (p : path) : act unit :=
  let^ there := path_exists p in if there : bool then remove_file p else ret tt.
Definition remove_directory_if_present (p : path) : act unit :=
  let^ there := path_exists p in if there : bool then remove_dir_all p else ret tt.

(** What a deletion that keeps the disks removes, in its order: a directory with
    everything under it, or a file. *)
Definition removal (t : bool * path) : act unit :=
  if t.1 then remove_directory_if_present t.2 else remove_file_if_present t.2.
Definition identity (d : path) : list (bool * path) :=
  [(false, configuration_path d); (true, ssh_keys_directory d); (false, ssh_known_hosts_path d);
   (true, ssh_sessions_directory d); (false, agent_secret_path d); (false, guest_state_path d);
   (false, runtime_state_path d)].

Definition remove_files (vm_directory : path) (delete_disks : bool) : act unit :=
  if delete_disks then remove_vm_directory vm_directory
  else
    let^ failures := collect_all (map removal (identity vm_directory)) [] in
    match failures with
    | [] => ret tt
    | _ => fail (Combined "some files of the deleted VM were not removed" failures)
    end.

(** The three things a VM is made of besides its mapping; each is removed even if
    an earlier one was not. *)
Definition remove_resources (mapping : VmComputeSystemMapping) (vm_directory : path) (delete_disks : bool)
    : act (list Failure) :=
  let^ f := collecting (teardown_compute_system (hcs_compute_system_id mapping)) [] in
  let^ f := match endpoint_id mapping with
            | Some e => collecting (hcn_delete e) f
            | None => ret f
            end in
  collecting (remove_files vm_directory delete_disks) f.

Definition delete_vm (vm_name : str) (vm_directory : path) (delete_disks : bool) : act unit :=
  let^ found := find_by_vm_name store vm_name in
  match found with
  | None => fail NoMapping
  | Some mapping =>
      let^ failures := remove_resources mapping vm_directory delete_disks in
      match failures with
      | [] => remove store (vm_id mapping)
      | _ => fail (Combined "deletion did not complete" failures)
      end
  end.

(** ** create.rs *)

Definition BYTES_PER_GIB : Z := 1073741824.

Definition system_id_of (id : Z) : str := text "vmlord-" ++ hex 32 id.

Definition build_configuration (r : VmCreateRequest) (d : path) (tools : option path) (id : Z)
    : result Failure str :=
  build r (system_disk_path d) (seed_path d) tools (guest_state_path d) (runtime_state_path d) id.

Definition media_path (r : VmCreateRequest) (seed : path) : Attached :=
  match source r with LocalMedia named => UserMedia named | CloudImageSource _ _ => OwnFile seed end.

(** [File::create], [File::create_new] and [write_all] on what they opened. *)
Definition create_file (operation : string) (p : path) : act unit := write_file operation p [].
Definition create_new_file (operation : string) (p : path) : act unit :=
  let^ there := path_exists p in
  if there : bool then fail KeyExists else write_file operation p [].

Definition write_restricted (p : path) (bytes : str) : act unit :=
  let^ _ := create_file "create" p in
  let^ _ := restrict_to_owner p in
  write_file "write" p bytes.

Definition write_key_pair (vm_directory : path) (keys : str * str) : act unit :=
  let private_path := ssh_key_path vm_directory in
  let^ _ := create_dir_all (parent private_path) in
  let^ _ := create_new_file "create the private key" private_path in
  let^ restricted := attempt (restrict_to_owner private_path) in
  match restricted with
  | Err e => let^ _ := attempt (remove_file private_path) in fail e
  | _ =>
      let^ _ := write_file "write the private key" private_path keys.1 in
      write_file "write the public key" (ssh_public_key_path vm_directory) keys.2
  end.

Definition desktop_as_str (p : DesktopProfile) : str :=
  text match p with Headless => "headless" | Gnome => "gnome" | Hyprland => "hyprland" end.
Definition desktop_for (d : DistroProfile) (p : DesktopProfile) : option DesktopSetup :=
  if wants_desktop p then desktops d !! desktop_as_str p else None.

Definition write_provisioning (vm_directory seed : path) (vm_name instance_id : str) (image : CloudImage)
    (p : Provisioning) (agent : option str) : act unit :=
  let^ authorized_key :=
    match ssh p with
    | SshEnabled true _ =>
        let^ keys := generate_key_pair vm_name in
        let^ _ := write_key_pair vm_directory keys in
        ret (Some keys.2)
    | _ => ret None
    end in
  let^ hash :=
    match password p with
    | Some w => let^ h := hash_password w in ret (Some h)
    | None => ret None
    end in
  let^ secret :=
    match agent with Some _ => let^ s := generate_secret in ret (Some s) | None => ret None end in
  let^ _ :=
    match secret with
    | Some s => write_restricted (agent_secret_path vm_directory) (s ++ [10])
    | None => ret tt
    end in
  let setup := desktop_for (profile image) (desktop p) in
  let document := seed_image
    (mk_seed_request vm_name instance_id (username p) hash authorized_key (ssh p) (locale p) (keyboard p)
       (profile_keyboard (profile image)) (timezone p) (admin_group (profile image))
       (profile_ssh (profile image)) secret (from_option packages [] setup)
       (from_option CoreRequest.files [] setup) (service_unit <$> setup) (package_refresh (profile image))) in
  let^ _ := write_restricted seed document in
  match agent with
  | Some a => write_file "write the tools volume" (tools_path vm_directory) (tools_image a)
  | None => ret tt
  end.

Definition create_hcs_system (id configuration : str) : act unit :=
  let^ _ := hcs_create_system id configuration in
  let^ waited := attempt (hcs_wait_created id) in
  match waited with
  | Err error =>
      let^ torn := attempt (teardown_compute_system id) in
      match torn with Err e => fail (WithCleanup error e) | _ => fail error end
  | _ => ret tt
  end.

Definition mapping_of (r : VmCreateRequest) (id : Z) : VmComputeSystemMapping :=
  mk_mapping id (name r) (system_id_of id) (disk_gb r) None (network_mode r)
    (match source r with LocalMedia _ => None | CloudImageSource _ p => ssh_config p end)
    (match source r with LocalMedia _ => None | CloudImageSource image _ => Some (profile_ssh (profile image)) end)
    (gpu_mode r) (desktop_profile r) (requested (desktop_profile r)) None (guest_target_key (source r)).

(** The part of [create] that the guard watches: the disk and what the first boot
    reads, *)
Definition write_disks (r : VmCreateRequest) (d : path) (id : Z) (agent : option str) : act unit :=
  let size := disk_gb r * BYTES_PER_GIB in
  let^ _ := check_build_cancelled in
  match source r with
  | LocalMedia named =>
      let^ _ := report StepWritingDisk in
      let^ _ := create_dynamic_vhdx (system_disk_path d) size in
      let^ there := gets (media_is_file named) in
      if there : bool then ret tt else fail MediaGone
  | CloudImageSource image p =>
      let^ _ := cloud_disk image size (system_disk_path d) in
      let^ _ := check_build_cancelled in
      let^ _ := report StepProvisioning in
      write_provisioning d (seed_path d) (name r) (system_id_of id) image p agent
  end.

(** the configuration and what the VM is granted, *)
Definition configure (r : VmCreateRequest) (d : path) (id : Z) (agent : option str) (configuration : str)
    : act unit :=
  let system_id := system_id_of id in
  let^ _ := check_build_cancelled in
  let^ _ := report StepProvisioning in
  let^ _ := write_file "write HCS configuration" (configuration_path d) configuration in
  let^ _ := hcs_create_state_files (guest_state_path d) (runtime_state_path d) in
  let^ _ := hcs_grant_vm_access system_id (OwnFile (system_disk_path d)) in
  let^ _ := hcs_grant_vm_access system_id (media_path r (seed_path d)) in
  let^ _ := match agent with
            | Some _ => hcs_grant_vm_access system_id (OwnFile (tools_path d))
            | None => ret tt
            end in
  let^ _ := hcs_grant_vm_access system_id (OwnFile (guest_state_path d)) in
  hcs_grant_vm_access system_id (OwnFile (runtime_state_path d)).

(** and the compute system. *)
Definition prepare (r : VmCreateRequest) (d : path) (id : Z) (agent : option str) (configuration : str)
    : act unit :=
  let^ _ := write_disks r d id agent in
  let^ _ := configure r d id agent configuration in
  let^ _ := check_build_cancelled in
  let^ _ := report StepRegistering in
  create_hcs_system (system_id_of id) configuration.

(** All of it, with what the guard is told: whether the system was created. *)
Definition guarded (r : VmCreateRequest) (d : path) (id : Z) (agent : option str) (configuration : str)
    : World → World * bool * result Failure unit := λ w,
  match prepare r d id agent configuration w with
  | (w, Ok _) => let '(w, r) := insert store (mapping_of r id) w in (w, true, r)
  | (w, r) => (w, false, r)
  end.

(** [Drop for CreationGuard], when it is still armed: what fails is only logged. *)
Definition drop_guard (d : path) (system_id : str) (system_created : bool) : act unit :=
  let^ _ := if system_created then attempt (teardown_compute_system system_id) else ret (Ok tt) in
  let^ _ := attempt (remove_vm_directory d) in
  ret tt.

(** [rollback]: the failure the caller sees, with what could not be undone. *)
Definition rollback (d : path) (system_id : str) (system_created : bool) (error : Failure) : act Failure :=
  let^ failures := if system_created then collecting (teardown_compute_system system_id) [error] else ret [error] in
  let^ failures := collecting (remove_vm_directory d) failures in
  ret (Combined "creation failed" failures).

(** What comes before the guard: the refusals, and the directory itself. *)
Definition before_the_guard (r : VmCreateRequest) (d : path) (id : Z) : act (option str * str) :=
  let^ _ := pure_of (map_err Invalid (request_validate r)) in
  let^ taken := find_by_vm_name store (name r) in
  if is_some taken then fail NameTaken
  else
    let^ there := path_exists d in
    if there : bool then fail DirectoryTaken
    else
      let^ agent := match source r with
                    | CloudImageSource _ _ => gets agent_beside_executable
                    | LocalMedia _ => ret None
                    end in
      let^ configuration := pure_of (build_configuration r d ((λ _, tools_path d) <$> agent) id) in
      let^ _ := create_dir_all (disk_directory d) in
      ret (agent, configuration).

Definition create_vm (r : VmCreateRequest) (d : path) (id : Z) : act VmComputeSystemMapping :=
  let^ (agent, configuration) := before_the_guard r d id in
  λ w,
    match guarded r d id agent configuration w with
    | (w, _, Ok _) => (w, Ok (mapping_of r id))
    | (w, system_created, Err error) =>
        (let^ error := rollback d (system_id_of id) system_created error in fail error) w
    | (w, system_created, Panic) =>
        ((drop_guard d (system_id_of id) system_created w).1, Panic)
    end.

End pipelines.
