(* ===== verification/CreationLaws.v ===== *)
(** * CreationLaws: what is promised of the host, and a host that keeps it

    [HostLaws] says what each call of the host touches and what it leaves.  Below,
    a JSON codec and a host that keep the promises of [MappingLaws] and
    [HostLaws], executable, with every call able to fail by its fate; the worlds
    and requests the witnesses of the lifecycle are evaluated on. *)

From stdpp Require Import strings gmap list sets.
From S2P Require Import Prelude Stateful ClipboardPath CoreVm CoreGpu CoreDisplay CoreRequest.
From S2P Require Import Layout HostFiles Metadata Json HcsConfig Creation.
From S2P Require Import HcsConfigProps.
#[local] Open Scope Z_scope.

Definition only {A} (x : A) : A → Prop := λ y, y = x.

Class HostLaws (H : HostCalls) : Prop := {
  vhdx_stays p size : stays (only p) nobody nobody (create_dynamic_vhdx p size);
  cloud_stays image size p : stays (only p) nobody nobody (cloud_disk image size p);
  grant_stays id p : stays nobody nobody nobody (hcs_grant_vm_access id p);
  state_stays a b : stays (on [a; b]) nobody nobody (hcs_create_state_files a b);
  create_stays id c : stays nobody (only id) nobody (hcs_create_system id c);
  wait_stays id : stays nobody (only id) nobody (hcs_wait_created id);
  open_stays id : stays nobody nobody nobody (hcs_open_if_present id);
  terminate_stays id : stays nobody (only id) nobody (hcs_terminate_and_wait id);
  endpoint_stays e : stays nobody nobody (only e) (hcn_delete e);
  listing_stays : stays nobody nobody nobody hcn_list;
  restrict_stays p : stays nobody nobody nobody (restrict_to_owner p);
  keys_stay n : stays nobody nobody nobody (generate_key_pair n);
  hash_stays w : stays nobody nobody nobody (hash_password w);
  secret_stays : stays nobody nobody nobody generate_secret;
  (** A refused creation creates nothing; one that completed is there. *)
  refused_creation id c w w' e : hcs_create_system id c w = (w', Err e) → systems w' = systems w;
  completed_creation id w w' : hcs_wait_created id w = (w', Ok tt) → id ∈ systems w';
  absent_system id w w' : hcs_open_if_present id w = (w', Ok false) → id ∉ systems w';
  terminated_system id w w' : hcs_terminate_and_wait id w = (w', Ok tt) → id ∉ systems w';
  deleted_endpoint e w w' : hcn_delete e w = (w', Ok tt) → e ∉ endpoints w';
  listed_endpoints w w' l : hcn_list w = (w', Ok l) → ∀ e, e ∈ endpoints w → e ∈ l;
}.

(** ** Invariants of an action *)

Definition keeps {A} (I : World → Prop) (m : act A) : Prop := ∀ w, I w → I (m w).1.

Lemma keeps_pure {A} I (r : result Failure A) : keeps I (pure_of r).
Proof. by intros w. Qed.
Lemma keeps_gets {A} I (f : World → A) : keeps I (gets f).
Proof. by intros w. Qed.
Lemma keeps_bind {A B} I (m : act A) (k : A → act B) :
  keeps I m → (∀ a, keeps I (k a)) → keeps I (abind m k).
Proof.
  intros Hm Hk w Hw. unfold abind. specialize (Hm w Hw). destruct (m w) as [w' [a|e|]]; cbn in *; auto.
  by apply Hk.
Qed.
Lemma keeps_attempt {A} I (m : act A) : keeps I m → keeps I (attempt m).
Proof. intros Hm w Hw. unfold attempt. specialize (Hm w Hw). by destruct (m w) as [w' [a|e|]]. Qed.

(** The directory [d] is there. *)
Definition has_directory (d : path) (w : World) : Prop := is_directory (files w) d = true.

Lemma keeps_directory {A} (d : path) (P : path → Prop) ids eps (m : act A) :
  stays P ids eps m → ¬ P d → keeps (has_directory d) m.
Proof.
  intros Hm Hd w Hw. unfold has_directory, is_directory in *.
  by rewrite (touched_files _ _ _ _ _ (Hm w) d Hd).
Qed.

Lemma create_dir_all_keeps d p : keeps (has_directory d) (create_dir_all p).
Proof.
  unfold create_dir_all. apply keeps_bind.
  { apply (keeps_directory d nobody nobody nobody); [apply stays_next_fate|by intros []]. }
  intros f. apply keeps_bind; [|intros _; apply keeps_bind; [apply keeps_gets|]; intros b;
    destruct f, b; apply keeps_pure].
  intros w Hw. unfold has_directory, is_directory, modify, set_files in *. cbn.
  rewrite make_directories_keeps; [done|]. by destruct (files w !! d).
Qed.

(** ** Widening the footprints of the host's calls *)

Section footprint_of_calls.
Context `{H : HostCalls} `{L : !HostLaws H}.
Context {P : path → Prop} {ids : str → Prop} {eps : Z → Prop}.

Lemma stays_quiet {A} (m : act A) : stays nobody nobody nobody m → stays P ids eps m.
Proof. intros Hm. by eapply stays_weaken. Qed.

Lemma stays_path {A} p (m : act A) : stays (only p) nobody nobody m → P p → stays P ids eps m.
Proof. intros Hm Hp. eapply stays_weaken; [done|by intros ? ->|done..]. Qed.

Lemma stays_state a b : P a → P b → stays P ids eps (hcs_create_state_files a b).
Proof.
  intros Ha Hb. eapply stays_weaken; [apply state_stays| |done..].
  intros p [->|[->|[]%not_elem_of_nil]%elem_of_cons]%elem_of_cons; done.
Qed.

Lemma stays_system {A} id (m : act A) : stays nobody (only id) nobody m → ids id → stays P ids eps m.
Proof. intros Hm Hp. eapply stays_weaken; [done|done|by intros ? ->|done]. Qed.

Lemma stays_endpoint e : eps e → stays P ids eps (hcn_delete e).
Proof. intros He. eapply stays_weaken; [apply endpoint_stays|done|done|by intros ? ->]. Qed.

Lemma stays_teardown id : ids id → stays P ids eps (teardown_compute_system id).
Proof.
  intros Hid. unfold teardown_compute_system. stays; [apply stays_quiet, open_stays|].
  by apply (stays_system id); [apply terminate_stays|].
Qed.

Lemma stays_collecting m f : stays P ids eps m → stays P ids eps (collecting m f).
Proof. intros Hm. unfold collecting. by stays. Qed.

Lemma stays_remove_vm_directory d :
  (∀ q, under d q = true → P q) → stays P ids eps (remove_vm_directory d).
Proof. intros Hd. unfold remove_vm_directory. by stays. Qed.

Lemma stays_create_hcs_system id c : ids id → stays P ids eps (create_hcs_system id c).
Proof.
  intros Hid. unfold create_hcs_system. stays.
  - by apply (stays_system id); [apply create_stays|].
  - by apply (stays_system id); [apply wait_stays|].
  - by apply stays_teardown.
Qed.

Lemma stays_write_restricted p b : P p → stays P ids eps (write_restricted p b).
Proof. intros Hp. unfold write_restricted, create_file. stays; [done|apply stays_quiet, restrict_stays|done]. Qed.

Lemma stays_write_key_pair d keys :
  (∀ q, q ∈ ways_to (ssh_keys_directory d) → P q) → P (ssh_key_path d) → P (ssh_public_key_path d) →
  stays P ids eps (write_key_pair d keys).
Proof.
  intros Hw Hk Hp. unfold write_key_pair, create_new_file. stays; try done.
  - intros q Hq. apply Hw. unfold parent, ssh_key_path, child in Hq.
    by rewrite length_app, Nat.add_sub, take_app_length in Hq.
  - apply stays_quiet, restrict_stays.
Qed.

End footprint_of_calls.

Lemma teardown_ok `{H : HostCalls} `{L : !HostLaws H} id w w' :
  teardown_compute_system id w = (w', Ok tt) → id ∉ systems w'.
Proof.
  unfold teardown_compute_system. intros Ht. act_ok Ht as present, Ho. destruct present.
  - by eapply terminated_system.
  - injection Ht as <-. by eapply absent_system.
Qed.

Lemma attempt_ok {A} (m : act A) w w' r : attempt m w = (w', Ok r) → m w = (w', r) ∧ r ≠ Panic.
Proof. unfold attempt. destruct (m w) as [w1 [a|e|]]; by intros [= <- <-]. Qed.

(** A step of a cleanup that added nothing to the list did what it was for. *)
Lemma collecting_ok m f w w' f' :
  collecting m f w = (w', Ok f') → (f' = f ∧ m w = (w', Ok tt)) ∨ ∃ e, f' = f ++ [e].
Proof.
  unfold collecting. intros Hc. act_ok Hc as r, Hm. apply attempt_ok in Hm as [Hm Hp].
  injection Hc as -> <-. destruct r as [[]|e|]; [by left|right; by exists e|done].
Qed.

Lemma collecting_nil m f w w' :
  collecting m f w = (w', Ok []) → f = [] ∧ m w = (w', Ok tt).
Proof. intros [[<- ?]|[e He]]%collecting_ok; [done|]. by destruct f. Qed.

(** ** A host that keeps the promises: its document format *)

(** Values as text, one after another. *)
Record format (A : Type) : Type := mk_format {
  put : A → str;
  get : str → option (A * str);
  get_put : ∀ a rest, get (put a ++ rest) = Some (a, rest);
}.
Arguments put {A}.
Arguments get {A}.
Arguments get_put {A}.

Program Definition z_format : format Z := {|
  put z := [z];
  get s := match s with z :: rest => Some (z, rest) | [] => None end;
|}.
Next Obligation. done. Qed.

Program Definition bool_format : format bool := {|
  put b := [if b then 1 else 0];
  get s := match s with z :: rest => Some (z =? 1, rest) | [] => None end;
|}.
Next Obligation. by intros []. Qed.

Program Definition str_format : format str := {|
  put s := zlen s :: s;
  get s := match s with n :: rest => Some (take (Z.to_nat n) rest, drop (Z.to_nat n) rest) | [] => None end;
|}.
Next Obligation. intros s rest. cbn [app]. by rewrite Nat2Z.id, take_app_length, drop_app_length. Qed.

Program Definition pair_format {A B} (fa : format A) (fb : format B) : format (A * B) := {|
  put p := put fa p.1 ++ put fb p.2;
  get s := '(a, s) ← get fa s; '(b, s) ← get fb s; Some ((a, b), s);
|}.
Next Obligation. intros A B fa fb [a b] rest. cbn [fst snd]. rewrite <- app_assoc, get_put. cbn. by rewrite get_put. Qed.

Program Definition option_format {A} (f : format A) : format (option A) := {|
  put o := match o with Some a => 1 :: put f a | None => [0] end;
  get s := match s with
           | z :: rest => if z =? 1 then '(a, s) ← get f rest; Some (Some a, s) else Some (None, rest)
           | [] => None
           end;
|}.
Next Obligation. intros A f [a|] rest; cbn; [by rewrite get_put|done]. Qed.

Fixpoint get_many {A} (f : format A) (n : nat) (s : str) : option (list A * str) :=
  match n with
  | O => Some ([], s)
  | S n => '(a, s) ← get f s; '(l, s) ← get_many f n s; Some (a :: l, s)
  end.
Lemma get_many_put {A} (f : format A) l rest :
  get_many f (length l) (concat (map (put f) l) ++ rest) = Some (l, rest).
Proof. induction l as [|a l IH]; [done|]. cbn. rewrite <- app_assoc, get_put. cbn. by rewrite IH. Qed.

Program Definition list_format {A} (f : format A) : format (list A) := {|
  put l := zlen l :: concat (map (put f) l);
  get s := match s with n :: rest => get_many f (Z.to_nat n) rest | [] => None end;
|}.
Next Obligation. intros A f l rest. cbn [app]. by rewrite Nat2Z.id, get_many_put. Qed.

Definition packed : Type :=
  Z * str * str * Z * option Z * bool * option (str * Z * bool) * option (str * str) * option (Z * Z)
  * option (str * str * str).

Definition pack_daemon (d : option SshDaemon) : option (option (str * str)) :=
  match d with
  | None => Some None
  | Some (mk_daemon (Service unit) drop_in) => Some (Some (unit, drop_in))
  | Some _ => None
  end.
Definition unpack_daemon (d : option (str * str)) : option SshDaemon :=
  (λ '(unit, drop_in), mk_daemon (Service unit) drop_in) <$> d.

Definition pack_ssh (c : option SshConfig) : option (str * Z * bool) :=
  (λ c, (ssh_username c, ssh_port c, match authentication c with VmlordKey => true | _ => false end)) <$> c.
Definition unpack_ssh (c : option (str * Z * bool)) : option SshConfig :=
  (λ '(u, p, k), mk_ssh_config u p (if k : bool then VmlordKey else PasswordLogin)) <$> c.

(** The headless VMs on a plain or no network, whose daemon is one service. *)
Definition pack (m : VmComputeSystemMapping) : option packed :=
  match mapping_network m, mapping_gpu m, mapping_desktop m, display_provisioning m, pack_daemon (ssh_daemon m) with
  | NetworkNone as n, ModeNone, Headless, NotRequested, Some d
  | NetworkNat as n, ModeNone, Headless, NotRequested, Some d =>
      Some (vm_id m, vm_name m, hcs_compute_system_id m, mapping_disk_gb m, endpoint_id m,
            match n with NetworkNat => true | _ => false end, pack_ssh (mapping_ssh m), d,
            (λ d, (width d, height d)) <$> display_mode m,
            (λ t, (distribution t, target_release t, architecture t)) <$> guest_target m)
  | _, _, _, _, _ => None
  end.
Definition unpack (p : packed) : VmComputeSystemMapping :=
  let '(id, n, sys, gb, e, nat, ssh, d, mode, t) := p in
  mk_mapping id n sys gb e (if nat then NetworkNat else NetworkNone) (unpack_ssh ssh) (unpack_daemon d)
    ModeNone Headless NotRequested ((λ '(w, h), mk_mode w h) <$> mode)
    ((λ '(a, b, c), mk_target a b c) <$> t).

Lemma unpack_ssh_pack c : unpack_ssh (pack_ssh c) = c.
Proof. by destruct c as [[u p []]|]. Qed.

Lemma unpack_daemon_pack d p : pack_daemon d = Some p → unpack_daemon p = d.
Proof. destruct d as [[[unit|] drop_in]|]; by intros [= <-]. Qed.

Lemma unpack_pack m p : pack m = Some p → unpack p = m.
Proof.
  unfold pack. intros H.
  destruct (mapping_network m) eqn:Hn, (mapping_gpu m) eqn:Hg, (mapping_desktop m) eqn:Hd,
    (display_provisioning m) eqn:Hp, (pack_daemon (ssh_daemon m)) as [d|] eqn:Hs; try done;
    injection H as <-; cbn; rewrite unpack_ssh_pack, (unpack_daemon_pack _ _ Hs), <- ?Hn, <- ?Hg, <- ?Hd, <- ?Hp;
    destruct m as [? ? ? ? ? ? ? ? ? ? ? [[]|] [[]|]]; cbn in *; by subst.
Qed.

Definition packed_format : format packed :=
  let p {A B} := @pair_format A B in
  p (p (p (p (p (p (p (p (p z_format str_format) str_format) z_format) (option_format z_format)) bool_format)
    (option_format (p (p str_format z_format) bool_format))) (option_format (p str_format str_format)))
    (option_format (p z_format z_format))) (option_format (p (p str_format str_format) str_format)).

#[export] Instance sample_codec : MappingCodec := {|
  from_str contents :=
    '(l, rest) ← get (list_format packed_format) contents;
    match rest with [] => Some (map unpack l) | _ => None end;
  to_string_pretty ms := put (list_format packed_format) <$> mapM pack ms;
|}.

#[export] Instance sample_codec_laws : MappingLaws sample_codec.
Proof.
  constructor. intros ms contents Hw. unfold to_string_pretty, from_str, sample_codec in *.
  destruct (mapM pack ms) as [l|] eqn:Hl; [|done]. change (Some (put (list_format packed_format) l) = Some contents) in Hw. apply (inj Some) in Hw as <-.
  rewrite <- (app_nil_r (put _ l)), get_put. cbn [mbind option_bind]. f_equal. apply mapM_Some in Hl.
  induction Hl as [|m p ms l Hp _ IH]; [done|]. cbn. by rewrite (unpack_pack _ _ Hp), IH.
Qed.

(** ** A host *)

Definition by_fate {A} (m : act A) : act A :=
  let^ f := next_fate in match f with Works => m | Fails code _ => fail (ByHost (Z.of_nat code)) end.

#[export] Instance sample_host : HostCalls := {|
  create_dynamic_vhdx p _ := write_file "create the disk" p [];
  cloud_disk _ _ p :=
    let^ _ := report StepDownloading in
    let^ _ := report StepWritingDisk in
    write_file "import the disk" p [0];
  media_is_file _ _ := true;
  hcs_grant_vm_access _ _ := by_fate (ret tt);
  hcs_create_state_files a b :=
    let^ _ := write_file "create the guest state" a [] in write_file "create the runtime state" b [];
  hcs_create_system id _ := by_fate (modify (set_systems (λ s, {[id]} ∪ s)));
  hcs_wait_created id :=
    let^ there := gets (λ w, bool_decide (id ∈ systems w)) in
    if there : bool then ret tt else fail (ByHost 0);
  hcs_open_if_present id := gets (λ w, bool_decide (id ∈ systems w));
  hcs_terminate_and_wait id := by_fate (modify (set_systems (λ s, s ∖ {[id]})));
  hcn_delete e := by_fate (modify (set_endpoints (λ s, s ∖ {[e]})));
  hcn_list := gets (λ w, elements (endpoints w));
  agent_beside_executable _ := Some (text "agent");
  restrict_to_owner _ := ret tt;
  generate_key_pair _ := ret (text "private", text "public");
  hash_password w := ret (36 :: w);
  generate_secret := ret (text "secret");
  seed_image r := seed_vm_name r;
  tools_image a := a;
|}.

Lemma stays_by_fate {A} P ids eps (m : act A) : stays P ids eps m → stays P ids eps (by_fate m).
Proof. intros Hm. unfold by_fate. by stays. Qed.

Lemma stays_set_systems P (ids : str → Prop) eps f :
  (∀ s id, ¬ ids id → (id ∈ (f s : gset str) ↔ id ∈ s)) → stays (E := Failure) P ids eps (modify (set_systems f)).
Proof. intros Hf w. constructor; cbn; [done|intros; by apply Hf|done]. Qed.

Lemma stays_set_endpoints P ids (eps : Z → Prop) f :
  (∀ s e, ¬ eps e → (e ∈ (f s : gset Z) ↔ e ∈ s)) → stays (E := Failure) P ids eps (modify (set_endpoints f)).
Proof. intros Hf w. constructor; cbn; [done|done|intros; by apply Hf]. Qed.

Lemma by_fate_ok {A} (m : act A) w w' a :
  by_fate m w = (w', Ok a) → ∃ w0, m w0 = (w', Ok a).
Proof. unfold by_fate. intros H. act_ok H as f, Hf. destruct f; [eauto|done]. Qed.

Lemma by_fate_err {A} (m : act A) w w' e :
  (∀ v v' e', m v ≠ (v', Err e')) → by_fate m w = (w', Err e) → systems w' = systems w.
Proof.
  unfold by_fate, abind, next_fate. intros Hm.
  destruct (fates w) as [|[|code spared] rest]; cbn.
  - intros H. by destruct (Hm _ _ _ H).
  - intros H. by destruct (Hm _ _ _ H).
  - by intros [= <- _].
Qed.

#[local] Arguments stays : simpl never.
#[local] Arguments abind : simpl never.
#[local] Arguments write_file : simpl never.
#[local] Arguments by_fate : simpl never.
#[local] Arguments report : simpl never.
#[local] Arguments gets : simpl never.
#[local] Arguments modify : simpl never.
#[local] Arguments ret : simpl never.
#[local] Arguments fail : simpl never.

#[export] Instance sample_host_laws : HostLaws sample_host.
Proof.
  constructor; cbn; intros.
  - by stays.
  - by stays.
  - apply stays_by_fate. stays.
  - stays; unfold on; set_solver.
  - apply stays_by_fate, stays_set_systems. unfold only. set_solver.
  - stays.
  - stays.
  - apply stays_by_fate, stays_set_systems. unfold only. set_solver.
  - apply stays_by_fate, stays_set_endpoints. unfold only. set_solver.
  - stays.
  - stays.
  - stays.
  - stays.
  - stays.
  - eapply by_fate_err; [|done]. by intros.
  - unfold abind, gets in H. case_bool_decide; [by injection H as <-|done].
  - injection H as <- H. by apply bool_decide_eq_false in H.
  - apply by_fate_ok in H as [w0 H]. injection H as <-. cbn. set_solver.
  - apply by_fate_ok in H as [w0 H]. injection H as <-. cbn. set_solver.
  - injection H as <- <-. by apply elem_of_elements.
Qed.

(** ** Requests and worlds *)

Definition sample_root : path := [text "vms"].
Definition sample_profile : DistroProfile :=
  mk_profile (text "Arch Linux") (Some (text "arch")) [text "latest"] (text "https://mirror/") (text "image")
    (text "SHA256SUMS") (text "arch") (text "wheel") (mk_daemon (Service (text "sshd")) (text "/etc/ssh/50.conf"))
    ∅ FullUpgrade [].
Definition sample_request (n : string) : VmCreateRequest :=
  mk_request (text n)
    (CloudImageSource (mk_image sample_profile (text "latest"))
       (mk_provisioning (text "dev") (Some (text "secret")) (SshEnabled true 22) (text "en_US.UTF-8")
          (text "us") (text "Etc/UTC") Headless))
    2048 20 2 ModeNone NetworkNat.

(** The storage root, with nothing in it. *)
Definition empty_world (fs : list fate) (cancels : option nat) : World :=
  mk_world (list_to_map [([], None); (sample_root, None)]) ∅ {[7]} fs cancels [].

Definition sample_create (n : string) (id : Z) : act VmComputeSystemMapping :=
  create_vm (mapping_path sample_root) (sample_request n) (sample_root ++ [text n]) id.
