(* ===== verification/CreationProps.v ===== *)
(** * CreationProps: a VM is created whole or not at all, and deleted the same way *)

From stdpp Require Import strings gmap list sets.
From S2P Require Import Prelude Stateful ClipboardPath CoreVm CoreGpu CoreDisplay CoreRequest.
From S2P Require Import Layout HostFiles Metadata Json HcsConfig HcsConfigProps Creation CreationLaws.
#[local] Open Scope Z_scope.

Section creation.
Context `{H : HostCalls} `{L : !HostLaws H} `{C : MappingCodec} `{CL : !MappingLaws C} `{J : Json} `{G : Guids}.

(** ** Where a creation writes *)

Definition on_the_way (d q : path) : Prop := within d q ∨ q ∈ ways_to d.

Lemma child_within d f : within d (child d f).
Proof. apply under_child. Qed.
Lemma grandchild_within d f g : within d (child (child d f) g).
Proof. apply under_grandchild. Qed.

Lemma child_not d f : child d f ≠ d.
Proof. intros E. apply (f_equal length) in E. unfold child in E. rewrite length_app in E. cbn in E. lia. Qed.
Lemma child_ne d f g : text f ≠ text g → child d f ≠ child d g.
Proof. intros Hne E. apply Hne. unfold child in E. apply app_inv_head in E. by injection E. Qed.
Lemma grandchild_not d f g : child (child d f) g ≠ d.
Proof. intros E. apply (f_equal length) in E. unfold child in E. rewrite !length_app in E. cbn in E. lia. Qed.

Lemma ways_to_child d f q : q ∈ ways_to (child d f) → on_the_way d q.
Proof.
  intros (n & -> & Hn)%list_elem_of_fmap. unfold child, on_the_way.
  destruct (decide (n <= length d)%nat) as [Hl|Hl].
  - right. rewrite take_app_le by done. apply list_elem_of_fmap. exists n.
    split; [done|]. apply elem_of_seq. lia.
  - left. unfold within. apply under_spec. rewrite take_app_ge by lia. eauto.
Qed.

(** What each step of filling the directory may change. *)
Ltac call_footprint :=
  first
    [ apply stays_state
    | eapply stays_path; [first [apply vhdx_stays|apply cloud_stays]|]
    | apply stays_quiet;
      first [ apply grant_stays | apply restrict_stays | apply keys_stay | apply hash_stays | apply secret_stays | apply open_stays ]
    | apply stays_write_restricted
    | apply stays_write_key_pair ].

Ltac on_its_way HP := apply HP; left; first [apply child_within|apply grandchild_within].

Lemma stays_write_provisioning (P : path → Prop) ids eps d vm instance image p agent :
  (∀ q, on_the_way d q → P q) →
  stays P ids eps (write_provisioning d (seed_path d) vm instance image p agent).
Proof.
  intros HP. unfold write_provisioning.
  stays; try call_footprint; try on_its_way HP.
  intros q Hq. apply HP. by eapply ways_to_child.
Qed.

Lemma stays_write_disks (P : path → Prop) ids eps r d id agent :
  (∀ q, on_the_way d q → P q) → stays P ids eps (write_disks r d id agent).
Proof.
  intros HP. unfold write_disks.
  stays; try (by apply stays_write_provisioning); try call_footprint; on_its_way HP.
Qed.

Lemma stays_configure (P : path → Prop) ids eps r d id agent c :
  (∀ q, on_the_way d q → P q) → stays P ids eps (configure r d id agent c).
Proof. intros HP. unfold configure. stays; try call_footprint; on_its_way HP. Qed.

Lemma stays_prepare (P : path → Prop) (ids : str → Prop) eps r d id agent c :
  (∀ q, on_the_way d q → P q) → ids (system_id_of id) → stays P ids eps (prepare r d id agent c).
Proof.
  intros HP Hid. unfold prepare. stays.
  - by apply stays_write_disks.
  - by apply stays_configure.
  - by apply stays_create_hcs_system.
Qed.

(** The directory of the VM stays a directory all along. *)
Ltac keeps_step d :=
  match goal with
  | |- keeps _ (abind _ _) => apply keeps_bind; [|intros ?]
  | |- keeps _ (attempt _) => apply keeps_attempt
  | |- keeps _ (create_dir_all _) => apply create_dir_all_keeps
  | |- keeps _ (match ?x with _ => _ end) => destruct x
  | |- keeps _ _ =>
      apply (keeps_directory d (λ q, q ≠ d) nobody nobody);
      [ stays; try call_footprint; first [apply child_not|apply grandchild_not] | by intros [] ]
  end.

Lemma write_key_pair_keeps d keys : keeps (has_directory d) (write_key_pair d keys).
Proof. unfold write_key_pair, create_new_file. repeat keeps_step d. Qed.

Lemma write_provisioning_keeps d vm instance image p agent :
  keeps (has_directory d) (write_provisioning d (seed_path d) vm instance image p agent).
Proof.
  unfold write_provisioning, write_restricted, create_file.
  repeat first [apply write_key_pair_keeps | keeps_step d].
Qed.

Lemma prepare_keeps r d id agent c : keeps (has_directory d) (prepare r d id agent c).
Proof.
  unfold prepare. apply keeps_bind; [|intros ?].
  - unfold write_disks. repeat first [apply write_provisioning_keeps | keeps_step d].
  - apply keeps_bind; [unfold configure; repeat keeps_step d|intros ?].
    repeat first
      [ apply (keeps_directory d nobody (only (system_id_of id)) nobody);
        [by apply stays_create_hcs_system|by intros []]
      | keeps_step d ].
Qed.

(** ** What a creation that got through leaves, and one that did not *)

Lemma create_hcs_system_ok id c w w' : create_hcs_system id c w = (w', Ok tt) → id ∈ systems w'.
Proof.
  unfold create_hcs_system. intros Hc. act_ok Hc as [], Hs. act_ok Hc as r, Hw.
  apply attempt_ok in Hw as [Hw Hp]. destruct r as [[]|e|]; [| |done].
  - injection Hc as <-. by eapply completed_creation.
  - act_ok Hc as t, Ht. by destruct t.
Qed.

(** An error that does not say that a cleanup failed. *)
Definition clean (e : Failure) : Prop := ∀ cause cleanup, e ≠ WithCleanup cause cleanup.

Lemma create_hcs_system_err id c w w' e :
  create_hcs_system id c w = (w', Err e) → clean e → id ∉ systems w → id ∉ systems w'.
Proof.
  unfold create_hcs_system. intros Hc He Hn.
  apply abind_err in Hc as [Hc|(w1 & [] & Hs & Hc)]; [by rewrite (refused_creation _ _ _ _ _ Hc)|].
  apply abind_err in Hc as [Hc|(w2 & r & Hw & Hc)].
  { unfold attempt in Hc. by destruct (hcs_wait_created id w1) as [? [| |]]. }
  destruct r as [|error|]; try done. apply abind_err in Hc as [Hc|(w3 & t & Ht & Hc)].
  { unfold attempt in Hc. by destruct (teardown_compute_system id w2) as [? [| |]]. }
  apply attempt_ok in Ht as [Ht Hp]. destruct t as [[]|f|]; [|by injection Hc as _ <-; edestruct He|done].
  injection Hc as <- _. by eapply teardown_ok.
Qed.

Lemma stays_at {A} P ids eps (m : act A) w w' r :
  stays P ids eps m → m w = (w', r) → touches P ids eps w w'.
Proof. intros Hm E. specialize (Hm w). by rewrite E in Hm. Qed.

Lemma keeps_at {A} I (m : act A) w w' r : keeps I m → m w = (w', r) → I w → I w'.
Proof. intros Hm E. specialize (Hm w). by rewrite E in Hm. Qed.

(** A step that touches no compute system, seen by one that is not there. *)
Lemma absent_after {A} P eps (m : act A) id w w' r :
  stays P nobody eps m → m w = (w', r) → id ∉ systems w → id ∉ systems w'.
Proof. intros Hm E Hn. apply (stays_at _ _ _ _ _ _ _ Hm) in E as [_ Hs _]. rewrite Hs; auto. Qed.

Lemma configure_ok r d id agent c w w' :
  configure r d id agent c w = (w', Ok tt) → files w' !! configuration_path d = Some (Some c).
Proof.
  unfold configure. intros Hc. act_ok Hc as [], H1. act_ok Hc as [], H2. act_ok Hc as [], H3.
  apply write_file_ok in H3.
  match type of Hc with ?m ?w1 = _ => assert (Hs : stays (λ q, q ≠ configuration_path d) nobody nobody m) end.
  { stays; try call_footprint; apply child_ne; by vm_compute. }
  apply (stays_at _ _ _ _ _ _ _ Hs) in Hc as [Hf _ _].
  rewrite Hf by auto. by rewrite H3, lookup_insert_eq.
Qed.

Lemma prepare_ok r d id agent c w w' :
  prepare r d id agent c w = (w', Ok tt) →
  system_id_of id ∈ systems w' ∧ files w' !! configuration_path d = Some (Some c).
Proof.
  unfold prepare. intros Hc. act_ok Hc as [], H1. act_ok Hc as [], H2. act_ok Hc as [], H3.
  act_ok Hc as [], H4. split; [by eapply create_hcs_system_ok|].
  apply configure_ok in H2. rewrite <- H2.
  apply (stays_at nobody nobody nobody) in H3 as [F3 _ _]; [|apply stays_check_build_cancelled].
  apply (stays_at nobody nobody nobody) in H4 as [F4 _ _]; [|apply stays_report].
  apply (stays_at nobody (only (system_id_of id)) nobody) in Hc as [F5 _ _];
    [|by apply stays_create_hcs_system].
  rewrite F5, F4, F3 by (by intros []). done.
Qed.

Lemma prepare_err r d id agent c w w' e :
  prepare r d id agent c w = (w', Err e) → clean e →
  system_id_of id ∉ systems w → system_id_of id ∉ systems w'.
Proof.
  unfold prepare. intros Hc He Hn.
  assert (Hd : stays (on_the_way d) nobody nobody (write_disks r d id agent)) by by apply stays_write_disks.
  assert (Hf : stays (on_the_way d) nobody nobody (configure r d id agent c)) by by apply stays_configure.
  assert (Hk : stays nobody nobody nobody check_build_cancelled) by apply stays_check_build_cancelled.
  assert (Hr : stays nobody nobody nobody (report StepRegistering)) by apply stays_report.
  apply abind_err in Hc as [Hc|(w1 & [] & H1 & Hc)]; [exact (absent_after _ _ _ _ _ _ _ Hd Hc Hn)|].
  apply (absent_after _ _ _ _ _ _ _ Hd H1) in Hn.
  apply abind_err in Hc as [Hc|(w2 & [] & H2 & Hc)]; [exact (absent_after _ _ _ _ _ _ _ Hf Hc Hn)|].
  apply (absent_after _ _ _ _ _ _ _ Hf H2) in Hn.
  apply abind_err in Hc as [Hc|(w3 & [] & H3 & Hc)]; [exact (absent_after _ _ _ _ _ _ _ Hk Hc Hn)|].
  apply (absent_after _ _ _ _ _ _ _ Hk H3) in Hn.
  apply abind_err in Hc as [Hc|(w4 & [] & H4 & Hc)]; [exact (absent_after _ _ _ _ _ _ _ Hr Hc Hn)|].
  apply (absent_after _ _ _ _ _ _ _ Hr H4) in Hn.
  by eapply create_hcs_system_err.
Qed.

(** ** Undoing *)

Lemma remove_vm_directory_ok d w w' :
  remove_vm_directory d w = (w', Ok tt) → has_directory d w →
  ∀ q, within d q → files w' !! q = None.
Proof.
  unfold remove_vm_directory. intros Hr Hd. act_ok Hr as there, He.
  apply path_exists_ok in He as [-> ->].
  unfold has_directory, is_directory in Hd. destruct (files w !! d) as [[|]|]; try done.
  by eapply remove_dir_all_ok.
Qed.

Lemma stays_rollback d id sc e :
  stays (within d) (only id) nobody (rollback d id sc e).
Proof.
  unfold rollback. stays.
  - by apply stays_collecting, stays_teardown.
  - by apply stays_collecting, stays_remove_vm_directory.
Qed.

(** A rollback whose report names one failure undid everything. *)
Lemma rollback_complete d id sc e w w' op cause :
  rollback d id sc e w = (w', Ok (Combined op [cause])) → has_directory d w →
  cause = e ∧ (sc = true ∨ (id ∉ systems w) → id ∉ systems w') ∧ ∀ q, within d q → files w' !! q = None.
Proof.
  unfold rollback. intros Hr Hd. act_ok Hr as f, Hf. act_ok Hr as f', Hf'. injection Hr as <- <- Hc. subst f'.
  assert (Hone : ∀ l, l ++ [cause] = [cause] → l = []) by by (intros [|? [|]]).
  assert (Hfd : f = [e] ∧ has_directory d x ∧ (sc = true ∨ (id ∉ systems w) → id ∉ systems x)
                ∨ ∃ e', f = [e; e']).
  { destruct sc.
    - pose proof Hf as Hf0. apply collecting_ok in Hf as [[-> Ht]|[e' ->]]; [|right; by exists e'].
      left. split; [done|]. split; [|intros _; by eapply teardown_ok].
      revert Hd. eapply keeps_at; [|done]. apply (keeps_directory _ nobody (only id) nobody); [|by intros []].
      by apply stays_collecting, stays_teardown.
    - injection Hf as <- <-. left. split; [done|]. split; [done|]. by intros [?|?]. }
  destruct Hfd as [(-> & Hd' & Hid)|[e' ->]].
  - pose proof Hf' as Hf0. apply collecting_ok in Hf' as [[Hc Hr]|[e' Hc]]; [|done].
    injection Hc as ->. split; [done|]. split; [|by eapply remove_vm_directory_ok].
    intros Hs%Hid. apply (stays_at (within d) nobody nobody) in Hr as [_ Hsys _];
      [|by apply stays_remove_vm_directory]. rewrite Hsys; auto.
  - apply collecting_ok in Hf' as [[Hc _]|[e'' Hc]]; done.
Qed.

Lemma collecting_total m f w w' o : collecting m f w = (w', o) → o = Panic ∨ ∃ l, o = Ok l.
Proof.
  unfold collecting, abind, attempt. destruct (m w) as [w1 [a|e|]]; intros [= _ <-]; eauto.
Qed.

Lemma rollback_shape d id sc e w w' o :
  rollback d id sc e w = (w', o) → o = Panic ∨ ∃ l, o = Ok (Combined "creation failed" l).
Proof.
  unfold rollback. destruct sc; unfold abind.
  - destruct (collecting _ _ w) as [w1 p] eqn:H1. apply collecting_total in H1 as [->|[l ->]].
    { intros [= _ <-]. by left. }
    destruct (collecting _ _ w1) as [w2 p] eqn:H2. apply collecting_total in H2 as [->|[l' ->]];
      intros [= _ <-]; eauto.
  - cbn. destruct (collecting _ _ w) as [w2 p] eqn:H2. apply collecting_total in H2 as [->|[l' ->]];
      intros [= _ <-]; eauto.
Qed.

(** ** Before the guard *)

Lemma unchanged {A} (m : act A) w w' r :
  stays nobody nobody nobody m → m w = (w', r) → files w' = files w.
Proof.
  intros Hm E. apply (stays_at _ _ _ _ _ _ _ Hm) in E as [Hf _ _].
  apply map_eq. intros q. apply Hf. by intros [].
Qed.

Definition plain (e : Failure) : Prop := ∀ op l, e ≠ Combined op l.

Lemma plain_invalid {A} (x : result Rejection A) e : map_err Invalid x = Err e → plain e.
Proof. destruct x; try done. by intros [= <-] ? ?. Qed.

Ltac plain_failure := let op := fresh in let l := fresh in intros op l; discriminate.

Lemma build_configuration_plain r d tools id e : build_configuration r d tools id = Err e → plain e.
Proof.
  unfold build_configuration, build. destruct (map_err _ _) as [u|f|] eqn:Hm; cbn; [|intros [= <-]; by eapply plain_invalid|done].
  destruct (gpu_mode r), (network_mode r); cbn; try (intros [= <-]; plain_failure);
    (destruct (serialize _); cbn; [done|intros [= <-]; plain_failure]).
Qed.

Lemma read_to_string_plain op p w w' e : read_to_string op p w = (w', Err e) → plain e.
Proof.
  unfold read_to_string, abind, gets, next_fate. intros Hl.
  destruct (fates w) as [|[|n spared] rest]; cbn in Hl; destruct (files w !! p) as [[t|]|] in Hl; try done;
    injection Hl as _ <-; plain_failure.
Qed.

Lemma load_plain p w w' e : load p w = (w', Err e) → plain e.
Proof.
  unfold load. intros Hl. apply abind_err in Hl as [Hl|(w1 & contents & _ & Hl)].
  { by eapply read_to_string_plain. }
  destruct contents as [contents|]; [|done].
  destruct (from_str contents) as [stored|]; [|injection Hl as _ <-; plain_failure].
  apply abind_err in Hl as [Hl|(w2 & [] & _ & Hl)]; [|done].
  injection Hl as _ Hl. revert Hl. induction (map _ stored) as [|m ms IH]; [done|]. cbn.
  destruct (mapping_validate m); [done|intros [= <-]; plain_failure|done].
Qed.

Lemma create_dir_all_err p w w' e : create_dir_all p w = (w', Err e) → e = Io "create directory" p.
Proof.
  unfold create_dir_all. intros Hc.
  apply abind_err in Hc as [Hc|(w1 & f & _ & Hc)]; [unfold next_fate in Hc; by destruct (fates w)|].
  apply abind_err in Hc as [Hc|(w2 & [] & _ & Hc)]; [done|].
  apply abind_err in Hc as [Hc|(w3 & b & _ & Hc)]; [done|].
  destruct f, b; try done; by injection Hc as _ <-.
Qed.

Definition quiet {A} (m : act A) : Prop := stays nobody nobody nobody m.

Lemma quiet_find store n : quiet (find_by_vm_name store n).
Proof. apply find_elsewhere. Qed.

Lemma quiet_agent r :
  quiet (match source r with CloudImageSource _ _ => gets agent_beside_executable | LocalMedia _ => ret None end).
Proof. unfold quiet. stays. Qed.

Lemma has_directory_of_disks fs d :
  (∀ q, q ∈ ways_to (disk_directory d) → is_directory fs q = true) → is_directory fs d = true.
Proof.
  intros Hw. apply Hw. unfold ways_to, disk_directory, child. apply list_elem_of_fmap.
  exists (length d). split; [by rewrite take_app_length|]. apply elem_of_seq. rewrite length_app. cbn. lia.
Qed.

(** A creation that gets as far as the guard was asked for something that may
    be asked for, under a name and at a place that were free. *)
Lemma before_the_guard_ok store r d id w w' agent c :
  before_the_guard store r d id w = (w', Ok (agent, c)) →
  request_validate r = Ok tt ∧
  (∃ ms, document store w = Some ms ∧ List.find (λ m, str_eqb (vm_name m) (name r)) ms = None) ∧
  files w !! d = None ∧ has_directory d w' ∧
  touches (on (ways_to (disk_directory d))) nobody nobody w w'.
Proof.
  unfold before_the_guard. intros Hb. act_ok Hb as u, Hv.
  injection Hv as <- Hv. destruct (request_validate r) as [[]| |]; try done. split; [done|].
  act_ok Hb as taken, Hf. pose proof (unchanged _ _ _ _ (quiet_find _ _) Hf) as Ff.
  pose proof (stays_at _ _ _ _ _ _ _ (quiet_find _ _) Hf) as Tf.
  apply find_first_ok in Hf as (_ & ms & Hd & ->).
  destruct (List.find _ ms) eqn:Hfree in Hb; [done|]. split; [eauto|]. cbn [is_some] in Hb.
  act_ok Hb as there, He. apply path_exists_ok in He as [-> ->].
  rewrite <- Ff. destruct (files x !! d) eqn:Hdir in Hb |- *; [done|].
  split; [done|]. cbn [is_some] in Hb.
  act_ok Hb as a, Ha. pose proof (stays_at _ _ _ _ _ _ _ (quiet_agent _) Ha) as Ta.
  act_ok Hb as c', Hc. injection Hc as <- _.
  act_ok Hb as [], Hm. injection Hb as <- _ _. pose proof Hm as Hm'.
  apply create_dir_all_ok in Hm' as [_ Hm']. split; [by apply has_directory_of_disks|].
  assert (Hst : stays (on (ways_to (disk_directory d))) nobody nobody (create_dir_all (disk_directory d)))
    by by apply stays_create_dir_all.
  apply (stays_at _ _ _ _ _ _ _ Hst) in Hm.
  assert (Hw : ∀ a b, touches nobody nobody nobody a b → touches (on (ways_to (disk_directory d))) nobody nobody a b).
  { intros v v' [F S E]. constructor; auto. }
  eapply touches_trans; [by apply Hw|]. eapply touches_trans; [by apply Hw|]. done.
Qed.

Lemma before_the_guard_err store r d id w w' e :
  before_the_guard store r d id w = (w', Err e) →
  plain e ∧ (e = Io "create directory" (disk_directory d) ∨ files w' = files w).
Proof.
  unfold before_the_guard. intros Hb.
  apply abind_err in Hb as [Hb|(w1 & u & Hb1 & Hb)].
  { injection Hb as <- Hb. split; [by eapply plain_invalid|by right]. }
  injection Hb1 as <- _.
  apply abind_err in Hb as [Hb|(w2 & taken & Hl & Hb)].
  { pose proof (unchanged _ _ _ _ (quiet_find _ _) Hb). unfold find_by_vm_name, find_first in Hb.
    apply abind_err in Hb as [Hb|(w2 & ms & _ & Hb)]; [|done]. split; [by eapply load_plain|by right]. }
  apply (unchanged _ _ _ _ (quiet_find _ _)) in Hl as <-.
  destruct (is_some taken); [injection Hb as <- <-; split; [plain_failure|by right]|].
  apply abind_err in Hb as [Hb|(w3 & there & He & Hb)]; [done|].
  apply path_exists_ok in He as [-> ->].
  destruct (is_some _); [injection Hb as <- <-; split; [plain_failure|by right]|].
  apply abind_err in Hb as [Hb|(w3 & agent & Ha & Hb)]; [by destruct (source r)|].
  apply (unchanged _ _ _ _ (quiet_agent _)) in Ha as <-.
  apply abind_err in Hb as [Hb|(w4 & c & Hc & Hb)].
  { injection Hb as <- Hb. split; [by eapply build_configuration_plain|by right]. }
  injection Hc as <- Hc. apply abind_err in Hb as [Hb|(w5 & [] & _ & Hb)]; [|done].
  apply create_dir_all_err in Hb as ->. split; [plain_failure|by left].
Qed.
(** ** The document is not in the way *)

Lemma store_apart root n :
  validate_vm_name n = Ok tt → ¬ on_the_way (root ++ [n]) (mapping_path root).
Proof.
  intros Hn [Hw|(k & E & _)%list_elem_of_fmap].
  - unfold within in Hw. by rewrite mapping_is_outside in Hw.
  - assert (Hu : under (root ++ [n]) (mapping_path root) = true); [|by rewrite mapping_is_outside in Hu].
    pose proof (f_equal length E) as Hl. rewrite length_take in Hl. unfold mapping_path, child in *.
    rewrite !length_app in Hl. cbn in Hl.
    rewrite take_ge in E by (rewrite length_app; cbn; lia). rewrite E. apply under_refl.
Qed.

Lemma parent_of_mapping root : parent (mapping_path root) = root.
Proof. unfold parent, mapping_path, child. by rewrite length_app, Nat.add_sub, take_app_length. Qed.

Lemma insert_keeps root n m :
  validate_vm_name n = Ok tt → keeps (has_directory (root ++ [n])) (insert (mapping_path root) m).
Proof.
  intros Hn. eapply keeps_directory; [apply insert_elsewhere|]. rewrite parent_of_mapping.
  intros [(k & E & _)%list_elem_of_fmap|E].
  - apply (f_equal length) in E. rewrite length_take, length_app in E. cbn in E. lia.
  - apply (store_apart root n Hn). left. unfold within. rewrite <- E. apply under_refl.
Qed.

Lemma disk_directory_way d q : q ∈ ways_to (disk_directory d) → on_the_way d q.
Proof. apply ways_to_child. Qed.


(** ** All or nothing *)

(** A store that was told of the VM, from a document that had no VM of its name. *)
Definition recorded (store : path) (m : VmComputeSystemMapping) (w w' : World) : Prop :=
  ∃ ms, document store w = Some ms ∧ List.find (λ x, str_eqb (vm_name x) (vm_name m)) ms = None ∧
        document store w' = Some (without (vm_id m) ms ++ [m]).

Definition created (store d : path) (r : VmCreateRequest) (id : Z) (w w' : World) : Prop :=
  has_directory d w' ∧ (∃ c, files w' !! configuration_path d = Some (Some c)) ∧
  system_id_of id ∈ systems w' ∧ recorded store (mapping_of r id) w w'.

Definition undone (store d : path) (id : Z) (cause : Failure) (w w' : World) : Prop :=
  (∀ q, within d q → files w' !! q = None) ∧ (system_id_of id ∉ systems w') ∧
  (cause = Io "write metadata mapping" store ∨ files w' !! store = files w !! store).

Lemma same_document store w w' :
  files w' !! store = files w !! store → document store w' = document store w.
Proof. unfold document. by intros ->. Qed.

(** What the guarded part comes to, from where the directory is there and the
    compute system is not. *)
Lemma guarded_outcome root r id agent c w w' sc out :
  let store := mapping_path root in
  let d := root ++ [name r] in
  validate_vm_name (name r) = Ok tt → has_directory d w → system_id_of id ∉ systems w →
  guarded store r d id agent c w = (w', sc, out) →
  has_directory d w' ∧
  match out with
  | Ok _ => files w' !! configuration_path d = Some (Some c) ∧ system_id_of id ∈ systems w' ∧
            ∃ ms, document store w = Some ms ∧ document store w' = Some (without id ms ++ [mapping_of r id])
  | Err e => (clean e → sc = true ∨ (system_id_of id ∉ systems w')) ∧
             (e = Io "write metadata mapping" store ∨ files w' !! store = files w !! store)
  | Panic => True
  end.
Proof.
  intros store d Hn Hd Hs Hg. unfold guarded in Hg.
  destruct (prepare r d id agent c w) as [w1 p] eqn:Hp.
  pose proof (keeps_at _ _ _ _ _ (prepare_keeps r d id agent c) Hp Hd) as Hd1.
  assert (Hst : files w1 !! store = files w !! store).
  { apply (touched_files (on_the_way d) (only (system_id_of id)) nobody); [|by apply store_apart].
    apply (stays_at _ _ _ _ _ _ _ (stays_prepare (on_the_way d) (only (system_id_of id)) nobody r d id agent c (λ q Hq, Hq) eq_refl) Hp). }
  destruct p as [[]|e|].
  - destruct (insert store (mapping_of r id) w1) as [w2 o] eqn:Hi. injection Hg as <- <- <-.
    pose proof (keeps_at _ _ _ _ _ (insert_keeps root _ _ Hn) Hi Hd1) as Hd2. split; [done|].
    pose proof (stays_at _ _ _ _ _ _ _ (insert_elsewhere store (mapping_of r id)) Hi) as [Fi Si _].
    apply prepare_ok in Hp as [Hsys Hcfg]. destruct o as [[]|e|]; [| |done].
    + apply insert_ok in Hi as (_ & ms & Hd0 & Hd' & _); [|done]. split; [|split].
      * rewrite Fi, Hcfg; [done|]. unfold store. rewrite parent_of_mapping.
        intros [(k & E & _)%list_elem_of_fmap|E].
        -- apply (f_equal length) in E. unfold configuration_path, child, d in E.
           rewrite length_take, !length_app in E. cbn in E. lia.
        -- apply (f_equal length) in E. unfold configuration_path, mapping_path, child, d in E.
           rewrite !length_app in E. cbn in E. lia.
      * by rewrite Si by (by intros []).
      * exists ms. by rewrite <- (same_document store w w1).
    + split; [by left|]. apply insert_err in Hi as [->|Hi]; [by left|right; by rewrite Hi|].
      intros E. apply (f_equal length) in E. unfold store, mapping_path, child in E.
      rewrite length_app in E. cbn in E. lia.
  - injection Hg as <- <- <-. split; [done|]. split; [|by right].
    intros He. right. by eapply prepare_err.
  - injection Hg as <- <- <-. done.
Qed.

(** C20: a VM is created whole or not at all.  Whatever the host does to the calls
    of a creation, and wherever a cancellation arrives: one that reports success
    has left the directory, the configuration, the compute system and a mapping
    that a lookup by name had not found before; one whose report names a single
    failure (the cause, and nothing that the rollback could not do) has left no
    file under the VM's directory, no compute system, and the mapping document as
    it was unless writing that document is what failed; and one refused before
    anything was made has changed no file, or failed while making the directory. *)
Theorem a_vm_is_created_whole_or_not_at_all root r id w w' out :
  let store := mapping_path root in
  let d := root ++ [name r] in
  system_id_of id ∉ systems w →
  create_vm store r d id w = (w', out) →
  match out with
  | Ok m => m = mapping_of r id ∧ created store d r id w w'
  | Err (Combined _ [cause]) => clean cause → undone store d id cause w w'
  | Err (Combined _ _) => True
  | Err e => e = Io "create directory" (disk_directory d) ∨ files w' = files w
  | Panic => True
  end.
Proof.
  intros store d Hs Hc. unfold create_vm, abind in Hc.
  destruct (before_the_guard store r d id w) as [w1 [[agent c]|e|]] eqn:Hb; [| |by injection Hc as _ <-].
  - apply before_the_guard_ok in Hb as (Hv & (ms & Hms & Hfree) & _ & Hd & Ht).
    apply request_inv in Hv as (Hn%vm_name_accepted & _).
    assert (Hst : files w1 !! store = files w !! store).
    { apply (touched_files _ _ _ _ _ Ht). intros Hw%disk_directory_way. by eapply store_apart. }
    assert (Hs1 : system_id_of id ∉ systems w1) by (rewrite (touched_systems _ _ _ _ _ Ht); [done|by intros []]).
    destruct (guarded store r d id agent c w1) as [[w2 sc] o] eqn:Hg.
    apply guarded_outcome in Hg as [Hd2 Ho]; [|done..].
    destruct o as [[]|e|]; [| |by injection Hc as _ <-].
    + injection Hc as <- <-. split; [done|]. destruct Ho as (Hcfg & Hsys & ms' & Hms' & Hdoc).
      split; [done|]. split; [eauto|]. split; [done|].
      assert (Some ms' = Some ms) as [= ->] by (rewrite <- Hms, <- Hms'; by apply same_document).
      by exists ms.
    + destruct Ho as [Hsys Hdoc].
      destruct (rollback d (system_id_of id) sc e w2) as [w3 o] eqn:Hr.
      pose proof (stays_at _ _ _ _ _ _ _ (stays_rollback _ _ _ _) Hr) as [Fr _ _].
      pose proof Hr as Hr'. apply rollback_shape in Hr as [->|[l ->]]; injection Hc as -> <-; [done|].
      destruct l as [|cause [|? ?]]; [done| |done]. intros Hclean.
      apply rollback_complete in Hr' as (-> & Hgone & Hfiles); [|done]. split; [done|]. split; [auto|].
      destruct Hdoc as [->|Hdoc]; [by left|right].
      transitivity (files w2 !! store); [|by rewrite <- Hst].
      apply Fr. intros Hw. eapply store_apart; [done|]. by left.
  - injection Hc as <- <-. apply before_the_guard_err in Hb as [He Hb].
    destruct e; try done. by destruct (He operation failures).
Qed.

(** ** The others *)

Definition creation_reach (root d q : path) : Prop :=
  on_the_way d q ∨ q ∈ ways_to root ∨ q = mapping_path root.

Lemma stays_before_the_guard (P : path → Prop) ids eps store r d id :
  (∀ q, on_the_way d q → P q) → stays P ids eps (before_the_guard store r d id).
Proof.
  intros HP. unfold before_the_guard. stays.
  - apply stays_quiet, quiet_find.
  - intros q Hq. by apply HP, disk_directory_way.
Qed.

Lemma stays_create_vm root r d id :
  stays (creation_reach root d) (only (system_id_of id)) nobody (create_vm (mapping_path root) r d id).
Proof.
  unfold create_vm. apply stays_bind; [by apply stays_before_the_guard; intros q Hq; left|]. intros [agent c] w.
  unfold guarded. destruct (prepare r d id agent c w) as [w1 p] eqn:Hp.
  assert (Hprep : touches (creation_reach root d) (only (system_id_of id)) nobody w w1).
  { eapply stays_at; [|done]. apply stays_prepare; [by left|done]. }
  assert (Hroll : ∀ sc e v, touches (creation_reach root d) (only (system_id_of id)) nobody v
                    ((let^ error := rollback d (system_id_of id) sc e in fail (A:=VmComputeSystemMapping) error) v).1).
  { intros sc e v. apply (stays_bind (P:=creation_reach root d)); [|intros ?; apply stays_pure].
    eapply stays_weaken; [apply stays_rollback| |done..]. intros q Hq. left. by left. }
  assert (Hdrop : ∀ sc v, touches (creation_reach root d) (only (system_id_of id)) nobody v
                    (drop_guard d (system_id_of id) sc v).1).
  { intros sc v. revert v. change (stays (creation_reach root d) (only (system_id_of id)) nobody (drop_guard d (system_id_of id) sc)).
    unfold drop_guard. stays; [by apply stays_teardown|].
    apply stays_remove_vm_directory. intros q Hq. left. by left. }
  destruct p as [[]|e|].
  - destruct (insert (mapping_path root) (mapping_of r id) w1) as [w2 o] eqn:Hi.
    assert (Hins : touches (creation_reach root d) (only (system_id_of id)) nobody w1 w2).
    { eapply stays_at; [|done]. eapply stays_weaken; [apply insert_elsewhere| |by intros ? []|done].
      rewrite parent_of_mapping. intros q [Hq| ->]; right; auto. }
    pose proof (touches_trans _ _ _ Hprep Hins) as Hboth.
    destruct o as [[]|e|]; [done| |].
    + exact (touches_trans _ _ _ Hboth (Hroll _ _ _)).
    + exact (touches_trans _ _ _ Hboth (Hdrop _ _)).
  - exact (touches_trans _ _ _ Hprep (Hroll _ _ _)).
  - exact (touches_trans _ _ _ Hprep (Hdrop _ _)).
Qed.

Lemma beyond_reach root n other q :
  n ≠ other → validate_vm_name other = Ok tt → within (root ++ [other]) q →
  ¬ creation_reach root (root ++ [n]) q.
Proof.
  intros Hne Ho Hq. assert (Hlen : (length q > length root)%nat).
  { apply under_spec in Hq as [rest ->]. rewrite !length_app. cbn. lia. }
  intros [[Hw|(k & -> & _)%list_elem_of_fmap]|[(k & -> & _)%list_elem_of_fmap| ->]].
  - unfold within in *. by rewrite (siblings_apart root other n) in Hw.
  - rewrite length_take, length_app in Hlen. cbn in Hlen.
    rewrite take_ge in Hq by (rewrite length_app; cbn; lia).
    pose proof (siblings_apart root other n (root ++ [n]) (not_eq_sym Hne) Hq) as Hs.
    by rewrite under_refl in Hs.
  - rewrite length_take in Hlen. lia.
  - unfold within in Hq. by rewrite mapping_is_outside in Hq.
Qed.

(** Creating a VM leaves every other VM alone.  However the creation ends,
    a panic included, no file of a VM of another name, no other compute system
    and no endpoint has changed. *)
Theorem a_creation_leaves_other_vms_alone root r id w w' out other :
  validate_vm_name other = Ok tt → name r ≠ other →
  create_vm (mapping_path root) r (root ++ [name r]) id w = (w', out) →
  (∀ q, within (root ++ [other]) q → files w' !! q = files w !! q) ∧
  (∀ system, system ≠ system_id_of id → (system ∈ systems w' ↔ system ∈ systems w)) ∧
  (∀ e, e ∈ endpoints w' ↔ e ∈ endpoints w).
Proof.
  intros Ho Hne Hc. pose proof (stays_at _ _ _ _ _ _ _ (stays_create_vm root r _ id) Hc) as [F S E].
  split_and!; [|done|intros e; apply E; by intros []].
  intros q Hq. by eapply F, beyond_reach.
Qed.

End creation.

(** ** On a host *)

Lemma clean_failure e : match e with WithCleanup _ _ => False | _ => True end → clean e.
Proof. by intros H a b ->. Qed.

(** A creation that works, and one whose host cannot make the directory of the
    keys. *)
Lemma a_vm_is_created_whole_or_not_at_all_witness :
  (∃ w m, sample_create "dev" 5 (empty_world [] None) = (w, Ok m) ∧
          created (mapping_path sample_root) (sample_root ++ [text "dev"]) (sample_request "dev") 5
            (empty_world [] None) w) ∧
  (let w0 := empty_world [Works; Works; Works; Fails 3 (λ _, false)] None in
   ∃ w cause, sample_create "dev" 5 w0 = (w, Err (Combined "creation failed" [cause])) ∧
              undone (mapping_path sample_root) (sample_root ++ [text "dev"]) 5 cause w0 w).
Proof.
  split.
  - destruct (sample_create "dev" 5 (empty_world [] None)) as [w out] eqn:Ho.
    assert (Hok : is_ok out = true) by (change out with (w, out).2; rewrite <- Ho; vm_compute; reflexivity).
    destruct out as [m| |]; [|discriminate Hok..]. exists w, m. split; [reflexivity|].
    assert (Hn : system_id_of 5 ∉ systems (empty_world [] None)) by (apply not_elem_of_empty).
    apply (a_vm_is_created_whole_or_not_at_all sample_root (sample_request "dev") 5 _ _ _ Hn Ho).
  - set (w0 := empty_world _ _). cbv zeta. destruct (sample_create "dev" 5 w0) as [w out] eqn:Ho.
    assert (Hn : system_id_of 5 ∉ systems w0) by (apply not_elem_of_empty).
    assert (Hout : out = (sample_create "dev" 5 w0).2) by (rewrite Ho; reflexivity).
    pose proof (a_vm_is_created_whole_or_not_at_all sample_root (sample_request "dev") 5 _ _ _ Hn Ho) as Hthm.
    vm_compute in Hout. subst out. exists w. eexists. split; [reflexivity|].
    apply Hthm. by apply clean_failure.
Defined.

Lemma a_creation_leaves_other_vms_alone_witness :
  let w := (sample_create "dev" 5 (empty_world [] None)).1 in
  ∃ w' out, sample_create "web" 6 w = (w', out) ∧
            ∀ q, within (sample_root ++ [text "dev"]) q → files w' !! q = files w !! q.
Proof.
  intros w. destruct (sample_create "web" 6 w) as [w' out] eqn:Ho. exists w', out. split; [reflexivity|].
  apply (a_creation_leaves_other_vms_alone sample_root (sample_request "web") 6 w w' out (text "dev"));
    [reflexivity|discriminate|exact Ho].
Defined.

(** ** Where the code does less than it says *)

(** The directory is made before the guard is armed, so a creation that cannot
    make all of it leaves the part it made, and with it a name that cannot be used
    again. *)
Lemma a_half_made_directory_is_left :
  ∃ w w', sample_create "dev" 5 w = (w', Err (Io "create directory" (disk_directory (sample_root ++ [text "dev"])))) ∧
          files w !! (sample_root ++ [text "dev"]) = None ∧
          files w' !! (sample_root ++ [text "dev"]) = Some None ∧
          (sample_create "dev" 6 w').2 = Err DirectoryTaken.
Proof.
  set (w := empty_world [Works; Fails 3 (λ _, false)] None). exists w, (sample_create "dev" 5 w).1.
  split_and!; vm_compute; reflexivity.
Qed.
