(* ===== verification/DeletionProps.v ===== *)
(** * DeletionProps: what a deletion leaves, and what housekeeping removes *)

From stdpp Require Import strings gmap list sets.
From S2P Require Import Prelude Stateful ClipboardPath CoreVm CoreRequest Layout HostFiles.
From S2P Require Import Metadata Creation CreationLaws CreationProps.
#[local] Open Scope Z_scope.

(** No file without the directory it is in. *)
Definition fs_closed (w : World) : Prop :=
  ∀ p q, under p q = true → is_some (files w !! p) = false → files w !! q = None.

Section deletion.
Context `{H : HostCalls} `{L : !HostLaws H} `{C : MappingCodec} `{CL : !MappingLaws C}.

(** ** Removing what is there *)

(** What a removal is about. *)
Definition target (t : bool * path) (q : path) : Prop := if t.1 then within t.2 q else q = t.2.

Lemma target_within t q : target t q → within t.2 q.
Proof. destruct t as [[] p]; cbn; [done|intros ->; apply under_refl]. Qed.

(** Nothing is under the directory to remove when the directory is not there. *)
Definition rooted (t : bool * path) (w : World) : Prop :=
  files w !! t.2 = None → ∀ q, within t.2 q → files w !! q = None.

Lemma removal_ok t w w' :
  removal t w = (w', Ok tt) → rooted t w → ∀ q, target t q → files w' !! q = None.
Proof.
  unfold removal, remove_directory_if_present, remove_file_if_present, rooted, target.
  destruct t as [[] p]; cbn [fst snd]; intros Hr Hw q Hq; act_ok Hr as there, He;
    apply path_exists_ok in He as [-> ->].
  - destruct (files w !! p) eqn:Hp; cbn in Hr; [by eapply remove_dir_all_ok|].
    injection Hr as <-. auto.
  - subst q. destruct (files w !! p) eqn:Hp; cbn in Hr; [by eapply remove_file_ok|by injection Hr as <-].
Qed.

Lemma stays_removal P ids eps t : (∀ q, target t q → P q) → stays P ids eps (removal t).
Proof.
  intros HP. unfold removal, remove_directory_if_present, remove_file_if_present, target in *.
  destruct t as [[] p]; cbn [fst snd] in *; stays; auto.
Qed.

Lemma stays_collect_all P ids eps steps f :
  Forall (stays P ids eps) steps → stays P ids eps (collect_all steps f).
Proof.
  intros Hs. revert f. induction Hs as [|m steps Hm _ IH]; intros f; cbn; [apply stays_pure|].
  apply stays_bind; [by apply stays_collecting|]. apply IH.
Qed.

Lemma collect_all_grows steps f w w' :
  collect_all steps f w = (w', Ok []) → f = [].
Proof.
  revert f w. induction steps as [|m steps IH]; intros f w Hc; cbn in Hc; [by injection Hc|].
  act_ok Hc as f1, Hm. apply IH in Hc as ->. by apply collecting_nil in Hm as [-> _].
Qed.

Lemma collect_all_cons m steps w w' :
  collect_all (m :: steps) [] w = (w', Ok []) →
  ∃ w1, m w = (w1, Ok tt) ∧ collect_all steps [] w1 = (w', Ok []).
Proof.
  cbn. intros Hc. act_ok Hc as f1, Hm. pose proof Hc as Hc'. apply collect_all_grows in Hc' as ->.
  apply collecting_nil in Hm as [_ Hm]. eauto.
Qed.

(** Removals of places apart from each other: when all went well each place is
    empty and the rest is as it was. *)
Definition apart (t u : bool * path) : Prop := ∀ q, within t.2 q → ¬ within u.2 q.

Lemma rooted_after P ids eps t w w' :
  touches P ids eps w w' → (∀ q, within t.2 q → ¬ P q) → rooted t w → rooted t w'.
Proof.
  intros [F _ _] HP Hr Hn q Hq. rewrite F in * by auto using under_refl.
  apply Hr; [|done]. rewrite F in Hn; [done|]. apply HP, under_refl.
Qed.

Lemma collected_removals l w w' :
  collect_all (map removal l) [] w = (w', Ok []) →
  ForallOrdPairs apart l → Forall (λ t, rooted t w) l →
  (∀ t q, t ∈ l → target t q → files w' !! q = None) ∧
  touches (λ q, ∃ t, t ∈ l ∧ target t q) nobody nobody w w'.
Proof.
  revert w. induction l as [|t l IH]; intros w Hc Ha Hr.
  { injection Hc as <-. split; [by intros ? ? ?%elem_of_nil|apply touches_refl]. }
  cbn [map] in Hc. apply collect_all_cons in Hc as (w1 & Ht & Hc).
  inversion Ha as [|? ? Hat Hal]; subst. apply list.Forall_cons in Hr as [Hrt Hrl].
  assert (Hs : touches (target t) nobody nobody w w1)
    by (eapply stays_at; [by apply (stays_removal (target t) nobody nobody)|done]).
  apply IH in Hc as [Hgone Htouch]; [|done|].
  - split.
    + intros u q [->|Hu]%elem_of_cons Hq; [|by eapply Hgone].
      rewrite (touched_files _ _ _ _ _ Htouch).
      * by eapply removal_ok.
      * intros (u & Hu & Hq'). rewrite List.Forall_forall in Hat.
        apply (Hat u) with q; [by apply list_elem_of_In|by apply target_within|by apply target_within].
    + eapply touches_trans.
      * destruct Hs as [F S E]. constructor; [|done..]. intros q Hq. apply F. intros Ht'.
        apply Hq. exists t. by split; [left|].
      * destruct Htouch as [F S E]. constructor; [|done..]. intros q Hq. apply F.
        intros (u & Hu & Hq'). apply Hq. exists u. by split; [right|].
  - rewrite List.Forall_forall in *. intros u Hu. eapply rooted_after; [done| |by apply Hrl].
    intros q Hq Ht'. by apply (Hat u Hu q); [apply target_within|].
Qed.

Lemma children_apart d a b : text a ≠ text b → ∀ q, within (child d a) q → ¬ within (child d b) q.
Proof.
  intros Hne q Ha Hb. unfold within, child in *. by rewrite (siblings_apart d (text a) (text b)) in Hb.
Qed.

Lemma identity_apart d : ForallOrdPairs apart (identity d).
Proof.
  unfold identity. repeat constructor; unfold apart; cbn [snd]; apply children_apart; by vm_compute.
Qed.

Lemma identity_within d t : t ∈ identity d → within d t.2.
Proof.
  unfold identity. rewrite !elem_of_cons, elem_of_nil. intros Ht.
  destruct_or?; subst; try done; apply child_within.
Qed.

(** ** A deletion *)

(** What stands for the VM apart from its disks, file by file: its configuration,
    its two state stores, and whatever logs into it or vouches for it. *)
Definition stands_for_the_vm (d q : path) : Prop :=
  q = configuration_path d ∨ q = guest_state_path d ∨ q = runtime_state_path d ∨
  q = agent_secret_path d ∨ q = ssh_known_hosts_path d ∨
  within (ssh_keys_directory d) q ∨ within (ssh_sessions_directory d) q.

(** The removals are of these and of nothing else. *)
Lemma identity_stands_for_the_vm d q : stands_for_the_vm d q ↔ ∃ t, t ∈ identity d ∧ target t q.
Proof.
  unfold stands_for_the_vm, identity. split.
  - intros Hq. destruct_or? Hq;
      [exists (false, configuration_path d)|exists (false, guest_state_path d)|exists (false, runtime_state_path d)
      |exists (false, agent_secret_path d)|exists (false, ssh_known_hosts_path d)
      |exists (true, ssh_keys_directory d)|exists (true, ssh_sessions_directory d)]; (split; [set_solver|exact Hq]).
  - intros (t & Ht & Hq). rewrite !elem_of_cons, elem_of_nil in Ht. destruct_or? Ht; subst; cbn in Hq; tauto.
Qed.

(** What is left of the files when a deletion went through. *)
Definition files_left (d : path) (delete_disks : bool) (w w' : World) : Prop :=
  if delete_disks then ∀ q, within d q → files w' !! q = None
  else (∀ q, stands_for_the_vm d q → files w' !! q = None) ∧
       ∀ q, within d q → ¬ stands_for_the_vm d q → files w' !! q = files w !! q.

Lemma stands_within d q : stands_for_the_vm d q → within d q.
Proof.
  intros (t & Ht & Hq)%identity_stands_for_the_vm.
  eapply under_trans; [by apply identity_within|by apply target_within].
Qed.

(** What a deletion needs of the files it finds. *)
Definition tidy (d : path) (delete_disks : bool) (w : World) : Prop :=
  if delete_disks then rooted (true, d) w else fs_closed w.
Lemma closed_tidy d dd w : fs_closed w → tidy d dd w.
Proof. intros Hw. destruct dd; [|done]. intros Hn q Hq. apply (Hw d); [done|]. cbn in Hn. by rewrite Hn. Qed.
Lemma tidy_same d dd w w' : files w' = files w → tidy d dd w → tidy d dd w'.
Proof. unfold tidy, rooted, fs_closed. destruct dd; by intros ->. Qed.

Lemma stays_remove_files d dd : stays (within d) nobody nobody (remove_files d dd).
Proof.
  unfold remove_files. destruct dd; [by apply stays_remove_vm_directory|]. stays.
  apply stays_collect_all. apply list.Forall_forall. intros m Hm.
  apply list_elem_of_In, in_map_iff in Hm as (t & <- & Ht). apply list_elem_of_In in Ht.
  apply stays_removal. intros q Hq. eapply under_trans; [by apply identity_within|by apply target_within].
Qed.

Lemma remove_files_ok d dd w w' :
  tidy d dd w → remove_files d dd w = (w', Ok tt) → files_left d dd w w'.
Proof.
  intros Hw. unfold remove_files, files_left, tidy in *. destruct dd.
  - unfold remove_vm_directory. intros Hr q Hq. act_ok Hr as there, He.
    apply path_exists_ok in He as [-> ->]. destruct (is_some _) eqn:Hd.
    + by eapply remove_dir_all_ok.
    + injection Hr as <-. apply Hw; [|done]. cbn. by destruct (files w !! d).
  - intros Hr. act_ok Hr as f, Hc. destruct f as [|? ?]; [|done]. injection Hr as <-.
    apply collected_removals in Hc as [Hgone [F _ _]]; [|apply identity_apart|].
    + split; [intros q (t & Ht & Hq)%identity_stands_for_the_vm; by eapply Hgone|].
      intros q _ Hq. apply F. by rewrite <- identity_stands_for_the_vm.
    + apply list.Forall_forall. intros t _ Hn q Hq. apply (Hw t.2); [done|]. by rewrite Hn.
Qed.

Lemma find_elem (f : VmComputeSystemMapping → bool) ms m : List.find f ms = Some m → m ∈ ms ∧ f m = true.
Proof. intros [Hm Hf]%find_some. split; [by apply list_elem_of_In|done]. Qed.

Lemma stays_remove_resources m d dd :
  stays (within d) (only (hcs_compute_system_id m)) (λ e, endpoint_id m = Some e) (remove_resources m d dd).
Proof.
  unfold remove_resources. apply stays_bind; [by apply stays_collecting, stays_teardown|]. intros f.
  apply stays_bind; [|intros f'; apply stays_collecting; eapply stays_weaken; [apply stays_remove_files|done..]].
  destruct (endpoint_id m) as [e|]; [|apply stays_pure]. by apply stays_collecting, stays_endpoint.
Qed.

Lemma remove_resources_ok m d dd w w' :
  tidy d dd w → remove_resources m d dd w = (w', Ok []) →
  (hcs_compute_system_id m ∉ systems w') ∧
  (∀ e, endpoint_id m = Some e → e ∉ endpoints w') ∧ files_left d dd w w'.
Proof.
  intros Hw Hr. unfold remove_resources in Hr.
  act_ok Hr as f1, H1. act_ok Hr as f2, H2. apply collecting_nil in Hr as [-> H3].
  pose proof (stays_at _ _ _ _ _ _ _ (stays_remove_files d dd) H3) as [_ S3 E3].
  assert (H2' : f1 = [] ∧ touches nobody nobody (λ e, endpoint_id m = Some e) x x0 ∧
                ∀ e, endpoint_id m = Some e → e ∉ endpoints x0).
  { destruct (endpoint_id m) as [e|].
    - apply collecting_nil in H2 as [-> H2]. split; [done|]. split.
      + eapply stays_at; [|done]. by apply stays_endpoint.
      + intros e' [= <-]. by eapply deleted_endpoint.
    - injection H2 as <- ->. by split; [|split; [apply touches_refl|]]. }
  destruct H2' as (-> & [F2 S2 _] & He). apply collecting_nil in H1 as [_ H1].
  assert (F1 : files x = files w).
  { pose proof (stays_at nobody (only (hcs_compute_system_id m)) nobody _ _ _ _ (stays_teardown _ eq_refl) H1) as [F _ _].
    apply map_eq. intros q. apply F. by intros []. }
  assert (F2' : files x0 = files x) by (apply map_eq; intros q; apply F2; by intros []).
  split_and!.
  - rewrite S3 by (by intros []). rewrite S2 by (by intros []). by eapply teardown_ok.
  - intros e Hm. rewrite E3 by (by intros []). auto.
  - assert (Hx : tidy d dd x0) by (eapply tidy_same; [|done]; by rewrite F2', F1).
    apply remove_files_ok in H3; [|done]. unfold files_left in *. by rewrite F2', F1 in H3.
Qed.

Lemma remove_touches root n id w w' r q :
  validate_vm_name n = Ok tt → remove (mapping_path root) id w = (w', r) →
  within (root ++ [n]) q → files w' !! q = files w !! q.
Proof.
  intros Hn Hr Hq. pose proof (remove_elsewhere (mapping_path root) id) as Hs.
  apply (stays_at _ _ _ _ _ _ _ Hs) in Hr as [F _ _]. apply F. rewrite parent_of_mapping.
  intros [(k & E & _)%list_elem_of_fmap|E].
  - apply under_spec in Hq as [rest Hq]. apply (f_equal length) in E. rewrite Hq in E.
    rewrite length_take, !length_app in E. cbn in E. lia.
  - eapply store_apart; [done|]. left. by rewrite <- E.
Qed.

(** What a deletion that reports success has done. *)
Definition deleted (store d : path) (n : str) (dd : bool) (w w' : World) : Prop :=
  ∃ ms m,
    document store w = Some ms ∧ List.find (λ x, str_eqb (vm_name x) n) ms = Some m ∧
    document store w' = Some (without (vm_id m) ms) ∧
    (hcs_compute_system_id m ∉ systems w') ∧
    (∀ e, endpoint_id m = Some e → e ∉ endpoints w') ∧ files_left d dd w w'.

Lemma delete_vm_ok root n dd w w' :
  let store := mapping_path root in
  let d := root ++ [n] in
  validate_vm_name n = Ok tt → tidy d dd w → delete_vm store n d dd w = (w', Ok tt) → deleted store d n dd w w'.
Proof.
  intros store d Hn Hw Hd. unfold delete_vm in Hd.
  assert (Hmiss : ¬ within d store) by (intros Hi; eapply store_apart; [done|by left]).
  act_ok Hd as found, Hf. pose proof (unchanged _ _ _ _ (quiet_find _ _) Hf) as Ff.
  apply find_first_ok in Hf as (_ & ms & Hms & ->). destruct (List.find _ ms) as [m|] eqn:Hm in Hd; [|done].
  act_ok Hd as f, Hr. destruct f as [|? ?]; [|done].
  pose proof (stays_at _ _ _ _ _ _ _ (stays_remove_resources m d dd) Hr) as [Fr _ _].
  apply remove_resources_ok in Hr as (Hs & He & Hl); [|by eapply tidy_same; [|done]].
  pose proof (stays_at _ _ _ _ _ _ _ (remove_elsewhere store (vm_id m)) Hd) as [_ Sd Ed].
  exists ms, m. split; [done|]. split; [done|].
  assert (Hleft : ∀ q, within d q → files w' !! q = files x0 !! q) by (intros; by eapply remove_touches).
  apply remove_ok in Hd as (ms' & Hms' & Hdoc).
  assert (Some ms' = Some ms) as [= ->].
  { rewrite <- Hms, <- Hms'. apply same_document. by rewrite Fr, Ff. }
  split; [done|]. split; [by rewrite Sd by (by intros [])|].
  split; [intros e Hme; rewrite Ed by (by intros []); auto|].
  rewrite Ff in *. unfold files_left in *. destruct dd.
  + intros q Hq. by rewrite Hleft, Hl.
  + destruct Hl as [Hl1 Hl2]. split.
  * intros q Hq. rewrite Hleft; [by apply Hl1|by apply stands_within].
  * intros q Hq Hno. by rewrite Hleft, Hl2, Ff.
Qed.

(** C21: a deletion is complete, or the VM stays known.  One that reports success
    has torn the compute system down, deleted the endpoint, removed the files and
    forgotten that one mapping.  With the disks, all of the VM's files are gone;
    without, its HCS configuration, its guest and runtime state, its agent secret,
    its SSH key pair, the SSH host keys it learned and what its SSH sessions left
    are gone ([stands_for_the_vm]), and every other file of the VM is as it was.  One
    that reports a failure has left the document as it was, so that it can be run
    again, unless rewriting the document is what failed.  This is of a VM with a valid
    name and of a file system where no file is there without the directory it is in,
    and where asking whether a path exists is answered: the code takes a path whose
    metadata cannot be read for gone already. *)
Theorem a_deletion_is_complete_or_can_be_repeated root n dd w w' out :
  let store := mapping_path root in
  let d := root ++ [n] in
  validate_vm_name n = Ok tt → fs_closed w →
  delete_vm store n d dd w = (w', out) →
  match out with
  | Ok _ => ∃ ms m,
      document store w = Some ms ∧ List.find (λ x, str_eqb (vm_name x) n) ms = Some m ∧
      document store w' = Some (without (vm_id m) ms) ∧
      (hcs_compute_system_id m ∉ systems w') ∧
      (∀ e, endpoint_id m = Some e → e ∉ endpoints w') ∧ files_left d dd w w'
  | Err e => e = Io "write metadata mapping" store ∨ files w' !! store = files w !! store
  | Panic => True
  end.
Proof.
  intros store d Hn Hw Hd. unfold delete_vm in Hd.
  assert (Hmiss : ¬ within d store) by (intros Hi; eapply store_apart; [done|by left]).
  destruct out as [[]|e|]; [| |done].
  - apply delete_vm_ok; [done|by apply closed_tidy|done].
  - apply abind_err in Hd as [Hd|(w1 & found & Hf & Hd)].
    { right. by rewrite (unchanged _ _ _ _ (quiet_find _ _) Hd). }
    apply (unchanged _ _ _ _ (quiet_find _ _)) in Hf. destruct found as [m|]; [|injection Hd as <- _; right; by rewrite Hf].
    assert (Hr : ∀ v r, remove_resources m d dd w1 = (v, r) → files v !! store = files w !! store).
    { intros v r Hr. pose proof (stays_at _ _ _ _ _ _ _ (stays_remove_resources m d dd) Hr) as [F _ _].
      by rewrite F, Hf. }
    apply abind_err in Hd as [Hd|(w2 & f & Hf2 & Hd)]; [right; eauto|].
    destruct f as [|? ?]; [|injection Hd as <- _; right; eauto].
    apply remove_err in Hd as [->|Hd]; [by left|right; rewrite Hd; eauto|].
    intros E. apply (f_equal length) in E. unfold store, mapping_path, child in E.
    rewrite length_app in E. cbn in E. lia.
Qed.

(** ** Housekeeping *)

Lemma stays_delete_endpoints l f :
  stays nobody nobody (λ e, e ∈ l) (collect_all (map hcn_delete l) f).
Proof.
  apply stays_collect_all, list.Forall_forall. intros m Hm.
  apply list_elem_of_In, in_map_iff in Hm as (e & <- & He). by apply stays_endpoint, list_elem_of_In.
Qed.

Lemma deleted_endpoints l w w' :
  collect_all (map hcn_delete l) [] w = (w', Ok []) → ∀ e, e ∈ l → e ∉ endpoints w'.
Proof.
  revert w. induction l as [|x l IH]; intros w Hc e He; [by apply elem_of_nil in He|].
  cbn [map] in Hc. apply collect_all_cons in Hc as (w1 & Hx & Hc).
  destruct (decide (e ∈ l)) as [Hin|Hout]; [by eapply IH|].
  apply elem_of_cons in He as [->|He]; [|done].
  pose proof (stays_at _ _ _ _ _ _ _ (stays_delete_endpoints l []) Hc) as [_ _ E].
  rewrite E by done. by eapply deleted_endpoint.
Qed.

Lemma orphan_endpoints_spec listed ms e :
  e ∈ orphan_endpoints listed ms ↔ e ∈ listed ∧ ∀ m, m ∈ ms → endpoint_id m ≠ Some e.
Proof.
  unfold orphan_endpoints. rewrite list_elem_of_filter, <- not_true_iff_false, existsb_exists. split.
  - intros [Hn Hl]. split; [done|]. intros m Hm E. apply Hn. exists m.
    split; [by apply list_elem_of_In|by apply bool_decide_eq_true_2].
  - intros [Hl Hn]. split; [|done]. intros (m & Hm%list_elem_of_In & E%bool_decide_eq_true). by eapply Hn.
Qed.

(** Housekeeping removes exactly the endpoints nobody owns.  Whatever the
    host refuses, an endpoint that a recorded VM names is still there if it was;
    and when all went well, every endpoint left in the network is named by a
    recorded VM. *)
Theorem housekeeping_removes_only_orphans store w w' out ms :
  document store w = Some ms → remove_orphan_endpoints store w = (w', out) →
  (∀ e m, m ∈ ms → endpoint_id m = Some e → (e ∈ endpoints w' ↔ e ∈ endpoints w)) ∧
  (out = Ok tt → ∀ e, e ∈ endpoints w' → ∃ m, m ∈ ms ∧ endpoint_id m = Some e).
Proof.
  intros Hd Ho. unfold remove_orphan_endpoints in Ho.
  assert (Hload : quiet (list_all store)) by (unfold quiet, list_all, load; stays).
  unfold abind at 1 in Ho. destruct (hcn_list w) as [w1 r1] eqn:H1.
  pose proof (stays_at _ _ _ _ _ _ _ listing_stays H1) as T1.
  pose proof (unchanged _ _ _ _ listing_stays H1) as F1.
  destruct r1 as [listed|e|]; [|injection Ho as <- <-; destruct T1 as [_ _ E]; split; [intros; apply E; by intros []|done]..].
  unfold abind at 1 in Ho. destruct (list_all store w1) as [w2 r2] eqn:H2.
  pose proof (touches_trans _ _ _ T1 (stays_at _ _ _ _ _ _ _ Hload H2)) as [_ _ E2].
  destruct r2 as [ms'|e|]; [|injection Ho as <- <-; split; [intros; apply E2; by intros []|done]..].
  apply load_ok in H2 as [_ Hms].
  assert (Some ms' = Some ms) as [= ->].
  { rewrite <- Hd, <- Hms. apply same_document. by rewrite F1. }
  unfold abind in Ho. destruct (collect_all _ [] w2) as [w3 r3] eqn:H3.
  pose proof (stays_at _ _ _ _ _ _ _ (stays_delete_endpoints _ []) H3) as [_ _ E3].
  assert (w' = w3) as -> by (destruct r3 as [[|]| |]; by injection Ho).
  split.
  - intros e m Hm He. rewrite E3, E2; [done|by intros []|].
    intros [_ Hno]%orphan_endpoints_spec. by apply (Hno m).
  - intros ->. destruct r3 as [[|]| |]; try done. intros e He.
    destruct (existsb (λ m, bool_decide (endpoint_id m = Some e)) ms) eqn:Hx.
    + apply existsb_exists in Hx as (m & Hm%list_elem_of_In & Hb%bool_decide_eq_true). eauto.
    + exfalso.
      assert (Hor : e ∈ orphan_endpoints listed ms); [|by eapply deleted_endpoints].
      unfold orphan_endpoints. apply list_elem_of_filter. split; [done|].
      eapply listed_endpoints; [done|]. rewrite <- E2 by (by intros []).
      destruct (decide (e ∈ orphan_endpoints listed ms)) as [Hin|Hin]; [|by apply E3].
      by destruct (deleted_endpoints _ _ _ H3 e Hin).
Qed.

End deletion.

(** ** On a host *)

Definition closed_check (w : World) : bool :=
  forallb (λ kv, forallb (λ p, is_some (files w !! p)) (ways_to kv.1)) (map_to_list (files w)).

Lemma closed_check_ok w : closed_check w = true → fs_closed w.
Proof.
  unfold closed_check, fs_closed. intros Hc p q [rest ->]%under_spec Hp.
  destruct (files w !! (p ++ rest)) as [n|] eqn:Hq; [|done]. exfalso.
  rewrite forallb_forall in Hc. specialize (Hc (p ++ rest, n)).
  rewrite <- list_elem_of_In, elem_of_map_to_list in Hc. specialize (Hc Hq).
  rewrite forallb_forall in Hc. rewrite (Hc p) in Hp; [done|].
  apply list_elem_of_In. cbn [fst]. unfold ways_to. apply list_elem_of_fmap. exists (length p).
  split; [by rewrite take_app_length|]. apply elem_of_seq. rewrite length_app. lia.
Qed.

Definition sample_delete (n : string) (disks : bool) : act unit :=
  delete_vm (mapping_path sample_root) (text n) (sample_root ++ [text n]) disks.

Lemma a_deletion_is_complete_or_can_be_repeated_witness :
  let w := (sample_create "dev" 5 (empty_world [] None)).1 in
  let d := sample_root ++ [text "dev"] in
  (∃ w', sample_delete "dev" false w = (w', Ok tt) ∧ files_left d false w w') ∧
  (let w1 := mk_world (files w) (systems w) (endpoints w) [Works; Fails 5 (λ _, true)] None [] in
   ∃ w' e, sample_delete "dev" true w1 = (w', Err e) ∧
           files w' !! mapping_path sample_root = files w1 !! mapping_path sample_root).
Proof.
  intros w d. split.
  - destruct (sample_delete "dev" false w) as [w' out] eqn:Ho.
    assert (Hok : is_ok out = true) by (change out with (w', out).2; rewrite <- Ho; vm_compute; reflexivity).
    destruct out as [[]| |]; [|discriminate Hok..]. exists w'. split; [reflexivity|].
    assert (Hw : fs_closed w) by (apply closed_check_ok; vm_compute; reflexivity).
    destruct (a_deletion_is_complete_or_can_be_repeated sample_root (text "dev") false w w' (Ok tt)
                eq_refl Hw Ho) as (ms & m & _ & _ & _ & _ & _ & Hl). exact Hl.
  - set (w1 := mk_world _ _ _ _ _ _). cbv zeta. destruct (sample_delete "dev" true w1) as [w' out] eqn:Ho.
    assert (Hw : fs_closed w1) by (apply closed_check_ok; vm_compute; reflexivity).
    assert (Hout : out = (sample_delete "dev" true w1).2) by (rewrite Ho; reflexivity).
    pose proof (a_deletion_is_complete_or_can_be_repeated sample_root (text "dev") true w1 w' out
                  eq_refl Hw Ho) as Hthm.
    vm_compute in Hout. subst out. exists w'. eexists. split; [reflexivity|].
    destruct Hthm as [He|He]; [discriminate He|exact He].
Defined.

Lemma housekeeping_removes_only_orphans_witness :
  let store := mapping_path sample_root in
  let w := mk_world (files (empty_world [] None)) ∅ {[7]} [] None [] in
  ∃ w', remove_orphan_endpoints store w = (w', Ok tt) ∧
        ∀ e, e ∈ endpoints w' → ∃ m, m ∈ @nil VmComputeSystemMapping ∧ endpoint_id m = Some e.
Proof.
  intros store w. destruct (remove_orphan_endpoints store w) as [w' out] eqn:Ho.
  assert (Hok : is_ok out = true) by (change out with (w', out).2; rewrite <- Ho; vm_compute; reflexivity).
  destruct out as [[]| |]; [|discriminate Hok..]. exists w'. split; [reflexivity|].
  destruct (housekeeping_removes_only_orphans store w w' (Ok tt) [] eq_refl Ho) as [_ Hall].
  apply Hall. reflexivity.
Defined.
