(* ===== verification/Start.v ===== *)
(** * Start: how a VM is brought up, and how it is stopped by force

    crates/platform: start.rs, force_stop.rs and tools_volume.rs, over the host of
    HostFiles.v.  A start works on a [Machine]: the host, what the list of VMs
    reads of the GPU and the display, and the record the host keeps of what was
    asked of it.  What is called outside is the interface [StartCalls]; nothing here
    writes into the record, the calls do ([StartRecord], StartProps.v).  The file a
    grant is for is the text the document attaches. *)

From stdpp Require Import strings gmap list.
From S2P Require Import Prelude Stateful ClipboardPath CoreVm CoreGpu CoreDisplay CoreRequest.
From S2P Require Import Layout HostFiles Metadata Json HcsConfig Creation VmStatus.
#[local] Open Scope Z_scope.

Inductive HcsStartFailure : Type := EndpointBusy (e : Failure) | StartFailed (e : Failure).
Definition into_error (f : HcsStartFailure) : Failure := match f with EndpointBusy e | StartFailed e => e end.

Inductive HcsSystemState : Type :=
| SystemCreated | SystemRunning | SystemPaused | SystemStopped | SystemOther (state : str).
Definition parse_system_state (s : str) : HcsSystemState :=
  if str_eqb s (text "Created") then SystemCreated
  else if str_eqb s (text "Running") then SystemRunning
  else if str_eqb s (text "Paused") then SystemPaused
  else if str_eqb s (text "Stopped") then SystemStopped
  else SystemOther s.
Definition from_enumeration (reported : option HcsSystemState) : HcsSystemState := default SystemCreated reported.

Record EndpointAddress : Type := mk_address { ip_address : str; prefix_length : Z }.
Record EndpointIdentity : Type := mk_identity { identity_address : option EndpointAddress; identity_mac : option str }.
Record VmNetworkAdapter : Type := mk_network_adapter {
  adapter_endpoint : Z; mac_address : str; adapter_address : option EndpointAddress }.

Inductive EndpointPolicy : Type := Reuse | Replace.

Record PreparedGpu : Type := mk_prepared_gpu {
  gpu_exports : option (list Plan9Export);
  gpu_manifest : list GpuShare;
  gpu_assignment : GpuAssignment;
}.
Record DisplayExport : Type := mk_display_export { display_share : string; display_host_path : str }.
Record PreparedDisplay : Type := mk_prepared_display {
  display_export : option DisplayExport;
  display_failure : option DisplayFailure;
  available_version : option string;
}.

(** What was asked of the host and answered, in its order.  A refusal says whether it
    was HNS, because the endpoint is taken. *)
Inductive StartEvent : Type :=
| Enumerated (systems : list (str * option HcsSystemState))
| Granted (id : str) (file : str)
| Made (id configuration : str)
| MakeRefused (id : str) (busy : bool)
| ConsoleOpened (id : str)
| Started (id : str)
| StartRefused (id : str) (busy : bool)
| EndpointCreated (e : Z)
| Served (mac : str) (address : EndpointAddress)
| GpuAttached (id : str).

Record Machine : Type := mk_machine {
  world : World;
  events : list StartEvent;
  gpu_facts : GpuRuns.Runs;
  display_facts : DisplayRuns.Runs;
}.

(** The calls on [Machine] are those the record has. *)
Class StartCalls := {
  hcs_enumerate : action Machine Failure (list (str * option HcsSystemState));
  hcs_grant : str → str → action Machine Failure unit;
  hcs_create_and_wait : str → str → action Machine HcsStartFailure unit;
  hcs_start_and_wait : str → action Machine HcsStartFailure unit;
  com1_launch : VmComputeSystemMapping → path → action Machine Failure unit;
  hcn_create : Z → str → EndpointIdentity → action Machine Failure unit;
  dhcp_register : path → str → EndpointAddress → action Machine Failure unit;
  gpu_assigner : str → GpuMode → action Machine GpuFailure unit;
  hcn_ensure_network : act unit;
  hcn_open_if_present : Z → act bool;
  hcn_mac_address : Z → act str;
  hcn_address : Z → act (option EndpointAddress);
  new_uuid : act Z;
  gpu_preparer : VmComputeSystemMapping → path → World → World * option PreparedGpu;
  display_preparer : VmComputeSystemMapping → path → World → World * option PreparedDisplay;
  adapter_detacher : str → Z → act unit;
  clock : World → Z;
}.

Abbreviation mact := (action Machine Failure).

(** An operation of the host, as a step of the machine. *)
Definition lift {E A} (m : action World E A) : action Machine E A := λ s,
  let '(w, r) := m (world s) in (mk_machine w (events s) (gpu_facts s) (display_facts s), r).
Definition set_gpu_facts (f : GpuRuns.Runs → GpuRuns.Runs) (s : Machine) : Machine :=
  mk_machine (world s) (events s) (f (gpu_facts s)) (display_facts s).
Definition set_display_facts (f : DisplayRuns.Runs → DisplayRuns.Runs) (s : Machine) : Machine :=
  mk_machine (world s) (events s) (gpu_facts s) (f (display_facts s)).
Section start.
Context `{H : HostCalls} `{S : StartCalls} `{C : MappingCodec} `{J : Json} `{G : Guids}.
Variable store : path.

(** ** tools_volume.rs *)

Definition image_to_write (present agent : str) : option str :=
  let image := tools_image agent in if bool_decide (image = present) then None else Some image.

(** [refresh]: best effort, never a failure of the start. *)
Definition refresh (vm_directory : path) : act unit :=
  let p := tools_path vm_directory in
  let^ present := attempt (read_to_string "read the tools volume" p) in
  match present with
  | Ok (Some present) =>
      let^ agent := gets agent_beside_executable in
      match agent ≫= image_to_write present with
      | Some image => let^ _ := attempt (write_file "write the tools volume" p image) in ret tt
      | None => ret tt
      end
  | _ => ret tt
  end.

(** ** The compute system *)

Inductive ExistingSystemPlan : Type := StartAsIs | Rebuild.
Definition plan_for_existing (state : HcsSystemState) : ExistingSystemPlan :=
  match state with SystemCreated => Rebuild | _ => StartAsIs end.

(** What an enumeration says of a system. *)
Definition state_in (systems : list (str * option HcsSystemState)) (id : str) : HcsSystemState :=
  from_enumeration (List.find (λ s, str_eqb s.1 id) systems ≫= snd).
Definition reported_state (id : str) : mact HcsSystemState :=
  let^ systems := hcs_enumerate in
  pure_of (Ok (state_in systems id)).

Definition tear_down_after_a_failed_creation (id : str) (failure : HcsStartFailure)
    : action World HcsStartFailure unit :=
  let^ _ := try_it (teardown_compute_system id) in pure_of (Err failure).

Definition prepare_hcs_system (id configuration : str) : action Machine HcsStartFailure unit :=
  let^ existing := map_failure StartFailed (lift (hcs_open_if_present id)) in
  let^ reusable :=
    if existing : bool then
      let^ state := map_failure StartFailed (reported_state id) in
      match plan_for_existing state with
      | StartAsIs => pure_of (Ok true)
      | Rebuild => let^ _ := map_failure StartFailed (lift (teardown_compute_system id)) in pure_of (Ok false)
      end
    else pure_of (Ok false) in
  if reusable : bool then pure_of (Ok tt)
  else
    let^ created := try_it (hcs_create_and_wait id configuration) in
    match created with
    | Err failure => lift (tear_down_after_a_failed_creation id failure)
    | _ => pure_of (Ok tt)
    end.

Definition open_console_and_start (mapping : VmComputeSystemMapping) (vm_directory : path) (configuration : str)
    : action Machine HcsStartFailure unit :=
  let id := hcs_compute_system_id mapping in
  let^ _ := prepare_hcs_system id configuration in
  let^ _ := map_failure StartFailed (com1_launch mapping vm_directory) in
  hcs_start_and_wait id.

(** ** The endpoint *)

Definition remembered_identity (configuration : str) : EndpointIdentity :=
  mk_identity None (attached_mac_address configuration).

Definition replaced_identity (existing : option Z) (remembered : EndpointIdentity) : act EndpointIdentity :=
  match existing with
  | None => ret remembered
  | Some id =>
      let^ address := hcn_address id in
      let^ mac := attempt (hcn_mac_address id) in
      ret (mk_identity address match mac with Ok mac => Some mac | _ => None end)
  end.

Definition create_endpoint (vm_name : str) (identity : EndpointIdentity) : mact Z :=
  let^ id := lift new_uuid in
  let^ _ := hcn_create id vm_name identity in
  pure_of (Ok id).

Definition ensure_endpoint (vm_name : str) (recorded : option Z) (remembered : EndpointIdentity)
    (policy : EndpointPolicy) : mact VmNetworkAdapter :=
  let^ _ := lift hcn_ensure_network in
  let^ existing :=
    match recorded with
    | Some id => let^ there := lift (hcn_open_if_present id) in pure_of (Ok (if there : bool then Some id else None))
    | None => pure_of (Ok None)
    end in
  let^ endpoint :=
    match policy, existing with
    | Reuse, Some id => pure_of (Ok id)
    | Reuse, None => create_endpoint vm_name remembered
    | Replace, existing =>
        let^ identity := lift (replaced_identity existing remembered) in
        let^ _ :=
          match recorded with
          | Some id => lift (hcn_delete id)
          | None => pure_of (Ok tt)
          end in
        create_endpoint vm_name identity
    end in
  let^ mac := lift (hcn_mac_address endpoint) in
  let^ address := lift (hcn_address endpoint) in
  pure_of (Ok (mk_network_adapter endpoint mac address)).

Definition read_configuration (vm_directory : path) : act str :=
  let^ contents := read_to_string "read the HCS configuration" (configuration_path vm_directory) in
  match contents with
  | Some contents => ret contents
  | None => fail (Io "read the HCS configuration" (configuration_path vm_directory))
  end.
Definition write_configuration (vm_directory : path) (configuration : str) : act unit :=
  write_file "write the HCS configuration" (configuration_path vm_directory) configuration.

Definition with_endpoint (e : option Z) (m : VmComputeSystemMapping) : VmComputeSystemMapping :=
  mk_mapping (vm_id m) (vm_name m) (hcs_compute_system_id m) (mapping_disk_gb m) e
    (mapping_network m) (mapping_ssh m) (ssh_daemon m) (mapping_gpu m) (mapping_desktop m)
    (display_provisioning m) (display_mode m) (guest_target m).

Definition write_if_changed (vm_directory : path) (configuration updated : str) : act unit :=
  if bool_decide (updated = configuration) then ret tt else write_configuration vm_directory updated.

Definition attach_network (mapping : VmComputeSystemMapping) (vm_directory : path) (configuration : str)
    (recorded : option Z) (policy : EndpointPolicy) : mact (str * option Z) :=
  match mapping_network mapping with
  | NetworkNat =>
      let^ adapter := ensure_endpoint (vm_name mapping) recorded (remembered_identity configuration) policy in
      let^ _ :=
        if bool_decide (recorded = Some (adapter_endpoint adapter)) then pure_of (Ok tt)
        else lift (insert store (with_endpoint (Some (adapter_endpoint adapter)) mapping)) in
      let^ updated := pure_of (apply_network_adapter configuration (adapter_endpoint adapter) (mac_address adapter)) in
      let^ _ := lift (write_if_changed vm_directory configuration updated) in
      match adapter_address adapter with
      | None => pure_of (Err NoAddress)
      | Some address =>
          let^ _ := dhcp_register store (mac_address adapter) address in
          pure_of (Ok (updated, Some (adapter_endpoint adapter)))
      end
  | _ =>
      let^ updated := pure_of (remove_network_adapter configuration) in
      let^ _ := lift (write_if_changed vm_directory configuration updated) in
      pure_of (Ok (updated, None))
  end.

(** ** Shares and grants *)

Definition all_exports (prepared : option PreparedGpu) (display : option DisplayExport) : list Plan9Export :=
  default [] (prepared ≫= gpu_exports)
  ++ match display with Some d => [mk_export (text (display_share d)) (display_host_path d)] | None => [] end.

Definition with_plan9_shares (configuration : str) (prepared : option PreparedGpu) (display : option DisplayExport)
    : str :=
  match all_exports prepared display with
  | [] => configuration
  | exports =>
      match apply_plan9_shares configuration exports with Ok updated => updated | _ => configuration end
  end.

Fixpoint grant_all (id : str) (files : list str) : mact unit :=
  match files with
  | [] => pure_of (Ok tt)
  | file :: files =>
      let^ _ := hcs_grant id file in
      grant_all id files
  end.
Definition grant_access_to_attachments (mapping : VmComputeSystemMapping) (document : str) : mact unit :=
  let^ paths := pure_of (attachment_paths document) in grant_all (hcs_compute_system_id mapping) paths.

(** ** GPU and display *)

Definition prepare_gpu (mapping : VmComputeSystemMapping) (vm_directory : path) : mact (option PreparedGpu) :=
  let^ prepared := lift (infallible (gpu_preparer mapping vm_directory)) in
  match prepared with
  | None => pure_of (Ok None)
  | Some p =>
      let^ now := lift (gets clock) in
      let^ _ := modify (set_gpu_facts (λ f, GpuRuns.record_assignment f (vm_id mapping) (gpu_assignment p) now)) in
      let^ _ := modify (set_gpu_facts (λ f, GpuRuns.record_shares f (vm_id mapping) (gpu_manifest p))) in
      pure_of (Ok (Some p))
  end.

Definition prepare_display (mapping : VmComputeSystemMapping) (vm_directory : path) : mact (option PreparedDisplay) :=
  let^ prepared := lift (infallible (display_preparer mapping vm_directory)) in
  match prepared with
  | None => pure_of (Ok None)
  | Some p =>
      let^ now := lift (gets clock) in
      let^ _ := modify (set_display_facts (λ f,
                  DisplayRuns.record_host f (vm_id mapping) (available_version p) (display_failure p) now)) in
      let^ _ := match display_export p with
                | Some e => modify (set_display_facts (λ f, DisplayRuns.record_share f (vm_id mapping) (display_share e)))
                | None => pure_of (Ok tt)
                end in
      pure_of (Ok (Some p))
  end.

(** Best effort: the VM is running, and the GPU never decides that. *)
Definition attach_gpu (mapping : VmComputeSystemMapping) (prepared : option PreparedGpu) : mact unit :=
  match prepared with
  | None => pure_of (Ok tt)
  | Some p =>
      match gpu_assignment p with
      | NotAssigned _ => pure_of (Ok tt)
      | _ =>
          let^ assigned := try_it (gpu_assigner (hcs_compute_system_id mapping) (mapping_gpu mapping)) in
          match assigned with
          | Err failure =>
              let^ now := lift (gets clock) in
              modify (set_gpu_facts (λ f, GpuRuns.record_assignment f (vm_id mapping) (NotAssigned failure) now))
          | _ => pure_of (Ok tt)
          end
      end
  end.

(** ** The start *)

(** One attempt: the network, the shares, the grants, the console, the start.  The
    endpoint it came to is handed back whatever the start itself does. *)
Definition start_once (mapping : VmComputeSystemMapping) (vm_directory : path) (stored : str) (recorded : option Z)
    (policy : EndpointPolicy) (prepared : option PreparedGpu) (display : option PreparedDisplay)
    : mact (option Z * result HcsStartFailure unit) :=
  let^ (configuration, endpoint) := attach_network mapping vm_directory stored recorded policy in
  let configuration := with_plan9_shares configuration prepared (display ≫= display_export) in
  let^ _ := grant_access_to_attachments mapping configuration in
  let^ started := try_it (open_console_and_start mapping vm_directory configuration) in
  pure_of (Ok (endpoint, started)).

Definition start (name : str) (vm_directory : path) : mact unit :=
  let^ found := lift (find_by_vm_name store name) in
  match found with
  | None => pure_of (Err NoMapping)
  | Some mapping =>
      let^ stored := lift (read_configuration vm_directory) in
      let^ _ := lift (refresh vm_directory) in
      let^ prepared := prepare_gpu mapping vm_directory in
      let^ display := prepare_display mapping vm_directory in
      let^ (endpoint, started) :=
        start_once mapping vm_directory stored (endpoint_id mapping) Reuse prepared display in
      match started, endpoint with
      | Err (EndpointBusy _), Some endpoint =>
          let^ (_, started) := start_once mapping vm_directory stored (Some endpoint) Replace prepared display in
          match started with
          | Err failure => pure_of (Err (into_error failure))
          | _ => attach_gpu mapping prepared
          end
      | Err failure, _ => pure_of (Err (into_error failure))
      | _, _ => attach_gpu mapping prepared
      end
  end.

(** ** force_stop.rs *)

Definition detach_adapter (mapping : VmComputeSystemMapping) : act unit :=
  match mapping_network mapping, endpoint_id mapping with
  | NetworkNat, Some endpoint =>
      let^ _ := attempt (adapter_detacher (hcs_compute_system_id mapping) endpoint) in ret tt
  | _, _ => ret tt
  end.

(** [HcsSystem::open] refuses a system it does not know. *)
Definition terminate_hcs_system (id : str) : act unit :=
  let^ there := hcs_open_if_present id in
  if there : bool then hcs_terminate_and_wait id else fail NoSystem.

Definition force_stop (name : str) : act unit :=
  let^ found := find_by_vm_name store name in
  match found with
  | None => fail NoMapping
  | Some mapping =>
      let^ _ := detach_adapter mapping in
      terminate_hcs_system (hcs_compute_system_id mapping)
  end.

End start.
