(* ===== verification/StartProps.v ===== *)
(** * StartProps: what a start guarantees

    The record of a start, in order: [emits m Q] says what an operation adds to it
    and what it comes to.  [StartRecord] is what the host records of each call: its
    arguments, and whether it was refused.  On top of that, that no VM runs
    unobserved. *)

From stdpp Require Import strings gmap list sets.
From S2P Require Import Prelude Stateful ClipboardPath CoreVm CoreGpu CoreDisplay CoreRequest.
From S2P Require Import Layout HostFiles Metadata Json HcsConfig Creation VmStatus Start.
#[local] Open Scope Z_scope.

Abbreviation trace := (list StartEvent).

Definition emits {E A} (m : action Machine E A) (Q : trace → result E A → Prop) : Prop :=
  ∀ s, ∃ t, events (m s).1 = events s ++ t ∧ Q t (m s).2.

(** ** Rules *)

Section rules.
Context {E A B : Type}.

Lemma emits_pure (r : result E A) (Q : trace → result E A → Prop) : Q [] r → emits (pure_of r) Q.
Proof. intros HQ s. exists []. by rewrite app_nil_r. Qed.

Lemma emits_weaken (m : action Machine E A) (Q Q' : trace → result E A → Prop) :
  emits m Q → (∀ t r, Q t r → Q' t r) → emits m Q'.
Proof. intros Hm HQ s. destruct (Hm s) as (t & Ht & Hq). exists t. auto. Qed.

Lemma emits_bind (m : action Machine E A) (k : A → action Machine E B)
    (P : trace → result E A → Prop) (Q : trace → result E B → Prop) :
  emits m P →
  (∀ t a, P t (Ok a) → emits (k a) (λ t' r, Q (t ++ t') r)) →
  (∀ t e, P t (Err e) → Q t (Err e)) → (∀ t, P t Panic → Q t Panic) →
  emits (abind m k) Q.
Proof.
  intros Hm Hk He Hp s. unfold abind. destruct (Hm s) as (t & Ht & HP).
  destruct (m s) as [s1 [a|e|]]; cbn [fst snd] in *; [|exists t; auto..].
  destruct (Hk t a HP s1) as (t' & Ht' & HQ). exists (t ++ t'). by rewrite Ht', Ht, app_assoc.
Qed.

Lemma emits_lift (m : action World E A) : emits (lift m) (λ t _, t = []).
Proof. intros s. exists []. unfold lift. destruct (m (world s)) as [w r]. by rewrite app_nil_r. Qed.

Lemma emits_modify_gpu f : emits (E := E) (modify (set_gpu_facts f)) (λ t _, t = []).
Proof. intros s. exists []. by rewrite app_nil_r. Qed.

Lemma emits_modify_display f : emits (E := E) (modify (set_display_facts f)) (λ t _, t = []).
Proof. intros s. exists []. by rewrite app_nil_r. Qed.

Lemma emits_map_failure {F} (f : E → F) (m : action Machine E A) (P : trace → result E A → Prop)
    (Q : trace → result F A → Prop) :
  emits m P → (∀ t r, P t r → Q t (map_err f r)) → emits (map_failure f m) Q.
Proof.
  intros Hm HQ s. unfold map_failure. destruct (Hm s) as (t & Ht & HP). destruct (m s) as [s1 r]. exists t.
  split; [done|by apply HQ].
Qed.

Lemma emits_try {F} (m : action Machine E A) (P : trace → result E A → Prop)
    (Q : trace → result F (result E A) → Prop) :
  emits m P → (∀ t r, r ≠ Panic → P t r → Q t (Ok r)) → (∀ t, P t Panic → Q t Panic) → emits (try_it m) Q.
Proof.
  intros Hm HQ Hp s. unfold try_it. destruct (Hm s) as (t & Ht & HP).
  destruct (m s) as [s1 [a|e|]]; cbn [fst snd] in *; exists t; split; auto; by apply HQ.
Qed.

(** Every operation made of these adds to the trace. *)
Lemma emits_any (m : action Machine E A) (P : trace → result E A → Prop) : emits m P → emits m (λ _ _, True).
Proof. intros Hm. by eapply emits_weaken. Qed.

End rules.

(** ** What the host records *)

Definition is_busy (f : HcsStartFailure) : bool := match f with EndpointBusy _ => true | StartFailed _ => false end.

Class StartRecord (S : StartCalls) : Prop := {
  enumerate_recorded : emits hcs_enumerate (λ t r, t = match r with Ok l => [Enumerated l] | _ => [] end);
  grant_recorded id f : emits (hcs_grant id f) (λ t r, t = match r with Ok _ => [Granted id f] | _ => [] end);
  create_recorded id c : emits (hcs_create_and_wait id c) (λ t r,
    t = match r with Ok _ => [Made id c] | Err f => [MakeRefused id (is_busy f)] | Panic => [] end);
  console_recorded m d : emits (com1_launch m d) (λ t r,
    t = match r with Ok _ => [ConsoleOpened (hcs_compute_system_id m)] | _ => [] end);
  start_recorded id : emits (hcs_start_and_wait id) (λ t r,
    t = match r with Ok _ => [Started id] | Err f => [StartRefused id (is_busy f)] | Panic => [] end);
  endpoint_recorded e n i : emits (hcn_create e n i) (λ t r, t = match r with Ok _ => [EndpointCreated e] | _ => [] end);
  dhcp_recorded p mac a : emits (dhcp_register p mac a) (λ t r, t = match r with Ok _ => [Served mac a] | _ => [] end);
  assigner_recorded id mode : emits (gpu_assigner id mode) (λ t r, t = match r with Ok _ => [GpuAttached id] | _ => [] end);
}.

(** ** Steps that start nothing *)

Definition starts_nothing (e : StartEvent) : Prop :=
  match e with
  | Enumerated _ | Made _ _ | MakeRefused _ _ | ConsoleOpened _ | Started _ | StartRefused _ _ => False
  | _ => True
  end.
Definition calm {E A} (m : action Machine E A) : Prop := emits m (λ t _, Forall starts_nothing t).

Lemma calm_pure {E A} (r : result E A) : calm (pure_of r).
Proof. by apply emits_pure. Qed.
Lemma calm_lift {E A} (m : action World E A) : calm (lift m).
Proof. eapply emits_weaken; [apply emits_lift|]. by intros t _ ->. Qed.
Lemma calm_gpu {E} f : calm (E := E) (modify (set_gpu_facts f)).
Proof. eapply emits_weaken; [apply emits_modify_gpu|]. by intros t _ ->. Qed.
Lemma calm_display {E} f : calm (E := E) (modify (set_display_facts f)).
Proof. eapply emits_weaken; [apply emits_modify_display|]. by intros t _ ->. Qed.
Lemma calm_bind {E A B} (m : action Machine E A) (k : A → action Machine E B) :
  calm m → (∀ a, calm (k a)) → calm (abind m k).
Proof.
  intros Hm Hk. eapply emits_bind; [done| |done|done]. intros t a Ht.
  eapply emits_weaken; [apply Hk|]. intros t' r Ht'. by apply list.Forall_app.
Qed.
Lemma calm_try {E F A} (m : action Machine E A) : calm m → calm (E := F) (try_it m).
Proof. intros Hm. by eapply emits_try; [apply Hm|..]. Qed.

Lemma calm_emits {E A} (m : action Machine E A) : calm m → emits m (λ t _, Forall starts_nothing t).
Proof. done. Qed.

#[export] Hint Resolve calm_pure calm_lift calm_gpu calm_display calm_try : vm.

(** The steps of a calm operation, one after another. *)
Ltac calm_steps :=
  repeat match goal with
  | |- calm (abind _ _) => apply calm_bind
  | |- ∀ _, calm _ => intro
  | |- calm (match ?x with _ => _ end) => destruct x
  | |- calm (if ?x then _ else _) => destruct x
  | _ => solve [eauto with vm]
  end.

Definition nothing_started (t : trace) : Prop := ∀ i, Started i ∉ t.

Lemma calm_starts_nothing t : Forall starts_nothing t → nothing_started t.
Proof. intros Ht i Hi. rewrite list.Forall_forall in Ht. by apply Ht in Hi. Qed.
Lemma nothing_started_app t1 t2 : nothing_started t1 → nothing_started t2 → nothing_started (t1 ++ t2).
Proof. intros H1 H2 i [Hi|Hi]%elem_of_app; [by eapply H1|by eapply H2]. Qed.

Section traces.
Context `{H : HostCalls} `{S : StartCalls} `{SR : !StartRecord S} `{C : MappingCodec} `{J : Json} `{G : Guids}.
Variable store : path.

(** A call whose record starts nothing. *)
Lemma calm_recorded {E A} (m : action Machine E A) (P : trace → result E A → Prop) :
  emits m P → (∀ t r, P t r → Forall starts_nothing t) → calm m.
Proof. intros Hm HP. by eapply emits_weaken. Qed.
Lemma calm_hcn_create e n i : calm (hcn_create e n i).
Proof using SR. eapply calm_recorded; [apply endpoint_recorded|]. intros t [u|f|] ->; by repeat constructor. Qed.
Lemma calm_dhcp p mac a : calm (dhcp_register p mac a).
Proof using SR. eapply calm_recorded; [apply dhcp_recorded|]. intros t [u|f|] ->; by repeat constructor. Qed.
Lemma calm_assigner id mode : calm (gpu_assigner id mode).
Proof using SR. eapply calm_recorded; [apply assigner_recorded|]. intros t [u|f|] ->; by repeat constructor. Qed.
#[local] Hint Resolve calm_hcn_create calm_dhcp calm_assigner : vm.

Lemma calm_ensure_endpoint vm recorded remembered policy : calm (ensure_endpoint vm recorded remembered policy).
Proof using SR. unfold ensure_endpoint, create_endpoint. calm_steps. Qed.
#[local] Hint Resolve calm_ensure_endpoint : vm.

Lemma calm_attach_network mapping d configuration recorded policy :
  calm (attach_network store mapping d configuration recorded policy).
Proof. unfold attach_network. calm_steps. Qed.

Lemma calm_prepare_gpu mapping d : calm (prepare_gpu mapping d).
Proof. unfold prepare_gpu. calm_steps. Qed.

Lemma calm_prepare_display mapping d : calm (prepare_display mapping d).
Proof. unfold prepare_display. calm_steps. Qed.

Lemma calm_attach_gpu mapping prepared : calm (attach_gpu mapping prepared).
Proof. unfold attach_gpu. calm_steps. Qed.

(** ** Grants *)

Lemma emits_grants id files :
  emits (grant_all id files)
    (λ t r, match r with Ok _ => t = map (Granted id) files | _ => Forall starts_nothing t end).
Proof using SR.
  induction files as [|f files IH]; cbn [grant_all]; [by apply emits_pure|].
  eapply emits_bind; [apply grant_recorded| |by intros t e ->|by intros t ->]. intros t _ ->.
  eapply emits_weaken; [apply IH|]. intros t [[]|e|]; cbn; [by intros ->|by constructor..].
Qed.

(** ** One attempt *)

(** How a system came to be there: it was made from the document [c], also where
    there was one that had never run; or it has run, and is taken as it stands. *)
Definition brought_up (id c : str) (t : trace) : Prop :=
  t = [Made id c] ∨
  (∃ l, state_in l id = SystemCreated ∧ t = [Enumerated l; Made id c]) ∨
  (∃ l, state_in l id ≠ SystemCreated ∧ t = [Enumerated l]).

Definition make_refused (id : str) (busy : bool) (t : trace) : Prop :=
  t = [MakeRefused id busy] ∨ ∃ l, state_in l id = SystemCreated ∧ t = [Enumerated l; MakeRefused id busy].

(** What an attempt that got to a configuration leaves in the record. *)
Definition attempt_tail (id c : str) (r : result HcsStartFailure unit) (t : trace) : Prop :=
  match r with
  | Ok _ => ∃ up, brought_up id c up ∧ t = up ++ [ConsoleOpened id; Started id]
  | Err failure =>
      (∃ up, brought_up id c up ∧ t = up ++ [ConsoleOpened id; StartRefused id (is_busy failure)]) ∨
      make_refused id (is_busy failure) t ∨
      is_busy failure = false ∧ (t = [] ∨ (∃ l, t = [Enumerated l]) ∨ brought_up id c t)
  | Panic => nothing_started t
  end.

Lemma brought_up_nothing id c t : brought_up id c t → nothing_started t.
Proof. intros [->|[(l & _ & ->)|(l & _ & ->)]] i Hi; set_solver. Qed.

Lemma emits_failing {E F A} (f : E → F) (m : action World E A) :
  emits (map_failure f (lift m)) (λ t r, t = [] ∧ ∀ e, r = Err e → ∃ x, e = f x).
Proof.
  eapply emits_map_failure; [apply emits_lift|]. intros t [a|e|] ->; split; try done. intros e' [= <-]. eauto.
Qed.

(** It tears down, best effort, and fails with what the creation failed with. *)
Lemma emits_tear_down id f :
  emits (lift (tear_down_after_a_failed_creation id f)) (λ t r, t = [] ∧ (r = Err f ∨ r = Panic)).
Proof.
  intros s. exists []. rewrite app_nil_r. unfold lift, tear_down_after_a_failed_creation, abind, try_it.
  destruct (teardown_compute_system id (world s)) as [w [u|e|]]; cbn; auto.
Qed.

(** Whether there is a system that is taken as it stands. *)
Definition looked_for (id : str) (t : trace) (r : result HcsStartFailure bool) : Prop :=
  match r with
  | Ok true => ∃ l, state_in l id ≠ SystemCreated ∧ t = [Enumerated l]
  | Ok false => t = [] ∨ ∃ l, state_in l id = SystemCreated ∧ t = [Enumerated l]
  | Err f => is_busy f = false ∧ (t = [] ∨ ∃ l, t = [Enumerated l])
  | Panic => nothing_started t
  end.

Definition asked_for_the_state (id : str) (t : trace) (r : result HcsStartFailure HcsSystemState) : Prop :=
  match r with
  | Ok state => ∃ l, state = state_in l id ∧ t = [Enumerated l]
  | Err f => is_busy f = false ∧ t = []
  | Panic => t = []
  end.

Lemma emits_reported_state id : emits (map_failure StartFailed (reported_state id)) (asked_for_the_state id).
Proof using SR.
  unfold reported_state. eapply (emits_map_failure _ _ (λ t r, match r with
    | Ok state => ∃ l, state = state_in l id ∧ t = [Enumerated l] | _ => t = [] end)).
  - eapply emits_bind; [apply enumerate_recorded| |by intros t e ->|by intros t ->].
    intros t l ->. apply emits_pure. by exists l.
  - by intros t [a|e|].
Qed.

Lemma emits_plan id t l :
  t = [Enumerated l] →
  emits (match plan_for_existing (state_in l id) with
         | StartAsIs => pure_of (Ok true)
         | Rebuild => let^ _ := map_failure StartFailed (lift (teardown_compute_system id)) in pure_of (Ok false)
         end) (λ t' r, looked_for id (t ++ t') r).
Proof.
  intros ->. destruct (plan_for_existing (state_in l id)) eqn:Hp.
  - apply emits_pure. exists l. split; [|done]. by intros E; rewrite E in Hp.
  - eapply emits_bind; [apply emits_failing| | |].
    + intros t' _ [-> _]. apply emits_pure. right. exists l. split; [|done]. by destruct (state_in l id).
    + intros t' e [-> He]. destruct (He e eq_refl) as [x ->]. split; [done|right; by exists l].
    + intros t' [-> _] i Hi. set_solver.
Qed.

Lemma emits_looking id (existing : bool) :
  emits (if existing then
           let^ state := map_failure StartFailed (reported_state id) in
           match plan_for_existing state with
           | StartAsIs => pure_of (Ok true)
           | Rebuild => let^ _ := map_failure StartFailed (lift (teardown_compute_system id)) in pure_of (Ok false)
           end
         else pure_of (Ok false)) (looked_for id).
Proof using SR.
  destruct existing; [|by apply emits_pure; left].
  eapply emits_bind; [apply emits_reported_state| | |].
  - intros t state (l & -> & Ht). by apply emits_plan.
  - intros t e [? ->]. split; [done|by left].
  - intros t -> i Hi. set_solver.
Qed.

(** The creation, and its clean-up: [t] is what the search before it left. *)
Lemma emits_making id c t :
  looked_for id t (Ok false) →
  emits (let^ created := try_it (hcs_create_and_wait id c) in
         match created with
         | Err failure => lift (tear_down_after_a_failed_creation id failure)
         | _ => pure_of (Ok tt)
         end)
    (λ t' r, match r with
             | Ok _ => brought_up id c (t ++ t')
             | Err f => make_refused id (is_busy f) (t ++ t')
             | Panic => nothing_started (t ++ t')
             end).
Proof using SR.
  intros Hlook.
  assert (Hq : ∀ e, starts_nothing e ∨ (∃ b, e = MakeRefused id b) → nothing_started (t ++ [e])).
  { intros ev He i Hi. destruct Hlook as [->|(l & _ & ->)], He as [Hs|[b ->]]; [destruct ev; set_solver|set_solver..]. }
  eapply (emits_bind _ _ (λ t r, match r with
    | Ok (Ok _) => t = [Made id c] | Ok (Err f) => t = [MakeRefused id (is_busy f)]
    | Ok Panic | Err _ => False | Panic => t = [] end)).
  - eapply emits_try; [apply create_recorded|by intros t' [u|f|]|done].
  - intros t' [u|f|] Ht'; [| |done]; subst t'.
    + apply emits_pure. rewrite app_nil_r. destruct Hlook as [->|(l & Hl & ->)]; [by left|right; left; by exists l].
    + eapply emits_weaken; [apply emits_tear_down|]. intros t' r [-> [->| ->]]; rewrite app_nil_r.
      * destruct Hlook as [->|(l & Hl & ->)]; [by left|right; by exists l].
      * apply Hq. eauto.
  - done.
  - intros t' ->. rewrite app_nil_r. intros i Hi. destruct Hlook as [->|(l & _ & ->)]; set_solver.
Qed.

Lemma emits_prepare id c :
  emits (prepare_hcs_system id c)
    (λ t r, match r with
            | Ok _ => brought_up id c t
            | Err f => make_refused id (is_busy f) t ∨ is_busy f = false ∧ (t = [] ∨ ∃ l, t = [Enumerated l])
            | Panic => nothing_started t
            end).
Proof using SR.
  unfold prepare_hcs_system. eapply emits_bind; [apply emits_failing| | |].
  - intros t existing [-> _]. eapply emits_bind; [apply emits_looking| |by intros t e ?; right|done].
    intros t0 [|] Hlook.
    + apply emits_pure. rewrite app_nil_r. right; by right.
    + eapply emits_weaken; [by apply emits_making|]. intros t' [u|f|] Hr; [done|by left|done].
  - intros t e [-> He]. destruct (He e eq_refl) as [x ->]. right. split; [done|by left].
  - intros t [-> _] i Hi. by apply not_elem_of_nil in Hi.
Qed.

(** An attempt records what it made and what it opened before what it started. *)
Lemma emits_console mapping d c :
  emits (open_console_and_start mapping d c) (λ t r, attempt_tail (hcs_compute_system_id mapping) c r t).
Proof using SR.
  unfold open_console_and_start. set (id := hcs_compute_system_id mapping).
  eapply emits_bind; [apply emits_prepare| | |done].
  - intros up ? Hup. cbn beta iota in Hup. eapply (emits_bind _ _ (λ t r, match r with
      | Ok _ => t = [ConsoleOpened id] | Err f => t = [] ∧ is_busy f = false | Panic => t = [] end)).
    + eapply emits_map_failure; [apply console_recorded|]. by intros t [u|e|].
    + intros t ? ->. eapply emits_weaken; [apply start_recorded|]. intros t [u|f|] ->; cbn.
      * by exists up.
      * left. by exists up.
      * apply nothing_started_app; [by eapply brought_up_nothing|]. intros i Hi. set_solver.
    + intros t f [-> Hf]. rewrite app_nil_r. right; right. split; [done|by right; right].
    + intros t ->. rewrite app_nil_r. by eapply brought_up_nothing.
  - intros t f [Hm|[Hf [->|[l ->]]]]; right; [by left|right; split; eauto..].
Qed.

(** ** Both attempts *)

Lemma emits_and {E A} (m : action Machine E A) (P Q : trace → result E A → Prop) :
  emits m P → emits m Q → emits m (λ t r, P t r ∧ Q t r).
Proof.
  intros Hp Hq s. destruct (Hp s) as (t & Ht & HP), (Hq s) as (t' & Ht' & HQ).
  exists t. rewrite Ht in Ht'. by apply app_inv_head in Ht' as <-.
Qed.

(** A network that is asked for is given: an endpoint comes out, a new one where
    the old one is to be replaced. *)
Lemma emits_endpoint n recorded remembered policy :
  emits (ensure_endpoint n recorded remembered policy)
    (λ t r, ∀ a, r = Ok a → policy = Replace → EndpointCreated (adapter_endpoint a) ∈ t).
Proof.
  assert (Hc : ∀ identity, emits (create_endpoint n identity) (λ t r, ∀ id, r = Ok id → EndpointCreated id ∈ t)).
  { intros identity. unfold create_endpoint. eapply emits_bind; [apply emits_lift| |done|done]. intros t id _.
    eapply emits_bind; [apply endpoint_recorded| |done|done]. intros t1 _ ->.
    apply emits_pure. intros id' [= <-]. set_solver. }
  unfold ensure_endpoint. eapply emits_bind; [apply emits_lift| |done|done]. intros t0 _ _.
  eapply (emits_bind _ _ (λ _ _, True)); [eapply emits_any, calm_emits; calm_steps| |done|done]. intros t1 existing _.
  eapply (emits_bind _ _ (λ t r, ∀ id, r = Ok id → policy = Replace → EndpointCreated id ∈ t)).
  - destruct policy; [destruct existing; [by apply emits_pure|]|].
    + eapply emits_weaken; [apply Hc|]. done.
    + eapply (emits_bind _ _ (λ _ _, True)); [eapply emits_any, calm_emits; calm_steps| |done|done]. intros t2 identity _.
      eapply (emits_bind _ _ (λ _ _, True)); [eapply emits_any, calm_emits; calm_steps| |done|done]. intros t3 u _.
      eapply emits_weaken; [apply Hc|]. cbn beta. intros t r Hr id -> _. specialize (Hr id eq_refl). set_solver.
  - intros t2 id Hid. eapply emits_bind; [apply emits_lift| |done|done]. intros t3 mac _.
    eapply emits_bind; [apply emits_lift| |done|done]. intros t4 address _.
    apply emits_pure. intros x [= <-] Hp. specialize (Hid id eq_refl Hp). cbn. set_solver.
  - done.
  - done.
Qed.

Lemma emits_replacement mapping d configuration recorded policy :
  emits (attach_network store mapping d configuration recorded policy)
    (λ t r, ∀ c o, r = Ok (c, o) →
       (is_some o = true → mapping_network mapping = NetworkNat) ∧
       (mapping_network mapping = NetworkNat → policy = Replace → ∃ e, EndpointCreated e ∈ t)).
Proof.
  unfold attach_network. destruct (mapping_network mapping) eqn:Hn.
  2: { eapply emits_bind; [apply emits_endpoint| |done|done]. intros t1 adapter Ha.
       eapply (emits_bind _ _ (λ _ _, True)); [eapply emits_any, calm_emits; calm_steps| |done|done]. intros t2 u _.
       eapply emits_weaken; [eapply emits_any, calm_emits; calm_steps|]. cbn beta. intros t r _ c o _. split; [done|].
       intros _ Hp. exists (adapter_endpoint adapter). specialize (Ha adapter eq_refl Hp). set_solver. }
  all: eapply (emits_bind _ _ (λ _ _, True)); [eapply emits_any, calm_emits; calm_steps| |done|done]; intros t1 updated _;
    eapply (emits_bind _ _ (λ _ _, True)); [eapply emits_any, calm_emits; calm_steps| |done|done]; intros t2 u _;
    apply emits_pure; intros c o [= <- <-]; by split.
Qed.

(** What one attempt leaves: it starts nothing before its grants are given, and
    nothing without a console. *)
Definition attempt_trace (id : str) (started : result HcsStartFailure unit) (net t : trace) : Prop :=
  ∃ c files tail,
    t = net ++ map (Granted id) files ++ tail ∧ Forall starts_nothing net ∧
    attachment_paths c = Ok files ∧ attempt_tail id c started tail.

Lemma emits_start_once mapping d stored recorded policy prepared display :
  emits (start_once store mapping d stored recorded policy prepared display)
    (λ t r, match r with
            | Ok (endpoint, started) =>
                started ≠ Panic ∧ ∃ net, attempt_trace (hcs_compute_system_id mapping) started net t ∧
                (is_some endpoint = true → mapping_network mapping = NetworkNat) ∧
                (mapping_network mapping = NetworkNat → policy = Replace → ∃ e, EndpointCreated e ∈ net)
            | Err _ => Forall starts_nothing t
            | Panic => True
            end).
Proof.
  unfold start_once.
  eapply emits_bind; [apply emits_and; [apply calm_attach_network|apply emits_replacement]| |by intros t e [? _]|done].
  intros net [c endpoint] [Hnet Hr]. specialize (Hr _ _ eq_refl).
  set (configuration := with_plan9_shares c prepared (display ≫= display_export)).
  assert (Hg : emits (grant_access_to_attachments mapping configuration)
                 (λ t r, match r with
                         | Ok _ => ∃ files, attachment_paths configuration = Ok files ∧
                                            t = map (Granted (hcs_compute_system_id mapping)) files
                         | _ => Forall starts_nothing t
                         end)).
  { unfold grant_access_to_attachments. destruct (attachment_paths configuration) as [files|e|].
    - eapply emits_weaken; [apply emits_grants|]. intros t [u|e|]; cbn beta iota; eauto.
    - by apply emits_pure.
    - by apply emits_pure. }
  eapply emits_bind; [apply Hg| |cbn beta; intros; by apply list.Forall_app|done].
  intros t u (files & Hf & ->).
  eapply emits_bind; [eapply (emits_try _ _ (λ t r, match r with
                                                    | Ok started => started ≠ Panic ∧
                                                        attempt_tail (hcs_compute_system_id mapping) configuration started t
                                                    | Err _ => False
                                                    | Panic => True
                                                    end)); [apply emits_console|done|done]| |done|done].
  intros t [v|e|] [Hp Ht]; [| |done];
    (apply emits_pure; split; [done|]; exists net; split; [|done];
     exists configuration, files, t; rewrite app_nil_r; by split_and!).
Qed.

End traces.

Section starts.
Context `{H : HostCalls} `{S : StartCalls} `{SR : !StartRecord S} `{C : MappingCodec} `{J : Json} `{G : Guids}.
Variable store : path.

(** A first attempt that HNS refused because the endpoint is taken. *)
Definition refused_busy (id : str) (t : trace) : Prop :=
  ∃ net e, Forall starts_nothing net ∧ attempt_trace id (Err (EndpointBusy e)) net t.

(** What comes before the attempt that decides: nothing was started, or an attempt
    was refused and an endpoint created. *)
Definition before_the_attempt (id : str) (before : trace) : Prop :=
  Forall starts_nothing before ∨
  ∃ calm_part first net e,
    before = calm_part ++ first ++ net ∧ Forall starts_nothing calm_part ∧ refused_busy id first ∧
    Forall starts_nothing net ∧ EndpointCreated e ∈ net.

(** The trace of a start that reports success. *)
Definition started_trace (id : str) (t : trace) : Prop :=
  ∃ before c files up after,
    t = before ++ map (Granted id) files ++ up ++ [ConsoleOpened id; Started id] ++ after ∧
    before_the_attempt id before ∧ attachment_paths c = Ok files ∧ brought_up id c up ∧
    Forall starts_nothing after.

Lemma grants_start_nothing id files : Forall starts_nothing (map (Granted id) files).
Proof. induction files; by constructor. Qed.

Lemma failed_attempt_starts_nothing id e net t : attempt_trace id (Err e) net t → nothing_started t.
Proof.
  intros (c & files & tail & -> & Hnet & _ & Ht).
  apply nothing_started_app; [by apply calm_starts_nothing|].
  apply nothing_started_app; [apply calm_starts_nothing, grants_start_nothing|].
  destruct Ht as [(up & Hup & ->)|[[->|(l & _ & ->)]|[_ [->|[[l ->]|Hup]]]]]; [|intros i Hi; set_solver..|].
  - apply nothing_started_app; [by eapply brought_up_nothing|]. intros i Hi. set_solver.
  - by eapply brought_up_nothing.
Qed.

Lemma emits_attach_gpu mapping prepared :
  emits (attach_gpu mapping prepared) (λ t r, Forall starts_nothing t ∧ ∀ e, r ≠ Err e).
Proof.
  apply emits_and; [apply calm_attach_gpu|]. unfold attach_gpu.
  destruct prepared as [p|]; [|by apply emits_pure].
  assert (Hk : ∀ assigned : result GpuFailure unit,
    emits (match assigned with
           | Err failure =>
               let^ now := lift (gets clock) in
               modify (set_gpu_facts (λ f, GpuRuns.record_assignment f (vm_id mapping) (NotAssigned failure) now))
           | _ => pure_of (Ok tt)
           end) (λ _ (r : result Failure unit), ∀ e, r ≠ Err e)).
  { intros [u|failure|]; [by apply emits_pure| |by apply emits_pure]. intros s. by eexists []; rewrite app_nil_r. }
  assert (Ht : ∀ id mode, emits (E := Failure) (try_it (gpu_assigner id mode)) (λ _ r, ∀ e, r ≠ Err e)).
  { intros id mode. by eapply emits_try; [apply assigner_recorded|..]. }
  destruct (gpu_assignment p); try (by apply emits_pure);
    (eapply emits_bind; [apply Ht|intros; apply Hk|intros t e He; by destruct (He e)|done]).
Qed.

Lemma attempt_is_start id net t t0 after :
  attempt_trace id (Ok tt) net t → before_the_attempt id (t0 ++ net) → Forall starts_nothing after →
  started_trace id (t0 ++ t ++ after).
Proof.
  intros (c & files & tail & -> & Hnet & Hf & up & Hup & ->) Hb Ha. exists (t0 ++ net), c, files, up, after.
  split_and!; try done. by rewrite <- !app_assoc.
Qed.

Definition start_ends (t : trace) (r : result Failure unit) : Prop :=
  match r with
  | Ok _ => ∃ id, started_trace id t
  | Err _ => nothing_started t
  | Panic => True
  end.

Lemma emits_the_end mapping prepared u net t t0 :
  attempt_trace (hcs_compute_system_id mapping) (Ok u) net t →
  before_the_attempt (hcs_compute_system_id mapping) (t0 ++ net) →
  emits (attach_gpu mapping prepared) (λ t' r, start_ends (t0 ++ t ++ t') r).
Proof.
  intros Ht Hb. eapply emits_weaken; [apply emits_attach_gpu|]. intros t' [v|e|] [Ha He]; cbn; [|by destruct (He e)|done].
  eexists. destruct u. by eapply attempt_is_start.
Qed.

Lemma emits_start n d : emits (start store n d) start_ends.
Proof.
  unfold start.
  eapply emits_bind; [apply emits_lift| |by intros t e ->; intros ? ?%not_elem_of_nil|done]. intros t _found ->.
  destruct _found as [mapping|]; [|apply emits_pure; by intros ? ?%not_elem_of_nil].
  eapply emits_bind; [apply emits_lift| |by intros t e ->; intros ? ?%not_elem_of_nil|done]. intros t stored ->.
  eapply emits_bind; [apply emits_lift| |by intros t e ->; intros ? ?%not_elem_of_nil|done]. intros t _u ->.
  eapply emits_bind; [apply calm_prepare_gpu| |intros; by apply calm_starts_nothing|done]. intros t1 prepared H1.
  eapply emits_bind; [apply calm_prepare_display| |intros t e Ht; cbn; apply calm_starts_nothing, list.Forall_app; by split|done].
  intros t2 display H2.
  assert (H0 : Forall starts_nothing ([] ++ [] ++ [] ++ t1 ++ t2)) by (cbn; apply list.Forall_app; by split).
  cbn [app] in H0. clear H1 H2.
  eapply emits_bind; [apply emits_start_once| |intros t e Ht; apply calm_starts_nothing; cbn; rewrite app_assoc; by apply list.Forall_app|done].
  intros t [endpoint started] (Hp & net & Ht & He1 & _).
  assert (Hcalm : ∀ e, started = Err e → nothing_started (t1 ++ t2 ++ t)).
  { intros e ->. rewrite app_assoc. apply nothing_started_app; [by apply calm_starts_nothing|].
    by eapply failed_attempt_starts_nothing. }
  destruct started as [u|[e|e]|]; [| | |done].
  - cbn [app]. eapply emits_weaken; [apply (emits_the_end mapping prepared u net t (t1 ++ t2)); [done|]|].
    + left. destruct Ht as (_ & _ & _ & _ & Hnet & _). by apply list.Forall_app.
    + intros t' r Hr. cbn beta in Hr. by rewrite <- app_assoc in Hr.
  - destruct endpoint as [endpoint|]; [|apply emits_pure; cbn; rewrite app_nil_r; eauto].
    eapply emits_bind; [apply emits_start_once| | |done].
    + intros t' [o started] (Hp' & net' & Ht' & _ & Hnew). cbn [app].
      destruct (Hnew (He1 eq_refl) eq_refl) as [new Hin].
      destruct started as [u|f|]; [| |done].
      * eapply emits_weaken; [apply (emits_the_end mapping prepared u net' t' ((t1 ++ t2) ++ t)); [done|]|].
        -- right. exists (t1 ++ t2), t, net', new. rewrite <- !app_assoc.
           destruct Ht' as (_ & _ & _ & _ & Hnet' & _). split_and!; try done. exists net, e.
           destruct Ht as (c & files & tail & Hx). split; [by destruct Hx as (_ & ? & _)|by exists c, files, tail].
        -- intros t'' r Hr. cbn beta in Hr. by rewrite <- !app_assoc in Hr.
      * apply emits_pure. cbn. rewrite app_nil_r, !app_assoc. apply nothing_started_app.
        -- rewrite <- app_assoc. by eapply Hcalm.
        -- by eapply failed_attempt_starts_nothing.
    + intros t' f Hf. cbn. rewrite !app_assoc. apply nothing_started_app; [|by apply calm_starts_nothing].
      rewrite <- app_assoc. by eapply Hcalm.
  - apply emits_pure. cbn. rewrite app_nil_r. eauto.
Qed.


End starts.
