(* ===== verification/StartNetwork.v ===== *)
(** * StartNetwork: where a started VM finds itself

    [StartLaws] is what is promised of the calls of a start: which files, systems
    and endpoints each may change; [leaves] says it of a call on the machine.
    [spares p m]: an operation of the machine leaves the file [p] as it is, whatever
    it comes to. *)

From stdpp Require Import strings gmap list sets.
From S2P Require Import Prelude Stateful ClipboardPath CoreVm CoreGpu CoreDisplay CoreRequest.
From S2P Require Import Layout HostFiles Metadata Json HcsConfig HcsConfigProps Creation CreationLaws.
From S2P Require Import MetadataProps VmStatus Start StartProps.
#[local] Open Scope Z_scope.

(** Where a payload may be staged: in the VM's directory, or the shared cache. *)
Definition staging (root d : path) (p : path) : Prop :=
  (within d p ∧ p ≠ d) ∨ within (payload_cache_root root) p.

(** A call on the machine that may change these files, systems and endpoints. *)
Definition leaves {E A} (P : path → Prop) (ids : str → Prop) (eps : Z → Prop) (m : action Machine E A) : Prop :=
  ∀ s, touches P ids eps (world s) (world (m s).1).

Class StartLaws (S : StartCalls) (root : path) : Prop := {
  enumerate_stays : leaves nobody nobody nobody hcs_enumerate;
  grant_file_stays id f : leaves nobody nobody nobody (hcs_grant id f);
  create_wait_stays id c : leaves nobody (only id) nobody (hcs_create_and_wait id c);
  start_wait_stays id : leaves nobody nobody nobody (hcs_start_and_wait id);
  console_stays m d : leaves (only (com1_log_path d)) nobody nobody (com1_launch m d);
  network_stays : stays nobody nobody nobody hcn_ensure_network;
  endpoint_open_stays e : stays nobody nobody nobody (hcn_open_if_present e);
  endpoint_create_stays e n i : leaves nobody nobody (only e) (hcn_create e n i);
  mac_stays e : stays nobody nobody nobody (hcn_mac_address e);
  address_stays e : stays nobody nobody nobody (hcn_address e);
  uuid_stays : stays nobody nobody nobody new_uuid;
  dhcp_stays p mac a : leaves nobody nobody nobody (dhcp_register p mac a);
  gpu_prepare_stays m d : stays (E := Failure) (staging root d) nobody nobody (infallible (gpu_preparer m d));
  display_prepare_stays m d : stays (E := Failure) (staging root d) nobody nobody (infallible (display_preparer m d));
  gpu_assign_stays id mode : leaves nobody nobody nobody (gpu_assigner id mode);
  detach_stays id e : stays nobody nobody nobody (adapter_detacher id e);
}.

(** ** Sparing a file *)

Definition spares {E A} (p : path) (m : action Machine E A) : Prop :=
  ∀ s, files (world (m s).1) !! p = files (world s) !! p.

Section spares.
Context {E A B : Type} (p : path).

Lemma spares_pure (r : result E A) : spares p (pure_of r).
Proof. done. Qed.
Lemma spares_gpu f : spares (E := E) p (modify (set_gpu_facts f)).
Proof. done. Qed.
Lemma spares_display f : spares (E := E) p (modify (set_display_facts f)).
Proof. done. Qed.
Lemma spares_bind (m : action Machine E A) (k : A → action Machine E B) :
  spares p m → (∀ a, spares p (k a)) → spares p (abind m k).
Proof.
  intros Hm Hk s. unfold abind. specialize (Hm s). destruct (m s) as [s1 [a|e|]]; cbn in *; [|done..].
  rewrite <- Hm. apply Hk.
Qed.
Lemma spares_try {F} (m : action Machine E A) : spares p m → spares (E := F) p (try_it m).
Proof. intros Hm s. unfold try_it. specialize (Hm s). by destruct (m s) as [s1 [a|e|]]. Qed.
Lemma spares_map_failure {F} (f : E → F) (m : action Machine E A) : spares p m → spares p (map_failure f m).
Proof. intros Hm s. unfold map_failure. specialize (Hm s). by destruct (m s) as [s1 r]. Qed.
Lemma spares_lift (P : path → Prop) ids eps (m : action World E A) :
  stays P ids eps m → ¬ P p → spares p (lift m).
Proof.
  intros Hm Hp s. unfold lift. pose proof (touched_files _ _ _ _ _ (Hm (world s)) p Hp) as Hf.
  by destruct (m (world s)) as [w r].
Qed.
Lemma spares_leaves (P : path → Prop) ids eps (m : action Machine E A) :
  leaves P ids eps m → ¬ P p → spares p m.
Proof. intros Hm Hp s. exact (touched_files _ _ _ _ _ (Hm s) p Hp). Qed.
Lemma spares_aside (m : action Machine E A) ids eps : leaves nobody ids eps m → spares p m.
Proof. intros Hm. eapply spares_leaves; [done|]. by intros []. Qed.
Lemma spares_quiet (m : action World E A) ids eps : stays nobody ids eps m → spares p (lift m).
Proof. intros Hm. eapply spares_lift; [done|]. by intros []. Qed.

End spares.

#[export] Hint Resolve spares_pure spares_gpu spares_display : vm.

Ltac sparing :=
  repeat match goal with
  | |- spares _ (abind _ _) => apply spares_bind
  | |- spares _ (try_it _) => apply spares_try
  | |- spares _ (map_failure _ _) => apply spares_map_failure
  | |- spares _ (pure_of _) => apply spares_pure
  | |- ∀ _, spares _ _ => intro
  | |- spares _ (match ?x with _ => _ end) => destruct x
  | |- spares _ (if ?x then _ else _) => destruct x
  | |- spares _ (lift (gets _)) => eapply spares_quiet, (stays_gets (P := nobody) (ids := nobody) (eps := nobody))
  | _ => solve [eauto with vm]
  end.

Lemma abind_bind_ok {E A B} (m : action Machine E A) (k : A → action Machine E B) s s' b :
  abind m k s = (s', Ok b) → ∃ s1 a, m s = (s1, Ok a) ∧ k a s1 = (s', Ok b).
Proof. apply abind_ok. Qed.

Lemma lift_ok {E A} (m : action World E A) s s' a :
  lift m s = (s', Ok a) → m (world s) = (world s', Ok a) ∧ events s' = events s.
Proof. unfold lift. destruct (m (world s)) as [w r]. by intros [= <- ->]. Qed.

Lemma spares_ok {E A} p (m : action Machine E A) s s' r :
  spares p m → m s = (s', r) → files (world s') !! p = files (world s) !! p.
Proof. intros Hm H. specialize (Hm s). by rewrite H in Hm. Qed.

Section network.
Context `{H : HostCalls} `{HL : !HostLaws H} `{S : StartCalls} `{SR : !StartRecord S} `{C : MappingCodec} `{CL : !MappingLaws C}.
Context `{J : Json} `{JL : !JsonLaws J} `{G : Guids}.
Variables (root : path) (n : str).
Context `{SL : !StartLaws S root}.
Hypothesis (Hn : validate_vm_name n = Ok tt).

Let store : path := mapping_path root.
Let d : path := root ++ [n].

(** ** The document is none of what a start writes *)

Lemma store_not_within : ¬ within d store.
Proof using Hn. unfold within, d, store. by rewrite mapping_is_outside. Qed.

Lemma store_not_staging : ¬ staging root d store.
Proof using Hn.
  intros [[Hw _]|Hw]; [by apply store_not_within|]. unfold within, payload_cache_root, store, mapping_path, child in Hw.
  rewrite (siblings_apart root (text MAPPING_FILE_NAME) (text "cache")) in Hw; [done|discriminate|apply under_refl].
Qed.

Lemma not_store f : child d f ≠ store.
Proof using Hn. intros E. apply store_not_within. rewrite <- E. apply under_child. Qed.

Lemma stays_try {E F A} P ids eps (m : action World E A) :
  stays P ids eps m → stays (E := F) P ids eps (try_it m).
Proof. intros Hm w. unfold try_it. specialize (Hm w). by destruct (m w) as [w1 [a|e|]]. Qed.

(** A file that is not one of the VM's own, nor under anything a payload is staged
    in, is one no step but the document's writes. *)
Section aside.
Variable p : path.
Hypothesis (Hchild : ∀ f, p ≠ child d f) (Hstaging : ¬ staging root d p).

Ltac quiet := eapply spares_quiet.

Lemma spares_ensure_endpoint m recorded remembered policy :
  spares p (ensure_endpoint m recorded remembered policy).
Proof using HL SL.
  unfold ensure_endpoint, create_endpoint. sparing;
    try (quiet; first [apply network_stays|apply endpoint_open_stays|apply uuid_stays|apply endpoint_stays
                      |apply mac_stays|apply address_stays]);
    try (eapply spares_aside, endpoint_create_stays).
  all: quiet; unfold replaced_identity; stays; [apply address_stays|apply mac_stays].
Qed.

Lemma spares_refresh : spares p (lift (refresh d)).
Proof using Hchild.
  eapply (spares_lift _ (only (tools_path d)) nobody nobody); [unfold refresh; stays; done|].
  intros E. by apply Hchild in E.
Qed.

Lemma spares_write_if_changed a b : spares p (lift (write_if_changed d a b)).
Proof using Hchild.
  eapply (spares_lift _ (only (configuration_path d)) nobody nobody);
    [unfold write_if_changed, write_configuration; stays; done|].
  intros E. by apply Hchild in E.
Qed.

Lemma spares_prepare_gpu m : spares p (prepare_gpu m d).
Proof using Hstaging SL.
  unfold prepare_gpu. sparing. eapply spares_lift; [apply gpu_prepare_stays|exact Hstaging].
Qed.

Lemma spares_prepare_display m : spares p (prepare_display m d).
Proof using Hstaging SL.
  unfold prepare_display. sparing. eapply spares_lift; [apply display_prepare_stays|exact Hstaging].
Qed.

Lemma spares_attach_gpu m prepared : spares p (attach_gpu m prepared).
Proof using SL. unfold attach_gpu. sparing; eapply spares_aside, gpu_assign_stays. Qed.

Lemma spares_grants id fs : spares p (grant_all id fs).
Proof using SL. induction fs; cbn [grant_all]; sparing. eapply spares_aside, grant_file_stays. Qed.

Lemma spares_teardown id : spares p (lift (teardown_compute_system id)).
Proof using HL. apply (spares_quiet p _ (only id) nobody). by apply stays_teardown. Qed.

Lemma spares_prepare_system id c : spares p (prepare_hcs_system id c).
Proof using HL SL.
  unfold prepare_hcs_system, reported_state. sparing.
  - apply (spares_quiet p _ nobody nobody), stays_quiet, open_stays.
  - eapply spares_aside, enumerate_stays.
  - apply spares_teardown.
  - eapply spares_aside, create_wait_stays.
  - apply (spares_quiet p _ (only id) nobody). unfold tear_down_after_a_failed_creation. stays. by apply stays_try, stays_teardown.
Qed.

Lemma spares_console m c : spares p (open_console_and_start m d c).
Proof using HL SL Hchild.
  unfold open_console_and_start. sparing; [apply spares_prepare_system| |eapply spares_aside, start_wait_stays].
  eapply spares_leaves; [apply console_stays|]. intros E. by apply Hchild in E.
Qed.

(** What the document's own writes leave alone. *)
Hypothesis (Hways : ¬ p ∈ ways_to (parent store)) (Hdocument : p ≠ store).

Lemma spares_attach_network m c recorded policy : spares p (attach_network store m d c recorded policy).
Proof using Hchild Hways Hdocument HL SL.
  unfold attach_network. sparing; try apply spares_ensure_endpoint; try by apply spares_write_if_changed.
  - eapply spares_lift; [apply insert_elsewhere|]. intros [Hp|Hp]; [by apply Hways|by apply Hdocument].
  - eapply spares_aside, dhcp_stays.
Qed.

Lemma spares_start : spares p (start store n d).
Proof using Hchild Hways Hdocument Hstaging HL SL.
  assert (Honce : ∀ m stored recorded policy prepared display,
            spares p (start_once store m d stored recorded policy prepared display)).
  { intros. unfold start_once, grant_access_to_attachments. sparing;
      first [apply spares_attach_network|apply spares_grants|by apply spares_console]. }
  unfold start. sparing;
    first [apply spares_attach_gpu|by apply spares_refresh|by apply spares_prepare_gpu|by apply spares_prepare_display
          |apply Honce|idtac];
    eapply (spares_quiet _ _ nobody nobody); [apply find_elsewhere|unfold read_configuration; stays].
Qed.

End aside.

Lemma aside_store f : store ≠ child d f.
Proof using Hn. intros E. by apply (not_store f). Qed.

(** ** One attempt *)

(** The document has the VM on the endpoint [e]. *)
Definition on_record (e : option Z) (m : VmComputeSystemMapping) (w : World) : Prop :=
  ∃ ms, document store w = Some ms ∧ catalogue ms !! vm_id m = Some (with_endpoint e m).

Lemma on_record_same e m w w' : files w' !! store = files w !! store → on_record e m w → on_record e m w'.
Proof. intros Hf (ms & Hd & Hc). exists ms. split; [|done]. unfold document in *. by rewrite Hf. Qed.

Lemma with_endpoint_made e m : mode_made m → mode_made (with_endpoint e m).
Proof.
  unfold mode_made, forgiving_display_mode. intros Hm. apply (f_equal display_mode) in Hm. cbn in Hm.
  unfold set_display_mode. cbn. by rewrite Hm.
Qed.

Lemma inserted_on_record e m w w' :
  mode_made m → insert store (with_endpoint e m) w = (w', Ok tt) → on_record e m w'.
Proof using CL.
  intros Hm Hi. apply insert_ok in Hi as (_ & ms & _ & Hd & _); [|by apply with_endpoint_made].
  exists (without (vm_id m) ms ++ [with_endpoint e m]). split; [done|].
  rewrite catalogue_snoc; [apply lookup_insert_eq|]. rewrite catalogue_without. apply lookup_delete_eq.
Qed.

Lemma calm_recorded_by {E A} (m : action Machine E A) s s' r :
  calm m → m s = (s', r) → ∃ t, events s' = events s ++ t ∧ Forall starts_nothing t.
Proof. intros Hm Hr. destruct (Hm s) as (t & Ht & Hc). rewrite Hr in Ht. eauto. Qed.

Lemma attach_network_ok m configuration recorded policy s s' c o :
  mapping_network m = NetworkNat → mode_made m → on_record recorded m (world s) →
  attach_network store m d configuration recorded policy s = (s', Ok (c, o)) →
  ∃ e mac address t,
    o = Some e ∧ apply_network_adapter configuration e mac = Ok c ∧ events s' = events s ++ t ∧
    Served mac address ∈ t ∧ on_record (Some e) m (world s').
Proof using HL SL SR CL Hn JL.
  intros Hnat Hm Hr Ha. unfold attach_network in Ha. rewrite Hnat in Ha.
  act_ok Ha as adapter, H1. destruct (calm_recorded_by _ _ _ _ (calm_ensure_endpoint _ _ _ _) H1) as (t1 & E1 & _).
  apply (spares_ok store) in H1; [|apply spares_ensure_endpoint].
  apply (on_record_same _ _ _ _ H1) in Hr. clear H1.
  act_ok Ha as [], H2.
  assert (Hr2 : on_record (Some (adapter_endpoint adapter)) m (world x0) ∧ events x0 = events x).
  { case_bool_decide as He; [by injection H2 as <-; rewrite <- He|].
    apply lift_ok in H2 as [H2 ?]. split; [by eapply inserted_on_record|done]. }
  destruct Hr2 as [Hr2 E2].
  act_ok Ha as updated, H3. unfold pure_of in H3. injection H3 as <- H3.
  act_ok Ha as [], H4. pose proof (proj2 (lift_ok _ _ _ _ H4)) as E4.
  apply (spares_ok store) in H4; [|apply spares_write_if_changed, aside_store].
  apply (on_record_same _ _ _ _ H4) in Hr2. clear H4.
  destruct (adapter_address adapter) as [address|]; [|done].
  act_ok Ha as [], H5. destruct (dhcp_recorded store (mac_address adapter) address x1) as (t5 & E5 & Ht5).
  rewrite H5 in E5, Ht5. cbn in E5, Ht5. subst t5.
  apply (spares_ok store) in H5; [|eapply spares_aside; apply dhcp_stays].
  apply (on_record_same _ _ _ _ H5) in Hr2. injection Ha as <- <- <-.
  exists (adapter_endpoint adapter), (mac_address adapter), address, (t1 ++ [Served (mac_address adapter) address]).
  split_and!; [done..| |set_solver|done]. by rewrite E5, E4, E2, E1, app_assoc.
Qed.

(** The shares of a run do not move the adapter. *)
Lemma shares_keep_the_adapter c prepared display :
  looked_up (with_plan9_shares c prepared display) adapter_place = looked_up c adapter_place.
Proof using JL.
  unfold with_plan9_shares. destruct (all_exports prepared display) as [|x l]; [done|].
  destruct (apply_plan9_shares c (x :: l)) as [c'|e|] eqn:Ha; [|done..].
  apply shares_edit in Ha as (Hs & _). by apply Hs.
Qed.

Lemma attached_adapter configuration e mac c :
  apply_network_adapter configuration e mac = Ok c → looked_up c adapter_place = Some (of_tree (network_adapters e mac)).
Proof using JL.
  intros (v & v' & _ & Hc & Hi & _)%apply_network_adapter_inv.
  pose proof (insert_device_inv _ NETWORK_ADAPTERS_KEY _ _ eq_refl Hi) as (_ & _ & _ & _ & _ & _ & Hp).
  unfold looked_up. rewrite Hc. exact Hp.
Qed.

(** The last system of a record to be started: made from a document whose one adapter
    has the endpoint [e] and the card [mac]; or not made at all, since HCS reported
    one that has run. *)
Definition put_on (id : str) (e : Z) (mac : str) (t : trace) : Prop :=
  ∃ t1 t2, Forall starts_nothing t2 ∧
    ((∃ c, t = t1 ++ [Made id c; ConsoleOpened id; Started id] ++ t2 ∧
           looked_up c adapter_place = Some (of_tree (network_adapters e mac))) ∨
     (∃ l, t = t1 ++ [Enumerated l; ConsoleOpened id; Started id] ++ t2 ∧ state_in l id ≠ SystemCreated)).

(** From [s] to [s'], started on the endpoint [e] under the address that is served to
    its card. *)
Definition on_its_network (m : VmComputeSystemMapping) (s s' : Machine) : Prop :=
  ∃ t e mac address,
    events s' = events s ++ t ∧ on_record (Some e) m (world s') ∧ Served mac address ∈ t ∧
    put_on (hcs_compute_system_id m) e mac t.

Lemma put_on_within id e mac t0 t t1 :
  Forall starts_nothing t1 → put_on id e mac t → put_on id e mac (t0 ++ t ++ t1).
Proof.
  intros Hc (a & b & Hb & Ht). exists (t0 ++ a), (b ++ t1). split; [by apply list.Forall_app|].
  destruct Ht as [(c & -> & Hl)|(l & -> & Hl)]; [left; exists c|right; exists l]; split; [|done| |done];
    by rewrite <- !app_assoc.
Qed.

Lemma brought_up_put_on id c e mac t up :
  brought_up id c up → looked_up c adapter_place = Some (of_tree (network_adapters e mac)) →
  put_on id e mac (t ++ up ++ [ConsoleOpened id; Started id]).
Proof.
  intros [->|[(l & _ & ->)|(l & Hl & ->)]] Hc.
  - exists t, []. split; [done|]. left. by exists c.
  - exists (t ++ [Enumerated l]), []. split; [done|]. left. exists c. split; [|done]. by rewrite <- app_assoc.
  - exists t, []. split; [done|]. right. by exists l.
Qed.

Lemma start_once_ok m stored recorded policy prepared display s s' o started :
  mapping_network m = NetworkNat → mode_made m → on_record recorded m (world s) →
  start_once store m d stored recorded policy prepared display s = (s', Ok (o, started)) →
  ∃ e t, o = Some e ∧ started ≠ Panic ∧ events s' = events s ++ t ∧ on_record (Some e) m (world s') ∧
         (∀ u, started = Ok u → on_its_network m s s').
Proof using HL SL SR CL Hn JL.
  intros Hnat Hm Hr Hs. unfold start_once in Hs. act_ok Hs as [c o'], H1.
  apply attach_network_ok in H1 as (e & mac & address & t1 & -> & Hc & E1 & Hin & Hr'); [|done..].
  set (c' := with_plan9_shares c prepared (display ≫= display_export)) in *.
  act_ok Hs as [], H2. unfold grant_access_to_attachments in H2. act_ok H2 as fs, Hf.
  unfold pure_of in Hf. injection Hf as <- Hf.
  pose proof (spares_ok store _ _ _ _ (spares_grants store _ fs) H2) as F2.
  destruct (emits_grants (hcs_compute_system_id m) fs x) as (t2 & E2 & _). rewrite H2 in E2. cbn in E2.
  act_ok Hs as r, H3. injection Hs as <- <- <-.
  pose proof (spares_ok store _ _ _ _ (spares_try _ _ (spares_console store aside_store m c')) H3) as F3.
  unfold try_it in H3. destruct (emits_console m d c' x0) as (t3 & E3 & Hup).
  destruct (open_console_and_start m d c' x0) as [s3 out] eqn:Ho. cbn in E3, Hup.
  exists e, (t1 ++ t2 ++ t3). split; [done|].
  assert (Hs3 : x1 = s3 ∧ r = out ∧ r ≠ Panic) by (destruct out; [| |done]; injection H3 as <- <-; auto).
  destruct Hs3 as (-> & -> & Hp).
  assert (Hrec : on_record (Some e) m (world s3)) by (eapply on_record_same; [|done]; by rewrite F3, F2).
  assert (Ht : events s3 = events s ++ t1 ++ t2 ++ t3) by (by rewrite E3, E2, E1, <- !app_assoc).
  split_and!; [done..|]. intros u ->. destruct Hup as (up & Hup & ->).
  exists (t1 ++ t2 ++ up ++ [ConsoleOpened (hcs_compute_system_id m); Started (hcs_compute_system_id m)]), e, mac, address.
  split_and!; [done..|set_solver|]. rewrite (app_assoc t1). apply (brought_up_put_on _ c'); [done|].
  unfold c'. rewrite shares_keep_the_adapter. by eapply attached_adapter.
Qed.

Lemma on_network_later {A} m (k : mact A) s s1 s' r :
  spares store k → calm k → k s1 = (s', r) → on_its_network m s s1 → on_its_network m s s'.
Proof.
  intros Hs Hk Hr (t & e & mac & address & Ht & Hrec & Hin & Hput).
  destruct (calm_recorded_by _ _ _ _ Hk Hr) as (t' & Ht' & Hc). exists (t ++ t'), e, mac, address. split_and!.
  - by rewrite Ht', Ht, app_assoc.
  - eapply on_record_same; [|done]. by eapply spares_ok.
  - set_solver.
  - by apply (put_on_within _ _ _ []).
Qed.

Lemma on_network_from m s0 s s' t :
  events s = events s0 ++ t → on_its_network m s s' → on_its_network m s0 s'.
Proof.
  intros Ht (t' & e & mac & address & Ht' & Hrec & Hin & Hput). exists (t ++ t'), e, mac, address. split_and!; [|done|set_solver|].
  - by rewrite Ht', Ht, app_assoc.
  - pose proof (put_on_within _ e mac t t' [] (list.Forall_nil_2 _) Hput) as Hx. by rewrite app_nil_r in Hx.
Qed.

(** C24: a VM that was started with a network is on it, where it has a valid name and
    the mapping document has each VM and each system once.  The system that was started
    last was made, right before, from a document whose adapter names one endpoint and
    one card; the DHCP server was given an address for that card; and the mapping
    document has the VM on that endpoint -- also when the endpoint it was recorded
    with had to be replaced.  Only a system that HCS reported in a state other than
    Created was not made but started as it stood; which adapter that one has is what
    an earlier start wrote, and not claimed here. *)
Theorem a_started_vm_is_on_its_network ms m s s' :
  document store (world s) = Some ms → well_kept ms →
  List.find (λ x, str_eqb (vm_name x) n) ms = Some m → mapping_network m = NetworkNat →
  start store n d s = (s', Ok tt) → on_its_network m s s'.
Proof using HL SL SR CL Hn JL.
  intros Hd Hk Hfind Hnat Hs.
  assert (Hm : m ∈ ms) by (by apply find_some in Hfind as [?%list_elem_of_In _]).
  assert (Hmade : mode_made m).
  { pose proof (document_sound _ _ _ Hd) as Hsound. rewrite list.Forall_forall in Hsound. by apply Hsound. }
  assert (Hr : on_record (endpoint_id m) m (world s)).
  { exists ms. split; [done|]. rewrite <- catalogue_find. replace (with_endpoint _ m) with m by (by destruct m).
    destruct Hk as [Hk _]. clear -Hm Hk. induction ms as [|x ms IH]; [by apply not_elem_of_nil in Hm|].
    cbn in *. apply list.NoDup_cons in Hk as [Hx Hk]. apply elem_of_cons in Hm as [<-|Hm]; [by rewrite Z.eqb_refl|].
    rewrite (proj2 (Z.eqb_neq _ _)); [auto|]. intros E. apply Hx. rewrite E. by apply list_elem_of_fmap_2. }
  unfold start in Hs. act_ok Hs as found, Hf. apply lift_ok in Hf as [Hf E0].
  apply find_first_ok in Hf as [Hff (ms' & Hd' & ->)]. rewrite Hd in Hd'. injection Hd' as <-.
  assert (Hr1 : on_record (endpoint_id m) m (world x)) by (eapply on_record_same; [|done]; by rewrite Hff).
  clear Hr. rewrite Hfind in Hs.
  act_ok Hs as stored, H2. pose proof (proj2 (lift_ok _ _ _ _ H2)) as E2. apply (spares_ok store) in H2;
    [|eapply (spares_quiet _ _ nobody nobody); unfold read_configuration; stays]. apply (on_record_same _ _ _ _ H2) in Hr1. clear H2.
  act_ok Hs as [], H3. pose proof (proj2 (lift_ok _ _ _ _ H3)) as E3.
  apply (spares_ok store) in H3; [|apply spares_refresh, aside_store]. apply (on_record_same _ _ _ _ H3) in Hr1. clear H3.
  act_ok Hs as prepared, H4. destruct (calm_recorded_by _ _ _ _ (calm_prepare_gpu _ _) H4) as (t4 & E4 & _).
  apply (spares_ok store) in H4; [|apply spares_prepare_gpu, store_not_staging]. apply (on_record_same _ _ _ _ H4) in Hr1. clear H4.
  act_ok Hs as display, H5. destruct (calm_recorded_by _ _ _ _ (calm_prepare_display _ _) H5) as (t5 & E5 & _).
  apply (spares_ok store) in H5; [|apply spares_prepare_display, store_not_staging]. apply (on_record_same _ _ _ _ H5) in Hr1. clear H5.
  rewrite E4, E3, E2, E0, <- app_assoc in E5. clear E4 E3 E2 E0.
  assert (Hend : ∀ s1, attach_gpu m prepared s1 = (s', Ok tt) → on_its_network m s s1 → on_its_network m s s').
  { intros s1. apply on_network_later; [apply spares_attach_gpu|apply calm_attach_gpu]. }
  act_ok Hs as [o started], H6. apply start_once_ok in H6 as (e & t6 & -> & Hp & E6 & Hr2 & Hon); [|done..].
  destruct started as [u|[f|f]|]; [|clear Hon|done..].
  - eapply Hend; [exact Hs|]. eapply on_network_from; [exact E5|by eapply Hon].
  - act_ok Hs as [o started], H7. apply start_once_ok in H7 as (e' & t7 & -> & Hp' & _ & _ & Hon'); [|done..].
    destruct started as [u|f'|]; [|done..]. rewrite E5, <- app_assoc in E6.
    eapply Hend; [exact Hs|]. eapply on_network_from; [exact E6|by eapply Hon'].
Qed.

End network.
