(* ===== verification/GuestReady.v ===== *)
(** * GuestReady: waiting until a guest can be used

    crates/platform/src/guest_ready.rs.  The wait polls: first for an address,
    then for the SSH port, and then the command that asks cloud-init, each under a
    deadline of its own and each looking at the build's cancellation first.  What
    a poll finds and how long it takes are [Polls]; a sleep lasts at least as long
    as it was asked to.  Times are milliseconds.

    A loop takes a turn per interval of its timeout, and two more; that this is
    enough is [a_wait_ends_with_what_it_saw]. *)

From stdpp Require Import strings gmap list.
From S2P Require Import Prelude Stateful ClipboardPath CoreVm CoreGpu CoreDisplay CoreRequest.
From S2P Require Import Layout HostFiles Metadata Start.
#[local] Open Scope Z_scope.

Definition POLL_INTERVAL : Z := 2000.
Definition CHILD_POLL_INTERVAL : Z := 500.
Definition DIAGNOSTIC_TAIL_LINES : nat := 40.

Inductive GuestReadyState : Type := GuestIsReady | GuestDegraded (detail : str) | GuestUnverified (no_ssh : bool).
Inductive ReadinessFailure : Type :=
| NoSshClient | NoGuestAddress | Unusable (reason : Rejection) | Unreachable (last_error : str)
| CloudInitFailed (code : Z) (detail : str) | WaitTimedOut | WaitCancelled.

Record ReadinessTimeouts : Type := mk_timeouts {
  address_timeout : Z; ssh_port_timeout : Z; cloud_init_timeout : Z; connect_timeout : Z }.

(** How a run of ssh.exe ended: its code, or none when it was killed. *)
Inductive SshRun : Type := Exited (code : option Z) (transcript_tail : str) | SshCancelled.
Inductive Child : Type := ChildDone (code : option Z) | ChildRunning | ChildLost (message : str).

(** ** Text *)

Definition trim_start (s : str) : str := (fix go s := match s with c :: r => if is_whitespace c then go r else s | [] => [] end) s.
Definition trim_end (s : str) : str := reverse (trim_start (reverse s)).
Definition trim (s : str) : str := trim_end (trim_start s).

(** [str::lines]: a line feed ends a line, with the carriage return before it. *)
Definition newline : Z := 10.
Definition carriage_return : Z := 13.
Definition without_return (line : str) : str :=
  match reverse line with c :: r => if c =? carriage_return then reverse r else line | [] => [] end.
Fixpoint lines_from (line s : str) : list str :=
  match s with
  | [] => match line with [] => [] | _ => [reverse line] end
  | c :: s => if c =? newline then without_return (reverse line) :: lines_from [] s else lines_from (c :: line) s
  end.
Definition lines (s : str) : list str := lines_from [] s.
Fixpoint joined (separator : str) (l : list str) : str :=
  match l with [] => [] | [x] => x | x :: l => x ++ separator ++ joined separator l end.
Definition tail (s : str) (n : nat) : str :=
  let kept := lines (trim_end s) in trim (joined [newline] (drop (length kept - n) kept)).

(** [outcome]: what cloud-init's code means, 255 being OpenSSH's own. *)
Definition outcome (exit_code : option Z) (transcript_tail : str) : result ReadinessFailure GuestReadyState :=
  let detail := match trim transcript_tail with [] => text "no output" | t => t end in
  match exit_code with
  | None => Err WaitTimedOut
  | Some code =>
      if code =? 0 then Ok GuestIsReady
      else if code =? 2 then Ok (GuestDegraded detail)
      else if code =? 255 then Err (Unreachable detail)
      else Err (CloudInitFailed code detail)
  end.

Class Polls := {
  (** What the n-th look finds, and how long it took. *)
  address_at : nat → Z * result Failure (option Z);
  port_at : nat → Z * option str;
  child_at : nat → Z * Child;
  spawn_at : result Failure unit;
  (** How much longer than asked the n-th sleep of the wait was. *)
  overslept : nat → Z;
  client : option str;
  (** When the wait begins. *)
  started_at : Z;
}.
Class PollLaws (P : Polls) : Prop := {
  address_takes n : 0 <= (address_at n).1;
  port_takes n : 0 <= (port_at n).1;
  child_takes n : 0 <= (child_at n).1;
  sleeps_through n : 0 <= overslept n;
}.

Abbreviation wact := (action World ReadinessFailure).

Section wait.
Context `{P : Polls}.
Variable timeouts : ReadinessTimeouts.

(** How many turns a loop has: enough for one per interval, and two more. *)
Definition turns (timeout interval : Z) : nat := Z.to_nat (timeout / interval + 2).

Fixpoint address_loop (fuel i : nat) (now deadline : Z) : wact (Z * Z) :=
  match fuel with
  | O => pure_of Panic
  | S fuel =>
      let^ cancelled := is_cancelled in
      if cancelled : bool then pure_of (Err WaitCancelled)
      else
        let now := now + (address_at i).1 in
        match (address_at i).2 with
        | Ok (Some ip) => pure_of (Ok (ip, now))
        | _ =>
            if deadline <=? now then pure_of (Err NoGuestAddress)
            else address_loop fuel (S i) (now + POLL_INTERVAL + overslept i) deadline
        end
  end.
Definition wait_for_address (now : Z) : wact (Z * Z) :=
  address_loop (turns (address_timeout timeouts) POLL_INTERVAL) 0 now (now + address_timeout timeouts).

Fixpoint port_loop (fuel i : nat) (now deadline : Z) : wact Z :=
  match fuel with
  | O => pure_of Panic
  | S fuel =>
      let^ cancelled := is_cancelled in
      if cancelled : bool then pure_of (Err WaitCancelled)
      else
        let now := now + (port_at i).1 in
        match (port_at i).2 with
        | None => pure_of (Ok now)
        | Some refusal =>
            if deadline <=? now then pure_of (Err (Unreachable refusal))
            else port_loop fuel (S i) (now + POLL_INTERVAL + overslept i) deadline
        end
  end.
Definition wait_for_port (now : Z) : wact Z :=
  port_loop (turns (ssh_port_timeout timeouts) POLL_INTERVAL) 0 now (now + ssh_port_timeout timeouts).

Definition file_tail (p : path) : act (option str) :=
  let^ contents := attempt (read_to_string "read the end of" p) in
  ret match contents with Ok (Some contents) => Some (tail contents DIAGNOSTIC_TAIL_LINES) | _ => None end.
Definition transcript_tail (vm_directory : path) : act str :=
  let^ t := file_tail (cloud_init_status_log_path vm_directory) in ret (default [] t).
Definition com1_tail (vm_directory : path) : act (option str) :=
  let^ t := file_tail (com1_log_path vm_directory) in
  ret match t with Some [] => None | t => t end.

(** [run_ssh], once the child runs; [elapsed] is since it was started. *)
Fixpoint child_loop (fuel i : nat) (elapsed deadline : Z) (vm_directory : path) : act SshRun :=
  match fuel with
  | O => pure_of Panic
  | S fuel =>
      let elapsed := elapsed + (child_at i).1 in
      match (child_at i).2 with
      | ChildDone code => let^ t := transcript_tail vm_directory in ret (Exited code t)
      | ChildLost message => fail (Io "wait for the client" [message])
      | ChildRunning =>
          let^ cancelled := is_cancelled in
          if cancelled : bool then ret SshCancelled
          else if deadline <=? elapsed then let^ t := transcript_tail vm_directory in ret (Exited None t)
          else child_loop fuel (S i) (elapsed + CHILD_POLL_INTERVAL + overslept i) deadline vm_directory
      end
  end.
Definition run_ssh (vm_directory : path) (deadline : Z) : act SshRun :=
  let^ _ := write_file "open the readiness transcript" (cloud_init_status_log_path vm_directory) [] in
  let^ _ := pure_of spawn_at in
  child_loop (turns deadline CHILD_POLL_INTERVAL) 0 0 deadline vm_directory.

Inductive Question : Type := AskCloudInit (client : str) | PortOnly.
Definition question (a : SshAuthentication) : result ReadinessFailure Question :=
  match a with
  | PasswordLogin => Ok PortOnly
  | VmlordKey => match client with Some c => Ok (AskCloudInit c) | None => Err NoSshClient end
  end.

Definition wait (mapping : VmComputeSystemMapping) (vm_directory : path) : wact GuestReadyState :=
  match mapping_ssh mapping with
  | None => pure_of (Ok (GuestUnverified true))
  | Some config =>
      let^ _ := pure_of (map_err Unusable (config_validate config)) in
      let^ asked := pure_of (question (authentication config)) in
      let^ (_, now) := wait_for_address started_at in
      let^ _ := pure_of (map_err Unusable (config_validate config)) in
      let^ _ := wait_for_port now in
      match asked with
      | PortOnly => pure_of (Ok (GuestUnverified false))
      | AskCloudInit _ =>
          let^ run := map_failure (λ _, Unreachable (text "ssh could not be run"))
                        (run_ssh vm_directory (cloud_init_timeout timeouts)) in
          match run with
          | SshCancelled => pure_of (Err WaitCancelled)
          | Exited code t => pure_of (outcome code t)
          end
      end
  end.

End wait.

(** ** Every loop has turns enough *)

Section ends.
Context `{P : Polls} `{!PollLaws P}.
Variable timeouts : ReadinessTimeouts.

(** [ends m Q]: wherever it is run, [m] does not run out of turns, and of what it
    answers [Q] holds. *)
Definition ends {E A} (m : action World E A) (Q : A → Prop) : Prop :=
  ∀ w, match (m w).2 with Ok a => Q a | Err _ => True | Panic => False end.

Lemma ends_bind {E A B} (m : action World E A) (k : A → action World E B) R Q :
  ends m R → (∀ a, R a → ends (k a) Q) → ends (abind m k) Q.
Proof. intros Hm Hk w. unfold abind. specialize (Hm w). destruct (m w) as [w' [a|e|]]; [by apply Hk|done|done]. Qed.
Lemma ends_ok {E A} (a : A) (Q : A → Prop) : Q a → ends (E := E) (pure_of (Ok a)) Q.
Proof. by intros Hq w. Qed.
Lemma ends_err {E A} (e : E) (Q : A → Prop) : ends (pure_of (Err e)) Q.
Proof. by intros w. Qed.
Lemma ends_pure {E A} (r : result E A) : r ≠ Panic → ends (pure_of r) (λ _, True).
Proof. by destruct r. Qed.
Lemma ends_cancelled {E} : ends (E := E) is_cancelled (λ _, True).
Proof. intros w. unfold is_cancelled. by destruct (cancel_after w) as [[|n]|]. Qed.

(** The turns that are left reach past the deadline. *)
Definition enough (fuel : nat) (now deadline interval : Z) : Prop :=
  1 <= Z.of_nat fuel ∧ deadline <= now + interval * (Z.of_nat fuel - 1).

Lemma enough_at_first timeout interval now :
  0 < interval → 0 <= timeout → enough (turns timeout interval) now (now + timeout) interval.
Proof.
  intros Hi Ht. unfold enough, turns. pose proof (Z.div_pos timeout interval Ht Hi).
  rewrite Z2Nat.id by lia. pose proof (Z.mul_succ_div_gt timeout interval Hi). split; lia.
Qed.

Lemma enough_next fuel now took late deadline interval :
  enough (S fuel) now deadline interval → (deadline <=? now + took) = false → 0 <= took → 0 <= late → 0 < interval →
  enough fuel (now + took + interval + late) deadline interval.
Proof. unfold enough. intros [_ H] Hd%Z.leb_gt Ht Hl Hi. rewrite Nat2Z.inj_succ in H. split; nia. Qed.

Lemma enough_some fuel now deadline interval : enough fuel now deadline interval → ∃ n, fuel = S n.
Proof. unfold enough. destruct fuel as [|n]; [lia|eauto]. Qed.

(** What the looks found. *)
Definition address_seen : Prop := ∃ i ip, (address_at i).2 = Ok (Some ip).
Definition port_seen_open : Prop := ∃ i, (port_at i).2 = None.
Definition exit_seen (code : option Z) : Prop := ∃ i, (child_at i).2 = ChildDone code.
Definition run_seen (run : SshRun) : Prop :=
  match run with Exited (Some code) _ => exit_seen (Some code) | _ => True end.

Lemma address_loop_ends fuel i now deadline :
  enough fuel now deadline POLL_INTERVAL → ends (address_loop fuel i now deadline) (λ _, address_seen).
Proof.
  revert i now. induction fuel as [|fuel IH]; intros i now He; [by apply enough_some in He as []|]. cbn [address_loop].
  eapply ends_bind; [apply ends_cancelled|]. intros [] _; [apply ends_err|].
  assert (Hnext : ends (if deadline <=? now + (address_at i).1 then pure_of (Err NoGuestAddress)
                        else address_loop fuel (S i) (now + (address_at i).1 + POLL_INTERVAL + overslept i) deadline)
                    (λ _, address_seen)).
  { destruct (deadline <=? now + (address_at i).1) eqn:Hd; [apply ends_err|].
    eapply IH, enough_next; [done|done|apply address_takes|apply sleeps_through|done]. }
  destruct ((address_at i).2) as [[ip|]|e|] eqn:Ha; [|done..]. apply ends_ok. by exists i, ip.
Qed.

Lemma port_loop_ends fuel i now deadline :
  enough fuel now deadline POLL_INTERVAL → ends (port_loop fuel i now deadline) (λ _, port_seen_open).
Proof.
  revert i now. induction fuel as [|fuel IH]; intros i now He; [by apply enough_some in He as []|]. cbn [port_loop].
  eapply ends_bind; [apply ends_cancelled|]. intros [] _; [apply ends_err|].
  destruct ((port_at i).2) as [refusal|] eqn:Hp; [|apply ends_ok; by exists i].
  destruct (deadline <=? now + (port_at i).1) eqn:Hd; [apply ends_err|].
  eapply IH, enough_next; [done|done|apply port_takes|apply sleeps_through|done].
Qed.

Lemma transcript_ends d : ends (transcript_tail d) (λ _, True).
Proof.
  intros w. unfold transcript_tail, file_tail, read_to_string, attempt, abind, gets, next_fate.
  destruct (fates w) as [|[]]; cbn; repeat case_match; done.
Qed.

Lemma child_loop_ends fuel i elapsed deadline d :
  enough fuel elapsed deadline CHILD_POLL_INTERVAL → ends (child_loop fuel i elapsed deadline d) run_seen.
Proof.
  revert i elapsed. induction fuel as [|fuel IH]; intros i elapsed He; [by apply enough_some in He as []|]. cbn [child_loop].
  destruct ((child_at i).2) as [code| |message] eqn:Hc.
  - eapply ends_bind; [apply transcript_ends|]. intros t _. apply ends_ok. destruct code; [by exists i|done].
  - eapply ends_bind; [apply ends_cancelled|]. intros [] _; [by apply ends_ok|].
    destruct (deadline <=? elapsed + (child_at i).1) eqn:Hd.
    + eapply ends_bind; [apply transcript_ends|]. intros t _. by apply ends_ok.
    + eapply IH, enough_next; [done|done|apply child_takes|apply sleeps_through|done].
  - apply ends_err.
Qed.

Lemma run_ssh_ends d deadline : spawn_at ≠ Panic → 0 <= deadline → ends (run_ssh d deadline) run_seen.
Proof.
  intros Hs Hd. unfold run_ssh. eapply (ends_bind _ _ (λ _, True)).
  - intros w. unfold write_file, abind, gets, modify, next_fate.
    destruct (fates w) as [|[|[|n] spared]]; cbn; destruct (writable _ _); done.
  - intros _ _. eapply ends_bind; [by apply ends_pure|]. intros _ _. apply child_loop_ends. by apply (enough_at_first _ _ 0).
Qed.

(** ** What a wait comes to *)

Definition sensible_timeouts : Prop :=
  0 <= address_timeout timeouts ∧ 0 <= ssh_port_timeout timeouts ∧ 0 <= cloud_init_timeout timeouts.

(** The port answered at an address the guest has. *)
Definition reached : Prop := address_seen ∧ port_seen_open.

(** What an answer rests on. *)
Definition rests_on (config : option SshConfig) (state : GuestReadyState) : Prop :=
  match state with
  | GuestIsReady => reached ∧ authentication <$> config = Some VmlordKey ∧ exit_seen (Some 0)
  | GuestDegraded _ => reached ∧ authentication <$> config = Some VmlordKey ∧ exit_seen (Some 2)
  | GuestUnverified true => config = None
  | GuestUnverified false => reached ∧ authentication <$> config = Some PasswordLogin
  end.

Lemma outcome_rests_on config code t state :
  reached → authentication <$> config = Some VmlordKey → run_seen (Exited code t) →
  outcome code t = Ok state → rests_on config state.
Proof.
  intros Hr Ha Hs. unfold outcome. destruct code as [code|]; [|done].
  destruct (Z.eqb_spec code 0) as [->|]; [by intros [= <-]|].
  destruct (Z.eqb_spec code 2) as [->|]; [by intros [= <-]|]. by case_match.
Qed.

Lemma wait_ends mapping d :
  sensible_timeouts → spawn_at ≠ Panic → ends (wait timeouts mapping d) (rests_on (mapping_ssh mapping)).
Proof.
  intros (Ha & Hp & Hc) Hs. unfold wait.
  destruct (mapping_ssh mapping) as [config|]; [|by apply ends_ok].
  assert (Hv : map_err Unusable (config_validate config) ≠ Panic).
  { unfold config_validate, validate_username. repeat case_match; cbn; done. }
  eapply ends_bind; [by apply ends_pure|]. intros _ _.
  eapply (ends_bind _ _ (λ asked, authentication config = match asked with PortOnly => PasswordLogin | _ => VmlordKey end)).
  { unfold question. repeat case_match; by first [apply ends_ok|apply ends_err]. }
  intros asked Hasked.
  eapply ends_bind; [by apply address_loop_ends, enough_at_first|]. intros [ip now] Hip.
  eapply ends_bind; [by apply ends_pure|]. intros _ _.
  eapply ends_bind; [by apply port_loop_ends, enough_at_first|]. intros now' Hport.
  destruct asked as [c|]; [|apply ends_ok; cbn; by rewrite Hasked].
  eapply (ends_bind _ _ run_seen).
  - intros w. unfold map_failure. pose proof (run_ssh_ends d _ Hs Hc w) as Hr.
    by destruct (run_ssh _ _ w) as [w' [a|e|]].
  - intros [code t|] Hrun; [|apply ends_err]. intros w. cbn.
    destruct (outcome code t) as [state|e|] eqn:Ho; [|done|].
    + eapply outcome_rests_on; [done|cbn; by rewrite Hasked|done|done].
    + unfold outcome in Ho. repeat case_match; done.
Qed.

(** C40: a wait always ends, and says no more than it saw.  Whatever the polls find
    and however long each takes, every loop finds its deadline before its turns run
    out.  A guest is called ready only when it had an address, its SSH port
    answered, and cloud-init, asked over the VM's own key, ended with 0; degraded
    when it ended with 2; and unverified when the VM has no SSH, or only a
    password. *)
Theorem a_wait_ends_with_what_it_saw mapping d w :
  sensible_timeouts → spawn_at ≠ Panic →
  match (wait timeouts mapping d w).2 with
  | Ok state => rests_on (mapping_ssh mapping) state
  | Err _ => True
  | Panic => False
  end.
Proof. intros Ht Hs. exact (wait_ends mapping d Ht Hs w). Qed.

End ends.

(** ** A guest that comes up *)

(** The address is there at the third look, the port at the second, and cloud-init
    ends at the fifth. *)
Definition sample_polls : Polls := {|
  address_at i := (5, Ok (if (i <? 2)%nat then None else Some 3));
  port_at i := (200, if (i <? 1)%nat then Some (text "refused") else None);
  child_at i := (1, if (i <? 4)%nat then ChildRunning else ChildDone (Some 0));
  spawn_at := Ok tt;
  overslept _ := 1;
  client := Some (text "ssh.exe");
  started_at := 1000;
|}.

Definition sample_polls_laws : PollLaws sample_polls.
Proof. split; cbn; intros; lia. Qed.

Definition sample_timeouts : ReadinessTimeouts := mk_timeouts 90000 300000 1200000 10000.
Definition sample_guest : VmComputeSystemMapping :=
  mk_mapping 1 (text "dev") (text "sys") 20 None NetworkNone (Some (mk_ssh_config (text "dev") 22 VmlordKey)) None
    ModeNone Headless NotRequested None None.
Definition sample_host : World :=
  mk_world (list_to_map [([], None); ([text "dev"], None)]) ∅ ∅ [] None [].

Lemma a_wait_ends_with_what_it_saw_witness :
  let answer := (wait (P := sample_polls) sample_timeouts sample_guest [text "dev"] sample_host).2 in
  answer = Ok GuestIsReady ∧ rests_on (P := sample_polls) (mapping_ssh sample_guest) GuestIsReady.
Proof.
  pose proof (a_wait_ends_with_what_it_saw (P := sample_polls) (PollLaws0 := sample_polls_laws) sample_timeouts sample_guest
                [text "dev"] sample_host ltac:(repeat split; vm_compute; discriminate) ltac:(discriminate)) as H.
  assert (Ho : (wait (P := sample_polls) sample_timeouts sample_guest [text "dev"] sample_host).2 = Ok GuestIsReady)
    by (vm_compute; reflexivity).
  rewrite Ho in H. split; [exact Ho|exact H].
Defined.
