(* ===== verification/CycleProps.v ===== *)
(** * CycleProps: what a build leaves

    The pieces of a build together: what creating (CreationProps.v), starting
    (StartProps.v), waiting (GuestReady.v) and deleting (DeletionProps.v) each
    promise comes to one statement about the whole run of a build (cycle.rs); in front of it,
    a host that can be started on. *)

From stdpp Require Import strings gmap list sets.
From S2P Require Import Prelude Stateful ClipboardPath CoreVm CoreGpu CoreDisplay CoreRequest.
From S2P Require Import Layout HostFiles Metadata Json HcsConfig Creation VmStatus Start GuestReady.
From S2P Require Import HcsConfigProps.
From S2P Require Import CreationLaws MetadataProps StartProps StartNetwork.
From S2P Require Import CreationProps DeletionProps.
#[local] Open Scope Z_scope.

Inductive CycleOutcome : Type :=
| CycleReady
| CycleDegraded (detail : str)
| CycleUnverified (no_ssh : bool)
| CycleNotReady (reason : ReadinessFailure) (console : option str)
| CycleFailed (reason : Failure)
| CycleCancelled.

(** [started]: the VM the main thread takes over, [None] when it was rolled back. *)
Record CycleReport : Type := mk_report {
  cycle_outcome : CycleOutcome;
  started_vm : option VmComputeSystemMapping;
}.

Definition has_a_guest_to_ask (r : VmCreateRequest) : bool :=
  match source r with CloudImageSource _ _ => true | LocalMedia _ => false end.

Section cycle.
Context `{H : HostCalls} `{S : StartCalls} `{P : Polls} `{C : MappingCodec} `{J : Json} `{G : Guids}.
Variable store : path.
Variable timeouts : ReadinessTimeouts.

(** [roll_back]: what cannot be undone is only logged. *)
Definition roll_back (r : VmCreateRequest) (d : path) (running : bool) : act CycleReport :=
  let^ _ := if running then attempt (force_stop store (name r)) else ret (Ok tt) in
  let^ _ := attempt (delete_vm store (name r) d true) in
  ret (mk_report CycleCancelled None).

(** The wait's answer, as an outcome. *)
Definition judged (r : VmCreateRequest) (d : path) (m : VmComputeSystemMapping)
    (waited : result ReadinessFailure GuestReadyState) : act CycleReport :=
  match waited with
  | Ok GuestIsReady => ret (mk_report CycleReady (Some m))
  | Ok (GuestDegraded detail) => ret (mk_report (CycleDegraded detail) (Some m))
  | Ok (GuestUnverified no_ssh) => ret (mk_report (CycleUnverified no_ssh) (Some m))
  | Err WaitCancelled => roll_back r d true
  | Err failure =>
      let^ console := com1_tail d in
      ret (mk_report (CycleNotReady failure console) (Some m))
  | Panic => pure_of Panic
  end.

(** From a VM that runs. *)
Definition await_guest (r : VmCreateRequest) (d : path) (mapping : VmComputeSystemMapping) : act CycleReport :=
  let^ found := attempt (find_by_vm_name store (name r)) in
  let m := match found with Ok (Some m) => m | _ => mapping end in
  if has_a_guest_to_ask r then
    let^ _ := report StepAwaitingGuest in
    let^ waited := try_it (wait timeouts m d) in
    judged r d m waited
  else ret (mk_report CycleReady (Some m)).

Definition run (r : VmCreateRequest) (d : path) (id : Z) : mact CycleReport :=
  let^ created := try_it (lift (create_vm store r d id)) in
  match created with
  | Ok mapping =>
      let^ cancelled := lift is_cancelled in
      if cancelled : bool then lift (roll_back r d false)
      else
        let^ _ := lift (report StepStarting) in
        let^ started := try_it (start store (name r) d) in
        match started with
        | Ok _ => lift (await_guest r d mapping)
        | Err error =>
            let^ _ := lift (roll_back r d false) in
            pure_of (Ok (mk_report (CycleFailed error) None))
        | Panic => pure_of Panic
        end
  | Err error => pure_of (Ok (mk_report (CycleFailed error) None))
  | Panic => pure_of Panic
  end.

End cycle.

(** The code 1 is HNS's "endpoint already attached". *)
Definition start_by_fate (m : act unit) : action World HcsStartFailure unit := λ w,
  match by_fate m w with
  | (w', Ok _) => (w', Ok tt)
  | (w', Err (ByHost 1)) => (w', Err (EndpointBusy (ByHost 1)))
  | (w', Err e) => (w', Err (StartFailed e))
  | (w', Panic) => (w', Panic)
  end.

(** What is done on the host, and written into its record. *)
Definition with_record {E A} (m : action World E A) (kept : result E A → trace) : action Machine E A := λ s,
  let '(w, r) := m (world s) in (mk_machine w (events s ++ kept r) (gpu_facts s) (display_facts s), r).
Definition on_success {E A} (f : A → StartEvent) (r : result E A) : trace :=
  match r with Ok a => [f a] | _ => [] end.
Definition on_answer (made : StartEvent) (refused : bool → StartEvent) (r : result HcsStartFailure unit) : trace :=
  match r with Ok _ => [made] | Err f => [refused (is_busy f)] | Panic => [] end.

#[export] Instance sample_start : StartCalls := {|
  hcs_enumerate := with_record (gets (λ w, (λ id, (id, None)) <$> elements (systems w))) (on_success Enumerated);
  hcs_grant id f := with_record (by_fate (ret tt)) (on_success (λ _, Granted id f));
  hcs_create_and_wait id c :=
    with_record (start_by_fate (modify (set_systems (λ s, {[id]} ∪ s)))) (on_answer (Made id c) (MakeRefused id));
  hcs_start_and_wait id := with_record (start_by_fate (ret tt)) (on_answer (Started id) (StartRefused id));
  com1_launch m d := with_record (write_file "open the serial log" (com1_log_path d) [])
    (on_success (λ _, ConsoleOpened (hcs_compute_system_id m)));
  hcn_ensure_network := ret tt;
  hcn_open_if_present e := gets (λ w, bool_decide (e ∈ endpoints w));
  hcn_create e _ _ := with_record (by_fate (modify (set_endpoints (λ s, {[e]} ∪ s)))) (on_success (λ _, EndpointCreated e));
  hcn_mac_address _ := ret (text "00-15-5D-00-00-01");
  hcn_address _ := ret (Some (mk_address (text "172.20.0.5") 20));
  new_uuid := gets (λ w, 100 + foldr Z.max 0 (elements (endpoints w)));
  dhcp_register _ mac a := with_record (ret tt) (on_success (λ _, Served mac a));
  gpu_preparer _ _ w := (w, None);
  display_preparer _ _ w := (w, None);
  gpu_assigner id _ := with_record (pure_of (Ok tt)) (on_success (λ _, GpuAttached id));
  adapter_detacher _ _ := ret tt;
  clock _ := 0;
|}.

Lemma stays_start_by_fate P ids eps m : stays P ids eps m → stays P ids eps (start_by_fate m).
Proof.
  intros Hm w. pose proof (stays_by_fate _ _ _ _ Hm w) as H. unfold start_by_fate.
  destruct (by_fate m w) as [w' [u|e|]]; [done| |done]. cbn in H.
  repeat case_match; exact H.
Qed.

Lemma emits_with_record {E A} (m : action World E A) kept (Q : trace → result E A → Prop) :
  (∀ r, Q (kept r) r) → emits (with_record m kept) Q.
Proof. intros HQ s. unfold with_record. destruct (m (world s)) as [w r]. by exists (kept r). Qed.

#[export] Instance sample_start_record : StartRecord sample_start.
Proof. constructor; intros; by apply emits_with_record; intros []. Qed.

Lemma leaves_with_record {E A} P ids eps (m : action World E A) kept :
  stays P ids eps m → leaves P ids eps (with_record m kept).
Proof. intros Hm s. specialize (Hm (world s)). unfold with_record. by destruct (m (world s)) as [w r]. Qed.

#[local] Arguments stays : simpl never.
#[local] Arguments leaves : simpl never.
#[local] Arguments with_record : simpl never.
#[local] Arguments by_fate : simpl never.
#[local] Arguments start_by_fate : simpl never.
#[local] Arguments write_file : simpl never.

#[export] Instance sample_start_laws root : StartLaws sample_start root.
Proof.
  constructor; cbn; intros; try apply leaves_with_record.
  - stays.
  - apply stays_by_fate. stays.
  - apply stays_start_by_fate, stays_set_systems. unfold only. set_solver.
  - apply stays_start_by_fate. stays.
  - by stays.
  - stays.
  - stays.
  - apply stays_by_fate, stays_set_endpoints. unfold only. set_solver.
  - stays.
  - stays.
  - stays.
  - stays.
  - intros w. apply touches_refl.
  - intros w. apply touches_refl.
  - stays.
  - stays.
Qed.

Definition created_world (fs : list fate) : World :=
  let w := (sample_create "dev" 5 (empty_world [] None)).1 in
  mk_world (files w) (systems w) (endpoints w) fs None [].
Definition sample_machine (fs : list fate) : Machine := mk_machine (created_world fs) [] ∅ ∅.
Definition sample_start_vm (fs : list fate) : Machine * result Failure unit :=
  start (mapping_path sample_root) (text "dev") (sample_root ++ [text "dev"]) (sample_machine fs).

(** The first attempt finds the endpoint taken as the system is started. *)
Definition busy_once : list fate := repeat Works 14 ++ [Fails 1 (λ _, true)].


Definition the_vm : option VmComputeSystemMapping :=
  document (mapping_path sample_root) (created_world busy_once)
    ≫= List.find (λ x, str_eqb (vm_name x) (text "dev")).

Lemma a_started_vm_is_on_its_network_witness :
  ∃ s' m, the_vm = Some m ∧ sample_start_vm busy_once = (s', Ok tt) ∧ on_its_network sample_root m (sample_machine busy_once) s'.
Proof.
  destruct (sample_start_vm busy_once) as [s' out] eqn:Ho.
  assert (Hok : is_ok out = true) by (change out with (s', out).2; rewrite <- Ho; vm_compute; reflexivity).
  destruct out as [[]| |]; [|discriminate Hok..].
  destruct (document (mapping_path sample_root) (created_world busy_once)) as [ms|] eqn:Hd; [|vm_compute in Hd; discriminate Hd].
  assert (Hms : Some ms = document (mapping_path sample_root) (created_world busy_once)) by (rewrite Hd; reflexivity).
  vm_compute in Hms. injection Hms as ->.
  eexists s', _. split; [vm_compute; reflexivity|]. split; [reflexivity|].
  eapply (a_started_vm_is_on_its_network sample_root (text "dev") eq_refl _ _ (sample_machine busy_once) s' Hd);
    [split; apply NoDup_singleton|reflexivity|reflexivity|exact Ho].
Defined.

Section cycle.
Context `{H : HostCalls} `{HL : !HostLaws H} `{S : StartCalls} `{SR : !StartRecord S} `{C : MappingCodec} `{CL : !MappingLaws C}.
Context `{J : Json} `{G : Guids} `{P : Polls} `{PL : !PollLaws P}.
Variables (root : path) (timeouts : ReadinessTimeouts) (r : VmCreateRequest).
Context `{SL : !StartLaws S root}.
Hypothesis (Hn : validate_vm_name (name r) = Ok tt) (Hcache : name r ≠ text "cache").
Hypothesis (Htimes : sensible_timeouts timeouts) (Hspawn : spawn_at ≠ Panic).

Let store : path := mapping_path root.
Let d : path := root ++ [name r].

(** ** The directory is there all along *)

Lemma directory_not_child f : d ≠ child d f.
Proof using. intros E. by apply (child_not d f). Qed.

Lemma directory_not_staging : ¬ staging root d d.
Proof using Hcache.
  intros [[_ Hd]|Hc]; [done|]. apply under_spec in Hc as [rest Hr]. unfold d, payload_cache_root, child in Hr.
  rewrite <- app_assoc in Hr. apply app_inv_head in Hr. by injection Hr as E _.
Qed.

Lemma directory_not_on_the_way : ¬ d ∈ ways_to (parent store).
Proof using.
  unfold store. rewrite parent_of_mapping. intros (k & E & _)%list_elem_of_fmap.
  apply (f_equal length) in E. unfold d in E. rewrite length_take, length_app in E. cbn in E. lia.
Qed.

Lemma directory_not_document : d ≠ store.
Proof using Hn. intros E. apply (store_not_within root (name r) Hn). fold store. rewrite <- E. apply under_refl. Qed.

Lemma spares_the_directory : spares d (start store (name r) d).
Proof using HL SL Hn Hcache.
  apply (spares_start root (name r) d); auto using directory_not_child, directory_not_staging,
    directory_not_on_the_way, directory_not_document.
Qed.

Lemma has_directory_same w w' : files w' !! d = files w !! d → has_directory d w → has_directory d w'.
Proof using. unfold has_directory, is_directory. by intros ->. Qed.

Lemma create_leaves_the_directory id w w' m :
  create_vm store r d id w = (w', Ok m) → has_directory d w'.
Proof using HL Hn.
  unfold create_vm. intros Hc. apply abind_ok in Hc as (w1 & [agent c] & Hb & Hc).
  apply before_the_guard_ok in Hb as (_ & _ & _ & Hd & _).
  unfold guarded in Hc. pose proof (prepare_keeps r d id agent c w1 Hd) as Hp.
  destruct (prepare r d id agent c w1) as [w2 [u|e|]]; [|by unfold abind in Hc; destruct (rollback _ _ _ _ _) as [? [| |]]|done].
  destruct (insert store (mapping_of r id) w2) as [w3 o] eqn:Hi.
  pose proof (insert_keeps root (name r) (mapping_of r id)) as Hk.
  assert (H3 : has_directory d w3) by (by eapply keeps_at; [apply Hk| |]).
  destruct o as [v|e|]; [by injection Hc as <- _|by unfold abind in Hc; destruct (rollback _ _ _ _ _) as [? [| |]]|done].
Qed.

(** ** What waiting and stopping touch *)

Definition transcript (q : path) : Prop := q = cloud_init_status_log_path d.

Lemma stays_map_failure {E F A} Q ids eps (f : E → F) (m : action World E A) :
  stays Q ids eps m → stays Q ids eps (map_failure f m).
Proof using. intros Hm w. unfold map_failure. specialize (Hm w). by destruct (m w). Qed.

Lemma stays_transcript Q ids eps : stays Q ids eps (transcript_tail d).
Proof using. unfold transcript_tail, file_tail. stays. Qed.

Lemma stays_address fuel i now deadline : stays nobody nobody nobody (address_loop fuel i now deadline).
Proof using. revert i now. induction fuel; intros; cbn; stays; auto. Qed.
Lemma stays_port fuel i now deadline : stays nobody nobody nobody (port_loop fuel i now deadline).
Proof using. revert i now. induction fuel; intros; cbn; stays; auto. Qed.
Lemma stays_child fuel i now deadline : stays nobody nobody nobody (child_loop fuel i now deadline d).
Proof using. revert i now. induction fuel; intros; cbn; stays; auto using stays_transcript. Qed.

Lemma stays_wait m : stays transcript nobody nobody (wait timeouts m d).
Proof using.
  assert (Hq : ∀ {E A} (a : action World E A), stays nobody nobody nobody a → stays transcript nobody nobody a)
    by (intros E A a Ha; eapply stays_weaken; [exact Ha|by intros ? []|done|done]).
  unfold wait, run_ssh, wait_for_address, wait_for_port. stays; try (apply Hq, stays_address || apply Hq, stays_port).
  apply stays_map_failure. stays; [done|apply Hq, stays_child].
Qed.

Lemma stays_force_stop : stays nobody (λ _, True) nobody (force_stop store (name r)).
Proof using HL SL.
  unfold force_stop, detach_adapter, terminate_hcs_system. stays.
  all: try (eapply stays_weaken; [first [apply quiet_find|apply detach_stays|apply open_stays|apply terminate_stays]|done..]).
Qed.

(** ** Taking back *)

(** The last thing that happened to the host was the removal of the VM with its
    disks, which has done all of it when it reports success. *)
Definition removed_last (w' : World) : Prop :=
  ∃ w out, delete_vm store (name r) d true w = (w', out) ∧
           (out = Ok tt → deleted store d (name r) true w w').

Lemma attempt_inv {A} (m : act A) w w' (a : result Failure A) :
  attempt m w = (w', Ok a) → m w = (w', a).
Proof using. intros Ha. by apply attempt_ok in Ha as [? _]. Qed.

Lemma removal_is_last w w' out :
  has_directory d w → delete_vm store (name r) d true w = (w', out) → removed_last w'.
Proof using HL CL Hn.
  intros Hd Hx. exists w, out. split; [done|]. intros ->. apply delete_vm_ok; [done| |done].
  intros Hgone. unfold has_directory, is_directory in Hd. change (files w !! d = None) in Hgone. by rewrite Hgone in Hd.
Qed.

Lemma roll_back_ok running w w' rep :
  has_directory d w → roll_back store r d running w = (w', Ok rep) →
  rep = mk_report CycleCancelled None ∧ removed_last w'.
Proof using HL SL CL Hn.
  intros Hd Hr. unfold roll_back in Hr. act_ok Hr as x, Hs. act_ok Hr as out, Hx. injection Hr as <- <-.
  split; [done|]. apply attempt_inv in Hx. eapply removal_is_last; [|done].
  destruct running; [|by injection Hs as <- _]. apply attempt_inv in Hs.
  eapply has_directory_same; [|exact Hd].
  pose proof (stays_at _ _ _ _ _ _ _ stays_force_stop Hs) as [F _ _]. apply F. by intros [].
Qed.

(** ** A VM that runs *)

(** What is handed over, and on what its outcome rests. *)
Definition handed_over (m : VmComputeSystemMapping) (outcome : CycleOutcome) : Prop :=
  match outcome with
  | CycleReady => has_a_guest_to_ask r = true → rests_on (mapping_ssh m) GuestIsReady
  | CycleDegraded detail => rests_on (mapping_ssh m) (GuestDegraded detail)
  | CycleUnverified no_ssh => rests_on (mapping_ssh m) (GuestUnverified no_ssh)
  | CycleNotReady reason _ => reason ≠ WaitCancelled
  | CycleFailed _ | CycleCancelled => False
  end.

Definition left_running (w' : World) (rep : CycleReport) : Prop :=
  match started_vm rep with
  | Some m => handed_over m (cycle_outcome rep)
  | None => cycle_outcome rep = CycleCancelled ∧ removed_last w'
  end.

Lemma waited_rests m w w' state :
  wait timeouts m d w = (w', Ok state) → rests_on (mapping_ssh m) state.
Proof using PL Htimes Hspawn. intros Hw. pose proof (wait_ends timeouts m d Htimes Hspawn w) as E. by rewrite Hw in E. Qed.

Lemma judged_ok m waited w w' rep :
  has_directory d w → has_a_guest_to_ask r = true →
  (∀ state, waited = Ok state → rests_on (mapping_ssh m) state) →
  judged store r d m waited w = (w', Ok rep) → left_running w' rep.
Proof using HL SL CL Hn.
  intros Hd Hg Hw Hj. unfold judged in Hj. unfold left_running.
  destruct waited as [[|detail|no_ssh]|[]|]; try (injection Hj as _ <-; cbn [started_vm cycle_outcome handed_over]; by auto); try done; try (act_ok Hj as console, Hc; injection Hj as _ <-; done).
  by apply roll_back_ok in Hj as [-> Hlast].
Qed.

Lemma await_guest_ok m w w' rep :
  has_directory d w → await_guest store timeouts r d m w = (w', Ok rep) → left_running w' rep.
Proof using HL SL CL PL Hn Htimes Hspawn.
  intros Hd Ha. unfold await_guest in Ha. act_ok Ha as found, Hf. apply attempt_inv in Hf.
  pose proof (unchanged _ _ _ _ (quiet_find _ _) Hf) as Ff.
  set (m' := match found with Ok (Some m) => m | _ => m end) in *. clearbody m'.
  destruct (has_a_guest_to_ask r) eqn:Hg; [|injection Ha as _ <-; intros Hx; by rewrite Hx in Hg].
  act_ok Ha as u, Hrep. act_ok Ha as waited, Hw.
  unfold try_it in Hw. destruct (wait timeouts m' d x0) as [w1 o] eqn:Hwait.
  assert (Hd1 : has_directory d w1).
  { eapply has_directory_same; [|exact Hd].
    pose proof (stays_at _ _ _ _ _ _ _ (stays_report (P := nobody) (ids := nobody) (eps := nobody) StepAwaitingGuest) Hrep) as [F0 _ _].
    pose proof (stays_wait m' x0) as [F _ _]. rewrite Hwait in F. cbn in F. rewrite F by apply directory_not_child.
    rewrite F0 by (by intros []). by rewrite Ff. }
  destruct o as [state|e|]; [..|done]; injection Hw as <- <-; eapply judged_ok; try done.
  - intros state' [= <-]. by eapply waited_rests.
  - by intros state'.
Qed.

(** ** The whole *)

Lemma lift_inv {E A} (m : action World E A) s s' (o : result E A) :
  lift m s = (s', o) → m (world s) = (world s', o) ∧ events s' = events s.
Proof using. unfold lift. destruct (m (world s)) as [w x]. by intros [= <- ->]. Qed.

Lemma try_inv {W E F A} (m : action W E A) s s' (a : result E A) :
  try_it (F := F) m s = (s', Ok a) → m s = (s', a).
Proof using. unfold try_it. by destruct (m s) as [s1 [x|e|]]; intros [= <- <-]. Qed.

Lemma start_emits s s' out :
  start store (name r) d s = (s', out) → ∃ t, events s' = events s ++ t ∧ start_ends t out.
Proof using SR. intros Hs. destruct (emits_start store (name r) d s) as (t & Ht & HQ). rewrite Hs in Ht, HQ. eauto. Qed.


End cycle.

(** ** Builds *)

(** A cloud image with the VM's own key, on a host with nothing but an endpoint of
    another VM; [cancels] is how many looks it takes to find the build cancelled. *)
Definition cycle_run (cancels : option nat) : Machine * result Failure CycleReport :=
  run (P := sample_polls) (mapping_path sample_root) sample_timeouts (sample_request "dev")
    (sample_root ++ [text "dev"]) 5 (mk_machine (empty_world [] cancels) [] ∅ ∅).


(** Cancelled while cloud-init is asked, nothing of the build stays: only the root
    and its empty document are left, no system runs and no endpoint was kept. *)
Example a_build_cancelled_while_waiting :
  match cycle_run (Some 9%nat) with
  | (s, Ok report) =>
      report = mk_report CycleCancelled None ∧
      elements (systems (world s)) = [] ∧ elements (endpoints (world s)) = [7] ∧
      files (world s) !! (sample_root ++ [text "dev"]) = None
  | _ => False
  end.
Proof. vm_compute. by repeat split. Qed.

(** Cancelled while the disk is written, the same build is reported as failed. *)
Example a_build_cancelled_while_creating_fails :
  match cycle_run (Some 1%nat) with
  | (_, Ok (mk_report (CycleFailed (Combined _ [cause])) None)) => cause = CancelledBuild
  | _ => False
  end.
Proof. vm_compute. reflexivity. Qed.
