(* ===== verification/Subnet.v ===== *)
(** * Subnet: the addresses of the guests

    crates/platform: subnet.rs, and what host_dns.rs keeps of the host's resolvers.
    An IPv4 address is the 32-bit number it stands for.  Which subnets the host is
    on and which resolvers it has are arguments. *)

From stdpp Require Import list sets.
From S2P Require Import Prelude ClipboardPath CoreRequest.
#[local] Open Scope Z_scope.

(** ** std::net::Ipv4Addr *)

Definition ipv4 (a b c d : Z) : Z := from_be [a; b; c; d].
Definition octets (ip : Z) : list Z := to_be 4 ip.

(** Its text: four decimal numbers. *)
Definition decimal (n : Z) : str :=
  if n <? 10 then [48 + n]
  else if n <? 100 then [48 + n / 10; 48 + n mod 10]
  else [48 + n / 100; 48 + n / 10 mod 10; 48 + n mod 10].
Definition dot_code : Z := 46.
Definition show_ipv4 (ip : Z) : str :=
  match octets ip with
  | [a; b; c; d] => decimal a ++ dot_code :: decimal b ++ dot_code :: decimal c ++ dot_code :: decimal d
  | _ => []
  end.

Definition is_digit (c : Z) : bool := (48 <=? c) && (c <=? 57).
Definition number (s : str) : Z := fold_left (λ n c, 10 * n + (c - 48)) s 0.
(** One to three digits, no zero in front of another, at most 255. *)
Definition parse_octet (s : str) : option Z :=
  match s with
  | [] => None
  | c :: rest =>
      if forallb is_digit s && (length s <=? 3)%nat && ((negb (c =? 48)) || (match rest with [] => true | _ => false end))
         && (number s <=? 255)
      then Some (number s) else None
  end.
Definition parse_ipv4 (s : str) : option Z :=
  match split dot_code s with
  | [a; b; c; d] =>
      a ← parse_octet a; b ← parse_octet b; c ← parse_octet c; d ← parse_octet d;
      Some (ipv4 a b c d)
  | _ => None
  end.

Definition UNSPECIFIED : Z := 0.
Definition BROADCAST : Z := U32_MAX.
Definition is_unspecified (ip : Z) : bool := ip =? 0.
Definition is_loopback (ip : Z) : bool := match octets ip with a :: _ => a =? 127 | [] => false end.
Definition is_link_local (ip : Z) : bool :=
  match octets ip with a :: b :: _ => (a =? 169) && (b =? 254) | _ => false end.

(** ** Ipv4Subnet *)

Record Ipv4Subnet : Type := mk_subnet { address : Z; prefix_length : Z }.
#[export] Instance Ipv4Subnet_eq_dec : EqDecision Ipv4Subnet.
Proof. solve_decision. Defined.

Definition new (address prefix_length : Z) : Ipv4Subnet :=
  mk_subnet address (if 32 <? prefix_length then 32 else prefix_length).

Definition mask (prefix_length : Z) : Z :=
  if prefix_length =? 0 then 0 else as_u32 (Z.shiftl U32_MAX (32 - Z.min prefix_length 32)).

Definition network_address (s : Ipv4Subnet) : Z := Z.land (address s) (mask (prefix_length s)).
(** The addition is a 32-bit one. *)
Definition gateway {E} (s : Ipv4Subnet) : result E Z :=
  let g := network_address s + 1 in if g <=? U32_MAX then Ok g else Panic.

Definition overlaps (s t : Ipv4Subnet) : bool :=
  let shared := Z.min (prefix_length s) (prefix_length t) in
  Z.land (Z.lxor (address s) (address t)) (mask shared) =? 0.

Definition CANDIDATE_SUBNETS : list Ipv4Subnet := [new (ipv4 172 22 42 0) 24; new (ipv4 172 22 142 0) 24].

Definition choose_subnet (occupied : list Ipv4Subnet) : Ipv4Subnet :=
  match List.find (λ candidate, negb (existsb (overlaps candidate) occupied)) CANDIDATE_SUBNETS with
  | Some candidate => candidate
  | None => new (ipv4 172 22 42 0) 24
  end.

(** ** host_dns.rs *)

Definition FALLBACK_DNS : list Z := [ipv4 1 1 1 1; ipv4 8 8 8 8].

Definition serves_guests (s : Ipv4Subnet) (server : Z) : bool :=
  negb (is_loopback server || is_link_local server || is_unspecified server || overlaps (new server 32) s).
Definition usable (configured : list Z) (s : Ipv4Subnet) : list Z :=
  let kept := fold_left (λ servers server,
      if serves_guests s server && negb (bool_decide (server ∈ servers)) then servers ++ [server] else servers)
    configured [] in
  match kept with [] => FALLBACK_DNS | _ => kept end.

(** ** Masks *)

Definition is_subnet (s : Ipv4Subnet) : Prop := is_u32 (address s) ∧ 0 <= prefix_length s <= 32.

(** The addresses a subnet covers. *)
Definition covers (s : Ipv4Subnet) (ip : Z) : Prop := Z.land ip (mask (prefix_length s)) = network_address s.

Lemma mask_shift p : 0 <= p <= 32 → mask p = Z.shiftl (2 ^ p - 1) (32 - p).
Proof.
  intros Hp. unfold mask. destruct (Z.eqb_spec p 0) as [->|Hn]; [reflexivity|].
  rewrite Z.min_l by lia. rewrite !Z.shiftl_mul_pow2 by lia. unfold as_u32, U32_MAX.
  replace 4294967296 with (2 ^ p * 2 ^ (32 - p)) by (rewrite <- Z.pow_add_r by lia; by replace (p + (32 - p)) with 32 by lia).
  rewrite Z.mul_mod_distr_r by (pose proof (Z.pow_pos_nonneg 2 p); pose proof (Z.pow_pos_nonneg 2 (32 - p)); lia).
  f_equal. replace 4294967295 with (2 ^ p * 2 ^ (32 - p) - 1).
  2: { rewrite <- Z.pow_add_r by lia. by replace (p + (32 - p)) with 32 by lia. }
  pose proof (Z.pow_pos_nonneg 2 p). pose proof (Z.pow_pos_nonneg 2 (32 - p)).
  replace (2 ^ p * 2 ^ (32 - p) - 1) with (2 ^ p - 1 + (2 ^ (32 - p) - 1) * 2 ^ p) by ring.
  rewrite Z_mod_plus_full. apply Z.mod_small. lia.
Qed.

(** A mask keeps the leading bits: what is left is the number of its block. *)
Lemma land_mask x p : is_u32 x → 0 <= p <= 32 → Z.land x (mask p) = x / 2 ^ (32 - p) * 2 ^ (32 - p).
Proof.
  intros Hx Hp. rewrite mask_shift by lia. rewrite <- Z.shiftl_mul_pow2, <- Z.shiftr_div_pow2 by lia.
  apply Z.bits_inj'. intros i Hi. rewrite Z.land_spec.
  destruct (Z_lt_le_dec i (32 - p)) as [Hl|Hl].
  - rewrite !Z.shiftl_spec_low by lia. apply andb_false_r.
  - rewrite !Z.shiftl_spec_high, Z.shiftr_spec by lia. replace (i - (32 - p) + (32 - p)) with i by lia.
    replace (2 ^ p - 1) with (Z.ones p) by (rewrite Z.ones_equiv; lia).
    destruct (Z_lt_le_dec i 32) as [H32|H32].
    + rewrite Z.ones_spec_low by lia. apply andb_true_r.
    + assert (Hb : Z.testbit x i = false).
      { apply Z.testbit_false; [done|]. rewrite Z.div_small; [done|]. split; [apply Hx|].
        apply Z.lt_le_trans with (2 ^ 32); [apply Hx|]. apply Z.pow_le_mono_r; lia. }
      by rewrite Hb.
Qed.

Lemma land_mask_same x y p : is_u32 x → is_u32 y → 0 <= p <= 32 →
  Z.land x (mask p) = Z.land y (mask p) ↔ x / 2 ^ (32 - p) = y / 2 ^ (32 - p).
Proof.
  intros Hx Hy Hp. rewrite !land_mask by done. split; [|by intros ->].
  intros H. apply Z.mul_cancel_r in H; [done|]. pose proof (Z.pow_pos_nonneg 2 (32 - p)). lia.
Qed.

Lemma lxor_mask x y p : is_u32 x → is_u32 y → 0 <= p <= 32 →
  Z.land (Z.lxor x y) (mask p) = 0 ↔ Z.land x (mask p) = Z.land y (mask p).
Proof.
  intros Hx Hy Hp. rewrite <- (Z.lxor_eq_0_iff (Z.land x _)).
  assert (E : Z.land (Z.lxor x y) (mask p) = Z.lxor (Z.land x (mask p)) (Z.land y (mask p))); [|by rewrite E].
  apply Z.bits_inj'. intros i Hi. rewrite Z.land_spec, !Z.lxor_spec, !Z.land_spec.
  by destruct (Z.testbit x i), (Z.testbit y i), (Z.testbit (mask p) i).
Qed.

(** The blocks of a shorter prefix are made of those of a longer one. *)
Lemma coarser x y p q : 0 <= p → p <= q → q <= 32 →
  x / 2 ^ (32 - q) = y / 2 ^ (32 - q) → x / 2 ^ (32 - p) = y / 2 ^ (32 - p).
Proof.
  intros Hp Hpq Hq H. replace (32 - p) with ((32 - q) + (q - p)) by lia.
  assert (0 < 2 ^ (32 - q)) by (apply Z.pow_pos_nonneg; lia).
  assert (0 < 2 ^ (q - p)) by (apply Z.pow_pos_nonneg; lia).
  rewrite Z.pow_add_r by lia. rewrite <- !Z.div_div by lia. by rewrite H.
Qed.

(** ** Overlaps *)

Lemma covers_block s ip : is_subnet s → is_u32 ip →
  covers s ip ↔ ip / 2 ^ (32 - prefix_length s) = address s / 2 ^ (32 - prefix_length s).
Proof. intros [Ha Hp] Hip. unfold covers, network_address. by apply land_mask_same. Qed.

Lemma covers_itself s : covers s (address s).
Proof. done. Qed.

(** Two subnets overlap exactly when some address is in both. *)
Lemma overlaps_exactly_when_shared s t : is_subnet s → is_subnet t →
  overlaps s t = true ↔ ∃ ip, is_u32 ip ∧ covers s ip ∧ covers t ip.
Proof.
  intros Hs Ht. destruct (Hs) as [Ha Hp], (Ht) as [Hb Hq]. unfold overlaps.
  rewrite Z.eqb_eq, lxor_mask, land_mask_same by (done || lia). split.
  - intros H. destruct (Z.le_ge_cases (prefix_length s) (prefix_length t)) as [Hle|Hle].
    + rewrite Z.min_l in H by done. exists (address t). split; [done|]. split; [|done]. apply covers_block; auto.
    + rewrite Z.min_r in H by done. exists (address s). split; [done|]. split; [done|]. by apply covers_block.
  - intros (ip & Hip & Hcs & Hct). apply covers_block in Hcs, Hct; try done.
    destruct (Z.le_ge_cases (prefix_length s) (prefix_length t)) as [Hle|Hle].
    + rewrite Z.min_l by done. rewrite <- Hcs. apply (coarser _ _ _ (prefix_length t)); [lia..|done].
    + rewrite Z.min_r by done. rewrite <- Hct. symmetry. apply (coarser _ _ _ (prefix_length s)); [lia..|done].
Qed.

Definition disjoint_from (s : Ipv4Subnet) (occupied : list Ipv4Subnet) : Prop :=
  ∀ t ip, t ∈ occupied → is_u32 ip → covers s ip → ¬ covers t ip.

Lemma candidates_are_subnets : Forall is_subnet CANDIDATE_SUBNETS.
Proof. repeat constructor; vm_compute; intuition discriminate. Qed.

Lemma free_candidate s occupied : is_subnet s → Forall is_subnet occupied →
  existsb (overlaps s) occupied = false ↔ disjoint_from s occupied.
Proof.
  intros Hs Ho. rewrite list.Forall_forall in Ho. rewrite <- not_true_iff_false, existsb_exists. split.
  - intros Hno t ip Ht Hip Hc1 Hc2. apply Hno. exists t. split; [by apply list_elem_of_In|].
    apply overlaps_exactly_when_shared; eauto.
  - intros Hd (t & Ht & H). apply list_elem_of_In in Ht. apply overlaps_exactly_when_shared in H as (ip & Hip & H1 & H2); eauto.
    by eapply Hd.
Qed.

(** The subnet of the network is on no address of the host's, unless every
    candidate is. *)
Theorem chosen_subnet_is_free occupied :
  Forall is_subnet occupied →
  disjoint_from (choose_subnet occupied) occupied ∨
  Forall (λ c, ¬ disjoint_from c occupied) CANDIDATE_SUBNETS ∧ choose_subnet occupied = new (ipv4 172 22 42 0) 24.
Proof.
  intros Ho. unfold choose_subnet. pose proof candidates_are_subnets as Hc. rewrite list.Forall_forall in Hc.
  destruct (List.find _ CANDIDATE_SUBNETS) as [c|] eqn:Hf.
  - left. apply find_some in Hf as [Hin Hno]. apply free_candidate; [by apply Hc, list_elem_of_In|done|].
    by apply negb_true_iff.
  - right. split; [|done]. apply list.Forall_forall. intros c Hin Hd.
    assert (Hn := find_none _ _ Hf c ltac:(by apply list_elem_of_In)). apply negb_false_iff in Hn.
    apply free_candidate in Hd; [|by apply Hc|done]. by rewrite Hd in Hn.
Qed.

(** A resolver a guest is offered is one it can reach: not the host alone, not on
    the guests' own network - or it is one of the public ones. *)
Lemma usable_is_reachable configured s server :
  server ∈ usable configured s → server ∈ FALLBACK_DNS ∨ server ∈ configured ∧ serves_guests s server = true.
Proof.
  unfold usable. set (step := λ servers server, _).
  assert (Hk : ∀ l acc x, x ∈ fold_left step l acc → x ∈ acc ∨ x ∈ l ∧ serves_guests s x = true).
  { induction l as [|y l IH]; intros acc x Hx; [by left|]. cbn in Hx. apply IH in Hx as [Hx|[Hx Hs]].
    - unfold step in Hx. destruct (serves_guests s y) eqn:Hy, (bool_decide _); cbn in Hx; auto.
      apply elem_of_app in Hx as [Hx|Hx]; [by left|]. apply list_elem_of_singleton in Hx as ->. right. set_solver.
    - right. set_solver. }
  intros Hx. destruct (fold_left step configured []) as [|y l] eqn:Hl; [by left|]. right.
  rewrite <- Hl in Hx. apply Hk in Hx as [Hx%not_elem_of_nil|Hx]; done.
Qed.

(** ** Texts *)

Lemma decimal_octet b : is_u8 b → parse_octet (decimal b) = Some b.
Proof.
  intros Hb. pose proof (byte_by_computation (λ b, bool_decide (parse_octet (decimal b) = Some b))) as H.
  eapply bool_decide_eq_true, H; [vm_compute; reflexivity|done].
Qed.

Lemma decimal_no_dot b : is_u8 b → forallb (λ c, negb (c =? dot_code)) (decimal b) = true.
Proof. intros Hb. apply (byte_by_computation (λ b, forallb _ (decimal b))); [vm_compute; reflexivity|done]. Qed.

Lemma split_no_sep sep s rest : forallb (λ c, negb (c =? sep)) s = true →
  split sep (s ++ sep :: rest) = s :: split sep rest.
Proof.
  induction s as [|c s IH]; cbn; [by rewrite Z.eqb_refl|]. intros [Hc Hs]%andb_true_iff.
  apply negb_true_iff in Hc. rewrite Hc, IH by done. done.
Qed.
Lemma split_last sep s : forallb (λ c, negb (c =? sep)) s = true → split sep s = [s].
Proof.
  induction s as [|c s IH]; cbn; [done|]. intros [Hc Hs]%andb_true_iff.
  apply negb_true_iff in Hc. rewrite Hc, IH by done. done.
Qed.

(** The text of an address is read back as the address. *)
Lemma ipv4_round_trip ip : is_u32 ip → parse_ipv4 (show_ipv4 ip) = Some ip.
Proof.
  intros Hip. unfold show_ipv4, parse_ipv4, octets.
  pose proof (from_be_to_be_u32 ip Hip) as Hback. pose proof (to_le_u8 4 ip) as Hu.
  assert (Hr : Forall is_u8 (to_be 4 ip)) by (unfold to_be; by apply Forall_rev).
  destruct (to_be 4 ip) as [|a [|b [|c [|d [|? ?]]]]] eqn:Hl;
    try (apply (f_equal length) in Hl; unfold to_be in Hl; rewrite length_rev, length_to_le in Hl; discriminate Hl).
  repeat (apply list.Forall_cons in Hr as [? Hr]).
  rewrite !split_no_sep, split_last by by apply decimal_no_dot.
  rewrite !decimal_octet by done. cbn [mbind option_bind]. unfold ipv4. by rewrite Hback.
Qed.
