(* ===== verification/Dhcp.v ===== *)
(** * Dhcp: the server that repeats what HNS assigned

    crates/platform/src/dhcp.rs.  The packets and the lease table are the
    arcbox-dhcp crate's ([DhcpCrate]); this file is what stands in front of it: who
    is served which address, who is answered, and where.  A step of the worker is a
    datagram, a reservation comes from a start; [SERVICE] is the one server of the
    process. *)

From stdpp Require Import strings gmap list sets.
From S2P Require Import Prelude Stateful ClipboardPath CoreVm CoreRequest Layout HostFiles Metadata Start Subnet.
#[local] Open Scope Z_scope.

Abbreviation mac := (list Z).

Definition LEASE_DURATION : Z := 24 * 60 * 60.
Definition DHCP_CLIENT_PORT : Z := 68.

Definition netmask (prefix_length : Z) : Z :=
  let length := Z.min prefix_length 32 in
  if length =? 0 then 0 else as_u32 (Z.shiftl U32_MAX (32 - length)).

Definition endpoint_subnet (a : EndpointAddress) : result Failure Ipv4Subnet :=
  match parse_ipv4 (ip_address a) with
  | Some ip => Ok (Subnet.new ip (Start.prefix_length a))
  | None => Err BadConfiguration
  end.

(** ** MAC addresses *)

(** [char::to_digit(16)]. *)
Definition hex_value (c : Z) : option Z :=
  if (48 <=? c) && (c <=? 57) then Some (c - 48)
  else if (97 <=? c) && (c <=? 102) then Some (c - 87)
  else if (65 <=? c) && (c <=? 70) then Some (c - 55)
  else None.
(** [u8::from_str_radix(_, 16)]: a plus may stand in front; the value may not
    leave a byte on the way. *)
Fixpoint radix16 (acc : Z) (s : str) : option Z :=
  match s with
  | [] => Some acc
  | c :: rest => v ← hex_value c; let acc := 16 * acc + v in if acc <=? 255 then radix16 acc rest else None
  end.
Definition u8_from_hex (s : str) : option Z :=
  match s with
  | [] => None
  | [c] => radix16 0 s
  | c :: rest => if c =? 43 then radix16 0 rest else radix16 0 s
  end.

(** [text.split(['-', ':'])]. *)
Definition dash : Z := 45.
Definition colon_code : Z := 58.
Definition octets_of (text : str) : list str := concat (map (split colon_code) (split dash text)).
Definition parse_mac (text : str) : option mac :=
  let parts := octets_of text in
  mac ← mapM u8_from_hex (take 6 parts);
  if (length parts =? 6)%nat then Some mac else None.

Definition hex_upper (n : Z) : Z := if n <? 10 then 48 + n else 55 + n.
(** As HNS spells a card. *)
Fixpoint dashed (m : mac) : str :=
  match m with
  | [] => []
  | [b] => [hex_upper (b / 16); hex_upper (b mod 16)]
  | b :: m => hex_upper (b / 16) :: hex_upper (b mod 16) :: dash :: dashed m
  end.

(** ** The crate *)

Record DhcpConfig : Type := mk_config {
  server_ip : Z; server_mask : Z; router : Z; dns : list Z; lease : Z }.

Class DhcpCrate := {
  DhcpServer : Type;
  DhcpPacket : Type;
  parse : list Z → option DhcpPacket;
  client_mac : DhcpPacket → mac;
  ciaddr : DhcpPacket → Z;
  server_new : DhcpConfig → DhcpServer;
  pool : DhcpServer → Z * Z;
  (** [None] where it panics. *)
  reserve_ip : DhcpServer → mac → Z → option DhcpServer;
  remove_reservation : DhcpServer → mac → DhcpServer;
  handle_packet : DhcpServer → list Z → DhcpServer * result unit (option (list Z));
}.

Definition dhcp_config (s : Ipv4Subnet) (dns_servers : list Z) : result Failure DhcpConfig :=
  let? g := gateway s in
  Ok (mk_config g (netmask (Subnet.prefix_length s)) g dns_servers LEASE_DURATION).

Section server.
Context `{D : DhcpCrate}.

Record State : Type := mk_state { server : DhcpServer; reserved : gmap mac Z }.

Definition new_state (config : DhcpConfig) : State := mk_state (server_new config) ∅.

(** Whoever holds [ip]; the order of the map is not the program's. *)
Definition holder_of (held : gmap mac Z) (ip : Z) : option mac :=
  fst <$> List.find (λ kv, kv.2 =? ip) (map_to_list held).

(** [self.reserved.remove] and [remove_reservation], of the ones given. *)
Definition release (who : option mac) (s : State) : State :=
  match who with
  | Some m => mk_state (remove_reservation (server s) m) (delete m (reserved s))
  | None => s
  end.

Definition in_pool (s : DhcpServer) (ip : Z) : bool := (fst (pool s) <=? ip) && (ip <=? snd (pool s)).

Definition reserve (m : mac) (ip : Z) (s : State) : State * result Failure unit :=
  if negb (in_pool (server s) ip) then (s, Err BadConfiguration)
  else if bool_decide (reserved s !! m = Some ip) then (s, Ok tt)
  else
    let s := release (match reserved s !! m with Some _ => Some m | None => None end) s in
    let s := release (holder_of (reserved s) ip) s in
    match reserve_ip (server s) m ip with
    | Some v => (mk_state v (<[m := ip]> (reserved s)), Ok tt)
    | None => (s, Panic)
    end.

Definition reply_target (p : DhcpPacket) : Z * Z :=
  if is_unspecified (ciaddr p) then (BROADCAST, DHCP_CLIENT_PORT) else (ciaddr p, DHCP_CLIENT_PORT).

Definition handle (datagram : list Z) (s : State) : State * option (list Z * (Z * Z)) :=
  match parse datagram with
  | None => (s, None)
  | Some packet =>
      match reserved s !! client_mac packet with
      | None => (s, None)
      | Some _ =>
          let '(v, r) := handle_packet (server s) datagram in
          (mk_state v (reserved s), match r with Ok (Some reply) => Some (reply, reply_target packet) | _ => None end)
      end
  end.

(** ** Its life *)

Inductive Event : Type := Reserve (m : mac) (ip : Z) | Datagram (bytes : list Z).
Inductive Answer : Type := Reserved (r : result Failure unit) | Replied (r : option (list Z * (Z * Z))).

Definition step (e : Event) (s : State) : State * Answer :=
  match e with
  | Reserve m ip => let '(s, r) := reserve m ip s in (s, Reserved r)
  | Datagram bytes => let '(s, r) := handle bytes s in (s, Replied r)
  end.
Fixpoint serve (es : list Event) (s : State) : State * list Answer :=
  match es with
  | [] => (s, [])
  | e :: es => let '(s, a) := step e s in let '(s, rest) := serve es s in (s, a :: rest)
  end.

(** ** The service of the process *)

Context `{S : StartCalls} `{C : MappingCodec}.
(** Binding the port and reading the host's resolvers. *)
Variable bound : result Failure unit.
Variable resolvers : list Z.

Record Host : Type := mk_host { host_world : World; SERVICE : option State }.

Definition on_world {A} (m : act A) : action Host Failure A := λ h,
  let '(w, r) := m (host_world h) in (mk_host w (SERVICE h), r).

Definition service_start (a : EndpointAddress) : result Failure State :=
  let? s := endpoint_subnet a in
  let? _ := gateway (E := Failure) s in
  let? _ := bound in
  let? c := dhcp_config s (usable resolvers s) in
  Ok (new_state c).

(** [DhcpService::reserve], where a service runs. *)
Definition service_reserve (mac : str) (a : EndpointAddress) : action Host Failure unit := λ h,
  match SERVICE h with
  | None => (h, Panic)
  | Some s =>
      match parse_mac mac, parse_ipv4 (ip_address a) with
      | Some m, Some ip => let '(s, r) := reserve m ip s in (mk_host (host_world h) (Some s), r)
      | _, _ => (h, Err BadConfiguration)
      end
  end.

Definition seed_one (endpoint : Z) : action Host Failure unit :=
  let^ there := on_world (hcn_open_if_present endpoint) in
  if there : bool then
    let^ a := on_world (hcn_address endpoint) in
    match a with
    | Some a => let^ m := on_world (hcn_mac_address endpoint) in service_reserve m a
    | None => pure_of (Ok tt)
    end
  else pure_of (Ok tt).

Fixpoint seed_all (ms : list VmComputeSystemMapping) : action Host Failure unit :=
  match ms with
  | [] => pure_of (Ok tt)
  | m :: ms =>
      let^ _ := match endpoint_id m with
                | Some e => try_it (seed_one e)
                | None => pure_of (Ok (Ok tt))
                end in
      seed_all ms
  end.
Definition seed (store : path) : action Host Failure unit :=
  let^ listed := try_it (on_world (list_all store)) in
  match listed with Ok ms => seed_all ms | _ => pure_of (Ok tt) end.

Definition register (store : path) (mac : str) (a : EndpointAddress) : action Host Failure unit := λ h,
  match SERVICE h with
  | Some _ => service_reserve mac a h
  | None =>
      match service_start a with
      | Ok s => (let^ _ := seed store in service_reserve mac a) (mk_host (host_world h) (Some s))
      | Err e => (h, Err e)
      | Panic => (h, Panic)
      end
  end.

End server.

(** ** What is assumed of the crate *)

Class DhcpLaws (D : DhcpCrate) := {
  (** The addresses it has given out, reserved or leased. *)
  held : DhcpServer → gmap mac Z;
  (** The address a reply gives, where it gives one. *)
  offered : list Z → option Z;
  held_new c : held (server_new c) = ∅;
  (** A reservation panics only outside the pool and on what is given out. *)
  reserve_gives s m ip :
    in_pool s ip = true → held s !! m = None → (∀ m', held s !! m' ≠ Some ip) →
    ∃ s', reserve_ip s m ip = Some s' ∧ held s' = <[m := ip]> (held s) ∧ pool s' = pool s;
  remove_takes s m : held (remove_reservation s m) = delete m (held s) ∧ pool (remove_reservation s m) = pool s;
  (** A packet of who has a reservation gives nothing else out, and is answered
      with the reservation. *)
  handle_keeps s d p ip :
    parse d = Some p → held s !! client_mac p = Some ip →
    held (handle_packet s d).1 = held s ∧ pool (handle_packet s d).1 = pool s;
  handle_offers s d p ip reply a :
    parse d = Some p → held s !! client_mac p = Some ip →
    (handle_packet s d).2 = Ok (Some reply) → offered reply = Some a → a = ip;
}.

Section laws.
Context `{D : DhcpCrate} {L : DhcpLaws D}.

Definition one_owner (g : gmap mac Z) : Prop := ∀ m m' ip, g !! m = Some ip → g !! m' = Some ip → m = m'.

(** The server and the map it is guarded by agree, and nobody shares. *)
Definition agree (s : State) : Prop := held (server s) = reserved s ∧ one_owner (reserved s).

(** What HNS's word for [m] makes of the assignments. *)
Definition assign (m : mac) (ip : Z) (g : gmap mac Z) : gmap mac Z := <[m := ip]> (filter (λ kv, kv.2 ≠ ip) g).

Lemma assign_owner m ip g : one_owner g → one_owner (assign m ip g).
Proof.
  intros Hg a b x. unfold assign. rewrite !lookup_insert_Some, !map_lookup_filter_Some. naive_solver.
Qed.

Lemma assign_kept m ip g : one_owner g → g !! m = Some ip → assign m ip g = g.
Proof.
  intros Hg Hm. apply map_eq. intros k. unfold assign. destruct (decide (k = m)) as [->|Hk].
  - by rewrite lookup_insert_eq.
  - rewrite lookup_insert_ne by done. destruct (g !! k) as [x|] eqn:Hx.
    + apply map_lookup_filter_Some. split; [done|]. cbn. intros ->. by apply Hk, (Hg k m ip).
    + apply map_lookup_filter_None. by left.
Qed.

Lemma holder_of_Some g ip h : holder_of g ip = Some h → g !! h = Some ip.
Proof.
  unfold holder_of. destruct (List.find _ _) as [[k v]|] eqn:Hf; [|done]. intros [= <-].
  apply find_some in Hf as [Hin Hv]. apply list_elem_of_In, elem_of_map_to_list in Hin. cbn in Hv.
  apply Z.eqb_eq in Hv as ->. done.
Qed.
Lemma holder_of_None g ip k : holder_of g ip = None → g !! k ≠ Some ip.
Proof.
  unfold holder_of. destruct (List.find _ _) as [?|] eqn:Hf; [done|]. intros _ Hk.
  apply elem_of_map_to_list, list_elem_of_In in Hk. apply (find_none _ _ Hf) in Hk. cbn in Hk.
  by rewrite Z.eqb_refl in Hk.
Qed.

Lemma release_agree who s :
  agree s →
  agree (release who s) ∧ pool (server (release who s)) = pool (server s) ∧
  reserved (release who s) = match who with Some m => delete m (reserved s) | None => reserved s end.
Proof.
  intros [Hh Ho]. destruct who as [m|]; cbn; [|done].
  destruct (remove_takes (server s) m) as [Hr Hp]. split; [|done]. split; cbn; [by rewrite Hr, Hh|].
  intros a b x Ha Hb. apply lookup_delete_Some in Ha as [_ Ha], Hb as [_ Hb]. eauto.
Qed.

Lemma reserve_does m ip s s' r :
  agree s → reserve m ip s = (s', r) →
  agree s' ∧ pool (server s') = pool (server s) ∧
  if in_pool (server s) ip then r = Ok tt ∧ reserved s' = assign m ip (reserved s)
  else r = Err BadConfiguration ∧ s' = s.
Proof.
  intros Hs. unfold reserve. destruct (in_pool (server s) ip) eqn:Hp; cbn [negb]; [|by intros [= <- <-]].
  destruct (bool_decide_reflect (reserved s !! m = Some ip)) as [Hm|Hm].
  { intros [= <- <-]. split; [done|]. split; [done|]. split; [done|]. by rewrite assign_kept by (done || apply Hs). }
  set (who := match reserved s !! m with Some _ => Some m | None => None end).
  destruct (release_agree who s Hs) as (Hs1 & Hp1 & Hr1). set (s1 := release who s) in *.
  assert (Hm1 : reserved s1 !! m = None).
  { rewrite Hr1. unfold who. destruct (reserved s !! m) eqn:E; [by rewrite lookup_delete_eq|done]. }
  assert (Hk1 : ∀ k, k ≠ m → reserved s1 !! k = reserved s !! k).
  { intros k Hk. rewrite Hr1. unfold who. destruct (reserved s !! m); [by rewrite lookup_delete_ne|done]. }
  destruct (release_agree (holder_of (reserved s1) ip) s1 Hs1) as (Hs2 & Hp2 & Hr2).
  set (s2 := release _ s1) in *.
  assert (Hfree : ∀ k, reserved s2 !! k ≠ Some ip).
  { intros k. rewrite Hr2. destruct (holder_of (reserved s1) ip) as [h|] eqn:Hh; [|by apply holder_of_None].
    apply holder_of_Some in Hh. destruct (decide (k = h)) as [->|Hk]; [by rewrite lookup_delete_eq|].
    rewrite lookup_delete_ne by done. intros H. by apply Hk, (proj2 Hs1 k h ip). }
  assert (Hk2 : ∀ k, reserved s1 !! k ≠ Some ip → reserved s2 !! k = reserved s1 !! k).
  { intros k Hk. rewrite Hr2. destruct (holder_of (reserved s1) ip) as [h|] eqn:Hh; [|done].
    apply holder_of_Some in Hh. by rewrite lookup_delete_ne by congruence. }
  assert (Hm2 : reserved s2 !! m = None) by (rewrite Hk2, Hm1; [done|by rewrite Hm1]).
  destruct (reserve_gives (server s2) m ip) as (v & -> & Hv & Hvp).
  { unfold in_pool. by rewrite Hp2, Hp1. }
  { by rewrite (proj1 Hs2). }
  { intros k. by rewrite (proj1 Hs2). }
  assert (Hres : <[m := ip]> (reserved s2) = assign m ip (reserved s)).
  { apply map_eq. intros k. unfold assign. destruct (decide (k = m)) as [->|Hk]; [by rewrite !lookup_insert_eq|].
    rewrite !lookup_insert_ne by done. destruct (decide (reserved s !! k = Some ip)) as [E|E].
    - transitivity (@None Z).
      + destruct (reserved s2 !! k) as [x|] eqn:Hx; [|done]. exfalso. specialize (Hfree k).
        destruct (decide (reserved s1 !! k = Some ip)) as [E1|E1]; [|by apply E1; rewrite Hk1].
        rewrite Hr2 in Hx. destruct (holder_of (reserved s1) ip) as [h|] eqn:Hh; [|by eapply holder_of_None].
        apply holder_of_Some in Hh. apply lookup_delete_Some in Hx as [Hne Hx]. exact (Hne (proj2 Hs1 h k ip Hh E1)).
      + symmetry. apply map_lookup_filter_None. right. rewrite E. intros x [= <-] Hx. by apply Hx.
    - rewrite Hk2, Hk1 by (done || by rewrite Hk1). destruct (reserved s !! k) as [x|] eqn:Hx.
      + symmetry. apply map_lookup_filter_Some. split; [done|]. cbn. congruence.
      + symmetry. apply map_lookup_filter_None. by left. }
  intros [= <- <-]. split; [split|]; cbn.
  - by rewrite Hv, (proj1 Hs2).
  - rewrite Hres. apply assign_owner, Hs.
  - split; [by rewrite Hvp, Hp2, Hp1|]. by split.
Qed.

Lemma handle_does d s s' r :
  agree s → handle d s = (s', r) →
  agree s' ∧ pool (server s') = pool (server s) ∧ reserved s' = reserved s ∧
  ∀ reply target, r = Some (reply, target) →
    ∃ p ip, parse d = Some p ∧ reserved s !! client_mac p = Some ip ∧ target = reply_target p ∧
            ∀ a, offered reply = Some a → a = ip.
Proof.
  intros [Hh Ho]. unfold handle. destruct (parse d) as [p|] eqn:Hp; [|by intros [= <- <-]].
  destruct (reserved s !! client_mac p) as [ip|] eqn:Hm; [|by intros [= <- <-]].
  assert (Hheld : held (server s) !! client_mac p = Some ip) by by rewrite Hh.
  destruct (handle_keeps (server s) d p ip Hp Hheld) as [Hk1 Hk2].
  pose proof (λ reply a, handle_offers (server s) d p ip reply a Hp Hheld) as Hoff.
  destruct (handle_packet (server s) d) as [v out]. cbn in *. intros [= <- <-].
  split; [split; cbn; [by rewrite Hk1|done]|]. split; [done|]. split; [done|].
  intros reply target Hr. destruct out as [[x|]| |]; try done. injection Hr as -> <-. eauto 10.
Qed.

(** The assignments after a run: HNS's last word for each guest. *)
Definition assigned (s : DhcpServer) (es : list Event) (g : gmap mac Z) : gmap mac Z :=
  fold_left (λ g e, match e with
                    | Reserve m ip => if in_pool s ip then assign m ip g else g
                    | Datagram _ => g
                    end) es g.

Lemma serve_does es s s' answers :
  agree s → serve es s = (s', answers) →
  agree s' ∧ reserved s' = assigned (server s) es (reserved s) ∧ Reserved Panic ∉ answers.
Proof.
  revert s s' answers. induction es as [|e es IH]; intros s s' answers Hs; cbn [serve].
  { intros [= <- <-]. split; [done|]. split; [done|]. apply not_elem_of_nil. }
  destruct (step e s) as [s1 a] eqn:Hstep, (serve es s1) as [s2 rest] eqn:Hrest. intros [= <- <-].
  assert (H : agree s1 ∧ pool (server s1) = pool (server s) ∧
              reserved s1 = assigned (server s) [e] (reserved s) ∧ a ≠ Reserved Panic).
  { destruct e as [m ip|d]; cbn in Hstep |- *.
    - destruct (reserve m ip s) as [sx r] eqn:Hr. injection Hstep as <- <-.
      apply reserve_does in Hr as (H1 & H2 & H3); [|done].
      destruct (in_pool (server s) ip); destruct H3 as [-> H3]; by rewrite H3 in *.
    - destruct (handle d s) as [sx r] eqn:Hr. injection Hstep as <- <-.
      by apply handle_does in Hr as (H1 & H2 & H3 & _). }
  destruct H as (H1 & H2 & H3 & H4). apply IH in Hrest as (H5 & H6 & H7); [|done]. split; [done|]. split.
  - rewrite H6, H3. unfold assigned, in_pool. cbn. by rewrite H2.
  - intros [?|?]%elem_of_cons; congruence.
Qed.


(** ** The service *)

Context `{S : StartCalls} `{C : MappingCodec}.
Variable bound : result Failure unit.
Variable resolvers : list Z.

(** What runs is in order. *)
Definition in_order (h : Host) : Prop := ∀ s, SERVICE h = Some s → agree s.
Definition orderly {E A} (m : action Host E A) : Prop := ∀ h, in_order h → in_order (m h).1.

Lemma orderly_pure {E A} (r : result E A) : orderly (pure_of r).
Proof. by intros h. Qed.
Lemma orderly_world {A} (m : act A) : orderly (on_world m).
Proof. intros h Hh. unfold on_world. by destruct (m (host_world h)). Qed.
Lemma orderly_bind {E A B} (m : action Host E A) (k : A → action Host E B) :
  orderly m → (∀ a, orderly (k a)) → orderly (abind m k).
Proof.
  intros Hm Hk h Hh. unfold abind. specialize (Hm h Hh). destruct (m h) as [h' [a|e|]]; cbn in *; auto. by apply Hk.
Qed.
Lemma orderly_try {E F A} (m : action Host E A) : orderly m → orderly (E := F) (try_it m).
Proof. intros Hm h Hh. unfold try_it. specialize (Hm h Hh). by destruct (m h) as [h' [a|e|]]. Qed.

Lemma service_reserve_does mac a h h' r :
  in_order h → service_reserve mac a h = (h', r) →
  in_order h' ∧
  (r = Ok tt → ∃ s m ip, SERVICE h' = Some s ∧ agree s ∧ parse_mac mac = Some m ∧
                         parse_ipv4 (ip_address a) = Some ip ∧ reserved s !! m = Some ip).
Proof.
  intros Hh. unfold service_reserve. destruct (SERVICE h) as [s|] eqn:Hs; [|by intros [= <- <-]].
  destruct (parse_mac mac) as [m|] eqn:Hm, (parse_ipv4 (ip_address a)) as [ip|] eqn:Hip; try by intros [= <- <-].
  destruct (reserve m ip s) as [s' r'] eqn:Hr. intros [= <- <-].
  apply reserve_does in Hr as (Hs' & _ & Hr); [|by apply Hh]. split; [by intros ? [= <-]|]. intros ->.
  exists s', m, ip. split_and!; try done. destruct (in_pool (server s) ip); destruct Hr as [Hr He]; [|done].
  rewrite He. apply lookup_insert_eq.
Qed.

Lemma orderly_reserve mac a : orderly (service_reserve mac a).
Proof. intros h Hh. destruct (service_reserve mac a h) as [h' r] eqn:Hr. by apply service_reserve_does in Hr as [? _]. Qed.

Lemma orderly_seed store : orderly (seed store).
Proof.
  assert (Hall : ∀ ms, orderly (seed_all ms)).
  { induction ms as [|m ms IH]; cbn [seed_all]; [apply orderly_pure|]. apply orderly_bind; [|by intros].
    destruct (endpoint_id m) as [e|]; [|apply orderly_pure]. apply orderly_try. unfold seed_one.
    apply orderly_bind; [apply orderly_world|]. intros []; [|apply orderly_pure].
    apply orderly_bind; [apply orderly_world|]. intros [x|]; [|apply orderly_pure].
    apply orderly_bind; [apply orderly_world|]. intros ?. apply orderly_reserve. }
  unfold seed. apply orderly_bind; [apply orderly_try, orderly_world|]. intros [ms|e|]; auto using orderly_pure.
Qed.

(** A start that registered its guest has it served, whichever start was the
    first, and whatever of the recorded VMs could not be seeded. *)
Theorem a_registered_guest_is_served store mac a h h' :
  in_order h → register bound resolvers store mac a h = (h', Ok tt) →
  ∃ s m ip, SERVICE h' = Some s ∧ agree s ∧ parse_mac mac = Some m ∧
            parse_ipv4 (ip_address a) = Some ip ∧ reserved s !! m = Some ip.
Proof.
  intros Hh. unfold register. destruct (SERVICE h) as [s|] eqn:Hs.
  { intros Hr. apply service_reserve_does in Hr as [_ Hr]; [|done]. by apply Hr. }
  destruct (service_start bound resolvers a) as [s|e|] eqn:Hstart; [|done..].
  intros Hr. apply abind_ok in Hr as (h1 & u & Hseed & Hr).
  pose proof (orderly_seed store (mk_host (host_world h) (Some s))) as Ho. rewrite Hseed in Ho. cbn in Ho.
  apply service_reserve_does in Hr as [_ Hr]; [by apply Hr|]. apply Ho. intros s' [= <-].
  unfold service_start in Hstart. destruct (endpoint_subnet a) as [n| |]; [|done..]. cbn in Hstart.
  destruct (gateway n); [|done..]. cbn in Hstart. destruct bound; [|done..]. cbn in Hstart.
  destruct (dhcp_config n _) as [c| |]; [|done..]. injection Hstart as <-. split; cbn; [apply held_new|].
  by intros ? ? ? ?%lookup_empty_Some.
Qed.

End laws.

(** ** Cards *)

Lemma hex_pair b : is_u8 b → u8_from_hex [hex_upper (b / 16); hex_upper (b mod 16)] = Some b.
Proof.
  intros Hb. pose proof (byte_by_computation (λ b,
    bool_decide (u8_from_hex [hex_upper (b / 16); hex_upper (b mod 16)] = Some b))) as H.
  eapply bool_decide_eq_true, H; [vm_compute; reflexivity|done].
Qed.

Lemma hex_pair_plain sep b : is_u8 b → sep = dash ∨ sep = colon_code →
  forallb (λ c, negb (c =? sep)) [hex_upper (b / 16); hex_upper (b mod 16)] = true.
Proof.
  intros Hb Hsep. apply (byte_by_computation (λ b, forallb (λ c, negb (c =? sep)) [hex_upper (b / 16); hex_upper (b mod 16)]));
    [|done]. destruct Hsep as [-> | ->]; vm_compute; reflexivity.
Qed.

Lemma octets_of_dashed b m : Forall is_u8 (b :: m) →
  octets_of (dashed (b :: m)) = map (λ b, [hex_upper (b / 16); hex_upper (b mod 16)]) (b :: m).
Proof.
  revert b. unfold octets_of. induction m as [|c m IH]; intros b [Hb Hm]%list.Forall_cons.
  - change (dashed [b]) with [hex_upper (b / 16); hex_upper (b mod 16)].
    rewrite split_last by (apply hex_pair_plain; auto). cbn [map concat].
    rewrite split_last by (apply hex_pair_plain; auto). done.
  - change (dashed (b :: c :: m)) with ([hex_upper (b / 16); hex_upper (b mod 16)] ++ dash :: dashed (c :: m)).
    rewrite split_no_sep by (apply hex_pair_plain; auto). cbn [map concat].
    rewrite split_last by (apply hex_pair_plain; auto). rewrite (IH c Hm). done.
Qed.

(** A card is read as HNS spells it. *)
Lemma mac_round_trip m : length m = 6%nat → Forall is_u8 m → parse_mac (dashed m) = Some m.
Proof.
  intros Hl Hm. destruct m as [|b m]; [done|]. unfold parse_mac. rewrite octets_of_dashed by done.
  rewrite length_map, Hl. cbn [Nat.eqb]. rewrite take_ge by (rewrite length_map, Hl; done).
  assert (Hread : mapM u8_from_hex (map (λ b, [hex_upper (b / 16); hex_upper (b mod 16)]) (b :: m)) = Some (b :: m)).
  { clear Hl. induction Hm as [|x l Hx Hl IH]; [done|]. cbn [map mapM]. rewrite hex_pair by done. cbn. by rewrite IH. }
  by rewrite Hread.
Qed.

(** ** A server that keeps the laws

    A packet is a card and the address its guest has; a reply is an address. *)

#[export] Instance sample_crate : DhcpCrate := {|
  DhcpServer := (Z * Z) * gmap mac Z;
  DhcpPacket := mac * Z;
  parse d := if (length d =? 10)%nat then Some (take 6 d, from_be (drop 6 d)) else None;
  client_mac p := fst p;
  ciaddr p := snd p;
  server_new c := ((Z.land (server_ip c) (server_mask c) + 1, Z.lor (server_ip c) (U32_MAX - server_mask c) - 1), ∅);
  pool s := s.1;
  reserve_ip s m ip :=
    if (fst s.1 <=? ip) && (ip <=? snd s.1) && bool_decide (s.2 !! m = None) && negb (is_some (holder_of s.2 ip))
    then Some (s.1, <[m := ip]> s.2) else None;
  remove_reservation s m := (s.1, delete m s.2);
  handle_packet s d := (s, Ok ((λ ip, [ip]) <$> s.2 !! take 6 d));
|}.

#[export] Instance sample_crate_laws : DhcpLaws sample_crate.
Proof.
  refine {| held := snd; offered := head |}.
  - done.
  - intros s m ip Hp Hm Hfree. unfold in_pool in Hp. cbn in *. rewrite Hp, bool_decide_true by done.
    destruct (holder_of s.2 ip) as [h|] eqn:Hh; [by apply holder_of_Some, Hfree in Hh|]. cbn. eauto.
  - done.
  - done.
  - intros s d p ip reply a Hp Hheld Hr Ho. cbn in *. destruct (length d =? 10)%nat; [|done].
    injection Hp as <-. cbn in Hheld. rewrite Hheld in Hr. cbn in Hr. injection Hr as <-. by injection Ho as <-.
Defined.

Definition sample_config : DhcpConfig := mk_config (ipv4 172 22 42 1) (netmask 24) (ipv4 172 22 42 1) FALLBACK_DNS LEASE_DURATION.
Definition first_card : mac := [0; 21; 93; 1; 2; 3].
Definition second_card : mac := [0; 21; 93; 1; 2; 4].
(** HNS moves an address from one guest to another. *)
Definition moved : list Event :=
  [Reserve first_card (ipv4 172 22 42 9); Reserve second_card (ipv4 172 22 42 9); Reserve first_card (ipv4 10 0 0 1)].

