(* ===== verification/PayloadFiles.v ===== *)
(** * PayloadFiles: what the payload store does to the disk

    The calls of [std::fs] that crates/payload makes beside those of HostFiles.v,
    on a [Store]: the host, and the counter that makes the names of temporary
    paths unique.  The world has files and directories only, no links and no
    reparse points, which the store refuses where it meets them.

    [spares p m]: an operation leaves the path [p] as it is, whatever its
    outcome; [reads m]: it leaves every path. *)

From stdpp Require Import strings gmap list sets.
From S2P Require Import Prelude Stateful ClipboardPath CoreRequest Layout HostFiles.
#[local] Open Scope Z_scope.

(** ** Digests and failures *)

(** SHA-256, and the lower-case hex of a digest. *)
Class Hash256 := { sha256 : list Z → list Z }.

Abbreviation Sha256Digest := (list Z).
Definition hex_low (n : Z) : Z := if n <? 10 then 48 + n else 87 + n.
Definition as_hex (d : Sha256Digest) : str := concat (map (λ b, [hex_low (b / 16); hex_low (b mod 16)]) d).

Inductive PayloadError : Type :=
| InvalidCatalog | UnsupportedTarget | NoPayloadForGuest (distribution release architecture : str)
| InvalidManifest (subject : str) | UnsafeArchive (name : str) | ArchiveBroken
| ArchiveSizeMismatch (expected actual : Z)
| DigestMismatch (subject : str) (expected actual : Sha256Digest)
| LimitExceeded (subject : string) (limit actual : Z)
| PayloadCancelled | Http
| AlreadyInProgress (p : path)
| ConflictingGeneration (p : path)
| PayloadIo (operation : string) (p : path).

Record Store : Type := mk_store { disk : World; next_operation : N }.
Abbreviation pact := (action Store PayloadError).
Definition tree_of (s : Store) : gmap path node := files (disk s).

Definition on_disk {A} (m : action World PayloadError A) : pact A := λ s,
  let '(w, r) := m (disk s) in (mk_store w (next_operation s), r).
Definition good {A} (a : A) : pact A := pure_of (Ok a).
Definition bad {A} (e : PayloadError) : pact A := pure_of (Err e).
Definition alter_files (f : gmap path node → gmap path node) : pact unit :=
  modify (λ s, mk_store (set_files f (disk s)) (next_operation s)).
Definition fate_of : pact fate := on_disk next_fate.
(** A call of HostFiles.v. *)
Definition as_io {A} (operation : string) (p : path) (m : act A) : pact A :=
  on_disk (map_failure (λ _, PayloadIo operation p) m).
(** [let _ = ...]. *)
Definition ignoring {A} (m : pact A) : pact unit := let^ _ := try_it m in good tt.

Definition check_cancelled : pact unit :=
  let^ c := on_disk is_cancelled in if c : bool then bad PayloadCancelled else good tt.

(** ** Looking *)

Definition path_is_there (p : path) : pact bool := gets (λ s, is_some (tree_of s !! p)).
Definition metadata (operation : string) (p : path) : pact node :=
  let^ f := fate_of in
  let^ found := gets (λ s, tree_of s !! p) in
  match f, found with Works, Some n => good n | _, _ => bad (PayloadIo operation p) end.
Definition require_regular_file (refusal : PayloadError) (operation : string) (p : path) : pact Z :=
  let^ n := metadata operation p in
  match n with Some contents => good (zlen contents) | None => bad refusal end.
Definition require_directory (refusal : PayloadError) (operation : string) (p : path) : pact unit :=
  let^ n := metadata operation p in
  match n with Some _ => bad refusal | None => good tt end.
Definition read_all (operation : string) (p : path) : pact (list Z) :=
  let^ n := metadata operation p in
  match n with Some contents => good contents | None => bad (PayloadIo operation p) end.

(** The names in a directory, in no order of the program's. *)
Definition names_in (fs : gmap path node) (d : path) : list str :=
  omap (λ kv, if under d kv.1 then match drop (length d) kv.1 with [c] => Some c | _ => None end else None)
    (map_to_list fs).
Definition read_dir (operation : string) (d : path) : pact (list str) :=
  let^ f := fate_of in
  let^ there := gets (λ s, is_directory (tree_of s) d) in
  match f, there with
  | Works, true => gets (λ s, names_in (tree_of s) d)
  | _, _ => bad (PayloadIo operation d)
  end.

(** A file is hashed in pieces, with a look at the cancellation before each. *)
Definition HASH_BUFFER_SIZE : Z := 65536.
Fixpoint looks (n : nat) : pact unit :=
  match n with O => good tt | S n => let^ _ := check_cancelled in looks n end.
Definition hash_file `{Hash256} (operation : string) (p : path) : pact Sha256Digest :=
  let^ contents := read_all operation p in
  let^ _ := looks (S (Z.to_nat (div_ceil (zlen contents) HASH_BUFFER_SIZE))) in
  good (sha256 contents).

(** ** Changing *)

Definition make_dirs (operation : string) (p : path) : pact unit := as_io operation p (create_dir_all p).

(** [fs::create_dir]; [false] is [ErrorKind::AlreadyExists]. *)
Definition create_dir (operation : string) (p : path) : pact bool :=
  let^ f := fate_of in
  let^ found := gets (λ s, tree_of s !! p) in
  let^ parent_there := gets (λ s, is_directory (tree_of s) (parent p)) in
  match found, f, parent_there with
  | Some _, _, _ => good false
  | None, Works, true => let^ _ := alter_files <[p := None]> in good true
  | None, _, _ => bad (PayloadIo operation p)
  end.

(** [File::options().write(true).create_new(true)]. *)
Definition create_new (operation : string) (p : path) : pact unit :=
  let^ f := fate_of in
  let^ found := gets (λ s, tree_of s !! p) in
  let^ parent_there := gets (λ s, is_directory (tree_of s) (parent p)) in
  match found, f, parent_there with
  | None, Works, true => alter_files <[p := Some []]>
  | _, _, _ => bad (PayloadIo operation p)
  end.
(** [write_all], which may stop part of the way. *)
Definition write_all (operation : string) (p : path) (bytes : list Z) : pact unit :=
  let^ f := fate_of in
  let^ found := gets (λ s, tree_of s !! p) in
  match found, f with
  | Some (Some old), Works => alter_files <[p := Some (old ++ bytes)]>
  | Some (Some old), Fails n _ =>
      let^ _ := alter_files <[p := Some (old ++ take n bytes)]> in bad (PayloadIo operation p)
  | _, _ => bad (PayloadIo operation p)
  end.
Definition sync_all (operation : string) (p : path) : pact unit :=
  let^ f := fate_of in match f with Works => good tt | _ => bad (PayloadIo operation p) end.
Definition write_new_file (operation flushing : string) (p : path) (bytes : list Z) : pact unit :=
  let^ _ := create_new operation p in
  let^ _ := write_all operation p bytes in
  sync_all flushing p.

(** [fs::hard_link], and [fs::copy] when it fails.  A link shares its contents with
    the source; nothing here writes into a file that has a name. *)
Definition link_or_copy (operation : string) (source target : path) : pact unit :=
  let^ f := fate_of in
  let^ contents := gets (λ s, match tree_of s !! source with Some (Some c) => Some c | _ => None end) in
  let^ free := gets (λ s, negb (is_some (tree_of s !! target)) && is_directory (tree_of s) (parent target)) in
  match f, contents, free with
  | Works, Some c, true => alter_files <[target := Some c]>
  | _, _, _ =>
      let^ contents := as_io operation target (read_to_string operation source) in
      match contents with
      | Some c => as_io operation target (write_file operation target c)
      | None => bad (PayloadIo operation target)
      end
  end.

(** [fs::rename] of a file, which replaces a file in its place. *)
Definition rename_file (operation : string) (source target : path) : pact unit :=
  let^ f := fate_of in
  let^ found := gets (λ s, match tree_of s !! source with Some (Some c) => Some c | _ => None end) in
  let^ ok := gets (λ s, writable (tree_of s) target) in
  match f, found, ok with
  | Works, Some c, true => alter_files (λ fs, <[target := Some c]> (delete source fs))
  | _, _, _ => bad (PayloadIo operation target)
  end.

(** A file or a directory with all it holds, under another name. *)
Definition moved_key (source target k : path) : path :=
  if under source k then target ++ drop (length source) k else k.
Definition move (source target : path) (fs : gmap path node) : gmap path node :=
  list_to_map ((λ kv, (moved_key source target kv.1, kv.2)) <$> map_to_list fs).

(** [rename_noreplace]: why it did not is the kind of the error. *)
Inductive RenameOutcome : Type := Renamed | AlreadyExists | NotFound | Refused.
Definition rename_noreplace (source target : path) : pact RenameOutcome :=
  let^ f := fate_of in
  let^ taken := path_is_there target in
  let^ there := path_is_there source in
  let^ ok := gets (λ s, is_directory (tree_of s) (parent target) && negb (under source target)) in
  if taken : bool then good AlreadyExists
  else if negb there then good NotFound
  else match f, ok with
       | Works, true => let^ _ := alter_files (move source target) in good Renamed
       | _, _ => good Refused
       end.

Definition remove_empty_dir (p : path) : pact unit :=
  let^ f := fate_of in
  let^ ok := gets (λ s, is_directory (tree_of s) p && match names_in (tree_of s) p with [] => true | _ => false end) in
  match f, ok with Works, true => alter_files (delete p) | _, _ => bad (PayloadIo "remove directory" p) end.

(** Dropping an armed [OperationPath]. *)
Definition discard (p : path) : pact unit :=
  let^ found := gets (λ s, tree_of s !! p) in
  match found with
  | Some None => ignoring (as_io "remove" p (remove_dir_all p))
  | Some (Some _) => ignoring (as_io "remove" p (remove_file p))
  | None => good tt
  end.
Fixpoint discard_all (ps : list path) : pact unit :=
  match ps with [] => good tt | p :: ps => let^ _ := discard p in discard_all ps end.

(** What runs when a scope ends, however it ends. *)
Definition finally {A} (m : pact A) (k : pact unit) : pact A := λ s,
  let '(s1, r) := m s in ((k s1).1, r).

Definition take_number : pact N := λ s, (mk_store (disk s) (N.succ (next_operation s)), Ok (next_operation s)).

(** ** What an operation leaves alone *)

Definition spares {A} (p : path) (m : pact A) : Prop := ∀ s, tree_of (m s).1 !! p = tree_of s !! p.
Definition reads {A} (m : pact A) : Prop := ∀ s, tree_of (m s).1 = tree_of s.

Section spares.
Context {A B : Type} (p : path).

Lemma spares_ret (r : result PayloadError A) : spares p (pure_of r).
Proof. done. Qed.
Lemma spares_gets (f : Store → A) : spares p (gets f).
Proof. done. Qed.
Lemma spares_reads (m : pact A) : reads m → spares p m.
Proof. intros Hm s. by rewrite Hm. Qed.
Lemma spares_then (m : pact A) (k : A → pact B) : spares p m → (∀ a, spares p (k a)) → spares p (abind m k).
Proof.
  intros Hm Hk s. unfold abind. specialize (Hm s). destruct (m s) as [s1 [a|e|]]; cbn in *; [|done..].
  rewrite <- Hm. apply Hk.
Qed.
Lemma spares_attempt (m : pact A) : spares p m → spares p (try_it (F := PayloadError) m).
Proof. intros Hm s. unfold try_it. specialize (Hm s). by destruct (m s) as [s1 [a|e|]]. Qed.
Lemma spares_finally (m : pact A) k : spares p m → spares p k → spares p (finally m k).
Proof. intros Hm Hk s. unfold finally. specialize (Hm s). destruct (m s) as [s1 r]. cbn in *. by rewrite Hk. Qed.
Lemma spares_host (P : path → Prop) (m : action World PayloadError A) :
  stays P nobody nobody m → ¬ P p → spares p (on_disk m).
Proof.
  intros Hm Hp s. unfold on_disk. destruct (Hm (disk s)) as [F _ _]. destruct (m (disk s)) as [w r]. by apply F.
Qed.
Lemma spares_alter f : (∀ fs, f fs !! p = fs !! p) → spares p (alter_files f).
Proof. intros Hf s. apply Hf. Qed.

End spares.

Lemma reads_pure {A} (r : result PayloadError A) : reads (pure_of r).
Proof. done. Qed.
Lemma reads_gets {A} (f : Store → A) : reads (gets f).
Proof. done. Qed.
Lemma reads_bind {A B} (m : pact A) (k : A → pact B) : reads m → (∀ a, reads (k a)) → reads (abind m k).
Proof.
  intros Hm Hk s. unfold abind. specialize (Hm s). destruct (m s) as [s1 [a|e|]]; cbn in *; [|done..].
  by rewrite Hk.
Qed.
Lemma reads_try {A} (m : pact A) : reads m → reads (try_it (F := PayloadError) m).
Proof. intros Hm s. unfold try_it. specialize (Hm s). by destruct (m s) as [s1 [a|e|]]. Qed.
Lemma reads_fate : reads fate_of.
Proof. intros s. unfold fate_of, on_disk, next_fate, tree_of. by destruct (fates (disk s)). Qed.
Lemma reads_cancelled : reads check_cancelled.
Proof.
  apply reads_bind; [|by intros []]. intros s. unfold on_disk, is_cancelled, tree_of.
  by destruct (cancel_after (disk s)) as [[|n]|].
Qed.
Lemma reads_number : reads take_number.
Proof. done. Qed.

Lemma reads_good {A} (a : A) : reads (good a).
Proof. done. Qed.
Lemma reads_bad {A} e : reads (A := A) (bad e).
Proof. done. Qed.

Create HintDb store.
#[export] Hint Resolve reads_good reads_bad reads_pure reads_gets reads_fate reads_cancelled reads_number : store.

Ltac reading :=
  repeat match goal with
  | |- reads (abind _ _) => apply reads_bind; [|intros ?]
  | |- reads (try_it _) => apply reads_try
  | |- reads (match ?x with _ => _ end) => destruct x
  | |- reads (match ?x with _ => _ end _) => destruct x
  | |- reads _ => solve [eauto with store]
  end.

Lemma reads_metadata op p : reads (metadata op p).
Proof. unfold metadata. reading. Qed.
#[export] Hint Resolve reads_metadata : store.
Lemma reads_require_file e op p : reads (require_regular_file e op p).
Proof. unfold require_regular_file. reading. Qed.
Lemma reads_require_directory e op p : reads (require_directory e op p).
Proof. unfold require_directory. reading. Qed.
Lemma reads_all op p : reads (read_all op p).
Proof. unfold read_all. reading. Qed.
Lemma reads_dir op p : reads (read_dir op p).
Proof. unfold read_dir. reading. Qed.
Lemma reads_there p : reads (path_is_there p).
Proof. done. Qed.
Lemma reads_looks n : reads (looks n).
Proof. induction n; cbn [looks]; reading. Qed.
#[export] Hint Resolve reads_require_file reads_require_directory reads_all reads_dir reads_there reads_looks : store.
Lemma reads_hash `{Hash256} op p : reads (hash_file op p).
Proof. unfold hash_file. reading. Qed.
Lemma reads_sync op p : reads (sync_all op p).
Proof. unfold sync_all. reading. Qed.
#[export] Hint Resolve reads_hash reads_sync : store.

Lemma spares_ignoring {A} p (m : pact A) : spares p m → spares p (ignoring m).
Proof. intros Hm. unfold ignoring. apply spares_then; [by apply spares_attempt|]. by intros ? ?. Qed.
Lemma spares_as_io {A} p (P : path → Prop) op q (m : act A) : stays P nobody nobody m → ¬ P p → spares p (as_io op q m).
Proof.
  intros Hm Hp. apply (spares_host p P); [|done]. intros w. unfold map_failure. specialize (Hm w). by destruct (m w).
Qed.

(** [sparing]: a step at a time; what each changing call needs is left. *)
Ltac sparing :=
  repeat match goal with
  | |- spares _ (abind _ _) => apply spares_then; [|intros ?]
  | |- spares _ (try_it _) => apply spares_attempt
  | |- spares _ (ignoring _) => apply spares_ignoring
  | |- spares _ (finally _ _) => apply spares_finally
  | |- spares _ (alter_files _) => apply spares_alter; intros ?
  | |- spares _ (match ?x with _ => _ end) => destruct x
  | |- spares _ (match ?x with _ => _ end _) => destruct x
  | |- spares _ (match ?x with _ => _ end _ _) => destruct x
  | |- spares _ _ => solve [apply spares_reads; reading | eauto with store]
  end.

Section calls.
Context (q : path).

Lemma spares_make_dirs op p : q ∉ ways_to p → spares q (make_dirs op p).
Proof. intros Hq. apply (spares_as_io q (on (ways_to p))); [by apply stays_create_dir_all|done]. Qed.
Lemma as_io_tree {A} op p (m : act A) s : tree_of (as_io op p m s).1 = files (m (disk s)).1.
Proof. unfold as_io, on_disk, map_failure, tree_of. by destruct (m (disk s)). Qed.

(** Making directories keeps what is there. *)
Lemma make_dirs_keeps op p s : is_some (tree_of s !! q) = true → tree_of (make_dirs op p s).1 !! q = tree_of s !! q.
Proof.
  intros Hq. unfold make_dirs. rewrite as_io_tree. destruct (create_dir_all_files p (disk s)) as (todo & _ & ->).
  by apply make_directories_keeps.
Qed.

Lemma spares_create_dir op p : q ≠ p → spares q (create_dir op p).
Proof. intros Hq. unfold create_dir. sparing. by rewrite lookup_insert_ne. Qed.
Lemma spares_create_new op p : q ≠ p → spares q (create_new op p).
Proof. intros Hq. unfold create_new. sparing. by rewrite lookup_insert_ne. Qed.
Lemma spares_write_all op p bytes : q ≠ p → spares q (write_all op p bytes).
Proof. intros Hq. unfold write_all. sparing; by rewrite lookup_insert_ne. Qed.
Lemma spares_write_new op fl p bytes : q ≠ p → spares q (write_new_file op fl p bytes).
Proof. intros Hq. unfold write_new_file. sparing; by first [apply spares_create_new|apply spares_write_all]. Qed.
Lemma spares_link op a b : q ≠ b → spares q (link_or_copy op a b).
Proof.
  intros Hq. unfold link_or_copy. sparing; try by rewrite lookup_insert_ne.
  all: first
    [ apply (spares_as_io q nobody); [apply stays_read_to_string|by intros []]
    | apply (spares_as_io q (eq b)); [by apply stays_write_file|congruence] ].
Qed.
Lemma spares_rename op a b : q ≠ a → q ≠ b → spares q (rename_file op a b).
Proof. intros Ha Hb. unfold rename_file. sparing. by rewrite lookup_insert_ne, lookup_delete_ne. Qed.
Lemma spares_remove_empty p : q ≠ p → spares q (remove_empty_dir p).
Proof. intros Hq. unfold remove_empty_dir. sparing. by rewrite lookup_delete_ne. Qed.
Lemma spares_discard p : under p q = false → spares q (discard p).
Proof.
  intros Hq. unfold discard. sparing.
  - apply (spares_as_io q (eq p)); [by apply stays_remove_file|]. intros ->. by rewrite under_refl in Hq.
  - apply (spares_as_io q (within p)); [by apply stays_remove_dir_all|]. unfold within. by rewrite Hq.
Qed.

End calls.

(** ** What the changing calls come to *)

Lemma fate_of_tree s : ∃ f s', fate_of s = (s', Ok f) ∧ tree_of s' = tree_of s.
Proof. unfold fate_of, on_disk, next_fate, tree_of. destruct (fates (disk s)) as [|f rest]; by eexists _, _. Qed.

(** [drawing s]: how the next call goes, without a look at the list of fates. *)
Tactic Notation "drawing" constr(s) "as" ident(f) ident(s1) ident(H) :=
  let E := fresh in destruct (fate_of_tree s) as (f & s1 & E & H); rewrite E; clear E.

Section outcomes.
Context {A : Type}.

Lemma as_io_ok op p (m : act A) s s' a :
  as_io op p m s = (s', Ok a) → m (disk s) = (disk s', Ok a) ∧ next_operation s' = next_operation s.
Proof.
  unfold as_io, on_disk, map_failure. destruct (m (disk s)) as [w [x|e|]]; cbn; [|done..]. by intros [= <- ->].
Qed.

End outcomes.

Lemma link_or_copy_ok op a b s s' :
  link_or_copy op a b s = (s', Ok tt) →
  ∃ c, tree_of s !! a = Some (Some c) ∧ tree_of s' = <[b := Some c]> (tree_of s).
Proof.
  assert (Hcopy : ∀ s1, tree_of s1 = tree_of s →
    (let^ contents := as_io op b (read_to_string op a) in
     match contents with Some c => as_io op b (write_file op b c) | None => bad (PayloadIo op b) end) s1 = (s', Ok tt) →
    ∃ c, tree_of s !! a = Some (Some c) ∧ tree_of s' = <[b := Some c]> (tree_of s)).
  { intros s1 Hs1 H. act_ok H as [c|], Hr; [|done]. apply as_io_ok in Hr as [Hr _].
    apply read_to_string_ok in Hr as [Hf Hc]. apply as_io_ok in H as [H _]. apply write_file_ok in H.
    exists c. unfold tree_of in *. by rewrite <- Hs1, H, Hf. }
  unfold link_or_copy, abind at 1. drawing s as f s1 Hs1. unfold abind at 1 2, gets at 1 2. rewrite Hs1.
  destruct f as [|n sp]; [|by apply Hcopy].
  destruct (tree_of s !! a) as [[c|]|] eqn:Ha; [|by apply Hcopy..].
  destruct (_ && _) in |- *; [|by apply Hcopy]. intros [= <-]. exists c. by rewrite <- Hs1.
Qed.

Lemma rename_file_does op a b s s' r :
  rename_file op a b s = (s', r) →
  (r = Ok tt ∧ ∃ c, tree_of s !! a = Some (Some c) ∧ tree_of s' = <[b := Some c]> (delete a (tree_of s))) ∨
  (r = Err (PayloadIo op b) ∧ tree_of s' = tree_of s).
Proof.
  unfold rename_file, abind at 1. drawing s as f s1 Hs1. unfold abind, gets. rewrite Hs1.
  destruct f as [|n sp]; [|by intros [= <- <-]; right].
  destruct (tree_of s !! a) as [[c|]|] eqn:Ha; [|by intros [= <- <-]; right..].
  destruct (writable _ _); [|by intros [= <- <-]; right]. intros [= <- <-]. left. split; [done|]. exists c.
  split; [done|]. by rewrite <- Hs1.
Qed.

Lemma reads_run {A} (m : pact A) s s' r : reads m → m s = (s', r) → tree_of s' = tree_of s.
Proof. intros Hm H. specialize (Hm s). by rewrite H in Hm. Qed.
Lemma spares_run {A} p (m : pact A) s s' r : spares p m → m s = (s', r) → tree_of s' !! p = tree_of s !! p.
Proof. intros Hm H. specialize (Hm s). by rewrite H in Hm. Qed.

Lemma require_file_ok e op p s s' n :
  require_regular_file e op p s = (s', Ok n) → ∃ c, tree_of s !! p = Some (Some c) ∧ n = zlen c.
Proof.
  unfold require_regular_file, metadata, abind at 1 2. drawing s as f s1 Hs1. unfold abind, gets. rewrite Hs1.
  destruct f as [|m sp]; [|done]. destruct (tree_of s !! p) as [[c|]|]; [|done..]. intros [= <- <-]. by exists c.
Qed.

(** ** What an operation keeps, and that it does not panic *)

(** Where [q] is [v], it stays so. *)
Definition keeps {A} (q : path) (v : option node) (m : pact A) : Prop :=
  ∀ s, tree_of s !! q = v → tree_of (m s).1 !! q = v.

Lemma keeps_spares {A} q v (m : pact A) : spares q m → keeps q v m.
Proof. intros Hm s <-. apply Hm. Qed.
Lemma keeps_then {A B} q v (m : pact A) (k : A → pact B) : keeps q v m → (∀ a, keeps q v (k a)) → keeps q v (abind m k).
Proof.
  intros Hm Hk s Hs. unfold abind. specialize (Hm s Hs). destruct (m s) as [s1 [a|e|]]; cbn in *; [|done..]. by apply Hk.
Qed.
Lemma keeps_make_dirs q v op p : (q ∈ ways_to p → is_some v = true) → keeps q v (make_dirs op p).
Proof.
  intros Hq s Hs. destruct (decide (q ∈ ways_to p)) as [Hin|Hin].
  - rewrite make_dirs_keeps; [done|]. rewrite Hs. auto.
  - by rewrite spares_make_dirs.
Qed.

Definition calm {A} (m : pact A) : Prop := ∀ s, (m s).2 ≠ Panic.

Lemma calm_then {A B} (m : pact A) (k : A → pact B) : calm m → (∀ a, calm (k a)) → calm (abind m k).
Proof. intros Hm Hk s. unfold abind. specialize (Hm s). destruct (m s) as [s1 [a|e|]]; cbn in *; [apply Hk|done..]. Qed.
Lemma calm_attempt {A} (m : pact A) : calm m → calm (try_it (F := PayloadError) m).
Proof. intros Hm s. unfold try_it. specialize (Hm s). by destruct (m s) as [s1 [a|e|]]. Qed.
Lemma calm_ignoring {A} (m : pact A) : calm m → calm (ignoring m).
Proof. intros Hm. apply calm_then; [by apply calm_attempt|]. by intros ? ?. Qed.
Lemma calm_finally {A} (m : pact A) k : calm m → calm (finally m k).
Proof. intros Hm s. unfold finally. specialize (Hm s). by destruct (m s). Qed.
Lemma calm_good {A} (a : A) : calm (good a).
Proof. done. Qed.
Lemma calm_bad {A} e : calm (A := A) (bad e).
Proof. done. Qed.
Lemma calm_gets {A} (f : Store → A) : calm (gets f).
Proof. done. Qed.
Lemma calm_alter f : calm (alter_files f).
Proof. done. Qed.
Lemma calm_fate : calm fate_of.
Proof. intros s. destruct (fate_of_tree s) as (f & s1 & -> & _). done. Qed.
Lemma calm_cancelled : calm check_cancelled.
Proof.
  apply calm_then; [|by intros []]. intros s. unfold on_disk, is_cancelled.
  by destruct (cancel_after (disk s)) as [[|n]|].
Qed.
Lemma calm_number : calm take_number.
Proof. done. Qed.

(** The calls of HostFiles.v. *)
Definition calm_act {A} (m : act A) : Prop := ∀ w, (m w).2 ≠ Panic.
Lemma calm_as_io {A} op p (m : act A) : calm_act m → calm (as_io op p m).
Proof. intros Hm s. unfold as_io, on_disk, map_failure. specialize (Hm (disk s)). by destruct (m (disk s)) as [w [a|e|]]. Qed.
Ltac calm_call :=
  intros w; unfold create_dir_all, read_to_string, write_file, remove_file, remove_dir_all, is_file, abind, next_fate, gets, modify, fail, ret, pure_of;
  destruct (fates w) as [|[|[|?] ?] ?]; cbn -[ways_to]; repeat case_match; try done; simplify_eq/=.
Lemma calm_create_dir_all p : calm_act (create_dir_all p).
Proof. calm_call. Qed.
Lemma calm_read_to_string op p : calm_act (read_to_string op p).
Proof. calm_call. Qed.
Lemma calm_write_file op p c : calm_act (write_file op p c).
Proof. calm_call. Qed.
Lemma calm_remove_file p : calm_act (remove_file p).
Proof. calm_call. Qed.
Lemma calm_remove_dir_all p : calm_act (remove_dir_all p).
Proof. calm_call. Qed.
#[export] Hint Resolve calm_good calm_bad calm_gets calm_alter calm_fate calm_cancelled calm_number calm_as_io
  calm_create_dir_all calm_read_to_string calm_write_file calm_remove_file calm_remove_dir_all : store.

Ltac calming :=
  repeat match goal with
  | |- calm (abind _ _) => apply calm_then; [|intros ?]
  | |- calm (try_it _) => apply calm_attempt
  | |- calm (ignoring _) => apply calm_ignoring
  | |- calm (finally _ _) => apply calm_finally
  | |- calm (match ?x with _ => _ end) => destruct x
  | |- calm (match ?x with _ => _ end _) => destruct x
  | |- calm (match ?x with _ => _ end _ _) => destruct x
  | |- calm _ => solve [eauto with store]
  end.

Lemma calm_metadata op p : calm (metadata op p).
Proof. unfold metadata. calming. Qed.
#[export] Hint Resolve calm_metadata : store.
Lemma calm_require_file e op p : calm (require_regular_file e op p).
Proof. unfold require_regular_file. calming. Qed.
Lemma calm_require_directory e op p : calm (require_directory e op p).
Proof. unfold require_directory. calming. Qed.
Lemma calm_read_all op p : calm (read_all op p).
Proof. unfold read_all. calming. Qed.
Lemma calm_read_dir op p : calm (read_dir op p).
Proof. unfold read_dir. calming. Qed.
Lemma calm_looks n : calm (looks n).
Proof. induction n; cbn [looks]; calming. Qed.
#[export] Hint Resolve calm_require_file calm_require_directory calm_read_all calm_read_dir calm_looks : store.
Lemma calm_hash `{Hash256} op p : calm (hash_file op p).
Proof. unfold hash_file. calming. Qed.
Lemma calm_make_dirs op p : calm (make_dirs op p).
Proof. unfold make_dirs. calming. Qed.
Lemma calm_create_dir op p : calm (create_dir op p).
Proof. unfold create_dir. calming. Qed.
Lemma calm_write_new op fl p bytes : calm (write_new_file op fl p bytes).
Proof. unfold write_new_file, create_new, write_all, sync_all. calming. Qed.
Lemma calm_link op a b : calm (link_or_copy op a b).
Proof. unfold link_or_copy. calming. Qed.
Lemma calm_rename op a b : calm (rename_file op a b).
Proof. unfold rename_file. calming. Qed.
Lemma calm_rename_noreplace a b : calm (rename_noreplace a b).
Proof. unfold rename_noreplace, path_is_there. calming. Qed.
Lemma calm_remove_empty p : calm (remove_empty_dir p).
Proof. unfold remove_empty_dir. calming. Qed.
Lemma calm_discard p : calm (discard p).
Proof. unfold discard. calming. Qed.
#[export] Hint Resolve calm_hash calm_make_dirs calm_create_dir calm_write_new calm_link calm_rename
  calm_rename_noreplace calm_remove_empty calm_discard : store.

Ltac keeping :=
  repeat match goal with
  | |- keeps _ _ (abind _ _) => apply keeps_then; [|intros ?]
  | |- keeps _ _ (make_dirs _ _) => apply keeps_make_dirs
  | |- keeps _ _ (match ?x with _ => _ end) => destruct x
  | |- keeps _ _ _ => apply keeps_spares; solve [sparing; eauto with store]
  end.

Lemma abind_cases {S E A B} (m : action S E A) (k : A → action S E B) s s' r :
  abind m k s = (s', r) →
  (∃ s1 a, m s = (s1, Ok a) ∧ k a s1 = (s', r)) ∨ (∃ e, m s = (s', Err e) ∧ r = Err e) ∨ (m s = (s', Panic) ∧ r = Panic).
Proof. unfold abind. destruct (m s) as [s1 [a|e|]]; intros H; [eauto|injection H as <- <-; eauto..]. Qed.

Lemma keeps_run {A} q v (m : pact A) s s' r : keeps q v m → tree_of s !! q = v → m s = (s', r) → tree_of s' !! q = v.
Proof. intros Hm Hs H. specialize (Hm s Hs). by rewrite H in Hm. Qed.

Lemma read_all_ok op p s s' c : read_all op p s = (s', Ok c) → tree_of s !! p = Some (Some c).
Proof.
  unfold read_all, metadata, abind at 1 2. drawing s as f s1 Hs1. unfold abind, gets. rewrite Hs1.
  destruct f as [|m sp]; [|done]. destruct (tree_of s !! p) as [[c'|]|]; [|done..]. by intros [= <- <-].
Qed.
Lemma hash_file_ok `{Hash256} op p s s' d :
  hash_file op p s = (s', Ok d) → ∃ c, tree_of s !! p = Some (Some c) ∧ d = sha256 c.
Proof.
  unfold hash_file. intros E. apply abind_ok in E as (s1 & c & Hc & E). apply read_all_ok in Hc.
  apply abind_ok in E as (s2 & u & _ & E). injection E as _ <-. by exists c.
Qed.
