(* ===== verification/PayloadKind.v ===== *)
(** * PayloadKind: where the payload store meets a kind of payload

    crates/payload: entry.rs, prepared.rs, marker.rs.  A kind of payload is an
    instance of [PayloadEntry], the trait of the same name; what the store relies
    on of its documents is [PayloadEntryLaws], which the display payload's instance
    discharges (DisplayPayload.v). *)

From stdpp Require Import strings list sets.
From S2P Require Import Prelude Stateful ClipboardPath CoreRequest Layout HostFiles PayloadFiles.
#[local] Open Scope Z_scope.

Record PreparedFile : Type := mk_prepared { prepared_path : str; prepared_size : Z; prepared_sha256 : Sha256Digest }.

Definition validate_path (p : str) : result PayloadError unit :=
  let parts := split slash p in
  if match p with [] => true | _ => false end
     || bool_decide (backslash ∈ p) || bool_decide (0 ∈ p)
     || match p with c :: _ => c =? slash | [] => false end
     || existsb (λ part, match part with [] => true | _ => false end || str_eqb part (text ".") || str_eqb part (text "..")) parts
     || str_eqb p (text "payload.json")
  then Err (InvalidManifest p) else Ok tt.

(** [PathBuf::from] of a path that was let through: its components. *)
Definition relative (p : str) : path := split slash p.

Class PayloadEntry := {
  Entry : Type;
  Manifest : Type;
  Sources : Type;
  NAMESPACE : str;
  payload_id : Entry → str;
  archive_sha256 : Entry → Sha256Digest;
  payload_manifest_sha256 : Entry → Sha256Digest;
  expanded_size_limit : Entry → Z;
  file_count_limit : Entry → Z;
  from_json : list Z → result PayloadError Entry;
  parse_manifest : Entry → list Z → result PayloadError Manifest;
  parse_sources : Entry → list Z → result PayloadError Sources;
  manifest_files : Manifest → list PreparedFile;
  validate_prepared_files : Sources → Manifest → result PayloadError unit;
  (** What serde makes of the record [cache_provenance] writes. *)
  provenance_json : Entry → Sources → result PayloadError (list Z);
  (** A [ReadyMarker] and back. *)
  marker_json : str → Sha256Digest → Sha256Digest → result PayloadError (list Z);
  marker_of_json : list Z → option (Z * str * Sha256Digest * Sha256Digest);
}.

(** The files of a manifest that was let through. *)
Definition proper_files (fs : list PreparedFile) : Prop :=
  Forall (λ f, validate_path (prepared_path f) = Ok tt) fs ∧
  NoDup (map prepared_path fs) ∧ text "sources.json" ∈ map prepared_path fs ∧
  Forall (λ f, 0 <= prepared_size f) fs.

Class PayloadEntryLaws (K : PayloadEntry) : Prop := {
  parsed_is_proper e bytes m : parse_manifest e bytes = Ok m → proper_files (manifest_files m);
  (** None of it panics. *)
  from_json_ends bytes : from_json bytes ≠ Panic;
  parse_manifest_ends e bytes : parse_manifest e bytes ≠ Panic;
  parse_sources_ends e bytes : parse_sources e bytes ≠ Panic;
  validate_prepared_ends s m : validate_prepared_files s m ≠ Panic;
  provenance_ends e s : provenance_json e s ≠ Panic;
  marker_ends id g m : marker_json id g m ≠ Panic;
}.

(** A marker that was written is read as what was written. *)
Class MarkerLaws (K : PayloadEntry) : Prop :=
  marker_comes_back id g m bytes : marker_json id g m = Ok bytes → marker_of_json (bytes ++ [10]) = Some (1, id, g, m).

Section marker.
Context `{K : PayloadEntry}.

(** [cache_provenance] and [ReadyMarker::to_json_bytes]: the record and a line feed. *)
Definition cache_provenance (e : Entry) (sources : Sources) : result PayloadError (list Z) :=
  let? bytes := provenance_json e sources in Ok (bytes ++ [10]).
Definition marker_bytes (id : str) (generation manifest : Sha256Digest) : result PayloadError (list Z) :=
  let? bytes := marker_json id generation manifest in Ok (bytes ++ [10]).

End marker.

(** ** Paths that were let through *)

Lemma validate_path_inv p :
  validate_path p = Ok tt →
  p ≠ text "payload.json" ∧ Forall (λ part, part ≠ [] ∧ part ≠ text "." ∧ part ≠ text "..") (relative p).
Proof.
  unfold validate_path, relative. case_match eqn:Hc; [done|]. intros _.
  apply orb_false_iff in Hc as [Hc Hp]. apply orb_false_iff in Hc as [_ Hparts]. split.
  - intros ->. by rewrite (proj2 (str_eqb_spec _ _) eq_refl) in Hp.
  - apply list.Forall_forall. intros part Hin. rewrite <- not_true_iff_false, existsb_exists in Hparts.
    assert (Hb : ∀ b : bool, b = true → ¬ (match part with [] => true | _ => false end || str_eqb part (text ".") ||
                       str_eqb part (text "..")) = b).
    { intros b -> Hb. apply Hparts. exists part. split; [by apply list_elem_of_In|done]. }
    specialize (Hb true eq_refl). apply not_true_iff_false in Hb.
    apply orb_false_iff in Hb as [Hb H3]. apply orb_false_iff in Hb as [H1 H2].
    split_and!; intros ->; [done|..]; by rewrite (proj2 (str_eqb_spec _ _) eq_refl) in *.
Qed.

Lemma split_not_nil sep s : split sep s ≠ [].
Proof. destruct s; cbn; [done|]. case_match; [done|]. by destruct (split sep s). Qed.

Lemma split_inj sep s t : split sep s = split sep t → s = t.
Proof.
  revert t. induction s as [|c s IH]; intros [|d t]; cbn.
  - done.
  - destruct (d =? sep); [intros [= H]; by symmetry in H; apply (split_not_nil sep t) in H|].
    pose proof (split_not_nil sep t). by destruct (split sep t).
  - destruct (c =? sep); [intros [= H]; by apply (split_not_nil sep s) in H|].
    pose proof (split_not_nil sep s). by destruct (split sep s).
  - destruct (Z.eqb_spec c sep) as [->|Hc], (Z.eqb_spec d sep) as [->|Hd].
    + intros [= H]. f_equal. by apply IH.
    + pose proof (split_not_nil sep t). destruct (split sep t); [done|]. by intros [=].
    + pose proof (split_not_nil sep s). destruct (split sep s); [done|]. by intros [=].
    + pose proof (split_not_nil sep s). pose proof (split_not_nil sep t).
      destruct (split sep s) eqn:Es, (split sep t) eqn:Et; try done. intros [= -> -> ->]. f_equal. apply IH. congruence.
Qed.

(** ** The smallest kind, for the witnesses

    After test_kind.rs: one document with two files. *)
Module SampleKind.

#[export] Instance sample_hash : Hash256 := {| sha256 bytes := [zlen bytes mod 256; foldr Z.add 0 bytes mod 256] |}.

Definition document : list Z := text "{the manifest}".
Definition sources_document : list Z := text "{}".
Definition kernel : list Z := text "module".
Definition sample_files : list PreparedFile :=
  [ mk_prepared (text "content/kbuild") (zlen kernel) (sha256 kernel);
    mk_prepared (text "sources.json") (zlen sources_document) (sha256 sources_document) ].

Record TestEntry : Type := mk_test { test_archive : Sha256Digest; test_size : Z; test_count : Z }.

#[export] Instance sample_kind : PayloadEntry := {|
  Entry := TestEntry; Manifest := list PreparedFile; Sources := unit;
  NAMESPACE := text "test-payload"; payload_id _ := text "test";
  archive_sha256 := test_archive; payload_manifest_sha256 _ := sha256 document;
  expanded_size_limit := test_size; file_count_limit := test_count;
  from_json bytes :=
    match bytes with a :: size :: count :: rest => Ok (mk_test [a] size count) | _ => Err InvalidCatalog end;
  parse_manifest _ bytes := if bool_decide (bytes = document) then Ok sample_files else Err (InvalidManifest []);
  parse_sources _ bytes := if bool_decide (bytes = sources_document) then Ok tt else Err (InvalidManifest []);
  manifest_files m := m; validate_prepared_files _ _ := Ok tt;
  provenance_json _ _ := Ok (text "{provenance}");
  marker_json id g m := Ok (1 :: zlen id :: zlen g :: zlen m :: id ++ g ++ m);
  marker_of_json bytes :=
    match bytes with
    | 1 :: i :: g :: m :: rest =>
        Some (1, take (Z.to_nat i) rest, take (Z.to_nat g) (drop (Z.to_nat i) rest),
                 take (Z.to_nat m) (drop (Z.to_nat (i + g)) rest))
    | _ => None
    end;
|}.

#[export] Instance sample_kind_laws : PayloadEntryLaws sample_kind.
Proof.
  constructor; [|by intros; cbn; repeat case_match..]. intros e bytes m. cbn. destruct (bool_decide _); [|done]. intros [= <-].
  split_and!; [repeat constructor|apply (bool_decide_eq_true_1 (NoDup _)); by vm_compute| |by repeat constructor].
  apply (bool_decide_eq_true_1 (_ ∈ _)). by vm_compute.
Qed.

#[export] Instance sample_marker_laws : MarkerLaws sample_kind.
Proof.
  intros id g m bytes [= <-]. cbn. rewrite !Nat2Z.id, <- !app_assoc, take_app_length, drop_app_length, take_app_length.
  replace (Z.to_nat (zlen id + zlen g)) with (length id + length g)%nat by lia.
  by rewrite <- drop_drop, !drop_app_length, take_app_length.
Qed.

End SampleKind.
