(* ===== verification/PayloadPublish.v ===== *)
(** * PayloadPublish: the directory a running guest reads

    crates/payload/src/staging.rs: [publish_active], which puts a payload into the
    directory a VM exports, file by file, while a guest may be reading it; and
    what that leaves behind, however it ends: with whatever calls failing and
    cancelled at whatever point. *)

From stdpp Require Import strings gmap list sets.
From S2P Require Import Prelude Stateful ClipboardPath CoreRequest Layout HostFiles Metadata PayloadFiles PayloadKind.
#[local] Open Scope Z_scope.

(** [Path::with_extension] of the last component: its stem is what stands before
    the last dot, or all of it where that is nothing. *)
Fixpoint before_last (sep : Z) (s : str) : option str :=
  match s with
  | [] => None
  | c :: rest =>
      match before_last sep rest with
      | Some before => Some (c :: before)
      | None => if c =? sep then Some [] else None
      end
  end.
Definition file_stem (name : str) : str :=
  match before_last dot name with Some [] | None => name | Some stem => stem end.
Definition PARTIAL : str := text ".vmlord-partial".
Definition with_partial_extension (p : path) : path :=
  match rev p with [] => [] | name :: front => rev front ++ [file_stem name ++ PARTIAL] end.

Section publish.
Context `{Hash256} `{K : PayloadEntry}.

Record ReadyPayload : Type := mk_ready {
  ready_id : str; generation : Sha256Digest; ready_manifest_sha256 : Sha256Digest;
  files_directory : path; ready_manifest : Manifest; provenance_path : path }.

Record ExpectedFile : Type := mk_expected { relative_path : path; size : Z; digest : Sha256Digest }.

Definition PAYLOAD_JSON : path := [text "payload.json"].

Definition require_staged_file (operation : string) (p : path) : pact Z :=
  require_regular_file (InvalidManifest (concat p)) operation p.

Definition verify_staged_file (p : path) (subject : str) (expected_size : Z) (expected : Sha256Digest) : pact unit :=
  let^ actual_size := require_staged_file "verify staged GPU payload file" p in
  if negb (actual_size =? expected_size) then bad (InvalidManifest subject)
  else
    let^ actual := hash_file "open staged GPU payload file" p in
    if bool_decide (actual = expected) then good tt else bad (DigestMismatch subject expected actual).

Definition expected_files (payload : ReadyPayload) : pact (list ExpectedFile) :=
  let payload_path := files_directory payload ++ PAYLOAD_JSON in
  let^ payload_size := require_staged_file "verify payload manifest source" payload_path in
  let^ _ := verify_staged_file payload_path (text "payload.json source") payload_size (ready_manifest_sha256 payload) in
  good (mk_expected PAYLOAD_JSON payload_size (ready_manifest_sha256 payload)
        :: map (λ f, mk_expected (relative (prepared_path f)) (prepared_size f) (prepared_sha256 f))
             (manifest_files (ready_manifest payload))).

Definition publish_one (payload : ReadyPayload) (rel : path) (active : path) : pact unit :=
  let source := files_directory payload ++ rel in
  let^ _ := require_staged_file "verify the payload file to publish" source in
  let target := active ++ rel in
  let^ _ := make_dirs "create an active payload subdirectory" (parent target) in
  let temporary := with_partial_extension target in
  let^ _ := ignoring (as_io "remove" temporary (remove_file temporary)) in
  let^ _ := link_or_copy "copy an active payload file" source temporary in
  rename_file "publish an active payload file" temporary target.

Fixpoint publish_all (payload : ReadyPayload) (files : list ExpectedFile) (active : path) : pact unit :=
  match files with
  | [] => good tt
  | expected :: files =>
      let^ _ := check_cancelled in
      let^ _ := publish_one payload (relative_path expected) active in
      publish_all payload files active
  end.

(** One listing of [prune_undeclared]: the directories found are kept for later,
    the files nobody declares are removed. *)
Fixpoint prune_items (declared : list path) (d : path) (names : list str) : pact (list path) :=
  match names with
  | [] => good []
  | name :: names =>
      let p := d ++ [name] in
      let^ directory := gets (λ s, is_directory (tree_of s) p) in
      let^ _ :=
        if directory : bool then good tt
        else if bool_decide (p ∈ declared) then good tt
        else ignoring (as_io "remove" p (remove_file p)) in
      let^ found := prune_items declared d names in
      good (if directory : bool then p :: found else found)
  end.

(** The directories still to be listed are a stack. *)
Fixpoint prune_loop (fuel : nat) (declared : list path) (directories visited : list path) : pact (list path) :=
  match directories with
  | [] => good visited
  | d :: directories =>
      match fuel with
      | O => pure_of Panic
      | S fuel =>
          let^ names := read_dir "read the active payload directory" d in
          let^ found := prune_items declared d names in
          prune_loop fuel declared (rev found ++ directories) (visited ++ [d])
      end
  end.

Fixpoint remove_emptied (active : path) (ds : list path) : pact unit :=
  match ds with
  | [] => good tt
  | d :: ds =>
      let^ _ := if bool_decide (d = active) then good tt else ignoring (remove_empty_dir d) in
      remove_emptied active ds
  end.

(** Enough turns: each lists another directory of those that were there. *)
Definition prune_undeclared (active : path) (files : list ExpectedFile) : pact unit :=
  let declared := map (λ f, active ++ relative_path f) files in
  let^ entries := gets (λ s, base.size (tree_of s)) in
  let^ visited := prune_loop (S entries) declared [active] [] in
  remove_emptied active (rev visited).

Definition publish_active (payload : ReadyPayload) (active : path) : pact unit :=
  let^ files := expected_files payload in
  let^ _ := make_dirs "create the active payload directory" active in
  match files with
  | manifest :: declared =>
      let^ _ := publish_all payload declared active in
      let^ _ := check_cancelled in
      let^ _ := publish_one payload (relative_path manifest) active in
      prune_undeclared active files
  | [] => pure_of Panic
  end.

End publish.

(** ** Paths *)

Lemma with_partial_app d f : f ≠ [] → with_partial_extension (d ++ f) = d ++ with_partial_extension f.
Proof.
  intros Hf. unfold with_partial_extension. rewrite rev_app_distr. destruct (rev f) as [|name front] eqn:E.
  - by rewrite <- (rev_involutive f), E in Hf.
  - cbn [app]. by rewrite rev_app_distr, rev_involutive, app_assoc.
Qed.
Lemma with_partial_nonempty f : f ≠ [] → with_partial_extension f ≠ [].
Proof.
  intros Hf. unfold with_partial_extension. destruct (rev f) as [|name front] eqn:E.
  - by rewrite <- (rev_involutive f), E in Hf.
  - by intros [_ [=]]%app_nil.
Qed.

Lemma ways_to_spec p q : q ∈ ways_to p ↔ under q p = true.
Proof.
  unfold ways_to. rewrite list_elem_of_fmap, under_spec. split.
  - intros (n & -> & _). exists (drop n p). by rewrite take_drop.
  - intros [rest ->]. exists (length q). rewrite take_app_length. split; [done|].
    apply list_elem_of_In, in_seq. rewrite length_app. lia.
Qed.
Lemma under_parent p : under (parent p) p = true.
Proof. apply under_spec. exists (drop (length p - 1) p). unfold parent. by rewrite take_drop. Qed.
Lemma ways_to_parent p q : q ∈ ways_to (parent p) → under q p = true.
Proof. rewrite ways_to_spec. intros H. eapply under_trans; [exact H|apply under_parent]. Qed.

Lemma under_app_inv d f g : under (d ++ f) (d ++ g) = under f g.
Proof.
  apply eq_bool_prop_intro. rewrite !Is_true_true, !under_spec. split; intros [rest H].
  - exists rest. rewrite <- app_assoc in H. by apply app_inv_head in H.
  - exists rest. by rewrite H, app_assoc.
Qed.

(** Two prefixes of a path: one is under the other. *)
Lemma under_either a b p : under a p = true → under b p = true → under a b = true ∨ under b a = true.
Proof.
  rewrite !under_spec. intros [x ->] [y H]. apply app_eq_app in H as (l & [[-> _]|[-> _]]); [right|left]; by exists l.
Qed.

(** ** Listing a directory *)

Lemma names_in_spec fs d n : n ∈ names_in fs d ↔ is_some (fs !! (d ++ [n])) = true.
Proof.
  unfold names_in. rewrite list_elem_of_omap. split.
  - intros ([k v] & Hin & Hk). cbn in Hk. destruct (under d k) eqn:Hu; [|done]. apply under_spec in Hu as [rest ->].
    rewrite drop_app_length in Hk. destruct rest as [|c [|? ?]]; simplify_eq. apply elem_of_map_to_list in Hin. by rewrite Hin.
  - destruct (fs !! (d ++ [n])) as [v|] eqn:Hv; [|done]. intros _. exists (d ++ [n], v).
    split; [by apply elem_of_map_to_list|]. cbn. by rewrite under_app, drop_app_length.
Qed.

Lemma NoDup_omap_keys {A B C} (f : A * B → option C) (g : C → A) (l : list (A * B)) :
  (∀ kv c, f kv = Some c → kv.1 = g c) → NoDup (l.*1) → NoDup (omap f l).
Proof.
  intros Hf. induction l as [|kv l IH]; cbn; [constructor|]. intros [Hk Hl]%list.NoDup_cons. specialize (IH Hl).
  destruct (f kv) as [c|] eqn:E; [|done]. constructor; [|done]. rewrite list_elem_of_omap. intros (kv' & Hin & E').
  apply Hk. apply Hf in E as ->. rewrite <- (Hf _ _ E'). by apply list_elem_of_fmap_2.
Qed.
Lemma names_in_NoDup fs d : NoDup (names_in fs d).
Proof.
  apply NoDup_omap_keys with (λ c, d ++ [c]); [|apply NoDup_fst_map_to_list].
  intros [k v] c. cbn. destruct (under d k) eqn:Hu; [|done]. apply under_spec in Hu as [rest ->].
  rewrite drop_app_length. destruct rest as [|c' [|? ?]]; naive_solver.
Qed.

Lemma read_dir_ok op d s s' names :
  read_dir op d s = (s', Ok names) →
  tree_of s' = tree_of s ∧ is_directory (tree_of s) d = true ∧ names = names_in (tree_of s) d.
Proof.
  unfold read_dir, abind at 1. drawing s as f s1 Hs1. unfold abind, gets. rewrite Hs1.
  destruct f, (is_directory (tree_of s) d) eqn:Hd; try done. intros [= <- <-]. by rewrite Hs1.
Qed.

(** ** Pruning *)

Definition same_directories (s s' : Store) : Prop := ∀ p, is_directory (tree_of s') p = is_directory (tree_of s) p.

Lemma remove_file_files p w :
  files (remove_file p w).1 = files w ∨ is_directory (files w) p = false ∧ files (remove_file p w).1 = delete p (files w).
Proof.
  unfold remove_file, is_file, abind, gets, next_fate, is_directory.
  destruct (fates w) as [|[|n sp] ?]; cbn; destruct (files w !! p) as [[]|]; cbn; auto.
Qed.

Lemma ignoring_run {A} (m : pact A) s : calm m → ignoring m s = ((m s).1, Ok tt).
Proof. intros Hm. unfold ignoring, abind, try_it. specialize (Hm s). by destruct (m s) as [s1 [a|e|]]. Qed.

Lemma remove_quietly op p s :
  ∃ s', ignoring (as_io op p (remove_file p)) s = (s', Ok tt) ∧
    (is_directory (tree_of s) p = false → same_directories s s') ∧ (∀ q, q ≠ p → tree_of s' !! q = tree_of s !! q).
Proof.
  rewrite ignoring_run by auto with store. eexists. split; [done|].
  assert (Ht := as_io_tree op p (remove_file p) s).
  destruct (remove_file_files p (disk s)) as [E|[_ E]]; rewrite E in Ht; unfold same_directories; rewrite Ht; [done|].
  split.
  - intros Hp q. unfold is_directory in *. destruct (decide (q = p)) as [->|Hq]; [|by rewrite lookup_delete_ne].
    by rewrite lookup_delete_eq, Hp.
  - intros q Hq. by rewrite lookup_delete_ne.
Qed.

Lemma prune_items_does declared d names s :
  ∃ s', prune_items declared d names s =
      (s', Ok (map (λ n, d ++ [n]) (List.filter (λ n, is_directory (tree_of s) (d ++ [n])) names))) ∧
    same_directories s s' ∧ (∀ q, q ∈ declared ∨ under d q = false → tree_of s' !! q = tree_of s !! q).
Proof.
  revert s. induction names as [|n names IH]; intros s; cbn [prune_items]; [by exists s|].
  unfold abind at 1, gets at 1. cbn [List.filter].
  assert (Hstep : ∃ s1, (if is_directory (tree_of s) (d ++ [n]) then good tt
      else if bool_decide (d ++ [n] ∈ declared) then good tt
      else ignoring (as_io "remove" (d ++ [n]) (remove_file (d ++ [n])))) s = (s1, Ok tt) ∧
      same_directories s s1 ∧ (∀ q, q ∈ declared ∨ under d q = false → tree_of s1 !! q = tree_of s !! q)).
  { destruct (is_directory _ _) eqn:Hd; [by exists s|]. destruct (bool_decide_reflect (d ++ [n] ∈ declared)); [by exists s|].
    destruct (remove_quietly "remove" (d ++ [n]) s) as (s1 & -> & Hs & Hk). exists s1. split; [done|]. split; [auto|].
    intros q Hq. apply Hk. intros ->. destruct Hq as [?|Hq]; [done|]. by rewrite under_app in Hq. }
  destruct Hstep as (s1 & E & Hs1 & Hk1). unfold abind at 1. rewrite E.
  destruct (IH s1) as (s2 & E2 & Hs2 & Hk2). unfold abind at 1. rewrite E2.
  replace (List.filter (λ n, is_directory (tree_of s1) (d ++ [n])) names)
    with (List.filter (λ n, is_directory (tree_of s) (d ++ [n])) names) by (apply filter_ext; intros ?; by rewrite Hs1).
  exists s2. split; [by destruct (is_directory _ _)|]. split.
  - intros q. by rewrite Hs2.
  - intros q Hq. by rewrite Hk2, Hk1.
Qed.

(** A walk in progress: the directories met so far are distinct, and each but
    the first was found in one that was listed. *)
Record walking (fs : gmap path node) (root : path) (directories visited : list path) : Prop := {
  walk_distinct : NoDup (visited ++ directories);
  walk_real : ∀ p, p ∈ visited → is_directory fs p = true;
  walk_under : ∀ p, p ∈ visited ++ directories → under root p = true;
  walk_found : ∀ p, p ∈ visited ++ directories → p = root ∨ ∃ d n, d ∈ visited ∧ p = d ++ [n];
}.

Lemma walking_step fs root d directories visited names :
  walking fs root (d :: directories) visited → is_directory fs d = true → NoDup names →
  walking fs root (rev (map (λ n, d ++ [n]) (List.filter (λ n, is_directory fs (d ++ [n])) names)) ++ directories)
    (visited ++ [d]).
Proof.
  intros [Hd Hr Hu Hf] Hdir Hn. set (found := map _ _).
  assert (Hfound : ∀ p, p ∈ found → ∃ n, p = d ++ [n]).
  { intros p (n & -> & _)%list_elem_of_fmap. by exists n. }
  assert (Hdu : under root d = true) by (apply Hu; set_solver).
  assert (Hperm : (visited ++ [d]) ++ rev found ++ directories ≡ₚ found ++ visited ++ d :: directories).
  { rewrite <- (Permutation_rev found), <- app_assoc. cbn. rewrite (Permutation_app_swap_app found).
    apply Permutation_app_head, Permutation_middle. }
  constructor.
  - apply (NoDup_Permutation_proper _ _ Hperm), list.NoDup_app. split_and!; [|intros p Hp Hin|done].
    + apply list.NoDup_fmap_2; [intros a b Hab; by apply app_inv_head in Hab; injection Hab|]. apply NoDup_ListNoDup.
      by apply List.NoDup_filter, NoDup_ListNoDup.
    + apply Hfound in Hp as [n ->]. destruct (Hf _ Hin) as [E|(d' & n' & Hd' & E)].
      * apply under_spec in Hdu as [rest ->]. apply (f_equal length) in E. rewrite !length_app in E. cbn in E. lia.
      * apply app_inj_tail in E as [<- _]. apply list.NoDup_app in Hd as (_ & Hd & _). apply (Hd d Hd'). set_solver.
  - intros p [Hp|Hp%list_elem_of_singleton]%elem_of_app; [auto|by subst].
  - intros p. rewrite (elem_of_Permutation_proper p _ _ Hperm). intros [Hp|Hp]%elem_of_app; [|by apply Hu].
    apply Hfound in Hp as [n ->]. eapply under_trans; [exact Hdu|apply under_app].
  - intros p. rewrite (elem_of_Permutation_proper p _ _ Hperm). intros [Hp|Hp]%elem_of_app.
    + right. apply Hfound in Hp as [n ->]. exists d, n. split; [set_solver|done].
    + destruct (Hf p Hp) as [?|(d' & n & Hd' & ->)]; [by left|right]. exists d', n. split; [set_solver|done].
Qed.

(** No more directories than paths. *)
Lemma directories_bound (fs : gmap path node) (ds : list path) :
  NoDup ds → (∀ p, p ∈ ds → is_directory fs p = true) → (length ds ≤ base.size fs)%nat.
Proof.
  intros Hn Hd. rewrite <- (size_list_to_set (C := gset path)), <- size_dom by done. apply subseteq_size.
  intros p Hp. apply elem_of_list_to_set, Hd in Hp. apply elem_of_dom. unfold is_directory in Hp.
  by destruct (fs !! p).
Qed.

Lemma walking_same s s' root ds visited :
  same_directories s s' → walking (tree_of s) root ds visited → walking (tree_of s') root ds visited.
Proof. intros Hs [Hd Hr Hu Hf]. constructor; try done. intros p Hp. rewrite Hs. auto. Qed.

Lemma prune_loop_does fuel declared root ds visited s s' r :
  walking (tree_of s) root ds visited →
  (∀ l, NoDup l → (∀ p, p ∈ l → is_directory (tree_of s) p = true) → (length l < fuel + length visited)%nat) →
  prune_loop fuel declared ds visited s = (s', r) →
  r ≠ Panic ∧ (∀ q, q ∈ declared ∨ under root q = false → tree_of s' !! q = tree_of s !! q) ∧
  (∀ v, r = Ok v → ∀ p, p ∈ v → under root p = true).
Proof.
  revert ds visited s. induction fuel as [|fuel IH]; intros ds visited s Hw Hfuel; destruct ds as [|d ds]; cbn [prune_loop].
  1, 3: intros [= <- <-]; split_and!; [done..|]; intros v [= <-] p Hp; apply (walk_under _ _ _ _ Hw); by rewrite app_nil_r.
  - exfalso. destruct Hw as [Hd Hr _ _]. apply list.NoDup_app in Hd as [Hd _]. specialize (Hfuel _ Hd Hr). lia.
  - intros E. apply abind_cases in E as [(s1 & names & Hn & E)|[(err & Hn & ->)|(Hn & ->)]].
    2: by rewrite (reads_run _ _ _ _ (reads_dir _ _) Hn).
    2: by pose proof (calm_read_dir "read the active payload directory" d s) as Hc; rewrite Hn in Hc.
    apply read_dir_ok in Hn as (Ht & Hd & ->).
    destruct (prune_items_does declared d (names_in (tree_of s) d) s1) as (s2 & E2 & Hs2 & Hk).
    unfold abind in E. rewrite E2, Ht in E. rewrite Ht in Hk.
    assert (Hs : same_directories s s2) by (intros q; by rewrite Hs2, Ht).
    assert (Hdu : under root d = true) by (apply (walk_under _ _ _ _ Hw); set_solver).
    apply IH in E as (Hp & Hk2 & Hv).
    + split_and!; [done| |done]. intros q Hq. rewrite Hk2 by done. apply Hk. destruct Hq as [?|Hq]; [by left|right].
      apply not_true_iff_false. intros Hqd. by rewrite (under_trans _ _ _ Hdu Hqd) in Hq.
    + apply (walking_same s s2); [done|]. apply walking_step; [done|done|apply names_in_NoDup].
    + intros l Hl Hd'. rewrite length_app, Nat.add_comm. cbn. specialize (Hfuel l Hl).
      assert (length l < S fuel + length visited)%nat by (apply Hfuel; intros p Hp; rewrite <- Hs; auto). lia.
Qed.
Lemma remove_empty_keeps q c d : keeps q (Some (Some c)) (remove_empty_dir d).
Proof.
  intros s Hs. unfold remove_empty_dir, abind at 1. drawing s as f s1 Hs1. unfold abind, gets. rewrite Hs1.
  destruct f; cbn; [|by rewrite Hs1]. destruct (is_directory (tree_of s) d) eqn:Hd; cbn; [|by rewrite Hs1].
  destruct (names_in _ _); cbn; [|by rewrite Hs1]. unfold tree_of in *. cbn. rewrite Hs1, lookup_delete_ne; [done|].
  intros ->. unfold is_directory in Hd. by rewrite Hs in Hd.
Qed.

Lemma keeps_ignoring {A} q v (m : pact A) : keeps q v m → keeps q v (ignoring m).
Proof.
  intros Hm s Hs. specialize (Hm s Hs). unfold ignoring, abind, try_it. by destruct (m s) as [s1 [a|e|]].
Qed.

Lemma remove_emptied_keeps root ds q c : keeps q (Some (Some c)) (remove_emptied root ds).
Proof.
  induction ds as [|d ds IH]; cbn [remove_emptied]; [by intros ?|]. apply keeps_then; [|done].
  destruct (bool_decide _); [by intros ?|]. apply keeps_ignoring, remove_empty_keeps.
Qed.
Lemma remove_emptied_spares root ds q : q ∉ ds → spares q (remove_emptied root ds).
Proof.
  induction ds as [|d ds IH]; cbn [remove_emptied]; [by intros _ ?|]. rewrite not_elem_of_cons. intros [Hd Hds].
  sparing. by apply spares_remove_empty.
Qed.
Lemma calm_remove_emptied root ds : calm (remove_emptied root ds).
Proof. induction ds as [|d ds IH]; cbn [remove_emptied]; calming. Qed.

(** ** The tree under a directory *)

Section publish.
Context `{Hash256} `{K : PayloadEntry}.
Context (payload : ReadyPayload) (active : path).
#[local] Abbreviation from f := (files_directory payload ++ f).
#[local] Abbreviation at_ s f := (tree_of s !! (active ++ f)).

(** Neither directory is in the other. *)
Definition apart (a b : path) : Prop := under a b = false ∧ under b a = false.

Lemma apart_from f q : apart (files_directory payload) active → under active q = true → from f ≠ q.
Proof.
  intros [Ha Hb] Hq <-. apply (under_either (files_directory payload)) in Hq as [E|E]; [congruence..|apply under_app].
Qed.

(** The file has the contents the payload had in [s0]. *)
Definition published (s0 s : Store) (f : path) : Prop :=
  ∃ c, tree_of s0 !! from f = Some (Some c) ∧ at_ s f = Some (Some c).

Lemma calm_publish_one rel : calm (publish_one payload rel active).
Proof. unfold publish_one, require_staged_file. calming. Qed.

Lemma publish_one_frame rel q v :
  q ≠ active ++ rel → q ≠ active ++ with_partial_extension rel → rel ≠ [] →
  (under q (active ++ rel) = true → is_some v = true) →
  keeps q v (publish_one payload rel active).
Proof.
  intros Ht Hp Hrel Hq. unfold publish_one, require_staged_file. rewrite with_partial_app by done. keeping.
  - intros Hin. by apply Hq, ways_to_parent.
  - apply keeps_spares, spares_ignoring, (spares_as_io q (eq (active ++ with_partial_extension rel)));
      [by apply stays_remove_file|congruence].
  - by apply keeps_spares, spares_link.
  - by apply keeps_spares, spares_rename.
Qed.

(** Until the rename, the file is as it was, and the contents are ready. *)
Definition publish_before (rel : path) : pact unit :=
  let^ _ := require_staged_file "verify the payload file to publish" (from rel) in
  let^ _ := make_dirs "create an active payload subdirectory" (parent (active ++ rel)) in
  let^ _ := ignoring (as_io "remove" (active ++ with_partial_extension rel) (remove_file (active ++ with_partial_extension rel))) in
  link_or_copy "copy an active payload file" (from rel) (active ++ with_partial_extension rel).

Lemma publish_before_keeps rel v :
  rel ≠ [] → with_partial_extension rel ≠ rel → keeps (active ++ rel) v (publish_before rel).
Proof.
  intros Hrel Hne. assert (Htt : active ++ rel ≠ active ++ with_partial_extension rel) by (intros E; by apply app_inv_head in E).
  unfold publish_before, require_staged_file. keeping.
  - intros Hin. apply parent_shorter in Hin; [done|]. by intros [_ ?]%app_nil.
  - apply keeps_spares, spares_ignoring, (spares_as_io _ (eq (active ++ with_partial_extension rel)));
      [by apply stays_remove_file|congruence].
  - by apply keeps_spares, spares_link.
Qed.

Lemma publish_before_ok rel s s' :
  apart (files_directory payload) active → publish_before rel s = (s', Ok tt) →
  ∃ c, tree_of s !! from rel = Some (Some c) ∧ tree_of s' !! (active ++ with_partial_extension rel) = Some (Some c).
Proof.
  intros Hap E. set (temporary := active ++ with_partial_extension rel) in *.
  assert (Hsm : from rel ≠ temporary) by (apply apart_from; [done|apply under_app]).
  unfold publish_before in E. act_ok E as n, Hn. pose proof (reads_run _ _ _ _ (reads_require_file _ _ _) Hn) as H1.
  apply require_file_ok in Hn as (c & Hc & _). exists c. split; [done|].
  apply abind_ok in E as (x0 & u & Hd & E). apply abind_ok in E as (x1 & u' & Hr & E). apply link_or_copy_ok in E as (c' & Hc' & ->).
  rewrite lookup_insert_eq. do 2 f_equal. rewrite <- H1 in Hc.
  assert (Hc2 : tree_of x0 !! from rel = Some (Some c)).
  { eapply (keeps_run _ _ _ _ _ _ (keeps_make_dirs _ (Some (Some c)) _ _ (λ _, eq_refl))); done. }
  assert (Hsp : spares (from rel) (ignoring (as_io "remove" temporary (remove_file temporary)))).
  { apply spares_ignoring, (spares_as_io _ (eq temporary)); [by apply stays_remove_file|congruence]. }
  apply (spares_run _ _ _ _ _ Hsp) in Hr. rewrite Hr, Hc2 in Hc'. congruence.
Qed.

Lemma publish_one_split rel : rel ≠ [] → ∀ s,
  publish_one payload rel active s =
  (let^ _ := publish_before rel in
   rename_file "publish an active payload file" (active ++ with_partial_extension rel) (active ++ rel)) s.
Proof.
  intros Hrel s. unfold publish_one, publish_before. rewrite with_partial_app by done. unfold abind.
  by repeat (case_match; simplify_eq/=).
Qed.

Lemma publish_one_does rel s s' r :
  rel ≠ [] → with_partial_extension rel ≠ rel → apart (files_directory payload) active →
  publish_one payload rel active s = (s', r) →
  published s s' rel ∧ r = Ok tt ∨ at_ s' rel = at_ s rel ∧ ∃ e, r = Err e.
Proof.
  intros Hrel Hne Hap E. pose proof (calm_publish_one rel s) as Hcalm. rewrite E in Hcalm. cbn in Hcalm.
  rewrite publish_one_split in E by done.
  apply abind_cases in E as [(s1 & [] & Hb & E)|[(e & Hb & ->)|(_ & ->)]]; [| |done].
  - pose proof (keeps_run _ _ _ _ _ _ (publish_before_keeps rel _ Hrel Hne) eq_refl Hb) as Hat.
    apply publish_before_ok in Hb as (c & Hc & Hc1); [|done].
    apply rename_file_does in E as [(-> & c' & Hc' & Ht)|(-> & ->)]; [left|right; by eauto].
    split; [|done]. exists c. split; [done|]. rewrite Ht, lookup_insert_eq. congruence.
  - right. split; [|by eauto]. by apply (keeps_run _ _ _ _ _ _ (publish_before_keeps rel _ Hrel Hne) eq_refl Hb).
Qed.

(** ** All of them *)

(** Nothing of the payload is the directory, or the temporary name, of another. *)
Definition clash_free (fs : list path) : Prop :=
  Forall (λ f, Forall (λ g, f ≠ [] ∧ with_partial_extension f ≠ g ∧ (under g f = true → g = f)) fs) fs.
Definition all_files : list path :=
  PAYLOAD_JSON :: map (λ f, relative (prepared_path f)) (manifest_files (ready_manifest payload)).

Context (Hapart : apart (files_directory payload) active) (Hclash : clash_free all_files).

Lemma clash f g : f ∈ all_files → g ∈ all_files →
  f ≠ [] ∧ with_partial_extension f ≠ g ∧ (under g f = true → g = f).
Proof using Hclash. intros Hf Hg. eapply list.Forall_forall in Hclash; [|exact Hf]. by eapply list.Forall_forall in Hclash. Qed.

Definition outside (q : path) : Prop := under active q = false ∧ under q active = false.

Lemma outside_from f : outside (from f).
Proof using Hapart.
  destruct Hapart as [Ha Hb]. split; apply not_true_iff_false; intros E.
  - apply (under_either (files_directory payload)) in E as [E|E]; [congruence..|apply under_app].
  - rewrite (under_trans (files_directory payload) (from f) active) in Ha; [done|apply under_app|done].
Qed.

Lemma spares_publish_one f q : f ∈ all_files → outside q → spares q (publish_one payload f active).
Proof using Hclash.
  intros Hf [Hq Hq'] s. destruct (clash f f Hf Hf) as (Hnil & Hne & _).
  apply publish_one_frame; [by intros ->; rewrite under_app in Hq..|done| |done].
  intros Hu. exfalso. destruct (under_either active q (active ++ f) (under_app _ _) Hu); congruence.
Qed.
Lemma spares_publish_all files q : Forall (λ e, relative_path e ∈ all_files) files → outside q →
  spares q (publish_all payload files active).
Proof using Hclash.
  intros Hfs Hq. induction Hfs as [|e files He Hfs IH]; cbn [publish_all]; sparing. by apply spares_publish_one.
Qed.

Lemma publish_one_step s0 s s' r f g :
  f ∈ all_files → g ∈ all_files → (∀ h, tree_of s !! from h = tree_of s0 !! from h) →
  publish_one payload f active s = (s', r) →
  (published s0 s' g ∨ at_ s' g = at_ s g) ∧ (g ≠ f → at_ s' g = at_ s g) ∧ (r = Ok tt → published s0 s' f).
Proof using Hapart Hclash.
  intros Hf Hg Hsrc E. destruct (clash f f Hf Hf) as (Hnil & Hne & _). destruct (clash f g Hf Hg) as (_ & Hne' & Hpre).
  assert (Hkeep : g ≠ f → at_ s' g = at_ s g).
  { intros Hgf. eapply keeps_run; [|reflexivity|exact E]. apply publish_one_frame; [| |done|].
    - by intros ?%app_inv_head.
    - intros ?%app_inv_head. congruence.
    - rewrite under_app_inv. intros Hu. by apply Hpre in Hu. }
  apply publish_one_does in E as [[(c & Hc & Hat) ->]|[Hat [e ->]]]; try done.
  - assert (published s0 s' f) by (exists c; by rewrite <- Hsrc).
    split; [|done]. destruct (decide (g = f)) as [->|]; auto.
  - split; [|done]. destruct (decide (g = f)) as [->|]; auto.
Qed.

Lemma publish_all_does s0 files s s' r :
  Forall (λ e, relative_path e ∈ all_files) files → (∀ h, tree_of s !! from h = tree_of s0 !! from h) →
  publish_all payload files active s = (s', r) →
  (∀ g, g ∈ all_files → published s0 s' g ∨ at_ s' g = at_ s g) ∧
  (∀ g, g ∈ all_files → g ∉ map relative_path files → at_ s' g = at_ s g) ∧
  (r = Ok tt → Forall (λ e, published s0 s' (relative_path e)) files).
Proof using Hapart Hclash.
  intros Hfs. revert s. induction Hfs as [|e files He Hfs IH]; intros s Hsrc; cbn [publish_all].
  { intros [= <- <-]. by auto. }
  intros E. apply abind_cases in E as [(s1 & [] & Hc & E)|[(err & Hc & ->)|(Hc & ->)]].
  2-3: apply (reads_run _ _ _ _ reads_cancelled) in Hc as ->; split_and!; [by right|done|done].
  apply (reads_run _ _ _ _ reads_cancelled) in Hc as H1.
  assert (Hsrc1 : ∀ h, tree_of s1 !! from h = tree_of s0 !! from h) by (intros h; by rewrite H1).
  apply abind_cases in E as [(s2 & [] & Hp & E)|[(err & Hp & ->)|(Hp & ->)]].
  2-3: split_and!; [intros g Hg..|done];
    pose proof (publish_one_step _ _ _ _ _ g He Hg Hsrc1 Hp) as (Ho & Hk & _); rewrite <- H1; [done|];
    rewrite map_cons, not_elem_of_cons; tauto.
  assert (Hsrc2 : ∀ h, tree_of s2 !! from h = tree_of s0 !! from h).
  { intros h. rewrite <- Hsrc1. eapply spares_run; [|exact Hp]. apply spares_publish_one; [done|apply outside_from]. }
  destruct (IH _ Hsrc2 E) as (Ho & Hk & Hall). split_and!.
  - intros g Hg. destruct (Ho g Hg) as [?|Hat]; [by left|].
    pose proof (publish_one_step _ _ _ _ _ g He Hg Hsrc1 Hp) as ([(c & Hc' & Hc2)|Ho1] & _ & _).
    + left. exists c. by rewrite Hat.
    + right. by rewrite Hat, Ho1, H1.
  - intros g Hg. rewrite map_cons, not_elem_of_cons. intros [Hne Hin]. rewrite Hk by done.
    pose proof (publish_one_step _ _ _ _ _ g He Hg Hsrc1 Hp) as (_ & Hk1 & _). by rewrite Hk1, H1.
  - intros Hr. specialize (Hall Hr). constructor; [|done].
    pose proof (publish_one_step _ _ _ _ _ _ He He Hsrc1 Hp) as (_ & _ & Hpub). destruct (Hpub eq_refl) as (c & Hc' & Hc2).
    destruct (Ho _ He) as [?|Hat]; [done|]. exists c. by rewrite Hat.
Qed.

Lemma prune_undeclared_does files s s' r :
  prune_undeclared active files s = (s', r) →
  r ≠ Panic ∧ (∀ q, under active q = false → tree_of s' !! q = tree_of s !! q) ∧
  (∀ f c, f ∈ map relative_path files → at_ s f = Some (Some c) → at_ s' f = Some (Some c)).
Proof.
  unfold prune_undeclared. set (declared := map _ files). unfold abind at 1, gets at 1. intros E.
  assert (Hw : walking (tree_of s) active [active] []).
  { constructor; cbn; [apply list.NoDup_singleton|by intros p ?%elem_of_nil|..];
      intros p ->%list_elem_of_singleton; [apply under_refl|by left]. }
  assert (Hb : ∀ l, NoDup l → (∀ p, p ∈ l → is_directory (tree_of s) p = true) →
                (length l < S (base.size (tree_of s)) + length (A := path) [])%nat).
  { intros l Hl Hd. cbn. pose proof (directories_bound _ _ Hl Hd). lia. }
  assert (Hdecl : ∀ f, f ∈ map relative_path files → active ++ f ∈ declared).
  { intros f (e & -> & He)%list_elem_of_fmap. unfold declared. apply list_elem_of_fmap. eauto. }
  apply abind_cases in E as [(s1 & v & Hl & E)|[(err & Hl & ->)|(Hl & ->)]];
    apply (prune_loop_does _ _ _ _ _ _ _ _ Hw Hb) in Hl as (Hp & Hk & Hv); [|split_and!; auto|done].
  - split_and!.
    + pose proof (calm_remove_emptied active (rev v) s1) as Hc. by rewrite E in Hc.
    + intros q Hq. rewrite <- Hk by auto. eapply spares_run; [|exact E]. apply remove_emptied_spares.
      intros Hin%list_elem_of_In%in_rev%list_elem_of_In. apply (Hv _ eq_refl) in Hin. congruence.
    + intros f c Hf Hat. eapply keeps_run; [apply remove_emptied_keeps| |exact E]. by rewrite Hk by auto.
  - intros f c Hf Hat. by rewrite Hk by auto.
Qed.

Lemma verify_staged_ok p subject n d s s' u :
  verify_staged_file p subject n d s = (s', Ok u) → ∃ c, tree_of s !! p = Some (Some c) ∧ zlen c = n ∧ sha256 c = d.
Proof.
  unfold verify_staged_file, require_staged_file. intros E. apply abind_ok in E as (s1 & m & Hm & E).
  pose proof (reads_run _ _ _ _ (reads_require_file _ _ _) Hm) as H1. apply require_file_ok in Hm as (c & Hc & ->).
  destruct (Z.eqb_spec (zlen c) n); cbn in E; [|done]. apply abind_ok in E as (s2 & h & Hh & E).
  apply hash_file_ok in Hh as (c' & Hc' & ->). rewrite H1 in Hc'. simplify_eq.
  destruct (bool_decide_reflect (sha256 c = d)); [|done]. by exists c.
Qed.
Lemma reads_verify p subject n d : reads (verify_staged_file p subject n d).
Proof. unfold verify_staged_file, require_staged_file. reading. Qed.
Lemma calm_verify p subject n d : calm (verify_staged_file p subject n d).
Proof. unfold verify_staged_file, require_staged_file. calming. Qed.

Lemma reads_expected : reads (expected_files payload).
Proof. unfold expected_files, require_staged_file. apply reads_bind; [reading|intros n]. apply reads_bind; [apply reads_verify|intros ?; reading]. Qed.
Lemma calm_expected : calm (expected_files payload).
Proof. unfold expected_files, require_staged_file. apply calm_then; [calming|intros n]. apply calm_then; [apply calm_verify|intros ?; calming]. Qed.
Lemma expected_files_ok s s' files :
  expected_files payload s = (s', Ok files) →
  map relative_path files = all_files ∧
  ∃ manifest declared c, files = manifest :: declared ∧ tree_of s !! from PAYLOAD_JSON = Some (Some c) ∧
    sha256 c = ready_manifest_sha256 payload.
Proof.
  unfold expected_files. intros E. apply abind_ok in E as (s1 & n & Hn & E).
  pose proof (reads_run _ _ _ _ (reads_require_file _ _ _) Hn) as H1.
  apply abind_ok in E as (s2 & u & Hv & E). apply verify_staged_ok in Hv as (c & Hc & _ & Hd). injection E as _ <-.
  split; [by rewrite map_cons, map_map|]. rewrite H1 in Hc. by eexists _, _, c.
Qed.

Lemma calm_publish_all files : calm (publish_all payload files active).
Proof. induction files; cbn [publish_all]; calming. apply calm_publish_one. Qed.

Context (Hdeclared : Forall (λ f, validate_path (prepared_path f) = Ok tt) (manifest_files (ready_manifest payload))).

Lemma manifest_is_not_declared :
  PAYLOAD_JSON ∉ map (λ f, relative (prepared_path f)) (manifest_files (ready_manifest payload)).
Proof using Hdeclared.
  intros (f & Hf & Hin)%list_elem_of_fmap. eapply list.Forall_forall in Hdeclared; [|exact Hin].
  apply validate_path_inv in Hdeclared as [Hne _]. apply Hne, (split_inj slash). unfold relative in Hf. rewrite <- Hf. by vm_compute.
Qed.

(** What may be seen in the directory when its files were as in [s0]. *)
Definition seen (s0 s : Store) : Prop := ∀ f, f ∈ all_files → published s0 s f ∨ at_ s f = at_ s0 f.
Definition complete (s0 s : Store) : Prop := ∀ f, f ∈ all_files → published s0 s f.

Lemma seen_trans s0 s1 s2 :
  seen s0 s1 → (∀ f, f ∈ all_files → published s0 s2 f ∨ at_ s2 f = at_ s1 f) → seen s0 s2.
Proof.
  intros H1 H2 f Hf. destruct (H2 f Hf) as [?|E]; [by left|]. destruct (H1 f Hf) as [(c & Hc & Hat)|E'].
  - left. exists c. by rewrite E.
  - right. by rewrite E.
Qed.
Lemma published_later s0 s1 s2 f :
  f ∈ all_files → published s0 s1 f → (∀ g, g ∈ all_files → published s0 s2 g ∨ at_ s2 g = at_ s1 g) → published s0 s2 f.
Proof. intros Hf (c & Hc & Hat) H2. destruct (H2 f Hf) as [?|E]; [done|]. exists c. by rewrite E. Qed.

(** The part of [publish_active] that writes. *)
Definition writing (m : ExpectedFile) (declared : list ExpectedFile) : pact unit :=
  let^ _ := publish_all payload declared active in
  let^ _ := publish_all payload [m] active in
  prune_undeclared active (m :: declared).

Lemma writing_is m declared s :
  (let^ _ := publish_all payload declared active in
   let^ _ := check_cancelled in
   let^ _ := publish_one payload (relative_path m) active in
   prune_undeclared active (m :: declared)) s = writing m declared s.
Proof. unfold writing. cbn [publish_all]. unfold abind, good, pure_of. by repeat (case_match; simplify_eq/=). Qed.

Lemma writing_does m declared s s' r :
  map relative_path (m :: declared) = all_files → writing m declared s = (s', r) →
  r ≠ Panic ∧ seen s s' ∧ (at_ s' PAYLOAD_JSON = at_ s PAYLOAD_JSON ∧ r ≠ Ok tt ∨ complete s s').
Proof using Hapart Hclash Hdeclared.
  intros [= Hm Hds] E. pose proof manifest_is_not_declared as Hnot. rewrite <- Hds in Hnot.
  assert (Hms : Forall (λ e, relative_path e ∈ all_files) [m]) by (apply list.Forall_singleton; rewrite Hm; apply list_elem_of_here).
  assert (Hin : Forall (λ e, relative_path e ∈ all_files) declared).
  { apply list.Forall_forall. intros e He. apply list_elem_of_further. rewrite <- Hds. by apply list_elem_of_fmap_2. }
  assert (Hpj : PAYLOAD_JSON ∈ all_files) by apply list_elem_of_here.
  unfold writing in E. pose proof (calm_publish_all declared s) as Hcalm.
  apply abind_cases in E as [(s1 & [] & Hp & E)|[(err & Hp & ->)|(Hp & ->)]]; rewrite Hp in Hcalm; [|clear Hcalm|done];
    pose proof (publish_all_does s _ _ _ _ Hin (λ _, eq_refl) Hp) as (Ho & Hk & Hok);
    [|split_and!; [done|exact Ho|left; split; [by apply Hk|done]]].
  specialize (Hok eq_refl).
  assert (Hsrc : ∀ h, tree_of s1 !! from h = tree_of s !! from h).
  { intros h. eapply spares_run; [|exact Hp]. apply spares_publish_all; [done|apply outside_from]. }
  pose proof (calm_publish_all [m] s1) as Hcalm1.
  assert (Hcomplete : ∀ s2, (∀ g, g ∈ all_files → published s s2 g ∨ at_ s2 g = at_ s1 g) →
    published s s2 PAYLOAD_JSON → complete s s2).
  { intros s2 Ho2 Hm2 f [->|Hf]%elem_of_cons; [done|]. apply (published_later s s1); [by apply list_elem_of_further| |done].
    rewrite <- Hds in Hf. apply list_elem_of_fmap in Hf as (e & -> & He). by eapply list.Forall_forall in Hok. }
  apply abind_cases in E as [(s2 & [] & Hp2 & E)|[(err & Hp2 & ->)|(Hp2 & ->)]]; rewrite Hp2 in Hcalm1; [|clear Hcalm1|done];
    pose proof (publish_all_does s _ _ _ _ Hms Hsrc Hp2) as (Ho2 & _ & Hok2).
  - specialize (Hok2 eq_refl). inversion Hok2 as [|? ? Hm2 _]. rewrite Hm in Hm2. specialize (Hcomplete s2 Ho2 Hm2).
    apply prune_undeclared_does in E as (Hr & _ & Hkept).
    assert (complete s s'). { intros f Hf. destruct (Hcomplete f Hf) as (c & Hc & Hat). exists c. split; [done|].
      apply Hkept; [|done]. cbn [map]. by rewrite Hm, Hds. }
    split_and!; [done|intros f Hf; left; auto|by right].
  - split_and!; [done|by apply (seen_trans s s1)|]. destruct (Ho2 _ Hpj) as [?|Hat]; [right; auto|left].
    split; [|done]. rewrite Hat. by apply Hk.
Qed.

Lemma spares_writing m declared q :
  map relative_path (m :: declared) = all_files → outside q → spares q (writing m declared).
Proof using Hclash.
  intros Hall Hq.
  assert (Hin : Forall (λ e, relative_path e ∈ all_files) (m :: declared)).
  { apply list.Forall_forall. intros e He. rewrite <- Hall. by apply list_elem_of_fmap_2. }
  apply list.Forall_cons in Hin as [Hm Hin]. unfold writing.
  apply spares_then; [by apply spares_publish_all|intros _].
  apply spares_then; [by apply spares_publish_all; [apply list.Forall_singleton|]|intros _].
  intros s. destruct (prune_undeclared active (m :: declared) s) as [s' r] eqn:E.
  apply prune_undeclared_does in E as (_ & Hk & _). apply Hk, Hq.
Qed.

(** Making the directory itself changes nothing below it. *)
Lemma make_active_spares op q : under q active = false → spares q (make_dirs op active).
Proof. intros Hq. apply spares_make_dirs. by rewrite ways_to_spec, Hq. Qed.
Lemma file_not_above f : f ∈ all_files → under (active ++ f) active = false.
Proof using Hclash.
  intros Hf. destruct (clash f f Hf Hf) as (Hnil & _ & _). apply not_true_iff_false. rewrite under_spec.
  intros [rest Hr]. apply (f_equal length) in Hr. rewrite !length_app in Hr. destruct f; [done|cbn in Hr; lia].
Qed.

Lemma publish_active_does s s' r :
  publish_active payload active s = (s', r) →
  r ≠ Panic ∧ seen s s' ∧
  ((at_ s' PAYLOAD_JSON = at_ s PAYLOAD_JSON ∧ r ≠ Ok tt) ∨
   (complete s s' ∧ ∃ c, at_ s' PAYLOAD_JSON = Some (Some c) ∧ sha256 c = ready_manifest_sha256 payload)) ∧
  (∀ q, outside q → tree_of s' !! q = tree_of s !! q).
Proof using Hapart Hclash Hdeclared.
  unfold publish_active. intros E. pose proof (calm_expected s) as Hcalm.
  apply abind_cases in E as [(s1 & files & He & E)|[(err & He & ->)|(He & ->)]]; rewrite He in Hcalm; [|clear Hcalm|done];
    apply (reads_run _ _ _ _ reads_expected) in He as H1.
  2: { split_and!; [done|intros f Hf; right|left; split; [|done]|intros q Hq]; by rewrite H1. }
  apply expected_files_ok in He as (Hall & m & declared & c & -> & Hc & Hd).
  assert (Hmk : calm (make_dirs "create the active payload directory" active)) by auto with store. specialize (Hmk s1).
  destruct (make_dirs _ active s1) as [s2 r2] eqn:Hmd.
  assert (Hsame : ∀ q, under q active = false → tree_of s2 !! q = tree_of s !! q).
  { intros q Hq. rewrite <- H1. eapply spares_run; [|exact Hmd]. by apply make_active_spares. }
  assert (Hat : ∀ f, f ∈ all_files → at_ s2 f = at_ s f) by (intros f Hf; by apply Hsame, file_not_above).
  assert (Hpj : PAYLOAD_JSON ∈ all_files) by apply list_elem_of_here.
  unfold abind at 1 in E. rewrite Hmd in E. destruct r2 as [[]|err|]; cbn in Hmk; [|injection E as <- <-|done].
  2: { split_and!; [done|intros f Hf; right; auto|left; split; [by apply Hat|done]|intros q Hq; by apply Hsame, Hq]. }
  rewrite writing_is in E.
  assert (Hsrc : ∀ f, tree_of s2 !! from f = tree_of s !! from f) by (intros f; apply Hsame, outside_from).
  assert (Hpub : ∀ f, published s2 s' f → published s s' f) by (intros f (c' & Hc' & Hf); exists c'; by rewrite <- Hsrc).
  split_and!; [|intros f Hf| |intros q Hq].
  4: { rewrite <- Hsame by apply Hq. eapply spares_run; [|exact E]. by apply spares_writing. }
  all: destruct (writing_does m declared s2 s' r Hall E) as (Hr & Hseen & Hdone).
  - done.
  - destruct (Hseen f Hf) as [?|Hf']; [left; auto|right]. by rewrite Hf', Hat.
  - destruct Hdone as [[Hj Hn]|Hcomplete]; [left; split; [by rewrite Hj, Hat|done]|right].
    split; [intros f Hf; auto|]. destruct (Hcomplete _ Hpj) as (c' & Hc' & Hf). exists c'. split; [done|].
    rewrite Hsrc in Hc'. congruence.
Qed.

(** C4: For a payload that lies apart from the directory it is published into, whose
    declared paths are those a manifest is accepted with, and none of whose files (the
    manifest counted) is the directory another is in, or has the name another is
    written under before it is renamed: however a publication into the directory of a running guest ends, with whatever
    calls failing and cancelled at whatever moment, each of its files there is as it
    was or has the whole contents of the payload's; the manifest is touched only when
    every file it declares is in place, and is then the one the payload was verified
    by; a publication that succeeds has put all of them in place; and nothing outside
    the directory changes.  A payload that declares x.vmlord-partial beside x.y is
    not covered: there the second file's publication takes the first one away.  No
    other process writes there meanwhile. *)
Theorem a_guest_never_reads_half_a_payload s s' r :
  publish_active payload active s = (s', r) →
  r ≠ Panic ∧ seen s s' ∧
  ((at_ s' PAYLOAD_JSON = at_ s PAYLOAD_JSON ∧ r ≠ Ok tt) ∨
   (complete s s' ∧ ∃ c, at_ s' PAYLOAD_JSON = Some (Some c) ∧ sha256 c = ready_manifest_sha256 payload)) ∧
  (∀ q, outside q → tree_of s' !! q = tree_of s !! q).
Proof using Hapart Hclash Hdeclared. apply publish_active_does. Qed.

End publish.

(** ** A publication that is cancelled on the way *)

Section example.
Import SampleKind.

Definition cached : path := [text "cache"; text "files"].
Definition exported : path := [text "vm"; text "active"].
Definition sample_payload : ReadyPayload :=
  mk_ready (text "test") [1] (sha256 document) cached sample_files [text "provenance"].
(** An older version is exported; [n] looks are taken before the build is cancelled. *)
Definition before_publishing (n : option nat) : Store :=
  mk_store (mk_world (list_to_map
    [ ([], None); ([text "cache"], None); (cached, None); (cached ++ [text "content"], None);
      (cached ++ [text "content"; text "kbuild"], Some kernel);
      (cached ++ [text "sources.json"], Some sources_document); (cached ++ [text "payload.json"], Some document);
      ([text "vm"], None); (exported, None); (exported ++ [text "payload.json"], Some (text "{old}"));
      (exported ++ [text "old.ko"], Some (text "old")) ]) ∅ ∅ [] n []) 0%N.
Definition exported_after (n : option nat) (f : path) : option node :=
  tree_of (publish_active sample_payload exported (before_publishing n)).1 !! (exported ++ f).

Example published_whole :
  (publish_active sample_payload exported (before_publishing None)).2 = Ok tt ∧
  exported_after None [text "payload.json"] = Some (Some document) ∧
  exported_after None [text "content"; text "kbuild"] = Some (Some kernel) ∧
  exported_after None [text "old.ko"] = None.
Proof. by vm_compute. Qed.
Example published_in_part :
  (publish_active sample_payload exported (before_publishing (Some 4%nat))).2 = Err PayloadCancelled ∧
  exported_after (Some 4%nat) [text "payload.json"] = Some (Some (text "{old}")) ∧
  exported_after (Some 4%nat) [text "sources.json"] = Some (Some sources_document) ∧
  exported_after (Some 4%nat) [text "old.ko"] = Some (Some (text "old")).
Proof. by vm_compute. Qed.

Lemma sample_apart : apart cached exported.
Proof. by vm_compute. Qed.
Lemma sample_clash_free : clash_free (all_files sample_payload).
Proof. apply (bool_decide_eq_true_1 (clash_free _)). by vm_compute. Qed.
Lemma sample_declared : Forall (λ f, validate_path (prepared_path f) = Ok tt) sample_files.
Proof. by repeat constructor. Qed.

Lemma a_guest_never_reads_half_a_payload_witness :
  let s := before_publishing (Some 4%nat) in
  let '(s', r) := publish_active sample_payload exported s in
  r ≠ Panic ∧ seen sample_payload exported s s' ∧
  ((tree_of s' !! (exported ++ PAYLOAD_JSON) = tree_of s !! (exported ++ PAYLOAD_JSON) ∧ r ≠ Ok tt) ∨
   (complete sample_payload exported s s' ∧
    ∃ c, tree_of s' !! (exported ++ PAYLOAD_JSON) = Some (Some c) ∧ sha256 c = ready_manifest_sha256 sample_payload)) ∧
  (∀ q, outside exported q → tree_of s' !! q = tree_of s !! q).
Proof.
  intros s. destruct (publish_active sample_payload exported s) as [s' r] eqn:E.
  exact (a_guest_never_reads_half_a_payload sample_payload exported sample_apart sample_clash_free sample_declared s s' r E).
Defined.

End example.
