(* ===== verification/PayloadArchive.v ===== *)
(** * PayloadArchive: what an archive may put on the disk

    crates/payload/src/archive.rs.  The zip crate is [ZipCrate]: what it makes of
    the bytes of a file, and what a read of a member gives.  Names are decoded and
    vetted here, the sizes and the number of the files are held to the entry's
    limits before anything is written, and no member writes more than was
    declared for it. *)

From stdpp Require Import strings gmap list sets.
From S2P Require Import Prelude Stateful ClipboardPath CoreRequest Layout HostFiles PayloadFiles PayloadKind PayloadPublish.
#[local] Open Scope Z_scope.

Definition PAYLOAD_MANIFEST_LIMIT : Z := 1024 * 1024.
Definition COPY_BUFFER_SIZE : Z := 64 * 1024.

(** ** Names *)

(** [std::str::from_utf8]: continuation bytes in order, no overlong form, no
    surrogate, nothing past U+10FFFF. *)
Definition continuation (b : Z) : bool := (128 <=? b) && (b <=? 191).
Fixpoint from_utf8 (bytes : list Z) : option str :=
  match bytes with
  | [] => Some []
  | b0 :: rest0 =>
      if b0 <? 128 then cons b0 <$> from_utf8 rest0
      else if b0 <? 194 then None
      else
        match rest0 with
        | [] => None
        | b1 :: rest1 =>
            if negb (continuation b1) then None
            else if b0 <? 224 then cons ((b0 - 192) * 64 + (b1 - 128)) <$> from_utf8 rest1
            else
              match rest1 with
              | [] => None
              | b2 :: rest2 =>
                  if negb (continuation b2) then None
                  else if b0 <? 240 then
                    let c := (b0 - 224) * 4096 + (b1 - 128) * 64 + (b2 - 128) in
                    if (c <? 2048) || ((55296 <=? c) && (c <=? 57343)) then None else cons c <$> from_utf8 rest2
                  else
                    match rest2 with
                    | [] => None
                    | b3 :: rest3 =>
                        let c := (b0 - 240) * 262144 + (b1 - 128) * 4096 + (b2 - 128) * 64 + (b3 - 128) in
                        if negb (continuation b3) || (c <? 65536) || (1114111 <? c) then None
                        else cons c <$> from_utf8 rest3
                    end
              end
        end
  end.

Definition is_ascii_alphabetic (c : Z) : bool := ((65 <=? c) && (c <=? 90)) || ((97 <=? c) && (c <=? 122)).

(** The double quote is written by its number. *)
Definition FORBIDDEN_IN_NAME : list Z := [60; 62; 58; 34; 124; 63; 42].
(** [COM1] to [COM9] and their superscript forms; likewise [LPT]. *)
Definition numbered_devices (family : str) : list str :=
  map (λ d, family ++ [d]) [49; 50; 51; 52; 53; 54; 55; 56; 57; 185; 178; 179].
Definition DEVICES : list str :=
  [text "CON"; text "PRN"; text "AUX"; text "NUL"; text "CONIN$"; text "CONOUT$"]
  ++ numbered_devices (text "COM") ++ numbered_devices (text "LPT").

Definition is_safe_component (component : str) : bool :=
  if str_eqb component [] || str_eqb component (text ".") || str_eqb component (text "..")
     || ends_with component dot || ends_with component space
     || existsb (λ c, (c <? space) || one_of FORBIDDEN_IN_NAME c) component
  then false
  else negb (existsb (str_eqb (map to_ascii_uppercase (stem_of component))) DEVICES).

Definition has_windows_prefix (name : str) : bool :=
  match name with a :: b :: _ => is_ascii_alphabetic a && (b =? colon) | _ => false end.

(** [Path::components] of a Windows path: a drive or a root in front, [..], and a
    leading [.] are not [Normal]; empty parts and other [.] are skipped. *)
Definition separators_split (name : str) : list str := concat (map (split backslash) (split slash name)).
Definition components_are_normal (name : str) : bool :=
  negb (has_windows_prefix name) &&
  match separators_split name with
  | first :: rest => negb (str_eqb first [] && negb (str_eqb name [])) && negb (str_eqb first (text "."))
      && forallb (λ part, negb (str_eqb part (text ".."))) (first :: rest)
  | [] => true
  end.

Definition validate_raw_name (name : str) : result PayloadError unit :=
  let ordinary_components :=
    negb (str_eqb name []) && negb (bool_decide (backslash ∈ name)) && negb (bool_decide (0 ∈ name))
    && negb (match name with c :: _ => c =? slash | [] => false end) && negb (has_windows_prefix name)
    && forallb is_safe_component (split slash name) in
  if negb ordinary_components || negb (components_are_normal name) then Err (UnsafeArchive name) else Ok tt.

(** ** The crate *)

Record Member : Type := mk_member {
  name_raw : list Z;
  enclosed_name : option path;
  member_is_dir : bool;
  unix_mode : option Z;
  member_size : Z;
  compressed_size : Z;
  (** What a read gives that has come so far and asks for so much; [None] fails. *)
  member_read : Z → Z → option (list Z) }.

Class ZipCrate := {
  ZipArchive : Type;
  zip_new : list Z → option ZipArchive;
  central_directory_start : ZipArchive → Z;
  zip_members : ZipArchive → list (option Member) }.

(** [read] gives what is left of the member, no more than was asked for, and
    nothing only at its end. *)
Class ZipLaws (Z0 : ZipCrate) : Prop := {
  read_bounded bytes z m at_ capacity got :
    zip_new bytes = Some z → Some m ∈ zip_members z → member_read m at_ capacity = Some got →
    zlen got <= Z.max 0 capacity;
  start_is_unsigned z : 0 <= central_directory_start z }.

Definition of_zip {A} (o : option A) : pact A :=
  let^ f := fate_of in match f, o with Works, Some a => good a | _, _ => bad ArchiveBroken end.
(** Looking at a file that is open. *)
Definition by_fate_read {A} (operation : string) (p : path) (o : option A) : pact A :=
  let^ f := fate_of in match f, o with Works, Some a => good a | _, _ => bad (PayloadIo operation p) end.
Definition refused {A} (e : PayloadError) (o : option A) : result PayloadError A :=
  match o with Some a => Ok a | None => Err e end.

(** ** The central directory *)

Definition CENTRAL_DIRECTORY_HEADER : Z := 33639248.
Definition FIXED_HEADER_AFTER_SIGNATURE : Z := 42.

(** [read_exact] at a position. *)
Definition exactly (n : Z) (bytes : list Z) (position : Z) : option (list Z) :=
  let got := take (Z.to_nat n) (drop (Z.to_nat position) bytes) in
  if zlen got =? n then Some got else None.

Definition inspecting : string := "inspect archive directory".

(** Every turn moves on by a header at least, so that there are no more turns
    than bytes. *)
Fixpoint central_names (fuel : nat) (archive : path) (bytes : list Z) (position : Z) (names : list (list Z)) :
    pact (list (list Z)) :=
  match fuel with
  | O => pure_of Panic
  | S fuel =>
      let^ signature := by_fate_read inspecting archive (exactly 4 bytes position) in
      if negb (from_le signature =? CENTRAL_DIRECTORY_HEADER) then good names
      else
        let^ header := by_fate_read inspecting archive (exactly FIXED_HEADER_AFTER_SIGNATURE bytes (position + 4)) in
        let field i := as_u16 (from_le (take 2 (drop i header))) in
        let^ name := by_fate_read inspecting archive
                       (exactly (field 24%nat) bytes (position + 4 + FIXED_HEADER_AFTER_SIGNATURE)) in
        if bool_decide (name ∈ names) then bad (UnsafeArchive [])
        else
          let^ _ := by_fate_read inspecting archive (Some tt) in
          central_names fuel archive bytes
            (position + 4 + FIXED_HEADER_AFTER_SIGNATURE + field 24%nat + field 26%nat + field 28%nat) (names ++ [name])
  end.
Definition read_central_names (archive : path) (bytes : list Z) (directory_start : Z) : pact (list (list Z)) :=
  let^ bytes := by_fate_read inspecting archive (Some bytes) in
  let^ _ := by_fate_read inspecting archive (Some tt) in
  central_names (S (length bytes)) archive bytes directory_start [].

(** ** Limits *)

Definition checked_limit_add (current amount : Z) (subject : string) (limit : Z) : result PayloadError Z :=
  let actual := current + amount in
  if U64_MAX <? actual then Err (LimitExceeded subject limit U64_MAX)
  else if limit <? actual then Err (LimitExceeded subject limit actual)
  else Ok actual.

Section extract.
Context `{Hash256} `{K : PayloadEntry} `{Z0 : ZipCrate}.

Fixpoint manifest_limits (files : list PreparedFile) (e : Entry) (count expanded : Z) : result PayloadError unit :=
  match files with
  | [] => Ok tt
  | f :: files =>
      let? count := checked_limit_add count 1 "archive file count" (file_count_limit e) in
      let? expanded := checked_limit_add expanded (prepared_size f) "expanded size" (expanded_size_limit e) in
      manifest_limits files e count expanded
  end.
Definition validate_manifest_limits (m : Manifest) (e : Entry) : result PayloadError unit :=
  manifest_limits (manifest_files m) e 0 0.

(** ** Members *)

Record InspectedEntry : Type := mk_inspected { inspected_index : nat; inspected_name : str; inspected_path : path; inspected_size : Z }.

Definition validate_member_type (m : Member) (raw_name : str) : result PayloadError unit :=
  if member_is_dir m then Err (UnsafeArchive raw_name)
  else match unix_mode m with
       | Some mode =>
           let file_type := Z.land mode 61440 in
           if negb (file_type =? 0) && negb (file_type =? 32768) then Err (UnsafeArchive raw_name) else Ok tt
       | None => Ok tt
       end.

Definition by_index (z : ZipArchive) (index : nat) : pact Member :=
  of_zip (mjoin (zip_members z !! index)).

Fixpoint inspect_loop (z : ZipArchive) (e : Entry) (archive_length : Z) (indices : list nat) (seen : list path)
    (prepared_count compressed : Z) (inspected : list InspectedEntry) : pact (list InspectedEntry) :=
  match indices with
  | [] => good inspected
  | index :: indices =>
      let^ member := by_index z index in
      let^ raw_name := pure_of (refused (UnsafeArchive []) (from_utf8 (name_raw member))) in
      let^ _ := pure_of (validate_raw_name raw_name) in
      let^ enclosed := pure_of (refused (UnsafeArchive raw_name) (enclosed_name member)) in
      if bool_decide (enclosed ∈ seen) then bad (UnsafeArchive raw_name)
      else
        let^ _ := pure_of (validate_member_type member raw_name) in
        let^ compressed :=
          pure_of (checked_limit_add compressed (compressed_size member) "compressed size" archive_length) in
        if str_eqb raw_name (text "payload.json") then
          inspect_loop z e archive_length indices (enclosed :: seen) prepared_count compressed inspected
        else
          let^ prepared_count :=
            pure_of (checked_limit_add prepared_count 1 "archive file count" (file_count_limit e)) in
          inspect_loop z e archive_length indices (enclosed :: seen) prepared_count compressed
            (inspected ++ [mk_inspected index raw_name enclosed (member_size member)])
  end.
Definition inspect_entries (z : ZipArchive) (e : Entry) (archive_length : Z) : pact (list InspectedEntry) :=
  inspect_loop z e archive_length (seq 0 (length (zip_members z))) [] 0 0 [].

(** [take(limit).read_to_end]: [None] is a read that failed. *)
Fixpoint read_to_end (fuel : nat) (m : Member) (limit : Z) (bytes : list Z) : option (list Z) :=
  match fuel with
  | O => Some bytes
  | S fuel =>
      let capacity := limit - zlen bytes in
      if capacity <=? 0 then Some bytes
      else
        match member_read m (zlen bytes) capacity with
        | None => None
        | Some [] => Some bytes
        | Some got => read_to_end fuel m limit (bytes ++ got)
        end
  end.

Definition read_payload_manifest (z : ZipArchive) (payload_index : nat) : pact (list Z) :=
  let^ payload := by_index z payload_index in
  let^ raw_name := pure_of (refused (UnsafeArchive []) (from_utf8 (name_raw payload))) in
  if negb (str_eqb raw_name (text "payload.json")) then bad (UnsafeArchive raw_name)
  else
    let^ _ := pure_of (validate_raw_name raw_name) in
    let^ _ := pure_of (validate_member_type payload raw_name) in
    if PAYLOAD_MANIFEST_LIMIT <? member_size payload
    then bad (LimitExceeded "payload.json" PAYLOAD_MANIFEST_LIMIT (member_size payload))
    else
      let^ bytes := of_zip (read_to_end (Z.to_nat (PAYLOAD_MANIFEST_LIMIT + 1)) payload (PAYLOAD_MANIFEST_LIMIT + 1) []) in
      if PAYLOAD_MANIFEST_LIMIT <? zlen bytes
      then bad (LimitExceeded "payload.json" PAYLOAD_MANIFEST_LIMIT (zlen bytes))
      else good bytes.

(** Every turn but the last writes a byte at least. *)
Fixpoint stream_loop (fuel : nat) (m : Member) (target : path) (name : str) (expected_size : Z) (hashed : list Z) :
    pact (list Z) :=
  match fuel with
  | O => pure_of Panic
  | S fuel =>
      let^ _ := check_cancelled in
      let remaining := expected_size - zlen hashed in
      if remaining =? 0 then
        let^ extra := of_zip (member_read m (zlen hashed) 1) in
        match extra with [] => good hashed | _ => bad (InvalidManifest name) end
      else
        let^ got := of_zip (member_read m (zlen hashed) (Z.min remaining COPY_BUFFER_SIZE)) in
        match got with
        | [] => bad (InvalidManifest name)
        | _ =>
            let^ _ := write_all "write extracted file" target got in
            stream_loop fuel m target name expected_size (hashed ++ got)
        end
  end.

Definition stream_member (m : Member) (target : path) (name : str) (expected_size : Z) (expected : Sha256Digest) :
    pact unit :=
  let^ _ := create_new "create extracted file" target in
  let^ hashed := stream_loop (S (Z.to_nat expected_size)) m target name expected_size [] in
  let^ _ := sync_all "flush extracted file" target in
  if bool_decide (sha256 hashed = expected) then good tt else bad (DigestMismatch name expected (sha256 hashed)).

(** ** Extracting *)

(** [HashMap::get] of what [manifest.files()] declares: the last of a name counts. *)
Definition declared_as (m : Manifest) (name : str) : option PreparedFile :=
  List.find (λ f, str_eqb (prepared_path f) name) (rev (manifest_files m)).

Fixpoint match_declared (m : Manifest) (inspected : list InspectedEntry) (consumed : list str) :
    result PayloadError (list str) :=
  match inspected with
  | [] => Ok consumed
  | i :: inspected =>
      match declared_as m (inspected_name i) with
      | None => Err (UnsafeArchive (inspected_name i))
      | Some expected =>
          if negb (inspected_size i =? prepared_size expected) then Err (InvalidManifest (inspected_name i))
          else if bool_decide (inspected_name i ∈ consumed) then Err (UnsafeArchive (inspected_name i))
          else match_declared m inspected (inspected_name i :: consumed)
      end
  end.

Fixpoint extract_members (z : ZipArchive) (m : Manifest) (destination : path) (inspected : list InspectedEntry) : pact unit :=
  match inspected with
  | [] => good tt
  | i :: inspected =>
      let^ _ := check_cancelled in
      let target := destination ++ inspected_path i in
      match declared_as m (inspected_name i) with
      | None => pure_of Panic
      | Some expected =>
          let^ _ := make_dirs "create extraction directory" (parent target) in
          let^ member := by_index z (inspected_index i) in
          let^ _ := stream_member member target (inspected_name i) (prepared_size expected) (prepared_sha256 expected) in
          extract_members z m destination inspected
      end
  end.

(** Where a name is in a list. *)
Fixpoint position_of (name : list Z) (names : list (list Z)) : option nat :=
  match names with
  | [] => None
  | n :: names => if str_eqb n name then Some O else S <$> position_of name names
  end.

Definition extract (e : Entry) (archive : path) (archive_length : Z) (destination : path) : pact (Manifest * Sources) :=
  let^ contents := read_all "open archive" archive in
  let^ z := of_zip (zip_new contents) in
  let^ names := read_central_names archive contents (central_directory_start z) in
  if negb (length names =? length (zip_members z))%nat then bad ArchiveBroken
  else
    let^ payload_index := pure_of (refused (UnsafeArchive []) (position_of (text "payload.json") names)) in
    let^ payload_bytes := read_payload_manifest z payload_index in
    let actual := sha256 payload_bytes in
    if negb (bool_decide (actual = payload_manifest_sha256 e))
    then bad (DigestMismatch (text "payload.json") (payload_manifest_sha256 e) actual)
    else
      let^ manifest := pure_of (parse_manifest e payload_bytes) in
      let^ _ := pure_of (validate_manifest_limits manifest e) in
      let^ inspected := inspect_entries z e archive_length in
      let^ consumed := pure_of (match_declared manifest inspected []) in
      if negb (length consumed =? length (remove_dups (map prepared_path (manifest_files manifest))))%nat
      then bad (InvalidManifest [])
      else
        let^ _ := write_new_file "write extracted payload.json" "flush extracted file" (destination ++ PAYLOAD_JSON)
                    payload_bytes in
        let^ _ := extract_members z manifest destination inspected in
        let^ source_bytes := read_all "read extracted sources.json" (destination ++ [text "sources.json"]) in
        let^ sources := pure_of (parse_sources e source_bytes) in
        let^ _ := pure_of (validate_prepared_files sources manifest) in
        good (manifest, sources).

(** ** It ends, and where it writes *)

Context {ZL : ZipLaws Z0} {KL : PayloadEntryLaws K}.

Lemma calm_result {A} (r : result PayloadError A) : r ≠ Panic → calm (pure_of r).
Proof. by intros Hr s. Qed.
Lemma calm_refused {A} e (o : option A) : calm (pure_of (refused e o)).
Proof. by destruct o. Qed.
Lemma calm_of_zip {A} (o : option A) : calm (of_zip o).
Proof. unfold of_zip. calming. Qed.
Lemma calm_by_fate {A} op p (o : option A) : calm (by_fate_read op p o).
Proof. unfold by_fate_read. calming. Qed.
Lemma calm_limit a b subject limit : calm (pure_of (checked_limit_add a b subject limit)).
Proof. apply calm_result. unfold checked_limit_add. by repeat case_match. Qed.
Lemma calm_raw_name n : calm (pure_of (validate_raw_name n)).
Proof. apply calm_result. unfold validate_raw_name. by repeat case_match. Qed.
Lemma calm_member_type m n : calm (pure_of (validate_member_type m n)).
Proof. apply calm_result. unfold validate_member_type. by repeat case_match. Qed.

End extract.

#[export] Hint Resolve calm_refused calm_of_zip calm_by_fate calm_limit calm_raw_name calm_member_type : store.
#[export] Hint Extern 1 (reads (of_zip _)) => unfold of_zip; reading : store.
#[export] Hint Extern 1 (reads (by_fate_read _ _ _)) => unfold by_fate_read; reading : store.

Section ends.
Context `{Hash256} `{K : PayloadEntry} `{Z0 : ZipCrate}.
Context {ZL : ZipLaws Z0} {KL : PayloadEntryLaws K}.

Lemma exactly_ok n bytes at_ got :
  0 <= at_ → 0 <= n → exactly n bytes at_ = Some got → at_ + n <= Z.max (zlen bytes) (at_).
Proof.
  unfold exactly. intros Ha Hn. destruct (Z.eqb_spec (zlen (take (Z.to_nat n) (drop (Z.to_nat at_) bytes))) n) as [E|]; [|done].
  intros _. rewrite length_take, length_drop in E. lia.
Qed.

Lemma by_fate_read_ok {A} op p (o : option A) s s' a : by_fate_read op p o s = (s', Ok a) → o = Some a.
Proof. unfold by_fate_read, abind. drawing s as f s1 Hs1. destruct f, o; try done. by intros [= _ <-]. Qed.
Lemma of_zip_ok {A} (o : option A) s s' a : of_zip o s = (s', Ok a) → o = Some a.
Proof. unfold of_zip, abind. drawing s as f s1 Hs1. destruct f, o; try done. by intros [= _ <-]. Qed.

Lemma calm_bind_ok {A B} (m : pact A) (k : A → pact B) :
  calm m → (∀ s s' a, m s = (s', Ok a) → calm (k a)) → calm (abind m k).
Proof.
  intros Hm Hk s. unfold abind. specialize (Hm s). destruct (m s) as [s1 [a|e|]] eqn:E; cbn in *; [|done..]. by eapply Hk.
Qed.

Lemma calm_central fuel archive bytes position names :
  0 <= position → (Z.max (zlen bytes) position - position < Z.of_nat fuel) → calm (central_names fuel archive bytes position names).
Proof.
  revert position names. induction fuel as [|fuel IH]; intros position names Hp Hf; cbn [central_names]; [lia|].
  apply calm_bind_ok; [apply calm_by_fate|]. intros s1 s1' signature Hs%by_fate_read_ok. apply exactly_ok in Hs; [|lia..].
  destruct (negb _); [apply calm_good|]. apply calm_then; [apply calm_by_fate|intros header].
  apply calm_then; [apply calm_by_fate|intros name]. case_bool_decide; [apply calm_bad|].
  apply calm_then; [apply calm_by_fate|intros _].
  pose proof (Z.mod_pos_bound (from_le (take 2 (drop 24 header))) 65536).
  pose proof (Z.mod_pos_bound (from_le (take 2 (drop 26 header))) 65536).
  pose proof (Z.mod_pos_bound (from_le (take 2 (drop 28 header))) 65536).
  apply IH; unfold FIXED_HEADER_AFTER_SIGNATURE, as_u16; lia.
Qed.
Lemma calm_read_central archive bytes start : 0 <= start → calm (read_central_names archive bytes start).
Proof.
  intros Hs. unfold read_central_names. apply calm_bind_ok; [apply calm_by_fate|]. intros s s' b [= ->]%by_fate_read_ok.
  apply calm_then; [apply calm_by_fate|intros _]. apply calm_central; [done|]. lia.
Qed.

Lemma calm_inspect z e len indices seen count compressed inspected :
  calm (inspect_loop z e len indices seen count compressed inspected).
Proof.
  revert seen count compressed inspected. induction indices; intros; cbn [inspect_loop]; [calming|]. unfold by_index. calming.
Qed.

Lemma calm_write_all op p bytes : calm (write_all op p bytes).
Proof. unfold write_all. calming. Qed.

Lemma calm_stream_loop fuel m target name n hashed :
  (∀ a c got, member_read m a c = Some got → zlen got <= Z.max 0 c) → zlen hashed <= n → n - zlen hashed < Z.of_nat fuel →
  calm (stream_loop fuel m target name n hashed).
Proof.
  intros Hr. revert hashed. induction fuel as [|fuel IH]; intros hashed Hn Hf; cbn [stream_loop]; [lia|].
  apply calm_then; [apply calm_cancelled|intros _]. destruct (Z.eqb_spec (n - zlen hashed) 0); [calming|].
  apply calm_bind_ok; [apply calm_of_zip|]. intros s s' got Hg%of_zip_ok%Hr. destruct got as [|b got]; [calming|].
  apply calm_then; [apply calm_write_all|intros _]. unfold COPY_BUFFER_SIZE in Hg.
  apply IH; rewrite length_app; cbn [length] in *; lia.
Qed.
Lemma calm_stream m target name n d :
  (∀ a c got, member_read m a c = Some got → zlen got <= Z.max 0 c) → 0 <= n → calm (stream_member m target name n d).
Proof.
  intros Hr Hn. unfold stream_member. apply calm_then; [unfold create_new; calming|intros _].
  apply calm_then; [apply calm_stream_loop; cbn; (done || lia)|intros h].
  apply calm_then; [unfold sync_all; calming|intros _]. calming.
Qed.

Lemma by_index_ok z i s s' m : by_index z i s = (s', Ok m) → Some m ∈ zip_members z.
Proof.
  intros E%of_zip_ok. destruct (zip_members z !! i) as [[m'|]|] eqn:Hi; simplify_eq/=. by eapply list_elem_of_lookup_2.
Qed.

Lemma declared_as_in m name f : declared_as m name = Some f → f ∈ manifest_files m ∧ prepared_path f = name.
Proof.
  intros E. apply find_some in E as [Hin E]. apply in_rev, list_elem_of_In in Hin. split; [done|]. by apply str_eqb_spec.
Qed.

Lemma match_declared_ok m inspected consumed consumed' :
  match_declared m inspected consumed = Ok consumed' → NoDup consumed →
  consumed' = rev (map inspected_name inspected) ++ consumed ∧ NoDup consumed' ∧
  Forall (λ i, is_Some (declared_as m (inspected_name i))) inspected.
Proof.
  revert consumed. induction inspected as [|i inspected IH]; intros consumed; cbn [match_declared]; [by intros [= <-]|].
  destruct (declared_as m (inspected_name i)) as [f|] eqn:Hd; [|done]. destruct (negb _); [done|].
  case_bool_decide as Hin; [done|]. intros E Hn. apply IH in E as (-> & Hn' & Hall); [|by constructor].
  split_and!; [by cbn; rewrite <- app_assoc|done|]. constructor; [by eexists|done].
Qed.
Lemma match_declared_ends m inspected consumed : match_declared m inspected consumed ≠ Panic.
Proof. revert consumed. induction inspected; intros consumed; cbn [match_declared]; [done|]. repeat case_match; auto. Qed.

Lemma calm_members z m destination inspected bytes :
  zip_new bytes = Some z → Forall (λ f, 0 <= prepared_size f) (manifest_files m) →
  Forall (λ i, is_Some (declared_as m (inspected_name i))) inspected → calm (extract_members z m destination inspected).
Proof.
  intros Hz Hs. induction 1 as [|i inspected [f Hf] _ IH]; cbn [extract_members]; [calming|].
  apply calm_then; [apply calm_cancelled|intros _]. rewrite Hf. apply calm_then; [calming|intros _].
  apply calm_bind_ok; [apply calm_of_zip|]. intros s s' mem Hm%by_index_ok. apply calm_then; [|done].
  apply declared_as_in in Hf as [Hf _]. eapply list.Forall_forall in Hs; [|exact Hf].
  apply calm_stream; [|done]. intros a c got. by eapply read_bounded.
Qed.

Lemma manifest_limits_end files e count expanded : manifest_limits files e count expanded ≠ Panic.
Proof.
  revert count expanded. induction files as [|f files IH]; intros; cbn [manifest_limits]; [done|].
  unfold checked_limit_add. repeat (case_match; cbn; try done).
Qed.
Lemma calm_read_payload z i : calm (read_payload_manifest z i).
Proof. unfold read_payload_manifest, by_index. calming. Qed.

Lemma pure_ok {S E A} (r : result E A) (s s' : S) a : pure_of r s = (s', Ok a) → s' = s ∧ r = Ok a.
Proof. by intros [= -> ->]. Qed.

Lemma calm_extract e archive len destination : calm (extract e archive len destination).
Proof using ZL KL.
  unfold extract. apply calm_then; [calming|intros contents].
  apply calm_bind_ok; [apply calm_of_zip|]. intros s1 s1' z Hz%of_zip_ok.
  apply calm_then; [apply calm_read_central, start_is_unsigned|intros names].
  destruct (negb _); [calming|]. apply calm_then; [apply calm_refused|intros i].
  apply calm_then; [apply calm_read_payload|intros payload]. destruct (negb _); [calming|].
  apply calm_bind_ok; [apply calm_result, parse_manifest_ends|]. intros s2 s2' m [_ Hm]%pure_ok.
  apply parsed_is_proper in Hm as (_ & _ & _ & Hsizes).
  apply calm_then; [apply calm_result, manifest_limits_end|intros _].
  apply calm_then; [apply calm_inspect|intros inspected].
  apply calm_bind_ok; [apply calm_result, match_declared_ends|]. intros s3 s3' consumed [_ Hc]%pure_ok.
  apply match_declared_ok in Hc as (_ & _ & Hall); [|constructor].
  destruct (negb _); [calming|]. apply calm_then; [calming|intros _].
  apply calm_then; [by eapply calm_members|intros _].
  apply calm_then; [calming|intros source_bytes].
  apply calm_then; [apply calm_result, parse_sources_ends|intros sources].
  apply calm_then; [apply calm_result, validate_prepared_ends|intros _]. calming.
Qed.

(** ** Nothing outside the destination *)

Lemma spares_stream_loop q fuel m target name n hashed : q ≠ target → spares q (stream_loop fuel m target name n hashed).
Proof.
  intros Hq. revert hashed. induction fuel as [|fuel IH]; intros hashed; cbn [stream_loop]; [by intros ?|].
  sparing; eauto using spares_write_all.
Qed.
Lemma spares_stream q m target name n d : q ≠ target → spares q (stream_member m target name n d).
Proof. intros Hq. unfold stream_member. sparing; [by apply spares_create_new|by apply spares_stream_loop]. Qed.

Lemma reads_of_zip {A} (o : option A) : reads (of_zip o).
Proof. unfold of_zip. reading. Qed.
Lemma reads_by_fate {A} op p (o : option A) : reads (by_fate_read op p o).
Proof. unfold by_fate_read. reading. Qed.
Lemma reads_central fuel archive bytes position names : reads (central_names fuel archive bytes position names).
Proof.
  revert position names. induction fuel as [|fuel IH]; intros position names; cbn [central_names]; [done|].
  apply reads_bind; [apply reads_by_fate|intros ?]. destruct (negb _); [done|].
  apply reads_bind; [apply reads_by_fate|intros ?]. apply reads_bind; [apply reads_by_fate|intros ?].
  case_bool_decide; [done|]. apply reads_bind; [apply reads_by_fate|intros ?]. apply IH.
Qed.
Lemma reads_read_central archive bytes start : reads (read_central_names archive bytes start).
Proof.
  unfold read_central_names. apply reads_bind; [apply reads_by_fate|intros ?].
  apply reads_bind; [apply reads_by_fate|intros ?]. apply reads_central.
Qed.
Lemma reads_inspect z e len indices seen count compressed inspected :
  reads (inspect_loop z e len indices seen count compressed inspected).
Proof.
  revert seen count compressed inspected. induction indices; intros; cbn [inspect_loop]; [done|]. unfold by_index.
  reading.
Qed.
Lemma reads_read_payload z i : reads (read_payload_manifest z i).
Proof. unfold read_payload_manifest, by_index. reading. Qed.

(** [q] is neither under the destination nor a directory on the way to it. *)
Definition beside (destination q : path) : Prop := under destination q = false ∧ under q destination = false.

Lemma beside_target destination q rel : beside destination q → q ≠ destination ++ rel.
Proof. intros [Hq _] ->. by rewrite under_app in Hq. Qed.
Lemma beside_way destination q rel : beside destination q → under q (destination ++ rel) = false.
Proof.
  intros [Hq Hq']. apply not_true_iff_false. intros Hu.
  destruct (under_either destination q (destination ++ rel) (under_app _ _) Hu); congruence.
Qed.

Lemma spares_members q z m destination inspected :
  beside destination q → spares q (extract_members z m destination inspected).
Proof.
  intros Hq. induction inspected as [|i inspected IH]; cbn [extract_members]; [by intros ?|].
  apply spares_then; [apply spares_reads, reads_cancelled|intros _]. destruct (declared_as _ _) as [f|]; [|by intros ?].
  apply spares_then; [|intros _].
  { apply spares_make_dirs. intros Hin%ways_to_parent. by rewrite beside_way in Hin. }
  apply spares_then; [apply spares_reads, reads_of_zip|intros member].
  apply spares_then; [by apply spares_stream, beside_target|done].
Qed.

(** Whatever the archive is. *)
Lemma spares_extract q e archive len destination :
  beside destination q → spares q (extract e archive len destination).
Proof.
  intros Hq. unfold extract.
  apply spares_then; [apply spares_reads, reads_all|intros contents].
  apply spares_then; [apply spares_reads, reads_of_zip|intros z].
  apply spares_then; [apply spares_reads, reads_read_central|intros names]. destruct (negb _); [by intros ?|].
  apply spares_then; [by intros ?|intros i].
  apply spares_then; [apply spares_reads, reads_read_payload|intros payload]. destruct (negb _); [by intros ?|].
  apply spares_then; [by intros ?|intros m]. apply spares_then; [by intros ?|intros _].
  apply spares_then; [apply spares_reads, reads_inspect|intros inspected].
  apply spares_then; [by intros ?|intros consumed]. destruct (negb _); [by intros ?|].
  apply spares_then; [by apply spares_write_new, beside_target|intros _].
  apply spares_then; [by apply spares_members|intros _].
  apply spares_then; [apply spares_reads, reads_all|intros source_bytes].
  apply spares_then; [by intros ?|intros sources]. by apply spares_then; [by intros ?|intros _ ?].
Qed.

End ends.

(** ** How much is written *)

Definition weight (d : path) (kv : path * node) : nat :=
  if under d kv.1 then match kv.2 with Some c => length c | None => O end else O.
(** The bytes of the files under a directory. *)
Definition stored (d : path) (fs : gmap path node) : nat := sum_list_with (weight d) (map_to_list fs).

Lemma stored_new d fs p v : fs !! p = None → stored d (<[p := v]> fs) = (weight d (p, v) + stored d fs)%nat.
Proof.
  intros Hp. unfold stored. by rewrite (sum_list_with_Permutation_proper _ _ _ (map_to_list_insert fs p v Hp)).
Qed.
Lemma stored_insert d fs p v old :
  fs !! p = Some old → (stored d (<[p := v]> fs) + weight d (p, old) = weight d (p, v) + stored d fs)%nat.
Proof.
  intros Hp. rewrite <- (insert_delete_id fs p old) at 2 by done. rewrite <- insert_delete_eq.
  rewrite !stored_new by apply lookup_delete_eq. lia.
Qed.

Definition grows {A} (d : path) (n : nat) (m : pact A) : Prop :=
  ∀ s, (stored d (tree_of (m s).1) <= stored d (tree_of s) + n)%nat.

Section grows.
Context (d : path).

Lemma grows_reads {A} (m : pact A) : reads m → grows d 0 m.
Proof. intros Hm s. rewrite Hm. lia. Qed.
Lemma grows_more {A} n n' (m : pact A) : grows d n m → (n <= n')%nat → grows d n' m.
Proof. intros Hm Hn s. specialize (Hm s). lia. Qed.
(** What is allowed to the second part depends on what the first came to. *)
Lemma grows_bind_ok {A B} n n1 (m : pact A) (k : A → pact B) :
  grows d n1 m → (n1 <= n)%nat → (∀ s s' a, m s = (s', Ok a) → grows d (n - n1) (k a)) → grows d n (abind m k).
Proof.
  intros Hm Hn Hk s. unfold abind. specialize (Hm s). destruct (m s) as [s1 [a|e|]] eqn:E; cbn in *; [|lia..].
  specialize (Hk _ _ _ E s1). lia.
Qed.
Lemma grows_after {A B} n (m : pact A) (k : A → pact B) :
  reads m → (∀ s s' a, m s = (s', Ok a) → grows d n (k a)) → grows d n (abind m k).
Proof.
  intros Hm Hk. eapply grows_bind_ok; [by apply grows_reads|lia|]. intros s s' a E. rewrite Nat.sub_0_r. by eapply Hk.
Qed.
Lemma grows_then {A B} n (m : pact A) (k : A → pact B) : grows d n m → (∀ a, grows d 0 (k a)) → grows d n (abind m k).
Proof.
  intros Hm Hk. eapply grows_bind_ok; [done|lia|]. intros s s' a _. eapply grows_more; [apply Hk|lia].
Qed.
Lemma grows_first {A B} n (m : pact A) (k : A → pact B) : grows d 0 m → (∀ a, grows d n (k a)) → grows d n (abind m k).
Proof. intros Hm Hk. eapply grows_bind_ok; [done|lia|]. intros s s' a _. by rewrite Nat.sub_0_r. Qed.

Lemma stored_make_directories todo fs : stored d (make_directories todo fs) = stored d fs.
Proof.
  revert fs. induction todo as [|p todo IH]; intros fs; cbn [make_directories]; [done|].
  destruct (fs !! p) as [[c|]|] eqn:Hp; [done|by rewrite IH|]. rewrite IH, stored_new by done. unfold weight. cbn.
  by destruct (under d p).
Qed.
Lemma grows_make_dirs op p : grows d 0 (make_dirs op p).
Proof.
  intros s. unfold make_dirs. rewrite as_io_tree. destruct (create_dir_all_files p (disk s)) as (todo & _ & ->).
  rewrite stored_make_directories. unfold tree_of. lia.
Qed.
Lemma grows_create_new op p : grows d 0 (create_new op p).
Proof.
  intros s. unfold create_new, abind at 1. drawing s as f s1 Hs1. unfold abind, gets. rewrite Hs1.
  destruct (tree_of s !! p) as [old|] eqn:Hp; cbn; [by rewrite Hs1; lia|].
  destruct f; cbn; [|by rewrite Hs1; lia]. destruct (is_directory _ _); cbn; [|by rewrite Hs1; lia].
  unfold tree_of in *. cbn. rewrite Hs1, stored_new by done. unfold weight. cbn. destruct (under d p); cbn; lia.
Qed.
Lemma grows_write_all op p bytes : grows d (length bytes) (write_all op p bytes).
Proof.
  intros s. unfold write_all, abind at 1. drawing s as f s1 Hs1. unfold abind, gets. rewrite Hs1.
  destruct (tree_of s !! p) as [[old|]|] eqn:Hp; cbn; [|by rewrite Hs1; lia..].
  assert (Hw : ∀ n, (stored d (<[p := Some (old ++ take n bytes)]> (tree_of s)) <= stored d (tree_of s) + length bytes)%nat).
  { intros n. pose proof (stored_insert d (tree_of s) p (Some (old ++ take n bytes)) _ Hp) as Hi. revert Hi. unfold weight. cbn.
    rewrite length_app, length_take. destruct (under d p); lia. }
  unfold tree_of in *. destruct f as [|n sp]; cbn; rewrite Hs1; [|apply Hw].
  specialize (Hw (length bytes)). by rewrite firstn_all in Hw.
Qed.
Lemma grows_write_new op fl p bytes : grows d (length bytes) (write_new_file op fl p bytes).
Proof.
  unfold write_new_file. apply grows_first; [apply grows_create_new|intros _].
  apply grows_then; [apply grows_write_all|intros _]. apply grows_reads, reads_sync.
Qed.

End grows.

Section limits.
Context `{Hash256} `{K : PayloadEntry} `{Z0 : ZipCrate}.
Context {ZL : ZipLaws Z0} {KL : PayloadEntryLaws K}.

Definition sizes (fs : list PreparedFile) : nat := sum_list_with (λ f, Z.to_nat (prepared_size f)) fs.

Lemma sizes_cons f fs : sizes (f :: fs) = (Z.to_nat (prepared_size f) + sizes fs)%nat.
Proof. done. Qed.

Lemma manifest_limits_ok files e count expanded :
  Forall (λ f, 0 <= prepared_size f) files → 0 <= expanded →
  manifest_limits files e count expanded = Ok tt → files = [] ∨ expanded + Z.of_nat (sizes files) <= expanded_size_limit e.
Proof.
  intros Hs. revert count expanded. induction Hs as [|f files Hf Hs IH]; intros count expanded He; [by left|].
  intros E. right. revert E. cbn [manifest_limits]. unfold checked_limit_add at 1. repeat (case_match; cbn [rbind]; try done).
  unfold checked_limit_add at 1. destruct (U64_MAX <? expanded + prepared_size f); cbn [rbind]; [done|].
  destruct (Z.ltb_spec (expanded_size_limit e) (expanded + prepared_size f)); cbn [rbind]; [done|]. intros E.
  rewrite sizes_cons. apply IH in E as [->|E]; [cbn|..]; lia.
Qed.

(** What is extracted under distinct names is no more than was declared. *)
Lemma sizes_declared m inspected :
  Forall (λ i, is_Some (declared_as m (inspected_name i))) inspected → NoDup (map inspected_name inspected) →
  (sizes (omap (λ i, declared_as m (inspected_name i)) inspected) <= sizes (manifest_files m))%nat.
Proof.
  intros Hall Hn. set (found := omap _ inspected).
  assert (Hnames : map prepared_path found = map inspected_name inspected).
  { unfold found. clear Hn. induction Hall as [|i inspected [f Hf] _ IH]; cbn; [done|]. rewrite Hf. cbn.
    f_equal; [by eapply declared_as_in|done]. }
  assert (Hsub : found ⊆+ manifest_files m).
  { apply NoDup_submseteq.
    - apply (NoDup_fmap_1 prepared_path). change (NoDup (map prepared_path found)). by rewrite Hnames.
    - intros f (i & _ & Hf)%list_elem_of_omap. by eapply declared_as_in. }
  apply submseteq_Permutation in Hsub as [rest Hp]. unfold sizes.
  rewrite (sum_list_with_Permutation_proper _ _ _ Hp), sum_list_with_app. lia.
Qed.

Lemma grows_stream_loop d fuel m target name n hashed :
  (∀ a c got, member_read m a c = Some got → zlen got <= Z.max 0 c) → zlen hashed <= n →
  grows d (Z.to_nat (n - zlen hashed)) (stream_loop fuel m target name n hashed).
Proof.
  intros Hr. revert hashed. induction fuel as [|fuel IH]; intros hashed Hn; cbn [stream_loop]; [intros s; cbn; lia|].
  apply grows_after; [apply reads_cancelled|intros _ _ _ _]. destruct (Z.eqb_spec (n - zlen hashed) 0).
  { eapply grows_more; [apply grows_reads; unfold of_zip; reading|lia]. }
  apply grows_after; [apply reads_of_zip|]. intros s s' got Hg%of_zip_ok%Hr.
  destruct got as [|b got]; [eapply grows_more; [by apply grows_reads|lia]|]. unfold COPY_BUFFER_SIZE in Hg.
  eapply grows_bind_ok; [apply grows_write_all|lia|]. intros s1 s1' _ _.
  eapply grows_more; [apply IH|]; rewrite length_app; cbn [length] in *; lia.
Qed.
Lemma grows_stream d m target name n digest :
  (∀ a c got, member_read m a c = Some got → zlen got <= Z.max 0 c) → 0 <= n →
  grows d (Z.to_nat n) (stream_member m target name n digest).
Proof.
  intros Hr Hn. unfold stream_member. apply grows_first; [apply grows_create_new|intros _].
  apply grows_then; [eapply grows_more; [apply grows_stream_loop; cbn; (done || lia)|cbn; lia]|intros h].
  apply grows_reads, reads_bind; [apply reads_sync|intros _]. by destruct (bool_decide _).
Qed.
Lemma grows_members d z m destination inspected bytes :
  zip_new bytes = Some z → Forall (λ f, 0 <= prepared_size f) (manifest_files m) →
  Forall (λ i, is_Some (declared_as m (inspected_name i))) inspected →
  grows d (sizes (omap (λ i, declared_as m (inspected_name i)) inspected)) (extract_members z m destination inspected).
Proof.
  intros Hz Hs. induction 1 as [|i inspected [f Hf] _ IH]; cbn [extract_members]; [by intros s; cbn; lia|].
  apply grows_after; [apply reads_cancelled|intros _ _ _ _]. cbn. rewrite Hf. cbn.
  apply grows_first; [apply grows_make_dirs|intros _]. apply grows_after; [apply reads_of_zip|].
  intros s s' mem Hm%by_index_ok. pose proof (declared_as_in _ _ _ Hf) as [Hin _].
  eapply list.Forall_forall in Hs; [|exact Hin].
  eapply grows_bind_ok; [apply grows_stream; [intros a c got; by eapply read_bounded|done]|lia|].
  intros _ _ _ _. eapply grows_more; [apply IH|]. unfold sizes. lia.
Qed.

Lemma read_payload_bound z i s s' bytes :
  read_payload_manifest z i s = (s', Ok bytes) → zlen bytes <= PAYLOAD_MANIFEST_LIMIT.
Proof.
  unfold read_payload_manifest. intros E. apply abind_ok in E as (? & ? & _ & E). apply abind_ok in E as (? & ? & _ & E).
  destruct (negb _) in E; [done|]. apply abind_ok in E as (? & ? & _ & E). apply abind_ok in E as (? & ? & _ & E).
  destruct (PAYLOAD_MANIFEST_LIMIT <? _) in E; [done|]. apply abind_ok in E as (s2 & got & _ & E).
  destruct (Z.ltb_spec PAYLOAD_MANIFEST_LIMIT (zlen got)); [done|]. by injection E as _ <-.
Qed.

Lemma grows_extract d e archive len destination :
  grows d (Z.to_nat (PAYLOAD_MANIFEST_LIMIT + Z.max 0 (expanded_size_limit e))) (extract e archive len destination).
Proof using ZL KL.
  unfold extract. apply grows_after; [apply reads_all|intros _ _ contents _].
  apply grows_after; [apply reads_of_zip|]. intros s1 s1' z Hz%of_zip_ok.
  apply grows_after; [apply reads_read_central|intros _ _ names _].
  destruct (negb _); [intros s; cbn; lia|]. apply grows_after; [done|intros _ _ i _].
  apply grows_after; [apply reads_read_payload|]. intros s0 s0' payload Hp%read_payload_bound.
  destruct (negb _); [intros s; cbn; lia|]. apply grows_after; [done|]. intros s2 s2' m [_ Hm]%pure_ok.
  apply parsed_is_proper in Hm as (_ & _ & _ & Hsizes).
  apply grows_after; [done|]. intros s3 s3' [] [_ Hl]%pure_ok. apply manifest_limits_ok in Hl; [|done..].
  apply grows_after; [apply reads_inspect|intros _ _ inspected _].
  apply grows_after; [done|]. intros s4 s4' consumed [_ Hc]%pure_ok.
  apply match_declared_ok in Hc as (-> & Hn & Hall); [|constructor]. rewrite app_nil_r in Hn.
  apply (NoDup_Permutation_proper _ _ (Permutation_rev _)) in Hn.
  destruct (negb _); [intros s; cbn; lia|].
  eapply grows_bind_ok; [apply grows_write_new|lia|intros _ _ _ _].
  pose proof (sizes_declared m inspected Hall) as Hdeclared.
  eapply grows_more with (n := sizes (manifest_files m)).
  2: { destruct Hl as [->|Hl]; [cbn; lia|]. cbn in Hl. lia. }
  apply grows_then.
  { eapply grows_more; [by eapply grows_members|]. by apply Hdeclared. }
  intros _. apply grows_reads, reads_bind; [apply reads_all|intros ?; reading].
Qed.

(** C10: Whatever an archive holds, and however its extraction ends, the files of
    the destination grow by no more than the limit of the manifest and the
    expanded size its entry allows together, nothing beside the destination is
    touched, and the extraction comes to an end. *)
Theorem an_archive_expands_within_its_limits e archive len destination s s' r :
  extract e archive len destination s = (s', r) →
  r ≠ Panic ∧
  Z.of_nat (stored destination (tree_of s')) <=
    Z.of_nat (stored destination (tree_of s)) + PAYLOAD_MANIFEST_LIMIT + Z.max 0 (expanded_size_limit e) ∧
  (∀ q, beside destination q → tree_of s' !! q = tree_of s !! q).
Proof using ZL KL.
  intros E. pose proof (calm_extract e archive len destination s) as Hc.
  pose proof (grows_extract destination e archive len destination s) as Hg. rewrite E in Hc, Hg.
  split_and!; [done| |intros q Hq].
  - cbn [fst] in Hg. unfold PAYLOAD_MANIFEST_LIMIT in *. lia.
  - eapply spares_run; [|exact E]. by apply spares_extract.
Qed.

End limits.

(** ** An archive of three members *)

Module SampleArchive.
Import SampleKind.

Definition central_header (name : str) : list Z :=
  [80; 75; 1; 2] ++ repeat 0 24 ++ [zlen name; 0; 0; 0; 0; 0] ++ repeat 0 12 ++ name.
Definition stored_member (name : str) (contents : list Z) : Member :=
  mk_member name (Some (split slash name)) false None (zlen contents) (zlen contents)
    (λ a c, Some (take (Z.to_nat c) (drop (Z.to_nat a) contents))).
Definition names : list str := [text "payload.json"; text "content/kbuild"; text "sources.json"].
Definition archive_bytes : list Z := concat (map central_header names) ++ [80; 75; 5; 6].
Definition members (contents : list (list Z)) : list (option Member) := zip_with (λ n c, Some (stored_member n c)) names contents.

(** An archive, and one like it whose first file is not what was declared. *)
Definition other_bytes : list Z := archive_bytes ++ [0].
#[export] Instance sample_zip : ZipCrate := {|
  ZipArchive := list (option Member);
  zip_new bytes :=
    if bool_decide (bytes = archive_bytes) then Some (members [document; kernel; sources_document])
    else if bool_decide (bytes = other_bytes) then Some (members [document; text "MODULE"; sources_document])
    else None;
  central_directory_start _ := 0;
  zip_members z := z;
|}.
#[export] Instance sample_zip_laws : ZipLaws sample_zip.
Proof.
  constructor; [|done]. intros bytes z m a c got. cbn. intros Hz Hm Hgot.
  assert (Hs : ∀ contents : list Z, Some (take (Z.to_nat c) (drop (Z.to_nat a) contents)) = Some got → zlen got <= Z.max 0 c).
  { intros contents [= <-]. rewrite length_take. lia. }
  repeat case_bool_decide; simplify_eq/=; cbn in Hm; rewrite !elem_of_cons, elem_of_nil in Hm;
    destruct Hm as [Hm|[Hm|[Hm|[]]]]; injection Hm as ->; exact (Hs _ Hgot).
Qed.

Definition sample_entry (bytes : list Z) : Entry := mk_test (sha256 bytes) 8 2.
Definition archive : path := [text "release"; text "test.zip"].
Definition target : path := [text "cache"; text "new"].
Definition unpacked (bytes : list Z) : Store :=
  mk_store (mk_world (list_to_map
    [ ([], None); ([text "release"], None); (archive, Some bytes); ([text "cache"], None); (target, None) ]) ∅ ∅ [] None []) 0%N.

Example extracted_whole :
  let '(s, r) := extract (sample_entry archive_bytes) archive (zlen archive_bytes) target (unpacked archive_bytes) in
  r = Ok (sample_files, tt) ∧ tree_of s !! (target ++ [text "content"; text "kbuild"]) = Some (Some kernel).
Proof. by vm_compute. Qed.
Example extracted_wrong :
  (extract (sample_entry other_bytes) archive (zlen other_bytes) target (unpacked other_bytes)).2 =
  Err (DigestMismatch (text "content/kbuild") (sha256 kernel) (sha256 (text "MODULE"))).
Proof. by vm_compute. Qed.

End SampleArchive.

Section witness.
Import SampleKind SampleArchive.

Lemma an_archive_expands_within_its_limits_witness :
  let s := unpacked archive_bytes in
  let '(s', r) := extract (sample_entry archive_bytes) archive (zlen archive_bytes) target s in
  r ≠ Panic ∧
  Z.of_nat (stored target (tree_of s')) <= Z.of_nat (stored target (tree_of s)) + PAYLOAD_MANIFEST_LIMIT + 8 ∧
  (∀ q, beside target q → tree_of s' !! q = tree_of s !! q).
Proof.
  intros s. destruct (extract (sample_entry archive_bytes) archive (zlen archive_bytes) target s) as [s' r] eqn:E.
  exact (an_archive_expands_within_its_limits (sample_entry archive_bytes) archive (zlen archive_bytes) target s s' r E).
Defined.

End witness.
