(* ===== verification/PayloadCache.v ===== *)
(** * PayloadCache: a payload is what the release pinned, whatever the cache holds

    crates/payload/src/cache.rs.  The cache is a directory named by the digest of
    an archive.  [load_ready] is the only way to a [ReadyPayload]: it looks at
    everything again; what does not pass is set aside under another name and made
    anew from the archive of the release, in a directory that is moved into place
    whole. *)

From stdpp Require Import strings pretty gmap list sets.
From S2P Require Import Prelude Stateful ClipboardPath CoreRequest Layout HostFiles Metadata PayloadFiles PayloadKind PayloadPublish PayloadArchive.
#[local] Open Scope Z_scope.

(** [{}] of an unsigned number. *)
Definition shown (n : N) : str := text (pretty n).

Section cache.
Context `{Hash256} `{K : PayloadEntry} `{Z0 : ZipCrate}.
(** The process, and whether another one holds the lock. *)
Variable process_id : N.
Variable locked_elsewhere : bool.

Definition refuse (p : path) : PayloadError := UnsafeArchive (concat p).

(** ** Checking what is there *)

Definition verify_digest (p : path) (expected : Sha256Digest) (subject : str) : pact unit :=
  let^ actual := hash_file "read cached file" p in
  if bool_decide (actual = expected) then good tt else bad (DigestMismatch subject expected actual).

Definition read_bounded_regular_file (p : path) (limit : Z) (operation : string) : pact (list Z) :=
  let^ size := require_regular_file (refuse p) operation p in
  if limit <? size then bad (LimitExceeded "cached metadata" limit size)
  else
    let^ bytes := read_all operation p in
    if limit <? zlen bytes then bad (LimitExceeded "cached metadata" limit (zlen bytes)) else good bytes.

Fixpoint expanded_loop (files : list PreparedFile) (e : Entry) (expanded : Z) : result PayloadError unit :=
  match files with
  | [] => Ok tt
  | f :: files =>
      let expanded := expanded + prepared_size f in
      if U64_MAX <? expanded then Err (LimitExceeded "expanded size" (expanded_size_limit e) U64_MAX)
      else if expanded_size_limit e <? expanded then Err (LimitExceeded "expanded size" (expanded_size_limit e) expanded)
      else expanded_loop files e expanded
  end.
Definition cached_manifest_limits (m : Manifest) (e : Entry) : result PayloadError unit :=
  let count := zlen (manifest_files m) in
  if file_count_limit e <? count then Err (LimitExceeded "archive file count" (file_count_limit e) count)
  else expanded_loop (manifest_files m) e 0.

(** The entries of a directory, each looked at; [visit] walks the directories. *)
Fixpoint collect_names (visit : path → pact (list path)) (root directory : path) (names : list str) : pact (list path) :=
  match names with
  | [] => good []
  | name :: names =>
      let p := directory ++ [name] in
      let^ n := metadata "inspect cached file" p in
      let^ found := match n with None => visit p | Some _ => good [drop (length root) p] end in
      let^ rest := collect_names visit root directory names in
      good (found ++ rest)
  end.
Fixpoint collect_regular_files (fuel : nat) (root directory : path) : pact (list path) :=
  match fuel with
  | O => pure_of Panic
  | S fuel =>
      let^ names := read_dir "inspect cached files" directory in
      collect_names (collect_regular_files fuel root) root directory names
  end.

(** No directory is deeper than the longest path. *)
Definition deepest (fs : gmap path node) : nat := foldr Nat.max O (map (λ kv, length kv.1) (map_to_list fs)).

Definition expected_paths (m : Manifest) : list path :=
  PAYLOAD_JSON :: map (λ f, relative (prepared_path f)) (manifest_files m).
Definition verify_cached_tree (root : path) (m : Manifest) : pact unit :=
  let^ depth := gets (λ s, deepest (tree_of s)) in
  let^ actual := collect_regular_files (S depth) root root in
  if bool_decide (list_to_set (C := gset path) actual = list_to_set (expected_paths m)) then good tt
  else bad (InvalidManifest []).

Fixpoint verify_files (directory : path) (files : list PreparedFile) : pact unit :=
  match files with
  | [] => good tt
  | f :: files =>
      let^ _ := check_cancelled in
      let p := directory ++ relative (prepared_path f) in
      let^ actual_size := require_regular_file (refuse p) "verify cached file" p in
      if negb (actual_size =? prepared_size f) then bad (InvalidManifest (prepared_path f))
      else
        let^ _ := verify_digest p (prepared_sha256 f) (prepared_path f) in
        verify_files directory files
  end.

Definition ARCHIVE_ZIP : path := [text "archive.zip"].
Definition FILES : path := [text "files"].
Definition SOURCES_JSON : path := [text "sources.json"].
Definition PROVENANCE_JSON : path := [text "provenance.json"].

Definition load_ready (e : Entry) (root : path) : pact ReadyPayload :=
  let^ _ := require_directory (refuse root) "verify cached payload directory" root in
  let^ _ := check_cancelled in
  let archive_path := root ++ ARCHIVE_ZIP in
  let^ _ := require_regular_file (refuse archive_path) "verify cached archive" archive_path in
  let^ _ := verify_digest archive_path (archive_sha256 e) (payload_id e) in
  let files_directory := root ++ FILES in
  let^ _ := require_directory (refuse files_directory) "verify cached files directory" files_directory in
  let^ payload_bytes :=
    read_bounded_regular_file (files_directory ++ PAYLOAD_JSON) PAYLOAD_MANIFEST_LIMIT "read cached payload manifest" in
  let actual := sha256 payload_bytes in
  if negb (bool_decide (actual = payload_manifest_sha256 e))
  then bad (DigestMismatch (text "payload.json") (payload_manifest_sha256 e) actual)
  else
    let^ manifest := pure_of (parse_manifest e payload_bytes) in
    let^ _ := pure_of (cached_manifest_limits manifest e) in
    let^ _ := verify_cached_tree files_directory manifest in
    let^ _ := verify_files files_directory (manifest_files manifest) in
    match List.find (λ f, str_eqb (prepared_path f) (text "sources.json")) (manifest_files manifest) with
    | None => pure_of Panic
    | Some f =>
        let^ source_bytes :=
          read_bounded_regular_file (files_directory ++ SOURCES_JSON) (prepared_size f) "read cached sources manifest" in
        let^ sources := pure_of (parse_sources e source_bytes) in
        let^ _ := pure_of (validate_prepared_files sources manifest) in
        let provenance_path := root ++ PROVENANCE_JSON in
        let^ expected_provenance := pure_of (cache_provenance e sources) in
        let^ actual_provenance :=
          read_bounded_regular_file provenance_path (zlen expected_provenance) "read cached provenance" in
        if negb (bool_decide (actual_provenance = expected_provenance)) then bad (InvalidManifest [])
        else good (mk_ready (payload_id e) (archive_sha256 e) (payload_manifest_sha256 e) files_directory manifest
                     provenance_path)
    end.

(** ** Names of one's own *)

Definition unique_operation_path (root : path) (e : Entry) (kind : string) (sequence : N) : path :=
  root ++ [as_hex (archive_sha256 e) ++ text "." ++ text kind ++ text "-" ++ shown process_id ++ text "-" ++ shown sequence].

(** A loop that takes another number while the name is taken; the turns are more
    than there are paths. *)
Fixpoint retrying {A} (fuel : nat) (named : N → path) (attempt : path → pact (option A)) : pact A :=
  match fuel with
  | O => pure_of Panic
  | S fuel =>
      let^ n := take_number in
      let^ o := attempt (named n) in
      match o with Some a => good a | None => retrying fuel named attempt end
  end.
Definition retried {A} (named : N → path) (attempt : path → pact (option A)) : pact A :=
  let^ entries := gets (λ s, base.size (tree_of s)) in retrying (S entries) named attempt.

Definition create_temporary_directory (root : path) (e : Entry) : pact path :=
  retried (unique_operation_path root e "tmp") (λ p,
    let^ made := create_dir "create cache temporary directory" p in good (if made : bool then Some p else None)).

Definition quarantine (source : path) (e : Entry) : pact (option path) :=
  retried (unique_operation_path (parent source) e "corrupt") (λ destination,
    let^ o := rename_noreplace source destination in
    match o with
    | Renamed => good (Some (Some destination))
    | AlreadyExists => good None
    | NotFound => good (Some None)
    | Refused => bad (PayloadIo "quarantine corrupt cache entry" source)
    end).

(** ** Making an entry *)

Definition CACHE_BUFFER_SIZE : Z := 64 * 1024.

(** A read of a file fills the buffer while there is enough left. *)
Fixpoint copy_loop (fuel : nat) (input : list Z) (source destination : path) (expected_size copied : Z) : pact Z :=
  match fuel with
  | O => pure_of Panic
  | S fuel =>
      if expected_size <=? copied then good copied
      else
        let^ _ := check_cancelled in
        let capacity := Z.min (expected_size - copied) CACHE_BUFFER_SIZE in
        let^ got := by_fate_read "copy verified archive" source
                      (Some (take (Z.to_nat capacity) (drop (Z.to_nat copied) input))) in
        match got with
        | [] => bad (ArchiveSizeMismatch expected_size copied)
        | _ =>
            let^ _ := write_all "copy verified archive" destination got in
            copy_loop fuel input source destination expected_size (copied + zlen got)
        end
  end.
Definition copy_and_flush (source destination : path) (expected_size : Z) : pact unit :=
  let^ input := read_all "open verified archive" source in
  let^ _ := create_new "copy verified archive" destination in
  let^ copied := copy_loop (S (Z.to_nat expected_size)) input source destination expected_size 0 in
  let^ extra := by_fate_read "copy verified archive" source (Some (take 1 (drop (Z.to_nat copied) input))) in
  match extra with
  | [] => sync_all "flush verified archive" destination
  | _ => bad (ArchiveSizeMismatch expected_size (u64_saturating_add expected_size 1))
  end.

Definition write_and_flush (p : path) (bytes : list Z) (operation : string) : pact unit :=
  write_new_file operation "flush cache metadata" p bytes.

(** Everything of an entry, in a directory of its own. *)
Definition fill (e : Entry) (archive temporary : path) : pact unit :=
  let files_directory := temporary ++ FILES in
  let^ made := create_dir "create cache temporary files directory" files_directory in
  if negb made then bad (PayloadIo "create cache temporary files directory" files_directory)
  else
    let^ archive_length := require_regular_file (refuse archive) "read release archive" archive in
    let cached_archive := temporary ++ ARCHIVE_ZIP in
    let^ _ := copy_and_flush archive cached_archive archive_length in
    let^ _ := verify_digest cached_archive (archive_sha256 e) (payload_id e) in
    let^ extracted := extract e cached_archive archive_length files_directory in
    let^ provenance := pure_of (cache_provenance e (snd extracted)) in
    write_and_flush (temporary ++ PROVENANCE_JSON) provenance "write provenance".

Definition is_cancellation (e : PayloadError) : bool := match e with PayloadCancelled => true | _ => false end.

(** What the last part came to, what it set aside, and whether the temporary
    directory is still there to be removed. *)
Definition published_as : Type := result PayloadError ReadyPayload * list path * bool.

(** One that fails to move aside ends the loop; one that moved is not there in
    the next turn. *)
Fixpoint publish_loop (fuel : nat) (e : Entry) (temporary final : path) (qs : list path) : pact published_as :=
  match fuel with
  | O => pure_of Panic
  | S fuel =>
      let^ o := rename_noreplace temporary final in
      match o with
      | Renamed =>
          let^ ready := try_it (load_ready e final) in
          let^ there := path_is_there final in
          match ready with
          | Err _ =>
              if there : bool then
                let^ q := try_it (quarantine final e) in
                match q with
                | Ok q => good (ready, qs ++ option_list q, false)
                | Err error => good (Err error, qs, false)
                | Panic => pure_of Panic
                end
              else good (ready, qs, false)
          | _ => good (ready, qs, false)
          end
      | _ =>
          let^ there := path_is_there final in
          if there : bool then
            let^ ready := try_it (load_ready e final) in
            match ready with
            | Ok _ => good (ready, qs, true)
            | Err error =>
                if is_cancellation error then good (ready, qs, true)
                else
                  let^ q := try_it (quarantine final e) in
                  match q with
                  | Ok q => publish_loop fuel e temporary final (qs ++ option_list q)
                  | Err error => good (Err error, qs, true)
                  | Panic => pure_of Panic
                  end
            | Panic => pure_of Panic
            end
          else good (Err (PayloadIo "publish cache entry" final), qs, true)
      end
  end.

(** An entry that is there: it is loaded, or set aside. *)
Definition reload (e : Entry) (final : path) : pact (ReadyPayload + list path) :=
  let^ there := path_is_there final in
  if there : bool then
    let^ ready := try_it (load_ready e final) in
    match ready with
    | Ok ready => good (inl ready)
    | Err error =>
        if is_cancellation error then bad error
        else let^ q := quarantine final e in good (inr (option_list q))
    | Panic => pure_of Panic
    end
  else good (inr []).

(** In a directory of one's own; it goes, and what was set aside after it. *)
Definition make_entry (e : Entry) (archive temporary final : path) (qs : list path) : pact ReadyPayload :=
  let^ filled := try_it (fill e archive temporary) in
  let^ outcome :=
    match filled with
    | Ok _ => publish_loop 2 e temporary final qs
    | Err error => good (Err error, qs, true)
    | Panic => pure_of Panic
    end in
  let '(ready, qs, armed) := outcome in
  let^ _ := if armed : bool then discard temporary else good tt in
  let^ _ := discard_all qs in
  pure_of ready.

Definition prepare_verified_archive (e : Entry) (archive root : path) : pact ReadyPayload :=
  let^ _ := make_dirs "create GPU payload cache" root in
  let final := root ++ [as_hex (archive_sha256 e)] in
  let^ first := reload e final in
  match first with
  | inl ready => good ready
  | inr qs =>
      let^ made := try_it (create_temporary_directory root e) in
      match made with
      | Panic => pure_of Panic
      | Err error => let^ _ := discard_all qs in bad error
      | Ok temporary =>
          make_entry e archive temporary final qs
      end
  end.

(** [DigestLock::acquire]; the lock goes when the caller is done. *)
Definition open_lock (operation : string) (p : path) : pact unit :=
  let^ f := fate_of in
  let^ found := gets (λ s, tree_of s !! p) in
  let^ parent_there := gets (λ s, is_directory (tree_of s) (parent p)) in
  match f, found, parent_there with
  | Works, Some (Some _), _ => good tt
  | Works, None, true => alter_files <[p := Some []]>
  | _, _, _ => bad (PayloadIo operation p)
  end.
Definition acquire (root : path) (e : Entry) : pact unit :=
  let^ _ := make_dirs "create GPU payload cache" root in
  let p := root ++ [as_hex (archive_sha256 e) ++ text ".lock"] in
  let^ _ := open_lock "open payload digest lock" p in
  if locked_elsewhere then bad (AlreadyInProgress p) else by_fate_read "lock payload digest" p (Some tt).

Definition prepare (e : Entry) (cache_root archive : path) : pact ReadyPayload :=
  let root := cache_root ++ [NAMESPACE; text "v1"] in
  let^ _ := acquire root e in
  let final := root ++ [as_hex (archive_sha256 e)] in
  let^ first := reload e final in
  match first with
  | inl ready => good ready
  | inr qs => finally (prepare_verified_archive e archive root) (discard_all qs)
  end.

End cache.

(** ** Moving *)

Lemma list_to_map_keys (g : path → path) (l : list (path * node)) p q :
  (∀ kv, kv ∈ l → g kv.1 = q ↔ kv.1 = p) →
  list_to_map (M := gmap path node) ((λ kv, (g kv.1, kv.2)) <$> l) !! q = list_to_map (M := gmap path node) l !! p.
Proof.
  induction l as [|[k v] l IH]; intros Hg; cbn; [done|].
  assert (Hl : ∀ kv, kv ∈ l → g kv.1 = q ↔ kv.1 = p) by (intros kv Hin; apply Hg; by right).
  destruct (Hg (k, v)) as [H1 H2]; [left|]. cbn in *. destruct (decide (k = p)) as [->|Hk].
  - by rewrite H2, !lookup_insert_eq.
  - rewrite !lookup_insert_ne by (done || intros E; apply Hk, H1; done). by apply IH.
Qed.

Lemma move_elsewhere source target fs q : under source q = false → under target q = false → move source target fs !! q = fs !! q.
Proof.
  intros Hs Ht. unfold move. rewrite (list_to_map_keys _ _ q).
  - by rewrite list_to_map_to_list.
  - intros [k v] _. cbn. unfold moved_key. destruct (under source k) eqn:Hk; [|done]. split; intros <-; [|congruence].
    by rewrite under_app in Ht.
Qed.
Lemma move_source source target fs : under target source = false → move source target fs !! source = None.
Proof.
  intros Ht. unfold move. apply not_elem_of_list_to_map_1. rewrite <- list_fmap_compose.
  intros ([k v] & Hk & _)%list_elem_of_fmap. cbn in Hk. unfold moved_key in Hk. destruct (under source k) eqn:Hu.
  - rewrite Hk in Ht at 1. by rewrite under_app in Ht.
  - rewrite <- Hk in Hu. by rewrite under_refl in Hu.
Qed.

(** What was under the source is under the target, where nothing was. *)
Lemma move_target source target rel fs :
  fs !! (target ++ rel) = None → move source target fs !! (target ++ rel) = fs !! (source ++ rel).
Proof.
  intros Hfree. unfold move. rewrite (list_to_map_keys _ _ (source ++ rel)).
  - by rewrite list_to_map_to_list.
  - intros [k v] Hin. cbn. unfold moved_key. destruct (under source k) eqn:Hk.
    + apply under_spec in Hk as [rest ->]. rewrite drop_app_length. split; intros E; by apply app_inv_head in E as ->.
    + split; intros ->; [|by rewrite under_app in Hk]. apply elem_of_map_to_list in Hin. by rewrite Hfree in Hin.
Qed.

Lemma rename_noreplace_does a b s s' r :
  rename_noreplace a b s = (s', r) →
  (r = Ok Renamed ∧ tree_of s' = move a b (tree_of s) ∧ is_some (tree_of s !! b) = false) ∨
  (tree_of s' = tree_of s ∧
   ((r = Ok AlreadyExists ∧ is_some (tree_of s !! b) = true) ∨
    (is_some (tree_of s !! b) = false ∧ (r = Ok Refused ∨ r = Ok NotFound ∧ tree_of s !! a = None)))).
Proof.
  unfold rename_noreplace, abind at 1. drawing s as f s1 Hs1. unfold path_is_there, abind, gets. rewrite Hs1.
  destruct (is_some (tree_of s !! b)) eqn:Hb; [intros [= <- <-]; right; auto|].
  destruct (tree_of s !! a) as [v|] eqn:Ha; cbn [is_some negb].
  - destruct f as [|n sp]; cbn; [destruct (_ && _) in |- *|]; intros [= <- <-]; [left|right; auto..].
    split_and!; [done| |done]. unfold tree_of in *. cbn. by rewrite Hs1.
  - intros [= <- <-]. right. auto 10.
Qed.
Lemma spares_rename_noreplace q a b : under a q = false → under b q = false → spares q (rename_noreplace a b).
Proof.
  intros Ha Hb s. destruct (rename_noreplace a b s) as [s' r] eqn:E. cbn.
  apply rename_noreplace_does in E as [(_ & -> & _)|[-> _]]; [by apply move_elsewhere|done].
Qed.

(** ** Names that are not taken *)

Lemma text_inj a b : text a = text b → a = b.
Proof.
  unfold text. intros E. rewrite <- (String.string_of_list_ascii_of_string a), <- (String.string_of_list_ascii_of_string b).
  f_equal. revert E. generalize (String.list_ascii_of_string a) (String.list_ascii_of_string b).
  induction l as [|c l IH]; intros [|d k]; cbn; [done..|]. intros [= Hc Hl]. f_equal; [|by apply IH].
  apply Nat2Z.inj, (f_equal Ascii.ascii_of_nat) in Hc. by rewrite !Ascii.ascii_nat_embedding in Hc.
Qed.
Lemma shown_inj a b : shown a = shown b → a = b.
Proof. intros E%text_inj. by apply pretty_N_inj in E. Qed.

Section names.
Context `{Hash256} `{K : PayloadEntry}.
Variable process_id : N.
#[local] Abbreviation unique := (unique_operation_path process_id).

Lemma unique_inj root e kind a b : unique root e kind a = unique root e kind b → a = b.
Proof. intros [_ E]%app_inj_tail. do 6 apply app_inv_head in E. by apply shown_inj. Qed.

(** A sibling of the entries, and none of them. *)
Lemma unique_sibling root e kind n : ∃ name, unique root e kind n = root ++ [name] ∧ name ≠ as_hex (archive_sha256 e).
Proof.
  eexists. split; [done|]. intros E. apply (f_equal length) in E. rewrite !length_app in E. cbn in E. lia.
Qed.

(** More turns than paths: one of the names is free. *)
Lemma retrying_ends {A} fuel (named : N → path) (attempt : path → pact (option A)) s taken :
  (∀ a b, named a = named b → a = b) →
  (∀ p, calm (attempt p)) →
  (∀ p s s', attempt p s = (s', Ok None) → tree_of s' = tree_of s ∧ is_some (tree_of s !! p) = true ∧ next_operation s' = next_operation s) →
  NoDup taken → (∀ p, p ∈ taken → is_some (tree_of s !! p) = true) →
  (∀ n, named n ∈ taken → (n < next_operation s)%N) →
  (base.size (tree_of s) < fuel + length taken)%nat → (retrying fuel named attempt s).2 ≠ Panic.
Proof.
  intros Hinj Hcalm Hnone. revert s taken. induction fuel as [|fuel IH]; intros s taken Hn Ht Hnext Hf; cbn [retrying].
  - exfalso. cut (length taken <= base.size (tree_of s))%nat; [lia|].
    rewrite <- (size_list_to_set (C := gset path)), <- size_dom by done. apply subseteq_size. intros p Hp.
    apply elem_of_list_to_set, Ht in Hp. apply elem_of_dom. by destruct (tree_of s !! p).
  - unfold abind at 1, take_number. set (s0 := mk_store _ _). set (n := next_operation s).
    unfold abind. destruct (attempt (named n) s0) as [s1 [[a|]|e|]] eqn:E; cbn; [done| |done|].
    + apply Hnone in E as (H1 & Htaken & Hop). apply (IH s1 (named n :: taken)).
      * apply NoDup_cons_2; [|done]. intros Hin%Hnext. lia.
      * rewrite H1. intros p [->|Hp]%elem_of_cons; [done|by apply Ht].
      * rewrite Hop. cbn. intros m [Hm%Hinj|Hm%Hnext]%elem_of_cons; [subst m; lia|lia].
      * rewrite H1. cbn [length]. change (tree_of s0) with (tree_of s). lia.
    + pose proof (Hcalm (named n) s0) as Hc. by rewrite E in Hc.
Qed.
Lemma calm_retried {A} (named : N → path) (attempt : path → pact (option A)) :
  (∀ a b, named a = named b → a = b) → (∀ p, calm (attempt p)) →
  (∀ p s s', attempt p s = (s', Ok None) → tree_of s' = tree_of s ∧ is_some (tree_of s !! p) = true ∧ next_operation s' = next_operation s) →
  calm (retried named attempt).
Proof.
  intros Hinj Hcalm Hnone s. unfold retried, abind, gets. apply (retrying_ends _ _ _ _ []); try done.
  - apply NoDup_nil_2.
  - by intros p ?%elem_of_nil.
  - by intros n ?%elem_of_nil.
  - cbn. lia.
Qed.

(** An attempt that is given up has not changed anything of what is kept. *)
Lemma retrying_does {A} fuel (named : N → path) (attempt : path → pact (option A)) s s' r :
  (∀ p s s', attempt p s = (s', Ok None) → tree_of s' = tree_of s) →
  retrying fuel named attempt s = (s', r) →
  r = Panic ∨ ∃ n s0 r0, tree_of s0 = tree_of s ∧ attempt (named n) s0 = (s', r0) ∧
    match r0 with Ok (Some a) => r = Ok a | Ok None => False | Err e => r = Err e | Panic => r = Panic end.
Proof.
  intros Hnone. revert s. induction fuel as [|fuel IH]; intros s; cbn [retrying]; [intros [= _ <-]; by left|].
  unfold abind at 1, take_number. set (s0 := mk_store _ _). unfold abind.
  destruct (attempt _ s0) as [s1 [[a|]|e|]] eqn:E.
  - intros [= -> <-]. right. by exists (next_operation s), s0, (Ok (Some a)).
  - intros Hr. apply Hnone in E. apply IH in Hr as [?|(n & s2 & r0 & H2 & Ha & Hr)]; [by left|right].
    exists n, s2, r0. by rewrite H2, E.
  - intros [= -> <-]. right. by exists (next_operation s), s0, (Err e).
  - intros [= -> <-]. by left.
Qed.

Lemma fate_of_number s : next_operation (fate_of s).1 = next_operation s.
Proof. unfold fate_of, on_disk, next_fate. by destruct (fates (disk s)). Qed.

Lemma create_dir_none op p s s' :
  create_dir op p s = (s', Ok false) → tree_of s' = tree_of s ∧ is_some (tree_of s !! p) = true ∧ next_operation s' = next_operation s.
Proof.
  intros E. pose proof (fate_of_number s) as Hn. destruct (fate_of_tree s) as (f & s1 & Ef & Hs1). rewrite Ef in Hn.
  unfold create_dir, abind in E. rewrite Ef in E. unfold gets in E. cbn in E, Hn. rewrite Hs1 in E.
  destruct (tree_of s !! p) as [v|] eqn:Hp; [by injection E as <-|].
  destruct f; [|done]. by destruct (is_directory _ _) in E.
Qed.
Lemma rename_none a b s s' :
  rename_noreplace a b s = (s', Ok AlreadyExists) →
  tree_of s' = tree_of s ∧ is_some (tree_of s !! b) = true ∧ next_operation s' = next_operation s.
Proof.
  intros E. pose proof (fate_of_number s) as Hn. destruct (fate_of_tree s) as (f & s1 & Ef & Hs1). rewrite Ef in Hn.
  unfold rename_noreplace, path_is_there, abind in E. rewrite Ef in E. unfold gets in E. cbn in E, Hn. rewrite Hs1 in E.
  destruct (is_some (tree_of s !! b)) eqn:Hb; [by injection E as <-|].
  destruct (negb _) in E; [done|]. destruct f; [|done]. by destruct (_ && _) in E.
Qed.

Lemma calm_create_temporary root e : calm (create_temporary_directory process_id root e).
Proof.
  apply calm_retried; [apply unique_inj|intros p; calming|]. intros p s s' E.
  apply abind_ok in E as (s1 & made & E & Hk). destruct made; [done|]. injection Hk as <-. by eapply create_dir_none.
Qed.
Lemma calm_quarantine source e : calm (quarantine process_id source e).
Proof.
  apply calm_retried; [apply unique_inj|intros p; apply calm_then; [calming|intros []; calming]|]. intros p s s' E.
  apply abind_ok in E as (s1 & o & E & Hk). destruct o; try done. injection Hk as <-. by eapply rename_none.
Qed.

(** A directory of one's own was not there before. *)
Lemma create_temporary_does root e s s' r :
  create_temporary_directory process_id root e s = (s', r) →
  ∃ n, let p := unique root e "tmp" n in
  (∀ q, q ≠ p → tree_of s' !! q = tree_of s !! q) ∧ ∀ t, r = Ok t → t = p.
Proof.
  intros E. pose proof (calm_create_temporary root e s) as Hc. rewrite E in Hc. cbn in Hc. revert E.
  unfold create_temporary_directory, retried, abind at 1, gets. intros E.
  apply retrying_does in E as [?|(n & s0 & r0 & H0 & Ha & Hr)]; [done| |].
  - exists n. split.
    + intros q Hq. rewrite <- H0. eapply spares_run; [|exact Ha]. apply spares_then; [by apply spares_create_dir|]. by intros a s1.
    + intros t ->. destruct r0 as [[t'|]|e0|]; try done. injection Hr as <-. apply abind_ok in Ha as (s1 & [] & _ & Hk); [|done].
      by injection Hk as _ <-.
  - intros p s1 s2 Hx. apply abind_ok in Hx as (s3 & [] & Hx & Hk); [done|]. injection Hk as <-. by eapply create_dir_none.
Qed.

(** What was set aside is not where it was. *)
Lemma quarantine_does root e s s' r :
  let source := root ++ [as_hex (archive_sha256 e)] in
  quarantine process_id source e s = (s', r) →
  ∃ n, let p := unique root e "corrupt" n in
  (∀ q, under source q = false → under p q = false → tree_of s' !! q = tree_of s !! q) ∧
  ∀ o, r = Ok o → tree_of s' !! source = None ∧ (o = None ∨ o = Some p).
Proof.
  intros source E. pose proof (calm_quarantine source e s) as Hc. rewrite E in Hc. cbn in Hc.
  assert (Hp : parent source = root).
  { unfold parent, source. rewrite length_app. cbn. rewrite Nat.add_sub. apply take_app_length. }
  revert E. unfold quarantine, retried, abind at 1, gets. rewrite Hp. intros E.
  apply retrying_does in E as [?|(n & s0 & r0 & H0 & Ha & Hr)]; [done| |].
  - exists n. set (p := unique root e "corrupt" n) in *. destruct (rename_noreplace source p s0) as [s1 o] eqn:Er.
    unfold abind in Ha. rewrite Er in Ha. split.
    + intros q Hq Hq'. rewrite <- H0. transitivity (tree_of s1 !! q); [|eapply spares_run; [|exact Er]; by apply spares_rename_noreplace].
      by destruct o as [[]|e0|]; injection Ha as <- _.
    + intros v ->. destruct r0 as [[v'|]|e0|]; try done. injection Hr as <-.
      assert (Hps : under p source = false).
      { destruct (unique_sibling root e "corrupt" n) as (name & Hn & Hne). unfold p. rewrite Hn.
        apply (siblings_apart root (as_hex (archive_sha256 e)) name); [done|apply under_refl]. }
      destruct o as [[]|e0|]; try done; injection Ha as <- <-; apply rename_noreplace_does in Er.
      * destruct Er as [(_ & -> & _)|[_ [[? _]|[_ [?|[? _]]]]]]; try done. split; [by apply move_source|by right].
      * destruct Er as [(? & _)|[-> [[? _]|[_ [?|[_ Hn]]]]]]; try done. split; [done|by left].
  - intros p s1 s2 Hx. apply abind_ok in Hx as (s3 & o & Hx & Hk). destruct o; try done. injection Hk as <-. by eapply rename_none.
Qed.

End names.

(** ** What a payload that is loaded is *)

Section loading.
Context `{Hash256} `{K : PayloadEntry} {KL : PayloadEntryLaws K}.

(** Everything an entry pins, of the tree under [root]. *)
Record verified (e : Entry) (fs : gmap path node) (root : path) (r : ReadyPayload) : Prop := {
  verified_names : r = mk_ready (payload_id e) (archive_sha256 e) (payload_manifest_sha256 e) (root ++ FILES)
                         (ready_manifest r) (root ++ PROVENANCE_JSON);
  verified_archive : ∃ c, fs !! (root ++ ARCHIVE_ZIP) = Some (Some c) ∧ sha256 c = archive_sha256 e;
  verified_manifest : ∃ c, fs !! ((root ++ FILES) ++ PAYLOAD_JSON) = Some (Some c) ∧
    sha256 c = payload_manifest_sha256 e ∧ parse_manifest e c = Ok (ready_manifest r);
  verified_files : Forall (λ f, ∃ c, fs !! ((root ++ FILES) ++ relative (prepared_path f)) = Some (Some c) ∧
    zlen c = prepared_size f ∧ sha256 c = prepared_sha256 f) (manifest_files (ready_manifest r));
  (** No other file can be walked to. *)
  verified_exactly : ∀ rel c, fs !! ((root ++ FILES) ++ rel) = Some (Some c) →
    (∀ k, (0 < k < length rel)%nat → is_directory fs ((root ++ FILES) ++ take k rel) = true) →
    rel ∈ expected_paths (ready_manifest r);
  (** It says where they are from, and so does the cache. *)
  verified_provenance : ∃ c source sources, fs !! (root ++ PROVENANCE_JSON) = Some (Some c) ∧
    fs !! ((root ++ FILES) ++ SOURCES_JSON) = Some (Some source) ∧ parse_sources e source = Ok sources ∧
    validate_prepared_files sources (ready_manifest r) = Ok tt ∧ cache_provenance e sources = Ok c;
}.

Lemma verified_same e fs fs' root r :
  (∀ q, under root q = true → fs' !! q = fs !! q) → verified e fs root r → verified e fs' root r.
Proof.
  intros Hs [Hn Ha Hm Hf He Hp].
  assert (Hu : ∀ a b, fs' !! ((root ++ a) ++ b) = fs !! ((root ++ a) ++ b)).
  { intros a b. rewrite <- app_assoc. apply Hs, under_app. }
  assert (Hu1 : ∀ a, fs' !! (root ++ a) = fs !! (root ++ a)) by (intros a; apply Hs, under_app).
  constructor; [done|by rewrite Hu1|by rewrite Hu| | |].
  - eapply list.Forall_impl; [exact Hf|]. intros f. cbn. by rewrite Hu.
  - intros rel c. rewrite Hu. intros Hc Hd. apply (He rel c Hc). intros k Hk. specialize (Hd k Hk).
    unfold is_directory in *. by rewrite <- Hu.
  - destruct Hp as (c & source & sources & ? & ? & ?). exists c, source, sources. by rewrite Hu1, Hu.
Qed.

Lemma reads_verify_digest p d subject : reads (verify_digest p d subject).
Proof. unfold verify_digest. reading. Qed.
Lemma reads_bounded p limit op : reads (read_bounded_regular_file p limit op).
Proof. unfold read_bounded_regular_file. reading. Qed.
Lemma reads_collect fuel root d : reads (collect_regular_files fuel root d).
Proof.
  revert d. induction fuel as [|fuel IH]; intros d; cbn [collect_regular_files]; [done|].
  apply reads_bind; [apply reads_dir|intros names]. induction names as [|name names IHn]; cbn [collect_names]; [done|].
  apply reads_bind; [apply reads_metadata|intros n]. apply reads_bind; [by destruct n|intros found].
  apply reads_bind; [done|by intros ?].
Qed.
Lemma reads_verify_tree root m : reads (verify_cached_tree root m).
Proof.
  unfold verify_cached_tree. apply reads_bind; [done|intros depth]. apply reads_bind; [apply reads_collect|intros found].
  by destruct (bool_decide _).
Qed.
Lemma reads_verify_files d files : reads (verify_files d files).
Proof.
  induction files as [|f files IH]; cbn [verify_files]; [done|]. apply reads_bind; [apply reads_cancelled|intros _].
  apply reads_bind; [apply reads_require_file|intros n]. destruct (negb _); [done|].
  apply reads_bind; [apply reads_verify_digest|done].
Qed.
Lemma reads_load_ready e root : reads (load_ready e root).
Proof.
  unfold load_ready. apply reads_bind; [apply reads_require_directory|intros _].
  apply reads_bind; [apply reads_cancelled|intros _]. apply reads_bind; [apply reads_require_file|intros _].
  apply reads_bind; [apply reads_verify_digest|intros _]. apply reads_bind; [apply reads_require_directory|intros _].
  apply reads_bind; [apply reads_bounded|intros payload]. destruct (negb _); [done|].
  apply reads_bind; [done|intros m]. apply reads_bind; [done|intros _].
  apply reads_bind; [apply reads_verify_tree|intros _]. apply reads_bind; [apply reads_verify_files|intros _].
  destruct (List.find _ _) as [f|]; [|done]. apply reads_bind; [apply reads_bounded|intros source].
  apply reads_bind; [done|intros sources]. apply reads_bind; [done|intros _]. apply reads_bind; [done|intros expected].
  apply reads_bind; [apply reads_bounded|intros actual]. by destruct (negb _).
Qed.

(** [stepping]: the next step of something that came to [Ok] and only reads. *)
Tactic Notation "stepping" hyp(E) constr(lemma) ident(x) ident(H) ident(HR) :=
  let s := fresh "s" in
  apply abind_ok in E as (s & x & H & E); pose proof (reads_run _ _ _ _ lemma H) as HR.

Lemma verify_digest_ok p d subject s s' u :
  verify_digest p d subject s = (s', Ok u) → ∃ c, tree_of s !! p = Some (Some c) ∧ sha256 c = d.
Proof.
  unfold verify_digest. intros E. stepping E (reads_hash "read cached file" p) actual Hh H1.
  apply hash_file_ok in Hh as (c & Hc & ->). case_bool_decide; [|done]. by exists c.
Qed.
Lemma read_bounded_ok p limit op s s' c :
  read_bounded_regular_file p limit op s = (s', Ok c) → tree_of s !! p = Some (Some c).
Proof.
  unfold read_bounded_regular_file. intros E. stepping E (reads_require_file (refuse p) op p) n Hn H1.
  destruct (limit <? n); [done|]. stepping E (reads_all op p) bytes Hb H2. apply read_all_ok in Hb.
  destruct (limit <? zlen bytes); [done|]. injection E as _ <-. by rewrite <- H1.
Qed.

Lemma metadata_ok op p s s' n : metadata op p s = (s', Ok n) → tree_of s !! p = Some n.
Proof.
  unfold metadata, abind at 1. drawing s as f s1 Hs1. unfold abind, gets. rewrite Hs1.
  destruct f; [|done]. destruct (tree_of s !! p); [|done]. by intros [= _ <-].
Qed.

(** Every file that can be walked to is found. *)
Lemma collect_ok fuel root d s s' found :
  collect_regular_files fuel root d s = (s', Ok found) →
  ∀ rel c, rel ≠ [] → tree_of s !! (d ++ rel) = Some (Some c) →
    (∀ k, (0 < k < length rel)%nat → is_directory (tree_of s) (d ++ take k rel) = true) →
    drop (length root) (d ++ rel) ∈ found.
Proof.
  revert d s s' found. induction fuel as [|fuel IH]; intros d s s' found; cbn [collect_regular_files]; [done|].
  intros E. apply abind_ok in E as (s1 & names & Hn & E). apply read_dir_ok in Hn as (H1 & _ & Hnames).
  intros [|n rel] c Hrel Hc Hdirs; [done|].
  assert (Hin : n ∈ names).
  { rewrite Hnames. apply names_in_spec. destruct rel as [|m rel]; [by rewrite Hc|].
    specialize (Hdirs 1%nat). cbn in Hdirs. unfold is_directory in Hdirs. destruct (tree_of s !! (d ++ [n])); [done|].
    discriminate Hdirs. lia. }
  clear Hnames. rewrite <- H1 in Hc, Hdirs. clear H1. revert s1 s' found Hc Hdirs E.
  induction names as [|name names IHn]; intros s1 s' found Hc Hdirs E; [by apply elem_of_nil in Hin|].
  cbn [collect_names] in E. stepping E (reads_metadata "inspect cached file" (d ++ [name])) v Hv H2. apply metadata_ok in Hv.
  apply abind_ok in E as (s3 & here & Hhere & E).
  assert (H3 : tree_of s3 = tree_of s1).
  { rewrite <- H2. eapply reads_run; [|exact Hhere]. destruct v; [done|apply reads_collect]. }
  apply abind_ok in E as (s4 & rest & Hrest & E). injection E as _ <-. apply elem_of_app.
  apply elem_of_cons in Hin as [->|Hin].
  - left. destruct rel as [|m rel].
    + rewrite Hc in Hv. injection Hv as <-. injection Hhere as _ <-. apply list_elem_of_here.
    + assert (Hd1 : is_directory (tree_of s1) (d ++ [name]) = true) by (apply (Hdirs 1%nat); cbn; lia).
      unfold is_directory in Hd1. rewrite Hv in Hd1. destruct v; [done|].
      replace (d ++ name :: m :: rel) with ((d ++ [name]) ++ m :: rel) in * by by rewrite <- app_assoc.
      eapply IH; [exact Hhere|done|by rewrite H2|]. intros k Hk. rewrite H2.
      specialize (Hdirs (S k)). cbn in Hdirs. rewrite <- app_assoc. apply Hdirs. cbn in *. lia.
  - right. eapply IHn; [done| |..|exact Hrest]; rewrite H3; done.
Qed.

Lemma verify_tree_ok root m s s' u :
  verify_cached_tree root m s = (s', Ok u) →
  ∀ rel c, tree_of s !! (root ++ rel) = Some (Some c) →
    (∀ k, (0 < k < length rel)%nat → is_directory (tree_of s) (root ++ take k rel) = true) → rel = [] ∨ rel ∈ expected_paths m.
Proof.
  unfold verify_cached_tree, abind at 1, gets. intros E. apply abind_ok in E as (s1 & found & Hf & E).
  case_bool_decide as Heq; [|done]. intros rel c Hc Hd. destruct (decide (rel = [])) as [|Hrel]; [by left|right].
  pose proof (collect_ok _ _ _ _ _ _ Hf rel c Hrel Hc Hd) as Hin. rewrite drop_app_length in Hin.
  assert (Hset : rel ∈ (list_to_set found : gset path)) by (by apply elem_of_list_to_set).
  rewrite Heq in Hset. by apply elem_of_list_to_set in Hset.
Qed.

Lemma require_directory_ok err op p s s' u : require_directory err op p s = (s', Ok u) → tree_of s !! p = Some None.
Proof.
  unfold require_directory. intros E. apply abind_ok in E as (s1 & n & Hn & E). apply metadata_ok in Hn. by destruct n.
Qed.

Lemma verify_files_ok d files s s' u :
  verify_files d files s = (s', Ok u) →
  Forall (λ f, ∃ c, tree_of s !! (d ++ relative (prepared_path f)) = Some (Some c) ∧
    zlen c = prepared_size f ∧ sha256 c = prepared_sha256 f) files.
Proof.
  revert s. induction files as [|f files IH]; intros s; cbn [verify_files]; [constructor|].
  intros E. stepping E reads_cancelled u1 Hx H1.
  stepping E (reads_require_file (refuse (d ++ relative (prepared_path f))) "verify cached file" (d ++ relative (prepared_path f))) n Hn H2.
  apply require_file_ok in Hn as (c & Hc & ->). destruct (Z.eqb_spec (zlen c) (prepared_size f)); [|done]. cbn in E.
  stepping E (reads_verify_digest (d ++ relative (prepared_path f)) (prepared_sha256 f) (prepared_path f)) u2 Hv H3.
  apply verify_digest_ok in Hv as (c' & Hc' & Hd). rewrite H2, Hc in Hc'. injection Hc' as <-.
  apply IH in E. rewrite H3, H2, H1 in E. rewrite H1 in Hc. constructor; [by exists c|done].
Qed.

Lemma load_ready_ok e root s s' r : load_ready e root s = (s', Ok r) → verified e (tree_of s) root r.
Proof.
  unfold load_ready. intros E.
  stepping E (reads_require_directory (refuse root) "verify cached payload directory" root) u1 Hx1 H1.
  stepping E reads_cancelled u2 Hx2 H2.
  stepping E (reads_require_file (refuse (root ++ ARCHIVE_ZIP)) "verify cached archive" (root ++ ARCHIVE_ZIP)) n3 Hx3 H3.
  stepping E (reads_verify_digest (root ++ ARCHIVE_ZIP) (archive_sha256 e) (payload_id e)) u4 Harchive H4.
  apply verify_digest_ok in Harchive as (a & Ha & Had).
  stepping E (reads_require_directory (refuse (root ++ FILES)) "verify cached files directory" (root ++ FILES)) u5 Hdir H5.
  apply require_directory_ok in Hdir.
  stepping E (reads_bounded ((root ++ FILES) ++ PAYLOAD_JSON) PAYLOAD_MANIFEST_LIMIT "read cached payload manifest") payload Hpay H6.
  apply read_bounded_ok in Hpay. destruct (bool_decide_reflect (sha256 payload = payload_manifest_sha256 e)) as [Hpd|]; [|done].
  cbn [negb] in E. apply abind_ok in E as (s7 & m & [-> Hm]%pure_ok & E). apply abind_ok in E as (s8 & [] & [-> Hlim]%pure_ok & E).
  stepping E (reads_verify_tree (root ++ FILES) m) u9 Htree H9.
  stepping E (reads_verify_files (root ++ FILES) (manifest_files m)) u10 Hfiles H10.
  destruct (List.find _ _) as [f|] in E; [|done].
  stepping E (reads_bounded ((root ++ FILES) ++ SOURCES_JSON) (prepared_size f) "read cached sources manifest") source Hsrc H11. apply read_bounded_ok in Hsrc.
  apply abind_ok in E as (s12 & sources & [-> Hsources]%pure_ok & E). apply abind_ok in E as (s13 & [] & [-> Hval]%pure_ok & E).
  apply abind_ok in E as (s14 & expected & [-> Hexp]%pure_ok & E).
  stepping E (reads_bounded (root ++ PROVENANCE_JSON) (zlen expected) "read cached provenance") actual Hact H15.
  apply read_bounded_ok in Hact. case_bool_decide as Hsame; [|done]. cbn in E. injection E as _ <-. subst actual.
  pose proof (verify_tree_ok _ _ _ _ _ Htree) as Hexact. apply verify_files_ok in Hfiles.
  repeat match goal with Hq : tree_of _ = tree_of _ |- _ => rewrite Hq in *; clear Hq end.
  constructor; cbn [ready_manifest]; [done|by exists a|by exists payload|done| |].
  2: by exists expected, source, sources.
  intros rel c Hc Hd. destruct (Hexact rel c Hc Hd) as [->|?]; [|done].
  rewrite app_nil_r in Hc. congruence.
Qed.

(** ** Loading ends *)

Lemma deepest_bound fs p : is_some (fs !! p) = true → (length p <= deepest fs)%nat.
Proof.
  destruct (fs !! p) as [v|] eqn:Hp; [|done]. intros _. apply elem_of_map_to_list in Hp. revert Hp. unfold deepest.
  induction (map_to_list fs) as [|kv l IH]; [by intros ?%elem_of_nil|]. cbn. intros [<-|Hin]%elem_of_cons; cbn; [lia|].
  specialize (IH Hin). lia.
Qed.

Lemma collect_ends M fuel root d s :
  (∀ p, is_some (tree_of s !! p) = true → (length p <= M)%nat) → (0 < fuel)%nat → (M < fuel + length d)%nat →
  (collect_regular_files fuel root d s).2 ≠ Panic.
Proof.
  intros HM. revert d s HM. induction fuel as [|fuel IH]; intros d s HM Hf Hd; [lia|]. cbn [collect_regular_files].
  unfold abind at 1. pose proof (calm_read_dir "inspect cached files" d s) as Hc.
  destruct (read_dir _ d s) as [s1 [names|e|]] eqn:E; [|done..]. clear Hc.
  apply (reads_run _ _ _ _ (reads_dir _ _)) in E as H1. clear E. rewrite <- H1 in HM. clear H1. revert s1 HM.
  induction names as [|name names IHn]; intros s1 HM; cbn [collect_names]; [done|].
  unfold abind at 1. pose proof (calm_metadata "inspect cached file" (d ++ [name]) s1) as Hc.
  destruct (metadata _ _ s1) as [s2 [v|e|]] eqn:E; [|done..]. clear Hc.
  apply (reads_run _ _ _ _ (reads_metadata _ _)) in E as H2. apply metadata_ok in E. rewrite <- H2 in HM.
  unfold abind at 1.
  assert (Hv : (match v with None => collect_regular_files fuel root (d ++ [name])
                | Some _ => good [drop (length root) (d ++ [name])] end s2).2 ≠ Panic).
  { destruct v; [done|]. assert (Hl : (length (d ++ [name]) <= M)%nat) by (apply HM; by rewrite H2, E).
    rewrite length_app in Hl. cbn in Hl. apply IH; [done|lia|]. rewrite length_app. cbn. lia. }
  destruct (_ s2) as [s3 [here|e|]] eqn:E3 in Hv |- *; [|done..].
  assert (H3 : tree_of s3 = tree_of s2) by (eapply reads_run; [|exact E3]; destruct v; [done|apply reads_collect]).
  rewrite <- H3 in HM. specialize (IHn s3 HM). unfold abind. by destruct (collect_names _ _ _ _ s3) as [s4 [rest|e|]].
Qed.

Lemma calm_verify_tree root m : calm (verify_cached_tree root m).
Proof.
  intros s. unfold verify_cached_tree, abind at 1, gets. unfold abind.
  pose proof (collect_ends (deepest (tree_of s)) (S (deepest (tree_of s))) root root s) as Hc.
  destruct (collect_regular_files _ root root s) as [s1 [found|e|]]; [by case_bool_decide|done|].
  exfalso. apply Hc; [apply deepest_bound|lia..|done].
Qed.
Lemma calm_verify_digest p d subject : calm (verify_digest p d subject).
Proof. unfold verify_digest. calming. Qed.
Lemma calm_bounded p limit op : calm (read_bounded_regular_file p limit op).
Proof. unfold read_bounded_regular_file. calming. Qed.
Lemma calm_verify_files d files : calm (verify_files d files).
Proof.
  induction files as [|f files IH]; cbn [verify_files]; [apply calm_good|]. apply calm_then; [apply calm_cancelled|intros _].
  apply calm_then; [apply calm_require_file|intros n]. destruct (negb _); [apply calm_bad|].
  apply calm_then; [apply calm_verify_digest|done].
Qed.
Lemma cached_limits_end m e : cached_manifest_limits m e ≠ Panic.
Proof.
  unfold cached_manifest_limits. destruct (_ <? _); [done|]. generalize 0.
  induction (manifest_files m) as [|f files IH]; intros n; cbn [expanded_loop]; [done|]. by repeat (case_match; [done|]).
Qed.
Lemma provenance_calm e sources : cache_provenance e sources ≠ Panic.
Proof using KL. unfold cache_provenance. pose proof (provenance_ends e sources). by destruct (provenance_json e sources). Qed.

Lemma calm_load_ready e root : calm (load_ready e root).
Proof using KL.
  unfold load_ready. apply calm_then; [apply calm_require_directory|intros _].
  apply calm_then; [apply calm_cancelled|intros _]. apply calm_then; [apply calm_require_file|intros _].
  apply calm_then; [apply calm_verify_digest|intros _]. apply calm_then; [apply calm_require_directory|intros _].
  apply calm_then; [apply calm_bounded|intros payload]. destruct (negb _); [apply calm_bad|].
  apply calm_bind_ok; [apply calm_result, parse_manifest_ends|]. intros s s' m [_ Hm]%pure_ok.
  apply parsed_is_proper in Hm as (_ & _ & Hsources & _).
  apply calm_then; [apply calm_result, cached_limits_end|intros _].
  apply calm_then; [apply calm_verify_tree|intros _]. apply calm_then; [apply calm_verify_files|intros _].
  destruct (List.find _ _) as [f|] eqn:Hf.
  - apply calm_then; [apply calm_bounded|intros source]. apply calm_then; [apply calm_result, parse_sources_ends|intros sources].
    apply calm_then; [apply calm_result, validate_prepared_ends|intros _].
    apply calm_then; [apply calm_result, provenance_calm|intros expected].
    apply calm_then; [apply calm_bounded|intros actual]. by destruct (negb _).
  - exfalso. apply list_elem_of_fmap in Hsources as (f & Hf' & Hin%list_elem_of_In). apply (find_none _ _ Hf) in Hin.
    by rewrite <- Hf', (proj2 (str_eqb_spec _ _) eq_refl) in Hin.
Qed.

End loading.

(** ** What preparing does *)

Lemma try_it_ok {S E F A} (m : action S E A) s s' (r : result E A) :
  try_it (F := F) m s = (s', Ok r) → m s = (s', r) ∧ r ≠ Panic.
Proof. unfold try_it. destruct (m s) as [s1 [a|e|]]; [by intros [= -> <-]..|done]. Qed.

Lemma beside_child root rel q : beside root q → beside (root ++ rel) q.
Proof.
  intros Hq. split; [|by apply beside_way]. apply not_true_iff_false. intros Hu. destruct Hq as [Hq _].
  by rewrite (under_trans root (root ++ rel) q (under_app _ _) Hu) in Hq.
Qed.

Lemma beside_below root rel q : beside root q → under (root ++ rel) q = false.
Proof. intros Hq. apply (beside_child root rel q Hq). Qed.

Section preparing.
Context `{Hash256} `{K : PayloadEntry} `{Z0 : ZipCrate}.
Context {KL : PayloadEntryLaws K} {ZL : ZipLaws Z0}.
Variable process_id : N.
Variable locked_elsewhere : bool.
Context (e : Entry) (root : path).
#[local] Abbreviation final := (root ++ [as_hex (archive_sha256 e)]).

(** A directory beside the entry. *)
Definition neighbour (p : path) : Prop := ∃ name, p = root ++ [name] ∧ name ≠ as_hex (archive_sha256 e).

Lemma neighbour_unique kind n : neighbour (unique_operation_path process_id root e kind n).
Proof. destruct (unique_sibling process_id root e kind n) as (name & Hp & Hn). by exists name. Qed.
Lemma neighbour_apart p q : neighbour p → under final q = true → under p q = false.
Proof. intros (name & -> & Hn) Hq. by apply (siblings_apart root (as_hex (archive_sha256 e)) name). Qed.
Lemma beside_neighbour p q : neighbour p → beside root q → under p q = false.
Proof. intros (name & -> & _) Hq. by apply beside_below. Qed.

Lemma spares_discard_all ps q : (∀ p, p ∈ ps → under p q = false) → spares q (discard_all ps).
Proof.
  intros Hps. induction ps as [|p ps IH]; cbn [discard_all]; [by intros ?|].
  apply spares_then; [apply spares_discard, Hps; left|intros _]. apply IH. intros p' Hp'. apply Hps. by right.
Qed.
Lemma calm_discard_all ps : calm (discard_all ps).
Proof. induction ps as [|p ps IH]; cbn [discard_all]; calming. Qed.

Lemma quarantine_frame q s s' r :
  beside root q → quarantine process_id final e s = (s', r) → tree_of s' !! q = tree_of s !! q.
Proof.
  intros Hq E. apply quarantine_does in E as (n & Hk & _). apply Hk; [by apply beside_below|].
  apply beside_neighbour; [apply neighbour_unique|done].
Qed.
Lemma quarantine_neighbours s s' o :
  quarantine process_id final e s = (s', Ok o) → tree_of s' !! final = None ∧ Forall neighbour (option_list o).
Proof.
  intros E. apply quarantine_does in E as (n & _ & Ho). destruct (Ho o eq_refl) as (Hf & [->| ->]); (split; [done|]); cbn;
    [constructor|]. apply list.Forall_singleton, neighbour_unique.
Qed.

(** What an operation leads to: a payload that is what was pinned, whatever is
    left to be discarded beside it. *)
Definition pinned (s : Store) (r : result PayloadError ReadyPayload) : Prop :=
  r ≠ Panic ∧ ∀ ready, r = Ok ready → verified e (tree_of s) final ready.

Lemma load_pinned s s' r : try_it (F := PayloadError) (load_ready e final) s = (s', Ok r) → pinned s' r.
Proof.
  intros [E Hr]%try_it_ok. split; [done|]. intros ready ->. pose proof (reads_run _ _ _ _ (reads_load_ready e final) E) as Ht.
  rewrite Ht. by apply load_ready_ok in E.
Qed.
Lemma reads_try_load : reads (try_it (F := PayloadError) (load_ready e final)).
Proof. apply reads_try, reads_load_ready. Qed.
Lemma try_ends {A} (m : pact A) s s' o : calm m → try_it (F := PayloadError) m s = (s', o) → ∃ r, o = Ok r.
Proof.
  intros Hm E. pose proof (calm_attempt m Hm s) as Hc. rewrite E in Hc. unfold try_it in E.
  destruct (m s) as [s1 [a|e0|]]; injection E as <- <-; eauto. done.
Qed.

Lemma publish_loop_does fuel temporary qs s s' r qs' armed :
  publish_loop process_id fuel e temporary final qs s = (s', Ok (r, qs', armed)) → Forall neighbour qs →
  pinned s' r ∧ Forall neighbour qs' ∧
  (∀ q, beside root q → under temporary q = false → tree_of s' !! q = tree_of s !! q).
Proof using KL.
  revert qs s. induction fuel as [|fuel IH]; intros qs s; cbn [publish_loop]; [done|]. intros E Hqs.
  apply abind_ok in E as (s1 & o & Ho & E).
  assert (H1 : ∀ q, beside root q → under temporary q = false → tree_of s1 !! q = tree_of s !! q).
  { intros q Hq Ht. eapply spares_run; [|exact Ho]. apply spares_rename_noreplace; [done|].
    by apply beside_below. }
  assert (Hq0 : ∀ s2 s3 q0, tree_of s2 = tree_of s1 → try_it (F := PayloadError) (quarantine process_id final e) s2 = (s3, Ok q0) →
    (∀ q, beside root q → under temporary q = false → tree_of s3 !! q = tree_of s !! q)).
  { intros s2 s3 q0 H2 [Hx _]%try_it_ok q Hq Ht. rewrite <- H1, <- H2 by done. by eapply quarantine_frame. }
  destruct o.
  { apply abind_ok in E as (s2 & ready & Hready & E). pose proof (load_pinned _ _ _ Hready) as Hpin.
    assert (H2 : tree_of s2 = tree_of s1) by exact (reads_run _ _ _ _ reads_try_load Hready).
    apply abind_ok in E as (s3 & there & Hthere & E). injection Hthere as <- <-.
    destruct ready as [ready|err|]; [| |by destruct Hpin].
    - injection E as <- <- <- <-. split_and!; [done..|]. intros q Hq Ht. rewrite H2. by apply H1.
    - destruct (is_some _) in E; [|injection E as <- <- <- <-; split_and!; [done..|]; intros q Hq Ht; rewrite H2; by apply H1].
      apply abind_ok in E as (s4 & q0 & Hx & E). pose proof (Hq0 _ _ _ H2 Hx) as Hframe.
      apply try_it_ok in Hx as [Hx Hxr]. destruct q0 as [q0|err'|]; [|injection E as <- <- <- <-; split_and!; done|done].
      injection E as <- <- <- <-. apply quarantine_neighbours in Hx as [_ Hx]. split_and!; [done| |done].
      by apply list.Forall_app. }
  all: apply abind_ok in E as (s2 & there & Hthere & E); injection Hthere as <- <-.
  all: destruct (is_some _) in E;
    [|injection E as <- <- <- <-; split_and!; [split; [done|by intros ? [=]]|done|done]].
  all: apply abind_ok in E as (s2 & ready & Hready & E); pose proof (load_pinned _ _ _ Hready) as Hpin.
  all: assert (H2 : tree_of s2 = tree_of s1) by exact (reads_run _ _ _ _ reads_try_load Hready).
  all: destruct ready as [ready|err|]; [| |by destruct Hpin].
  1, 3, 5: injection E as <- <- <- <-; split_and!; [done..|]; intros q Hq Ht; rewrite H2; by apply H1.
  all: destruct (is_cancellation err) in E;
    [injection E as <- <- <- <-; split_and!; [done..|]; intros q Hq Ht; rewrite H2; by apply H1|].
  all: apply abind_ok in E as (s4 & q0 & Hx & E); pose proof (Hq0 _ _ _ H2 Hx) as Hframe;
    apply try_it_ok in Hx as [Hx Hxr]; destruct q0 as [q0|err'|];
    [|injection E as <- <- <- <-; split_and!; [split; [done|by intros ? [=]]|done..]|done].
  all: apply quarantine_neighbours in Hx as [_ Hx]; apply IH in E as (Hp & Hn & Hk); [|by apply list.Forall_app].
  all: split_and!; [done..|]; intros q Hq Ht; rewrite Hk by done; by apply Hframe.
Qed.

(** The entry is either put in its place, or found not to be there any more and
    missed once; whatever fails is part of the outcome. *)
Lemma publish_loop_free temporary qs s fuel :
  is_some (tree_of s !! final) = false → ∃ x, (publish_loop process_id (S fuel) e temporary final qs s).2 = Ok x.
Proof using KL.
  intros Hfree. cbn [publish_loop]. unfold abind at 1.
  destruct (rename_noreplace temporary final s) as [s1 r] eqn:Er. apply rename_noreplace_does in Er.
  destruct Er as [(-> & _ & _)|[H1 [[-> Ht]|[_ Hr]]]]; [|congruence|].
  - unfold abind at 1. destruct (try_it (F := PayloadError) (load_ready e final) s1) as [s2 o] eqn:El.
    destruct (try_ends _ _ _ _ (calm_load_ready e final) El) as [ready ->].
    unfold abind at 1, path_is_there, gets. destruct ready as [ready|err|]; [by eexists| |by eexists].
    destruct (is_some (tree_of s2 !! final)); [|by eexists]. unfold abind.
    destruct (try_it (F := PayloadError) (quarantine process_id final e) s2) as [s3 o] eqn:Eq.
    destruct (try_ends _ _ _ _ (calm_quarantine process_id final e) Eq) as [q ->].
    apply try_it_ok in Eq as [_ Hq]. destruct q; [by eexists..|done].
  - assert (Hthere : is_some (tree_of s1 !! final) = false) by (by rewrite H1).
    destruct Hr as [->|[-> _]]; unfold abind, path_is_there, gets; rewrite Hthere; by eexists.
Qed.

Lemma publish_loop_ends temporary qs s : ∃ x, (publish_loop process_id 2 e temporary final qs s).2 = Ok x.
Proof using KL.
  destruct (is_some (tree_of s !! final)) eqn:Hfree; [|by apply publish_loop_free].
  remember 1%nat as fuel. cbn [publish_loop]. unfold abind at 1. destruct (rename_noreplace temporary final s) as [s1 r] eqn:Er.
  apply rename_noreplace_does in Er. destruct Er as [(_ & _ & Hf)|[H1 [[-> _]|[Hf _]]]]; [congruence| |congruence].
  unfold abind at 1, path_is_there, gets. rewrite H1, Hfree. unfold abind at 1.
  destruct (try_it (F := PayloadError) (load_ready e final) s1) as [s2 o] eqn:El.
  destruct (try_ends _ _ _ _ (calm_load_ready e final) El) as [ready ->]. apply try_it_ok in El as [_ Hr].
  destruct ready as [ready|err|]; [by eexists| |done]. destruct (is_cancellation err); [by eexists|]. unfold abind.
  destruct (try_it (F := PayloadError) (quarantine process_id final e) s2) as [s3 o] eqn:Eq.
  destruct (try_ends _ _ _ _ (calm_quarantine process_id final e) Eq) as [q ->].
  apply try_it_ok in Eq as [Eq Hq]. destruct q as [q|err'|]; [|by eexists|done]. subst fuel. apply publish_loop_free.
  apply quarantine_neighbours in Eq as [-> _]. done.
Qed.

Lemma calm_copy_loop fuel input source destination n copied :
  Z.max 0 (n - copied) < Z.of_nat fuel →
  calm (copy_loop fuel input source destination n copied).
Proof.
  revert copied. induction fuel as [|fuel IH]; intros copied Hf; cbn [copy_loop]; [lia|].
  destruct (Z.leb_spec n copied); [apply calm_good|]. apply calm_then; [apply calm_cancelled|intros _].
  apply calm_bind_ok; [apply calm_by_fate|]. intros s s' got _. destruct got as [|b got]; [apply calm_bad|].
  apply calm_then; [apply calm_write_all|intros _]. cbn [length]. apply IH; lia.
Qed.
Lemma calm_fill archive temporary : calm (fill e archive temporary).
Proof using KL ZL.
  unfold fill. apply calm_then; [apply calm_create_dir|intros made]. destruct (negb _); [apply calm_bad|].
  apply calm_then; [apply calm_require_file|intros n]. apply calm_then.
  { unfold copy_and_flush. apply calm_then; [apply calm_read_all|intros input].
    apply calm_then; [unfold create_new; calming|intros _]. apply calm_then; [apply calm_copy_loop; lia|intros copied].
    apply calm_then; [apply calm_by_fate|intros extra]. destruct extra; [unfold sync_all; calming|apply calm_bad]. }
  intros _. apply calm_then; [apply calm_verify_digest|intros _].
  apply calm_then; [apply calm_extract|intros both]. apply calm_then; [apply calm_result, provenance_calm|intros bytes].
  apply calm_write_new.
Qed.

Lemma spares_copy_loop q fuel input source destination n copied :
  q ≠ destination → spares q (copy_loop fuel input source destination n copied).
Proof.
  intros Hq. revert copied. induction fuel as [|fuel IH]; intros copied; cbn [copy_loop]; [by intros ?|].
  destruct (_ <=? _); [by intros ?|]. apply spares_then; [apply spares_reads, reads_cancelled|intros _].
  apply spares_then; [apply spares_reads, reads_by_fate|intros got]. destruct got; [by intros ?|].
  apply spares_then; [by apply spares_write_all|done].
Qed.
Lemma spares_fill q archive temporary : beside temporary q → spares q (fill e archive temporary).
Proof.
  intros Hq. unfold fill. apply spares_then; [by apply spares_create_dir, beside_target|intros made].
  destruct (negb _); [by intros ?|]. apply spares_then; [apply spares_reads, reads_require_file|intros n].
  apply spares_then.
  { unfold copy_and_flush. apply spares_then; [apply spares_reads, reads_all|intros input].
    apply spares_then; [by apply spares_create_new, beside_target|intros _].
    apply spares_then; [by apply spares_copy_loop, beside_target|intros copied].
    apply spares_then; [apply spares_reads, reads_by_fate|intros extra]. destruct extra; [apply spares_reads, reads_sync|by intros ?]. }
  intros _. apply spares_then; [apply spares_reads, reads_verify_digest|intros _].
  apply spares_then; [by apply spares_extract, beside_child|intros both].
  apply spares_then; [by intros ?|intros bytes]. by apply spares_write_new, beside_target.
Qed.

Lemma reload_does s s' r :
  reload process_id e final s = (s', r) →
  r ≠ Panic ∧ (∀ q, beside root q → tree_of s' !! q = tree_of s !! q) ∧
  match r with
  | Ok (inl ready) => verified e (tree_of s') final ready
  | Ok (inr qs) => Forall neighbour qs
  | _ => True
  end.
Proof using KL.
  unfold reload, abind at 1, path_is_there, gets. destruct (is_some _); [|intros [= <- <-]; split_and!; [done..|constructor]].
  unfold abind at 1. destruct (try_it _ s) as [s1 o] eqn:El.
  destruct (try_ends _ _ _ _ (calm_load_ready e final) El) as [ready ->]. pose proof (load_pinned _ _ _ El) as [Hp Hv].
  pose proof (reads_run _ _ _ _ reads_try_load El) as H1.
  destruct ready as [ready|err|]; [intros [= <- <-]; split_and!; [done|by rewrite H1|auto]| |done].
  destruct (is_cancellation err); [intros [= <- <-]; split_and!; [done|by rewrite H1|done]|].
  unfold abind. pose proof (calm_quarantine process_id final e s1) as Hc.
  destruct (quarantine process_id final e s1) as [s2 q] eqn:Eq.
  assert (Hf : ∀ q, beside root q → tree_of s2 !! q = tree_of s !! q).
  { intros q0 Hq0. rewrite <- H1. by eapply quarantine_frame. }
  destruct q as [q|err'|]; intros [= <- <-]; split_and!; try done. by eapply quarantine_neighbours.
Qed.

(** Discarding what is beside the entry. *)
Lemma pinned_after_discard s ps r :
  Forall neighbour ps → pinned s r → pinned (discard_all ps s).1 r.
Proof.
  intros Hps [Hr Hv]. split; [done|]. intros ready ->. eapply verified_same; [|by apply Hv]. intros q Hq.
  apply (spares_discard_all ps q). intros p Hp. apply neighbour_apart; [|done]. by eapply list.Forall_forall in Hps.
Qed.
Lemma frame_discard s ps q :
  Forall neighbour ps → beside root q → tree_of (discard_all ps s).1 !! q = tree_of s !! q.
Proof.
  intros Hps Hq. apply (spares_discard_all ps q). intros p Hp. apply beside_neighbour; [|done].
  by eapply list.Forall_forall in Hps.
Qed.

Lemma make_entry_does archive temporary qs s s' r :
  neighbour temporary → Forall neighbour qs → make_entry process_id e archive temporary final qs s = (s', r) →
  pinned s' r ∧ (∀ q, beside root q → tree_of s' !! q = tree_of s !! q).
Proof using KL ZL.
  intros Ht Hqs. unfold make_entry, abind at 1. destruct (try_it _ s) as [s1 o] eqn:Ef.
  destruct (try_ends _ _ _ _ (calm_fill archive temporary) Ef) as [filled ->]. apply try_it_ok in Ef as [Ef Hfilled].
  assert (H1 : ∀ q, beside root q → tree_of s1 !! q = tree_of s !! q).
  { intros q Hq. eapply spares_run; [|exact Ef]. apply spares_fill. destruct Ht as (name & -> & _). by apply beside_child. }
  assert (Hout : ∃ s2 ready qs' armed,
    (match filled with Ok _ => publish_loop process_id 2 e temporary final qs
     | Err error => good (Err error, qs, true) | Panic => pure_of Panic end) s1 = (s2, Ok (ready, qs', armed)) ∧
    pinned s2 ready ∧ Forall neighbour qs' ∧ (∀ q, beside root q → tree_of s2 !! q = tree_of s !! q)).
  { destruct filled as [u|err|]; [|exists s1, (Err err), qs, true; split_and!; [done|split; [done|by intros ? [=]]|done..]|done].
    destruct (publish_loop_ends temporary qs s1) as [x Hx].
    destruct (publish_loop process_id 2 e temporary final qs s1) as [s2 o] eqn:Ep. cbn in Hx. subst o.
    destruct x as [[ready qs'] armed]. pose proof (publish_loop_does _ _ _ _ _ _ _ _ Ep Hqs) as (Hp & Hn & Hk).
    exists s2, ready, qs', armed. split_and!; [done..|]. intros q Hq. rewrite Hk; [auto|done|by apply beside_neighbour]. }
  destruct Hout as (s2 & ready & qs' & armed & Eo & Hpin & Hn & H2). unfold abind at 1. rewrite Eo. clear Eo.
  set (m := if armed then discard temporary else good tt). assert (Hm : calm m) by (unfold m; destruct armed; auto with store).
  assert (Hsp : ∀ q, under temporary q = false → spares q m).
  { intros q Hq. unfold m. destruct armed; [by apply spares_discard|by intros ?]. }
  intros E. unfold abind at 1 in E. specialize (Hm s2). destruct (m s2) as [s3 o3] eqn:Em.
  assert (H3 : ∀ q, under temporary q = false → tree_of s3 !! q = tree_of s2 !! q).
  { intros q Hq. eapply spares_run; [by apply Hsp|exact Em]. }
  assert (Hpin3 : pinned s3 ready).
  { destruct Hpin as [Hr Hv]. split; [done|]. intros x ->. eapply verified_same; [|by apply Hv]. intros q Hq.
    apply H3. by apply neighbour_apart. }
  assert (Hb3 : ∀ q, beside root q → tree_of s3 !! q = tree_of s !! q).
  { intros q Hq. rewrite H3 by (by apply beside_neighbour). auto. }
  assert (Herr : ∀ s' err, pinned s' (Err err)) by (intros; split; [done|by intros ? [=]]).
  destruct o3 as [[]|err|]; [|injection E as <- <-; by split|done].
  unfold abind at 1 in E. pose proof (calm_discard_all qs' s3) as Hcd.
  pose proof (pinned_after_discard s3 qs' ready Hn Hpin3) as Hpin4.
  pose proof (λ q, frame_discard s3 qs' q Hn) as Hb4. destruct (discard_all qs' s3) as [s4 o4]. cbn [fst] in *.
  destruct o4 as [[]|err|]; [| |done]; injection E as <- <-; (split; [done|]); intros q Hq; rewrite Hb4 by done; auto.
Qed.

Lemma prepare_archive_does archive s s' r :
  prepare_verified_archive process_id e archive root s = (s', r) →
  pinned s' r ∧ (∀ q, beside root q → tree_of s' !! q = tree_of s !! q).
Proof using KL ZL.
  unfold prepare_verified_archive. intros E. unfold abind at 1 in E.
  pose proof (calm_make_dirs "create GPU payload cache" root s) as Hcm.
  destruct (make_dirs _ root s) as [s1 r1] eqn:Em.
  assert (H1 : ∀ q, beside root q → tree_of s1 !! q = tree_of s !! q).
  { intros q [_ Hq]. eapply spares_run; [|exact Em]. apply spares_make_dirs. by rewrite ways_to_spec, Hq. }
  destruct r1 as [[]|err|]; [|injection E as <- <-; split; [split; [done|by intros ? [=]]|done]|done].
  unfold abind at 1 in E. destruct (reload process_id e final s1) as [s2 r2] eqn:Er.
  apply reload_does in Er as (Hr2 & H2 & Hfirst).
  destruct r2 as [[ready|qs]|err|]; [| |injection E as <- <-|done].
  { injection E as <- <-. split; [split; [done|by intros ? [= <-]]|]. intros q Hq. by rewrite H2, H1. }
  2: { split; [split; [done|by intros ? [=]]|]. intros q Hq. by rewrite H2, H1. }
  unfold abind at 1 in E. destruct (try_it _ s2) as [s3 o] eqn:Et in E.
  destruct (try_ends _ _ _ _ (calm_create_temporary process_id root e) Et) as [made ->].
  apply try_it_ok in Et as [Et Hmade]. apply create_temporary_does in Et as (n & H3 & Htemp).
  pose proof (neighbour_unique "tmp" n) as Hneigh. set (temporary := unique_operation_path process_id root e "tmp" n) in *.
  assert (H3' : ∀ q, beside root q → tree_of s3 !! q = tree_of s !! q).
  { intros q Hq. rewrite H3; [by rewrite H2, H1|]. intros ->. pose proof (beside_neighbour _ _ Hneigh Hq) as Hu.
    by rewrite under_refl in Hu. }
  destruct made as [t|err|]; [|unfold abind in E|done].
  2: { pose proof (calm_discard_all qs s3) as Hcd. pose proof (λ q, frame_discard s3 qs q Hfirst) as Hfd.
       destruct (discard_all qs s3) as [s4 [[]|err'|]]; injection E as <- <-; [| |done];
         (split; [split; [done|by intros ? [=]]|]; intros q Hq; cbn in Hfd; by rewrite Hfd, H3'). }
  rewrite (Htemp t eq_refl) in E. clear Htemp. apply make_entry_does in E as [Hp Hk]; [|done..].
  split; [done|]. intros q Hq. rewrite Hk by done. auto.
Qed.

Lemma calm_acquire : calm (acquire locked_elsewhere root e).
Proof. unfold acquire, open_lock. calming. Qed.
Lemma spares_acquire q : beside root q → spares q (acquire locked_elsewhere root e).
Proof.
  intros Hq. unfold acquire, open_lock. sparing.
  - apply spares_make_dirs. rewrite ways_to_spec, (proj2 Hq). done.
  - rewrite lookup_insert_ne; [done|]. intros E. symmetry in E. revert E. by apply beside_target.
Qed.

End preparing.

Section prepared.
Context `{Hash256} `{K : PayloadEntry} `{Z0 : ZipCrate}.
Context {KL : PayloadEntryLaws K} {ZL : ZipLaws Z0}.

Lemma prepare_does process_id locked_elsewhere e cache_root archive s s' r :
  let root := cache_root ++ [NAMESPACE; text "v1"] in
  prepare process_id locked_elsewhere e cache_root archive s = (s', r) →
  r ≠ Panic ∧
  (∀ ready, r = Ok ready → verified e (tree_of s') (root ++ [as_hex (archive_sha256 e)]) ready) ∧
  (∀ q, beside root q → tree_of s' !! q = tree_of s !! q).
Proof using KL ZL.
  intros root E. unfold prepare in E. fold root in E. unfold abind at 1 in E.
  pose proof (calm_acquire locked_elsewhere e root s) as Hc.
  destruct (acquire locked_elsewhere root e s) as [s1 o] eqn:Ea.
  assert (H1 : ∀ q, beside root q → tree_of s1 !! q = tree_of s !! q).
  { intros q Hq. eapply spares_run; [|exact Ea]. by apply spares_acquire. }
  destruct o as [[]|err|]; [|by injection E as <- <-|done]. unfold abind in E.
  destruct (reload process_id e _ s1) as [s2 o2] eqn:Er in E. apply reload_does in Er as (Hr & H2 & Hfirst).
  assert (H2' : ∀ q, beside root q → tree_of s2 !! q = tree_of s !! q) by (intros q Hq; by rewrite H2, H1).
  destruct o2 as [[ready|qs]|err|]; [| |by injection E as <- <-|done].
  { injection E as <- <-. split_and!; [done| |done]. by intros ? [= <-]. }
  unfold finally in E. destruct (prepare_verified_archive process_id e archive root s2) as [s3 r3] eqn:Ep.
  apply prepare_archive_does in Ep as [Hp H3]. injection E as <- <-.
  destruct (pinned_after_discard e root s3 qs r3 Hfirst Hp) as [Hr3 Hv]. split_and!; [done|done|].
  intros q Hq. rewrite (frame_discard e root) by done. by rewrite H3, H2'.
Qed.

(** C3: Whatever the cache, the archive of the release and the entry hold,
    whatever calls fail and whenever it is cancelled: a payload that is prepared
    is the one the entry pins, its archive, its manifest and every file it
    declares by their digests and with nothing else among them, at the moment it
    is handed out; nothing beside the cache of its kind is touched; and preparing
    comes to an end. *)
Theorem a_prepared_payload_is_what_was_pinned process_id locked_elsewhere e cache_root archive s s' r :
  let root := cache_root ++ [NAMESPACE; text "v1"] in
  prepare process_id locked_elsewhere e cache_root archive s = (s', r) →
  r ≠ Panic ∧
  (∀ ready, r = Ok ready → verified e (tree_of s') (root ++ [as_hex (archive_sha256 e)]) ready) ∧
  (∀ q, beside root q → tree_of s' !! q = tree_of s !! q).
Proof using KL ZL. apply prepare_does. Qed.

End prepared.

(** ** A cache that was tampered with *)

Module SampleCache.
Import SampleKind SampleArchive.

Definition cache_root : path := [text "cache"].
Definition entry_root : path := cache_root ++ [text "test-payload"; text "v1"].
Definition pinned_entry : Entry := sample_entry archive_bytes.
Definition entry_directory : path := entry_root ++ [as_hex (archive_sha256 pinned_entry)].
(** Somebody wrote to a file of the entry; what stands for it is not its archive. *)
Definition tampered (bytes : list Z) : Store :=
  mk_store (mk_world (list_to_map
    [ ([], None); ([text "release"], None); (archive, Some bytes); (cache_root, None);
      (cache_root ++ [text "test-payload"], None); (entry_root, None); (entry_directory, None);
      (entry_directory ++ ARCHIVE_ZIP, Some bytes); (entry_directory ++ FILES, None);
      (entry_directory ++ FILES ++ PAYLOAD_JSON, Some document);
      (entry_directory ++ FILES ++ SOURCES_JSON, Some (text "{evil}")) ]) ∅ ∅ [] None []) 0%N.
Definition prepared (bytes : list Z) : Store * result PayloadError ReadyPayload :=
  prepare 7 false pinned_entry cache_root archive (tampered bytes).

Example made_anew :
  let '(s, r) := prepared archive_bytes in
  (∃ ready, r = Ok ready) ∧
  tree_of s !! (entry_directory ++ FILES ++ SOURCES_JSON) = Some (Some sources_document) ∧
  tree_of s !! (entry_directory ++ FILES ++ [text "content"; text "kbuild"]) = Some (Some kernel) ∧
  names_in (tree_of s) entry_root = [as_hex (archive_sha256 pinned_entry) ++ text ".lock"; as_hex (archive_sha256 pinned_entry)].
Proof. vm_compute. by split_and!; [eexists|..]. Qed.
Example not_the_release :
  (prepared other_bytes).2 = Err (DigestMismatch (text "test") (sha256 archive_bytes) (sha256 other_bytes)).
Proof. by vm_compute. Qed.

End SampleCache.

Section witness.
Import SampleKind SampleArchive SampleCache.

Lemma a_prepared_payload_is_what_was_pinned_witness :
  let '(s', r) := prepared archive_bytes in
  r ≠ Panic ∧ (∀ ready, r = Ok ready → verified pinned_entry (tree_of s') entry_directory ready) ∧
  (∀ q, beside entry_root q → tree_of s' !! q = tree_of (tampered archive_bytes) !! q).
Proof.
  destruct (prepared archive_bytes) as [s' r] eqn:E.
  exact (a_prepared_payload_is_what_was_pinned 7 false pinned_entry cache_root archive (tampered archive_bytes) s' r E).
Defined.

End witness.
