(* ===== verification/PayloadStaging.v ===== *)
(** * PayloadStaging: a generation a VM may be given

    crates/payload/src/staging.rs: [stage_payload].  A generation is a directory
    named by the digest of its archive, and a ready marker beside it says that it
    may be used.  What stands in the way of either is moved aside; a generation is
    filled and checked under a temporary name and moved into place whole, while no
    marker is there; the marker comes after.

    The paths set aside are removed at the end, whatever the end is: the state of
    the operations here is a [Desk], the store and the paths that are to go. *)

From stdpp Require Import strings gmap list sets.
From S2P Require Import Prelude Stateful ClipboardPath CoreRequest Layout HostFiles Metadata PayloadFiles PayloadKind PayloadPublish PayloadArchive PayloadCache.
#[local] Open Scope Z_scope.

Record Desk : Type := mk_desk { store : Store; set_aside : list path }.
Abbreviation dact := (action Desk PayloadError).

Definition at_store {A} (m : pact A) : dact A := λ d,
  let '(s, r) := m (store d) in (mk_desk s (set_aside d), r).
(** [quarantines.push] of what there is. *)
Definition push_aside (q : option path) : dact unit :=
  modify (λ d, mk_desk (store d) (set_aside d ++ option_list q)).
(** The scope of [quarantines]: what it holds is removed when it ends. *)
Definition with_quarantines {A} (m : dact A) : pact A := λ s,
  let '(d, r) := m (mk_desk s []) in ((discard_all (set_aside d) (store d)).1, r).

Section staging.
Context `{Hash256} `{K : PayloadEntry}.
(** The process, and how often its lock is found taken. *)
Variable process_id : N.
Variable lock_waits : nat.
Variable payload : ReadyPayload.
Variable root : path.

Record StagedPayload : Type := mk_staged {
  staged_id : str; staged_generation : Sha256Digest; generation_directory : path; ready_marker_path : path }.

Definition digest_hex : str := as_hex (generation payload).
Definition generations_root : path := root ++ [text "generations"].
Definition ready_root : path := root ++ [text "ready"].
Definition generation_path : path := generations_root ++ [digest_hex].
Definition marker : path := ready_root ++ [digest_hex ++ text ".json"].

(** ** Checking a generation *)

Definition invalid (p : path) : PayloadError := InvalidManifest (concat p).
(** Each directory on the way to a file. *)
Definition expected_directories (expected : list ExpectedFile) : list path :=
  flat_map (λ f, map (λ k, take k (relative_path f)) (seq 1 (length (relative_path f) - 1))) expected.

(** The entries of a directory, each looked at; [visit] walks the directories. *)
Fixpoint verify_entries (visit : path → pact unit) (g directory : path) (files directories : list path)
    (names : list str) : pact unit :=
  match names with
  | [] => good tt
  | name :: names =>
      let rel := directory ++ [name] in
      let^ n := metadata "inspect staged GPU payload entry" (g ++ rel) in
      let^ _ :=
        match n with
        | Some _ => if bool_decide (rel ∈ files) then good tt else bad (invalid rel)
        | None => if bool_decide (rel ∈ directories) then visit rel else bad (invalid rel)
        end in
      verify_entries visit g directory files directories names
  end.
Fixpoint verify_generation_tree (fuel : nat) (g directory : path) (files directories : list path) : pact unit :=
  match fuel with
  | O => pure_of Panic
  | S fuel =>
      let^ names := read_dir "inspect staged GPU payload generation" (g ++ directory) in
      verify_entries (λ rel, verify_generation_tree fuel g rel files directories) g directory files directories names
  end.
Fixpoint verify_each (g : path) (expected : list ExpectedFile) : pact unit :=
  match expected with
  | [] => good tt
  | f :: expected =>
      let^ _ := check_cancelled in
      let^ _ := verify_staged_file (g ++ relative_path f) (concat (relative_path f)) (size f) (digest f) in
      verify_each g expected
  end.
Definition verify_generation (expected : list ExpectedFile) (g : path) : pact unit :=
  let^ _ := require_directory (invalid g) "verify staged GPU payload generation" g in
  let^ depth := gets (λ s, deepest (tree_of s)) in
  let^ _ := verify_generation_tree (S depth) g [] (map relative_path expected) (expected_directories expected) in
  verify_each g expected.

(** ** Names of one's own *)

Definition unique_operation_path (operation_root : path) (kind : string) (sequence : N) : path :=
  let number := shown process_id ++ text "-" ++ shown sequence in
  operation_root ++
    [ if bool_decide (kind = "part"%string)
      then text "." ++ digest_hex ++ text ".part-" ++ number
      else text kind ++ text "-" ++ digest_hex ++ text "-" ++ number ].
Definition create_temporary_generation : pact path :=
  retried (unique_operation_path generations_root ".tmp") (λ p,
    let^ made := create_dir "create staging temporary directory" p in good (if made : bool then Some p else None)).
(** [create_new]; [None] is [ErrorKind::AlreadyExists]. *)
Definition open_new (operation : string) (p : path) : pact (option path) :=
  let^ f := fate_of in
  let^ found := gets (λ s, tree_of s !! p) in
  let^ parent_there := gets (λ s, is_directory (tree_of s) (parent p)) in
  match found, f, parent_there with
  | Some _, _, _ => good None
  | None, Works, true => let^ _ := alter_files <[p := Some []]> in good (Some p)
  | None, _, _ => bad (PayloadIo operation p)
  end.
Definition create_partial_marker : pact path :=
  retried (unique_operation_path ready_root "part") (open_new "create ready marker").
Definition quarantine (source operation_root : path) : pact (option path) :=
  retried (unique_operation_path operation_root ".corrupt") (λ destination,
    let^ o := rename_noreplace source destination in
    match o with
    | Renamed => good (Some (Some destination))
    | AlreadyExists => good None
    | NotFound => good (Some None)
    | Refused => bad (PayloadIo "quarantine corrupt staged GPU payload path" source)
    end).
Definition move_aside (source operation_root : path) : dact unit :=
  let^ q := at_store (quarantine source operation_root) in push_aside q.

(** ** The ready marker *)

Definition READY_MARKER_SIZE_LIMIT : Z := 64 * 1024.
Inductive MarkerState : Type := Missing | Matching | Corrupt.

Definition read_marker (contents : list Z) : result PayloadError MarkerState :=
  if READY_MARKER_SIZE_LIMIT <? zlen contents then Ok Corrupt
  else
    match marker_of_json contents with
    | None => Ok Corrupt
    | Some (version, id, of_generation, manifest) =>
        if negb (version =? 1) then Ok Corrupt
        else if bool_decide (id = ready_id payload) && bool_decide (of_generation = generation payload)
                && bool_decide (manifest = ready_manifest_sha256 payload)
        then Ok Matching else Err (ConflictingGeneration marker)
    end.
(** A marker that is not there is [ErrorKind::NotFound]; any other failure to look
    is one. *)
Definition inspect_ready_marker : pact MarkerState :=
  let^ _ := check_cancelled in
  let^ f := fate_of in
  let^ found := gets (λ s, tree_of s !! marker) in
  match f, found with
  | Fails _ _, _ => bad (PayloadIo "inspect ready marker" marker)
  | Works, None => good Missing
  | Works, Some None => good Corrupt
  | Works, Some (Some contents) =>
      if READY_MARKER_SIZE_LIMIT <? zlen contents then good Corrupt
      else
        let^ bytes := read_all "read ready marker" marker in
        pure_of (read_marker bytes)
  end.

(** The loops below end: what is moved aside is not there in the next turn. *)
Definition TURNS : nat := 3.

Fixpoint verify_or_quarantine_marker (fuel : nat) : dact unit :=
  match fuel with
  | O => pure_of Panic
  | S fuel =>
      let^ state := at_store inspect_ready_marker in
      match state with
      | Missing | Matching => pure_of (Ok tt)
      | Corrupt => let^ _ := move_aside marker ready_root in verify_or_quarantine_marker fuel
      end
  end.
Fixpoint deactivate_ready_marker (fuel : nat) : dact unit :=
  match fuel with
  | O => pure_of Panic
  | S fuel =>
      let^ state := at_store inspect_ready_marker in
      match state with
      | Missing => pure_of (Ok tt)
      | Matching | Corrupt => let^ _ := move_aside marker ready_root in deactivate_ready_marker fuel
      end
  end.

(** The bytes go to the file that was opened, and the file to its place. *)
Definition write_marker (partial : path) (bytes : list Z) : pact RenameOutcome :=
  let^ _ := write_all "write ready marker" partial bytes in
  let^ _ := sync_all "flush ready marker" partial in
  let^ _ := check_cancelled in
  rename_noreplace partial marker.
Fixpoint ensure_ready_marker (fuel : nat) : dact unit :=
  match fuel with
  | O => pure_of Panic
  | S fuel =>
      let^ state := at_store inspect_ready_marker in
      match state with
      | Matching => pure_of (Ok tt)
      | Corrupt => let^ _ := move_aside marker ready_root in ensure_ready_marker fuel
      | Missing =>
          let^ bytes := pure_of (marker_bytes (ready_id payload) (generation payload) (ready_manifest_sha256 payload)) in
          let^ partial := at_store create_partial_marker in
          let^ written := try_it (at_store (write_marker partial bytes)) in
          match written with
          | Ok Renamed => ensure_ready_marker fuel
          | Ok AlreadyExists => let^ _ := at_store (discard partial) in ensure_ready_marker fuel
          | Ok _ => let^ _ := at_store (discard partial) in pure_of (Err (PayloadIo "publish ready marker" marker))
          | Err e => let^ _ := at_store (discard partial) in pure_of (Err e)
          | Panic => pure_of Panic
          end
      end
  end.

(** ** The generation *)

(** One turn of ['prepare] is done, or there is another. *)
Inductive Turn : Type := Done | Again.

Fixpoint materialize_generation (files : list ExpectedFile) (temporary : path) : pact unit :=
  match files with
  | [] => good tt
  | f :: files =>
      let^ _ := check_cancelled in
      let source := files_directory payload ++ relative_path f in
      let^ _ := require_regular_file (invalid source) "verify GPU payload staging source" source in
      let target := temporary ++ relative_path f in
      let^ _ := make_dirs "create staging subdirectory" (parent target) in
      let^ _ := link_or_copy "copy GPU payload staging file" source target in
      materialize_generation files temporary
  end.

(** The marker first, and then what it stood for. *)
Definition withdraw : dact unit :=
  let^ _ := deactivate_ready_marker TURNS in
  move_aside generation_path generations_root.

(** [verify_generation], and what its failures come to: the caller's when it was
    cancelled; otherwise [there] or [gone], by whether something is there. *)
Definition verified_or {A} (expected : list ExpectedFile) (yes : A) (there gone : PayloadError → dact A) : dact A :=
  let^ checked := try_it (at_store (verify_generation expected generation_path)) in
  match checked with
  | Ok _ => pure_of (Ok yes)
  | Err e =>
      if is_cancellation e then pure_of (Err e)
      else
        let^ exists_ := at_store (path_is_there generation_path) in
        if exists_ : bool then there e else gone e
  | Panic => pure_of Panic
  end.

(** What the temporary directory came to, and whether it is still there to be
    removed. *)
Definition published_generation : Type := result PayloadError Turn * bool.
Fixpoint publish_generation (fuel : nat) (expected : list ExpectedFile) (temporary : path) : dact published_generation :=
  match fuel with
  | O => pure_of Panic
  | S fuel =>
      let^ c := try_it (at_store check_cancelled) in
      match c with
      | Err e => pure_of (Ok (Err e, true))
      | Panic => pure_of Panic
      | Ok _ =>
          let^ o := at_store (rename_noreplace temporary generation_path) in
          match o with
          | Renamed =>
              let^ r := try_it (verified_or expected Done
                          (λ _, let^ _ := withdraw in pure_of (Ok Again)) (λ e, pure_of (Err e))) in
              pure_of (Ok (r, false))
          | AlreadyExists =>
              let^ r := try_it (verified_or expected Done
                          (λ _, let^ _ := withdraw in pure_of (Ok Again)) (λ _, pure_of (Ok Again))) in
              match r with
              | Ok Again => publish_generation fuel expected temporary
              | _ => pure_of (Ok (r, true))
              end
          | _ => pure_of (Ok (Err (PayloadIo "publish GPU payload generation" generation_path), true))
          end
      end
  end.

Definition build_generation (expected : list ExpectedFile) : dact Turn :=
  let^ temporary := at_store create_temporary_generation in
  let^ made := try_it (at_store (
    let^ _ := materialize_generation expected temporary in verify_generation expected temporary)) in
  let^ outcome :=
    match made with
    | Ok _ => publish_generation TURNS expected temporary
    | Err e => pure_of (Ok (Err e, true))
    | Panic => pure_of Panic
    end in
  let '(r, armed) := outcome in
  let^ _ := at_store (if armed : bool then discard temporary else good tt) in
  pure_of r.

Definition generation_turn (expected : list ExpectedFile) : dact Turn :=
  let^ first := try_it (at_store (verify_generation expected generation_path)) in
  match first with
  | Ok _ => pure_of (Ok Done)
  | Err e =>
      if is_cancellation e then pure_of (Err e)
      else
        let^ _ := deactivate_ready_marker TURNS in
        verified_or expected Done
          (λ _, let^ _ := move_aside generation_path generations_root in pure_of (Ok Again))
          (λ _, build_generation expected)
  | Panic => pure_of Panic
  end.
Fixpoint generation_turns (fuel : nat) (expected : list ExpectedFile) : dact unit :=
  match fuel with
  | O => pure_of Panic
  | S fuel =>
      let^ turn := generation_turn expected in
      match turn with Done => pure_of (Ok tt) | Again => generation_turns fuel expected end
  end.
(** What is there costs a turn to move aside; after that another turn needs a call
    that fails, and the calls that do are in the list of fates. *)
Definition ensure_generation (expected : list ExpectedFile) : dact unit :=
  let^ n := gets (λ d, length (fates (disk (store d)))) in
  generation_turns (S (S (S n))) expected.

(** ** Staging *)

Definition ensure_child (child : string) : pact unit :=
  let directory := root ++ [text child] in
  let^ _ := make_dirs "create GPU payload staging directory" directory in
  require_directory (invalid directory) "verify GPU payload staging directory" directory.
Definition ensure_staging_root : pact unit :=
  let^ _ := ensure_child "generations" in ensure_child "ready".

(** [DigestLock::acquire]: the one who holds it lets go in the end. *)
Fixpoint wait_for_lock (waits : nat) (p : path) : pact unit :=
  match waits with
  | O => let^ f := fate_of in match f with Works => good tt | _ => bad (PayloadIo "lock staging generation" p) end
  | S waits => let^ _ := check_cancelled in wait_for_lock waits p
  end.
Definition acquire_lock : pact unit :=
  let p := generations_root ++ [text "." ++ digest_hex ++ text ".lock"] in
  let^ _ := open_lock "open staging generation lock" p in
  wait_for_lock lock_waits p.

Definition stage_locked (expected : list ExpectedFile) : dact StagedPayload :=
  let^ _ := verify_or_quarantine_marker TURNS in
  let^ _ := ensure_generation expected in
  let^ _ := ensure_ready_marker TURNS in
  pure_of (Ok (mk_staged (ready_id payload) (generation payload) generation_path marker)).
Definition stage_payload : pact StagedPayload :=
  let^ _ := ensure_staging_root in
  let^ _ := check_cancelled in
  let^ _ := acquire_lock in
  let^ expected := expected_files payload in
  with_quarantines (stage_locked expected).

End staging.

(** ** Calls that fail are used up *)

(** The fates an operation has left. *)
Definition lives (s : Store) : nat := length (fates (disk s)).
Definition draws {A} (m : pact A) : Prop := ∀ s, (lives (m s).1 <= lives s)%nat.
(** It fails only where it is cancelled, or where a call does. *)
Definition excused {A} (s : Store) (m : pact A) : Prop :=
  ∀ s' e, m s = (s', Err e) → e = PayloadCancelled ∨ (lives s' < lives s)%nat.

Lemma fate_spends s : ∃ f s', fate_of s = (s', Ok f) ∧ tree_of s' = tree_of s ∧ (lives s' <= lives s)%nat ∧
  (f = Works ∨ (lives s' < lives s)%nat).
Proof.
  unfold fate_of, on_disk, next_fate, tree_of, lives. destruct (fates (disk s)) as [|f rest] eqn:E.
  - eexists _, _. split; [done|]. cbn. rewrite E. auto.
  - eexists _, _. split; [done|]. cbn. split_and!; [done|lia|right; lia].
Qed.
Tactic Notation "spending" constr(s) "as" ident(f) ident(s1) ident(H) ident(Hl) ident(Hf) :=
  let E := fresh "E" in destruct (fate_spends s) as (f & s1 & E & H & Hl & Hf); rewrite E; clear E.

Lemma draws_good {A} (a : A) : draws (good a).
Proof. intros s. apply le_n. Qed.
Lemma draws_bad {A} e : draws (A := A) (bad e).
Proof. intros s. apply le_n. Qed.
Lemma draws_pure {A} (r : result PayloadError A) : draws (pure_of r).
Proof. intros s. apply le_n. Qed.
Lemma draws_gets {A} (f : Store → A) : draws (gets f).
Proof. intros s. apply le_n. Qed.
Lemma draws_alter f : draws (alter_files f).
Proof. intros s. apply le_n. Qed.
Lemma draws_number : draws take_number.
Proof. intros s. apply le_n. Qed.
Lemma draws_fate : draws fate_of.
Proof. intros s. spending s as f s1 H Hl Hf. done. Qed.
Lemma draws_then {A B} (m : pact A) (k : A → pact B) : draws m → (∀ a, draws (k a)) → draws (abind m k).
Proof.
  intros Hm Hk s. unfold abind. specialize (Hm s). destruct (m s) as [s1 [a|e|]]; cbn in *; [|done..].
  specialize (Hk a s1). lia.
Qed.
Lemma draws_attempt {A} (m : pact A) : draws m → draws (try_it (F := PayloadError) m).
Proof. intros Hm s. unfold try_it. specialize (Hm s). by destruct (m s) as [s1 [a|e|]]. Qed.
Lemma draws_cancelled : draws check_cancelled.
Proof.
  apply draws_then; [|intros []; [apply draws_bad|apply draws_good]]. intros s. unfold on_disk, is_cancelled, lives.
  destruct (cancel_after (disk s)) as [[|n]|]; cbn; lia.
Qed.
(** The calls of HostFiles.v. *)
Definition spends {E A} (m : action World E A) : Prop := ∀ w, (length (fates (m w).1) <= length (fates w))%nat.
Lemma draws_on_disk {A} (m : action World PayloadError A) : spends m → draws (on_disk m).
Proof. intros Hm s. unfold on_disk, lives. specialize (Hm (disk s)). by destruct (m (disk s)). Qed.
Lemma draws_as_io {A} op p (m : act A) : spends m → draws (as_io op p m).
Proof.
  intros Hm. apply draws_on_disk. intros w. unfold map_failure. specialize (Hm w). by destruct (m w).
Qed.
Ltac spending_call :=
  intros w; unfold create_dir_all, read_to_string, write_file, remove_file, remove_dir_all, is_file, abind, next_fate, gets, modify, fail, ret, pure_of;
  destruct (fates w) as [|[|[|?] ?] ?] eqn:Ew; cbn -[ways_to]; repeat case_match; simplify_eq/=; rewrite ?Ew; cbn; lia.
Lemma spends_create_dir_all p : spends (create_dir_all p).
Proof. spending_call. Qed.
Lemma spends_read_to_string op p : spends (read_to_string op p).
Proof. spending_call. Qed.
Lemma spends_write_file op p c : spends (write_file op p c).
Proof. spending_call. Qed.
Lemma spends_remove_file p : spends (remove_file p).
Proof. spending_call. Qed.
Lemma spends_remove_dir_all p : spends (remove_dir_all p).
Proof. spending_call. Qed.
#[export] Hint Resolve draws_good draws_bad draws_pure draws_gets draws_alter draws_number draws_fate draws_cancelled draws_as_io
  spends_create_dir_all spends_read_to_string spends_write_file spends_remove_file spends_remove_dir_all : store.
Ltac drawn :=
  repeat match goal with
  | |- draws (abind _ _) => apply draws_then; [|intros ?]
  | |- draws (try_it _) => apply draws_attempt
  | |- draws (ignoring _) => unfold ignoring
  | |- draws (match ?x with _ => _ end) => destruct x
  | |- draws (match ?x with _ => _ end _) => destruct x
  | |- draws (match ?x with _ => _ end _ _) => destruct x
  | |- draws _ => solve [eauto with store]
  end.
Lemma draws_metadata op p : draws (metadata op p).
Proof. unfold metadata. drawn. Qed.
#[export] Hint Resolve draws_metadata : store.
Lemma draws_require_file e op p : draws (require_regular_file e op p).
Proof. unfold require_regular_file. drawn. Qed.
Lemma draws_require_directory e op p : draws (require_directory e op p).
Proof. unfold require_directory. drawn. Qed.
Lemma draws_read_all op p : draws (read_all op p).
Proof. unfold read_all. drawn. Qed.
Lemma draws_read_dir op p : draws (read_dir op p).
Proof. unfold read_dir. drawn. Qed.
Lemma draws_looks n : draws (looks n).
Proof. induction n; cbn [looks]; drawn. Qed.
#[export] Hint Resolve draws_require_file draws_require_directory draws_read_all draws_read_dir draws_looks : store.
Lemma draws_hash `{Hash256} op p : draws (hash_file op p).
Proof. unfold hash_file. drawn. Qed.
Lemma draws_make_dirs op p : draws (make_dirs op p).
Proof. unfold make_dirs. drawn. Qed.
Lemma draws_create_dir op p : draws (create_dir op p).
Proof. unfold create_dir. drawn. Qed.
Lemma draws_write_all op p bytes : draws (write_all op p bytes).
Proof. unfold write_all. drawn. Qed.
Lemma draws_sync op p : draws (sync_all op p).
Proof. unfold sync_all. drawn. Qed.
Lemma draws_link op a b : draws (link_or_copy op a b).
Proof. unfold link_or_copy. drawn. Qed.
Lemma draws_rename a b : draws (rename_noreplace a b).
Proof. unfold rename_noreplace, path_is_there. drawn. Qed.
Lemma draws_discard p : draws (discard p).
Proof. unfold discard. drawn. Qed.
#[export] Hint Resolve draws_hash draws_make_dirs draws_create_dir draws_write_all draws_sync draws_link draws_rename draws_discard : store.
Lemma draws_retried {A} (named : N → path) (attempt : path → pact (option A)) :
  (∀ p, draws (attempt p)) → draws (retried named attempt).
Proof.
  intros Ha. unfold retried. drawn. generalize (S a). intros fuel.
  induction fuel as [|fuel IH]; cbn [retrying]; drawn.
Qed.

(** ** What a generation that is checked holds *)

(** A tree with the expected files, each by its size and its digest, and with
    nothing else that can be walked to. *)
Record intact `{Hash256} (look : path → option node) (expected : list ExpectedFile) : Prop := {
  intact_root : look [] = Some None;
  intact_files : Forall (λ f, ∃ c, look (relative_path f) = Some (Some c) ∧ zlen c = size f ∧ sha256 c = digest f) expected;
  intact_only : ∀ rel v, rel ≠ [] → look rel = Some v → (∀ k, (0 < k < length rel)%nat → look (take k rel) = Some None) →
    match v with
    | Some _ => rel ∈ map relative_path expected
    | None => rel ∈ expected_directories expected
    end;
}.
Definition seen_at (g : path) (s : Store) : path → option node := λ rel, tree_of s !! (g ++ rel).

Lemma intact_ext `{Hash256} look look' expected :
  (∀ rel, look' rel = look rel) → intact look expected → intact look' expected.
Proof.
  intros Hl [Hr Hf Ho]. constructor.
  - by rewrite Hl.
  - eapply list.Forall_impl; [exact Hf|]. intros f. cbn. by rewrite Hl.
  - intros rel v Hrel. rewrite Hl. intros Hv Hw. apply (Ho rel v Hrel Hv). intros k Hk. rewrite <- Hl. auto.
Qed.

Lemma reads_generation_tree fuel g d files directories : reads (verify_generation_tree fuel g d files directories).
Proof.
  revert d. induction fuel as [|fuel IH]; intros d; cbn [verify_generation_tree]; [done|].
  apply reads_bind; [apply reads_dir|intros names]. induction names as [|name names IHn]; cbn [verify_entries]; [done|].
  apply reads_bind; [apply reads_metadata|intros n].
  apply reads_bind; [destruct n; case_bool_decide; done || apply IH|intros _]. exact IHn.
Qed.

Section checking.
Context `{Hash256} `{K : PayloadEntry}.
Context (expected : list ExpectedFile) (g : path).
#[local] Abbreviation files := (map relative_path expected).
#[local] Abbreviation directories := (expected_directories expected).

Lemma reads_verify_each : reads (verify_each g expected).
Proof.
  induction expected as [|f fs IH]; cbn [verify_each]; [done|]. apply reads_bind; [apply reads_cancelled|intros _].
  apply reads_bind; [apply reads_verify|done].
Qed.
Lemma reads_verify_generation : reads (verify_generation expected g).
Proof.
  unfold verify_generation. apply reads_bind; [apply reads_require_directory|intros _]. apply reads_bind; [done|intros depth].
  apply reads_bind; [apply reads_generation_tree|intros _]. apply reads_verify_each.
Qed.

(** Every entry that can be walked to is expected. *)
Lemma verify_tree_sound fuel d s s' :
  verify_generation_tree fuel g d files directories s = (s', Ok tt) →
  ∀ rel v, rel ≠ [] → seen_at (g ++ d) s rel = Some v →
    (∀ k, (0 < k < length rel)%nat → seen_at (g ++ d) s (take k rel) = Some None) →
    match v with Some _ => d ++ rel ∈ files | None => d ++ rel ∈ directories end.
Proof.
  unfold seen_at. revert d s s'. induction fuel as [|fuel IH]; intros d s s'; cbn [verify_generation_tree]; [done|].
  intros E. apply abind_ok in E as (s1 & names & Hn & E). apply read_dir_ok in Hn as (H1 & _ & Hnames).
  intros [|n rel] v Hrel Hv Hdirs; [done|].
  assert (Hin : n ∈ names).
  { rewrite Hnames. apply names_in_spec. destruct rel as [|m rel]; [by rewrite Hv|].
    specialize (Hdirs 1%nat). cbn in Hdirs. rewrite Hdirs by lia. done. }
  clear Hnames. rewrite <- H1 in Hv, Hdirs. clear H1. revert s1 s' Hv Hdirs E.
  induction names as [|name names IHn]; intros s1 s' Hv Hdirs E; [by apply elem_of_nil in Hin|].
  cbn [verify_entries] in E. apply abind_ok in E as (s2 & w & Hw & E).
  pose proof (reads_run _ _ _ _ (reads_metadata _ _) Hw) as H2. apply metadata_ok in Hw.
  apply abind_ok in E as (s3 & [] & Hhere & E).
  assert (H3 : tree_of s3 = tree_of s1).
  { rewrite <- H2. eapply reads_run; [|exact Hhere]. destruct w; case_bool_decide; done || apply reads_generation_tree. }
  apply elem_of_cons in Hin as [->|Hin]; [|by eapply IHn; [done|..|exact E]; rewrite H3].
  clear E IHn. destruct rel as [|m rel].
  - rewrite <- app_assoc in Hv. rewrite Hw in Hv. injection Hv as ->. destruct v; by case_bool_decide.
  - assert (Hd1 : tree_of s1 !! (g ++ d ++ [name]) = Some None).
    { rewrite app_assoc. apply (Hdirs 1%nat). cbn. lia. }
    rewrite Hw in Hd1. injection Hd1 as ->. case_bool_decide; [|done].
    replace (d ++ name :: m :: rel) with ((d ++ [name]) ++ m :: rel) by by rewrite <- app_assoc.
    eapply IH; [exact Hhere|done|..]; rewrite H2; rewrite <- !app_assoc in *; [done|].
    intros k Hk. specialize (Hdirs (S k)). cbn in Hdirs. rewrite <- !app_assoc in *. apply Hdirs. cbn in *. lia.
Qed.
Lemma verify_each_sound s s' :
  verify_each g expected s = (s', Ok tt) →
  Forall (λ f, ∃ c, seen_at g s (relative_path f) = Some (Some c) ∧ zlen c = size f ∧ sha256 c = digest f) expected.
Proof.
  unfold seen_at. revert s. induction expected as [|f fs IH]; intros s; cbn [verify_each]; [constructor|].
  intros E. apply abind_ok in E as (s1 & u & Hc & E). apply (reads_run _ _ _ _ reads_cancelled) in Hc as H1.
  apply abind_ok in E as (s2 & u' & Hv & E). pose proof (reads_run _ _ _ _ (reads_verify _ _ _ _) Hv) as H2.
  apply verify_staged_ok in Hv as (c & Hf & Hn & Hd). apply IH in E. rewrite H2, H1 in E. rewrite H1 in Hf.
  constructor; [by exists c|done].
Qed.
Lemma verify_generation_sound s s' :
  verify_generation expected g s = (s', Ok tt) → intact (seen_at g s) expected.
Proof.
  unfold verify_generation. intros E. apply abind_ok in E as (s1 & u & Hd & E).
  pose proof (reads_run _ _ _ _ (reads_require_directory _ _ _) Hd) as H1. apply require_directory_ok in Hd.
  unfold abind at 1, gets in E. apply abind_ok in E as (s2 & [] & Ht & E).
  pose proof (reads_run _ _ _ _ (reads_generation_tree _ _ _ _ _) Ht) as H2.
  pose proof (verify_tree_sound _ _ _ _ Ht) as Hs. rewrite app_nil_r in Hs. apply verify_each_sound in E.
  unfold seen_at in *. rewrite H2, H1 in E. rewrite H1 in Hs. constructor; [by rewrite app_nil_r|done..].
Qed.
End checking.

(** ** A check of what is in order fails by a failing call only *)

Lemma excused_then {A B} s (m : pact A) (k : A → pact B) :
  excused s m → draws m → (∀ s1 a, m s = (s1, Ok a) → excused s1 (k a)) → excused s (abind m k).
Proof.
  intros Hm Hd Hk s' e. unfold abind. specialize (Hd s). unfold excused in *. destruct (m s) as [s1 [a|e1|]]; cbn in *; [|intros [= <- <-]; by apply (Hm s1)|done].
  intros E. destruct (Hk s1 a eq_refl s' e E) as [?|Hl]; [by left|right; lia].
Qed.
Lemma excused_good {A} s (a : A) : excused s (good a).
Proof. done. Qed.
Lemma excused_gets {A} s (f : Store → A) : excused s (gets f).
Proof. done. Qed.
Lemma excused_cancelled s : excused s check_cancelled.
Proof.
  intros s' e E. left. unfold check_cancelled in E. apply abind_cases in E as [(s1 & c & _ & E)|[(e1 & E & _)|[_ ?]]]; [|exfalso|done].
  - destruct c; [|done]. by injection E.
  - unfold on_disk, is_cancelled in E. by destruct (cancel_after (disk s)) as [[|n]|].
Qed.
Lemma excused_metadata op p s : is_some (tree_of s !! p) = true → excused s (metadata op p).
Proof.
  intros Hp s' e. unfold metadata, abind at 1. spending s as f s1 H Hl Hf. unfold abind, gets. rewrite H.
  destruct Hf as [->|Hf]; [by destruct (tree_of s !! p)|]. destruct f, (tree_of s !! p); [done|done| |]; intros [= <- <-]; by right.
Qed.
Lemma excused_read_dir op d s : is_directory (tree_of s) d = true → excused s (read_dir op d).
Proof.
  intros Hd s' e. unfold read_dir, abind at 1. spending s as f s1 H Hl Hf. unfold abind, gets. rewrite H, Hd.
  destruct Hf as [->|Hf]; [done|]. destruct f; [done|]. intros [= <- <-]. by right.
Qed.
Lemma excused_looks n s : excused s (looks n).
Proof.
  revert s. induction n as [|n IH]; intros s; cbn [looks]; [done|].
  apply excused_then; [apply excused_cancelled|apply draws_cancelled|auto].
Qed.

Section complete.
Context `{Hash256} `{K : PayloadEntry}.

Lemma excused_verify p subject s c :
  tree_of s !! p = Some (Some c) → excused s (verify_staged_file p subject (zlen c) (sha256 c)).
Proof.
  intros Hc. unfold verify_staged_file, require_staged_file.
  apply excused_then; [|auto with store|].
  { unfold require_regular_file. apply excused_then; [apply excused_metadata; by rewrite Hc|auto with store|].
    intros s1 n Hn. apply metadata_ok in Hn. rewrite Hc in Hn. by injection Hn as <-. }
  intros s1 n Hn. pose proof (reads_run _ _ _ _ (reads_require_file _ _ _) Hn) as H1.
  apply require_file_ok in Hn as (c' & Hc' & ->). rewrite Hc in Hc'. injection Hc' as <-. rewrite Z.eqb_refl. cbn.
  rewrite <- H1 in Hc. apply excused_then; [|auto with store|].
  - unfold hash_file. apply excused_then; [|auto with store|].
    + unfold read_all. apply excused_then; [apply excused_metadata; by rewrite Hc|auto with store|].
      intros s2 n Hn. apply metadata_ok in Hn. rewrite Hc in Hn. by injection Hn as <-.
    + intros s2 c' _. apply excused_then; [apply excused_looks|auto with store|done].
  - intros s2 h Hh. apply hash_file_ok in Hh as (c' & Hc' & ->). rewrite Hc in Hc'. injection Hc' as <-.
    by rewrite bool_decide_true.
Qed.
Lemma draws_verify p subject n d : draws (verify_staged_file p subject n d).
Proof. unfold verify_staged_file, require_staged_file. drawn. Qed.
Lemma draws_verify_tree fuel g d files directories : draws (verify_generation_tree fuel g d files directories).
Proof.
  revert d. induction fuel as [|fuel IH]; intros d; cbn [verify_generation_tree]; [auto with store|].
  apply draws_then; [auto with store|intros names]. induction names as [|name names IHn]; cbn [verify_entries]; [auto with store|].
  apply draws_then; [auto with store|intros n].
  apply draws_then; [destruct n; case_bool_decide; auto with store|intros _]. exact IHn.
Qed.
Lemma draws_verify_each g expected : draws (verify_each g expected).
Proof.
  induction expected as [|f fs IH]; cbn [verify_each]; [auto with store|]. apply draws_then; [auto with store|intros _].
  apply draws_then; [apply draws_verify|done].
Qed.
Lemma draws_verify_generation expected g : draws (verify_generation expected g).
Proof.
  unfold verify_generation. apply draws_then; [auto with store|intros _]. apply draws_then; [auto with store|intros depth].
  apply draws_then; [apply draws_verify_tree|intros _]. apply draws_verify_each.
Qed.

Lemma excused_verify_tree fuel g d expected s :
  intact (seen_at g s) expected →
  seen_at g s d = Some None → (∀ k, (0 < k < length d)%nat → seen_at g s (take k d) = Some None) →
  excused s (verify_generation_tree fuel g d (map relative_path expected) (expected_directories expected)).
Proof.
  intros Hi. revert d s Hi. induction fuel as [|fuel IH]; intros d s Hi Hd Hw; cbn [verify_generation_tree]; [done|].
  apply excused_then; [apply excused_read_dir; unfold is_directory, seen_at in *; by rewrite Hd|auto with store|].
  intros s1 names Hn. apply read_dir_ok in Hn as (H1 & _ & Hnames).
  assert (Hall : Forall (λ n, is_some (seen_at g s1 (d ++ [n])) = true) names).
  { rewrite Hnames. apply list.Forall_forall. intros n Hn%names_in_spec. unfold seen_at. by rewrite H1, app_assoc. }
  unfold seen_at in Hi, Hd, Hw. rewrite <- H1 in Hi, Hd, Hw. clear Hnames H1. revert s1 Hi Hd Hw Hall.
  induction names as [|name names IHn]; intros s1 Hi Hd Hw Hall; cbn [verify_entries]; [done|].
  apply list.Forall_cons in Hall as [Hname Hall].
  apply excused_then; [by apply excused_metadata|auto with store|].
  intros s2 n Hn. pose proof (reads_run _ _ _ _ (reads_metadata _ _) Hn) as H2. apply metadata_ok in Hn.
  assert (Hin := intact_only _ _ Hi (d ++ [name]) n). rewrite <- H2 in Hi, Hd, Hw, Hn, Hin.
  assert (Hwalk : ∀ k, (0 < k < length (d ++ [name]))%nat → seen_at g s2 (take k (d ++ [name])) = Some None).
  { intros k. rewrite length_app. cbn. intros Hk. rewrite take_app_le by lia.
    destruct (decide (k = length d)) as [->|Hne]; [by rewrite take_ge by lia|apply Hw; lia]. }
  specialize (Hin ltac:(by intros [_ ?]%app_nil) Hn Hwalk).
  apply excused_then.
  - destruct n; rewrite bool_decide_true by done; [done|]. apply IH; [done|done|exact Hwalk].
  - destruct n; case_bool_decide; auto with store. apply draws_verify_tree.
  - intros s3 u Hu. assert (H3 : tree_of s3 = tree_of s2).
    { eapply reads_run; [|exact Hu]. destruct n; case_bool_decide; done || apply reads_generation_tree. }
    apply IHn; unfold seen_at; rewrite ?H3; try done.
    eapply list.Forall_impl; [exact Hall|]. intros m. cbn. unfold seen_at. by rewrite H2.
Qed.
Lemma excused_verify_each g expected s :
  Forall (λ f, ∃ c, seen_at g s (relative_path f) = Some (Some c) ∧ zlen c = size f ∧ sha256 c = digest f) expected →
  excused s (verify_each g expected).
Proof.
  unfold seen_at. revert s. induction expected as [|f fs IH]; intros s Hf; cbn [verify_each]; [done|].
  apply excused_then; [apply excused_cancelled|auto with store|]. intros s1 u Hu.
  apply (reads_run _ _ _ _ reads_cancelled) in Hu as H1. rewrite <- H1 in Hf. apply list.Forall_cons in Hf as [(c & Hc & <- & <-) Hf].
  apply excused_then; [by apply excused_verify|apply draws_verify|]. intros s2 u' Hv.
  apply IH. by rewrite (reads_run _ _ _ _ (reads_verify _ _ _ _) Hv).
Qed.
Lemma excused_verify_generation g expected s :
  intact (seen_at g s) expected → excused s (verify_generation expected g).
Proof.
  intros Hi. unfold verify_generation.
  assert (Hr : tree_of s !! g = Some None) by (pose proof (intact_root _ _ Hi) as Hr; unfold seen_at in Hr; by rewrite app_nil_r in Hr).
  apply excused_then; [|auto with store|].
  { unfold require_directory. apply excused_then; [apply excused_metadata; by rewrite Hr|auto with store|].
    intros s1 n Hn. apply metadata_ok in Hn. rewrite Hr in Hn. by injection Hn as <-. }
  intros s1 u Hu. pose proof (reads_run _ _ _ _ (reads_require_directory _ _ _) Hu) as H1.
  assert (Hi1 : intact (seen_at g s1) expected) by (unfold seen_at; by rewrite H1). clear Hi Hu u.
  apply excused_then; [done|auto with store|]. intros s2 depth [= <- <-].
  apply excused_then; [|apply draws_verify_tree|].
  { apply excused_verify_tree; [done|apply Hi1|cbn; lia]. }
  intros s2 u Hu. apply excused_verify_each. pose proof (reads_run _ _ _ _ (reads_generation_tree _ _ _ _ _) Hu) as H2.
  unfold seen_at. rewrite H2. apply Hi1.
Qed.

(** And it ends. *)
Lemma verify_tree_ends M fuel g d files directories s :
  (∀ p, is_some (tree_of s !! p) = true → (length p <= M)%nat) → (0 < fuel)%nat → (M < fuel + length (g ++ d))%nat →
  (verify_generation_tree fuel g d files directories s).2 ≠ Panic.
Proof.
  intros HM. revert d s HM. induction fuel as [|fuel IH]; intros d s HM Hf Hd; [lia|]. cbn [verify_generation_tree].
  unfold abind at 1. pose proof (calm_read_dir "inspect staged GPU payload generation" (g ++ d) s) as Hc.
  destruct (read_dir _ _ s) as [s1 [names|e|]] eqn:E; [|done..]. clear Hc.
  apply (reads_run _ _ _ _ (reads_dir _ _)) in E as H1. clear E. rewrite <- H1 in HM. clear H1. revert s1 HM.
  induction names as [|name names IHn]; intros s1 HM; cbn [verify_entries]; [done|].
  unfold abind at 1. pose proof (calm_metadata "inspect staged GPU payload entry" (g ++ d ++ [name]) s1) as Hc.
  destruct (metadata _ _ s1) as [s2 [v|e|]] eqn:E; [|done..]. clear Hc.
  apply (reads_run _ _ _ _ (reads_metadata _ _)) in E as H2. apply metadata_ok in E. rewrite <- H2 in HM, E.
  unfold abind at 1. set (m := match v with Some _ => _ | None => _ end).
  assert (Hm : (m s2).2 ≠ Panic).
  { unfold m. destruct v; case_bool_decide; try done. apply HM in E as Hl || (pose proof (HM (g ++ d ++ [name])) as Hl; rewrite E in Hl; specialize (Hl eq_refl)).
    rewrite !length_app in *. cbn in Hl. apply IH; [done|lia|]. rewrite !length_app. cbn. lia. }
  assert (Hr : reads m) by (unfold m; destruct v; case_bool_decide; done || apply reads_generation_tree).
  destruct (m s2) as [s3 [u|e|]] eqn:E3; [|done..]. apply (reads_run _ _ _ _ Hr) in E3 as H3. rewrite <- H3 in HM.
  exact (IHn s3 HM).
Qed.
Lemma calm_verify_generation expected g : calm (verify_generation expected g).
Proof.
  unfold verify_generation. apply calm_then; [auto with store|intros _]. intros s. unfold abind at 1, gets.
  unfold abind. pose proof (verify_tree_ends (deepest (tree_of s)) (S (deepest (tree_of s))) g [] (map relative_path expected)
    (expected_directories expected) s) as Hc.
  destruct (verify_generation_tree _ g [] _ _ s) as [s1 [u|e|]]; [|done|by exfalso; apply Hc; [apply deepest_bound|lia..|]].
  enough (He : calm (verify_each g expected)) by apply He. clear. induction expected as [|f fs IH]; cbn [verify_each]; [auto with store|].
  apply calm_then; [auto with store|intros _]. apply calm_then; [apply calm_verify|done].
Qed.
End complete.

(** ** The desk *)

Section desk.
Context `{Hash256} `{K : PayloadEntry} {KL : PayloadEntryLaws K} {ML : MarkerLaws K}.
Variable process_id : N.
Variable payload : ReadyPayload.
Variable root : path.
Variable t0 : gmap path node.
#[local] Abbreviation G := (generation_path payload root).
#[local] Abbreviation M := (marker payload root).
#[local] Abbreviation unique := (unique_operation_path process_id payload).

Lemma operation_path_inj operation_root kind a b : unique operation_root kind a = unique operation_root kind b → a = b.
Proof.
  unfold unique_operation_path. intros [_ E]%app_inj_tail. case_bool_decide; repeat apply app_inv_head in E;
    by apply shown_inj.
Qed.

(** The names that are made up here. *)
Definition own (p : path) : Prop :=
  ∃ n, p = unique (generations_root root) ".tmp" n ∨ p = unique (generations_root root) ".corrupt" n ∨
       p = unique (ready_root root) ".corrupt" n ∨ p = unique (ready_root root) "part" n.
(** What is not to change behind the back of an operation. *)
Definition safe (q : path) : Prop := q = M ∨ under G q = true ∨ beside root q.

Lemma own_child p : own p → ∃ child name, p = (root ++ [text child]) ++ [name] ∧
  (child = "generations"%string ∧ name ≠ digest_hex payload ∨ child = "ready"%string ∧ name ≠ digest_hex payload ++ text ".json").
Proof.
  intros (n & [-> | [-> | [-> | ->]]]); eexists _, _; (split; [done|]); [left|left|right|right]; (split; [done|]);
    intros E; destruct (bool_decide _) in E; apply (f_equal length) in E; rewrite !length_app in E; cbn in E; lia.
Qed.
Lemma own_safe p q : own p → safe q → under p q = false.
Proof.
  intros (child & name & -> & Hc)%own_child [->|[Hq|Hq]].
  - destruct Hc as [[-> _]|[-> Hn]].
    + apply not_true_iff_false. intros Hu. assert (Hg : under (root ++ [text "generations"]) M = true) by (eapply under_trans; [apply under_app|exact Hu]).
      rewrite (siblings_apart root (text "ready") (text "generations")) in Hg; [done|done|apply under_app].
    + apply (siblings_apart _ (digest_hex payload ++ text ".json")); [by intros ?|apply under_refl].
  - destruct Hc as [[-> Hn]|[-> _]].
    + by apply (siblings_apart _ (digest_hex payload)); [intros ?|].
    + apply not_true_iff_false. intros Hu. assert (Hg : under (root ++ [text "ready"]) q = true) by (eapply under_trans; [apply under_app|exact Hu]).
      rewrite (siblings_apart root (text "generations") (text "ready")) in Hg; [done|done|].
      eapply under_trans; [apply under_app|exact Hq].
  - rewrite <- app_assoc. by apply beside_below.
Qed.
Lemma own_ne p q : own p → safe q → q ≠ p.
Proof. intros Hp Hq ->. pose proof (own_safe _ _ Hp Hq) as Hu. by rewrite under_refl in Hu. Qed.
Lemma marker_safe : safe M.
Proof. by left. Qed.
Lemma generation_safe rel : safe (G ++ rel).
Proof. right. left. apply under_app. Qed.

(** Everything beside the root is as it was at first, the generation is [g], the
    marker [v], and no more than [n] fates are left. *)
Record stands (n : nat) (g : path → option node) (v : option node) (d : Desk) : Prop := {
  stands_aside : Forall own (set_aside d);
  stands_beside : ∀ q, beside root q → tree_of (store d) !! q = t0 !! q;
  stands_generation : ∀ rel, seen_at G (store d) rel = g rel;
  stands_marker : tree_of (store d) !! M = v;
  stands_lives : (lives (store d) <= n)%nat;
}.

Lemma stands_run {A} n g v d (m : pact A) s r :
  draws m → (∀ q, safe q → spares q m) → m (store d) = (s, r) → stands n g v d → stands n g v (mk_desk s (set_aside d)).
Proof.
  intros Hd Hsp E [Ha Hb Hg Hm Hl]. pose proof (Hd (store d)) as Hds. rewrite E in Hds. constructor; cbn in *.
  - done.
  - intros q Hq. rewrite <- (Hb q Hq). eapply spares_run; [|exact E]. apply Hsp. by right; right.
  - intros rel. rewrite <- (Hg rel). unfold seen_at. eapply spares_run; [|exact E]. apply Hsp, generation_safe.
  - rewrite <- Hm. eapply spares_run; [|exact E]. apply Hsp, marker_safe.
  - lia.
Qed.
Lemma at_store_stands {A} n g v (m : pact A) (P : A → Desk → Prop) :
  calm m → draws m → (∀ q, safe q → spares q m) →
  (∀ d s a, m (store d) = (s, Ok a) → stands n g v d → P a (mk_desk s (set_aside d))) →
  triple (stands n g v) (at_store m) (λ a d, stands n g v d ∧ P a d) (λ _, stands n g v).
Proof.
  intros Hc Hd Hsp HP d Hs. unfold at_store. specialize (Hc (store d)). destruct (m (store d)) as [s [a|e|]] eqn:E; cbn in *; [|by eapply stands_run|done].
  split; [by eapply stands_run|by eapply HP].
Qed.
Lemma stands_more n n' g v d : (n <= n')%nat → stands n g v d → stands n' g v d.
Proof. intros Hn [Ha Hb Hg Hm Hl]. constructor; try done. lia. Qed.
Lemma at_store_same {A} n g v (m : pact A) :
  calm m → draws m → (∀ q, safe q → spares q m) →
  triple (stands n g v) (at_store m) (λ _, stands n g v) (λ _, stands n g v).
Proof.
  intros Hc Hd Hsp. eapply triple_weaken; [apply (at_store_stands n g v m (λ _ _, True)); done|done|by intros ? ? [? _]|done].
Qed.

(** ** Moving aside *)

Lemma calm_move_aside source operation_root : calm (quarantine process_id payload source operation_root).
Proof.
  apply calm_retried; [apply operation_path_inj|intros p; apply calm_then; [calming|intros []; calming]|]. intros p s s' E.
  apply abind_ok in E as (s1 & o & E & Hk). destruct o; try done. injection Hk as <-. by eapply rename_none.
Qed.
Lemma draws_quarantine source operation_root : draws (quarantine process_id payload source operation_root).
Proof. apply draws_retried. intros p. drawn. Qed.
Lemma quarantine_outcome source operation_root s s' r :
  quarantine process_id payload source operation_root s = (s', r) →
  match r with
  | Ok None => tree_of s' = tree_of s ∧ tree_of s !! source = None
  | Ok (Some p) => (∃ n, p = unique operation_root ".corrupt" n) ∧ tree_of s' = move source p (tree_of s)
  | Err _ => tree_of s' = tree_of s
  | Panic => False
  end.
Proof.
  intros E. pose proof (calm_move_aside source operation_root s) as Hc. rewrite E in Hc. cbn in Hc. revert E.
  unfold quarantine, retried, abind at 1, gets. intros E.
  apply retrying_does in E as [?|(n & s0 & r0 & H0 & Ha & Hr)]; [done| |].
  - destruct (rename_noreplace source (unique operation_root ".corrupt" n) s0) as [s1 o] eqn:Er. unfold abind in Ha. rewrite Er in Ha.
    apply rename_noreplace_does in Er as [(-> & Ht & _)|[Ht [[-> _]|[_ [->|[-> Hn]]]]]]; injection Ha as <- <-; subst r || done.
    + split; [by eexists|]. by rewrite Ht, H0.
    + by rewrite Ht.
    + by rewrite Ht, <- H0.
  - intros p s1 s2 Hx. apply abind_ok in Hx as (s3 & o & Hx & Hk). destruct o; try done. injection Hk as <-. by eapply rename_none.
Qed.

(** What is moved aside is gone, with all that was below it. *)
Lemma move_gone source target fs rel : under target (source ++ rel) = false → move source target fs !! (source ++ rel) = None.
Proof.
  intros Ht. unfold move. apply not_elem_of_list_to_map_1. rewrite <- list_fmap_compose.
  intros ([k v] & Hk & _)%list_elem_of_fmap. cbn in Hk. unfold moved_key in Hk. destruct (under source k) eqn:Hu.
  - rewrite Hk in Ht. by rewrite under_app in Ht.
  - rewrite <- Hk, under_app in Hu. done.
Qed.

(** Nothing is there, nor below. *)
Definition bare (g : path → option node) : Prop := ∀ rel, g rel = None.

Lemma move_aside_stands n g v source operation_root :
  (∀ m, own (unique operation_root ".corrupt" m)) → under root source = true →
  triple (stands n g v) (move_aside process_id payload source operation_root)
    (λ _ d, ∃ g' v', stands n g' v' d ∧
       (under source M = false → v' = v) ∧ (∀ rel, under source (G ++ rel) = false → g' rel = g rel) ∧
       ((∀ rel, g' rel = g rel) ∧ v' = v ∧ tree_of (store d) !! source = None ∨
        (∀ rel, safe (source ++ rel) → tree_of (store d) !! (source ++ rel) = None)))
    (λ _, stands n g v).
Proof.
  intros Hown Hroot d Hs. unfold move_aside, abind, at_store. pose proof (draws_quarantine source operation_root (store d)) as Hd.
  destruct (quarantine _ _ source operation_root (store d)) as [s r] eqn:E. apply quarantine_outcome in E. cbn in Hd.
  destruct Hs as [Ha Hb Hg Hm Hl].
  destruct r as [[p|]|e|]; cbn; [| | |done].
  - destruct E as [[m ->] Ht]. set (p := unique operation_root ".corrupt" m) in *.
    assert (Hkeep : ∀ q, safe q → under source q = false → tree_of s !! q = tree_of (store d) !! q).
    { intros q Hq Hu. rewrite Ht. apply move_elsewhere; [done|]. by apply own_safe; [apply Hown|]. }
    exists (λ rel, seen_at G s rel), (tree_of s !! M). split_and!.
    + constructor; cbn.
      * apply list.Forall_app. split; [done|]. apply list.Forall_singleton, Hown.
      * intros q Hq. rewrite <- Hb by done. apply Hkeep; [by right; right|].
        apply not_true_iff_false. intros Hu. destruct Hq as [Hq _]. by rewrite (under_trans _ _ _ Hroot Hu) in Hq.
      * done.
      * done.
      * lia.
    + intros Hu. rewrite <- Hm. apply Hkeep; [apply marker_safe|done].
    + intros rel Hu. rewrite <- Hg. apply Hkeep; [apply generation_safe|done].
    + right. intros rel Hsafe. rewrite Ht. apply move_gone. by apply own_safe; [apply Hown|].
  - destruct E as [Ht Hn]. exists g, v. split_and!; [|done..|left; by rewrite Ht].
    constructor; cbn; unfold seen_at; rewrite ?Ht; try done; [by rewrite app_nil_r|lia].
  - constructor; cbn; unfold seen_at; rewrite ?E; try done. lia.
Qed.

Lemma under_root_marker : under root M = true.
Proof. unfold marker, ready_root. rewrite <- app_assoc. apply under_app. Qed.
Lemma under_root_generation : under root G = true.
Proof. unfold generation_path, generations_root. rewrite <- app_assoc. apply under_app. Qed.
Lemma marker_beside_generation rel : under M (G ++ rel) = false.
Proof.
  apply not_true_iff_false. intros Hu. assert (Hg : under (root ++ [text "generations"]) (G ++ rel) = true).
  { unfold generation_path, generations_root. rewrite <- !app_assoc, app_assoc. apply under_app. }
  apply (siblings_apart root (text "generations") (text "ready")) in Hg; [|done].
  apply not_true_iff_false in Hg. apply Hg. eapply under_trans; [|exact Hu]. apply under_app.
Qed.
Lemma generation_beside_marker : under G M = false.
Proof.
  apply not_true_iff_false. intros Hu. assert (Hg : under (root ++ [text "ready"]) M = true) by apply under_app.
  apply (siblings_apart root (text "ready") (text "generations")) in Hg; [|done].
  apply not_true_iff_false in Hg. apply Hg. eapply under_trans; [|exact Hu]. apply under_app.
Qed.

Lemma move_marker n g v :
  triple (stands n g v) (move_aside process_id payload M (ready_root root)) (λ _, stands n g None) (λ _, stands n g v).
Proof.
  eapply triple_weaken; [apply (move_aside_stands n g v)|done| |done].
  - intros m. exists m. auto.
  - apply under_root_marker.
  - intros _ d (g' & v' & [Ha Hb Hg Hm Hl] & _ & Hg' & Hgone). constructor; try done.
    + intros rel. rewrite Hg. apply Hg', marker_beside_generation.
    + destruct Hgone as [(_ & _ & ?)|Hgone]; [done|]. rewrite <- (app_nil_r M). apply Hgone. rewrite app_nil_r. apply marker_safe.
Qed.
Lemma move_generation n g v :
  triple (stands n g v) (move_aside process_id payload G (generations_root root))
    (λ _ d, ∃ g', stands n g' v d ∧ g' [] = None ∧ (bare g' ∨ g [] = None)) (λ _, stands n g v).
Proof.
  eapply triple_weaken; [apply (move_aside_stands n g v)|done| |done].
  - intros m. exists m. auto.
  - apply under_root_generation.
  - intros _ d (g' & v' & Hst & Hv & _ & Hgone). exists g'. rewrite Hv in Hst by apply generation_beside_marker.
    split; [done|]. destruct Hst as [Ha Hb Hg Hm Hl]. destruct Hgone as [(Hsame & _ & Hn)|Hgone].
    + rewrite <- Hsame, <- (Hg []). unfold seen_at. by rewrite app_nil_r; auto.
    + assert (Hbare : bare g') by (intros rel; rewrite <- Hg; apply Hgone, generation_safe). auto.
Qed.

(** ** The marker *)

#[local] Abbreviation inspect := (inspect_ready_marker payload root).

Definition state_of (v : option node) : result PayloadError MarkerState :=
  match v with None => Ok Missing | Some None => Ok Corrupt | Some (Some c) => read_marker payload root c end.
(** It says that this generation may be used. *)
Definition says_ready (v : option node) : Prop :=
  ∃ c, v = Some (Some c) ∧
    marker_of_json c = Some (1, ready_id payload, generation payload, ready_manifest_sha256 payload).

Lemma read_marker_calm c : read_marker payload root c ≠ Panic.
Proof. unfold read_marker. by repeat case_match. Qed.
Lemma state_of_matching v : state_of v = Ok Matching → says_ready v.
Proof.
  destruct v as [[c|]|]; cbn; [|done..]. unfold read_marker. case_match; [done|].
  destruct (marker_of_json c) as [[[[version id] og] manifest]|] eqn:E; [|done].
  destruct (Z.eqb_spec version 1) as [->|]; [|done]. cbn. repeat case_bool_decide; try done. subst. intros _. by exists c.
Qed.
Lemma inspect_ok s s' st : inspect s = (s', Ok st) → state_of (tree_of s !! M) = Ok st.
Proof.
  unfold inspect_ready_marker. intros E. apply abind_ok in E as (s1 & u & Hc & E).
  apply (reads_run _ _ _ _ reads_cancelled) in Hc as H1. rewrite <- H1. clear H1 Hc. revert E.
  unfold abind at 1. drawing s1 as f s2 H2. unfold abind at 1, gets. rewrite H2.
  destruct f; [|by destruct (tree_of s1 !! M) as [[]|]]. destruct (tree_of s1 !! M) as [[c|]|] eqn:Hv; cbn; [|by intros [= _ <-]..].
  destruct (_ <? zlen c) eqn:Hlen; [intros [= _ <-]; unfold read_marker; by rewrite Hlen|].
  intros E. apply abind_ok in E as (s3 & c' & Hr & E). apply read_all_ok in Hr. rewrite H2, Hv in Hr. injection Hr as <-.
  by injection E.
Qed.
Lemma reads_inspect_marker : reads inspect.
Proof. unfold inspect_ready_marker. reading. Qed.
Lemma calm_inspect_marker : calm inspect.
Proof.
  unfold inspect_ready_marker. apply calm_then; [auto with store|intros _]. apply calm_then; [auto with store|intros f].
  apply calm_then; [auto with store|intros [[c|]|]]; destruct f; auto with store. destruct (_ <? _); [auto with store|].
  apply calm_then; [auto with store|]. intros bytes s. apply read_marker_calm.
Qed.
Lemma draws_inspect : draws inspect.
Proof. unfold inspect_ready_marker. drawn. Qed.

Lemma inspect_stands n g v :
  triple (stands n g v) (at_store inspect) (λ st d, state_of v = Ok st ∧ stands n g v d) (λ _, stands n g v).
Proof.
  eapply triple_weaken; [apply (at_store_stands n g v inspect (λ st _, state_of v = Ok st))|done|intros st d [? ?]; by split|done].
  - apply calm_inspect_marker.
  - apply draws_inspect.
  - intros q _. apply spares_reads, reads_inspect_marker.
  - intros d s st E Hs. rewrite <- (stands_marker _ _ _ _ Hs). by eapply inspect_ok.
Qed.

(** Nothing but the marker may have gone. *)
Definition withdrawn (n : nat) (g : path → option node) (v : option node) (d : Desk) : Prop :=
  ∃ v', stands n g v' d ∧ (v' = v ∨ v' = None).
Lemma withdrawn_kept n g v d : stands n g v d → withdrawn n g v d.
Proof. exists v. auto. Qed.
Lemma withdrawn_gone n g v d : stands n g None d → withdrawn n g v d.
Proof. exists None. auto. Qed.
#[local] Hint Resolve withdrawn_kept withdrawn_gone : core.

(** [inspecting]: what the marker says, and then what is done about it. *)
Lemma inspecting {A} n g v (k : MarkerState → dact A) Q (R : PayloadError → Desk → Prop) :
  (∀ e d, stands n g v d → R e d) → (∀ st, state_of v = Ok st → triple (stands n g v) (k st) Q R) →
  triple (stands n g v) (abind (at_store inspect) k) Q R.
Proof.
  intros HR Hk. eapply triple_bind; [eapply triple_weaken; [apply inspect_stands|done|by intros ? ? H'; exact H'|auto]|].
  intros st. apply triple_assume, Hk.
Qed.
Lemma moving_marker {A} n g v (k : dact A) Q (R : PayloadError → Desk → Prop) :
  (∀ e d, stands n g v d → R e d) → triple (stands n g None) k Q R →
  triple (stands n g v) (let^ _ := move_aside process_id payload M (ready_root root) in k) Q R.
Proof.
  intros HR Hk. eapply triple_bind; [eapply triple_weaken; [apply move_marker|done|by intros ? ? H'; exact H'|auto]|]. intros []. exact Hk.
Qed.
Lemma missing_is_none v : state_of v = Ok Missing → v = None.
Proof. destruct v as [[c|]|]; cbn; [|done..]. unfold read_marker. by repeat case_match. Qed.

Lemma verify_or_quarantine_stands n g v :
  triple (stands n g v) (verify_or_quarantine_marker process_id payload root TURNS) (λ _, withdrawn n g v) (λ _, withdrawn n g v).
Proof.
  unfold TURNS. cbn [verify_or_quarantine_marker]. apply inspecting; [auto|]. intros st _.
  destruct st; [apply triple_ok; auto..|]. apply moving_marker; [auto|]. apply inspecting; [auto|]. intros st E. injection E as <-. apply triple_ok. auto.
Qed.
Lemma deactivate_stands n g v :
  triple (stands n g v) (deactivate_ready_marker process_id payload root TURNS) (λ _, stands n g None) (λ _, withdrawn n g v).
Proof.
  unfold TURNS. cbn [deactivate_ready_marker]. apply inspecting; [auto|]. intros st Hst. destruct st.
  - apply missing_is_none in Hst as ->. by apply triple_ok.
  - apply moving_marker; [auto|]. apply inspecting; [auto|]. intros st E. injection E as <-. by apply triple_ok.
  - apply moving_marker; [auto|]. apply inspecting; [auto|]. intros st E. injection E as <-. by apply triple_ok.
Qed.

(** ** Checking the generation on the desk *)

Context (expected : list ExpectedFile).

(** Something was wrong with it, or a call failed. *)
Definition failed (n : nat) (g : path → option node) (v : option node) (e : PayloadError) (d : Desk) : Prop :=
  stands n g v d ∧ (is_cancellation e = false → intact g expected → ∃ m, (m < n)%nat ∧ stands m g v d).

Lemma verifying {A} n g v (k : result PayloadError unit → dact A) Q R :
  (intact g expected → triple (stands n g v) (k (Ok tt)) Q R) →
  (∀ e, triple (failed n g v e) (k (Err e)) Q R) →
  triple (stands n g v) (abind (try_it (at_store (verify_generation expected G))) k) Q R.
Proof.
  intros Hok Herr d Hs. unfold abind, try_it, at_store.
  pose proof (calm_verify_generation expected G (store d)) as Hc. pose proof (excused_verify_generation G expected (store d)) as He.
  destruct (verify_generation expected G (store d)) as [s [[]|e|]] eqn:E; cbn in *; [| |done].
  - assert (Hs' : stands n g v (mk_desk s (set_aside d))).
    { eapply stands_run; [apply draws_verify_generation|intros q _; apply spares_reads, reads_verify_generation|exact E|exact Hs]. }
    apply Hok; [|done]. apply verify_generation_sound in E. eapply intact_ext; [|exact E]. intros rel. symmetry. apply Hs.
  - assert (Hs' : stands n g v (mk_desk s (set_aside d))).
    { eapply stands_run; [apply draws_verify_generation|intros q _; apply spares_reads, reads_verify_generation|exact E|exact Hs]. }
    apply Herr. split; [done|]. intros Hn Hi. destruct (He ltac:(eapply intact_ext; [|exact Hi]; intros rel; apply Hs) s e E) as [->|Hl]; [done|].
    exists (lives s). destruct Hs as [? ? ? ? Hlives]. split; [unfold lives in *; lia|]. destruct Hs'. constructor; done || (cbn; lia).
Qed.

Lemma verified_or_stands {A} n g v (yes : A) there gone Q (R : PayloadError → Desk → Prop) :
  (intact g expected → ∀ d, stands n g v d → Q yes d) →
  (∀ e d, stands n g v d → R e d) →
  (∀ e, is_cancellation e = false → g [] ≠ None → triple (failed n g v e) (there e) Q R) →
  (∀ e, is_cancellation e = false → g [] = None → triple (failed n g v e) (gone e) Q R) →
  triple (stands n g v) (verified_or payload root expected yes there gone) Q R.
Proof.
  intros Hyes HR Ht Hg. unfold verified_or. apply verifying.
  - intros Hi. apply triple_ok. auto.
  - intros e. destruct (is_cancellation e) eqn:Hc; [apply triple_err; intros d [Hs _]; auto|].
    intros d Hf. unfold abind, at_store, path_is_there, gets. destruct d as [s qs]. cbn -[outcome].
    assert (Hl : tree_of s !! G = g []).
    { rewrite <- (stands_generation _ _ _ _ (proj1 Hf) []). unfold seen_at. by rewrite app_nil_r. }
    destruct (tree_of s !! G) eqn:E; cbn -[outcome]; [apply Ht|apply Hg]; by rewrite <- ?Hl.
Qed.

Lemma withdraw_stands n g v :
  g [] ≠ None →
  triple (stands n g v) (withdraw process_id payload root) (λ _ d, ∃ g', stands n g' None d ∧ bare g') (λ _, withdrawn n g v).
Proof.
  intros Hg. unfold withdraw. eapply triple_bind; [apply deactivate_stands|]. intros [].
  eapply triple_weaken; [apply move_generation|done| |auto]. intros [] d (g' & Hs & _ & [Hb|Hn]); [by exists g'|done].
Qed.

(** ** Building it *)

Lemma retried_outcome {A} (named : N → path) (attempt : path → pact (option A)) s s' r :
  calm (retried named attempt) →
  (∀ p s s', attempt p s = (s', Ok None) → tree_of s' = tree_of s) →
  retried named attempt s = (s', r) →
  ∃ n s0 r0, tree_of s0 = tree_of s ∧ attempt (named n) s0 = (s', r0) ∧
    match r0 with Ok (Some a) => r = Ok a | Ok None => False | Err e => r = Err e | Panic => r = Panic end.
Proof.
  intros Hc Hn E. pose proof (Hc s) as Hp. rewrite E in Hp. unfold retried, abind, gets in E.
  by apply retrying_does in E as [?|?].
Qed.
Lemma create_temporary_none p s s' :
  (let^ made := create_dir "create staging temporary directory" p in good (if made : bool then Some p else None)) s = (s', Ok None) →
  tree_of s' = tree_of s ∧ is_some (tree_of s !! p) = true ∧ next_operation s' = next_operation s.
Proof. intros E. apply abind_ok in E as (s1 & made & E & Hk). destruct made; [done|]. injection Hk as <-. by eapply create_dir_none. Qed.
Lemma calm_temporary_generation : calm (create_temporary_generation process_id payload root).
Proof.
  apply calm_retried; [apply operation_path_inj|intros p; calming|]. apply create_temporary_none.
Qed.
Lemma create_temporary_own s s' r :
  create_temporary_generation process_id payload root s = (s', r) →
  (∀ q, safe q → tree_of s' !! q = tree_of s !! q) ∧ ∀ t, r = Ok t → own t.
Proof.
  intros E. apply retried_outcome in E as (n & s0 & r0 & H0 & Ha & Hr);
    [|apply calm_temporary_generation|by intros p x y [Hx _]%create_temporary_none].
  assert (Hown : own (unique (generations_root root) ".tmp" n)) by (exists n; auto). split.
  - intros q Hq. rewrite <- H0. eapply spares_run; [|exact Ha]. apply spares_then; [by apply spares_create_dir, own_ne|]. by intros a x.
  - intros t ->. destruct r0 as [[t'|]|e0|]; try done. injection Hr as <-. apply abind_ok in Ha as (s1 & [] & _ & Hk); [|done].
    by injection Hk as _ <-.
Qed.

(** Nothing of ours is on the way to a path that was made up. *)
Lemma own_below p q rel : own p → safe q → under q (p ++ rel) = false.
Proof.
  intros Hp Hq. apply not_true_iff_false. intros Hu.
  destruct (under_either q p (p ++ rel) Hu (under_app _ _)) as [Hqp|Hpq]; [|by rewrite own_safe in Hpq].
  assert (Hlong : ∀ r, safe r → under r p = true → length r = length p → False).
  { intros r Hr Hrp Hlen. apply under_spec in Hrp as [rest ->]. apply (own_ne _ r Hp Hr).
    rewrite length_app in Hlen. destruct rest; [by rewrite app_nil_r|cbn in Hlen; lia]. }
  assert (Hlp : length p = (length root + 2)%nat).
  { destruct (own_child p Hp) as (child & name & -> & _). rewrite !length_app. cbn. lia. }
  destruct Hq as [->|[Hq|Hq]].
  - apply (Hlong M); [apply marker_safe|done|]. rewrite Hlp. unfold marker, ready_root. rewrite !length_app. cbn. lia.
  - apply (Hlong G); [rewrite <- (app_nil_r G); apply generation_safe|by eapply under_trans|].
    rewrite Hlp. unfold generation_path, generations_root. rewrite !length_app. cbn. lia.
  - destruct (own_child p Hp) as (child & name & -> & _). rewrite <- app_assoc in Hqp. by rewrite beside_way in Hqp.
Qed.

Lemma calm_materialize files temporary : calm (materialize_generation payload files temporary).
Proof. induction files as [|f files IH]; cbn [materialize_generation]; calming. Qed.
Lemma draws_materialize files temporary : draws (materialize_generation payload files temporary).
Proof. induction files as [|f files IH]; cbn [materialize_generation]; drawn. Qed.
Lemma spares_materialize files temporary q :
  own temporary → safe q → spares q (materialize_generation payload files temporary).
Proof.
  intros Ht Hq. induction files as [|f files IH]; cbn [materialize_generation]; sparing.
  - apply spares_make_dirs. intros Hw%ways_to_parent. by rewrite own_below in Hw.
  - apply spares_link. intros ->. pose proof (own_safe _ _ Ht Hq) as Hu. by rewrite under_app in Hu.
Qed.

(** What a turn comes to.  Where nothing was in the way before it, another one
    takes a call that fails. *)
Definition turned (n : nat) (g : path → option node) (t : Turn) (d : Desk) : Prop :=
  match t with
  | Done => ∃ g' v', stands n g' v' d ∧ intact g' expected
  | Again => ∃ m g', stands m g' None d ∧ bare g' ∧ (m <= n)%nat ∧ (bare g → (m < n)%nat)
  end.
Definition unmarked (n : nat) (d : Desk) : Prop := ∃ g', stands n g' None d.

Lemma unmarked_stands n g d : stands n g None d → unmarked n d.
Proof. by exists g. Qed.
Lemma unmarked_withdrawn n g d : withdrawn n g None d → unmarked n d.
Proof. intros (v & Hs & [->| ->]); by exists g. Qed.
#[local] Hint Resolve unmarked_stands unmarked_withdrawn : core.

Lemma stands_less n m g v d : (lives (store d) <= m)%nat → stands n g v d → stands m g v d.
Proof. intros Hm [? ? ? ? ?]. by constructor. Qed.

(** The one that took a name of its own, and what is checked there. *)
Definition prepared_at (temporary : path) (d : Desk) : Prop :=
  own temporary ∧ intact (seen_at temporary (store d)) expected.

Lemma calm_fill_generation temporary :
  calm (let^ _ := materialize_generation payload expected temporary in verify_generation expected temporary).
Proof. apply calm_then; [apply calm_materialize|intros _; apply calm_verify_generation]. Qed.
Lemma draws_fill_generation temporary :
  draws (let^ _ := materialize_generation payload expected temporary in verify_generation expected temporary).
Proof. apply draws_then; [apply draws_materialize|intros _; apply draws_verify_generation]. Qed.
Lemma spares_fill_generation temporary q : own temporary → safe q →
  spares q (let^ _ := materialize_generation payload expected temporary in verify_generation expected temporary).
Proof.
  intros Ht Hq. apply spares_then; [by apply spares_materialize|intros _]. apply spares_reads, reads_verify_generation.
Qed.

(** Moved into its place. *)
Lemma renamed_stands n g temporary d s :
  prepared_at temporary d → stands n g None d → (lives s <= n)%nat →
  tree_of s = move temporary G (tree_of (store d)) →
  stands n (seen_at G s) None (mk_desk s (set_aside d)) ∧ (bare g → intact (seen_at G s) expected).
Proof.
  intros [Hown Hi] [Ha Hb Hg Hm Hl] Hls Ht.
  assert (Hkeep : ∀ q, safe q → under G q = false → tree_of s !! q = tree_of (store d) !! q).
  { intros q Hq Hu. rewrite Ht. apply move_elsewhere; [by apply own_safe|done]. }
  split.
  - constructor; cbn; try done.
    + intros q Hq. rewrite Hkeep; [by apply Hb|by right; right|]. destruct Hq as [Hq _].
      apply not_true_iff_false. intros Hu. by rewrite (under_trans root G q under_root_generation Hu) in Hq.
    + rewrite Hkeep; [done|apply marker_safe|apply generation_beside_marker].
  - intros Hbare. eapply intact_ext; [|exact Hi]. intros rel. unfold seen_at. rewrite Ht. apply move_target.
    change (seen_at G (store d) rel = None). by rewrite Hg.
Qed.

(** Withdrawn, there is another turn. *)
Lemma withdraw_again n m g g0 :
  g [] ≠ None → (m <= n)%nat → (bare g0 → (m < n)%nat) →
  triple (stands m g None) (let^ _ := withdraw process_id payload root in pure_of (Ok Again))
    (λ t d, turned n g0 t d) (λ _ d, unmarked m d).
Proof.
  intros Hg Hmn Hb. eapply triple_bind; [eapply triple_weaken; [by apply (withdraw_stands m g None)|done|intros ? ? H'; exact H'|intros ? ?; apply unmarked_withdrawn]|].
  intros []. apply triple_ok. intros d (g' & Hs & Hg'). exists m, g'. auto.
Qed.
Lemma unmarked_more m n d : (m <= n)%nat → unmarked m d → unmarked n d.
Proof. intros Hm (g & Hs). exists g. by eapply stands_more. Qed.

(** After the move: it is looked at again. *)
Lemma looked_at_again n g g1 :
  (bare g → intact g1 expected) →
  triple (stands n g1 None)
    (verified_or payload root expected Done (λ _, let^ _ := withdraw process_id payload root in pure_of (Ok Again)) (λ e, pure_of (Err e)))
    (turned n g) (λ _, unmarked n).
Proof.
  intros Hb. apply verified_or_stands.
  - intros Hi d Hs. by exists g1, None.
  - eauto.
  - intros e Hc Hg1 d [Hs Hf]. specialize (Hf Hc).
    assert (Hm : ∃ m, (m <= n)%nat ∧ (bare g → (m < n)%nat) ∧ stands m g1 None d).
    { exists (lives (store d)). split_and!; [apply Hs| |by eapply stands_less].
      intros Hbare. destruct (Hf (Hb Hbare)) as (m & Hm & Hs'). pose proof (stands_lives _ _ _ _ Hs'). lia. }
    destruct Hm as (m & Hm & Hlt & Hs'). eapply triple_weaken; [apply (withdraw_again n m g1 g Hg1 Hm Hlt)|intros ? H'; exact H'|auto| |exact Hs'].
    intros ? d' Hu. by eapply unmarked_more.
  - intros e Hc Hg1. apply triple_err. intros d [Hs _]. eauto.
Qed.

Definition settled (n : nat) (g : path → option node) (r : result PayloadError Turn) (d : Desk) : Prop :=
  match r with Ok t => turned n g t d | Err _ => unmarked n d | Panic => False end.

(** What was tried is known, whatever it came to. *)
Lemma trying {A} n g P (m : dact Turn) (k : result PayloadError Turn → dact A) Q R :
  triple P m (turned n g) (λ _, unmarked n) →
  (∀ r, triple (settled n g r) (k r) Q R) → triple P (abind (try_it m) k) Q R.
Proof.
  intros Hm Hk d Hd. specialize (Hm d Hd). unfold abind, try_it. destruct (m d) as [d' [t|e|]]; cbn in *; [| |done].
  - by apply (Hk (Ok t)).
  - by apply (Hk (Err e)).
Qed.

Lemma publish_stands n g temporary fuel :
  g [] = None →
  triple (λ d, stands n g None d ∧ prepared_at temporary d)
    (publish_generation process_id payload root (S fuel) expected temporary)
    (λ o d, settled n g o.1 d) (λ _ _, False).
Proof.
  intros Hg d [Hs Hp]. cbn [publish_generation]. unfold abind at 1, try_it, at_store.
  pose proof (calm_cancelled (store d)) as Hc. destruct (check_cancelled (store d)) as [s1 r1] eqn:E1. cbn in Hc.
  assert (Hs1 : stands n g None (mk_desk s1 (set_aside d))).
  { eapply stands_run; [apply draws_cancelled|intros q _; apply spares_reads, reads_cancelled|exact E1|exact Hs]. }
  apply (reads_run _ _ _ _ reads_cancelled) in E1 as H1.
  assert (Hp1 : prepared_at temporary (mk_desk s1 (set_aside d))) by (unfold prepared_at, seen_at; cbn; by rewrite H1).
  destruct r1 as [u|e|]; [|by exists g|done]. clear E1 H1 Hc Hs Hp. set (d1 := mk_desk s1 _) in *. cbn -[outcome].
  unfold abind at 1. cbn -[outcome].
  pose proof (draws_rename temporary G s1) as Hl. destruct (rename_noreplace temporary G s1) as [s2 o] eqn:E2. cbn in Hl.
  apply rename_noreplace_does in E2 as [(-> & Ht & _)|[Ht Ho]].
  - destruct (renamed_stands n g temporary d1 s2 Hp1 Hs1) as [Hs2 Hi]; [pose proof (stands_lives _ _ _ _ Hs1); unfold d1 in *; cbn in *; lia|done|].
    eapply trying with (n := n) (g := g); [apply (looked_at_again n g); exact Hi| |exact Hs2].
    intros r. by apply triple_ok.
  - assert (Hs2 : stands n g None (mk_desk s2 (set_aside d))).
    { destruct Hs1 as [? ? Hgen ? ?]. constructor; cbn; unfold seen_at; rewrite ?Ht; try done. unfold d1 in *. cbn in *. lia. }
    assert (Hgone : tree_of s1 !! G = None).
    { rewrite <- Hg, <- (stands_generation _ _ _ _ Hs1 []). unfold seen_at. by rewrite app_nil_r. }
    destruct Ho as [[-> Hthere]|[_ [->|[-> _]]]]; [by rewrite Hgone in Hthere|by exists g..].
Qed.

Lemma settled_discard n g r temporary (armed : bool) :
  own temporary →
  triple (settled n g r) (let^ _ := at_store (if armed then discard temporary else good tt) in pure_of r)
    (turned n g) (λ _, unmarked n).
Proof.
  intros Hown d Hr. set (m := if armed then _ else _).
  assert (Hm : calm m ∧ draws m ∧ ∀ q, safe q → spares q m).
  { unfold m. destruct armed; [|done || by split_and!; [auto with store..|intros ? _ ?]]. split_and!; [auto with store..|].
    intros q Hq. apply spares_discard. by apply own_safe. }
  destruct Hm as (Hc & Hd & Hsp).
  assert (Hst : ∀ n' g' v', stands n' g' v' d → outcome (λ _, stands n' g' v') (λ _, stands n' g' v') (at_store m d)).
  { intros n' g' v' Hs. exact (at_store_same n' g' v' m Hc Hd Hsp d Hs). }
  assert (Hokm : ∃ d1, at_store m d = (d1, Ok tt)).
  { unfold at_store, m. destruct armed; [|by eexists]. clear. destruct (discard temporary (store d)) as [s [[]|e|]] eqn:E.
    - by eexists.
    - exfalso. unfold discard, abind at 1, gets in E. destruct (tree_of (store d) !! temporary) as [[c|]|]; [| |done];
        rewrite ignoring_run in E by auto with store; done.
    - exfalso. pose proof (calm_discard temporary (store d)) as Hc. by rewrite E in Hc. }
  destruct Hokm as [d1 E]. unfold abind. rewrite E. unfold outcome in Hst. rewrite E in Hst. cbn in Hst.
  destruct r as [[]|e|]; cbn in *; [| |by destruct Hr as (g' & Hs); exists g'; apply Hst|done].
  - destruct Hr as (g' & v' & Hs & Hi). exists g', v'. auto.
  - destruct Hr as (m' & g' & Hs & Hb). exists m', g'. auto.
Qed.

Lemma build_stands n g :
  g [] = None →
  triple (stands n g None) (build_generation process_id payload root expected) (turned n g) (λ _, unmarked n).
Proof.
  intros Hg. unfold build_generation.
  eapply triple_bind.
  { eapply triple_weaken; [apply (at_store_stands n g None (create_temporary_generation process_id payload root) (λ t _, own t))|done|intros ? ? H'; exact H'|by intros ? ?; apply unmarked_stands].
    - apply calm_temporary_generation.
    - apply draws_retried. intros p. drawn.
    - intros q Hq s. destruct (create_temporary_generation process_id payload root s) as [s' r] eqn:E. by apply create_temporary_own in E as [Hk _]; apply Hk.
    - intros d s t E _. apply create_temporary_own in E as [_ Ho]. by apply Ho. }
  intros temporary d [Hs Hown]. unfold abind at 1, try_it, at_store.
  set (m := let^ _ := materialize_generation payload expected temporary in _).
  pose proof (calm_fill_generation temporary (store d)) as Hc. fold m in Hc.
  destruct (m (store d)) as [s1 r1] eqn:E1. cbn in Hc.
  assert (Hs1 : stands n g None (mk_desk s1 (set_aside d))).
  { eapply stands_run; [apply draws_fill_generation|intros q Hq; by apply spares_fill_generation|exact E1|exact Hs]. }
  destruct r1 as [u|e|]; [| |done]; cbn -[outcome publish_generation].
  - assert (Hp1 : prepared_at temporary (mk_desk s1 (set_aside d))).
    { split; [done|]. cbn. unfold m in E1. apply abind_ok in E1 as (s2 & u' & _ & E). destruct u.
      pose proof (reads_run _ _ _ _ (reads_verify_generation _ _) E) as H2. apply verify_generation_sound in E.
      unfold seen_at. by rewrite H2. }
    pose proof (publish_stands n g temporary 2 Hg _ (conj Hs1 Hp1)) as Hpub. unfold TURNS. unfold abind at 1.
    destruct (publish_generation _ _ _ 3 _ _ _) as [d2 [[r armed]|e|]]; [|done..]. by apply settled_discard.
  - exact (settled_discard n g (Err e) temporary true Hown _ (ex_intro _ g Hs1)).
Qed.

Lemma generation_turn_stands n g v :
  triple (stands n g v) (generation_turn process_id payload root expected) (turned n g) (λ _ d, ∃ g' v', stands n g' v' d ∧ (v' = None ∨ v' = v ∧ g' = g)).
Proof.
  assert (HR : ∀ g' v' d, withdrawn n g' v' d → v' = None ∨ v' = v ∧ g' = g → ∃ g' v', stands n g' v' d ∧ (v' = None ∨ v' = v ∧ g' = g)).
  { intros g' v' d (v2 & Hs & [->| ->]) Hv; [by exists g', v'|exists g', None; auto]. }
  assert (HU : ∀ d, unmarked n d → ∃ g' v', stands n g' v' d ∧ (v' = None ∨ v' = v ∧ g' = g)).
  { intros d (g' & Hs). exists g', None. auto. }
  unfold generation_turn. apply verifying.
  { intros Hi. apply triple_ok. intros d Hs. by exists g, v. }
  intros e. destruct (is_cancellation e); [apply triple_err; intros d [Hs _]; by exists g, v; auto|].
  eapply triple_pre; [by intros d [Hs _]; exact Hs|].
  eapply triple_bind; [eapply triple_weaken; [apply deactivate_stands|done|intros ? ? H'; exact H'|intros ? d Hw; by apply (HR g v d Hw); right]|].
  intros []. apply verified_or_stands.
  - intros Hi d Hs. by exists g, None.
  - intros ? d Hs. exists g, None. auto.
  - intros e' Hc Hg1 d [Hs _].
    eapply triple_bind; [eapply triple_weaken; [apply (move_generation n g None)|done|intros ? ? H'; exact H'|]| |exact Hs].
    { intros ? d' Hs'. exists g, None. auto. }
    intros []. apply triple_ok. intros d' (g' & Hs' & _ & [Hb|?]); [|done]. exists n, g'. split_and!; [done..|].
    intros Hb'. by rewrite Hb' in Hg1.
  - intros e' Hc Hg1. eapply triple_weaken; [apply (build_stands n g Hg1)|by intros d [Hs _]|done|auto].
Qed.

(** ** The generation is there, whatever it takes *)

(** Where an operation gives up: the marker is gone, or nothing of the generation
    has changed. *)
Definition given_up (n : nat) (g : path → option node) (v : option node) (d : Desk) : Prop :=
  ∃ g' v', stands n g' v' d ∧ (v' = None ∨ v' = v ∧ g' = g).
Definition whole (n : nat) (d : Desk) : Prop := ∃ g' v', stands n g' v' d ∧ intact g' expected.

Lemma whole_more m n d : (m <= n)%nat → whole m d → whole n d.
Proof. intros Hm (g & v & Hs & Hi). exists g, v. split; [by eapply stands_more|done]. Qed.
Lemma given_up_bare m n g g' v d : (m <= n)%nat → given_up m g' None d → given_up n g v d.
Proof.
  intros Hm (g1 & v1 & Hs & Hv). exists g1, None. split; [|by left]. eapply stands_more; [exact Hm|].
  by destruct Hv as [->|[-> _]].
Qed.

Lemma turns_bare fuel n g :
  bare g → (n < fuel)%nat →
  triple (stands n g None) (generation_turns process_id payload root fuel expected) (λ _, whole n) (λ _, given_up n g None).
Proof.
  revert n g. induction fuel as [|fuel IH]; intros n g Hb Hn; [lia|]. cbn [generation_turns].
  eapply triple_bind; [apply generation_turn_stands|]. intros [] d Ht; [exact Ht|].
  destruct Ht as (m & g' & Hs & Hb' & _ & Hlt). specialize (Hlt Hb).
  eapply triple_weaken; [apply (IH m g'); [done|lia]|done| | |exact Hs].
  - intros ? d'. apply whole_more. lia.
  - intros ? d'. apply given_up_bare. lia.
Qed.
Lemma ensure_generation_stands n g v :
  triple (stands n g v) (ensure_generation process_id payload root expected) (λ _, whole n) (λ _, given_up n g v).
Proof.
  intros d Hs. unfold ensure_generation, abind at 1, gets. set (l := length _).
  assert (Hl : (l <= n)%nat) by apply Hs. apply (stands_less n l) in Hs; [|done].
  clearbody l. revert d Hs. change (triple (stands l g v) (generation_turns process_id payload root (S (S (S l))) expected) (λ _, whole n) (λ _, given_up n g v)).
  remember (S (S l)) as fuel eqn:Hf. cbn [generation_turns].
  eapply triple_bind.
  { eapply triple_weaken; [apply (generation_turn_stands l g v)|done|intros ? ? H'; exact H'|].
    intros ? d (g' & v' & Hs & Hv). exists g', v'. split; [by eapply stands_more|done]. }
  intros [] d Ht; [by apply (whole_more l)|]. destruct Ht as (m & g' & Hs & Hb & Hm & _).
  eapply triple_weaken; [apply (turns_bare fuel m g' Hb); lia|done| | |exact Hs].
  - intros ? d'. apply whole_more. lia.
  - intros ? d'. apply given_up_bare. lia.
Qed.

(** ** The marker comes last *)

Lemma open_new_none op p s s' :
  open_new op p s = (s', Ok None) →
  tree_of s' = tree_of s ∧ is_some (tree_of s !! p) = true ∧ next_operation s' = next_operation s.
Proof.
  intros E. pose proof (fate_of_number s) as Hn. destruct (fate_of_tree s) as (f & s1 & Ef & Hs1). rewrite Ef in Hn.
  unfold open_new, abind in E. rewrite Ef in E. unfold gets in E. cbn in E, Hn. rewrite Hs1 in E.
  destruct (tree_of s !! p) as [v|] eqn:Hp; [by injection E as <-|].
  destruct f; [|done]. by destruct (is_directory _ _) in E.
Qed.
Lemma calm_create_partial : calm (create_partial_marker process_id payload root).
Proof. apply calm_retried; [apply operation_path_inj|intros p; unfold open_new; calming|]. intros p s s'. apply open_new_none. Qed.
Lemma draws_create_partial : draws (create_partial_marker process_id payload root).
Proof. apply draws_retried. intros p. unfold open_new. drawn. Qed.
Lemma create_partial_own s s' r :
  create_partial_marker process_id payload root s = (s', r) →
  (∀ q, safe q → tree_of s' !! q = tree_of s !! q) ∧ ∀ t, r = Ok t → own t ∧ tree_of s' !! t = Some (Some []).
Proof.
  intros E. apply retried_outcome in E as (n & s0 & r0 & H0 & Ha & Hr); [|apply calm_create_partial|by intros p x y [Hx _]%open_new_none].
  set (p := unique (ready_root root) "part" n) in *. assert (Hown : own p) by (exists n; auto).
  destruct (fate_of_tree s0) as (f & s1 & Ef & Hs1). unfold open_new, abind in Ha. rewrite Ef in Ha. unfold gets in Ha. cbn in Ha.
  rewrite Hs1, H0 in Ha. split.
  - intros q Hq. rewrite <- H0, <- Hs1. destruct (tree_of s !! p); [by injection Ha as <- _|]. destruct f; [|by injection Ha as <- _].
    destruct (is_directory _ _) in Ha; [|by injection Ha as <- _]. injection Ha as <- _. unfold tree_of. cbn.
    rewrite lookup_insert_ne; [done|]. intros E. by apply (own_ne p q Hown Hq).
  - intros t ->. destruct (tree_of s !! p); [injection Ha as _ <-; done|]. destruct f; [|injection Ha as _ <-; done].
    destruct (is_directory _ _) in Ha; [|injection Ha as _ <-; done]. injection Ha as <- <-. injection Hr as <-.
    split; [done|]. unfold tree_of. cbn. by rewrite lookup_insert_eq.
Qed.

Lemma calm_write_marker partial bytes : calm (write_marker payload root partial bytes).
Proof. unfold write_marker. apply calm_then; [apply calm_write_all|intros _]. apply calm_then; [unfold sync_all; calming|intros _]. calming. Qed.
Lemma draws_write_marker partial bytes : draws (write_marker payload root partial bytes).
Proof. unfold write_marker. drawn. Qed.
Lemma write_all_done op p bytes s s' u c :
  write_all op p bytes s = (s', Ok u) → tree_of s !! p = Some (Some c) → tree_of s' = <[p := Some (c ++ bytes)]> (tree_of s).
Proof.
  unfold write_all, abind at 1. drawing s as f s1 H1. unfold abind, gets. intros E Hp. rewrite H1, Hp in E.
  destruct f; [|done]. injection E as <- _. unfold tree_of in *. cbn. by rewrite <- H1.
Qed.
(** Before the move, only the partial marker has changed. *)
Lemma write_marker_outcome partial bytes s s' r :
  own partial → tree_of s !! partial = Some (Some []) → write_marker payload root partial bytes s = (s', r) →
  (r = Ok Renamed ∧ ∃ fs, tree_of s' = move partial M fs ∧ fs !! partial = Some (Some bytes) ∧ fs !! M = None ∧
     (∀ q, safe q → fs !! q = tree_of s !! q)) ∨
  (r ≠ Ok Renamed ∧ (∀ q, safe q → tree_of s' !! q = tree_of s !! q) ∧ (r = Ok AlreadyExists → tree_of s !! M ≠ None)).
Proof.
  intros Hown Hp E. assert (Hw : ∀ q, safe q → spares q (write_all "write ready marker" partial bytes)).
  { intros q Hq. by apply spares_write_all, own_ne. }
  assert (Hfail : ∀ (r : result PayloadError RenameOutcome), r ≠ Ok Renamed → r ≠ Ok AlreadyExists →
    (∀ q, safe q → tree_of s' !! q = tree_of s !! q) →
    r ≠ Ok Renamed ∧ (∀ q, safe q → tree_of s' !! q = tree_of s !! q) ∧ (r = Ok AlreadyExists → tree_of s !! M ≠ None)).
  { intros r' Hn Ha Hk. by split_and!. }
  unfold write_marker in E. apply abind_cases in E as [(s1 & u & Hw1 & E)|[(e & Hw1 & ->)|(Hw1 & ->)]].
  2-3: right; apply Hfail; [done..|]; intros q Hq; eapply spares_run; [by apply Hw|exact Hw1].
  assert (H1 : ∀ q, safe q → tree_of s1 !! q = tree_of s !! q) by (intros q Hq; eapply spares_run; [by apply Hw|exact Hw1]).
  apply (write_all_done _ _ _ _ _ _ []) in Hw1 as Ht; [|done]. cbn in Ht.
  apply abind_cases in E as [(s2 & u2 & Hs2 & E)|[(e & Hs2 & ->)|(Hs2 & ->)]];
    apply (reads_run _ _ _ _ (reads_sync _ _)) in Hs2 as H2; rewrite <- H2 in Ht, H1.
  2-3: right; by apply Hfail.
  apply abind_cases in E as [(s3 & u3 & Hs3 & E)|[(e & Hs3 & ->)|(Hs3 & ->)]];
    apply (reads_run _ _ _ _ reads_cancelled) in Hs3 as H3; rewrite <- H3 in Ht, H1.
  2-3: right; by apply Hfail.
  apply rename_noreplace_does in E as [(-> & Hm & Hf)|[Hm Ho]].
  - left. split; [done|]. exists (tree_of s3). split_and!; [done|by rewrite Ht, lookup_insert_eq| |done].
    by destruct (tree_of s3 !! M).
  - right. rewrite Hm. split_and!; [|done|].
    + by destruct Ho as [[-> _]|[_ [->|[-> _]]]].
    + intros ->. destruct Ho as [[_ Ha]|[_ [?|[? _]]]]; [|done..]. rewrite <- H1 by apply marker_safe.
      by destruct (tree_of s3 !! M).
Qed.

Context (Hfits : ∀ bytes, marker_bytes (ready_id payload) (generation payload) (ready_manifest_sha256 payload) = Ok bytes →
                  zlen bytes <= READY_MARKER_SIZE_LIMIT).

Lemma written_marker_matches bytes :
  marker_bytes (ready_id payload) (generation payload) (ready_manifest_sha256 payload) = Ok bytes →
  state_of (Some (Some bytes)) = Ok Matching.
Proof using ML Hfits.
  intros Hb. pose proof (Hfits _ Hb) as Hlen. cbn. unfold read_marker. destruct (Z.ltb_spec READY_MARKER_SIZE_LIMIT (zlen bytes)); [lia|].
  unfold marker_bytes in Hb. destruct (marker_json _ _ _) as [json|e|] eqn:E; [|done..]. injection Hb as <-.
  apply marker_comes_back in E as ->. cbn. by rewrite !bool_decide_true.
Qed.

Definition marked (n : nat) (g : path → option node) (d : Desk) : Prop := ∃ v, stands n g v d ∧ says_ready v.
Definition unsure (n : nat) (g : path → option node) (d : Desk) : Prop := ∃ v, stands n g v d.

Lemma ensure_matching fuel n g v :
  state_of v = Ok Matching →
  triple (stands n g v) (ensure_ready_marker process_id payload root (S fuel)) (λ _, marked n g) (λ _, unsure n g).
Proof.
  intros Hv. cbn [ensure_ready_marker]. apply inspecting; [by intros ? d Hs; exists v|]. intros st Hst. rewrite Hv in Hst. injection Hst as <-.
  apply triple_ok. intros d Hs. exists v. by split; [|apply state_of_matching].
Qed.
Lemma discarding {A} n g v partial (k : dact A) Q R :
  own partial → (∀ e d, stands n g v d → R e d) → triple (stands n g v) k Q R →
  triple (stands n g v) (let^ _ := at_store (discard partial) in k) Q R.
Proof.
  intros Hown HR Hk. eapply triple_bind.
  - eapply triple_weaken; [apply (at_store_same n g v (discard partial))|done|intros ? ? H'; exact H'|auto]; [auto with store..|].
    intros q Hq. apply spares_discard. by apply own_safe.
  - by intros ?.
Qed.
Lemma ensure_missing fuel n g :
  triple (stands n g None) (ensure_ready_marker process_id payload root (S (S fuel))) (λ _, marked n g) (λ _, unsure n g).
Proof using KL ML Hfits.
  remember (S fuel) as f eqn:Hf. cbn [ensure_ready_marker]. apply inspecting; [by intros ? d Hs; exists None|]. intros st Hst. injection Hst as <-.
  pose proof written_marker_matches as Hmatch.
  destruct (marker_bytes _ _ _) as [bytes|e|] eqn:Hb; [|by intros d Hs; exists None|].
  2: { unfold marker_bytes in Hb. pose proof (marker_ends (ready_id payload) (generation payload) (ready_manifest_sha256 payload)). by destruct (marker_json _ _ _). }
  change (triple (stands n g None) (let^ partial := at_store (create_partial_marker process_id payload root) in
    let^ written := try_it (at_store (write_marker payload root partial bytes)) in
    match written with
    | Ok Renamed => ensure_ready_marker process_id payload root f
    | Ok AlreadyExists => let^ _ := at_store (discard partial) in ensure_ready_marker process_id payload root f
    | Ok _ => let^ _ := at_store (discard partial) in pure_of (Err (PayloadIo "publish ready marker" M))
    | Err e => let^ _ := at_store (discard partial) in pure_of (Err e)
    | Panic => pure_of Panic
    end) (λ _, marked n g) (λ _, unsure n g)).
  eapply triple_bind.
  { eapply triple_weaken; [apply (at_store_stands n g None (create_partial_marker process_id payload root) (λ t d, own t ∧ tree_of (store d) !! t = Some (Some [])))|done|intros ? ? H'; exact H'|by intros ? d Hs; exists None].
    - apply calm_create_partial.
    - apply draws_create_partial.
    - intros q Hq s. destruct (create_partial_marker process_id payload root s) as [s' r] eqn:E. by apply create_partial_own in E as [Hk _]; apply Hk.
    - intros d s t E _. apply create_partial_own in E as [_ Ho]. by apply Ho. }
  intros partial d (Hs & Hown & Hp). unfold abind at 1, try_it, at_store at 1.
  pose proof (calm_write_marker partial bytes (store d)) as Hc. pose proof (draws_write_marker partial bytes (store d)) as Hl.
  destruct (write_marker payload root partial bytes (store d)) as [s r] eqn:E. cbn in Hc, Hl.
  apply (write_marker_outcome _ _ _ _ _ Hown Hp) in E as [(-> & fs & Ht & Hbytes & Hfree & Hsame)|(Hr & Hsame & Hex)].
  - cbn -[outcome]. subst f. eapply ensure_matching; [by apply Hmatch|].
    destruct Hs as [Ha Hbe Hg Hm Hlv].
    assert (Hkeep : ∀ q, safe q → under M q = false → tree_of s !! q = tree_of (store d) !! q).
    { intros q Hq Hu. rewrite Ht, <- Hsame by done. apply move_elsewhere; [by apply own_safe|done]. }
    constructor; cbn; try done.
    + intros q Hq. rewrite Hkeep; [by apply Hbe|by right; right|]. apply not_true_iff_false. intros Hu.
      destruct Hq as [Hq _]. by rewrite (under_trans root M q under_root_marker Hu) in Hq.
    + intros rel. rewrite <- Hg. apply Hkeep; [apply generation_safe|apply marker_beside_generation].
    + rewrite Ht. pose proof (move_target partial M [] fs) as Hmv. rewrite !app_nil_r in Hmv. by rewrite Hmv.
    + lia.
  - assert (Hs' : stands n g None (mk_desk s (set_aside d))).
    { destruct Hs as [Ha Hbe Hg Hm Hlv]. constructor; cbn; try done.
      - intros q Hq. rewrite Hsame by (by right; right). by apply Hbe.
      - intros rel. rewrite <- Hg. apply Hsame, generation_safe.
      - rewrite Hsame; [done|apply marker_safe].
      - lia. }
    assert (Hdone : ∀ e, outcome (λ _, marked n g) (λ _, unsure n g)
              ((let^ _ := at_store (discard partial) in pure_of (Err e) : dact unit) (mk_desk s (set_aside d)))).
    { intros e. apply (discarding n g None partial (pure_of (Err e))); [done|by intros ? d' H'; exists None| |done].
      apply triple_err. intros d' H'. by exists None. }
    destruct r as [[]|e|]; [done| |apply Hdone..|done]. exfalso. apply Hex; [done|]. apply Hs.
Qed.
Lemma ensure_ready_stands n g v :
  triple (stands n g v) (ensure_ready_marker process_id payload root TURNS) (λ _, marked n g) (λ _, unsure n g).
Proof using KL ML Hfits.
  destruct (decide (v = None)) as [->|Hv]; [apply ensure_missing|]. unfold TURNS. remember 2%nat as f eqn:Hf.
  cbn [ensure_ready_marker]. apply inspecting; [by intros ? d Hs; exists v|]. intros st Hst. destruct st.
  - by apply missing_is_none in Hst.
  - apply triple_ok. intros d Hs. exists v. by split; [|apply state_of_matching].
  - apply moving_marker; [by intros ? d Hs; exists v|]. subst f. apply ensure_missing.
Qed.

(** ** All of it, with the lock held *)

Lemma stage_locked_stands n g v :
  triple (stands n g v) (stage_locked process_id payload root expected)
    (λ staged d, staged = mk_staged (ready_id payload) (generation payload) G M ∧
       ∃ g' v', stands n g' v' d ∧ intact g' expected ∧ says_ready v')
    (λ _ d, ∃ g' v', stands n g' v' d ∧ (v' = None ∨ v' = v ∧ g' = g ∨ intact g' expected)).
Proof using KL ML Hfits.
  unfold stage_locked. eapply triple_bind.
  { eapply triple_weaken; [apply verify_or_quarantine_stands|done|intros ? ? H'; exact H'|].
    intros ? d (v' & Hs & [->| ->]); [by exists g, v; auto|by exists g, None; auto]. }
  intros [] d (v1 & Hs & Hv1). eapply triple_bind; [| |exact Hs].
  { eapply triple_weaken; [apply ensure_generation_stands|done|intros ? ? H'; exact H'|].
    intros ? d' (g' & v' & Hs' & [->|[-> ->]]); [by exists g', None; auto|]. exists g, v1. split; [done|].
    destruct Hv1 as [->| ->]; auto. }
  intros [] d1 (g2 & v2 & Hs2 & Hi). eapply triple_bind; [| |exact Hs2].
  { eapply triple_weaken; [apply ensure_ready_stands|done|intros ? ? H'; exact H'|].
    intros ? d' (v' & Hs'). exists g2, v'. auto. }
  intros []. apply triple_ok. intros d' (v' & Hs' & Hr). split; [done|]. by exists g2, v'.
Qed.

End desk.

Section staged.
Context `{Hash256} `{K : PayloadEntry} {KL : PayloadEntryLaws K} {ML : MarkerLaws K}.
Variable process_id : N.
Variable lock_waits : nat.
Variable payload : ReadyPayload.
Variable root : path.
#[local] Abbreviation G := (generation_path payload root).
#[local] Abbreviation M := (marker payload root).
#[local] Abbreviation safe := (safe payload root).

(** The files of a payload, and its manifest, of whatever size that is. *)
Definition listed (n : Z) : list ExpectedFile :=
  mk_expected PAYLOAD_JSON n (ready_manifest_sha256 payload)
  :: map (λ f, mk_expected (relative (prepared_path f)) (prepared_size f) (prepared_sha256 f)) (manifest_files (ready_manifest payload)).

Lemma expected_files_listed s s' files : expected_files payload s = (s', Ok files) → ∃ n, files = listed n.
Proof.
  unfold expected_files. intros E. apply abind_ok in E as (s1 & n & _ & E). apply abind_ok in E as (s2 & u & _ & E).
  injection E as _ <-. by exists n.
Qed.

Lemma safe_not_way q child : safe q → under q (root ++ [text child]) = false.
Proof.
  intros Hq. assert (Hlong : (length root + 2 <= length q)%nat → under q (root ++ [text child]) = false).
  { intros Hl. apply not_true_iff_false. intros [rest E]%under_spec. apply (f_equal length) in E.
    rewrite !length_app in E. cbn in E. lia. }
  destruct Hq as [->|[Hq|Hq]].
  - apply Hlong. unfold marker, ready_root. rewrite !length_app. cbn. lia.
  - apply Hlong. apply under_spec in Hq as [rest ->]. unfold generation_path, generations_root. rewrite !length_app. cbn. lia.
  - by apply beside_way.
Qed.
Lemma lock_safe q : safe q → q ≠ generations_root root ++ [text "." ++ digest_hex payload ++ text ".lock"].
Proof.
  intros Hq ->. destruct Hq as [E|[Hu|[Hu _]]].
  - unfold marker, ready_root, generations_root in E. rewrite <- !app_assoc in E. apply app_inv_head in E. by injection E.
  - apply (siblings_apart _ _ (text "." ++ digest_hex payload ++ text ".lock")) in Hu; [by rewrite under_refl in Hu|].
    intros E. apply (f_equal length) in E. rewrite !length_app in E. cbn in E. lia.
  - unfold generations_root in Hu. by rewrite <- app_assoc, under_app in Hu.
Qed.

Lemma spares_ensure_root q : safe q → spares q (ensure_staging_root root).
Proof.
  intros Hq. unfold ensure_staging_root, ensure_child.
  repeat (apply spares_then; [|intros _]); try (apply spares_reads, reads_require_directory);
    apply spares_make_dirs; rewrite ways_to_spec, safe_not_way by done; done.
Qed.
Lemma calm_ensure_root : calm (ensure_staging_root root).
Proof. unfold ensure_staging_root, ensure_child. calming. Qed.
Lemma spares_acquire_lock q : safe q → spares q (acquire_lock lock_waits payload root).
Proof.
  intros Hq. unfold acquire_lock, open_lock. apply spares_then; [|intros _].
  - sparing. rewrite lookup_insert_ne; [done|]. intros E. by apply (lock_safe q Hq).
  - apply spares_reads. induction lock_waits as [|n IH]; cbn [wait_for_lock]; reading.
Qed.
Lemma calm_acquire_lock : calm (acquire_lock lock_waits payload root).
Proof.
  unfold acquire_lock, open_lock. apply calm_then; [calming|intros _].
  induction lock_waits as [|n IH]; cbn [wait_for_lock]; calming.
Qed.

(** Before the lock is held nothing of ours is touched. *)
Definition before_staging : pact (list ExpectedFile) :=
  let^ _ := ensure_staging_root root in
  let^ _ := check_cancelled in
  let^ _ := acquire_lock lock_waits payload root in
  expected_files payload.
Lemma spares_before q : safe q → spares q before_staging.
Proof.
  intros Hq. unfold before_staging. apply spares_then; [by apply spares_ensure_root|intros _].
  apply spares_then; [apply spares_reads, reads_cancelled|intros _]. apply spares_then; [by apply spares_acquire_lock|intros _].
  apply spares_reads, reads_expected.
Qed.
Lemma calm_before : calm before_staging.
Proof.
  unfold before_staging. apply calm_then; [apply calm_ensure_root|intros _]. apply calm_then; [apply calm_cancelled|intros _].
  apply calm_then; [apply calm_acquire_lock|intros _]. apply calm_expected.
Qed.
Lemma stage_is s : stage_payload process_id lock_waits payload root s =
  (let^ expected := before_staging in with_quarantines (stage_locked process_id payload root expected)) s.
Proof. unfold stage_payload, before_staging, abind. by repeat (case_match; simplify_eq/=). Qed.

Lemma stage_payload_does s s' r :
  (∀ bytes, marker_bytes (ready_id payload) (generation payload) (ready_manifest_sha256 payload) = Ok bytes →
     zlen bytes <= READY_MARKER_SIZE_LIMIT) →
  stage_payload process_id lock_waits payload root s = (s', r) →
  r ≠ Panic ∧
  (∀ staged, r = Ok staged →
     staged = mk_staged (ready_id payload) (generation payload) G M ∧
     (∃ n, intact (seen_at G s') (listed n)) ∧ says_ready payload (tree_of s' !! M)) ∧
  (tree_of s' !! M = None ∨
   (tree_of s' !! M = tree_of s !! M ∧ ∀ rel, seen_at G s' rel = seen_at G s rel) ∨
   ∃ n, intact (seen_at G s') (listed n)) ∧
  (∀ q, beside root q → tree_of s' !! q = tree_of s !! q).
Proof using KL ML.
  intros Hfits E. rewrite stage_is in E. unfold abind in E. pose proof (calm_before s) as Hc.
  destruct (before_staging s) as [s1 r1] eqn:Eb. cbn in Hc.
  assert (H1 : ∀ q, safe q → tree_of s1 !! q = tree_of s !! q) by (intros q Hq; eapply spares_run; [by apply spares_before|exact Eb]).
  assert (Hsame : ∀ rel, seen_at G s1 rel = seen_at G s rel) by (intros rel; apply H1; right; left; apply under_app).
  assert (Hm1 : tree_of s1 !! M = tree_of s !! M) by (apply H1; by left).
  assert (Hb1 : ∀ q, beside root q → tree_of s1 !! q = tree_of s !! q) by (intros q Hq; apply H1; by right; right).
  destruct r1 as [expected|err|]; [|injection E as <- <-; split_and!; [done|done|right; left|]; done|done].
  assert (Hex : ∃ n, expected = listed n).
  { unfold before_staging in Eb. do 3 (apply abind_ok in Eb as (? & ? & _ & Eb)). by eapply expected_files_listed. }
  destruct Hex as [n ->]. unfold with_quarantines in E.
  pose proof (stage_locked_stands process_id payload root (tree_of s1) (listed n) Hfits (lives s1) (seen_at G s1) (tree_of s1 !! M)
    (mk_desk s1 []) ltac:(by constructor)) as Ho.
  destruct (stage_locked process_id payload root (listed n) (mk_desk s1 [])) as [d r2]. injection E as <- <-.
  assert (Hd : ∀ q, safe q → Forall (own process_id payload root) (set_aside d) →
    tree_of (discard_all (set_aside d) (store d)).1 !! q = tree_of (store d) !! q).
  { intros q Hq Hown. apply (spares_discard_all (set_aside d) q). intros p Hp.
    apply (own_safe process_id payload root); [|done]. by eapply list.Forall_forall in Hown. }
  assert (Hend : ∀ g v, stands process_id payload root (tree_of s1) (lives s1) g v d →
    let s' := (discard_all (set_aside d) (store d)).1 in
    (∀ rel, seen_at G s' rel = g rel) ∧ tree_of s' !! M = v ∧ ∀ q, beside root q → tree_of s' !! q = tree_of s !! q).
  { intros g v [Ha Hb Hg Hm Hl]. cbn. split_and!.
    - intros rel. rewrite <- Hg. apply Hd; [|done]. right. left. apply under_app.
    - rewrite Hd; [done|by left|done].
    - intros q Hq. rewrite Hd; [|by right; right|done]. rewrite Hb by done. auto. }
  destruct r2 as [staged|err|]; cbn in Ho; [| |done].
  - destruct Ho as (-> & g & v & Hs & Hi & Hr). apply Hend in Hs as (Hg & Hv & Hb).
    assert (Hin : ∃ n, intact (seen_at G (discard_all (set_aside d) (store d)).1) (listed n)).
    { exists n. by eapply intact_ext. }
    split_and!; [done| |by right; right|done]. intros ? [= <-]. split_and!; [done|done|by rewrite Hv].
  - destruct Ho as (g & v & Hs & Hv). apply Hend in Hs as (Hg & Hm & Hb). split_and!; [done|done| |done].
    destruct Hv as [->|[[-> ->]|Hi]].
    + by left.
    + right. left. rewrite Hm. split; [done|]. intros rel. by rewrite Hg.
    + right. right. exists n. by eapply intact_ext.
Qed.

(** C5: For a payload whose ready marker is no longer than the 64 KiB a marker may
    have, where no other process writes into the VM's staging directory and the lock
    is free after finitely many waits: however staging the payload for a VM ends, with
    whatever calls failing and cancelled at whatever moment, if a ready marker is
    there, then the generation it stands for holds the files the payload declares,
    each by its size and its digest, and nothing else; or neither of the two has
    changed.  A staging that succeeds has put both in place, and the marker names this
    payload; nothing beside the VM's staging directory changes; and staging comes to
    an end.  A payload with a longer marker is not covered: its marker is written and
    quarantined without end. *)
Theorem a_marker_stands_for_a_whole_generation s s' r :
  (∀ bytes, marker_bytes (ready_id payload) (generation payload) (ready_manifest_sha256 payload) = Ok bytes →
     zlen bytes <= READY_MARKER_SIZE_LIMIT) →
  stage_payload process_id lock_waits payload root s = (s', r) →
  r ≠ Panic ∧
  (∀ staged, r = Ok staged →
     staged = mk_staged (ready_id payload) (generation payload) G M ∧
     (∃ n, intact (seen_at G s') (listed n)) ∧ says_ready payload (tree_of s' !! M)) ∧
  (tree_of s' !! M = None ∨
   (tree_of s' !! M = tree_of s !! M ∧ ∀ rel, seen_at G s' rel = seen_at G s rel) ∨
   ∃ n, intact (seen_at G s') (listed n)) ∧
  (∀ q, beside root q → tree_of s' !! q = tree_of s !! q).
Proof using KL ML. apply stage_payload_does. Qed.

End staged.

(** ** A generation somebody wrote into *)

Section example.
Import SampleKind.

Definition vm_root : path := [text "vm"; text "gpu-payload"].
Definition staged_path : path := generation_path sample_payload vm_root.
Definition marker_path : path := marker sample_payload vm_root.
Definition ready_document : list Z := default [] (match marker_bytes (text "test") [1] (sha256 document) with Ok b => Some b | _ => None end).
(** The marker stands, and a module was written over; the calls go as [fs] says. *)
Definition written_over (fs : list fate) : Store :=
  mk_store (mk_world (list_to_map
    [ ([], None); ([text "cache"], None); (cached, None); (cached ++ [text "content"], None);
      (cached ++ [text "content"; text "kbuild"], Some kernel);
      (cached ++ [text "sources.json"], Some sources_document); (cached ++ [text "payload.json"], Some document);
      ([text "vm"], None); (vm_root, None); (generations_root vm_root, None); (ready_root vm_root, None);
      (marker_path, Some ready_document); (staged_path, None); (staged_path ++ [text "content"], None);
      (staged_path ++ [text "content"; text "kbuild"], Some (text "rootkit"));
      (staged_path ++ [text "sources.json"], Some sources_document); (staged_path ++ [text "payload.json"], Some document) ])
    ∅ ∅ fs None []) 0%N.
Definition staged_from (fs : list fate) : Store * result PayloadError StagedPayload :=
  stage_payload 7 2 sample_payload vm_root (written_over fs).
(** The [n]-th call fails. *)
Definition failing_at (n : nat) : list fate := repeat Works n ++ [Fails 0 (λ _, true)].

Example staged_anew :
  let '(s, r) := staged_from [] in
  r = Ok (mk_staged (text "test") [1] staged_path marker_path) ∧
  tree_of s !! (staged_path ++ [text "content"; text "kbuild"]) = Some (Some kernel) ∧
  tree_of s !! marker_path = Some (Some ready_document) ∧
  names_in (tree_of s) (ready_root vm_root) = [text "01.json"].
Proof. by vm_compute. Qed.

(** What was written over cannot be moved aside: it stays, and its marker is gone. *)
Example withdrawn_first :
  let '(s, r) := staged_from (failing_at 35) in
  (∃ e, r = Err e) ∧ tree_of s !! marker_path = None ∧
  tree_of s !! (staged_path ++ [text "content"; text "kbuild"]) = Some (Some (text "rootkit")).
Proof. vm_compute. split_and!; [by eexists|done..]. Qed.

Lemma a_marker_stands_for_a_whole_generation_witness :
  let s := written_over (failing_at 35) in
  let '(s', r) := stage_payload 7 2 sample_payload vm_root s in
  r ≠ Panic ∧
  (∀ staged, r = Ok staged →
     staged = mk_staged (ready_id sample_payload) (generation sample_payload) staged_path marker_path ∧
     (∃ n, intact (seen_at staged_path s') (listed sample_payload n)) ∧ says_ready sample_payload (tree_of s' !! marker_path)) ∧
  (tree_of s' !! marker_path = None ∨
   (tree_of s' !! marker_path = tree_of s !! marker_path ∧ ∀ rel, seen_at staged_path s' rel = seen_at staged_path s rel) ∨
   ∃ n, intact (seen_at staged_path s') (listed sample_payload n)) ∧
  (∀ q, beside vm_root q → tree_of s' !! q = tree_of s !! q).
Proof.
  intros s. destruct (stage_payload 7 2 sample_payload vm_root s) as [s' r] eqn:E.
  unfold staged_path, marker_path. apply (a_marker_stands_for_a_whole_generation 7 2 sample_payload vm_root s s' r); [|exact E].
  intros bytes [= <-]. by vm_compute.
Defined.

End example.
