(* ===== verification/PayloadCatalog.v ===== *)
(** * PayloadCatalog: the payloads a release carries

    crates/payload: catalog.rs and release.rs, for any kind of payload, with what
    the two kinds (DisplayPayload.v, GpuPayload.v) do alike: the greatest candidate
    is chosen ([Iterator::max_by]), the sources and licenses of an entry and the
    files of a manifest are checked.

    [TotalPreorder cmp]: a comparison of the kind [Ord::cmp] makes. *)

From stdpp Require Import strings gmap list sets.
From S2P Require Import Prelude Stateful ClipboardPath CoreRequest Layout HostFiles PayloadFiles PayloadKind PayloadPublish PayloadCache.
#[local] Open Scope Z_scope.

(** ** Orders *)

Class TotalPreorder {A} (cmp : A → A → comparison) : Prop := {
  cmp_flip x y : cmp y x = CompOpp (cmp x y);
  cmp_trans x y z : cmp x y ≠ Gt → cmp y z ≠ Gt → cmp x z ≠ Gt;
}.

Section orders.
Context {A : Type}.

(** [Ordering::then] of two comparisons, and a comparison of keys. *)
Definition then_compare (f g : A → A → comparison) (x y : A) : comparison :=
  match f x y with Eq => g x y | c => c end.
Definition compare_on {B} (key : A → B) (cmp : B → B → comparison) (x y : A) : comparison := cmp (key x) (key y).
(** [<[T] as Ord>::cmp]. *)
Fixpoint compare_lists (cmp : A → A → comparison) (xs ys : list A) : comparison :=
  match xs, ys with
  | [], [] => Eq
  | [], _ => Lt
  | _, [] => Gt
  | x :: xs, y :: ys => match cmp x y with Eq => compare_lists cmp xs ys | c => c end
  end.
(** Of equal ones the last. *)
Definition max_by (cmp : A → A → comparison) (l : list A) : option A :=
  match l with
  | [] => None
  | x :: rest => Some (fold_left (λ best y, match cmp best y with Gt => best | _ => y end) rest x)
  end.

Section preorder.
Context (cmp : A → A → comparison) `{!TotalPreorder cmp}.

Lemma cmp_same x : cmp x x = Eq.
Proof. pose proof (cmp_flip (cmp := cmp) x x). by destruct (cmp x x). Qed.
(** What the comparisons of three come to. *)
Lemma cmp_three x y z : (cmp x y = Lt → cmp y z ≠ Gt → cmp x z = Lt) ∧ (cmp x y = Eq → cmp x z = cmp y z).
Proof.
  pose proof (cmp_trans (cmp := cmp) x y z) as H1. pose proof (cmp_trans (cmp := cmp) y x z) as H2.
  pose proof (cmp_trans (cmp := cmp) z x y) as H3. pose proof (cmp_trans (cmp := cmp) z y x) as H4.
  pose proof (cmp_trans (cmp := cmp) y z x) as H5.
  rewrite (cmp_flip (cmp := cmp) x y) in *. rewrite (cmp_flip (cmp := cmp) x z) in *. rewrite (cmp_flip (cmp := cmp) y z) in *.
  destruct (cmp x y), (cmp x z), (cmp y z); cbn in *; intuition congruence.
Qed.
Lemma cmp_lt_trans x y z : cmp x y = Lt → cmp y z ≠ Gt → cmp x z = Lt.
Proof. apply cmp_three. Qed.
Lemma cmp_eq_trans x y z : cmp x y = Eq → cmp x z = cmp y z.
Proof. apply cmp_three. Qed.
End preorder.

#[export] Instance then_preorder (f g : A → A → comparison) :
  TotalPreorder f → TotalPreorder g → TotalPreorder (then_compare f g).
Proof.
  intros Hf Hg. unfold then_compare. constructor.
  - intros x y. rewrite (cmp_flip (cmp := f) x y). destruct (f x y); [apply cmp_flip|done..].
  - intros x y z. destruct (f x y) eqn:Hxy; [|intros _|done].
    + rewrite (cmp_eq_trans f x y z Hxy). destruct (f y z) eqn:Hyz; [|done..]. apply cmp_trans.
    + intros Hyz. rewrite (cmp_lt_trans f x y z Hxy); [done|]. by destruct (f y z).
Qed.
#[export] Instance on_preorder {B} (key : A → B) (cmp : B → B → comparison) :
  TotalPreorder cmp → TotalPreorder (compare_on key cmp).
Proof. intros Hc. constructor; unfold compare_on; intros *; [apply cmp_flip|apply cmp_trans]. Qed.
#[export] Instance lists_preorder (cmp : A → A → comparison) : TotalPreorder cmp → TotalPreorder (compare_lists cmp).
Proof.
  intros Hc. constructor.
  - intros xs. induction xs as [|x xs IH]; intros [|y ys]; cbn; [done..|]. rewrite (cmp_flip (cmp := cmp) x y).
    destruct (cmp x y); [apply IH|done..].
  - intros xs. induction xs as [|x xs IH]; intros [|y ys] [|z zs]; cbn; try done.
    destruct (cmp x y) eqn:Hxy; [|intros _|done].
    + rewrite (cmp_eq_trans cmp x y z Hxy). destruct (cmp y z) eqn:Hyz; [apply IH|done..].
    + intros Hyz. rewrite (cmp_lt_trans cmp x y z Hxy); [done|]. by destruct (cmp y z).
Qed.

Section max_by.
Context (cmp : A → A → comparison) `{!TotalPreorder cmp}.

Lemma fold_max x l :
  let m := fold_left (λ best y, match cmp best y with Gt => best | _ => y end) l x in
  m ∈ x :: l ∧ ∀ y, y ∈ x :: l → cmp y m ≠ Gt.
Proof.
  revert x. induction l as [|y l IH]; intros x; cbn.
  - split; [left|]. intros y ->%list_elem_of_singleton. by rewrite cmp_same.
  - set (b := match cmp x y with Gt => x | _ => y end). destruct (IH b) as [Hin Hmax].
    set (m := fold_left _ l b) in *. clearbody m.
    assert (Hb : b = x ∨ b = y) by (unfold b; destruct (cmp x y); auto).
    split; [rewrite !elem_of_cons in *; destruct Hin as [->|?], Hb as [->| ->]; auto|].
    assert (Hbm : cmp b m ≠ Gt) by (apply Hmax; left).
    assert (Hxb : cmp x b ≠ Gt) by (unfold b; destruct (cmp x y) eqn:E; rewrite ?cmp_same, ?E by done; done).
    assert (Hyb : cmp y b ≠ Gt).
    { unfold b. destruct (cmp x y) eqn:E; rewrite ?cmp_same by done; try done. by rewrite (cmp_flip (cmp := cmp) x y), E. }
    intros z [->|[->|Hz]%elem_of_cons]%elem_of_cons; [by apply (cmp_trans _ b m)|by apply (cmp_trans _ b m)|apply Hmax; by right].
Qed.
Lemma max_by_some l m : max_by cmp l = Some m → m ∈ l ∧ ∀ y, y ∈ l → cmp y m ≠ Gt.
Proof. destruct l as [|x l]; [done|]. intros [= <-]. apply fold_max. Qed.
Lemma max_by_none l : max_by cmp l = None ↔ l = [].
Proof. by destruct l. Qed.

(** Where no two are equal, the order of the list does not matter. *)
Lemma max_by_permutation l l' :
  l ≡ₚ l' → (∀ x y, x ∈ l → y ∈ l → cmp x y = Eq → x = y) → max_by cmp l' = max_by cmp l.
Proof.
  intros Hp Heq. destruct (max_by cmp l) as [m|] eqn:Hm, (max_by cmp l') as [m'|] eqn:Hm'.
  - apply max_by_some in Hm as [Hin Hmax], Hm' as [Hin' Hmax']. f_equal. rewrite <- Hp in Hin'. symmetry. apply Heq; [done..|].
    specialize (Hmax m' Hin'). rewrite Hp in Hin. specialize (Hmax' m Hin). rewrite (cmp_flip (cmp := cmp) m m') in Hmax. by destruct (cmp m m').
  - apply max_by_none in Hm' as ->. by symmetry in Hp; apply Permutation_nil in Hp as ->.
  - apply max_by_none in Hm as ->. by apply Permutation_nil in Hp as ->.
  - done.
Qed.
Lemma filter_permutation (f : A → bool) l l' : l ≡ₚ l' → List.filter f l ≡ₚ List.filter f l'.
Proof.
  induction 1 as [|x l l' _ IH|x y l|l l1 l2 _ IH1 _ IH2]; cbn; [done| | |by etransitivity].
  - destruct (f x); [by constructor|done].
  - destruct (f x), (f y); try done. constructor.
Qed.
(** The last of the greatest. *)
Lemma fold_last x l :
  let m := fold_left (λ best y, match cmp best y with Gt => best | _ => y end) l x in
  ∃ l1 l2, x :: l = l1 ++ m :: l2 ∧ ∀ y, y ∈ l2 → cmp m y = Gt.
Proof.
  revert x. induction l as [|y l IH]; intros x; cbn.
  - exists [], []. split; [done|]. by intros y ?%elem_of_nil.
  - destruct (cmp x y) eqn:E.
    1-2: destruct (IH y) as (l1 & l2 & -> & Hl); by exists (x :: l1), l2.
    destruct (IH x) as (l1 & l2 & Hl & Hmax). set (m := fold_left _ l x) in *. clearbody m. destruct l1 as [|x' l1].
    + injection Hl as Hx ->. exists [], (y :: l2). rewrite Hx at 1. split; [done|].
      intros z [->|Hz]%elem_of_cons; [by rewrite <- Hx|auto].
    + injection Hl as <- ->. exists (x :: y :: l1), l2. auto.
Qed.
Lemma max_by_last l m : max_by cmp l = Some m → ∃ l1 l2, l = l1 ++ m :: l2 ∧ ∀ y, y ∈ l2 → cmp m y = Gt.
Proof. destruct l as [|x l]; [done|]. intros [= <-]. apply fold_last. Qed.
End max_by.

End orders.

#[export] Instance Z_preorder : TotalPreorder Z.compare.
Proof. constructor; [intros; apply Z.compare_antisym|intros x y z; rewrite !Z.compare_ngt_iff; lia]. Qed.
Definition compare_bool (a b : bool) : comparison := match a, b with false, true => Lt | true, false => Gt | _, _ => Eq end.
#[export] Instance bool_preorder : TotalPreorder compare_bool.
Proof. constructor; [by intros [] []|by intros [] [] []]. Qed.

(** [str::cmp]: by bytes. *)
Definition compare_str : str → str → comparison := compare_lists Z.compare.
#[export] Instance str_preorder : TotalPreorder compare_str.
Proof. apply lists_preorder, Z_preorder. Qed.
Lemma compare_str_eq a b : compare_str a b = Eq ↔ a = b.
Proof.
  split; [|intros ->; apply (cmp_same compare_str)]. unfold compare_str. revert b. induction a as [|x a IH]; intros [|y b]; cbn; try done.
  destruct (x ?= y) eqn:E; [|done..]. apply Z.compare_eq in E as ->. intros Hab. f_equal. auto.
Qed.

(** ** What both kinds check *)

Record Source : Type := mk_source { url : str; commit : str; version_text : str }.
Record License : Type := mk_license { spdx : str; license_path : str }.

Definition source_row (s : Source) : str * str * str := (url s, commit s, version_text s).
Definition is_empty (s : str) : bool := match s with [] => true | _ => false end.
Definition is_ascii_hexdigit (c : Z) : bool :=
  is_ascii_digit c || (97 <=? c) && (c <=? 102) || (65 <=? c) && (c <=? 70).
Definition eq_ignore_ascii_case (a b : str) : bool := str_eqb (map to_ascii_lowercase a) (map to_ascii_lowercase b).
Definition ends_with_text (s suffix : str) : bool := str_eqb (drop (length s - length suffix) s) suffix.
Definition starts_with_text (s prefix : str) : bool := str_eqb (take (length prefix) s) prefix.

Definition sources_lacking (sources : list Source) : bool :=
  match sources with [] => true | _ => false end
  || existsb (λ s, is_empty (url s) || is_empty (version_text s) || negb (zlen (commit s) =? 40)
                   || negb (forallb is_ascii_hexdigit (commit s))) sources.
Definition licenses_lacking (licenses : list License) : bool :=
  match licenses with [] => true | _ => false end
  || existsb (λ l, is_empty (spdx l) || is_empty (license_path l)) licenses.

(** The loop over the files of a manifest: [paths] are those seen, [last] the last. *)
Fixpoint check_files (files : list PreparedFile) (paths : list str) (last : str) : result PayloadError (list str) :=
  match files with
  | [] => Ok paths
  | f :: files =>
      let? _ := validate_path (prepared_path f) in
      if (prepared_size f =? 0) || bool_decide (prepared_path f ∈ paths)
         || negb (is_empty last) && match compare_str last (prepared_path f) with Lt => false | _ => true end
      then Err (InvalidManifest (prepared_path f))
      else check_files files (prepared_path f :: paths) (prepared_path f)
  end.
(** The licenses of the entry are among the files. *)
Fixpoint check_licenses (licenses : list License) (paths : list str) : result PayloadError unit :=
  match licenses with
  | [] => Ok tt
  | l :: licenses =>
      if bool_decide (license_path l ∈ paths) then check_licenses licenses paths else Err (InvalidManifest (license_path l))
  end.

Lemma check_files_proper files paths last found :
  check_files files paths last = Ok found → NoDup paths →
  Forall (λ f, validate_path (prepared_path f) = Ok tt) files ∧
  NoDup found ∧ found = rev (map prepared_path files) ++ paths.
Proof.
  revert paths last. induction files as [|f files IH]; intros paths last; cbn; [intros [= <-] Hn; by split_and!|].
  destruct (validate_path (prepared_path f)) as [[]|e|] eqn:Hv; [|done..]. cbn.
  destruct (prepared_size f =? 0); [done|]. case_bool_decide as Hin; [done|]. destruct (_ && _) in |- *; [done|]. cbn.
  intros H Hn. apply IH in H as (Hf & Hnd & ->); [|by constructor]. split_and!; [by constructor|done|].
  by rewrite <- app_assoc.
Qed.
Lemma validate_path_ends p : validate_path p ≠ Panic.
Proof. unfold validate_path. by destruct (_ || str_eqb p _). Qed.
Lemma check_files_ends files paths last : check_files files paths last ≠ Panic.
Proof.
  revert paths last. induction files as [|f files IH]; intros paths last; cbn; [done|].
  pose proof (validate_path_ends (prepared_path f)) as Hv.
  destruct (validate_path _); [|done..]. cbn. case_match; [done|apply IH].
Qed.
Lemma check_licenses_ends licenses paths : check_licenses licenses paths ≠ Panic.
Proof. induction licenses as [|l ls IH]; cbn; [done|]. by case_bool_decide. Qed.
(** What passes is what the store relies on. *)
Lemma checked_is_proper files paths :
  check_files files [] [] = Ok paths → text "sources.json" ∈ paths → Forall (λ f, 0 <= prepared_size f) files → proper_files files.
Proof.
  intros Hc Hs Hz. apply check_files_proper in Hc as (Hf & Hn & ->); [|constructor]. rewrite app_nil_r in *.
  split_and!; [done| | |done].
  - apply NoDup_ListNoDup, List.NoDup_rev, NoDup_ListNoDup in Hn. by rewrite rev_involutive in Hn.
  - apply list_elem_of_In, in_rev. by apply list_elem_of_In.
Qed.

(** A [ReadyMarker] and back, as serde has it. *)
Class MarkerDocuments := {
  write_marker_document : str → Sha256Digest → Sha256Digest → result PayloadError (list Z);
  read_marker_document : list Z → option (Z * str * Sha256Digest * Sha256Digest);
}.
Class MarkerDocumentLaws (D : MarkerDocuments) : Prop := {
  write_marker_ends id g m : write_marker_document id g m ≠ Panic;
  marker_document_comes_back id g m bytes :
    write_marker_document id g m = Ok bytes → read_marker_document (bytes ++ [10]) = Some (1, id, g, m);
}.

Module SampleMarkers.
Import SampleKind.

(** A marker as its lengths and its fields. *)
#[export] Instance sample_markers : MarkerDocuments := {|
  write_marker_document id g m := marker_json (PayloadEntry := sample_kind) id g m;
  read_marker_document := marker_of_json (PayloadEntry := sample_kind);
|}.
#[export] Instance sample_markers_laws : MarkerDocumentLaws sample_markers.
Proof. constructor; [done|]. intros *. apply sample_marker_laws. Qed.
End SampleMarkers.

(** ** A release *)

(** [Path::extension] of a file name. *)
Definition extension (name : str) : option str :=
  match before_last dot name with Some [] | None => None | Some stem => Some (drop (S (length stem)) name) end.
Definition JSON : str := text "json".

Definition payload_directory (directory : path) (subdirectory : str) : path := directory ++ [subdirectory].
Definition archive_path (directory : path) (subdirectory id : str) : path :=
  payload_directory directory subdirectory ++ [id ++ text ".zip"].
Definition entry_path (directory : path) (subdirectory id : str) : path :=
  payload_directory directory subdirectory ++ [id ++ text ".json"].

Section release.
Context `{K : PayloadEntry}.

(** An item the listing fails at is passed over. *)
Fixpoint read_items (directory : path) (subdirectory : str) (names : list str) : pact (list Entry) :=
  match names with
  | [] => good []
  | name :: names =>
      let^ item := fate_of in
      match item with
      | Fails _ _ => read_items directory subdirectory names
      | Works =>
          if bool_decide (extension name = Some JSON) then
            let^ bytes := read_all "read payload entry" (payload_directory directory subdirectory ++ [name]) in
            let^ entry := pure_of (from_json bytes) in
            if negb (str_eqb (file_stem name) (payload_id entry)) then bad InvalidCatalog
            else
              let^ archive := gets (λ s, tree_of s !! archive_path directory subdirectory (payload_id entry)) in
              match archive with
              | Some (Some _) =>
                  let^ rest := read_items directory subdirectory names in
                  good (entry :: rest)
              | _ => bad InvalidCatalog
              end
          else read_items directory subdirectory names
      end
  end.
Definition read_release_directory (directory : path) (subdirectory : str) : pact (list Entry) :=
  let^ listing := try_it (read_dir "read payloads" (payload_directory directory subdirectory)) in
  match listing with
  | Ok names => read_items directory subdirectory names
  | Err _ => good []
  | Panic => pure_of Panic
  end.

(** An entry with its archive beside it, both named for it. *)
Definition carried (fs : gmap path node) (directory : path) (subdirectory : str) (e : Entry) : Prop :=
  (∃ c, fs !! entry_path directory subdirectory (payload_id e) = Some (Some c) ∧ from_json c = Ok e) ∧
  ∃ c, fs !! archive_path directory subdirectory (payload_id e) = Some (Some c).

Lemma before_last_split sep s stem : before_last sep s = Some stem → s = stem ++ sep :: drop (S (length stem)) s.
Proof.
  revert stem. induction s as [|c s IH]; intros stem; cbn; [done|]. destruct (before_last sep s) as [b|].
  - intros [= <-]. cbn. f_equal. by apply IH.
  - destruct (Z.eqb_spec c sep) as [->|]; [|done]. by intros [= <-].
Qed.
Lemma named_json name stem : extension name = Some JSON → file_stem name = stem → name = stem ++ text ".json".
Proof.
  unfold extension, file_stem. destruct (before_last dot name) as [[|c b]|] eqn:E; [done| |done].
  intros [= Hj] <-. apply before_last_split in E. rewrite E at 1. cbn in Hj. cbn. rewrite Hj. done.
Qed.

Lemma reads_items directory subdirectory names : reads (read_items directory subdirectory names).
Proof.
  induction names as [|name names IH]; cbn [read_items]; [done|]. apply reads_bind; [apply reads_fate|intros []; [|done]].
  case_bool_decide; [|done]. apply reads_bind; [apply reads_all|intros bytes]. apply reads_bind; [done|intros e].
  destruct (negb _); [done|]. apply reads_bind; [done|intros [[]|]]; [|done..]. apply reads_bind; [done|by intros ? ?].
Qed.
Lemma reads_release directory subdirectory : reads (read_release_directory directory subdirectory).
Proof.
  unfold read_release_directory. apply reads_bind; [apply reads_try, reads_dir|intros []]; [apply reads_items|done..].
Qed.
Lemma calm_release {KL : PayloadEntryLaws K} directory subdirectory : calm (read_release_directory directory subdirectory).
Proof.
  unfold read_release_directory. intros s. unfold abind at 1. destruct (try_it _ s) as [s1 o] eqn:E.
  destruct (try_ends _ _ _ _ (calm_read_dir _ _) E) as [r ->]. apply try_it_ok in E as [_ Hr]. destruct r as [names|e|]; [|done..].
  clear Hr. revert s1. change (calm (read_items directory subdirectory names)).
  induction names as [|name names IH]; cbn [read_items]; [apply calm_good|]. apply calm_then; [apply calm_fate|intros []; [|done]].
  case_bool_decide; [|done]. apply calm_then; [apply calm_read_all|intros bytes].
  apply calm_then; [intros ?; apply from_json_ends|intros e]. destruct (negb _); [apply calm_bad|].
  apply calm_then; [apply calm_gets|intros [[]|]]; [|apply calm_bad..]. apply calm_then; [done|intros rest; apply calm_good].
Qed.

Lemma read_items_ok directory subdirectory names s s' es :
  read_items directory subdirectory names s = (s', Ok es) →
  Forall (carried (tree_of s) directory subdirectory) es ∧
  map (λ e, payload_id e ++ text ".json") es `sublist_of` names.
Proof.
  revert s s' es. induction names as [|name names IH]; intros s s' es; cbn [read_items].
  { intros [= <- <-]. split; constructor. }
  intros E. apply abind_ok in E as (s1 & f & Hf & E). apply (reads_run _ _ _ _ reads_fate) in Hf as H1. rewrite <- H1. clear H1 Hf.
  assert (Hskip : read_items directory subdirectory names s1 = (s', Ok es) →
    Forall (carried (tree_of s1) directory subdirectory) es ∧ map (λ e, payload_id e ++ text ".json") es `sublist_of` name :: names).
  { intros Hn. apply IH in Hn as [? ?]. split; [done|by apply sublist_cons]. }
  destruct f; [|auto]. case_bool_decide as Hjson; [|auto]. clear Hskip.
  apply abind_ok in E as (s2 & c & Hc & E). pose proof (reads_run _ _ _ _ (reads_all _ _) Hc) as H2. apply read_all_ok in Hc.
  apply abind_ok in E as (s3 & e & He & E). injection He as <- He.
  destruct (str_eqb (file_stem name) (payload_id e)) eqn:Hs; [|done]. apply str_eqb_spec in Hs. cbn in E.
  pose proof (named_json _ _ Hjson Hs) as ->.
  unfold abind at 1, gets in E. destruct (tree_of s2 !! archive_path _ _ _) as [[a|]|] eqn:Ha in E; [|done..].
  apply abind_ok in E as (s4 & rest & Hrest & E). injection E as _ <-. apply IH in Hrest as [Hall Hsub]. rewrite H2 in Hall, Ha.
  split; [constructor; [|done]|by apply sublist_skip]. split; [by exists c|by exists a].
Qed.
(** The entries of a release are carried by it, and no two have one ID. *)
Lemma read_release_ok directory subdirectory s s' es :
  read_release_directory directory subdirectory s = (s', Ok es) →
  Forall (carried (tree_of s) directory subdirectory) es ∧ NoDup (map payload_id es).
Proof.
  unfold read_release_directory. intros E. apply abind_ok in E as (s1 & r & Hr & E). apply try_it_ok in Hr as [Hr _].
  pose proof (reads_run _ _ _ _ (reads_dir _ _) Hr) as H1.
  destruct r as [names|e|]; [|injection E as _ <-; split; constructor|done].
  apply read_dir_ok in Hr as (_ & _ & ->). apply read_items_ok in E as [Hall Hsub]. rewrite H1 in Hall. split; [done|].
  pose proof (names_in_NoDup (tree_of s) (payload_directory directory subdirectory)) as Hn.
  eapply sublist_NoDup in Hn; [|exact Hsub].
  rewrite <- (map_map payload_id (λ i, i ++ text ".json")) in Hn. by eapply NoDup_fmap_1 in Hn.
Qed.
End release.
