(* ===== verification/DisplayPayload.v ===== *)
(** * DisplayPayload: the display payload a guest gets

    crates/display-payload: version.rs, protocol.rs, catalog.rs and manifest.rs,
    the kind of payload they make ([display_kind]); and display_staging.rs of
    crates/platform, which takes one from the release to the directory a VM
    exports.  What serde makes of a document is a class, [DisplayDocuments]. *)

From stdpp Require Import strings pretty gmap list sets.
From S2P Require Import Handshake.
From S2P Require Import Prelude Stateful ClipboardPath CoreRequest Layout HostFiles PayloadFiles PayloadKind PayloadPublish PayloadArchive PayloadCache PayloadCatalog PayloadStaging.
#[local] Open Scope Z_scope.

(** ** Versions *)

Record PayloadVersion : Type := mk_payload_version { v_major : Z; v_minor : Z; v_patch : Z }.
#[export] Instance payload_version_eq_dec : EqDecision PayloadVersion.
Proof. solve_decision. Defined.

(** [str::parse::<u32>] of a part that is digits and nothing else. *)
Definition decimal_value (part : str) : Z := fold_left (λ n c, 10 * n + (c - 48)) part 0.
Definition number (part : str) : result PayloadError Z :=
  if is_empty part || negb (forallb is_ascii_digit part) || (U32_MAX <? decimal_value part)
  then Err InvalidCatalog else Ok (decimal_value part).
Definition from_str (value : str) : result PayloadError PayloadVersion :=
  match split dot value with
  | a :: b :: c :: rest =>
      let? major := number a in
      let? minor := number b in
      let? patch := number c in
      match rest with [] => Ok (mk_payload_version major minor patch) | _ => Err InvalidCatalog end
  | _ => Err InvalidCatalog
  end.
Definition show_version (v : PayloadVersion) : str :=
  shown (Z.to_N (v_major v)) ++ text "." ++ shown (Z.to_N (v_minor v)) ++ text "." ++ shown (Z.to_N (v_patch v)).
(** [derive(PartialOrd)]: field after field. *)
Definition compare_version : PayloadVersion → PayloadVersion → comparison :=
  then_compare (compare_on v_major Z.compare)
    (then_compare (compare_on v_minor Z.compare) (compare_on v_patch Z.compare)).

Record ProtocolRange : Type := mk_range { range_major : Z; min_minor : Z; max_minor : Z }.
Definition covers (r : ProtocolRange) (major minor : Z) : bool :=
  (range_major r =? major) && (min_minor r <=? minor) && (minor <=? max_minor r).
Definition range_is_valid (r : ProtocolRange) : bool := min_minor r <=? max_minor r.

(** ** Entries *)

Record DisplayTarget : Type := mk_target {
  distribution : str; target_release : str; architecture : str; payload_abi : Z }.
#[export] Instance display_target_eq_dec : EqDecision DisplayTarget.
Proof. solve_decision. Defined.
Record GuestSelector : Type := mk_guest { guest_distribution : str; guest_release : str; guest_architecture : str }.

Definition serves (t : DisplayTarget) (guest : GuestSelector) : bool :=
  eq_ignore_ascii_case (architecture t) (guest_architecture guest).
Definition was_built_for (t : DisplayTarget) (guest : GuestSelector) : bool :=
  serves t guest && eq_ignore_ascii_case (distribution t) (guest_distribution guest)
  && str_eqb (target_release t) (guest_release guest).

(** [DisplayCatalogEntryDocument], its version still the text it is written as. *)
Record EntryDocument : Type := mk_entry_document {
  doc_schema_version : Z; doc_payload_id : str; doc_version : str; doc_target : DisplayTarget; doc_proven_on : str;
  doc_protocol : ProtocolRange; doc_archive_sha256 : Sha256Digest; doc_payload_manifest_sha256 : Sha256Digest;
  doc_expanded_size_limit : Z; doc_file_count_limit : Z; doc_sources : list Source; doc_licenses : list License }.
Record DisplayCatalogEntry : Type := mk_display_entry {
  entry_id : str; entry_version : PayloadVersion; entry_target : DisplayTarget; proven_on : str;
  entry_protocol : ProtocolRange; entry_archive_sha256 : Sha256Digest; entry_manifest_sha256 : Sha256Digest;
  entry_expanded_size_limit : Z; entry_file_count_limit : Z; entry_sources : list Source; entry_licenses : list License }.
Record ManifestDocument : Type := mk_manifest_document {
  md_schema_version : Z; md_payload_id : str; md_version : str; md_target : DisplayTarget; md_files : list PreparedFile }.
Record DisplayManifest : Type := mk_display_manifest { manifest_version : PayloadVersion; display_files : list PreparedFile }.
(** [DisplaySourcesDocument]: each row an url, a commit and a version. *)
Record SourcesDocument : Type := mk_sources_document { sd_schema_version : Z; sd_sources : list Source }.

Class DisplayDocuments := {
  entry_document_of : list Z → option EntryDocument;
  manifest_document_of : list Z → option ManifestDocument;
  sources_document_of : list Z → option SourcesDocument;
  write_provenance : DisplayCatalogEntry → SourcesDocument → result PayloadError (list Z);
}.
(** A [u64] is not negative, and writing ends. *)
Class DisplayDocumentLaws (D : DisplayDocuments) : Prop := {
  sizes_are_unsigned bytes m : manifest_document_of bytes = Some m → Forall (λ f, 0 <= prepared_size f) (md_files m);
  write_provenance_ends e s : write_provenance e s ≠ Panic;
}.

Definition ENTRY_SCHEMA_VERSION : Z := 1.
Definition PAYLOAD_ABI_VERSION : Z := 1.
Definition LOCAL_ARCHIVE_DIRECTORY : str := text "display-payload".
Definition MODULE_DIRECTORY : str := text "content/drm/".

Definition validate (e : DisplayCatalogEntry) : result PayloadError unit :=
  let t := entry_target e in
  if is_empty (entry_id e) || is_empty (distribution t) || is_empty (target_release t) || is_empty (architecture t)
     || negb (payload_abi t =? PAYLOAD_ABI_VERSION) || is_empty (proven_on e)
     || (entry_expanded_size_limit e =? 0) || (entry_file_count_limit e =? 0)
  then Err InvalidCatalog
  else if negb (range_is_valid (entry_protocol e)) then Err InvalidCatalog
  else if negb (ends_with_text (entry_id e) (text "-" ++ show_version (entry_version e))) then Err InvalidCatalog
  else if sources_lacking (entry_sources e) then Err InvalidCatalog
  else if licenses_lacking (entry_licenses e) then Err InvalidCatalog
  else Ok tt.

Definition entry_from_document (d : EntryDocument) (version : PayloadVersion) : DisplayCatalogEntry :=
  mk_display_entry (doc_payload_id d) version (doc_target d) (doc_proven_on d) (doc_protocol d) (doc_archive_sha256 d)
    (doc_payload_manifest_sha256 d) (doc_expanded_size_limit d) (doc_file_count_limit d) (doc_sources d) (doc_licenses d).

Section display.
Context `{D : DisplayDocuments}.

(** A version that does not parse is a document that does not. *)
Definition display_from_json (bytes : list Z) : result PayloadError DisplayCatalogEntry :=
  let? document := ok_or (entry_document_of bytes) InvalidCatalog in
  let? version := from_str (doc_version document) in
  if negb (doc_schema_version document =? ENTRY_SCHEMA_VERSION) then Err InvalidCatalog
  else
    let entry := entry_from_document document version in
    let? _ := validate entry in
    Ok entry.

Definition display_parse_manifest (bytes : list Z) (e : DisplayCatalogEntry) : result PayloadError DisplayManifest :=
  let? value := ok_or (manifest_document_of bytes) (InvalidManifest []) in
  let? version := map_err (λ _, InvalidManifest []) (from_str (md_version value)) in
  if negb (md_schema_version value =? 1) || negb (str_eqb (md_payload_id value) (entry_id e))
     || negb (bool_decide (version = entry_version e)) || negb (bool_decide (md_target value = entry_target e))
  then Err (InvalidManifest [])
  else
    let? paths := check_files (md_files value) [] [] in
    if negb (bool_decide (text "sources.json" ∈ paths)) then Err (InvalidManifest (text "sources.json"))
    else
      let? _ := check_licenses (entry_licenses e) paths in
      if negb (existsb (λ p, starts_with_text p MODULE_DIRECTORY) paths) then Err (InvalidManifest MODULE_DIRECTORY)
      else Ok (mk_display_manifest version (md_files value)).

Definition display_parse_sources (bytes : list Z) (e : DisplayCatalogEntry) : result PayloadError SourcesDocument :=
  let? document := ok_or (sources_document_of bytes) (InvalidManifest []) in
  if negb (sd_schema_version document =? 1) then Err (InvalidManifest [])
  else if negb (bool_decide (map source_row (entry_sources e) = map source_row (sd_sources document)))
  then Err (InvalidManifest [])
  else Ok document.
End display.

(** ** Which of several a guest gets *)

(** [ids] and [versions] are the two sets. *)
Fixpoint check_entries (entries : list DisplayCatalogEntry) (ids : list str) (versions : list (DisplayTarget * PayloadVersion))
    : result PayloadError unit :=
  match entries with
  | [] => Ok tt
  | e :: entries =>
      if bool_decide (entry_id e ∈ ids) || bool_decide ((entry_target e, entry_version e) ∈ versions)
      then Err InvalidCatalog
      else check_entries entries (entry_id e :: ids) ((entry_target e, entry_version e) :: versions)
  end.
(** [DisplayPayloadCatalog] is the list of its entries. *)
Definition from_entries (entries : list DisplayCatalogEntry) : result PayloadError (list DisplayCatalogEntry) :=
  let? _ := check_entries entries [] [] in Ok entries.

Definition rank (guest : GuestSelector) : DisplayCatalogEntry → DisplayCatalogEntry → comparison :=
  then_compare (compare_on (λ e, was_built_for (entry_target e) guest) compare_bool)
    (then_compare (compare_on entry_version compare_version) (compare_on entry_id compare_str)).
Definition applies (guest : GuestSelector) (major minor : Z) (e : DisplayCatalogEntry) : bool :=
  serves (entry_target e) guest && covers (entry_protocol e) major minor.
Definition select_for_guest (catalog : list DisplayCatalogEntry) (guest : GuestSelector) (major minor : Z)
    : result PayloadError DisplayCatalogEntry :=
  ok_or (max_by (rank guest) (List.filter (applies guest major minor) catalog))
    (NoPayloadForGuest (guest_distribution guest) (guest_release guest) (guest_architecture guest)).

#[export] Instance compare_version_preorder : TotalPreorder compare_version.
Proof. unfold compare_version. apply _. Qed.
#[export] Instance rank_preorder guest : TotalPreorder (rank guest).
Proof. unfold rank. apply _. Qed.

Definition apart_from {A} (xs seen : list A) : Prop := NoDup xs ∧ ∀ x, x ∈ xs → (x ∉ seen).
Definition versions_of (es : list DisplayCatalogEntry) : list (DisplayTarget * PayloadVersion) :=
  map (λ e, (entry_target e, entry_version e)) es.

Lemma apart_from_cons {A} (x : A) xs seen :
  apart_from (x :: xs) seen ↔ (x ∉ seen) ∧ apart_from xs (x :: seen).
Proof. unfold apart_from. rewrite list.NoDup_cons. setoid_rewrite elem_of_cons. naive_solver. Qed.
Lemma check_entries_ok es ids versions :
  check_entries es ids versions = Ok tt ↔ apart_from (map entry_id es) ids ∧ apart_from (versions_of es) versions.
Proof.
  unfold versions_of. revert ids versions. induction es as [|e es IH]; intros ids versions; cbn [check_entries map].
  - split; [|done]. intros _. split; (split; [constructor|by intros ? ?%elem_of_nil]).
  - rewrite !apart_from_cons. repeat case_bool_decide; cbn; [split; [done|tauto]..|]. rewrite IH. tauto.
Qed.
Lemma from_entries_ok es catalog :
  from_entries es = Ok catalog ↔ catalog = es ∧ NoDup (map entry_id es) ∧ NoDup (versions_of es).
Proof.
  unfold from_entries. pose proof (check_entries_ok es [] []) as Hc.
  assert (Hn : ∀ A (xs : list A), apart_from xs [] ↔ NoDup xs).
  { intros A xs. unfold apart_from. split; [by intros [? _]|]. intros ?. split; [done|]. by intros x _ ?%elem_of_nil. }
  rewrite !Hn in Hc. destruct (check_entries es [] []) as [[]|e|]; cbn.
  - split; [intros [= <-]|intros [-> _]]; tauto.
  - split; [done|]. intros (_ & ? & ?). by destruct Hc as [_ Hc]; discriminate Hc.
  - split; [done|]. intros (_ & ? & ?). by destruct Hc as [_ Hc]; discriminate Hc.
Qed.

Lemma same_rank_same_id guest a b : rank guest a b = Eq → entry_id a = entry_id b.
Proof.
  unfold rank, then_compare, compare_on. destruct (compare_bool _ _); [|done..].
  destruct (compare_version _ _); [|done..]. apply compare_str_eq.
Qed.
Lemma unique_ids es a b :
  NoDup (map entry_id es) → a ∈ es → b ∈ es → entry_id a = entry_id b → a = b.
Proof.
  induction es as [|e es IH]; [by intros _ ?%elem_of_nil|]. cbn. intros [He Hn]%list.NoDup_cons.
  intros [->|Ha]%elem_of_cons [->|Hb]%elem_of_cons Heq; [done|..|auto];
    exfalso; apply He; [rewrite Heq|rewrite <- Heq]; by apply list_elem_of_fmap_2.
Qed.

Definition older (a b : PayloadVersion) : Prop :=
  v_major a < v_major b ∨
  v_major a = v_major b ∧ (v_minor a < v_minor b ∨ v_minor a = v_minor b ∧ v_patch a < v_patch b).
(** Why [a] is not offered where [b] is. *)
Definition behind (guest : GuestSelector) (a b : DisplayCatalogEntry) : Prop :=
  let for_guest e := was_built_for (entry_target e) guest in
  (for_guest a = false ∧ for_guest b = true) ∨
  (for_guest a = for_guest b ∧ (older (entry_version a) (entry_version b) ∨ entry_version a = entry_version b)).

Lemma compare_version_spec a b :
  match compare_version a b with Lt => older a b | Eq => a = b | Gt => older b a end.
Proof.
  destruct a as [a1 a2 a3], b as [b1 b2 b3]. unfold compare_version, then_compare, compare_on, older. cbn.
  destruct (Z.compare_spec a1 b1), (Z.compare_spec a2 b2), (Z.compare_spec a3 b3); subst; auto 6; lia || (right; split; [done|right; split; done || lia]).
Qed.
Lemma rank_behind guest a b : rank guest a b = Lt → behind guest a b.
Proof.
  unfold rank, then_compare, compare_on, behind. pose proof (compare_version_spec (entry_version a) (entry_version b)) as Hv.
  destruct (was_built_for _ _), (was_built_for _ _); cbn; try done; [|auto|]; intros H; right; (split; [done|]);
    destruct (compare_version _ _); auto; done.
Qed.

(** C9: From what a release carries a guest gets, of the entries its architecture
    and the protocol allow, the greatest: one built for it before any other, then
    the newest version.  It is the only greatest one, so the order in which a
    directory is listed does not matter, and there is none to be had only where
    none applies. *)
Theorem the_listing_does_not_choose es catalog guest major minor :
  from_entries es = Ok catalog →
  (∀ es', es ≡ₚ es' → ∃ catalog', from_entries es' = Ok catalog' ∧
     select_for_guest catalog' guest major minor = select_for_guest catalog guest major minor) ∧
  match select_for_guest catalog guest major minor with
  | Ok e => e ∈ es ∧ applies guest major minor e = true ∧
      ∀ e', e' ∈ es → applies guest major minor e' = true → e' = e ∨ behind guest e' e
  | Err refusal =>
      refusal = NoPayloadForGuest (guest_distribution guest) (guest_release guest) (guest_architecture guest) ∧
      ∀ e, e ∈ es → applies guest major minor e = false
  | Panic => False
  end.
Proof.
  intros Hes. apply from_entries_ok in Hes as (-> & Hids & Hversions).
  set (candidates := λ es, List.filter (applies guest major minor) es).
  assert (Hin : ∀ l e, e ∈ candidates l ↔ e ∈ l ∧ applies guest major minor e = true).
  { intros l e. unfold candidates. rewrite !list_elem_of_In. apply filter_In. }
  assert (Hsame : ∀ a b, a ∈ candidates es → b ∈ candidates es → rank guest a b = Eq → a = b).
  { intros a b [Ha _]%Hin [Hb _]%Hin Hr. apply (unique_ids es); [done..|by apply (same_rank_same_id guest)]. }
  split.
  - intros es' Hp. exists es'. split.
    + apply from_entries_ok. unfold versions_of in *. split_and!; [done|..].
      * by rewrite <- (Permutation_map entry_id Hp).
      * by rewrite <- (Permutation_map (λ e, (entry_target e, entry_version e)) Hp).
    + unfold select_for_guest. f_equal. apply max_by_permutation; [apply _| |done].
      by apply filter_permutation.
  - unfold select_for_guest. fold (candidates es). destruct (max_by (rank guest) (candidates es)) as [e|] eqn:Hm; cbn.
    + apply max_by_some in Hm as [He Hmax]; [|apply _]. pose proof He as He'. apply Hin in He' as [? ?]. split_and!; [done..|].
      intros e' He1 Ha1. assert (Hc : e' ∈ candidates es) by (by apply Hin). specialize (Hmax e' Hc).
      destruct (rank guest e' e) eqn:Hr; [left; by apply Hsame|right; by apply rank_behind|done].
    + apply max_by_none in Hm. split; [done|]. intros e He. apply not_true_iff_false. intros Ha.
      assert (Hc : e ∈ candidates es) by (by apply Hin). rewrite Hm in Hc. by apply elem_of_nil in Hc.
Qed.

(** ** The kind of payload this makes *)

Section kind.
Context `{DM : MarkerDocuments} `{D : DisplayDocuments}.

#[export] Instance display_kind : PayloadEntry := {|
  Entry := DisplayCatalogEntry; Manifest := DisplayManifest; Sources := SourcesDocument;
  NAMESPACE := LOCAL_ARCHIVE_DIRECTORY;
  payload_id := entry_id; archive_sha256 := entry_archive_sha256; payload_manifest_sha256 := entry_manifest_sha256;
  expanded_size_limit := entry_expanded_size_limit; file_count_limit := entry_file_count_limit;
  from_json := display_from_json;
  parse_manifest e bytes := display_parse_manifest bytes e;
  parse_sources e bytes := display_parse_sources bytes e;
  manifest_files := display_files;
  validate_prepared_files _ _ := Ok tt;
  provenance_json := write_provenance;
  marker_json := write_marker_document; marker_of_json := read_marker_document;
|}.

Lemma number_ends part : number part ≠ Panic.
Proof. unfold number. by destruct (_ || (U32_MAX <? _)). Qed.
Lemma from_str_ends value : from_str value ≠ Panic.
Proof.
  unfold from_str. destruct (split dot value) as [|a [|b [|c rest]]]; try done.
  pose proof (number_ends a). destruct (number a); [|done..]. cbn.
  pose proof (number_ends b). destruct (number b); [|done..]. cbn.
  pose proof (number_ends c). destruct (number c); [|done..]. by destruct rest.
Qed.
Lemma validate_ends e : validate e ≠ Panic.
Proof. unfold validate. by repeat case_match. Qed.
Lemma display_from_json_ends bytes : display_from_json bytes ≠ Panic.
Proof.
  unfold display_from_json. destruct (entry_document_of bytes) as [d|]; [|done]. cbn.
  pose proof (from_str_ends (doc_version d)). destruct (from_str _) as [v|e|]; [|done..]. cbn.
  destruct (negb _); [done|]. pose proof (validate_ends (entry_from_document d v)). by destruct (validate _).
Qed.
Lemma parse_manifest_inv bytes e m :
  display_parse_manifest bytes e = Ok m →
  ∃ value paths, manifest_document_of bytes = Some value ∧ display_files m = md_files value ∧
    check_files (md_files value) [] [] = Ok paths ∧ text "sources.json" ∈ paths ∧
    manifest_version m = entry_version e ∧ md_target value = entry_target e ∧ md_payload_id value = entry_id e ∧
    Forall (λ l, license_path l ∈ paths) (entry_licenses e) ∧
    existsb (λ p, starts_with_text p MODULE_DIRECTORY) paths = true.
Proof.
  unfold display_parse_manifest. destruct (manifest_document_of bytes) as [value|] eqn:Hd; [|done]. cbn.
  destruct (from_str (md_version value)) as [v| |] eqn:Hv; [|done..]. cbn.
  destruct (negb (md_schema_version value =? 1)); [done|]. destruct (str_eqb _ _) eqn:Hid; [|done]. apply str_eqb_spec in Hid.
  case_bool_decide as Hver; [|done]. case_bool_decide as Ht; [|done]. cbn.
  destruct (check_files _ _ _) as [paths|err|] eqn:Hc; [|done..]. cbn. case_bool_decide as Hs; [|done]. cbn.
  destruct (check_licenses _ _) as [[]|err|] eqn:Hl; [|done..]. cbn. destruct (existsb _ paths) eqn:Hm; [|done]. intros [= <-].
  exists value, paths. split_and!; try done. clear -Hl. induction (entry_licenses e) as [|l ls IH]; [constructor|].
  cbn in Hl. case_bool_decide; [|done]. constructor; auto.
Qed.

#[export] Instance display_kind_laws : DisplayDocumentLaws D → MarkerDocumentLaws DM → PayloadEntryLaws display_kind.
Proof.
  intros HD HM. constructor.
  - intros e bytes m Hm. apply parse_manifest_inv in Hm as (value & paths & Hd & Hf & Hc & Hs & _). cbn in *. rewrite Hf.
    eapply checked_is_proper; [done..|by eapply sizes_are_unsigned].
  - apply display_from_json_ends.
  - intros e bytes. cbn. unfold display_parse_manifest. destruct (manifest_document_of bytes) as [value|]; [|done]. cbn.
    pose proof (from_str_ends (md_version value)). destruct (from_str _) as [v|err|]; [|done..]. cbn.
    destruct (_ || _) in |- *; [done|]. pose proof (check_files_ends (md_files value) [] []).
    destruct (check_files _ _ _) as [paths|err|]; [|done..]. cbn. case_bool_decide; [|done]. cbn.
    pose proof (check_licenses_ends (entry_licenses e) paths). destruct (check_licenses _ _) as [[]|err|]; [|done..]. cbn.
    by destruct (existsb _ paths).
  - intros e bytes. cbn. unfold display_parse_sources. destruct (sources_document_of bytes); [|done]. cbn.
    destruct (negb _); [done|]. by destruct (negb _).
  - done.
  - apply write_provenance_ends.
  - apply write_marker_ends.
Qed.
#[export] Instance display_marker_laws : MarkerDocumentLaws DM → MarkerLaws display_kind.
Proof. intros HM id g m bytes. apply marker_document_comes_back. Qed.
End kind.

(** ** From the release to a VM *)

Section staging.
Context `{Hash256} `{DM : MarkerDocuments} `{D : DisplayDocuments} `{Z0 : ZipCrate}.
(** The process; whether the cache is locked, and how often the VM's directory is. *)
Variable process_id : N.
Variable locked_elsewhere : bool.
Variable lock_waits : nat.

Record StagedDisplayPayload : Type := mk_staged_display {
  staged : StagedPayload; offered_version : str; active_directory : path }.

Definition display_payload_staging_directory (vm_directory : path) : path := vm_directory ++ [text "display-payload"].
Definition display_payload_active_directory (vm_directory : path) : path :=
  display_payload_staging_directory vm_directory ++ [text "active"].

Definition from_release_directory (directory : path) : pact (list DisplayCatalogEntry) :=
  let^ entries := read_release_directory directory LOCAL_ARCHIVE_DIRECTORY in
  pure_of (from_entries entries).
Definition prepare_staging_root (vm_directory : path) : pact path :=
  let root := display_payload_staging_directory vm_directory in
  let^ _ := ensure_staging_root root in
  good root.
Definition stage_for_vm (executable_directory cache_root vm_directory : path) (guest : GuestSelector) : pact StagedDisplayPayload :=
  let^ catalog := from_release_directory executable_directory in
  let^ entry := pure_of (select_for_guest catalog guest (Handshake.major CURRENT_VERSION) (Handshake.minor CURRENT_VERSION)) in
  let archive := archive_path executable_directory LOCAL_ARCHIVE_DIRECTORY (entry_id entry) in
  let^ ready := prepare process_id locked_elsewhere entry cache_root archive in
  let^ root := prepare_staging_root vm_directory in
  let^ staged := stage_payload process_id lock_waits ready root in
  let active := display_payload_active_directory vm_directory in
  let^ _ := publish_active ready active in
  good (mk_staged_display staged (show_version (entry_version entry)) active).
End staging.

Lemma apart_below a b x y : apart a b → apart (a ++ x) (b ++ y).
Proof.
  intros [Hab Hba].
  assert (Hno : ∀ c d z w, under c d = false → under d c = false → under (c ++ z) (d ++ w) = false).
  { intros c d z w Hc Hd. apply not_true_iff_false. intros Hu.
    destruct (under_either c d (d ++ w)) as [E|E]; [|apply under_app|congruence..].
    eapply under_trans; [apply under_app|exact Hu]. }
  split; by apply Hno.
Qed.
(** What is below one of two that are apart is beside the other. *)
Lemma apart_beside a b x : apart a b → beside b (a ++ x).
Proof. intros Hab. rewrite <- (app_nil_r b). destruct (apart_below a b x [] Hab) as [H1 H2]. split; [exact H2|exact H1]. Qed.

Section offered.
Context `{Hash256} `{DM : MarkerDocuments} `{D : DisplayDocuments} `{Z0 : ZipCrate}.
Context {DL : DisplayDocumentLaws D} {ML : MarkerDocumentLaws DM} {ZL : ZipLaws Z0}.

(** The manifest the entry pins, and each file it declares. *)
Definition offered (e : DisplayCatalogEntry) (fs : gmap path node) (active : path) : Prop :=
  ∃ c m, fs !! (active ++ PAYLOAD_JSON) = Some (Some c) ∧ sha256 c = entry_manifest_sha256 e ∧
    display_parse_manifest c e = Ok m ∧
    Forall (λ f, ∃ c, fs !! (active ++ relative (prepared_path f)) = Some (Some c) ∧
      zlen c = prepared_size f ∧ sha256 c = prepared_sha256 f) (display_files m).

Lemma published_is_offered e s1 s2 s3 (ready : ReadyPayload) entry_directory active :
  verified (K := display_kind) e (tree_of s1) entry_directory ready →
  (∀ f, tree_of s2 !! (files_directory ready ++ f) = tree_of s1 !! (files_directory ready ++ f)) →
  complete ready active s2 s3 → offered e (tree_of s3) active.
Proof.
  intros Hv Hkeep Hc. pose proof (verified_names _ _ _ _ Hv) as Hr.
  assert (Hd : files_directory ready = entry_directory ++ FILES) by (by rewrite Hr). rewrite Hd in Hkeep.
  destruct (verified_manifest _ _ _ _ Hv) as (c & Hat & Hsha & Hparse). unfold offered.
  assert (Hpub : ∀ f, f ∈ all_files ready → tree_of s3 !! (active ++ f) = tree_of s1 !! ((entry_directory ++ FILES) ++ f)).
  { intros f Hf. destruct (Hc f Hf) as (c' & Hs & Ha). rewrite Ha, <- Hkeep, <- Hd. by rewrite Hs. }
  exists c, (ready_manifest ready). split_and!; [rewrite Hpub; [done|apply list_elem_of_here]|done|done|].
  apply list.Forall_forall. intros f Hf. pose proof (verified_files _ _ _ _ Hv) as Hall.
  eapply list.Forall_forall in Hall; [|exact Hf]. destruct Hall as (c' & Hc' & Hn & Hs). exists c'. split_and!; [|done..].
  rewrite Hpub; [done|]. right. by apply (list_elem_of_fmap_2 (λ f, relative (prepared_path f))).
Qed.

Lemma check_entries_ends es ids versions : check_entries es ids versions ≠ Panic.
Proof. revert ids versions. induction es as [|e es IH]; intros ids versions; cbn; [done|]. destruct (_ || _); [done|apply IH]. Qed.
Lemma from_release_does directory s s' r :
  from_release_directory directory s = (s', r) →
  r ≠ Panic ∧ tree_of s' = tree_of s ∧
  ∀ es, r = Ok es → Forall (carried (K := display_kind) (tree_of s) directory LOCAL_ARCHIVE_DIRECTORY) es ∧ from_entries es = Ok es.
Proof using DL ML.
  intros Hm. pose proof (calm_release (K := display_kind) directory LOCAL_ARCHIVE_DIRECTORY s) as Hc.
  apply abind_cases in Hm as [(s2 & es & Hr & Hm)|[(err & Hr & ->)|(Hr & ->)]]; rewrite Hr in Hc; [| |done];
    pose proof (reads_run _ _ _ _ (reads_release _ _) Hr) as H2; [|by split_and!].
  apply read_release_ok in Hr as [Hall _]. injection Hm as <- <-. split_and!; [|done|].
  - unfold from_entries. pose proof (check_entries_ends es [] []). by destruct (check_entries es [] []).
  - intros es' Hes. pose proof Hes as Hes'. by apply from_entries_ok in Hes' as [-> _].
Qed.
Lemma select_ends es guest major minor : select_for_guest es guest major minor ≠ Panic.
Proof. unfold select_for_guest. by destruct (max_by _ _). Qed.
Lemma selected_is_there es guest major minor e : select_for_guest es guest major minor = Ok e → e ∈ es.
Proof.
  unfold select_for_guest. destruct (max_by _ _) as [m|] eqn:Hm; [|done]. intros [= <-].
  apply max_by_some in Hm as [Hin _]; [|apply _]. apply list_elem_of_In, filter_In in Hin as [Hin _]. by apply list_elem_of_In.
Qed.

Lemma spares_prepare_root (ready : ReadyPayload) vm_directory q :
  beside (display_payload_staging_directory vm_directory) q → spares q (prepare_staging_root vm_directory).
Proof.
  intros Hq. unfold prepare_staging_root. apply spares_then; [|by intros ? ?].
  apply (spares_ensure_root ready). by right; right.
Qed.
Lemma calm_prepare_root vm_directory : calm (prepare_staging_root vm_directory).
Proof. unfold prepare_staging_root. apply calm_then; [apply calm_ensure_root|intros ?; apply calm_good]. Qed.
Lemma beside_outside root rel q : beside root q → outside (root ++ rel) q.
Proof. intros Hq. split; [by apply beside_below|]. destruct Hq as [Hq Hq']. by apply beside_way. Qed.

(** C6: Where the payload cache and the VM's staging directory are apart; no manifest
    the release pins declares a file that is the directory another of its files is in,
    or has the name another is written under before it is renamed (x.vmlord-partial
    beside x.y); the marker of every
    entry is no longer than the 64 KiB a marker may have; no other process writes
    there, and the lock is free after finitely many waits: however staging a display
    payload for a VM ends, when it succeeds, the directory the VM exports holds the
    manifest that the chosen entry of the release pins, by its digest, and every file
    the manifest declares, by its size and its digest, whatever the cache and the
    directory held before; the version that is reported is the entry's; and nothing
    beside the cache and the VM's staging directory changes. *)
Theorem a_vm_is_offered_what_the_release_pins process_id locked_elsewhere lock_waits
    executable_directory cache_root vm_directory guest s s' r :
  let root := display_payload_staging_directory vm_directory in
  let active := display_payload_active_directory vm_directory in
  let in_release := carried (K := display_kind) (tree_of s) executable_directory LOCAL_ARCHIVE_DIRECTORY in
  apart cache_root root →
  (∀ e c m, in_release e → sha256 c = entry_manifest_sha256 e → display_parse_manifest c e = Ok m →
     clash_free (expected_paths (K := display_kind) m)) →
  (∀ e bytes, in_release e →
     marker_bytes (entry_id e) (entry_archive_sha256 e) (entry_manifest_sha256 e) = Ok bytes → zlen bytes <= READY_MARKER_SIZE_LIMIT) →
  stage_for_vm process_id locked_elsewhere lock_waits executable_directory cache_root vm_directory guest s = (s', r) →
  r ≠ Panic ∧
  (∀ result, r = Ok result → ∃ es e,
     Forall in_release es ∧ from_entries es = Ok es ∧
     select_for_guest es guest (Handshake.major CURRENT_VERSION) (Handshake.minor CURRENT_VERSION) = Ok e ∧
     offered_version result = show_version (entry_version e) ∧ active_directory result = active ∧
     offered e (tree_of s') active) ∧
  (∀ q, beside (cache_root ++ [LOCAL_ARCHIVE_DIRECTORY; text "v1"]) q → beside root q → tree_of s' !! q = tree_of s !! q).
Proof using DL ML ZL.
  intros root active in_release Hapart Hclash Hfits E. unfold stage_for_vm in E.
  apply abind_cases in E as [(s1 & es & Hr & E)|[(err & Hr & ->)|(Hr & ->)]]; apply from_release_does in Hr as (Hnp & H1 & Hes); [| |done].
  2: { split_and!; [done|done|]. intros q _ _. by rewrite H1. }
  destruct (Hes es eq_refl) as [Hall Hfe]. clear Hes Hnp.
  unfold abind at 1, pure_of in E. destruct (select_for_guest es guest _ _) as [e|err|] eqn:Hsel.
  2: { injection E as <- <-. split_and!; [done|done|]. intros q _ _. by rewrite H1. }
  2: { by apply select_ends in Hsel. }
  assert (Hrel : in_release e).
  { eapply list.Forall_forall in Hall; [exact Hall|]. by eapply selected_is_there. }
  apply abind_cases in E as [(s2 & ready & Hp & E)|[(err & Hp & ->)|(Hp & ->)]]; pose proof (prepare_does _ _ _ _ _ _ _ _ Hp) as (Hnp & Hv & Hf); [| |done].
  2: { split_and!; [done|done|]. intros q Hq _. by rewrite Hf, H1. }
  specialize (Hv ready eq_refl). clear Hnp.
  assert (Hb1 : ∀ q, beside (cache_root ++ [LOCAL_ARCHIVE_DIRECTORY; text "v1"]) q → tree_of s2 !! q = tree_of s !! q) by (intros q Hq; by rewrite Hf, H1).
  clear Hp Hf H1. set (entry_directory := _ ++ [as_hex _]) in Hv.
  pose proof (verified_names _ _ _ _ Hv) as Hready.
  assert (Hsrc : files_directory ready = cache_root ++ [LOCAL_ARCHIVE_DIRECTORY; text "v1"; as_hex (entry_archive_sha256 e)] ++ FILES).
  { rewrite Hready. unfold entry_directory. cbn. by rewrite <- !app_assoc. }
  apply abind_cases in E as [(s3 & root' & Hr & E)|[(err & Hr & ->)|(Hr & ->)]].
  3: { exfalso. pose proof (calm_prepare_root vm_directory s2) as Hc. by rewrite Hr in Hc. }
  2: { split_and!; [done|done|]. intros q Hq Hq'. rewrite <- Hb1 by done. eapply spares_run; [|exact Hr].
       by apply (spares_prepare_root ready). }
  assert (H3 : ∀ q, beside root q → tree_of s3 !! q = tree_of s2 !! q).
  { intros q Hq. eapply spares_run; [|exact Hr]. by apply (spares_prepare_root ready). }
  assert (root' = root) as ->.
  { unfold prepare_staging_root in Hr. apply abind_ok in Hr as (? & ? & _ & Hr). by injection Hr. }
  clear Hr. apply abind_cases in E as [(s4 & sg & Hr & E)|[(err & Hr & ->)|(Hr & ->)]];
    (apply stage_payload_does in Hr as (Hnp & _ & _ & H4); [|intros bytes; rewrite Hready; by apply Hfits]); [| |done].
  2: { split_and!; [done|done|]. intros q Hq Hq'. by rewrite H4, H3, Hb1. }
  assert (Hapart' : apart (files_directory ready) active) by (rewrite Hsrc; by apply apart_below).
  destruct (verified_manifest _ _ _ _ Hv) as (c & Hat & Hsha & Hparse).
  assert (Hcf : clash_free (all_files ready)) by (by apply (Hclash e c (ready_manifest ready))).
  assert (Hproper : proper_files (manifest_files (ready_manifest ready))) by (by eapply parsed_is_proper).
  assert (Hkeep : ∀ f, tree_of s4 !! (files_directory ready ++ f) = tree_of s2 !! (files_directory ready ++ f)).
  { intros f. rewrite Hsrc, <- app_assoc. assert (beside root (cache_root ++ ([LOCAL_ARCHIVE_DIRECTORY; text "v1"; as_hex (entry_archive_sha256 e)] ++ FILES) ++ f)) by by apply apart_beside.
    by rewrite H4, H3. }
  apply abind_cases in E as [(s5 & u & Hr & E)|[(err & Hr & ->)|(Hr & ->)]];
    apply (publish_active_does ready active Hapart' Hcf (proj1 Hproper)) in Hr as (Hnp' & _ & Hdone & H5); [| |done].
  - injection E as <- <-. destruct u. destruct Hdone as [[_ ?]|[Hcomplete _]]; [done|]. split_and!; [done| |].
    + intros ? [= <-]. exists es, e. split_and!; try done. by eapply published_is_offered.
    + intros q Hq Hq'. rewrite H5, H4, H3, Hb1; try done. by apply beside_outside.
  - split_and!; [done|done|]. intros q Hq Hq'. rewrite H5, H4, H3, Hb1; try done. by apply beside_outside.
Qed.
End offered.

(** ** Two versions in a release *)
Module SampleDisplay.
Import SampleKind SampleMarkers SampleArchive.

Definition module_path : str := text "content/drm/vmlord.c".
Definition module_source : list Z := text "int init;".
Definition license_text : list Z := text "GPL".
Definition manifest_text : list Z := text "{display manifest}".
Definition sample_target (release_name : string) : DisplayTarget := mk_target (text "ubuntu") (text release_name) (text "amd64") 1.
Definition sample_sources : list Source :=
  [mk_source (text "https://vmlord.invalid") (text "14794180686c2fb6307fbe359c359bec765249f3") (text "1")].
Definition entry_document (release_name version : string) : EntryDocument :=
  mk_entry_document 1 (text "display-ubuntu-" ++ text release_name ++ text "-" ++ text version) (text version) (sample_target release_name)
    (text "6.8.0") (mk_range 1 0 9) (sha256 archive_bytes) (sha256 manifest_text) 64 8
    sample_sources [mk_license (text "GPL-2.0") (text "licenses/GPL-2.0.txt")].
Definition listed_files : list PreparedFile :=
  [ mk_prepared module_path (zlen module_source) (sha256 module_source);
    mk_prepared (text "licenses/GPL-2.0.txt") (zlen license_text) (sha256 license_text);
    mk_prepared (text "sources.json") (zlen sources_document) (sha256 sources_document) ].

#[export] Instance sample_documents : DisplayDocuments := {|
  entry_document_of bytes :=
    if bool_decide (bytes = text "{0.9.9}") then Some (entry_document "24.04" "0.9.9")
    else if bool_decide (bytes = text "{0.10.0}") then Some (entry_document "24.04" "0.10.0")
    else if bool_decide (bytes = text "{26.04}") then Some (entry_document "26.04" "1.0.0")
    else None;
  manifest_document_of bytes :=
    if bool_decide (bytes = manifest_text)
    then Some (mk_manifest_document 1 (text "display-ubuntu-24.04-0.10.0") (text "0.10.0") (sample_target "24.04") listed_files) else None;
  sources_document_of bytes := if bool_decide (bytes = sources_document) then Some (mk_sources_document 1 sample_sources) else None;
  write_provenance e _ := Ok (entry_id e);
|}.
#[export] Instance sample_documents_laws : DisplayDocumentLaws sample_documents.
Proof. constructor; [|done]. intros bytes m. cbn. case_bool_decide; [|done]. intros [= <-]. by repeat constructor. Qed.

Definition parsed (bytes : list Z) : list DisplayCatalogEntry :=
  match display_from_json bytes with Ok e => [e] | _ => [] end.
Definition entries : list DisplayCatalogEntry := parsed (text "{0.9.9}") ++ parsed (text "{26.04}") ++ parsed (text "{0.10.0}").
Definition noble : GuestSelector := mk_guest (text "Ubuntu") (text "24.04") (text "AMD64").
Definition arch : GuestSelector := mk_guest (text "arch") (text "rolling") (text "amd64").
Definition chosen (guest : GuestSelector) (es : list DisplayCatalogEntry) : option str :=
  match select_for_guest es guest 1 5 with Ok e => Some (entry_id e) | _ => None end.

(** Ten is newer than nine; a newer one built elsewhere is not preferred; whoever has
    none gets the newest. *)
Example its_own_and_the_newest : chosen noble entries = Some (text "display-ubuntu-24.04-0.10.0").
Proof. by vm_compute. Qed.
Example anybody_else : chosen arch entries = Some (text "display-ubuntu-26.04-1.0.0") ∧ chosen arch (rev entries) = chosen arch entries.
Proof. by vm_compute. Qed.
Example another_processor : chosen (mk_guest (text "arch") (text "rolling") (text "arm64")) entries = None.
Proof. by vm_compute. Qed.
Example not_a_version : from_str (text "1.2.3-rc1") = Err InvalidCatalog ∧ from_str (text "1..3") = Err InvalidCatalog ∧
  from_str (text "1.2") = Err InvalidCatalog ∧ from_str (text "0.10.0") = Ok (mk_payload_version 0 10 0).
Proof. by vm_compute. Qed.

Definition program : path := [text "program"].
Definition shipped : path := program ++ [LOCAL_ARCHIVE_DIRECTORY].
Definition cache : path := [text "cache"].
Definition vm : path := [text "vms"; text "dev"].
Definition noble_id : str := text "display-ubuntu-24.04-0.10.0".
Definition cached_entry : path := cache ++ [LOCAL_ARCHIVE_DIRECTORY; text "v1"; as_hex (sha256 archive_bytes)].
(** What is exported is an older version, with a file the new one does not have. *)
Definition before : Store :=
  mk_store (mk_world (list_to_map
    [ ([], None); (program, None); (shipped, None);
      (shipped ++ [text "display-ubuntu-24.04-0.9.9.json"], Some (text "{0.9.9}")); (shipped ++ [text "display-ubuntu-24.04-0.9.9.zip"], Some []);
      (shipped ++ [noble_id ++ text ".json"], Some (text "{0.10.0}")); (shipped ++ [noble_id ++ text ".zip"], Some archive_bytes);
      (shipped ++ [text "notes.txt"], Some []);
      (cache, None); (cache ++ [LOCAL_ARCHIVE_DIRECTORY], None); (cache ++ [LOCAL_ARCHIVE_DIRECTORY; text "v1"], None);
      (cached_entry, None); (cached_entry ++ ARCHIVE_ZIP, Some archive_bytes); (cached_entry ++ FILES, None);
      (cached_entry ++ PROVENANCE_JSON, Some (noble_id ++ [10]));
      (cached_entry ++ FILES ++ PAYLOAD_JSON, Some manifest_text); (cached_entry ++ FILES ++ SOURCES_JSON, Some sources_document);
      (cached_entry ++ FILES ++ [text "content"], None); (cached_entry ++ FILES ++ [text "content"; text "drm"], None);
      (cached_entry ++ FILES ++ relative module_path, Some module_source);
      (cached_entry ++ FILES ++ [text "licenses"], None); (cached_entry ++ FILES ++ [text "licenses"; text "GPL-2.0.txt"], Some license_text);
      ([text "vms"], None); (vm, None); (display_payload_staging_directory vm, None);
      (display_payload_active_directory vm, None); (display_payload_active_directory vm ++ PAYLOAD_JSON, Some (text "{old}"));
      (display_payload_active_directory vm ++ [text "old.c"], Some (text "old")) ]) ∅ ∅ [] None []) 0%N.
Definition staged_for (guest : GuestSelector) : Store * result PayloadError StagedDisplayPayload :=
  stage_for_vm 7 false 1 program cache vm guest before.

Example exported_anew :
  let '(s, r) := staged_for noble in
  let active := display_payload_active_directory vm in
  match r with Ok x => offered_version x = text "0.10.0" ∧ active_directory x = active | _ => False end ∧
  tree_of s !! (active ++ PAYLOAD_JSON) = Some (Some manifest_text) ∧
  tree_of s !! (active ++ relative module_path) = Some (Some module_source) ∧
  tree_of s !! (active ++ [text "old.c"]) = None.
Proof. vm_compute. by split_and!. Qed.
End SampleDisplay.

Section witness.
Import SampleKind SampleMarkers SampleArchive SampleDisplay.

Lemma the_listing_does_not_choose_witness :
  (∀ es', entries ≡ₚ es' → ∃ catalog', from_entries es' = Ok catalog' ∧
     select_for_guest catalog' noble 1 5 = select_for_guest entries noble 1 5) ∧
  match select_for_guest entries noble 1 5 with
  | Ok e => e ∈ entries ∧ applies noble 1 5 e = true ∧
      ∀ e', e' ∈ entries → applies noble 1 5 e' = true → e' = e ∨ behind noble e' e
  | Err refusal => refusal = NoPayloadForGuest (text "Ubuntu") (text "24.04") (text "AMD64") ∧
      ∀ e, e ∈ entries → applies noble 1 5 e = false
  | Panic => False
  end.
Proof. apply (the_listing_does_not_choose entries entries noble 1 5). vm_compute. reflexivity. Defined.

Lemma display_apart : apart cache (display_payload_staging_directory vm).
Proof. by vm_compute. Qed.
Lemma sample_manifests_clash_free e c m : display_parse_manifest c e = Ok m → clash_free (expected_paths (K := display_kind) m).
Proof.
  intros Hp. apply parse_manifest_inv in Hp as (value & paths & Hd & Hf & _).
  cbn in Hd. case_bool_decide; [|done]. injection Hd as <-. unfold expected_paths. cbn [manifest_files display_kind]. rewrite Hf.
  apply (bool_decide_eq_true_1 (clash_free _)). by vm_compute.
Qed.
Lemma sample_markers_fit c e bytes :
  display_from_json c = Ok e →
  marker_bytes (entry_id e) (entry_archive_sha256 e) (entry_manifest_sha256 e) = Ok bytes → zlen bytes <= READY_MARKER_SIZE_LIMIT.
Proof.
  intros Hj Hb. unfold marker_bytes in Hb. cbn in Hb. injection Hb as <-.
  unfold display_from_json in Hj. cbn in Hj. repeat case_bool_decide; [..|done]; vm_compute in Hj; injection Hj as <-; by vm_compute.
Qed.

Lemma a_vm_is_offered_what_the_release_pins_witness :
  let '(s', r) := stage_for_vm 7 false 1 program cache vm noble before in
  let in_release := carried (K := display_kind) (tree_of before) program LOCAL_ARCHIVE_DIRECTORY in
  r ≠ Panic ∧
  (∀ result, r = Ok result → ∃ es e,
     Forall in_release es ∧ from_entries es = Ok es ∧
     select_for_guest es noble (Handshake.major CURRENT_VERSION) (Handshake.minor CURRENT_VERSION) = Ok e ∧
     offered_version result = show_version (entry_version e) ∧ active_directory result = display_payload_active_directory vm ∧
     offered e (tree_of s') (display_payload_active_directory vm)) ∧
  (∀ q, beside (cache ++ [LOCAL_ARCHIVE_DIRECTORY; text "v1"]) q → beside (display_payload_staging_directory vm) q →
     tree_of s' !! q = tree_of before !! q).
Proof.
  destruct (stage_for_vm 7 false 1 program cache vm noble before) as [s' r] eqn:E.
  exact (a_vm_is_offered_what_the_release_pins 7 false 1 program cache vm noble before s' r display_apart
    (λ e c m _ _ Hp, sample_manifests_clash_free e c m Hp)
    (λ e bytes H Hb, match H with conj (ex_intro _ c (conj _ Hj)) _ => sample_markers_fit c e bytes Hj Hb end) E).
Defined.
End witness.
