(* ===== verification/GpuPayload.v ===== *)
(** * GpuPayload: the GPU payload a guest gets, and where it came from

    crates/gpu-payload: catalog.rs, manifest.rs and release.rs, the kind of payload
    they make ([gpu_kind]); and gpu_staging.rs of crates/platform.  What serde makes
    of a document is a class, [GpuDocuments].  A payload of this kind says of each
    of its sources where it is from and under which license, and that is checked
    against the entry. *)

From Stdlib Require Import Sorted.
From stdpp Require Import strings gmap list sets.
From S2P Require Import Prelude Stateful ClipboardPath CoreRequest Layout HostFiles PayloadFiles PayloadKind PayloadPublish PayloadArchive PayloadCache PayloadCatalog PayloadStaging.
#[local] Open Scope Z_scope.

(** ** Entries *)

Record GuestTarget : Type := mk_gpu_target {
  target_distribution : str; target_release : str; target_architecture : str; kernel_release : str; target_abi : Z }.
#[export] Instance guest_target_eq_dec : EqDecision GuestTarget.
Proof. solve_decision. Defined.
Record GuestSelector : Type := mk_selector { for_distribution : str; for_release : str; for_architecture : str }.

Inductive RendererCapability : Type := D3d12Gallium | DznVulkan.
Inductive GuestCapability : Type := CompositorScanout.
Inductive MesaPolicy : Type := Distro | Bundled.
#[export] Instance mesa_policy_eq_dec : EqDecision MesaPolicy.
Proof. solve_decision. Defined.

(** [CatalogEntryDocument] without its schema version, which [from_json] reads first. *)
Record CatalogEntry : Type := mk_catalog_entry {
  gpu_id : str; gpu_target : GuestTarget; gpu_size_limit : Z; gpu_count_limit : Z;
  gpu_archive : Sha256Digest; gpu_manifest : Sha256Digest; required_renderers : list RendererCapability;
  mesa_policy : MesaPolicy; gpu_sources : list Source; gpu_licenses : list License }.

Definition GPU_ENTRY_SCHEMA_VERSION : Z := 2.
Definition GPU_PAYLOAD_ABI_VERSION : Z := 1.
Definition GPU_ARCHIVE_DIRECTORY : str := text "gpu-payload".

Definition validate_entry (e : CatalogEntry) : result PayloadError unit :=
  let t := gpu_target e in
  if is_empty (gpu_id e) || is_empty (target_distribution t) || is_empty (target_release t) || is_empty (target_architecture t)
     || is_empty (kernel_release t) || negb (target_abi t =? GPU_PAYLOAD_ABI_VERSION)
     || (gpu_size_limit e =? 0) || (gpu_count_limit e =? 0)
     || match required_renderers e with [] => true | _ => false end
  then Err InvalidCatalog
  else if sources_lacking (gpu_sources e) then Err InvalidCatalog
  else if licenses_lacking (gpu_licenses e) then Err InvalidCatalog
  else Ok tt.

(** ** Which of several a guest gets *)

Fixpoint check_targets (entries : list CatalogEntry) (ids : list str) (targets : list GuestTarget) : result PayloadError unit :=
  match entries with
  | [] => Ok tt
  | e :: entries =>
      if bool_decide (gpu_id e ∈ ids) || bool_decide (gpu_target e ∈ targets) then Err InvalidCatalog
      else check_targets entries (gpu_id e :: ids) (gpu_target e :: targets)
  end.
(** [PayloadCatalog] is the list of its entries. *)
Definition catalog_from_entries (entries : list CatalogEntry) : result PayloadError (list CatalogEntry) :=
  let? _ := check_targets entries [] [] in Ok entries.

(** The parts between what [f] picks, empty ones too. *)
Fixpoint split_where (f : Z → bool) (s : str) : list str :=
  match s with
  | [] => [[]]
  | c :: rest =>
      match split_where f rest with
      | part :: parts => if f c then [] :: part :: parts else (c :: part) :: parts
      | [] => [[]]
      end
  end.
(** [str::parse::<u64>] of a part without anything but digits. *)
Definition parse_u64 (part : str) : option Z :=
  let value := fold_left (λ n c, 10 * n + (c - 48)) part 0 in
  if is_empty part || (U64_MAX <? value) then None else Some value.
Definition kernel_order (release : str) : list Z :=
  omap parse_u64 (split_where (λ c, negb (is_ascii_digit c)) release).
Definition compare_kernels : CatalogEntry → CatalogEntry → comparison :=
  compare_on (λ e, kernel_order (kernel_release (gpu_target e))) (compare_lists Z.compare).

Definition select (catalog : list CatalogEntry) (target : GuestTarget) : result PayloadError CatalogEntry :=
  ok_or (List.find (λ e, bool_decide (gpu_target e = target)) catalog) UnsupportedTarget.
Definition fits (guest : GuestSelector) (e : CatalogEntry) : bool :=
  eq_ignore_ascii_case (target_distribution (gpu_target e)) (for_distribution guest)
  && str_eqb (target_release (gpu_target e)) (for_release guest)
  && eq_ignore_ascii_case (target_architecture (gpu_target e)) (for_architecture guest).
Definition gpu_select_for_guest (catalog : list CatalogEntry) (guest : GuestSelector) : result PayloadError CatalogEntry :=
  ok_or (max_by compare_kernels (List.filter (fits guest) catalog))
    (NoPayloadForGuest (for_distribution guest) (for_release guest) (for_architecture guest)).

(** ** The documents of a payload *)

(** [ManifestTarget] has the fields of [GuestTarget], and is compared by them. *)
Record PayloadManifestDocument : Type := mk_gpu_manifest {
  pm_schema_version : Z; pm_payload_id : str; pm_target : GuestTarget; pm_files : list PreparedFile }.

Record SourceInputRecord : Type := mk_input { in_url : str; in_commit : str; in_version : str }.
Record SourcePatchRecord : Type := mk_patch { patch_file : str; patch_sha256 : Sha256Digest; patch_author : str; patch_reason : str }.
Record SourceLicenseRecord : Type := mk_source_license { sl_path : str; sl_spdx : str }.
Record CheckoutRecord : Type := mk_checkout {
  co_url : str; co_commit : str; co_version : str; co_paths : list str; co_licenses : list SourceLicenseRecord; co_sha256 : Sha256Digest }.
Record BuiltRecord : Type := mk_built {
  bu_url : str; bu_commit : str; bu_version : str; bu_output : str; bu_licenses : list str;
  bu_inputs : list SourceInputRecord; bu_patches : list SourcePatchRecord; bu_sha256 : Sha256Digest }.
Inductive SourceRecord : Type := Checkout (c : CheckoutRecord) | Built (b : BuiltRecord).
Record OverlayRecord : Type := mk_overlay { ov_path : str; ov_sha256 : Sha256Digest; ov_license : str; ov_author : str }.
Record SourceManifestDocument : Type := mk_source_manifest {
  sm_schema_version : Z; sm_target : GuestTarget; guest_capabilities : list GuestCapability; library_layout : option str;
  sm_mesa_policy : MesaPolicy; sm_sources : list SourceRecord; sm_overlays : list OverlayRecord }.

Class GpuDocuments := {
  catalog_entry_of : list Z → option (Z * CatalogEntry);
  payload_manifest_of : list Z → option PayloadManifestDocument;
  source_manifest_of : list Z → option SourceManifestDocument;
  write_gpu_provenance : CatalogEntry → SourceManifestDocument → result PayloadError (list Z);
}.
Class GpuDocumentLaws (D : GpuDocuments) : Prop := {
  gpu_sizes_are_unsigned bytes m : payload_manifest_of bytes = Some m → Forall (λ f, 0 <= prepared_size f) (pm_files m);
  write_gpu_provenance_ends e s : write_gpu_provenance e s ≠ Panic;
}.

(** [str::split_once] and [str::contains]. *)
Fixpoint split_once (separator s : str) : option (str * str) :=
  if starts_with_text s separator then Some ([], drop (length separator) s)
  else
    match s with
    | [] => None
    | c :: rest => (λ '(before, after), (c :: before, after)) <$> split_once separator rest
    end.
Definition contains (s part : str) : bool := match split_once part s with Some _ => true | None => false end.

Definition WITH : str := text " WITH ".
Definition D3DKMTHK_PATH : str := text "include/uapi/misc/d3dkmthk.h".
Definition D3DKMTHK_LICENSE : str := text "GPL-2.0 WITH Linux-syscall-note".

Definition license_expression_is_declared (expression : str) (e : CatalogEntry) : bool :=
  let declared identifier := negb (is_empty identifier) && existsb (λ l, str_eqb (spdx l) identifier) (gpu_licenses e) in
  match split_once WITH expression with
  | Some (license, exception) => negb (contains exception WITH) && declared license && declared exception
  | None => declared expression
  end.

Definition provenance_mismatch : PayloadError := InvalidManifest (text "sources.json").

(** Each path after the one before it. *)
Fixpoint check_paths (paths : list str) (previous : str) : result PayloadError unit :=
  match paths with
  | [] => Ok tt
  | p :: paths =>
      let? _ := validate_path p in
      if negb (is_empty previous) && match compare_str previous p with Lt => false | _ => true end
      then Err (InvalidManifest p) else check_paths paths p
  end.
Fixpoint check_path_licenses (pairs : list (str * SourceLicenseRecord)) (e : CatalogEntry) : result PayloadError unit :=
  match pairs with
  | [] => Ok tt
  | (p, l) :: pairs =>
      let? _ := validate_path (sl_path l) in
      if negb (str_eqb (sl_path l) p) || negb (license_expression_is_declared (sl_spdx l) e)
         || str_eqb (sl_path l) D3DKMTHK_PATH && negb (str_eqb (sl_spdx l) D3DKMTHK_LICENSE)
      then Err (InvalidManifest p) else check_path_licenses pairs e
  end.
Definition validate_checkout (c : CheckoutRecord) (e : CatalogEntry) : result PayloadError unit :=
  if match co_paths c with [] => true | _ => false end || negb (length (co_licenses c) =? length (co_paths c))%nat
  then Err provenance_mismatch
  else
    let? _ := check_paths (co_paths c) [] in
    check_path_licenses (zip (co_paths c) (co_licenses c)) e.
Definition validate_built (b : BuiltRecord) (e : CatalogEntry) : result PayloadError unit :=
  let? _ := validate_path (bu_output b) in
  if match bu_licenses b with [] => true | _ => false end
     || negb (forallb (λ l, license_expression_is_declared l e) (bu_licenses b))
  then Err (InvalidManifest (bu_output b)) else Ok tt.
Fixpoint validate_sources (sources : list SourceRecord) (e : CatalogEntry) : result PayloadError unit :=
  match sources with
  | [] => Ok tt
  | s :: sources =>
      let? _ := match s with Checkout c => validate_checkout c e | Built b => validate_built b e end in
      validate_sources sources e
  end.

(** The rows a source adds to the entry: a built one, itself and what went in. *)
Definition rows_of (s : SourceRecord) : list (str * str * str) :=
  match s with
  | Checkout c => [(co_url c, co_commit c, co_version c)]
  | Built b => (bu_url b, bu_commit b, bu_version b) :: map (λ i, (in_url i, in_commit i, in_version i)) (bu_inputs b)
  end.
Definition catalog_rows (sources : list SourceRecord) : list (str * str * str) := flat_map rows_of sources.
Definition row_differs (row_expected : str * str * str * Source) : bool :=
  let '(u, c, v, s) := row_expected in negb (str_eqb u (url s)) || negb (str_eqb c (commit s)) || negb (str_eqb v (version_text s)).

Fixpoint check_overlays (overlays : list OverlayRecord) (paths : list str) (e : CatalogEntry) : result PayloadError unit :=
  match overlays with
  | [] => Ok tt
  | o :: overlays =>
      let? _ := validate_path (ov_path o) in
      if bool_decide (ov_path o ∈ paths) || is_empty (ov_license o) || is_empty (ov_author o)
         || eq_ignore_ascii_case (ov_author o) (text "microsoft")
         || negb (existsb (λ l, str_eqb (spdx l) (ov_license o)) (gpu_licenses e))
      then Err (InvalidManifest (ov_path o))
      else check_overlays overlays (ov_path o :: paths) e
  end.
(** Each is a file of the manifest, with its digest. *)
Fixpoint validate_overlays_against (overlays : list OverlayRecord) (files : list PreparedFile) : result PayloadError unit :=
  match overlays with
  | [] => Ok tt
  | o :: overlays =>
      match List.find (λ f, str_eqb (prepared_path f) (ov_path o)) files with
      | None => Err (InvalidManifest (ov_path o))
      | Some f =>
          if negb (bool_decide (prepared_sha256 f = ov_sha256 o)) then Err (InvalidManifest (ov_path o))
          else validate_overlays_against overlays files
      end
  end.

Section documents.
Context `{D : GpuDocuments}.

Definition entry_from_json (bytes : list Z) : result PayloadError CatalogEntry :=
  let? document := ok_or (catalog_entry_of bytes) InvalidCatalog in
  if negb (document.1 =? GPU_ENTRY_SCHEMA_VERSION) then Err InvalidCatalog
  else
    let? _ := validate_entry document.2 in
    Ok document.2.

Definition manifest_parse_and_validate (bytes : list Z) (e : CatalogEntry) : result PayloadError (list PreparedFile) :=
  let? value := ok_or (payload_manifest_of bytes) (InvalidManifest []) in
  if negb (pm_schema_version value =? 1) || negb (str_eqb (pm_payload_id value) (gpu_id e))
     || negb (bool_decide (pm_target value = gpu_target e))
  then Err (InvalidManifest [])
  else
    let? paths := check_files (pm_files value) [] [] in
    if negb (bool_decide (text "sources.json" ∈ paths)) then Err (InvalidManifest (text "sources.json"))
    else
      let? _ := check_licenses (gpu_licenses e) paths in
      Ok (pm_files value).

Definition sources_parse_and_validate (bytes : list Z) (e : CatalogEntry) : result PayloadError SourceManifestDocument :=
  let? doc := ok_or (source_manifest_of bytes) (InvalidManifest []) in
  if negb (sm_schema_version doc =? 2) || negb (bool_decide (sm_target doc = gpu_target e))
     || negb (bool_decide (sm_mesa_policy doc = mesa_policy e))
  then Err provenance_mismatch
  else
    let rows := catalog_rows (sm_sources doc) in
    if negb (length rows =? length (gpu_sources e))%nat || existsb row_differs (zip rows (gpu_sources e))
    then Err provenance_mismatch
    else
      let? _ := validate_sources (sm_sources doc) e in
      let? _ := check_overlays (sm_overlays doc) [] e in
      Ok doc.
End documents.

(** ** The kind of payload this makes *)

Section kind.
Context `{DM : MarkerDocuments} `{D : GpuDocuments}.

#[export] Instance gpu_kind : PayloadEntry := {|
  Entry := CatalogEntry; Manifest := list PreparedFile; Sources := SourceManifestDocument;
  NAMESPACE := GPU_ARCHIVE_DIRECTORY;
  payload_id := gpu_id; archive_sha256 := gpu_archive; payload_manifest_sha256 := gpu_manifest;
  expanded_size_limit := gpu_size_limit; file_count_limit := gpu_count_limit;
  from_json := entry_from_json;
  parse_manifest e bytes := manifest_parse_and_validate bytes e;
  parse_sources e bytes := sources_parse_and_validate bytes e;
  manifest_files m := m;
  validate_prepared_files s m := validate_overlays_against (sm_overlays s) m;
  provenance_json := write_gpu_provenance;
  marker_json := write_marker_document; marker_of_json := read_marker_document;
|}.

Lemma check_paths_ends paths previous : check_paths paths previous ≠ Panic.
Proof.
  revert previous. induction paths as [|p ps IH]; intros previous; cbn; [done|].
  pose proof (validate_path_ends p). destruct (validate_path p); [|done..]. cbn. destruct (_ && _); [done|apply IH].
Qed.
Lemma check_path_licenses_ends pairs e : check_path_licenses pairs e ≠ Panic.
Proof.
  induction pairs as [|[p l] ps IH]; cbn; [done|]. pose proof (validate_path_ends (sl_path l)).
  destruct (validate_path _); [|done..]. cbn. destruct (_ || _); [done|apply IH].
Qed.
Lemma validate_sources_ends sources e : validate_sources sources e ≠ Panic.
Proof.
  induction sources as [|s ss IH]; cbn; [done|].
  assert (Hs : match s with Checkout c => validate_checkout c e | Built b => validate_built b e end ≠ Panic).
  { destruct s as [c|b].
    - unfold validate_checkout. destruct (_ || _); [done|]. pose proof (check_paths_ends (co_paths c) []).
      destruct (check_paths _ _); [|done..]. apply check_path_licenses_ends.
    - unfold validate_built. pose proof (validate_path_ends (bu_output b)). destruct (validate_path _); [|done..]. cbn.
      by destruct (_ || _). }
  destruct (match s with Checkout c => _ | Built b => _ end); [|done..]. apply IH.
Qed.
Lemma check_overlays_ends overlays paths e : check_overlays overlays paths e ≠ Panic.
Proof.
  revert paths. induction overlays as [|o os IH]; intros paths; cbn; [done|]. pose proof (validate_path_ends (ov_path o)).
  destruct (validate_path _); [|done..]. cbn. destruct (_ || _); [done|apply IH].
Qed.
Lemma validate_overlays_ends overlays files : validate_overlays_against overlays files ≠ Panic.
Proof. induction overlays as [|o os IH]; cbn; [done|]. destruct (List.find _ _); [|done]. by destruct (negb _). Qed.

#[export] Instance gpu_kind_laws : GpuDocumentLaws D → MarkerDocumentLaws DM → PayloadEntryLaws gpu_kind.
Proof.
  intros HD HM. constructor.
  - intros e bytes m. cbn. unfold manifest_parse_and_validate. destruct (payload_manifest_of bytes) as [value|] eqn:Hd; [|done]. cbn.
    destruct (_ || _) in |- *; [done|]. destruct (check_files _ _ _) as [paths|err|] eqn:Hc; [|done..]. cbn.
    case_bool_decide as Hs; [|done]. cbn. destruct (check_licenses _ _) as [[]|err|]; [|done..]. intros [= <-].
    eapply checked_is_proper; [done..|by eapply gpu_sizes_are_unsigned].
  - intros bytes. cbn. unfold entry_from_json. destruct (catalog_entry_of bytes) as [[v e]|]; [|done]. cbn.
    destruct (negb _); [done|]. assert (Hv : validate_entry e ≠ Panic) by (unfold validate_entry; by repeat case_match).
    by destruct (validate_entry e).
  - intros e bytes. cbn. unfold manifest_parse_and_validate. destruct (payload_manifest_of bytes) as [value|]; [|done]. cbn.
    destruct (_ || _) in |- *; [done|]. pose proof (check_files_ends (pm_files value) [] []).
    destruct (check_files _ _ _) as [paths|err|]; [|done..]. cbn. case_bool_decide; [|done]. cbn.
    pose proof (check_licenses_ends (gpu_licenses e) paths). by destruct (check_licenses _ _) as [[]|err|].
  - intros e bytes. cbn. unfold sources_parse_and_validate. destruct (source_manifest_of bytes) as [doc|]; [|done]. cbn.
    destruct (_ || _) in |- *; [done|]. destruct (_ || _) in |- *; [done|].
    pose proof (validate_sources_ends (sm_sources doc) e). destruct (validate_sources _ _); [|done..]. cbn.
    pose proof (check_overlays_ends (sm_overlays doc) [] e). by destruct (check_overlays _ _ _).
  - intros s m. apply validate_overlays_ends.
  - apply write_gpu_provenance_ends.
  - apply write_marker_ends.
Qed.
#[export] Instance gpu_marker_laws : MarkerDocumentLaws DM → MarkerLaws gpu_kind.
Proof. intros HM id g m bytes. apply marker_document_comes_back. Qed.
End kind.

(** ** From the release to a VM *)

Section staging.
Context `{Hash256} `{DM : MarkerDocuments} `{D : GpuDocuments} `{Z0 : ZipCrate}.
(** The process; whether the cache is locked, and how often the VM's directory is. *)
Variable process_id : N.
Variable locked_elsewhere : bool.
Variable lock_waits : nat.

Definition gpu_payload_staging_directory (vm_directory : path) : path := vm_directory ++ [text "gpu-payload"].
Definition local_archive_path (directory : path) (id : str) : path := archive_path directory GPU_ARCHIVE_DIRECTORY id.
Definition catalog_from_release_directory (directory : path) : pact (list CatalogEntry) :=
  let^ entries := read_release_directory directory GPU_ARCHIVE_DIRECTORY in
  pure_of (catalog_from_entries entries).
Definition gpu_prepare_staging_root (vm_directory : path) : pact path :=
  let root := gpu_payload_staging_directory vm_directory in
  let^ _ := ensure_staging_root root in
  good root.
Definition gpu_stage_for_vm (executable_directory cache_root vm_directory : path) (guest : GuestSelector) : pact StagedPayload :=
  let^ catalog := catalog_from_release_directory executable_directory in
  let^ entry := pure_of (gpu_select_for_guest catalog guest) in
  let archive := local_archive_path executable_directory (gpu_id entry) in
  let^ ready := prepare process_id locked_elsewhere entry cache_root archive in
  let^ root := gpu_prepare_staging_root vm_directory in
  stage_payload process_id lock_waits ready root.
End staging.

(** ** Where a payload is from *)

Section provenance.
Context `{D : GpuDocuments}.
Variable e : CatalogEntry.

(** An identifier the entry declares, or two joined by [WITH]. *)
Definition identified (identifier : str) : Prop := identifier ≠ [] ∧ ∃ l, l ∈ gpu_licenses e ∧ spdx l = identifier.
Definition licensed (expression : str) : Prop :=
  identified expression ∨
  ∃ license exception, expression = license ++ WITH ++ exception ∧ identified license ∧ identified exception.
Definition checkout_accounted (c : CheckoutRecord) : Prop :=
  co_paths c ≠ [] ∧ StronglySorted (λ a b, compare_str a b = Lt) (co_paths c) ∧ map sl_path (co_licenses c) = co_paths c ∧
  ∀ l, l ∈ co_licenses c → licensed (sl_spdx l) ∧ (sl_path l = D3DKMTHK_PATH → sl_spdx l = D3DKMTHK_LICENSE).
Definition source_accounted (s : SourceRecord) : Prop :=
  match s with
  | Checkout c => checkout_accounted c
  | Built b => bu_licenses b ≠ [] ∧ Forall licensed (bu_licenses b)
  end.
Definition overlay_accounted (files : list PreparedFile) (o : OverlayRecord) : Prop :=
  (∃ f, f ∈ files ∧ prepared_path f = ov_path o ∧ prepared_sha256 f = ov_sha256 o) ∧
  identified (ov_license o) ∧ ov_author o ≠ [] ∧ map to_ascii_lowercase (ov_author o) ≠ text "microsoft".

Lemma starts_with_split s prefix : starts_with_text s prefix = true → s = prefix ++ drop (length prefix) s.
Proof. unfold starts_with_text. intros H%str_eqb_spec. rewrite <- H at 1. symmetry. apply take_drop. Qed.
Lemma split_once_ok separator s before after : split_once separator s = Some (before, after) → s = before ++ separator ++ after.
Proof.
  revert before. induction s as [|c s IH]; intros before; cbn [split_once];
    (destruct (starts_with_text _ separator) eqn:E; [intros [= <- <-]; by apply starts_with_split|]); [done|].
  destruct (split_once separator s) as [[b a]|]; [|done]. intros [= <- <-]. cbn. f_equal. by apply IH.
Qed.
Lemma declares_ok identifier :
  negb (is_empty identifier) && existsb (λ l, str_eqb (spdx l) identifier) (gpu_licenses e) = true → identified identifier.
Proof.
  intros [Hne (l & Hin & Heq)%existsb_exists]%andb_true_iff. split; [by intros ->|].
  exists l. split; [by apply list_elem_of_In|by apply str_eqb_spec].
Qed.
Lemma license_expression_ok expression : license_expression_is_declared expression e = true → licensed expression.
Proof.
  unfold license_expression_is_declared. destruct (split_once WITH expression) as [[license exception]|] eqn:E; intros H.
  - apply split_once_ok in E. apply andb_true_iff in H as [[_ Hl]%andb_true_iff Hx]. right.
    exists license, exception. split_and!; [done|by apply declares_ok..].
  - left. by apply declares_ok.
Qed.
Lemma check_paths_ok paths previous :
  check_paths paths previous = Ok tt →
  StronglySorted (λ a b, compare_str a b = Lt) paths ∧ (previous ≠ [] → Forall (λ p, compare_str previous p = Lt) paths).
Proof.
  revert previous. induction paths as [|p ps IH]; intros previous; cbn; [intros _; split; constructor|].
  destruct (validate_path p) as [[]|err|] eqn:Hv; [|done..]. cbn. assert (Hne : p ≠ []) by (by intros ->).
  destruct (_ && _) eqn:Hlt in |- *; [done|]. intros [Hs Hp]%IH. specialize (Hp Hne). split; [by constructor|].
  intros Hprev. assert (H1 : compare_str previous p = Lt).
    { destruct previous; [done|]. cbn [is_empty negb andb] in Hlt. by destruct (compare_str _ p). }
  constructor; [done|]. rewrite list.Forall_forall in Hp |- *. intros q Hq. specialize (Hp q Hq). eapply (cmp_lt_trans compare_str); [done|]. by rewrite Hp.
Qed.
Lemma check_path_licenses_ok paths licenses :
  length licenses = length paths → check_path_licenses (zip paths licenses) e = Ok tt →
  map sl_path licenses = paths ∧
  ∀ l, l ∈ licenses → licensed (sl_spdx l) ∧ (sl_path l = D3DKMTHK_PATH → sl_spdx l = D3DKMTHK_LICENSE).
Proof.
  revert paths. induction licenses as [|l ls IH]; intros [|p ps]; cbn; [by split; [|intros ? ?%elem_of_nil]|done..|].
  intros [= Hlen]. destruct (validate_path _) as [[]|err|]; [|done..]. cbn.
  destruct (str_eqb (sl_path l) p) eqn:Hp; [|done]. apply str_eqb_spec in Hp as Hp'. cbn.
  destruct (license_expression_is_declared _ e) eqn:Hd; [|done]. cbn.
  destruct (_ && _) eqn:Hk in |- *; [done|]. intros [Hm Hall]%IH; [|done]. split; [by f_equal|].
  intros l' [->|Hin]%elem_of_cons; [|auto]. split; [by apply license_expression_ok|].
  intros Hpath. rewrite Hpath, (proj2 (str_eqb_spec _ _) eq_refl) in Hk. cbn in Hk. apply negb_false_iff in Hk. by apply str_eqb_spec.
Qed.
Lemma validate_sources_ok sources : validate_sources sources e = Ok tt → Forall source_accounted sources.
Proof.
  induction sources as [|[c|b] ss IH]; cbn; [constructor|..].
  - unfold validate_checkout. destruct (_ || _) eqn:Hlen in |- *; [done|]. apply orb_false_iff in Hlen as [Hne Hlen].
    destruct (check_paths _ _) as [[]|err|] eqn:Hp; [|done..]. cbn. destruct (check_path_licenses _ _) as [[]|err|] eqn:Hl; [|done..].
    intros Hss%IH. constructor; [|done]. apply check_paths_ok in Hp as [Hp _]. apply negb_false_iff, Nat.eqb_eq in Hlen.
    apply check_path_licenses_ok in Hl as [Hm Hall]; [|done]. split_and!; try done. by destruct (co_paths c).
  - unfold validate_built. destruct (validate_path _) as [[]|err|]; [|done..]. cbn. destruct (_ || _) eqn:Hb in |- *; [done|].
    intros Hss%IH. constructor; [|done]. apply orb_false_iff in Hb as [Hne Hall]. split; [by destruct (bu_licenses b)|].
    apply negb_false_iff in Hall. rewrite forallb_forall in Hall. apply list.Forall_forall. intros l Hl%list_elem_of_In.
    by apply license_expression_ok, Hall.
Qed.
Lemma check_overlays_ok overlays paths files :
  check_overlays overlays paths e = Ok tt → validate_overlays_against overlays files = Ok tt →
  Forall (overlay_accounted files) overlays ∧ NoDup (map ov_path overlays) ∧ ∀ p, p ∈ map ov_path overlays → p ∉ paths.
Proof.
  revert paths. induction overlays as [|o os IH]; intros paths; cbn; [intros _ _; split_and!; [constructor..|by intros ? ?%elem_of_nil]|].
  destruct (validate_path _) as [[]|err|]; [|done..]. cbn. case_bool_decide as Hin; [done|]. cbn.
  destruct (is_empty (ov_license o)) eqn:Hl; [done|]. destruct (is_empty (ov_author o)) eqn:Ha; [done|]. cbn.
  destruct (eq_ignore_ascii_case _ _) eqn:Hm; [done|]. destruct (existsb _ _) eqn:Hd; [|done]. cbn. intros Hos.
  destruct (List.find _ files) as [f|] eqn:Hf; [|done]. case_bool_decide as Hsha; [|done]. cbn. intros Hv.
  destruct (IH _ Hos Hv) as (Hall & Hnd & Hfresh). apply find_some in Hf as [Hfin Hfp%str_eqb_spec].
  assert (Hnew : ov_path o ∉ map ov_path os) by (intros Ho; apply (Hfresh _ Ho); left). split_and!.
  - constructor; [|done]. split_and!; [by exists f; rewrite list_elem_of_In|apply declares_ok; by rewrite Hl, Hd|by intros Hno; rewrite Hno in Ha|].
    intros Hms. unfold eq_ignore_ascii_case in Hm. rewrite Hms in Hm. by vm_compute in Hm.
  - by constructor.
  - intros p [->|Hp]%elem_of_cons; [done|]. intros Hpp. apply (Hfresh p Hp). by right.
Qed.
Lemma rows_agree rows sources :
  negb (length rows =? length sources)%nat || existsb row_differs (zip rows sources) = false → rows = map source_row sources.
Proof.
  intros [Hlen Hd]%orb_false_iff. apply negb_false_iff, Nat.eqb_eq in Hlen.
  revert sources Hlen Hd. induction rows as [|[[u c] v] rows IH]; intros [|s ss]; cbn; [done..|]. intros [= Hlen] [Hd Hds]%orb_false_iff.
  f_equal; [|by apply IH]. apply orb_false_iff in Hd as [[Hu Hc]%orb_false_iff Hv].
  by apply negb_false_iff, str_eqb_spec in Hu as ->, Hc as ->, Hv as ->.
Qed.
End provenance.

Lemma sources_accounted `{D : GpuDocuments} bytes (e : CatalogEntry) (files : list PreparedFile) doc :
  sources_parse_and_validate bytes e = Ok doc → validate_overlays_against (sm_overlays doc) files = Ok tt →
  sm_target doc = gpu_target e ∧ sm_mesa_policy doc = mesa_policy e ∧
  catalog_rows (sm_sources doc) = map source_row (gpu_sources e) ∧
  Forall (source_accounted e) (sm_sources doc) ∧
  Forall (overlay_accounted e files) (sm_overlays doc) ∧ NoDup (map ov_path (sm_overlays doc)).
Proof.
  unfold sources_parse_and_validate. destruct (source_manifest_of bytes) as [d|]; [|done]. cbn.
  destruct (_ || _) eqn:Hd in |- *; [done|]. destruct (_ || _) eqn:Hr in |- *; [done|].
  destruct (validate_sources _ _) as [[]|err|] eqn:Hs; [|done..]. cbn.
  destruct (check_overlays _ _ _) as [[]|err|] eqn:Ho; [|done..]. cbn. intros [= ->] Hv.
  apply orb_false_iff in Hd as [[_ Ht]%orb_false_iff Hm]. apply negb_false_iff, bool_decide_eq_true in Ht, Hm.
  destruct (check_overlays_ok _ _ _ _ Ho Hv) as (Hall & Hn & _).
  split_and!; try done; [by apply rows_agree|by apply validate_sources_ok].
Qed.

(** C8: A source document is accepted, with the manifest it goes with, only where it
    accounts for all there is to the payload: its sources are the entry's, row by row
    and in that order, with what a built one was made from; every upstream file of a
    checkout is listed once, in order, under a license the entry declares (alone, or
    with an exception it declares), the header shared with Windows under its
    exception; everything built is licensed; and every overlay is a file of the
    manifest, with its digest, listed once, by an author who is named and is not
    Microsoft. *)
Theorem every_source_is_accounted_for `{D : GpuDocuments} bytes (e : CatalogEntry) (files : list PreparedFile) doc :
  sources_parse_and_validate bytes e = Ok doc → validate_overlays_against (sm_overlays doc) files = Ok tt →
  sm_target doc = gpu_target e ∧ sm_mesa_policy doc = mesa_policy e ∧
  catalog_rows (sm_sources doc) = map source_row (gpu_sources e) ∧
  Forall (source_accounted e) (sm_sources doc) ∧
  Forall (overlay_accounted e files) (sm_overlays doc) ∧ NoDup (map ov_path (sm_overlays doc)).
Proof. apply sources_accounted. Qed.

(** ** Which entry, and what of it gets there *)

Lemma filter_cut {A} (f : A → bool) l l1 x l2 :
  List.filter f l = l1 ++ x :: l2 → ∃ k1 k2, l = k1 ++ x :: k2 ∧ List.filter f k2 = l2.
Proof.
  revert l1. induction l as [|y l IH]; intros l1; cbn; [by destruct l1|]. destruct (f y).
  - destruct l1 as [|z l1]; intros [= -> H]; [by exists [], l|]. destruct (IH _ H) as (k1 & k2 & -> & ?). by exists (z :: k1), k2.
  - intros H. destruct (IH _ H) as (k1 & k2 & -> & ?). by exists (y :: k1), k2.
Qed.

Lemma check_targets_ends entries ids targets : check_targets entries ids targets ≠ Panic.
Proof. revert ids targets. induction entries as [|e es IH]; intros ids targets; cbn; [done|]. destruct (_ || _); [done|apply IH]. Qed.
Lemma from_entries_is entries catalog : catalog_from_entries entries = Ok catalog → catalog = entries.
Proof. unfold catalog_from_entries. destruct (check_targets _ _ _); [|done..]. by intros [= <-]. Qed.
Lemma gpu_selected catalog guest e : gpu_select_for_guest catalog guest = Ok e → e ∈ catalog ∧ fits guest e = true.
Proof.
  unfold gpu_select_for_guest. destruct (max_by _ _) as [m|] eqn:Hm; [|done]. intros [= <-].
  apply max_by_some in Hm as [Hin _]; [|apply _]. apply list_elem_of_In, filter_In in Hin as [? ?]. by rewrite list_elem_of_In.
Qed.

(** A guest is given an entry made for it, and of those none whose kernel is newer
    by its numbers is passed over; it goes without only where the release has none.
    Where no two of them have the same numbers, the order in which they were listed
    does not matter; where two have, it is the one listed last. *)
Theorem the_newest_kernel_serves catalog guest :
  match gpu_select_for_guest catalog guest with
  | Ok e =>
      fits guest e = true ∧
      (∀ e', e' ∈ catalog → fits guest e' = true → compare_kernels e' e ≠ Gt) ∧
      (∃ l1 l2, catalog = l1 ++ e :: l2 ∧ ∀ e', e' ∈ l2 → fits guest e' = true → compare_kernels e e' = Gt)
  | Err refusal =>
      refusal = NoPayloadForGuest (for_distribution guest) (for_release guest) (for_architecture guest) ∧
      ∀ e, e ∈ catalog → fits guest e = false
  | Panic => False
  end ∧
  ((∀ x y, x ∈ catalog → y ∈ catalog → fits guest x = true → fits guest y = true → compare_kernels x y = Eq → x = y) →
   ∀ listed, catalog ≡ₚ listed → gpu_select_for_guest listed guest = gpu_select_for_guest catalog guest).
Proof.
  assert (Hin : ∀ l x, x ∈ List.filter (fits guest) l ↔ x ∈ l ∧ fits guest x = true).
  { intros l x. by rewrite !list_elem_of_In, filter_In. }
  split.
  - unfold gpu_select_for_guest. destruct (max_by _ _) as [m|] eqn:Hm; cbn.
    + pose proof (max_by_some _ _ _ Hm) as [[_ Hf]%Hin Hmax]. split_and!; [done|intros e' ? ?; apply Hmax; by rewrite Hin|].
      apply max_by_last in Hm as (l1 & l2 & Hl & Hlast).
      destruct (filter_cut (fits guest) catalog l1 m l2 Hl) as (k1 & k2 & -> & <-). exists k1, k2. split; [done|].
      intros e' ? ?. apply Hlast. by rewrite Hin.
    + apply max_by_none in Hm. split; [done|]. intros e He. apply not_true_iff_false. intros Hf.
      apply (not_elem_of_nil e). rewrite <- Hm. by rewrite Hin.
  - intros Heq listed Hp. unfold gpu_select_for_guest. f_equal. apply max_by_permutation; [apply _|by apply filter_permutation|].
    intros x y [? ?]%Hin [? ?]%Hin. by apply Heq.
Qed.

Section delivered.
Context `{Hash256} `{DM : MarkerDocuments} `{D : GpuDocuments} `{Z0 : ZipCrate}.
Context {DL : GpuDocumentLaws D} {ML : MarkerDocumentLaws DM} {ZL : ZipLaws Z0}.

(** The generation at [g] is what [e] pins, and [doc] is where it is from. *)
Definition delivered (e : CatalogEntry) (fs : gmap path node) (g : path) (doc : SourceManifestDocument) : Prop :=
  ∃ c files source, sha256 c = gpu_manifest e ∧ manifest_parse_and_validate c e = Ok files ∧
    (∃ f, f ∈ files ∧ relative (prepared_path f) = SOURCES_JSON ∧ sha256 source = prepared_sha256 f) ∧
    sources_parse_and_validate source e = Ok doc ∧
    Forall (source_accounted e) (sm_sources doc) ∧ Forall (overlay_accounted e files) (sm_overlays doc) ∧
    (∃ c', fs !! (g ++ PAYLOAD_JSON) = Some (Some c') ∧ sha256 c' = gpu_manifest e) ∧
    Forall (λ f, ∃ c, fs !! (g ++ relative (prepared_path f)) = Some (Some c) ∧
      zlen c = prepared_size f ∧ sha256 c = prepared_sha256 f) files ∧
    ∀ rel c, fs !! (g ++ rel) = Some (Some c) → (∀ k, (0 < k < length rel)%nat → fs !! (g ++ take k rel) = Some None) →
      rel ∈ PAYLOAD_JSON :: map (λ f, relative (prepared_path f)) files.

Lemma gpu_release_does directory s s' r :
  catalog_from_release_directory directory s = (s', r) →
  r ≠ Panic ∧ tree_of s' = tree_of s ∧
  ∀ es, r = Ok es → Forall (carried (K := gpu_kind) (tree_of s) directory GPU_ARCHIVE_DIRECTORY) es ∧ catalog_from_entries es = Ok es.
Proof using DL ML.
  intros Hm. pose proof (calm_release (K := gpu_kind) directory GPU_ARCHIVE_DIRECTORY s) as Hc.
  apply abind_cases in Hm as [(s2 & es & Hr & Hm)|[(err & Hr & ->)|(Hr & ->)]]; rewrite Hr in Hc; [| |done];
    pose proof (reads_run _ _ _ _ (reads_release _ _) Hr) as H2; [|by split_and!].
  apply read_release_ok in Hr as [Hall _]. injection Hm as <- <-. split_and!; [|done|].
  - unfold catalog_from_entries. pose proof (check_targets_ends es [] []). by destruct (check_targets es [] []).
  - intros es' Hes. pose proof Hes as Hes'. by apply from_entries_is in Hes' as ->.
Qed.
Lemma intact_is_delivered e fs entry_directory (ready : ReadyPayload) g s' n :
  verified (K := gpu_kind) e fs entry_directory ready → intact (seen_at g s') (listed ready n) →
  ∃ doc, delivered e (tree_of s') g doc.
Proof using DL ML.
  intros Hv [Hroot Hfiles Honly]. pose proof (verified_names _ _ _ _ Hv) as Hr. unfold seen_at in *.
  destruct (verified_manifest _ _ _ _ Hv) as (c & _ & Hsha & Hparse).
  destruct (verified_provenance _ _ _ _ Hv) as (_ & source & doc & _ & Hat & Hdoc & Hover & _).
  set (files := ready_manifest ready) in *.
  destruct (sources_accounted source e files doc Hdoc Hover) as (_ & _ & _ & Hs & Ho & _).
  assert (Hproper : proper_files files) by (by eapply (parsed_is_proper (K := gpu_kind))).
  exists doc, c, files, source. split_and!; try done.
  - destruct Hproper as (_ & _ & Hin & _). apply list_elem_of_fmap_1 in Hin as (f & Hp & Hin). exists f. split_and!; [done|by rewrite <- Hp|].
    pose proof (verified_files _ _ _ _ Hv) as Hall. eapply list.Forall_forall in Hall; [|exact Hin].
    destruct Hall as (c' & Hc' & _ & <-). rewrite <- Hp in Hc'. assert (Some (Some source) = Some (Some c')) as [= ->]; [|done].
    by rewrite <- Hat, <- Hc'.
  - apply Forall_cons_1 in Hfiles as [(c' & ? & _ & Hd) _]. exists c'. split; [done|]. cbn in Hd. by rewrite Hd, Hr.
  - apply Forall_cons_1 in Hfiles as [_ Hall]. apply list.Forall_forall. intros f Hf. rewrite list.Forall_forall in Hall.
    apply (Hall (mk_expected (relative (prepared_path f)) (prepared_size f) (prepared_sha256 f))).
    apply list_elem_of_In, in_map_iff. exists f. by rewrite <- list_elem_of_In.
  - intros rel c' Hc' Hd. assert (Hne : rel ≠ []) by (intros ->; congruence).
    specialize (Honly rel (Some c') Hne Hc' Hd). cbn in Honly. by rewrite map_map in Honly.
Qed.

(** C7: Where the ready marker of every entry of the release is no longer than the
    64 KiB a marker may have, no other process writes into the cache or the VM's staging
    directory and the lock is free after finitely many waits: however staging a GPU
    payload for a VM ends, when it succeeds, the generation it names is that of the
    entry chosen for the guest from the release, by the archive's digest; the
    generation holds the manifest the entry pins, every file of that manifest by its
    size and its digest, and nothing else; and among them is the document that accounts
    for where all of it is from.  Nothing beside the cache and the VM's staging
    directory changes, and staging comes to an end.  An entry with a longer marker is
    not covered: its marker is written and quarantined without end. *)
Theorem a_vm_gets_the_generation_of_its_guest process_id locked_elsewhere lock_waits
    executable_directory cache_root vm_directory guest s s' r :
  let root := gpu_payload_staging_directory vm_directory in
  let in_release := carried (K := gpu_kind) (tree_of s) executable_directory GPU_ARCHIVE_DIRECTORY in
  (∀ e bytes, in_release e →
    marker_bytes (gpu_id e) (gpu_archive e) (gpu_manifest e) = Ok bytes → zlen bytes <= READY_MARKER_SIZE_LIMIT) →
  gpu_stage_for_vm process_id locked_elsewhere lock_waits executable_directory cache_root vm_directory guest s = (s', r) →
  r ≠ Panic ∧
  (∀ staged, r = Ok staged → ∃ es e doc,
     Forall in_release es ∧ catalog_from_entries es = Ok es ∧ gpu_select_for_guest es guest = Ok e ∧
     staged_id staged = gpu_id e ∧ staged_generation staged = gpu_archive e ∧
     under root (generation_directory staged) = true ∧
     delivered e (tree_of s') (generation_directory staged) doc) ∧
  (∀ q, beside (cache_root ++ [GPU_ARCHIVE_DIRECTORY; text "v1"]) q → beside root q → tree_of s' !! q = tree_of s !! q).
Proof using DL ML ZL.
  intros root in_release Hfits E. unfold gpu_stage_for_vm in E.
  apply abind_cases in E as [(s1 & es & Hr & E)|[(err & Hr & ->)|(Hr & ->)]]; apply gpu_release_does in Hr as (Hnp & H1 & Hes); [| |done].
  2: { split_and!; [done|done|]. intros q _ _. by rewrite H1. }
  destruct (Hes es eq_refl) as [Hall Hfe]. clear Hes Hnp.
  unfold abind at 1, pure_of in E. destruct (gpu_select_for_guest es guest) as [e|err|] eqn:Hsel.
  2: { injection E as <- <-. split_and!; [done|done|]. intros q _ _. by rewrite H1. }
  2: { unfold gpu_select_for_guest in Hsel. by destruct (max_by _ _). }
  assert (Hrel : in_release e) by (eapply list.Forall_forall in Hall; [exact Hall|by eapply gpu_selected]).
  apply abind_cases in E as [(s2 & ready & Hp & E)|[(err & Hp & ->)|(Hp & ->)]]; pose proof (prepare_does _ _ _ _ _ _ _ _ Hp) as (Hnp & Hv & Hf); [| |done].
  2: { split_and!; [done|done|]. intros q Hq _. by rewrite Hf, H1. }
  specialize (Hv ready eq_refl). clear Hnp Hp. pose proof (verified_names _ _ _ _ Hv) as Hready.
  assert (Hroot : ∀ q, beside root q → spares q (gpu_prepare_staging_root vm_directory)).
  { intros q Hq. apply spares_then; [|by intros ? ?]. apply (spares_ensure_root ready). by right; right. }
  apply abind_cases in E as [(s3 & root' & Hr & E)|[(err & Hr & ->)|(Hr & ->)]].
  3: { exfalso. assert (Hc : calm (gpu_prepare_staging_root vm_directory)) by (apply calm_then; [apply calm_ensure_root|intros ?; apply calm_good]).
       specialize (Hc s2). by rewrite Hr in Hc. }
  2: { split_and!; [done|done|]. intros q Hq Hq'. rewrite (spares_run _ _ _ _ _ (Hroot q Hq') Hr). by rewrite Hf, H1. }
  assert (H3 : ∀ q, beside root q → tree_of s3 !! q = tree_of s2 !! q) by (intros q Hq; by apply (spares_run _ _ _ _ _ (Hroot q Hq) Hr)).
  assert (root' = root) as -> by (apply abind_ok in Hr as (? & ? & _ & Hr); by injection Hr).
  apply stage_payload_does in E as (Hnp & Hdone & _ & H4); [|intros bytes; rewrite Hready; by apply Hfits].
  split_and!; [done| |intros q Hq Hq'; by rewrite H4, H3, Hf, H1].
  intros staged ->. destruct (Hdone staged eq_refl) as (-> & (n & Hn) & _).
  destruct (intact_is_delivered _ _ _ _ _ _ _ Hv Hn) as [doc Hdel].
  exists es, e, doc. split_and!; try done; [by rewrite Hready..|]. cbn [generation_directory]. unfold generation_path, generations_root.
  rewrite <- app_assoc. apply under_app.
Qed.
End delivered.

(** ** A release with a kernel in two flavours *)

Module SampleGpu.
Import SampleKind SampleMarkers SampleArchive.

Definition manifest_text : list Z := text "{gpu manifest}".
Definition sources_text : list Z := text "{gpu sources}".
Definition header_text : list Z := text "struct d3dkmthandle;".
Definition overlay_text : list Z := text "obj-m := vmlord.o".
Definition license_text : list Z := text "GPL".
Definition revision : str := text "14794180686c2fb6307fbe359c359bec765249f3".
Definition syscall_note : str := text "Linux-syscall-note".
Definition gpu_target_of (kernel : string) : GuestTarget := mk_gpu_target (text "ubuntu") (text "26.04") (text "amd64") (text kernel) 1.
Definition gpu_sample (id kernel : string) : CatalogEntry :=
  mk_catalog_entry (text id) (gpu_target_of kernel) 128 8 (sha256 archive_bytes) (sha256 manifest_text) [D3d12Gallium] Distro
    [mk_source (text "https://kernel.invalid") revision (text "6.18"); mk_source (text "https://mesa.invalid") revision (text "25.2");
     mk_source (text "https://llvm.invalid") revision (text "20.1")]
    [mk_license (text "GPL-2.0") (text "licenses/GPL-2.0.txt"); mk_license syscall_note (text "licenses/GPL-2.0.txt")].
Definition gpu_files : list PreparedFile :=
  [ mk_prepared (text "content/Kbuild") (zlen overlay_text) (sha256 overlay_text);
    mk_prepared D3DKMTHK_PATH (zlen header_text) (sha256 header_text);
    mk_prepared (text "licenses/GPL-2.0.txt") (zlen license_text) (sha256 license_text);
    mk_prepared (text "sources.json") (zlen sources_text) (sha256 sources_text) ].
Definition gpu_sources_document : SourceManifestDocument :=
  mk_source_manifest 2 (gpu_target_of "7.0.0-14-generic") [] None Distro
    [ Checkout (mk_checkout (text "https://kernel.invalid") revision (text "6.18") [text "drivers/hv/dxgkrnl/misc.c"; D3DKMTHK_PATH]
        [mk_source_license (text "drivers/hv/dxgkrnl/misc.c") (text "GPL-2.0"); mk_source_license D3DKMTHK_PATH D3DKMTHK_LICENSE]
        (sha256 header_text));
      Built (mk_built (text "https://mesa.invalid") revision (text "25.2") (text "content/mesa") [text "GPL-2.0"]
        [mk_input (text "https://llvm.invalid") revision (text "20.1")] [] (sha256 header_text)) ]
    [ mk_overlay (text "content/Kbuild") (sha256 overlay_text) (text "GPL-2.0") (text "VMLord") ].

#[export] Instance gpu_documents : GpuDocuments := {|
  catalog_entry_of bytes :=
    if bool_decide (bytes = text "{9}") then Some (2, gpu_sample "gpu-9" "7.0.0-9-generic")
    else if bool_decide (bytes = text "{14}") then Some (2, gpu_sample "gpu-14" "7.0.0-14-generic") else None;
  payload_manifest_of bytes :=
    if bool_decide (bytes = manifest_text) then Some (mk_gpu_manifest 1 (text "gpu-14") (gpu_target_of "7.0.0-14-generic") gpu_files) else None;
  source_manifest_of bytes := if bool_decide (bytes = sources_text) then Some gpu_sources_document else None;
  write_gpu_provenance e _ := Ok (gpu_id e);
|}.
#[export] Instance gpu_documents_laws : GpuDocumentLaws gpu_documents.
Proof. constructor; [|done]. intros bytes m. cbn. case_bool_decide; [|done]. intros [= <-]. by repeat constructor. Qed.

Definition nine : CatalogEntry := gpu_sample "gpu-9" "7.0.0-9-generic".
Definition fourteen : CatalogEntry := gpu_sample "gpu-14" "7.0.0-14-generic".
Definition lowlatency : CatalogEntry := gpu_sample "gpu-14-lowlatency" "7.0.0-14-lowlatency".
Definition resolute : GuestSelector := mk_selector (text "Ubuntu") (text "26.04") (text "AMD64").
Definition gpu_chosen (es : list CatalogEntry) : option str :=
  match gpu_select_for_guest es resolute with Ok e => Some (gpu_id e) | _ => None end.

Example fourteen_is_newer : gpu_chosen [nine; fourteen] = Some (text "gpu-14") ∧ gpu_chosen [fourteen; nine] = Some (text "gpu-14").
Proof. by vm_compute. Qed.
(** Two flavours of a kernel make a catalog, and then the listing chooses. *)
Example the_listing_chooses_a_flavour :
  catalog_from_entries [fourteen; lowlatency] = Ok [fourteen; lowlatency] ∧
  gpu_chosen [fourteen; lowlatency] = Some (text "gpu-14-lowlatency") ∧ gpu_chosen [lowlatency; fourteen] = Some (text "gpu-14").
Proof. by vm_compute. Qed.
Example accepted : sources_parse_and_validate sources_text fourteen = Ok gpu_sources_document ∧
  validate_overlays_against (sm_overlays gpu_sources_document) gpu_files = Ok tt.
Proof. by vm_compute. Qed.
(** An expression of three is of two, or refused. *)
Example three_in_an_expression :
  license_expression_is_declared (text "GPL-2.0 WITH Linux-syscall-note") fourteen = true ∧
  license_expression_is_declared (text "GPL-2.0 WITH GPL-2.0 WITH GPL-2.0") fourteen = false ∧
  license_expression_is_declared (text "MIT") fourteen = false ∧ license_expression_is_declared [] fourteen = false.
Proof. by vm_compute. Qed.

Definition program : path := [text "program"].
Definition shipped : path := program ++ [GPU_ARCHIVE_DIRECTORY].
Definition cache : path := [text "cache"].
Definition vm : path := [text "vms"; text "dev"].
Definition cached_entry : path := cache ++ [GPU_ARCHIVE_DIRECTORY; text "v1"; as_hex (sha256 archive_bytes)].
Definition gpu_cached : path := cached_entry ++ FILES.
Definition before : Store :=
  mk_store (mk_world (list_to_map
    [ ([], None); (program, None); (shipped, None);
      (shipped ++ [text "gpu-9.json"], Some (text "{9}")); (shipped ++ [text "gpu-9.zip"], Some []);
      (shipped ++ [text "gpu-14.json"], Some (text "{14}")); (shipped ++ [text "gpu-14.zip"], Some archive_bytes);
      (cache, None); (cache ++ [GPU_ARCHIVE_DIRECTORY], None); (cache ++ [GPU_ARCHIVE_DIRECTORY; text "v1"], None);
      (cached_entry, None); (cached_entry ++ ARCHIVE_ZIP, Some archive_bytes); (gpu_cached, None);
      (cached_entry ++ PROVENANCE_JSON, Some (text "gpu-14" ++ [10]));
      (gpu_cached ++ PAYLOAD_JSON, Some manifest_text); (gpu_cached ++ SOURCES_JSON, Some sources_text);
      (gpu_cached ++ [text "content"], None); (gpu_cached ++ [text "content"; text "Kbuild"], Some overlay_text);
      (gpu_cached ++ [text "include"], None); (gpu_cached ++ [text "include"; text "uapi"], None);
      (gpu_cached ++ [text "include"; text "uapi"; text "misc"], None); (gpu_cached ++ relative D3DKMTHK_PATH, Some header_text);
      (gpu_cached ++ [text "licenses"], None); (gpu_cached ++ [text "licenses"; text "GPL-2.0.txt"], Some license_text);
      ([text "vms"], None); (vm, None) ]) ∅ ∅ [] None []) 0%N.
Definition gpu_staged : Store * result PayloadError StagedPayload := gpu_stage_for_vm 7 false 1 program cache vm resolute before.

Example staged_for_the_newest :
  let '(s, r) := gpu_staged in
  match r with
  | Ok x => staged_id x = text "gpu-14" ∧
      tree_of s !! (generation_directory x ++ relative D3DKMTHK_PATH) = Some (Some header_text) ∧
      tree_of s !! (generation_directory x ++ SOURCES_JSON) = Some (Some sources_text)
  | _ => False
  end.
Proof. vm_compute. by split_and!. Qed.
End SampleGpu.

Section witness.
Import SampleKind SampleMarkers SampleArchive SampleGpu.

Lemma every_source_is_accounted_for_witness :
  sm_target gpu_sources_document = gpu_target fourteen ∧ sm_mesa_policy gpu_sources_document = mesa_policy fourteen ∧
  catalog_rows (sm_sources gpu_sources_document) = map source_row (gpu_sources fourteen) ∧
  Forall (source_accounted fourteen) (sm_sources gpu_sources_document) ∧
  Forall (overlay_accounted fourteen gpu_files) (sm_overlays gpu_sources_document) ∧ NoDup (map ov_path (sm_overlays gpu_sources_document)).
Proof. apply (every_source_is_accounted_for sources_text fourteen gpu_files gpu_sources_document); vm_compute; reflexivity. Defined.

Lemma the_newest_kernel_serves_witness :
  match gpu_select_for_guest [nine; fourteen] resolute with
  | Ok e =>
      fits resolute e = true ∧
      (∀ e', e' ∈ [nine; fourteen] → fits resolute e' = true → compare_kernels e' e ≠ Gt) ∧
      (∃ l1 l2, [nine; fourteen] = l1 ++ e :: l2 ∧ ∀ e', e' ∈ l2 → fits resolute e' = true → compare_kernels e e' = Gt)
  | Err refusal =>
      refusal = NoPayloadForGuest (text "Ubuntu") (text "26.04") (text "AMD64") ∧
      ∀ e, e ∈ [nine; fourteen] → fits resolute e = false
  | Panic => False
  end ∧
  gpu_select_for_guest [fourteen; nine] resolute = gpu_select_for_guest [nine; fourteen] resolute.
Proof.
  destruct (the_newest_kernel_serves [nine; fourteen] resolute) as [H1 H2]. split; [exact H1|].
  apply H2; [|by constructor]. intros x y Hx Hy _ _. rewrite !elem_of_cons, elem_of_nil in Hx, Hy.
  destruct Hx as [->|[->|[]]], Hy as [->|[->|[]]]; vm_compute; done.
Defined.

Lemma gpu_markers_fit e c bytes :
  entry_from_json c = Ok e → marker_bytes (gpu_id e) (gpu_archive e) (gpu_manifest e) = Ok bytes → zlen bytes <= READY_MARKER_SIZE_LIMIT.
Proof.
  intros Hj Hb. unfold marker_bytes in Hb. cbn in Hb. injection Hb as <-.
  unfold entry_from_json in Hj. cbn in Hj. repeat case_bool_decide; [..|done]; vm_compute in Hj; injection Hj as <-; by vm_compute.
Qed.

Lemma a_vm_gets_the_generation_of_its_guest_witness :
  let '(s', r) := gpu_stage_for_vm 7 false 1 program cache vm resolute before in
  let in_release := carried (K := gpu_kind) (tree_of before) program GPU_ARCHIVE_DIRECTORY in
  r ≠ Panic ∧
  (∀ staged, r = Ok staged → ∃ es e doc,
     Forall in_release es ∧ catalog_from_entries es = Ok es ∧ gpu_select_for_guest es resolute = Ok e ∧
     staged_id staged = gpu_id e ∧ staged_generation staged = gpu_archive e ∧
     under (gpu_payload_staging_directory vm) (generation_directory staged) = true ∧
     delivered e (tree_of s') (generation_directory staged) doc) ∧
  (∀ q, beside (cache ++ [GPU_ARCHIVE_DIRECTORY; text "v1"]) q → beside (gpu_payload_staging_directory vm) q →
     tree_of s' !! q = tree_of before !! q).
Proof.
  destruct (gpu_stage_for_vm 7 false 1 program cache vm resolute before) as [s' r] eqn:E.
  exact (a_vm_gets_the_generation_of_its_guest 7 false 1 program cache vm resolute before s' r
    (λ e bytes H Hb, match H with conj (ex_intro _ c (conj _ Hj)) _ => gpu_markers_fit e c bytes Hj Hb end) E).
Defined.
End witness.

